(* ===== verification/_CoqProject ===== *)
-Q . S2P
Prelude.v
RustStr.v
Yml.v
McpPatterns.v
GrantData.v
Subset.v
Projection.v
Cascade.v
Events.v
GrantSqlite.v
GrantStore.v
StoreFacts.v
StoreProps.v
Revocation.v
PresetApply.v
Durable.v
GrantCheck.v
Compile.v
Preset.v
SentCache.v
ApprovalIntake.v
IntakeProps.v
Resolver.v
ApprovalRace.v
RaceProps.v
RaceResults.v
ResolverProps.v
Wit.v
WitProps.v
RunData.v
RunStore.v
RunManager.v
RunOps.v
RunFacts.v
RunKeeps.v
RunProps.v
RunTree.v
RunSpec.v
RunCascade.v
RunCascadeAlone.v
RunWit.v
RepetitionGuard.v
RunDivergences.v
Divergences.v
AgentTree.v
AgentTreeFacts.v
AgentSnapshot.v
AgentTreeProps.v
Terminate.v
TerminateProps.v
Deadlock.v
RunSealed.v
CascadeAdapters.v
Decomposition.v
DecompositionCycle.v
DecompositionProps.v
DecompositionResults.v
Spawn.v
SpawnProps.v
AwaitData.v
AwaitManager.v
AwaitDemo.v
AwaitRoute.v
AwaitLife.v
AwaitEffects.v
AwaitReplies.v
AwaitFacts.v
AwaitLive.v
AwaitProps.v
AwaitGaps.v
MailboxData.v
Mailbox.v
MailboxDemo.v
MailboxFacts.v
MailboxProps.v
MailboxLive.v
MailboxGaps.v
Routing.v
ChildRoutes.v
