(* ===== verification/Prelude.v ===== *)
(** * Verification of the advance-agents kernel

    advance-agents runs agents as WebAssembly components.  At every host call it
    decides whether the agent holds a grant that covers it, and every turn of an
    agent belongs to a run with a budget and a life cycle.  This library models
    the crate that holds the grants, [crates/capabilities/cap-grant], and the
    crate that holds the runs, [crates/run-manager], with the parts of
    [crates/shared-types], [crates/runtime] and [crates/runtime-compose] they
    are built on or wired by.  It proves the properties their safety rests on:
    authority is never amplified, revocation is complete, the durable index
    recovers what memory held, an operator's approval is used once, by the
    request it was given to; a task has one live run, a run never exceeds its
    token limit, a cancel is never lost and takes every descendant with it.

    Agents form a tree; [crates/capabilities/cap-lifecycle] keeps it, spawns
    agents into it and tears them down.  Of it the library proves that an agent
    holds no more than any of its ancestors, that a terminated agent is left
    without runs and grants, and that a decomposed task stays a sound plan.

    Agents ask one another and wait; [crates/messaging/reply-tracker] keeps the
    session of each wait.  Of it the library proves that a waiting call gets
    one answer, the one its own session was given, that no acknowledged reply is
    lost and that no interleaving leaves the call waiting.

    Between them messages go through mailboxes; [crates/messaging] has these and
    the routes, [crates/runtime-compose] registers a mailbox and its loop for
    each spawned agent.  Of them the library proves that messages come out once
    and in order, that a protected turn is always in exactly one place, that no
    wake-up is lost and that a mailbox has one loop.

    ** How the program is put together

    A grant is a record: who holds it, for which capability, under which
    parameters, issued by whom, until when.  The store keeps the grants in
    memory with three indexes and writes each change to SQLite.  A grant is
    issued by the static configuration, by delegation from another grant, by a
    preset, or by the resolver chain answering a request.  A host call asks the
    gate, which reads the store.  A guest reaches the store through seven host
    functions.  The operator reaches it through the approval intake.

    A run is a record too: a task, its controlling agent, a status, a budget.
    The manager keeps the runs in memory with an index of the live one of each
    task, writes each change to a file per task, and is called by the agent
    loop, the guests, the operator and the lifecycle of agents at once.  What a
    call does while it holds the lock is a section; between two sections any
    other caller may take its own.

    The tree store keeps a node per agent, its children and its handle.  The
    spawner checks a request against the parent's node and the subset rules of
    the grants, prepares a workspace and inserts the child.  The terminate
    controller freezes a subtree, then ends, agent by agent, its loop, its runs
    (in the run manager), its mailbox and its grants (in the grant store).  The
    run manager and the reply tracker walk snapshots of the same tree.

    The session manager of the reply tracker shares four tables between its
    calls and one idle monitor per session.  Whoever takes a session out of the
    table (a reply that completes it, the start itself, close, the monitor)
    owns the sender of its one-shot channel, cleans up and sends the answer.

    A mailbox has two queues, by priority.  A plain message is pushed and popped;
    a protected turn is staged under a durable record, published with its batch,
    taken by the loop with a recovery guard, and settled, put back or latched
    for recovery.  The loop of a spawned agent serves its mailbox as long as the
    agent's route and the pair of its two ids are registered.

    ** The files

    - [Prelude]: results, the state-and-error monad every operation is written
      in ([M S E A]: an error keeps the state reached so far, as in Rust), list
      and map lemmas, the shared tactics.
    - [RustStr]: the [str] functions of Rust's library the sources call;
      [Yml]: parsed YAML documents and their accessors.
    - [McpPatterns] (shared-types/src/mcp.rs): the tool-pattern grammar, the
      scope of an [mcp] grant, server ids and request tokens.
    - [GrantData] (data.rs, error.rs): the records and enums of a grant, with
      the parameters for time ([Chrono]) and text ([Codec]).
    - [Subset] (subset.rs): when a grant may issue another ([validate]) and
      when it covers a call ([covers_request]).  The class [SubsetValidator] is
      the Rust trait; [SubsetValidatorLaws] is what the other files rely on,
      proved there of the implementation.
    - [Projection] (capability_subset.rs): JSON parameters to strings, and the
      admission gate for spawned agents.
    - [Cascade] (cascade.rs), [Events] (events.rs), [GrantSqlite] (sqlite.rs):
      the walk over delegated grants, the event builders, the table of rows.
    - [GrantStore] (store.rs, sweeper.rs): the store and all its operations.
      [StoreFacts], [StoreProps], [Revocation], [PresetApply], [Durable] hold
      its invariants and theorems, by subject.
    - [GrantCheck] (check.rs): the gate, its audit event, the listing readers.
    - [Compile] (compile.rs, lib.rs): the static configuration and cold start.
    - [Preset] (preset.rs): the preset registry, the YAML loader, the apply.
    - [SentCache], [Resolver] (resolver.rs; runtime-compose/src/wiring.rs for
      the order of the chain): the cache of sent approvals, the five resolvers
      and the chain that walks them.  [ResolverProps] has their theorems.
    - [ApprovalIntake] (approval_intake.rs): the operator's registry of parked
      requests, which implements the class [ChannelApprovalPort] (the Rust
      trait) the resolver is written against.  [IntakeProps] has its theorems.
    - [ApprovalRace]: [resolve] cut at its locks and interleaved with other
      retries, the delivery worker and the operator, as a step function.
      [RaceProps] has its invariants, [RaceResults] its theorems.
    - [Wit] (wit_impl.rs; runtime/src/host_registry.rs for the call frame): the
      host functions and the conversions to and from component values.
      [WitProps] has their theorems.
    - [RunData] (run-manager/src: run.rs, identifier.rs, retry.rs, events.rs):
      the record of a run, its budget, checks and events.  [RunStore] (store.rs,
      persist.rs): the table of runs and the files.  [RunManager] (run.rs,
      budget.rs, recovery.rs): each locked section as a state transformer.
      [RunOps]: the operations as sequences of sections, run in a [World] that
      lists what other callers do at each point in between ([others]).
    - [RunFacts], [RunKeeps]: every section, then every operation, keeps the
      invariant and lets runs only move forward.  [RunProps] states what
      follows for all reachable states; [RunTree] is the walk over descendant
      agents; [RunSpec] the contracts of creation and reservation;
      [RunCascade] and [RunCascadeAlone] the cascade, under interference and
      alone; [RunWit] (wit_impl.rs) the guest interface.
    - [RepetitionGuard] (repetition_guard.rs): the guard against repetition and
      its refinement of a function of the agent's history.
    - [RunDivergences]: as [Divergences], for runs.
    - [AgentTree] (cap-lifecycle/src: tree.rs, identifier.rs; shared-types/src/
      agent_tree.rs): the store, its snapshot and both readers, an instance
      each of the class [AgentTreeReader] (the Rust trait).  [AgentTreeFacts]
      has the invariant of the store and what each operation did,
      [AgentSnapshot] the walk that builds the snapshot, [AgentTreeProps] the
      theorems.
    - [Terminate] (terminate.rs): the controller, over a record of hooks (the
      six Rust traits), with any acts of other callers before each of its
      accesses.  [TerminateProps] has its theorem for all hooks;
      [CascadeAdapters] (cascade_adapters.rs) wires it to the grant store and
      the run manager, for which [RunSealed] says that a terminated agent gets
      no more runs; it also has the theorem on the cascade of [RunCascade].
    - [Deadlock] (messaging/reply-tracker/src/deadlock.rs): the ancestry walk
      that refuses an await.
    - [Decomposition] (decomposition.rs): plans, the search for cycles, the
      documents.  [DecompositionCycle] has the search, [DecompositionProps] the
      runs and the invariant, [DecompositionResults] the theorems.
    - [Spawn] (spawn.rs; [resolve_under_parent] of workspace.rs,
      cap_grant_adapter.rs): both spawns, over a record of operations on the
      file system.  [SpawnProps] has what they keep.
    - [AwaitData] (messaging/reply-tracker/src: session.rs, error.rs, detach.rs,
      session_context.rs; shared-types/src/await_session.rs; messaging/src/
      id_validation.rs): sessions, requests, replies, errors, ids.
      [AwaitManager] (manager.rs, idle.rs, dispatch.rs,
      component_resolution.rs): the tables, every call and the idle monitor cut
      at their locks, and the [step] that interleaves any number of them.
      [AwaitLife] is the abstract specification: the stages of a call's life
      and how a state shows them ([tracks]).  [AwaitEffects] presents [step] as
      a relation by its effects on the tables, [AwaitReplies] has what replies
      and answers are well formed, [AwaitFacts] the invariant and the
      simulation.  [AwaitLive], [AwaitProps] and [AwaitRoute] have the
      theorems, [AwaitDemo] a run they are tried on, [AwaitGaps] the schedules
      on which the manager falls short.
    - [MailboxData] (messaging/src/mailbox.rs; shared-types/src: mailbox.rs,
      turn_attribution.rs): messages, specs of turns, entries.  [Mailbox]
      (messaging/src/mailbox.rs): the state of one mailbox with a program
      counter per call, every call cut at its locks, flags, uses of the notifier
      and questions to the turn authority, and the [step] that interleaves
      them.  [MailboxFacts] presents each step by the entries it moves,
      [MailboxProps] and [MailboxLive] have the theorems, [MailboxDemo] the
      runs they are tried on, [MailboxGaps] the schedules on which the mailbox
      does what its documentation excludes.
    - [Routing] (messaging/src: dynamic_routing.rs, hierarchy.rs, id_bridge.rs):
      who may send to whom and the two forms of an id.  [ChildRoutes]
      (runtime-compose/src/perchild_daemon.rs): the registration of spawned
      agents and their loops, interleaved, with its theorem.
    - [Divergences]: runs of the model where the code and its comments differ.

    ** What the theorems show

    - Authority.  [authority_never_amplified]: over any run of the store in
      which no stored static grant is re-inserted with another capability or
      other params ([admissible]; [narrowed_configuration_leaves_delegations]
      shows why), a grant reached by delegations and narrowings covers no call
      its ancestor does not; [issued_grant_never_covers_more], [delegate_attenuates],
      [apply_preset_never_widens] and [narrow_replaces] are its one-step
      forms; [request_capability_never_amplifies] is the end-to-end form for a
      guest, through the chain and any past of the approval system.
    - The gate.  [check_decides] characterises it; [mcp_listing_matches_calls]
      says the listings agree with it; [sanitize_event_string_safe] bounds
      what reaches the audit log.
    - The store.  [indexes_exact], [grants_only_retire],
      [delegate_grant_decides]; the revocations ([cascade_revoke_complete],
      [cascade_by_issuer_complete], [apply_preset_replaces]); consumption and
      expiry; [walk_descendants_exact] for the walk under them.
    - Durability.  [successful_ops_stay_synced], [restart_recovers_active],
      [cold_start_exact], [row_roundtrip].
    - Approvals.  [approvals_traced], [approvals_single_use], [retries_return]
      over all interleavings; [channel_resolve_refines] ties the straight-line
      resolver of the chain to them; [intake_bounded], [sent_cache_bounded]
      bound the two tables; [preset_supersedes_approvals]; [chain_audits].
    - Input.  [covers_exact] and [url_pattern_subset_exact] (pattern inclusion
      is language inclusion), [project_params_lossless], the preset loader and
      registry theorems, [guest_answers_typed], [wire_roundtrip],
      [no_ownership_oracle], [guest_listings_exact].
    - Runs.  [live_runs_indexed], [runs_well_formed], [tokens_within_limit]
      and [ended_runs_final] hold in every reachable state, whatever sections
      and calls led there; [cancel_never_lost] holds under every interleaving,
      [cascade_ends_descendants] under every one that leaves the agent tree and
      the cascade's creation blocks alone; [ensure_run_exact], [check_exact],
      [cascade_alone_exact] say what single calls do on every branch;
      [post_order_exact] covers the recursion; [wit_calls_confined] the guests.
      [guard_follows_history] and [termination_is_earned] are the guard's.
    - Agents.  [agent_tree_well_formed] holds of every reachable tree;
      [snapshot_exact] and [snapshot_reader_agrees] say the snapshot is the
      tree; [set_handle_exact] the renaming; [cascade_walk_answers] that the
      run manager's walk answers on it, [forms_cycle_exact] what the reply
      tracker's walk finds.  [spawned_within_ancestors] holds for spawners that
      interleave in any way, as long as no id is used for agents with different
      capabilities or workspaces: their steps and those of the others keep to a
      common assignment of capabilities and workspaces to ids ([vetted]), and
      each relies on no more than that.  Its part on workspaces is for
      workspaces without links ([no_links]).
    - Termination.  [terminate_child_completes] is the controller's contract:
      whatever peaceful callers do in between, it returns and has torn down
      exactly the subtree, children first, each agent by exactly the documented
      calls in their order ([agent_calls]); it is stated for any hooks that keep
      a property of the log of calls.  [terminated_hold_nothing] instantiates
      it with the grant store and the run manager, and [cancel_all_final] is
      the run manager's side.
    - Plans.  [detect_cycle_exact], [submit_exact], [plans_well_formed].
    - Await sessions, under any interleaving of calls and monitors.
      [manager_refines_life]: every step moves at most one call by one
      [stage_step] of [AwaitLife].  [answered_once]: an answer is sent once and
      is what the start returns.  [start_returns_its_answer]: it is about the
      requests that start made.  [acknowledged_reply_in_answer]: a reply
      [on_reply] accepts for a session that wants every reply is in it, unless
      the session was closed or, under its [Fail] policy, timed out.
      [caller_within_inflight]: the count of a caller is exact and within its
      cap.  [waiting_start_returns]: no start hangs once its session is open.
      [find_route_oldest]: where a reply without a correlation id goes.
    - Mailboxes, under any interleaving of calls and whatever the turn authority
      answers.  [messages_once_in_order], [turns_in_one_place] and
      [occupancy_within_capacity] are invariants; [parked_receiver_served] is
      about one receiver at a time ([disciplined]), as the code has it.
      [one_loop_per_mailbox] is the registration's, over spawns, loops and
      shutdowns; an abort is not among them
      ([ChildRoutes.stale_cleanup_two_loops] shows why).
    ** Conventions

    A Rust integer is a [Z] with its width's bounds written where the code
    checks, saturates or wraps.  A string is the list of its UTF-8 bytes.  A
    [HashMap] is a [gmap]; where the code iterates one, the order is a
    parameter ([HashOrder], [EntryOrder]) of which only a permutation is
    assumed.  The instants a call reads from the clock and the ids it draws are
    arguments, one per reading.  A lock's section runs as one step; where
    several sections of one call matter, as in the approvals, they are separate
    steps and any schedule of them is considered.  A database call may fail
    ([faults] of the index says which) and a failed one changes no row.  Of an
    error's text only the constant part is kept.  An [f64] is an IEEE binary64
    of [SpecFloat].
    A path is its list of components.  Of the errors of the tree, the spawner
    and the controller no text is kept.  In [Terminate] and [Spawn] each access
    to the tree and each hook is one step, and a list in the world ([others])
    says what other callers do before each.

    In [AwaitManager] a state holds a program counter for each call and monitor,
    and a step runs one of them from one acquisition of a lock to the next; the
    actions of the owner of a removed session are steps of their own.  One clock
    in milliseconds stands for the program's three.  A one-shot channel is named
    by the start that waits on it.  The fields [drawn], [charged] and [opened]
    are history and no step reads them, except that an id already drawn is not
    drawn again (the program draws UUIDs).

    [Mailbox] and [ChildRoutes] cut calls likewise.  The lists of what was
    accepted, received and staged are history, and each entry has an id of its
    own by which it is followed.

    Parameters stand for code of libraries, each with laws that state its
    documented behaviour and a concrete instance the witnesses run on: chrono
    ([Chrono]), serde_json and RFC 3339 text ([Codec], [FingerprintText],
    [ParseDate]), serde_yml ([Yaml]), Unicode case mapping ([CharCase]), the
    run budget of the resolver chain, serde_yml on runs ([RunYaml]), the order
    of a hash map and of a directory ([RunOrder], [DirOrder]).
    Further: the uuid crate ([Uuid]; its law, that no two draws agree, is the
    usual idealisation), the text of a decomposition ([DecompositionYaml]), what
    [canonicalize] answers, the order in which the table of await sessions is
    iterated ([SessionOrder]), what the mailbox ports and the claim of a reply
    answer ([Answers]), the mailbox and file hooks of the controller,
    the file-system work of the spawner ([Workspaces]), tokio's notifier
    ([Notify]; its laws say which futures [notify_one] makes ready), and what
    the turn authority answers a mailbox.

    Fuel.  [walk_descendants] runs on the number of nodes it may still visit
    and the eviction loops of the cache on [overflow_fuel]; both are proved
    enough ([walk_descendants_exact], [overflow_terminates]).  Everything else
    is structural recursion.  Schedules of the interleaved system are finite
    lists, and [retries_return] shows one completes from every state.  The walk
    over descendant agents has the source's own depth bound as its fuel
    ([post_order_exact] says when it is enough), and the retry loops of the
    run manager the source's own limits.
    The walks over the agent tree have the number of agents as their depth,
    which [snapshot_exact] and [cascade_walk_answers] show to be enough; the
    freeze and the removal order run on [cascade_fuel], twice the largest number
    of agents and one; the search for cycles on the number of subtasks and
    dependencies ([detect_cycle_exact]).

    ** Not modelled

    The SQL engine, tokio's tasks and the threads themselves, the event bus
    behind [emit], warnings printed to the standard error, and the mutex
    poisoning the code recovers from.  Of the run manager: the helpers compiled
    for tests only, the rows of an await-session summary, and a creation that
    is undone under interference, which breaks the index
    ([RunDivergences.rollback_unindexes_another_run]) and is left out of the
    reachable states.  Of the agents' life cycle: templates, checkpoints and
    rollback, bootstrap from disk, statistics and the guest interface; of the
    reply tracker the state machine of a claimed turn (its outcome is an
    answer), its host functions, the two best-effort readers behind them, and
    tasks that are cancelled while they run.  Of messaging: the dispatcher and
    its loop over the store, the trace of messages, batches across mailboxes
    (a mailbox's part of one is modelled), the turn authority's own records; of
    the loops of spawned agents what happens before the component has loaded and
    the drain after an abort.  An agent spawned under the id
    of a removed one is outside [spawned_within_ancestors]
    ([SpawnProps.reused_parent_id_amplifies] shows why).  The rest of the workspace (the language
    model gateways, the scheduler, the file and network capabilities, the
    client API and the command line) is outside this library. *)

From Stdlib Require Export ZArith Lia String Ascii.
From stdpp Require Export base tactics option list gmap strings sorting.
#[global] Set Default Goal Selector "!".
#[global] Open Scope Z_scope.

(** ** Results and the state-and-error monad *)

(** Rust's [Result<A, E>]. *)
Inductive result (E A : Type) : Type :=
| Ok (a : A)
| Err (e : E).
Arguments Ok {E A} a.
Arguments Err {E A} e.

#[export] Instance result_ret (E : Type) : MRet (result E) := λ A a, Ok a.
#[export] Instance result_bind (E : Type) : MBind (result E) := λ A B k r,
  match r with Ok a => k a | Err e => Err e end.
#[export] Instance result_eq_dec `{EqDecision E, EqDecision A} : EqDecision (result E A).
Proof. solve_decision. Defined.

Definition is_ok {E A} (r : result E A) : bool :=
  match r with Ok _ => true | Err _ => false end.

(** [guard_err b e]: the early return [if b { return Err(e) }]. *)
Definition guard_err {E} (b : bool) (e : E) : result E unit :=
  if b then Err e else Ok tt.

(** [Option::ok_or]. *)
Definition ok_or {E A} (o : option A) (e : E) : result E A :=
  match o with Some a => Ok a | None => Err e end.

(** [for x in l { f(x)? }]: the first error ends the loop. *)
Fixpoint try_for {E A} (f : A → result E unit) (l : list A) : result E unit :=
  match l with
  | [] => Ok tt
  | x :: l => _ ← f x; try_for f l
  end.

(** [iter.map(f).collect::<Result<Vec<_>, _>>()]. *)
Fixpoint try_map {E A B} (f : A → result E B) (l : list A) : result E (list B) :=
  match l with
  | [] => Ok []
  | x :: l => y ← f x; ys ← try_map f l; Ok (y :: ys)
  end.

(** Code that mutates a state of type [S] and may return early with an error.
    An error keeps the state reached so far: Rust has no rollback. *)
Definition M (S E A : Type) : Type := S → result E A * S.

#[export] Instance M_ret (S E : Type) : MRet (M S E) := λ A a s, (Ok a, s).
#[export] Instance M_bind (S E : Type) : MBind (M S E) := λ A B k m s,
  match m s with
  | (Ok a, s') => k a s'
  | (Err e, s') => (Err e, s')
  end.

Definition get_state {S E} : M S E S := λ s, (Ok s, s).
Definition modify {S E} (f : S → S) : M S E unit := λ s, (Ok tt, f s).
Definition lift {S E A} (r : result E A) : M S E A := λ s, (r, s).
Definition throw {S E A} (e : E) : M S E A := λ s, (Err e, s).

(** [if b { return Err(e) }] in code that has state. *)
Definition fail_if {S E} (b : bool) (e : E) : M S E unit := lift (guard_err b e).

(** [for x in l { if let Some(y) = f(x)? { out.push(y) } }]. *)
Fixpoint collect {S E A B} (f : A → M S E (option B)) (l : list A) : M S E (list B) :=
  match l with
  | [] => mret []
  | x :: l =>
      o ← f x;
      ys ← collect f l;
      mret (match o with Some y => y :: ys | None => ys end)
  end.

(** [for x in l { f(x)?; }]. *)
Fixpoint for_each {S E A} (f : A → M S E unit) (l : list A) : M S E unit :=
  match l with
  | [] => mret tt
  | x :: l => _ ← f x; for_each f l
  end.

(** [Vec::len]. *)
Definition size_of {A} (l : list A) : Z := Z.of_nat (length l).

(** ** Generic facts *)

Section result_facts.
Context {E : Type}.

Lemma bind_Ok {A B} (r : result E A) (k : A → result E B) b :
  (r ≫= k) = Ok b ↔ ∃ a, r = Ok a ∧ k a = Ok b.
Proof. destruct r; simpl; naive_solver. Qed.

Lemma bind_unit_Ok {B} (r : result E unit) (k : unit → result E B) b :
  (r ≫= k) = Ok b ↔ r = Ok tt ∧ k tt = Ok b.
Proof. rewrite bind_Ok. split; [intros ([] & ? & ?); done | naive_solver]. Qed.

Lemma guard_err_Ok (b : bool) (e : E) u : guard_err b e = Ok u ↔ b = false.
Proof. destruct b, u; naive_solver. Qed.

Lemma ok_or_Ok {A} (o : option A) (e : E) a : ok_or o e = Ok a ↔ o = Some a.
Proof. destruct o; naive_solver. Qed.

Lemma try_for_Ok {A} (f : A → result E unit) l :
  try_for f l = Ok tt ↔ Forall (λ x, f x = Ok tt) l.
Proof.
  induction l as [|x l IH]; simpl; [done|].
  rewrite bind_unit_Ok, IH, Forall_cons. done.
Qed.

Lemma try_map_Ok {A B} (f : A → result E B) l ys :
  try_map f l = Ok ys ↔ Forall2 (λ x y, f x = Ok y) l ys.
Proof.
  revert ys. induction l as [|x l IH]; simpl; intros ys.
  - split; [intros [= <-]; constructor | by inversion 1].
  - setoid_rewrite bind_Ok. setoid_rewrite bind_Ok. setoid_rewrite IH. split.
    + intros (y & ? & ys' & ? & [= <-]). by constructor.
    + inversion 1; subst. eauto 10.
Qed.

Lemma is_ok_true {A} (r : result E A) : is_ok r = true ↔ ∃ a, r = Ok a.
Proof. destruct r; naive_solver. Qed.

Lemma is_ok_unit (r : result E unit) : is_ok r = true ↔ r = Ok tt.
Proof. destruct r as [[]|]; naive_solver. Qed.
End result_facts.

Section monad_facts.
Context {S E : Type}.

Lemma M_bind_Ok {A B} (m : M S E A) (k : A → M S E B) s b s' :
  (m ≫= k) s = (Ok b, s') ↔ ∃ a s1, m s = (Ok a, s1) ∧ k a s1 = (Ok b, s').
Proof.
  unfold mbind, M_bind. destruct (m s) as [[a|e] s1]; naive_solver.
Qed.

Lemma M_bind_Err {A B} (m : M S E A) (k : A → M S E B) s e s' :
  (m ≫= k) s = (Err e, s') ↔
    m s = (Err e, s') ∨ ∃ a s1, m s = (Ok a, s1) ∧ k a s1 = (Err e, s').
Proof.
  unfold mbind, M_bind. destruct (m s) as [[a|e'] s1]; naive_solver.
Qed.

Lemma lift_Ok {A} (r : result E A) s a s' : (lift r : M S E A) s = (Ok a, s') ↔ r = Ok a ∧ s = s'.
Proof. unfold lift. destruct r; naive_solver. Qed.
End monad_facts.

(** [keeps R m]: whatever [m] returns, it relates its start and final states
    by [R]. *)
Definition keeps {S E A} (R : relation S) (m : M S E A) : Prop := ∀ s, R s (m s).2.

(** [okeeps R m]: a successful run of [m] relates its two states by [R]. *)
Definition okeeps {S E A} (R : relation S) (m : M S E A) : Prop :=
  ∀ s a s', m s = (Ok a, s') → R s s'.

(** [total P m]: from a state in [P], [m] succeeds and ends in [P]. *)
Definition total {S E A} (P : S → Prop) (m : M S E A) : Prop :=
  ∀ s, P s → ∃ a s', m s = (Ok a, s') ∧ P s'.

Section keeps_facts.
Context {S E : Type} (R : relation S) `{!PreOrder R}.

Lemma keeps_ret {A} (a : A) : keeps R (mret a : M S E A).
Proof. intros s. simpl. reflexivity. Qed.

Lemma keeps_get_state : keeps R (get_state : M S E S).
Proof. intros s. simpl. reflexivity. Qed.

Lemma keeps_lift {A} (r : result E A) : keeps R (lift r : M S E A).
Proof. intros s. simpl. reflexivity. Qed.

Lemma keeps_fail_if b (e : E) : keeps R (fail_if b e : M S E unit).
Proof. apply keeps_lift. Qed.

Lemma keeps_bind {A B} (m : M S E A) (k : A → M S E B) :
  keeps R m → (∀ a, keeps R (k a)) → keeps R (m ≫= k).
Proof.
  intros Hm Hk s. specialize (Hm s). unfold mbind, M_bind. destruct (m s) as [[a|e] s1]; simpl in *; [|done].
  by etrans; [exact Hm | apply Hk].
Qed.

Lemma keeps_collect {A B} (f : A → M S E (option B)) l :
  (∀ x, keeps R (f x)) → keeps R (collect f l).
Proof.
  intros Hf. induction l as [|x l IH]; simpl; [apply keeps_ret|].
  apply keeps_bind; [done|]. intros o. apply keeps_bind; [done|]. intros ys. apply keeps_ret.
Qed.

Lemma keeps_for_each {A} (f : A → M S E unit) l :
  (∀ x, keeps R (f x)) → keeps R (for_each f l).
Proof.
  intros Hf. induction l as [|x l IH]; simpl; [apply keeps_ret|]. apply keeps_bind; auto.
Qed.
End keeps_facts.

Section okeeps_facts.
Context {S E : Type} (R : relation S) `{!PreOrder R}.

Lemma okeeps_pure {A} (m : M S E A) : (∀ s, (m s).2 = s) → okeeps R m.
Proof. intros Hm s a s' Hrun. specialize (Hm s). rewrite Hrun in Hm. simpl in Hm. by subst. Qed.

Lemma okeeps_ret {A} (a : A) : okeeps R (mret a : M S E A).
Proof. by apply okeeps_pure. Qed.

Lemma okeeps_bind {A B} (m : M S E A) (k : A → M S E B) :
  okeeps R m → (∀ a, okeeps R (k a)) → okeeps R (m ≫= k).
Proof.
  intros Hm Hk s b s' (a & s1 & Hrun & Hrun')%M_bind_Ok.
  etrans; [by eapply Hm | by eapply Hk].
Qed.

Lemma okeeps_collect {A B} (f : A → M S E (option B)) l :
  (∀ x, okeeps R (f x)) → okeeps R (collect f l).
Proof.
  intros Hf. induction l as [|x l IH]; simpl; [apply okeeps_ret|].
  apply okeeps_bind; [done|]. intros o. apply okeeps_bind; [done|]. intros ys. apply okeeps_ret.
Qed.

Lemma okeeps_for_each {A} (f : A → M S E unit) l :
  (∀ x, okeeps R (f x)) → okeeps R (for_each f l).
Proof.
  intros Hf. induction l as [|x l IH]; simpl; [apply okeeps_ret|]. apply okeeps_bind; auto.
Qed.
End okeeps_facts.

Section total_facts.
Context {S E : Type} (P : S → Prop).

Lemma total_ret {A} (a : A) : total P (mret a : M S E A).
Proof. intros s Hs. by exists a, s. Qed.

Lemma total_bind {A B} (m : M S E A) (k : A → M S E B) :
  total P m → (∀ a, total P (k a)) → total P (m ≫= k).
Proof.
  intros Hm Hk s Hs. destruct (Hm s Hs) as (a & s1 & Hrun & Hs1). unfold mbind, M_bind. rewrite Hrun.
  by apply Hk.
Qed.

Lemma total_get {B} (k : S → M S E B) s :
  (∃ b s', k s s = (Ok b, s') ∧ P s') → ∃ b s', (get_state ≫= k) s = (Ok b, s') ∧ P s'.
Proof. done. Qed.

Lemma total_collect {A B} (f : A → M S E (option B)) l :
  (∀ x, x ∈ l → total P (f x)) → total P (collect f l).
Proof.
  induction l as [|x l IH]; simpl; intros Hf; [apply total_ret|].
  apply total_bind; [apply Hf; left|]. intros o.
  apply total_bind; [apply IH; intros y Hy; apply Hf; by right|]. intros ys. apply total_ret.
Qed.

Lemma total_for_each {A} (f : A → M S E unit) l :
  (∀ x, x ∈ l → total P (f x)) → total P (for_each f l).
Proof.
  induction l as [|x l IH]; simpl; intros Hf; [apply total_ret|].
  apply total_bind; [apply Hf; left|]. intros []. apply IH. intros y Hy. apply Hf. by right.
Qed.
End total_facts.

Create HintDb keeps.
#[export] Hint Resolve keeps_ret keeps_get_state keeps_lift keeps_fail_if keeps_collect keeps_for_each : keeps.

(** Discharge [keeps] goals structurally. *)
Ltac keeps :=
  repeat match goal with
  | |- keeps _ (mbind _ _) => apply (keeps_bind _); [|intros ?]
  | |- keeps _ (match ?x with _ => _ end) => destruct x
  | |- keeps _ (collect _ _) => apply (keeps_collect _); intros ?
  | |- keeps _ (for_each _ _) => apply (keeps_for_each _); intros ?
  | |- keeps _ _ => solve [eauto with keeps]
  end.

(** Turn boolean tests in the context and the goal into propositions. *)
Ltac b2p :=
  repeat match goal with
  | H : _ && _ = true |- _ => apply andb_true_iff in H as [? ?]
  | H : _ || _ = false |- _ => apply orb_false_iff in H as [? ?]
  | H : negb _ = true |- _ => apply negb_true_iff in H
  | H : negb _ = false |- _ => apply negb_false_iff in H
  | H : String.eqb _ _ = true |- _ => apply String.eqb_eq in H
  | H : String.eqb _ _ = false |- _ => apply String.eqb_neq in H
  | H : bool_decide _ = true |- _ => apply bool_decide_eq_true in H
  | H : bool_decide _ = false |- _ => apply bool_decide_eq_false in H
  end.

(** Prove a boolean conjunction from propositional facts. *)
Ltac p2b :=
  repeat match goal with
  | |- _ && _ = true => apply andb_true_iff; split
  | |- negb _ = true => apply negb_true_iff
  | |- String.eqb _ _ = true => apply String.eqb_eq
  | |- String.eqb _ _ = false => apply String.eqb_neq
  | |- bool_decide _ = true => apply bool_decide_eq_true
  | |- bool_decide _ = false => apply bool_decide_eq_false
  end; try done.

(** Split the successful run of a [result] or [M] computation into its steps. *)
Ltac steps :=
  repeat match goal with
  | H : (_ ≫= _) _ = (Ok _, _) |- _ => apply M_bind_Ok in H as (? & ? & ? & H)
  | H : (_ ≫= _) = Ok _ |- _ => apply bind_Ok in H as (? & ? & H)
  | H : guard_err _ _ = Ok _ |- _ => apply guard_err_Ok in H
  | H : ok_or _ _ = Ok _ |- _ => apply ok_or_Ok in H
  end.

(** Split the failing run of a [M] computation by the step that failed. *)
Ltac err_steps :=
  repeat match goal with
  | H : (_ ≫= _) _ = (Err _, _) |- _ => apply M_bind_Err in H as [H|(? & ? & ? & H)]
  end.

Create HintDb rust.
#[export] Hint Rewrite @bind_unit_Ok @guard_err_Ok @try_for_Ok @try_map_Ok @ok_or_Ok : rust.

(** Run the monadic code of the goal down to its library calls. *)
Ltac run := cbv [mbind M_bind mret M_ret get_state modify lift throw fail_if guard_err ok_or]; cbn beta iota.
