(* ===== verification/RustStr.v ===== *)
(** * Rust's [str], as the program uses it

    A Rust [str] is a [string] holding its UTF-8 bytes; [char]s are the byte
    groups of [chars], compared by [code_point].  The functions below are the
    standard-library ones the capability sources call, named after them.
    Lengths and offsets are counted in bytes, as in Rust. *)
From stdpp Require Import pretty.
From S2P Require Import Prelude.

#[global] Arguments String.append : simpl nomatch.
Open Scope string_scope.
Open Scope list_scope.
Open Scope Z_scope.

(** ** Definitions *)

(** [str::len]. *)
Definition len (s : string) : Z := Z.of_nat (String.length s).

(** [str::starts_with(&str)]. *)
Definition starts_with (p s : string) : bool := String.prefix p s.

(** [str::strip_prefix(&str)]. *)
Fixpoint strip_prefix (p s : string) : option string :=
  match p, s with
  | "", _ => Some s
  | String a p', String b s' => if Ascii.eqb a b then strip_prefix p' s' else None
  | String _ _, "" => None
  end.

(** [str::strip_suffix(&str)]. *)
Fixpoint strip_suffix (suf s : string) : option string :=
  if String.eqb s suf then Some ""
  else match s with
       | "" => None
       | String a s' => String a <$> strip_suffix suf s'
       end.

(** [str::ends_with(&str)]. *)
Definition ends_with (suf s : string) : bool := bool_decide (is_Some (strip_suffix suf s)).

(** [str::contains(char)] for an ASCII [char]. *)
Fixpoint contains_char (c : ascii) (s : string) : bool :=
  match s with
  | "" => false
  | String a s' => Ascii.eqb a c || contains_char c s'
  end.

(** [str::contains(&str)]. *)
Fixpoint contains_str (pat s : string) : bool :=
  starts_with pat s ||
  match s with "" => false | String _ s' => contains_str pat s' end.

(** [s.find(pat)] followed by [&s[idx + pat.len()..]]. *)
Fixpoint find_rest (pat s : string) : option string :=
  match strip_prefix pat s with
  | Some rest => Some rest
  | None => match s with "" => None | String _ s' => find_rest pat s' end
  end.

(** [s.matches(c).count()] for an ASCII [char]. *)
Fixpoint count_char (c : ascii) (s : string) : Z :=
  match s with
  | "" => 0
  | String a s' => (if Ascii.eqb a c then 1 else 0) + count_char c s'
  end.

(** [str::split(char)] for an ASCII [char]: never empty, [""] splits to [[""]]. *)
Fixpoint split_char (c : ascii) (s : string) : list string :=
  match s with
  | "" => [""]
  | String a s' =>
      if Ascii.eqb a c then "" :: split_char c s'
      else match split_char c s' with
           | w :: ws => String a w :: ws
           | [] => [String a ""]
           end
  end.

(** [[String]::join(sep)]. *)
Fixpoint join (sep : string) (l : list string) : string :=
  match l with
  | [] => ""
  | [s] => s
  | s :: l => s +:+ sep +:+ join sep l
  end.

(** [str::trim_end_matches(char)]: drop every trailing [c]. *)
Fixpoint trim_end_matches (c : ascii) (s : string) : string :=
  match s with
  | "" => ""
  | String a s' =>
      match trim_end_matches c s' with
      | "" => if Ascii.eqb a c then "" else String a ""
      | t => String a t
      end
  end.

(** [str::bytes]. *)
Fixpoint bytes (s : string) : list Z :=
  match s with
  | "" => []
  | String a s' => Z.of_N (N_of_ascii a) :: bytes s'
  end.

(** A UTF-8 continuation byte, [10xxxxxx]. *)
Definition is_continuation (a : ascii) : bool := Z.land (Z.of_N (N_of_ascii a)) 192 =? 128.

Definition continues (s : string) : bool :=
  match s with String b _ => is_continuation b | "" => false end.

(** [str::chars]: a character is a byte and the continuation bytes after it. *)
Fixpoint chars (s : string) : list string :=
  match s with
  | "" => []
  | String a s' =>
      match chars s' with
      | g :: gs => if continues s' then String a g :: gs else String a "" :: g :: gs
      | [] => [String a ""]
      end
  end.

(** [char as u32]: the scalar value of one UTF-8 group. *)
Definition code_point (g : string) : Z :=
  match bytes g with
  | [b0] => b0
  | [b0; b1] => Z.lor (Z.shiftl (Z.land b0 31) 6) (Z.land b1 63)
  | [b0; b1; b2] =>
      Z.lor (Z.shiftl (Z.land b0 15) 12) (Z.lor (Z.shiftl (Z.land b1 63) 6) (Z.land b2 63))
  | [b0; b1; b2; b3] =>
      Z.lor (Z.shiftl (Z.land b0 7) 18)
        (Z.lor (Z.shiftl (Z.land b1 63) 12) (Z.lor (Z.shiftl (Z.land b2 63) 6) (Z.land b3 63)))
  | _ => 65533
  end.

(** [lo..=hi] contains [x]. *)
Definition between (lo hi x : Z) : bool := (lo <=? x) && (x <=? hi).

(** [char::is_whitespace]: the Unicode [White_Space] property. *)
Definition is_whitespace (g : string) : bool :=
  let u := code_point g in
  between 9 13 u || (u =? 32) || (u =? 133) || (u =? 160) || (u =? 5760)
  || between 8192 8202 u || (u =? 8232) || (u =? 8233) || (u =? 8239)
  || (u =? 8287) || (u =? 12288).

(** [char::is_control]: the general category [Cc]. *)
Definition is_control (g : string) : bool :=
  let u := code_point g in between 0 31 u || between 127 159 u.

Fixpoint drop_while {A} (p : A → bool) (l : list A) : list A :=
  match l with
  | [] => []
  | x :: l' => if p x then drop_while p l' else l
  end.

(** [chars.collect::<String>()]. *)
Definition of_chars (gs : list string) : string := foldr String.append "" gs.

(** [str::trim]. *)
Definition trim (s : string) : string :=
  of_chars (reverse (drop_while is_whitespace (reverse (drop_while is_whitespace (chars s))))).

(** [u8::is_ascii_alphanumeric]. *)
Definition is_ascii_alphanumeric (a : ascii) : bool :=
  let b := Z.of_N (N_of_ascii a) in
  between 48 57 b || between 65 90 b || between 97 122 b.

Fixpoint all_bytes (p : ascii → bool) (s : string) : bool :=
  match s with "" => true | String a s' => p a && all_bytes p s' end.

Definition U64_MAX : Z := 2 ^ 64 - 1.
Definition I64_MAX : Z := 2 ^ 63 - 1.
Definition U32_MAX : Z := 2 ^ 32 - 1.

(** [u32::saturating_add]. *)
Definition sat_add_u32 (a b : Z) : Z := Z.min U32_MAX (a + b).

(** The digit loop of [u64::from_str]: a non-digit or an overflow is an error. *)
Fixpoint parse_digits (acc : Z) (s : string) : option Z :=
  match s with
  | "" => Some acc
  | String a s' =>
      let b := Z.of_N (N_of_ascii a) in
      if between 48 57 b then
        let acc' := acc * 10 + (b - 48) in
        if acc' <=? U64_MAX then parse_digits acc' s' else None
      else None
  end.

(** [str::parse::<u64>]: an optional [+], then at least one digit. *)
Definition parse_u64 (s : string) : option Z :=
  match s with
  | "" => None
  | String "+" "" => None
  | String "+" s' => parse_digits 0 s'
  | _ => parse_digits 0 s
  end.

(** [u64::to_string] and [usize::to_string]. *)
Definition z_to_string (z : Z) : string := pretty (Z.to_N z).

(** [bool::to_string]. *)
Definition bool_to_string (b : bool) : string := if b then "true" else "false".

(** [str::is_char_boundary]. *)
Definition is_char_boundary (s : string) (i : nat) : bool :=
  (i =? String.length s)%nat ||
  match String.get i s with
  | Some b => negb (is_continuation b)
  | None => false
  end.

(** [while end > 0 && !s.is_char_boundary(end) { end -= 1; }]. *)
Fixpoint floor_char_boundary (s : string) (e : nat) : nat :=
  match e with
  | O => O
  | S e' => if is_char_boundary s e then e else floor_char_boundary s e'
  end.

(** The byte order on [String], which [Ord] derives to [GrantId]. *)
Definition str_le (s t : string) : Prop := String.leb s t = true.
#[export] Instance str_le_dec : RelDecision str_le.
Proof. intros s t. unfold str_le. apply _. Defined.

(** ** Facts *)

Lemma str_le_cons a s b t :
  str_le (String a s) (String b t) ↔ (N_of_ascii a < N_of_ascii b)%N ∨ (a = b ∧ str_le s t).
Proof.
  unfold str_le, String.leb. simpl. unfold Ascii.compare.
  destruct (N.compare_spec (N_of_ascii a) (N_of_ascii b)) as [He|Hl|Hg].
  - assert (a = b) as -> by (by rewrite <- (ascii_N_embedding a), He, ascii_N_embedding).
    split; [by right|]. intros [?|[_ ?]]; [lia | done].
  - split; [by left | done].
  - split; [done|]. intros [?|[-> _]]; lia.
Qed.

#[export] Instance str_le_trans : Transitive str_le.
Proof.
  intros s. induction s as [|a s IH]; intros [|b t] [|c u]; try done. rewrite !str_le_cons.
  intros [?|[-> Hst]] [?|[-> Htu]]; [left; lia | by left | by left | right; split; [done | by eapply IH]].
Qed.

#[export] Instance str_le_total : Total str_le.
Proof. intros s t. apply String.leb_total. Qed.

Lemma starts_with_spec p s : starts_with p s = true ↔ ∃ t, s = p +:+ t.
Proof.
  unfold starts_with. revert s. induction p as [|a p IH]; intros s; simpl.
  - split; [by exists s |]. by destruct s.
  - destruct s as [|b s]; simpl; [naive_solver|].
    destruct (ascii_dec a b) as [->|Hne]; [rewrite IH|].
    + split; intros [t Heq]; exists t; simplify_eq/=; done.
    + split; [done|]. intros [t Heq]. simplify_eq/=.
Qed.

Lemma starts_with_refl s : starts_with s s = true.
Proof. apply starts_with_spec. exists "". induction s; simpl; congruence. Qed.

Lemma starts_with_trans p q s :
  starts_with p q = true → starts_with q s = true → starts_with p s = true.
Proof.
  rewrite !starts_with_spec. intros [t ->] [u ->]. exists (t +:+ u).
  induction p; simpl; congruence.
Qed.

Lemma strip_prefix_spec p s t : strip_prefix p s = Some t ↔ s = p +:+ t.
Proof.
  revert s. induction p as [|a p IH]; intros s; simpl; [naive_solver|].
  destruct s as [|b s]; [naive_solver|].
  destruct (Ascii.eqb_spec a b) as [->|]; [rewrite IH; naive_solver | naive_solver].
Qed.

Lemma length_append s t : String.length (s +:+ t) = (String.length s + String.length t)%nat.
Proof. induction s; simpl; congruence. Qed.

Lemma append_nil_r s : s +:+ "" = s.
Proof. induction s; simpl; congruence. Qed.

Lemma append_assoc s t u : s +:+ (t +:+ u) = (s +:+ t) +:+ u.
Proof. induction s; simpl; congruence. Qed.

Lemma string_app_inj_r (s t u : string) : s +:+ u = t +:+ u → s = t.
Proof.
  revert t. induction s as [|a s IH]; intros [|b t]; simpl; intros Heq.
  - done.
  - apply (f_equal String.length) in Heq. simpl in Heq.
    rewrite length_append in Heq. lia.
  - apply (f_equal String.length) in Heq. simpl in Heq.
    rewrite length_append in Heq. lia.
  - injection Heq as -> Heq. f_equal. by apply IH.
Qed.

Lemma strip_suffix_spec suf s t : strip_suffix suf s = Some t ↔ s = t +:+ suf.
Proof.
  revert t. induction s as [|a s IH]; intros t; cbn [strip_suffix].
  - destruct suf as [|b suf].
    + rewrite append_nil_r. naive_solver.
    + split; [done|]. by destruct t.
  - destruct (String.eqb_spec (String a s) suf) as [<-|Hne].
    + split; [by intros [= <-]|].
      intros Heq. f_equal. by apply (string_app_inj_r _ _ (String a s)).
    + rewrite fmap_Some. setoid_rewrite IH. split.
      * intros (u & -> & ->). done.
      * destruct t as [|b t]; simpl; [done|]. intros [= -> ->]. eauto.
Qed.

Lemma ends_with_spec suf s : ends_with suf s = true ↔ ∃ t, s = t +:+ suf.
Proof.
  unfold ends_with. rewrite bool_decide_eq_true.
  split; intros [t Ht]; exists t; by apply strip_suffix_spec.
Qed.

Lemma contains_char_app c s t : contains_char c (s +:+ t) = contains_char c s || contains_char c t.
Proof. induction s as [|a s IH]; simpl; [done|]. by rewrite IH, orb_assoc. Qed.

Lemma split_char_nonempty c s : split_char c s ≠ [].
Proof. destruct s as [|a s]; simpl; [done|]. destruct (Ascii.eqb a c), (split_char c s); done. Qed.

Lemma split_char_no_sep c s : contains_char c s = false → split_char c s = [s].
Proof.
  induction s as [|a s IH]; simpl; [done|].
  intros [-> Hs]%orb_false_iff. by rewrite IH.
Qed.

Lemma split_char_cons_sep c s t :
  contains_char c s = false →
  split_char c (s +:+ String c t) = s :: split_char c t.
Proof.
  induction s as [|a s IH]; simpl.
  - by rewrite Ascii.eqb_refl.
  - intros [-> Hs]%orb_false_iff. by rewrite IH.
Qed.

(** Splitting undoes joining when no piece holds the separator. *)
Lemma split_join c l :
  l ≠ [] → Forall (λ s, contains_char c s = false) l →
  split_char c (join (String c "") l) = l.
Proof.
  intros Hne Hl. induction Hl as [|s l Hs Hl IH]; [done|].
  destruct l as [|s' l]; simpl; [by apply split_char_no_sep|].
  rewrite split_char_cons_sep by done. f_equal. by apply IH.
Qed.

(** Every split piece is free of the separator. *)
Lemma split_char_pieces c s : Forall (λ w, contains_char c w = false) (split_char c s).
Proof.
  induction s as [|a s IH]; simpl; [by repeat constructor|].
  destruct (Ascii.eqb a c) eqn:Ha; [by constructor|].
  destruct (split_char c s) as [|w ws]; simpl.
  - constructor; [simpl; by rewrite Ha | constructor].
  - inversion IH; subst. constructor; [simpl; by rewrite Ha | done].
Qed.

Lemma of_chars_chars s : of_chars (chars s) = s.
Proof.
  induction s as [|a s IH]; [done|]. simpl.
  destruct (chars s) as [|g gs]; simpl in *; [congruence|].
  destruct (continues s); simpl; congruence.
Qed.

Lemma drop_while_suffix {A} (p : A → bool) l : ∃ k, l = k ++ drop_while p l ∧ Forall (λ x, p x = true) k.
Proof.
  induction l as [|x l (k & Hk & Hf)]; simpl; [by exists []|].
  destruct (p x) eqn:Hp.
  - exists (x :: k). split; [simpl; congruence | by constructor].
  - by exists [].
Qed.

Lemma trim_end_matches_spec c s :
  ∃ n, s = trim_end_matches c s +:+ of_chars (replicate n (String c "")).
Proof.
  induction s as [|a s [n Hn]]; simpl; [by exists 0%nat|].
  destruct (trim_end_matches c s) as [|b t] eqn:E.
  - destruct (Ascii.eqb_spec a c) as [->|].
    + exists (S n). simpl in *. by rewrite Hn at 1.
    + exists n. simpl in *. by rewrite Hn at 1.
  - exists n. simpl in *. by rewrite Hn at 1.
Qed.

Lemma chars_nonempty a s : chars (String a s) ≠ [].
Proof. simpl. destruct (chars s), (continues s); done. Qed.

Lemma continues_app s t : s ≠ "" → continues (s +:+ t) = continues s.
Proof. by destruct s. Qed.

(** Characters do not straddle a boundary at which the next character starts. *)
Lemma chars_app s t : continues t = false → chars (s +:+ t) = chars s ++ chars t.
Proof.
  intros Ht. induction s as [|a s IH]; simpl; [done|]. rewrite IH.
  destruct s as [|b s]; simpl.
  - rewrite Ht. by destruct (chars t).
  - pose proof (chars_nonempty b s) as Hne. simpl in Hne.
    destruct (chars s) as [|g gs]; [by destruct (is_continuation b)|].
    destruct (continues s), (is_continuation b); done.
Qed.

Lemma forallb_existsb_negb {A} (p : A → bool) l : negb (existsb p l) = forallb (λ x, negb (p x)) l.
Proof. induction l as [|x l IH]; simpl; [done|]. by rewrite negb_orb, IH. Qed.

#[export] Hint Resolve starts_with_refl : rust.

Lemma split_char_app_sep c s t :
  split_char c (s +:+ String c t) = split_char c s ++ split_char c t.
Proof.
  induction s as [|a s IH]; simpl; [by rewrite Ascii.eqb_refl|].
  rewrite IH. destruct (Ascii.eqb a c); [done|].
  pose proof (split_char_nonempty c s). by destruct (split_char c s).
Qed.

Lemma join_cons sep s l : l ≠ [] → join sep (s :: l) = s +:+ sep +:+ join sep l.
Proof. by destruct l. Qed.

Lemma join_split c s : join (String c "") (split_char c s) = s.
Proof.
  induction s as [|a s IH]; [done|]. simpl.
  pose proof (split_char_nonempty c s) as Hne.
  destruct (Ascii.eqb_spec a c) as [->|].
  - rewrite join_cons by done. rewrite IH. done.
  - destruct (split_char c s) as [|w ws]; [done|].
    destruct ws as [|w' ws]; simpl in *; by rewrite IH.
Qed.

Lemma join_app sep l k :
  l ≠ [] → k ≠ [] → join sep (l ++ k) = join sep l +:+ sep +:+ join sep k.
Proof.
  intros Hl Hk. induction l as [|s l IH]; [done|].
  destruct l as [|s' l]; simpl app.
  - by rewrite join_cons.
  - rewrite join_cons, (join_cons sep s (s' :: l)) by done. simpl app in IH. rewrite IH by done.
    by rewrite <- !append_assoc.
Qed.

(** [s] lies under [n] in the tree of [c]-separated names iff the pieces of [n]
    are the first pieces of [s]. *)
Lemma split_prefix_spec c n s :
  split_char c n `prefix_of` split_char c s ↔ s = n ∨ ∃ t, s = n +:+ String c t.
Proof.
  split.
  - intros [k Hk]. pose proof (join_split c s) as Hs. rewrite Hk in Hs.
    destruct k as [|w k].
    + left. by rewrite app_nil_r, join_split in Hs.
    + right. exists (join (String c "") (w :: k)).
      rewrite join_app, join_split in Hs by (done || apply split_char_nonempty). done.
  - intros [->|[t ->]]; [done|]. rewrite split_char_app_sep. by apply prefix_app_r.
Qed.

Lemma trim_end_matches_app c s t :
  trim_end_matches c (s +:+ t) =
    match trim_end_matches c t with "" => trim_end_matches c s | t' => s +:+ t' end.
Proof.
  induction s as [|a s IH]; simpl; [by destruct (trim_end_matches c t)|].
  rewrite IH. destruct (trim_end_matches c t) as [|b t']; [done|].
  by destruct s.
Qed.

Lemma trim_end_matches_idemp c s : trim_end_matches c (trim_end_matches c s) = trim_end_matches c s.
Proof.
  induction s as [|a s IH]; simpl; [done|].
  destruct (trim_end_matches c s) as [|b t] eqn:E.
  - destruct (Ascii.eqb a c) eqn:Ha; simpl; [done|]. by rewrite Ha.
  - change (trim_end_matches c (String a (String b t))) with
      (match trim_end_matches c (String b t) with
       | "" => if Ascii.eqb a c then "" else String a "" | t' => String a t' end).
    by rewrite IH.
Qed.

Lemma trim_end_matches_head c a s :
  trim_end_matches c (String a s) = "" ∨ ∃ t, trim_end_matches c (String a s) = String a t.
Proof.
  simpl. destruct (trim_end_matches c s) as [|b t]; [|by eauto].
  destruct (Ascii.eqb a c); eauto.
Qed.

(** *** Numbers *)

Definition is_digit (a : ascii) : bool := between 48 57 (Z.of_N (N_of_ascii a)).

Lemma parse_digits_digits acc s n : parse_digits acc s = Some n → all_bytes is_digit s = true.
Proof.
  revert acc. induction s as [|a s IH]; intros acc; [done|]. simpl. unfold is_digit at 1.
  destruct (between 48 57 _); [|done]. destruct (_ <=? _); [|done]. eauto.
Qed.

Lemma parse_digits_pretty x s :
  Z.of_N x ≤ U64_MAX → parse_digits 0 (pretty_N_go x s) = parse_digits (Z.of_N x) s.
Proof.
  revert s. induction (N.lt_wf_0 x) as [x _ IH]. intros s Hx.
  destruct (decide (x = 0)%N) as [->|Hne]; [by rewrite pretty_N_go_0|].
  rewrite pretty_N_go_step by lia.
  pose proof (N.div_lt x 10 ltac:(lia) ltac:(lia)).
  rewrite IH by lia.
  cbn [parse_digits].
  assert (Z.of_N (N_of_ascii (pretty_N_char (x mod 10))) = Z.of_N (x mod 10) + 48) as ->.
  { pose proof (N.mod_lt x 10 ltac:(lia)) as Hm. revert Hm.
    generalize (x mod 10)%N. clear. intros m Hm.
    assert (m ∈ (N.of_nat <$> seq 0 10)) as Hin.
    { apply list_elem_of_fmap. exists (N.to_nat m). split; [by rewrite N2Nat.id|]. apply elem_of_seq. lia. }
    cbn in Hin. rewrite !elem_of_cons in Hin. destruct_or!; subst; try reflexivity. by apply elem_of_nil in Hin. }
  pose proof (N.div_mod x 10 ltac:(lia)). pose proof (N.mod_lt x 10 ltac:(lia)).
  generalize dependent (x mod 10)%N. generalize dependent (x / 10)%N. intros q _ m Hx' Hm.
  assert (between 48 57 (Z.of_N m + 48) = true) as ->.
  { unfold between. apply andb_true_iff. rewrite !Z.leb_le. split; lia. }
  assert (Z.of_N q * 10 + (Z.of_N m + 48 - 48) = Z.of_N x) as -> by lia.
  cbv zeta. by rewrite (proj2 (Z.leb_le _ _)) by done.
Qed.

Lemma z_to_string_digits n :
  0 ≤ n ≤ U64_MAX → parse_digits 0 (z_to_string n) = Some n ∧ z_to_string n ≠ "".
Proof.
  intros Hn. unfold z_to_string. destruct (decide (n = 0)) as [->|]; [split; [reflexivity|done]|].
  assert (pretty (Z.to_N n) = pretty_N_go (Z.to_N n) "") as ->.
  { unfold pretty, pretty_N. by rewrite decide_False by lia. }
  assert (parse_digits 0 (pretty_N_go (Z.to_N n) "") = Some n) as Hp.
  { rewrite parse_digits_pretty by lia. simpl. f_equal. lia. }
  split; [done|]. intros Hs. rewrite Hs in Hp. simpl in Hp. congruence.
Qed.

(** [u64::to_string] then [parse::<u64>] is the identity. *)
Lemma parse_u64_to_string n : 0 ≤ n ≤ U64_MAX → parse_u64 (z_to_string n) = Some n.
Proof.
  intros (Hd & Hne)%z_to_string_digits. destruct (z_to_string n) as [|a s]; [done|].
  unfold parse_u64. destruct (decide (a = "+"%char)) as [->|]; [done|].
  by destruct a as [[] [] [] [] [] [] [] []].
Qed.

Lemma trim_digits s : all_bytes is_digit s = true → trim s = s.
Proof.
  intros Hd. assert (Forall (λ g, is_whitespace g = false) (chars s)) as Hc.
  { induction s as [|a s IH]; simpl in *; [constructor|].
    apply andb_true_iff in Hd as [Ha Hs]. specialize (IH Hs).
    assert (continues s = false) as ->.
    { destruct s as [|b s]; [done|]. simpl in Hs. apply andb_true_iff in Hs as [Hb _].
      simpl. revert Hb. clear. destruct b as [[] [] [] [] [] [] [] []]; cbv; congruence. }
    assert (is_whitespace (String a "") = false) as Hw.
    { revert Ha. clear. destruct a as [[] [] [] [] [] [] [] []]; cbv; congruence. }
    destruct (chars s); by constructor. }
  assert (∀ l, Forall (λ g, is_whitespace g = false) l → drop_while is_whitespace l = l) as Hdrop.
  { intros l Hl. destruct Hl as [|x l Hx Hl]; simpl; [done|]. by rewrite Hx. }
  unfold trim. rewrite (Hdrop (chars s)) by done.
  rewrite Hdrop by (by rewrite Forall_reverse). by rewrite reverse_involutive, of_chars_chars.
Qed.

Lemma trim_z_to_string n : 0 ≤ n ≤ U64_MAX → trim (z_to_string n) = z_to_string n.
Proof. intros (Hd & _)%z_to_string_digits. by eapply trim_digits, parse_digits_digits. Qed.

(** ** Characters *)

(** A group of bytes that is one character. *)
Definition one_char (g : string) : Prop := chars g = [g].

Lemma one_char_nonempty g : one_char g → g ≠ "".
Proof. by intros Hg ->. Qed.

Lemma continues_of_chars gs :
  Forall one_char gs → Forall (λ g, continues g = false) gs → continues (of_chars gs) = false.
Proof.
  intros H1 H2. destruct gs as [|g gs]; [done|]. apply Forall_cons in H1 as [Hg _], H2 as [Hc _].
  change (of_chars (g :: gs)) with (g +:+ of_chars gs). by rewrite continues_app by by apply one_char_nonempty.
Qed.

Lemma chars_of_chars g gs :
  Forall one_char (g :: gs) → Forall (λ g, continues g = false) gs → chars (of_chars (g :: gs)) = g :: gs.
Proof.
  revert g. induction gs as [|h gs IH]; intros g [Hg H1]%Forall_cons H2;
    change (of_chars (g :: ?l)) with (g +:+ of_chars l).
  - simpl. by rewrite append_nil_r.
  - rewrite chars_app by by apply continues_of_chars. rewrite Hg. simpl app. f_equal.
    apply IH; [done|]. by apply Forall_cons in H2 as [_ ?].
Qed.

(** Each group [chars] yields is one character, and all but the first start a
    character. *)
Lemma chars_groups s :
  Forall one_char (chars s) ∧
  match chars s with [] => s = "" | _ :: gs => Forall (λ g, continues g = false) gs end.
Proof.
  induction s as [|a s [IH1 IH2]]; [done|]. simpl. destruct (chars s) as [|g gs] eqn:Hs.
  - subst s. split; [|done]. by constructor.
  - apply Forall_cons in IH1 as [Hg IH1].
    assert (continues s = continues g) as Hc.
    { rewrite <- (of_chars_chars s), Hs. change (of_chars (g :: gs)) with (g +:+ of_chars gs).
      by rewrite continues_app by by apply one_char_nonempty. }
    destruct (continues s) eqn:Hcs.
    + split; [|done]. constructor; [|done]. unfold one_char. simpl. rewrite Hg. by rewrite <- Hc.
    + split; [by repeat constructor|]. by constructor.
Qed.

Lemma chars_nil s : chars s = [] → s = "".
Proof. destruct (chars_groups s) as [_ H]. by intros Hs; rewrite Hs in H. Qed.

(** A contiguous part of a string's characters is the characters of its text. *)
Lemma chars_infix s k l m : chars s = k ++ l ++ m → chars (of_chars l) = l.
Proof.
  intros Hs. destruct (chars_groups s) as [H1 H2]. rewrite Hs in H1, H2. destruct l as [|g l]; [done|].
  apply Forall_app in H1 as [_ [H1 _]%Forall_app]. apply chars_of_chars; [done|].
  destruct k as [|h k]; simpl in H2.
  - by apply Forall_app in H2 as [? _].
  - apply Forall_app in H2 as [_ H2]. apply Forall_cons in H2 as [_ H2]. by apply Forall_app in H2 as [? _].
Qed.

(** The characters [trim] keeps. *)
Definition trim_chars (l : list string) : list string :=
  reverse (drop_while is_whitespace (reverse (drop_while is_whitespace l))).

Lemma trim_chars_infix l : ∃ k m, l = k ++ trim_chars l ++ m.
Proof.
  unfold trim_chars. destruct (drop_while_suffix is_whitespace l) as (k & Hk & _).
  destruct (drop_while_suffix is_whitespace (reverse (drop_while is_whitespace l))) as (m & Hm & _).
  exists k, (reverse m). rewrite <- reverse_app, <- Hm, reverse_involutive. done.
Qed.

Lemma drop_while_head {A} (p : A → bool) l :
  match drop_while p l with [] => True | x :: _ => p x = false end.
Proof. induction l as [|x l IH]; simpl; [done|]. by destruct (p x) eqn:Hp. Qed.

Lemma drop_while_id {A} (p : A → bool) l :
  match l with [] => True | x :: _ => p x = false end → drop_while p l = l.
Proof. destruct l as [|x l]; simpl; [done|]. by intros ->. Qed.

Lemma trim_chars_idemp l : trim_chars (trim_chars l) = trim_chars l.
Proof.
  unfold trim_chars at 1. set (u := drop_while is_whitespace l).
  assert (drop_while is_whitespace (trim_chars l) = trim_chars l) as ->.
  { apply drop_while_id. unfold trim_chars. fold u. pose proof (drop_while_head is_whitespace l) as Hu. fold u in Hu.
    destruct (drop_while_suffix is_whitespace (reverse u)) as (k & Hk & _).
    assert (u = reverse (drop_while is_whitespace (reverse u)) ++ reverse k) as He.
    { by rewrite <- reverse_app, <- Hk, reverse_involutive. }
    destruct (reverse (drop_while is_whitespace (reverse u))) as [|x v]; [done|]. by rewrite He in Hu. }
  unfold trim_chars. fold u. rewrite reverse_involutive. f_equal. apply drop_while_id, drop_while_head.
Qed.

Lemma chars_trim s : chars (trim s) = trim_chars (chars s).
Proof.
  destruct (trim_chars_infix (chars s)) as (k & m & Hs). change (trim s) with (of_chars (trim_chars (chars s))).
  by eapply chars_infix.
Qed.

Lemma trim_idemp s : trim (trim s) = trim s.
Proof.
  change (trim (trim s)) with (of_chars (trim_chars (chars (trim s)))).
  by rewrite chars_trim, trim_chars_idemp.
Qed.

Lemma contains_char_of_chars c k l :
  contains_char c (of_chars (k ++ l)) = contains_char c (of_chars k) || contains_char c (of_chars l).
Proof.
  induction k as [|g k IH]; [done|]. change (of_chars ((g :: k) ++ l)) with (g +:+ of_chars (k ++ l)).
  change (of_chars (g :: k)) with (g +:+ of_chars k). by rewrite !contains_char_app, IH, orb_assoc.
Qed.

Lemma contains_char_trim c s : contains_char c s = false → contains_char c (trim s) = false.
Proof.
  destruct (trim_chars_infix (chars s)) as (k & m & Hs). rewrite <- (of_chars_chars s) at 1. rewrite Hs.
  rewrite !contains_char_of_chars. by intros [_ [? _]%orb_false_iff]%orb_false_iff.
Qed.
