(* ===== verification/Yml.v ===== *)
(** * YAML documents

    The parsed documents [serde_yml] gives the loaders of [preset.rs] and
    [compile.rs], with the accessors of [serde_yml::Value] they call, and the
    class of the library functions. *)
From S2P Require Import Prelude RustStr.
Open Scope string_scope.
Open Scope list_scope.
Open Scope Z_scope.

(** [serde_yml::Value]; a number is kept as its [as_u64] and its text, a
    mapping as its entries in order. *)
Module Yml.
Inductive t :=
| Null
| Bool (b : bool)
| Number (as_u64 : option Z) (text : string)
| String (s : string)
| Sequence (items : list t)
| Mapping (entries : list (t * t))
| Tagged (tag : string) (value : t).

(** [untag_ref], which the [as_] accessors apply first. *)
Fixpoint untag (v : t) : t := match v with Tagged _ v => untag v | _ => v end.

Definition as_str (v : t) : option string := match untag v with String s => Some s | _ => None end.
Definition as_u64 (v : t) : option Z := match untag v with Number n _ => n | _ => None end.
Definition as_sequence (v : t) : option (list t) := match untag v with Sequence l => Some l | _ => None end.
Definition as_mapping (v : t) : option (list (t * t)) := match untag v with Mapping m => Some m | _ => None end.

(** [Mapping::get(Value::String(key))]. *)
Fixpoint get (m : list (t * t)) (key : string) : option t :=
  match m with
  | [] => None
  | (String k, v) :: m => if String.eqb k key then Some v else get m key
  | _ :: m => get m key
  end.
End Yml.

(** [serde_yml::from_slice] and [serde_yml::to_string]. *)
Class Yaml := {
  from_slice : string → option Yml.t;
  to_yaml_string : Yml.t → option string
}.
