(* ===== verification/McpPatterns.v ===== *)
(** * MCP tool patterns and grant scopes

    Models [crates/shared-types/src/mcp.rs]: the trailing-[*] tool pattern
    grammar, the scope one [mcp] grant reaches, and the server-id grammar. *)
From S2P Require Import Prelude RustStr.
Open Scope string_scope.
Open Scope list_scope.
Open Scope Z_scope.

(** ** Definitions *)

Definition MAX_TOOL_PATTERN_BYTES : Z := 256.
Definition MAX_SERVER_ID_BYTES : Z := 128.
Definition MAX_REQUEST_TOKEN_BYTES : Z := 4096.
Definition SERVER_WIDE_TOOL : string := "*".

Definition GLOB_CHARS : list ascii := ["*"; "?"; "["; "]"; "{"; "}"]%char.

Definition contains_glob (s : string) : bool := existsb (λ c, contains_char c s) GLOB_CHARS.

Inductive ToolPatternError := Length | BareStar | Glob.

Inductive ToolPattern :=
| Literal (literal : string)
| Prefix (prefix : string).

#[export] Instance ToolPatternError_eq_dec : EqDecision ToolPatternError.
Proof. solve_decision. Defined.
#[export] Instance ToolPattern_eq_dec : EqDecision ToolPattern.
Proof. solve_decision. Defined.

(** [ToolPattern::parse]. *)
Definition parse (raw : string) : result ToolPatternError ToolPattern :=
  if String.eqb raw "" || (MAX_TOOL_PATTERN_BYTES <? len raw) then Err Length
  else match strip_suffix "*" raw with
       | Some "" => Err BareStar
       | Some prefix => if contains_glob prefix then Err Glob else Ok (Prefix prefix)
       | None => if contains_glob raw then Err Glob else Ok (Literal raw)
       end.

(** The text a pattern displays as ([impl Display for ToolPattern]). *)
Definition pattern_text (p : ToolPattern) : string :=
  match p with
  | Literal literal => literal
  | Prefix prefix => prefix +:+ "*"
  end.

Definition is_spoofing_char (c : string) : bool :=
  let u := code_point c in
  between 0 0x1F u || between 0x7F 0x9F u || (u =? 0x00AD) || (u =? 0x034F)
  || (u =? 0x115F) || (u =? 0x1160) || (u =? 0x180E) || between 0x200B 0x200F u
  || between 0x202A 0x202E u || between 0x2060 0x2064 u || between 0x2066 0x2069 u
  || (u =? 0x3164) || between 0xFE00 0xFE0F u || (u =? 0xFEFF) || between 0xE0000 0xE007F u.

Definition is_tool_name_safe (name : string) : bool := negb (existsb is_spoofing_char (chars name)).

(** [ToolPattern::matches]. *)
Definition matches (p : ToolPattern) (name : string) : bool :=
  is_tool_name_safe name &&
  match p with
  | Literal literal => String.eqb name literal
  | Prefix prefix => negb (String.eqb prefix "") && starts_with prefix name
  end.

(** [ToolPattern::covers]. *)
Definition covers (p child : ToolPattern) : bool :=
  match p, child with
  | Literal parent, Literal child => String.eqb parent child
  | Literal _, Prefix _ => false
  | Prefix parent, (Literal child | Prefix child) =>
      negb (String.eqb parent "") && starts_with parent child
  end.

Definition is_request_token (name : string) : bool :=
  negb (String.eqb name "")
  && (len name <=? MAX_REQUEST_TOKEN_BYTES)
  && negb (contains_char "," name)
  && String.eqb (trim name) name.

Definition is_valid_server_id (server_id : string) : bool :=
  negb (String.eqb server_id "")
  && (len server_id <=? MAX_SERVER_ID_BYTES)
  && negb (starts_with "." server_id)
  && all_bytes (λ b, is_ascii_alphanumeric b || Ascii.eqb b "." || Ascii.eqb b "_" || Ascii.eqb b "-")
       server_id.

Definition is_callable_name (name : string) : bool :=
  is_request_token name && is_tool_name_safe name.

Record McpGrantScope := {
  servers : option (list string);
  tool_patterns : option (list string)
}.

Definition unrestricted : McpGrantScope := {| servers := None; tool_patterns := None |}.

(** [McpGrantScope::covers_server]. *)
Definition covers_server (self : McpGrantScope) (server : string) : bool :=
  is_callable_name server &&
  match servers self with
  | None => true
  | Some ids => existsb (λ id, String.eqb id server) ids
  end.

(** The loop of [covers_tool]: a malformed pattern ends it with [false]. *)
Fixpoint match_patterns (patterns : list string) (tool : string) (matched : bool) : bool :=
  match patterns with
  | [] => matched
  | raw :: patterns =>
      match parse raw with
      | Ok pattern => match_patterns patterns tool (matched || matches pattern tool)
      | Err _ => false
      end
  end.

(** [McpGrantScope::covers_tool]. *)
Definition covers_tool (self : McpGrantScope) (server tool : string) : bool :=
  if negb (covers_server self server) || negb (is_callable_name tool) then false
  else match tool_patterns self with
       | None => true
       | Some patterns => match_patterns patterns tool false
       end.

(** [McpGrantScope::covers_server_wide]. *)
Definition covers_server_wide (self : McpGrantScope) (server : string) : bool :=
  covers_server self server && bool_decide (tool_patterns self = None).

(** ** Facts about patterns *)

Lemma parse_prefix_nonempty raw p : parse raw = Ok (Prefix p) → p ≠ "".
Proof.
  unfold parse. case_match; [done|].
  destruct (strip_suffix "*" raw) as [[|a s]|]; [done| |].
  - case_match; [done|]. by intros [= <-].
  - case_match; done.
Qed.

(** Parsing keeps the text: what is displayed is what was parsed. *)
Lemma parse_text raw p : parse raw = Ok p → pattern_text p = raw.
Proof.
  unfold parse. case_match; [done|].
  destruct (strip_suffix "*" raw) as [s|] eqn:Hs.
  - apply strip_suffix_spec in Hs as ->.
    destruct s as [|a s]; [done|]. case_match; [done|]. by intros [= <-].
  - case_match; [done|]. by intros [= <-].
Qed.

Lemma covers_matches p c name : covers p c = true → matches c name = true → matches p name = true.
Proof.
  unfold covers, matches. intros Hpc Hc.
  destruct p as [p|p], c as [c|c]; b2p; subst; p2b; by apply (starts_with_trans p c).
Qed.

Lemma covers_trans p q r : covers p q = true → covers q r = true → covers p r = true.
Proof.
  unfold covers. intros Hpq Hqr.
  destruct p as [p|p], q as [q|q], r as [r|r]; b2p; subst; p2b; by apply (starts_with_trans p q r).
Qed.

Lemma match_patterns_spec patterns tool b :
  match_patterns patterns tool b = true ↔
    (∀ raw, raw ∈ patterns → is_ok (parse raw) = true) ∧
    (b = true ∨ ∃ raw p, raw ∈ patterns ∧ parse raw = Ok p ∧ matches p tool = true).
Proof.
  revert b. induction patterns as [|raw ps IH]; intros b; simpl.
  - split; [set_solver|]. intros [_ [?|(? & ? & ?%elem_of_nil & _)]]; done.
  - destruct (parse raw) as [p|e] eqn:Hp.
    + rewrite IH, orb_true_iff. setoid_rewrite elem_of_cons. split.
      * intros [Hall Hex]. split; [intros ? [->|?]; [by rewrite Hp | eauto]|].
        destruct Hex as [[?|?]|(? & ? & ? & ? & ?)]; eauto 10.
      * intros [Hall Hex]. split; [eauto|].
        destruct Hex as [?|(? & ? & [->|?] & ? & ?)]; [eauto| |eauto 10].
        left. right. congruence.
    + split; [done|]. intros [Hall _]. specialize (Hall raw). rewrite Hp in Hall.
      apply Hall. set_solver.
Qed.

Lemma safe_append s t :
  continues t = false →
  is_tool_name_safe (s +:+ t) = is_tool_name_safe s && is_tool_name_safe t.
Proof.
  intros Ht. unfold is_tool_name_safe. rewrite (chars_app s t Ht), existsb_app. apply negb_orb.
Qed.

(** ** Properties *)

(** C40: [ToolPattern::covers], the issuance rule for tool patterns, is exactly
    language inclusion: a parsed parent pattern covers a parsed child pattern
    (free of spoofing characters, the only ones that can match anything) iff
    every tool name the child matches is matched by the parent. *)
Theorem covers_exact rp rc p c :
  parse rp = Ok p → parse rc = Ok c → is_tool_name_safe rc = true →
  covers p c = true ↔ ∀ name, matches c name = true → matches p name = true.
Proof.
  intros Hp Hc Hsafe. split; [intros Hcov name; by apply covers_matches|].
  intros Hincl. pose proof (parse_text _ _ Hc) as <-.
  destruct c as [l|q]; simpl in Hsafe.
  - assert (matches p l = true) as Hm by (apply Hincl; unfold matches; p2b).
    unfold matches in Hm. destruct p as [p|p]; b2p; subst; simpl; p2b.
  - pose proof (parse_prefix_nonempty _ _ Hc) as Hne.
    rewrite safe_append in Hsafe by done. b2p.
    assert (∀ t, continues t = false → is_tool_name_safe t = true →
                 matches p (q +:+ t) = true) as Hm.
    { intros t Ht Hst. apply Hincl. unfold matches. rewrite safe_append by done. p2b.
      apply starts_with_spec. eauto. }
    pose proof (Hm "" eq_refl eq_refl) as H1. pose proof (Hm "x" eq_refl eq_refl) as H2.
    rewrite append_nil_r in H1. unfold matches in H1, H2.
    destruct p as [p|p]; b2p; subst; simpl; p2b. exfalso.
    match goal with
    | H : _ +:+ "x" = _ |- _ =>
        apply (f_equal String.length) in H; rewrite length_append in H; simpl in H; lia
    end.
Qed.

Lemma covers_exact_witness :
  parse "get_*" = Ok (Prefix "get_") ∧ parse "get_issue*" = Ok (Prefix "get_issue") ∧
  (covers (Prefix "get_") (Prefix "get_issue") = true ↔
     ∀ name, matches (Prefix "get_issue") name = true → matches (Prefix "get_") name = true).
Proof.
  split; [reflexivity|]. split; [reflexivity|].
  apply (covers_exact "get_*" "get_issue*"); reflexivity.
Defined.
