(* ===== verification/GrantData.v ===== *)
(** * The grant data model

    Models [crates/capabilities/cap-grant/src/data.rs] and [error.rs], each
    Rust enum or struct a module of its name.  A [GrantId] and a [ComponentId]
    are strings, a [DateTime<Utc>] is its nanosecond count.  [chrono] is a
    library: class [Chrono] holds what the grant code calls of it. *)
From S2P Require Import Prelude RustStr.
Open Scope string_scope.
Open Scope list_scope.
Open Scope Z_scope.

(** ** Data *)

Module GrantTtl.
Inductive t := Once | Lifecycle | Persistent | Duration (ms : Z) | Until (at_ : Z).
#[global] Instance eq_dec : EqDecision t.
Proof. solve_decision. Defined.
End GrantTtl.

Module GrantIssuer.
Inductive t := Config | Parent (agent : string) | Resolver (name : string) | Admin.
#[global] Instance eq_dec : EqDecision t.
Proof. solve_decision. Defined.
End GrantIssuer.

Module GrantProvenance.
Inductive t :=
  StaticConfig | Delegated (parent : string) | Requested | Preset (name : string).
#[global] Instance eq_dec : EqDecision t.
Proof. solve_decision. Defined.
End GrantProvenance.

Module GrantStatus.
Inductive t := Active | Consumed | Expired | Revoked.
#[global] Instance eq_dec : EqDecision t.
Proof. solve_decision. Defined.

(** [GrantStatus::as_str]. *)
Definition as_str (self : t) : string :=
  match self with
  | Active => "active"
  | Consumed => "consumed"
  | Expired => "expired"
  | Revoked => "revoked"
  end.
End GrantStatus.

Module CapParam.
Record t := mk { key : string; value : string }.
#[global] Instance eq_dec : EqDecision t.
Proof. solve_decision. Defined.
End CapParam.

Module Grant.
Record t := mk {
  id : string;
  grantee : string;
  capability : string;
  params : list CapParam.t;
  ttl : GrantTtl.t;
  issuer : GrantIssuer.t;
  provenance : GrantProvenance.t;
  status : GrantStatus.t;
  created_at : Z;
  expires_at : option Z
}.
#[global] Instance eq_dec : EqDecision t.
Proof. solve_decision. Defined.

(** [grant.status = s]. *)
Definition set_status (s : GrantStatus.t) (g : t) : t :=
  mk (id g) (grantee g) (capability g) (params g) (ttl g) (issuer g) (provenance g) s
     (created_at g) (expires_at g).

(** [grant.created_at = at]. *)
Definition set_created_at (at_ : Z) (g : t) : t :=
  mk (id g) (grantee g) (capability g) (params g) (ttl g) (issuer g) (provenance g) (status g)
     at_ (expires_at g).

(** [status == Active]. *)
Definition is_active (g : t) : bool := bool_decide (status g = GrantStatus.Active).

(** [expires_at.map_or(true, |t| t > now)]. *)
Definition unexpired (now : Z) (g : t) : bool :=
  match expires_at g with None => true | Some t => now <? t end.
End Grant.

Module GrantDraft.
Record t := mk { capability : string; params : list CapParam.t; ttl : GrantTtl.t }.
#[global] Instance eq_dec : EqDecision t.
Proof. solve_decision. Defined.
End GrantDraft.

Module GrantRequest.
Record t := mk {
  caller : string;
  capability : string;
  params : option (list CapParam.t);
  ttl : GrantTtl.t;
  justification : option string
}.
End GrantRequest.

Module ResolverOutcome.
Inductive t := Approve (draft : GrantDraft.t) | Deny (reason : string) | Pending | Abstain.
End ResolverOutcome.

Module ChainDecision.
Inductive t := Approved (id : string) | Denied (reason : string) | Pending.
End ChainDecision.

(** [error.rs].  The message arguments are the constant parts of the formatted
    messages; [Db] and [Yaml] carry library errors and are left opaque. *)
Module CapGrantError.
Inductive t :=
| NotFound (id : string)
| InvalidConfig (msg : string)
| SubsetViolation (msg : string)
| PresetNotFound (name : string)
| PermissionDenied (msg : string)
| Db
| Yaml.
#[global] Instance eq_dec : EqDecision t.
Proof. solve_decision. Defined.
End CapGrantError.

Abbreviation Result := (result CapGrantError.t).

(** ** Time *)

(** What the grant code uses of [chrono]: the largest instant, and
    [Duration::try_milliseconds(ms).and_then(|d| now.checked_add_signed(d))]. *)
Class Chrono := {
  MAX_UTC : Z;
  checked_add_ms : Z → Z → option Z
}.

(** The documented behaviour of those two. *)
Class ChronoLaws `{Chrono} : Prop := {
  checked_add_ms_Some now ms t :
    checked_add_ms now ms = Some t → t = now + ms * 1000000 ∧ t ≤ MAX_UTC;
  checked_add_ms_None now ms :
    0 ≤ ms → checked_add_ms now ms = None → MAX_UTC < now + ms * 1000000
}.

(** [i64::try_from(ms).unwrap_or(i64::MAX)]. *)
Definition to_i64 (ms : Z) : Z := if ms <=? I64_MAX then ms else I64_MAX.

Section deadline.
Context `{Chrono}.

(** [chrono::Duration::try_milliseconds(dur_ms).and_then(|d| now.checked_add_signed(d))
    .unwrap_or(MAX_UTC)], the saturating deadline of a [Duration] TTL. *)
Definition saturating_deadline (now ms : Z) : Z :=
  default MAX_UTC (checked_add_ms now (to_i64 ms)).

(** [preset.rs::compute_expires_at], the same match as in [delegate_grant]. *)
Definition compute_expires_at (now : Z) (ttl : GrantTtl.t) : option Z :=
  match ttl with
  | GrantTtl.Once | GrantTtl.Lifecycle | GrantTtl.Persistent => None
  | GrantTtl.Duration ms => Some (saturating_deadline now ms)
  | GrantTtl.Until t => Some t
  end.

(** The saturated deadline never leaves chrono's range. *)
Lemma saturating_deadline_le now ms `{!ChronoLaws} : saturating_deadline now ms ≤ MAX_UTC.
Proof.
  unfold saturating_deadline. destruct (checked_add_ms _ _) as [t|] eqn:Ht; simpl; [|lia].
  by apply checked_add_ms_Some in Ht as [_ ?].
Qed.
End deadline.

(** A concrete [chrono]: exact addition, up to 262142-12-31T23:59:59.999999999Z. *)
Definition chrono_model : Chrono := {|
  MAX_UTC := 8210266876799999999999;
  checked_add_ms now ms :=
    let t := now + ms * 1000000 in
    if t <=? 8210266876799999999999 then Some t else None
|}.

Lemma chrono_model_laws : @ChronoLaws chrono_model.
Proof.
  split; simpl; intros now ms.
  - intros t. case_match; [|done]. intros [= <-]. lia.
  - intros _. case_match; [done|]. lia.
Qed.

(** ** The deadline order *)

(** [deadline_le a b]: a grant that expires at [a] does not outlive one that
    expires at [b]; no deadline is the latest. *)
Definition deadline_le (a b : option Z) : Prop :=
  match a, b with
  | _, None => True
  | None, Some _ => False
  | Some a, Some b => a ≤ b
  end.

#[export] Instance deadline_le_dec : RelDecision deadline_le.
Proof. intros [a|] [b|]; simpl; apply _. Defined.

#[export] Instance deadline_le_preorder : PreOrder deadline_le.
Proof.
  split.
  - intros [a|]; simpl; [lia | done].
  - intros [a|] [b|] [c|]; simpl; try done. lia.
Qed.


(** ** Text encodings *)

(** What the grant code uses of [serde_json] and of chrono's RFC 3339 text. *)
Class Codec := {
  to_rfc3339 : Z → string;
  parse_from_rfc3339 : string → option Z;
  params_to_string : list CapParam.t → string;
  params_from_str : string → option (list CapParam.t)
}.

(** RFC 3339 writes a year in four digits: the instants from year 0 to 9999. *)
Definition rfc3339_range (t : Z) : Prop := -62167219200000000000 ≤ t ≤ 253402300799999999999.

(** The documented round trips. *)
Class CodecLaws `{Codec} : Prop := {
  rfc3339_roundtrip t : rfc3339_range t → parse_from_rfc3339 (to_rfc3339 t) = Some t;
  params_roundtrip ps : params_from_str (params_to_string ps) = Some ps
}.

(** A concrete codec, for evaluation: binary digits. *)
Fixpoint pos_to_string (p : positive) : string :=
  match p with
  | xH => ""
  | xO p => String "0" (pos_to_string p)
  | xI p => String "1" (pos_to_string p)
  end.

Fixpoint pos_of_string (s : string) : positive :=
  match s with
  | String "1" s => xI (pos_of_string s)
  | String _ s => xO (pos_of_string s)
  | "" => xH
  end.

Lemma pos_of_to_string p : pos_of_string (pos_to_string p) = p.
Proof. by induction p as [p IH|p IH|]; simpl; rewrite ?IH. Qed.

Definition codec_model : Codec := {|
  to_rfc3339 t := pos_to_string (encode t);
  parse_from_rfc3339 s := decode (pos_of_string s);
  params_to_string ps := pos_to_string (encode (map (λ p, (CapParam.key p, CapParam.value p)) ps));
  params_from_str s :=
    map (λ kv : string * string, CapParam.mk kv.1 kv.2) <$> decode (pos_of_string s)
|}.

Lemma codec_model_laws : @CodecLaws codec_model.
Proof.
  split; simpl.
  - intros t _. by rewrite pos_of_to_string, decode_encode.
  - intros ps. rewrite pos_of_to_string, decode_encode. simpl. f_equal.
    induction ps as [|[k v] ps IH]; simpl; [done|]. by f_equal.
Qed.
