(* ===== verification/Subset.v ===== *)
(** * The grant subset rules

    Models [crates/capabilities/cap-grant/src/subset.rs] (CONTRACT-122): when
    may a held grant issue a narrower one ([validate]), and when does it cover
    a call ([covers_request]).  Class [SubsetValidator] is the Rust trait of
    that name; the grant store is written against it. *)
From S2P Require Import Prelude RustStr McpPatterns GrantData.
Open Scope string_scope.
Open Scope list_scope.
Open Scope Z_scope.

(** ** Definitions *)

(** The trait [SubsetValidator]. *)
Class SubsetValidator := validate : Grant.t → GrantDraft.t → Result unit.

Definition violation {A} (msg : string) : Result A := Err (CapGrantError.SubsetViolation msg).

(** [get_param]. *)
Fixpoint get_param (params : list CapParam.t) (key : string) : option string :=
  match params with
  | [] => None
  | p :: params =>
      if String.eqb (CapParam.key p) key then Some (CapParam.value p) else get_param params key
  end.

(** [parse_csv]. *)
Definition parse_csv (value : string) : list string :=
  List.filter (λ s, negb (String.eqb s "")) (trim <$> split_char "," value).

(** [xs.contains(&x)] and [xs.iter().any(..)]. *)
Definition contains (xs : list string) (x : string) : bool := existsb (String.eqb x) xs.

Definition path_has_traversal (path : string) : bool :=
  existsb (λ seg, String.eqb seg ".." || String.eqb seg ".") (split_char "/" path).

Definition path_prefix_subset (parent child : string) : bool :=
  if String.eqb parent child then true
  else
    let parent_norm := trim_end_matches "/" parent in
    if String.eqb parent_norm "" then true
    else starts_with (parent_norm +:+ "/") child || String.eqb child parent_norm.

(** The body of [check_fs]'s loop, for one key. *)
Definition check_fs_key (parent child : list CapParam.t) (key : string) : Result unit :=
  match get_param parent key, get_param child key with
  | None, None => Ok tt
  | None, Some _ => violation "fs: child requests but parent has no such key"
  | Some _, None => Ok tt
  | Some p_csv, Some c_csv =>
      let parent_paths := parse_csv p_csv in
      let child_paths := parse_csv c_csv in
      _ ← try_for (λ path,
            guard_err (path_has_traversal path)
              (CapGrantError.SubsetViolation "fs: path contains `..` segment"))
          (parent_paths ++ child_paths);
      try_for (λ cp,
        guard_err (negb (existsb (λ pp, path_prefix_subset pp cp) parent_paths))
          (CapGrantError.SubsetViolation "fs: child path not under any parent path"))
        child_paths
  end.

Definition check_fs (parent child : list CapParam.t) : Result unit :=
  try_for (check_fs_key parent child) ["read-paths"; "write-paths"].

(** The double-slash test that ends [validate_url_pattern_form]. *)
Definition has_inner_double_slash (s : string) : bool :=
  match find_rest "://" s with
  | Some post_scheme => contains_str "//" post_scheme
  | None => contains_str "//" s
  end.

Definition validate_url_pattern_form (s : string) : Result unit :=
  _ ← try_for (λ b,
        guard_err ((b <? 0x20) || (b =? 0x7F) || (0x7F <? b))
          (CapGrantError.SubsetViolation "URL pattern contains non-printable / non-ASCII byte"))
      (bytes s);
  _ ← guard_err (contains_char "*" s && negb (ends_with "/*" s))
        (CapGrantError.SubsetViolation "URL pattern wildcard must terminate as `/*`");
  _ ← guard_err (1 <? count_char "*" s)
        (CapGrantError.SubsetViolation "URL pattern may contain at most one `*`");
  _ ← guard_err (contains_char "%" s)
        (CapGrantError.SubsetViolation "URL pattern must not contain `%`");
  guard_err (has_inner_double_slash s)
    (CapGrantError.SubsetViolation "URL pattern must not contain `//` after the scheme").

Definition url_pattern_subset (parent child : string) : Result unit :=
  _ ← validate_url_pattern_form parent;
  _ ← validate_url_pattern_form child;
  if String.eqb parent child then Ok tt
  else
    let contained :=
      match strip_suffix "/*" parent, strip_suffix "/*" child with
      | Some parent_prefix, Some child_prefix =>
          String.eqb child_prefix parent_prefix || starts_with (parent_prefix +:+ "/") child_prefix
      | Some parent_prefix, None =>
          String.eqb child parent_prefix || starts_with (parent_prefix +:+ "/") child
      | None, _ => false
      end in
    if contained then Ok tt else violation "http pattern not contained".

Definition check_http (parent child : list CapParam.t) : Result unit :=
  match get_param parent "allowlist", get_param child "allowlist" with
  | None, None => Ok tt
  | None, Some _ => violation "http.allowlist: child requests but parent has no allowlist"
  | Some _, None => Ok tt
  | Some p_csv, Some c_csv =>
      let parent_pats := parse_csv p_csv in
      let child_pats := parse_csv c_csv in
      _ ← try_for validate_url_pattern_form parent_pats;
      _ ← try_for validate_url_pattern_form child_pats;
      try_for (λ cp,
        guard_err (negb (existsb (λ pp, is_ok (url_pattern_subset pp cp)) parent_pats))
          (CapGrantError.SubsetViolation "http.allowlist: child pattern not contained"))
        child_pats
  end.

(** The set-subset test on one key that [check_messaging], [check_llm],
    [check_skills] and [check_list_subset] write out. *)
Definition check_list_key (parent child : list CapParam.t) (key : string) : Result unit :=
  match get_param parent key, get_param child key with
  | Some p, Some c =>
      let pp := parse_csv p in
      try_for (λ ct,
        guard_err (negb (contains pp ct))
          (CapGrantError.SubsetViolation "child token not in parent set")) (parse_csv c)
  | None, Some _ => violation "child requests but parent has no such key"
  | _, None => Ok tt
  end.

Definition check_list_subset (keys : list string) (parent child : list CapParam.t) : Result unit :=
  try_for (check_list_key parent child) keys.

Definition check_numeric_le (parent child : list CapParam.t) (key : string) : Result unit :=
  match get_param parent key, get_param child key with
  | Some p, Some c =>
      pn ← ok_or (parse_u64 (trim p)) (CapGrantError.SubsetViolation "parent not a number");
      cn ← ok_or (parse_u64 (trim c)) (CapGrantError.SubsetViolation "child not a number");
      guard_err (pn <? cn) (CapGrantError.SubsetViolation "child > parent")
  | None, Some _ => violation "child requests but parent has no such key"
  | _, None => Ok tt
  end.

Definition check_messaging (parent child : list CapParam.t) : Result unit :=
  _ ← check_list_key parent child "targets";
  _ ← check_numeric_le parent child "max-fanout";
  check_numeric_le parent child "max-depth".

Definition parse_bool (s : string) : Result bool :=
  let t := trim s in
  if String.eqb t "true" then Ok true
  else if String.eqb t "false" then Ok false
  else violation "not a boolean".

(** The body of [check_lifecycle]'s loop, for one key. *)
Definition check_lifecycle_key (parent child : list CapParam.t) (key : string) : Result unit :=
  match get_param parent key, get_param child key with
  | Some p, Some c =>
      pb ← parse_bool p;
      cb ← parse_bool c;
      guard_err (cb && negb pb) (CapGrantError.SubsetViolation "child=true exceeds parent=false")
  | None, Some _ => violation "lifecycle: child requests but parent has no such key"
  | _, None => Ok tt
  end.

Definition check_lifecycle (parent child : list CapParam.t) : Result unit :=
  try_for (check_lifecycle_key parent child) ["spawn-child"; "spawn-sub"].

Definition check_llm (parent child : list CapParam.t) : Result unit :=
  _ ← check_list_key parent child "models";
  check_numeric_le parent child "max-tokens-per-call".

Definition check_skills (parent child : list CapParam.t) : Result unit :=
  _ ← check_numeric_le parent child "max-active-skills";
  check_list_key parent child "allowed-actions".

Definition MCP_KEYS : list string := ["servers"; "tool-patterns"].

Definition reject_unknown_mcp_keys (params : list CapParam.t) : Result unit :=
  guard_err (existsb (λ p, negb (contains MCP_KEYS (CapParam.key p))) params)
    (CapGrantError.SubsetViolation "mcp: not an mcp param").

Definition parse_tool_patterns (params : list CapParam.t) : Result (option (list ToolPattern)) :=
  match get_param params "tool-patterns" with
  | None => Ok None
  | Some value =>
      ps ← try_map (λ raw,
             match parse raw with
             | Ok p => Ok p
             | Err _ => violation "mcp.tool-patterns: pattern is malformed"
             end) (parse_csv value);
      Ok (Some ps)
  end.

Definition check_mcp_servers (parent child : list CapParam.t) : Result unit :=
  match get_param parent "servers", get_param child "servers" with
  | _, None => Ok tt
  | None, Some _ => violation "mcp.servers: child requests servers but the parent reaches none"
  | Some p, Some c =>
      try_for (λ cs,
        guard_err (negb (contains (parse_csv p) cs))
          (CapGrantError.SubsetViolation "mcp.servers: child not in parent set")) (parse_csv c)
  end.

Definition check_mcp (parent child : list CapParam.t) : Result unit :=
  _ ← reject_unknown_mcp_keys parent;
  _ ← reject_unknown_mcp_keys child;
  _ ← check_mcp_servers parent child;
  pp ← parse_tool_patterns parent;
  cc ← parse_tool_patterns child;
  match pp, cc with
  | None, _ => Ok tt
  | Some _, None => violation "mcp.tool-patterns: child leaves out tool-patterns"
  | Some pp, Some cc =>
      try_for (λ c,
        guard_err (negb (existsb (λ p, covers p c) pp))
          (CapGrantError.SubsetViolation "mcp.tool-patterns: child pattern is not covered")) cc
  end.

(** The [match parent.capability] of [validate]: one rule per family. *)
Definition family_rules : list (string * (list CapParam.t → list CapParam.t → Result unit)) := [
  ("fs", check_fs);
  ("http", check_http);
  ("messaging", check_messaging);
  ("lifecycle", check_lifecycle);
  ("llm", check_llm);
  ("secrets", check_list_subset ["names"]);
  ("tools", check_list_subset ["ids"]);
  ("notify", check_list_subset ["targets"]);
  ("data", check_list_subset ["mode"]);
  ("mcp", check_mcp);
  ("skills", check_skills);
  ("web", λ _ _, violation "web is a whole-capability-only grant dimension")
].

Fixpoint find_rule {A} (rules : list (string * A)) (name : string) : option A :=
  match rules with
  | [] => None
  | (n, rule) :: rules => if String.eqb name n then Some rule else find_rule rules name
  end.

(** [SubsetValidatorImpl::validate] on the capability names and the params. *)
Definition validate_params (parent_cap : string) (parent : list CapParam.t)
    (child_cap : string) (child : list CapParam.t) : Result unit :=
  _ ← guard_err (negb (String.eqb parent_cap child_cap))
        (CapGrantError.SubsetViolation "capability mismatch");
  _ ← (if String.eqb child_cap "mcp" then
         _ ← reject_unknown_mcp_keys child;
         _ ← parse_tool_patterns child;
         Ok tt
       else Ok tt);
  match parent, child with
  | [], _ => Ok tt
  | _, [] => violation "child requests whole capability but parent has restricted params"
  | _, _ =>
      match find_rule family_rules parent_cap with
      | Some rule => rule parent child
      | None => violation "unknown capability"
      end
  end.

(** [impl SubsetValidator for SubsetValidatorImpl]. *)
Definition SubsetValidatorImpl : SubsetValidator := λ parent child,
  validate_params (Grant.capability parent) (Grant.params parent)
    (GrantDraft.capability child) (GrantDraft.params child).

(** [mcp_scope]. *)
Definition mcp_scope (params : list CapParam.t) : option McpGrantScope :=
  match params with
  | [] => Some unrestricted
  | _ =>
      if is_ok (reject_unknown_mcp_keys params) then
        Some {| servers := Some (default [] (parse_csv <$> get_param params "servers"));
                tool_patterns := parse_csv <$> get_param params "tool-patterns" |}
      else None
  end.

(** [covers_mcp_request]. *)
Definition covers_mcp_request (held request : list CapParam.t) : Result unit :=
  scope ← ok_or (mcp_scope held)
            (CapGrantError.SubsetViolation "mcp: the held grant covers nothing");
  _ ← reject_unknown_mcp_keys request;
  let servers := default [] (parse_csv <$> get_param request "servers") in
  _ ← guard_err (bool_decide (servers = []))
        (CapGrantError.SubsetViolation "mcp: a request must name the server it addresses");
  let tools := parse_csv <$> get_param request "tool-patterns" in
  _ ← guard_err (bool_decide (tools = Some []))
        (CapGrantError.SubsetViolation "mcp: a request carrying tool-patterns must name a tool");
  try_for (λ server,
    let covered :=
      match tools with
      | None => covers_server scope server
      | Some tools => forallb (covers_tool scope server) tools
      end in
    guard_err (negb covered)
      (CapGrantError.SubsetViolation "mcp: the held grant does not cover the request")) servers.

(** [SubsetValidatorImpl::covers_request]. *)
Definition covers_request (held : Grant.t) (request : GrantDraft.t) : Result unit :=
  if String.eqb (Grant.capability held) "mcp" && String.eqb (GrantDraft.capability request) "mcp"
  then covers_mcp_request (Grant.params held) (GrantDraft.params request)
  else SubsetValidatorImpl held request.

(** [mcp_param_problems], one tag per reported problem. *)
Inductive McpProblem :=
| UnknownKey (key : string) | ServersMissing | ServersEmpty | GlobServer (server : string)
| PatternsEmpty | MalformedPattern (raw : string).

Definition mcp_param_problems (params : list CapParam.t) : list McpProblem :=
  match params with
  | [] => []
  | _ =>
      (UnknownKey <$> List.filter (λ k, negb (contains MCP_KEYS k)) (CapParam.key <$> params))
      ++ match parse_csv <$> get_param params "servers" with
         | None => [ServersMissing]
         | Some [] => [ServersEmpty]
         | Some servers => GlobServer <$> List.filter contains_glob servers
         end
      ++ match parse_csv <$> get_param params "tool-patterns" with
         | None => []
         | Some patterns =>
             (match patterns with [] => [PatternsEmpty] | _ => [] end)
             ++ (MalformedPattern <$> List.filter (λ raw, negb (is_ok (parse raw))) patterns)
         end
  end.

(** ** The per-key order the rules decide *)

(** A child value on one key is covered: the child leaves the key out, or the
    parent has it and the values are related. *)
Definition key_le (R : string → string → Prop) (p c : option string) : Prop :=
  ∀ cv, c = Some cv → ∃ pv, p = Some pv ∧ R pv cv.

Lemma key_le_trans R p c r : Transitive R → key_le R p c → key_le R c r → key_le R p r.
Proof.
  intros HR Hpc Hcr rv Hr. destruct (Hcr rv Hr) as (cv & Hc & ?).
  destruct (Hpc cv Hc) as (pv & ? & ?). eauto.
Qed.

Definition csv_incl (p c : string) : Prop := ∀ t, t ∈ parse_csv c → t ∈ parse_csv p.

Definition numeric_le (p c : string) : Prop :=
  ∃ pn cn, parse_u64 (trim p) = Some pn ∧ parse_u64 (trim c) = Some cn ∧ cn ≤ pn.

Definition bool_le (p c : string) : Prop :=
  ∃ pb cb, parse_bool p = Ok pb ∧ parse_bool c = Ok cb ∧ (cb = true → pb = true).

Definition fs_le (p c : string) : Prop :=
  (∀ path, path ∈ parse_csv p ++ parse_csv c → path_has_traversal path = false) ∧
  ∀ cp, cp ∈ parse_csv c → ∃ pp, pp ∈ parse_csv p ∧ path_prefix_subset pp cp = true.

Definition http_le (p c : string) : Prop :=
  (∀ u, u ∈ parse_csv p ++ parse_csv c → validate_url_pattern_form u = Ok tt) ∧
  ∀ cp, cp ∈ parse_csv c → ∃ pp, pp ∈ parse_csv p ∧ url_pattern_subset pp cp = Ok tt.

Definition patterns_le (p c : option (list ToolPattern)) : Prop :=
  ∀ pp, p = Some pp → ∃ cc, c = Some cc ∧
    ∀ c, c ∈ cc → ∃ p, p ∈ pp ∧ covers p c = true.

(** ** Facts about the rules *)

Lemma existsb_elem {A} (f : A → bool) l : existsb f l = true ↔ ∃ x, x ∈ l ∧ f x = true.
Proof. rewrite existsb_exists. by setoid_rewrite list_elem_of_In. Qed.

Lemma contains_elem xs x : contains xs x = true ↔ x ∈ xs.
Proof.
  unfold contains. rewrite existsb_elem. setoid_rewrite String.eqb_eq. naive_solver.
Qed.

Lemma try_for_elem {A} (f : A → Result unit) l :
  try_for f l = Ok tt ↔ ∀ x, x ∈ l → f x = Ok tt.
Proof. by rewrite try_for_Ok, Forall_forall. Qed.

Lemma check_list_key_Ok p c key :
  check_list_key p c key = Ok tt ↔ key_le csv_incl (get_param p key) (get_param c key).
Proof.
  unfold check_list_key, key_le, csv_incl.
  destruct (get_param p key) as [pv|], (get_param c key) as [cv|]; try naive_solver.
  rewrite try_for_elem. setoid_rewrite guard_err_Ok. setoid_rewrite negb_false_iff.
  setoid_rewrite contains_elem. naive_solver.
Qed.

Lemma check_list_subset_Ok keys p c :
  check_list_subset keys p c = Ok tt ↔
    ∀ key, key ∈ keys → key_le csv_incl (get_param p key) (get_param c key).
Proof. unfold check_list_subset. rewrite try_for_elem. by setoid_rewrite check_list_key_Ok. Qed.

Lemma check_numeric_le_Ok p c key :
  check_numeric_le p c key = Ok tt ↔ key_le numeric_le (get_param p key) (get_param c key).
Proof.
  unfold check_numeric_le, key_le, numeric_le.
  destruct (get_param p key) as [pv|], (get_param c key) as [cv|]; try naive_solver.
  rewrite bind_Ok. setoid_rewrite bind_Ok. setoid_rewrite ok_or_Ok.
  setoid_rewrite guard_err_Ok. setoid_rewrite Z.ltb_ge. naive_solver.
Qed.

Lemma check_lifecycle_key_Ok p c key :
  check_lifecycle_key p c key = Ok tt ↔ key_le bool_le (get_param p key) (get_param c key).
Proof.
  unfold check_lifecycle_key, key_le, bool_le.
  destruct (get_param p key) as [pv|], (get_param c key) as [cv|]; try naive_solver.
  rewrite bind_Ok. setoid_rewrite bind_Ok. setoid_rewrite guard_err_Ok. split.
  - intros (pb & ? & cb & ? & Hb) ? [= <-]. exists pv. split; [done|].
    exists pb, cb. split_and!; [done..|]. by destruct pb, cb.
  - intros H. destruct (H cv eq_refl) as (? & [= <-] & pb & cb & ? & ? & Hb).
    exists pb. split; [done|]. exists cb. split; [done|]. destruct pb, cb; naive_solver.
Qed.

Lemma check_fs_key_Ok p c key :
  check_fs_key p c key = Ok tt ↔ key_le fs_le (get_param p key) (get_param c key).
Proof.
  unfold check_fs_key, key_le, fs_le.
  destruct (get_param p key) as [pv|], (get_param c key) as [cv|]; try naive_solver.
  rewrite bind_unit_Ok, !try_for_elem. setoid_rewrite guard_err_Ok.
  setoid_rewrite negb_false_iff. setoid_rewrite existsb_elem. naive_solver.
Qed.

Lemma check_http_Ok p c :
  check_http p c = Ok tt ↔ key_le http_le (get_param p "allowlist") (get_param c "allowlist").
Proof.
  unfold check_http, key_le, http_le.
  destruct (get_param p _) as [pv|], (get_param c _) as [cv|]; try naive_solver.
  rewrite !bind_unit_Ok, !try_for_elem. setoid_rewrite guard_err_Ok.
  setoid_rewrite negb_false_iff. setoid_rewrite existsb_elem. setoid_rewrite is_ok_unit.
  setoid_rewrite elem_of_app. naive_solver.
Qed.

Lemma check_mcp_servers_Ok p c :
  check_mcp_servers p c = Ok tt ↔ key_le csv_incl (get_param p "servers") (get_param c "servers").
Proof.
  unfold check_mcp_servers, key_le, csv_incl.
  destruct (get_param p _) as [pv|], (get_param c _) as [cv|]; try naive_solver.
  rewrite try_for_elem. setoid_rewrite guard_err_Ok. setoid_rewrite negb_false_iff.
  setoid_rewrite contains_elem. naive_solver.
Qed.

Lemma check_mcp_Ok p c :
  check_mcp p c = Ok tt ↔
    reject_unknown_mcp_keys p = Ok tt ∧ reject_unknown_mcp_keys c = Ok tt ∧
    key_le csv_incl (get_param p "servers") (get_param c "servers") ∧
    ∃ pp cc, parse_tool_patterns p = Ok pp ∧ parse_tool_patterns c = Ok cc ∧ patterns_le pp cc.
Proof.
  unfold check_mcp. rewrite !bind_unit_Ok, check_mcp_servers_Ok, bind_Ok.
  setoid_rewrite bind_Ok. unfold patterns_le.
  assert (∀ pp cc : option (list ToolPattern),
    match pp, cc with
    | None, _ => Ok tt
    | Some _, None => violation "mcp.tool-patterns: child leaves out tool-patterns"
    | Some pp, Some cc =>
        try_for (λ c, guard_err (negb (existsb (λ p, covers p c) pp))
          (CapGrantError.SubsetViolation "mcp.tool-patterns: child pattern is not covered")) cc
    end = Ok tt ↔ patterns_le pp cc) as Hm.
  { unfold patterns_le. intros [pp|] [cc|]; try naive_solver.
    rewrite try_for_elem. setoid_rewrite guard_err_Ok. setoid_rewrite negb_false_iff.
    setoid_rewrite existsb_elem. naive_solver. }
  setoid_rewrite Hm. naive_solver.
Qed.

(** *** Each value order is transitive *)

#[export] Instance csv_incl_trans : Transitive csv_incl.
Proof. intros p c r. unfold csv_incl. eauto. Qed.

#[export] Instance numeric_le_trans : Transitive numeric_le.
Proof.
  intros p c r (pn & cn & ? & Hc & ?) (cn' & rn & Hc' & ? & ?).
  exists pn, rn. split_and!; [done..|]. rewrite Hc in Hc'. simplify_eq. lia.
Qed.

#[export] Instance bool_le_trans : Transitive bool_le.
Proof.
  intros p c r (pb & cb & ? & Hc & ?) (cb' & rb & Hc' & ? & ?).
  exists pb, rb. split_and!; [done..|]. rewrite Hc in Hc'. simplify_eq. eauto.
Qed.

(** *** Paths *)

Lemma path_prefix_subset_spec p c :
  path_prefix_subset p c = true ↔
    let n := trim_end_matches "/" p in
    p = c ∨ n = "" ∨ c = n ∨ ∃ t, c = n +:+ String "/" t.
Proof.
  unfold path_prefix_subset. destruct (String.eqb_spec p c) as [->|Hne]; [naive_solver|].
  destruct (String.eqb_spec (trim_end_matches "/" p) "") as [->|Hn]; [naive_solver|].
  rewrite orb_true_iff, starts_with_spec, String.eqb_eq.
  assert (∀ t, (trim_end_matches "/" p +:+ "/") +:+ t
             = trim_end_matches "/" p +:+ String "/" t) as Happ
    by (intros t; by rewrite <- append_assoc).
  setoid_rewrite Happ. naive_solver.
Qed.

Lemma path_prefix_subset_trans p c r :
  path_prefix_subset p c = true → path_prefix_subset c r = true → path_prefix_subset p r = true.
Proof.
  rewrite !path_prefix_subset_spec. simpl. set (n := trim_end_matches "/" p).
  assert (trim_end_matches "/" n = n) as Hidem by apply trim_end_matches_idemp.
  destruct (decide (n = "")) as [Hn|Hn]; [by auto|].
  intros [->|[?|Hc]] Hcr; [done..|].
  assert (trim_end_matches "/" c = n ∨ ∃ t, trim_end_matches "/" c = n +:+ String "/" t) as Hnc.
  { destruct Hc as [->|[t ->]]; [by left|]. rewrite trim_end_matches_app.
    destruct (trim_end_matches_head "/" "/" t) as [->|[t' ->]]; eauto. }
  destruct Hcr as [<-|[Hnil|Hr]]; [tauto| |].
  - destruct Hnc as [Heq|[t Heq]]; rewrite Heq in Hnil; [done|]. by destruct n.
  - right. right. destruct Hnc as [Heq|[t Heq]]; rewrite Heq in Hr; [done|].
    destruct Hr as [->|[u ->]]; [eauto|]. right. exists (t +:+ String "/" u).
    by rewrite <- append_assoc.
Qed.

#[export] Instance fs_le_trans : Transitive fs_le.
Proof.
  intros p c r [Hp Hpc] [Hc Hcr]. split.
  - intros path Hin. apply elem_of_app in Hin as [?|?]; [apply Hp | apply Hc]; set_solver.
  - intros rp Hr. destruct (Hcr rp Hr) as (cp & Hcp & ?).
    destruct (Hpc cp Hcp) as (pp & ? & ?). exists pp. split; [done|].
    by apply (path_prefix_subset_trans pp cp).
Qed.

(** *** URL patterns *)

(** The URLs a pattern stands for: a literal is itself, [<prefix>/*] is the
    prefix and everything under it at a path boundary. *)
Definition url_matches (pat u : string) : Prop :=
  match strip_suffix "/*" pat with
  | Some prefix => u = prefix ∨ ∃ t, u = prefix +:+ String "/" t
  | None => u = pat
  end.

Lemma url_matches_trans p c u :
  url_matches (p +:+ "/*") c → url_matches (c +:+ "/*") u → url_matches (p +:+ "/*") u.
Proof.
  unfold url_matches.
  assert (∀ x, strip_suffix "/*" (x +:+ "/*") = Some x) as Hx by (intros x; by apply strip_suffix_spec).
  rewrite !Hx. intros [->|[t ->]] [->|[v ->]]; eauto.
  right. exists (t +:+ String "/" v). by rewrite <- append_assoc.
Qed.

Lemma boundary_spec p s :
  String.eqb s p || starts_with (p +:+ "/") s = true ↔ s = p ∨ ∃ t, s = p +:+ String "/" t.
Proof.
  rewrite orb_true_iff, String.eqb_eq, starts_with_spec.
  assert (∀ t, (p +:+ "/") +:+ t = p +:+ String "/" t) as Happ
    by (intros t; by rewrite <- append_assoc).
  by setoid_rewrite Happ.
Qed.

Lemma append_not_self s a t : s +:+ String a t ≠ s.
Proof. intros H. apply (f_equal String.length) in H. rewrite length_append in H. simpl in H. lia. Qed.

Lemma url_pattern_subset_iff p c :
  url_pattern_subset p c = Ok tt ↔
    validate_url_pattern_form p = Ok tt ∧ validate_url_pattern_form c = Ok tt ∧
    ∀ u, url_matches c u → url_matches p u.
Proof.
  unfold url_pattern_subset. rewrite !bind_unit_Ok.
  apply and_iff_compat_l, and_iff_compat_l.
  destruct (String.eqb_spec p c) as [->|Hne]; [naive_solver|].
  assert (∀ b (m : string), (if b : bool then Ok tt else violation m) = Ok tt ↔ b = true) as Hif
    by (intros [] ?; naive_solver).
  rewrite Hif. clear Hif. unfold url_matches.
  destruct (strip_suffix "/*" p) as [pp|] eqn:Hp, (strip_suffix "/*" c) as [cp|] eqn:Hc.
  - rewrite boundary_spec. split.
    + intros Hpc u Hu. pose proof (url_matches_trans pp cp u) as Ht.
      apply strip_suffix_spec in Hp as ->. apply strip_suffix_spec in Hc as ->.
      unfold url_matches in Ht.
      rewrite (proj2 (strip_suffix_spec "/*" (pp +:+ "/*") pp)) in Ht by done.
      rewrite (proj2 (strip_suffix_spec "/*" (cp +:+ "/*") cp)) in Ht by done. auto.
    + intros H. apply H. by left.
  - rewrite boundary_spec. split; [by intros ? u -> | by auto].
  - split; [done|]. intros H. exfalso.
    pose proof (H cp (or_introl eq_refl)) as H1.
    pose proof (H (cp +:+ "/") (or_intror (ex_intro _ "" eq_refl))) as H2. subst p.
    by apply append_not_self in H2.
  - split; [done|]. intros H. exfalso. apply Hne. symmetry. by apply H.
Qed.

#[export] Instance http_le_trans : Transitive http_le.
Proof.
  intros p c r [Hp Hpc] [Hc Hcr]. split.
  - intros u Hin. apply elem_of_app in Hin as [?|?]; [apply Hp | apply Hc]; set_solver.
  - intros rp Hr. destruct (Hcr rp Hr) as (cp & Hcp & H1).
    destruct (Hpc cp Hcp) as (pp & ? & H2). exists pp. split; [done|].
    apply url_pattern_subset_iff in H1 as (? & ? & ?), H2 as (? & ? & ?).
    apply url_pattern_subset_iff. eauto.
Qed.

(** *** Composition: every family rule is transitive *)

Definition rule_le (rule : list CapParam.t → list CapParam.t → Result unit) : relation (list CapParam.t) :=
  λ p c, rule p c = Ok tt.

Lemma rule_le_key_trans rule (keys : list string) (R : string → string → string → Prop) :
  (∀ key, Transitive (R key)) →
  (∀ p c, rule p c = Ok tt ↔ ∀ key, key ∈ keys → key_le (R key) (get_param p key) (get_param c key)) →
  Transitive (rule_le rule).
Proof.
  intros HR Hrule p c r. unfold rule_le. rewrite !Hrule. intros Hpc Hcr key Hkey.
  apply (key_le_trans _ _ (get_param c key)); eauto.
Qed.

Lemma check_fs_trans : Transitive (rule_le check_fs).
Proof.
  apply (rule_le_key_trans _ ["read-paths"; "write-paths"] (λ _, fs_le)); [apply _|].
  intros p c. unfold check_fs. rewrite try_for_elem. by setoid_rewrite check_fs_key_Ok.
Qed.

Lemma check_http_trans : Transitive (rule_le check_http).
Proof.
  intros p c r. unfold rule_le. rewrite !check_http_Ok. apply key_le_trans, _.
Qed.

Lemma check_list_subset_trans keys : Transitive (rule_le (check_list_subset keys)).
Proof.
  apply (rule_le_key_trans _ keys (λ _, csv_incl)); [apply _|]. intros. apply check_list_subset_Ok.
Qed.

Lemma check_lifecycle_trans : Transitive (rule_le check_lifecycle).
Proof.
  apply (rule_le_key_trans _ ["spawn-child"; "spawn-sub"] (λ _, bool_le)); [apply _|].
  intros p c. unfold check_lifecycle. rewrite try_for_elem. by setoid_rewrite check_lifecycle_key_Ok.
Qed.

Lemma check_messaging_trans : Transitive (rule_le check_messaging).
Proof.
  intros p c r. unfold rule_le, check_messaging.
  rewrite !bind_unit_Ok, !check_list_key_Ok, !check_numeric_le_Ok.
  intros (?&?&?) (?&?&?). split_and!; eapply key_le_trans; eauto; apply _.
Qed.

Lemma check_llm_trans : Transitive (rule_le check_llm).
Proof.
  intros p c r. unfold rule_le, check_llm.
  rewrite !bind_unit_Ok, !check_list_key_Ok, !check_numeric_le_Ok.
  intros (?&?) (?&?). split_and!; eapply key_le_trans; eauto; apply _.
Qed.

Lemma check_skills_trans : Transitive (rule_le check_skills).
Proof.
  intros p c r. unfold rule_le, check_skills.
  rewrite !bind_unit_Ok, !check_list_key_Ok, !check_numeric_le_Ok.
  intros (?&?) (?&?). split_and!; eapply key_le_trans; eauto; apply _.
Qed.

Lemma patterns_le_trans p c r : patterns_le p c → patterns_le c r → patterns_le p r.
Proof.
  intros Hpc Hcr pp ->. destruct (Hpc pp eq_refl) as (cc & -> & H1).
  destruct (Hcr cc eq_refl) as (rr & -> & H2). exists rr. split; [done|].
  intros q Hq. destruct (H2 q Hq) as (c & Hc & ?). destruct (H1 c Hc) as (p & ? & ?).
  exists p. split; [done|]. by apply (covers_trans p c q).
Qed.

Lemma check_mcp_trans : Transitive (rule_le check_mcp).
Proof.
  intros p c r. unfold rule_le. rewrite !check_mcp_Ok.
  intros (?&?&?&pp&cc&?&Hc&?) (?&?&?&cc'&rr&Hc'&?&?). rewrite Hc in Hc'. simplify_eq.
  split_and!; [done..| |].
  - eapply key_le_trans; eauto; apply _.
  - exists pp, rr. split_and!; [done..|]. by apply (patterns_le_trans pp cc').
Qed.

Lemma family_rules_trans : Forall (λ nr, Transitive (rule_le nr.2)) family_rules.
Proof.
  unfold family_rules. repeat apply Forall_cons_2; simpl; [..|apply Forall_nil_2];
    auto using check_fs_trans, check_http_trans, check_messaging_trans, check_lifecycle_trans,
      check_llm_trans, check_list_subset_trans, check_mcp_trans, check_skills_trans.
Qed.

Lemma find_rule_elem {A} (rules : list (string * A)) name rule :
  find_rule rules name = Some rule → (name, rule) ∈ rules.
Proof.
  induction rules as [|[n r] rules IH]; simpl; [done|].
  destruct (String.eqb_spec name n) as [->|]; [intros [= ->]; by left | intros; right; auto].
Qed.

(** The params a non-[mcp] child may carry, and what [mcp] adds. *)
Definition mcp_well_formed (cap : string) (c : list CapParam.t) : Prop :=
  cap = "mcp" → reject_unknown_mcp_keys c = Ok tt ∧ ∃ cc, parse_tool_patterns c = Ok cc.

Lemma validate_params_Ok pc p cc c :
  validate_params pc p cc c = Ok tt ↔
    pc = cc ∧ mcp_well_formed cc c ∧
    (p = [] ∨ (p ≠ [] ∧ c ≠ [] ∧ ∃ rule, find_rule family_rules pc = Some rule ∧ rule p c = Ok tt)).
Proof.
  unfold validate_params, mcp_well_formed. rewrite !bind_unit_Ok, guard_err_Ok, negb_false_iff, String.eqb_eq.
  apply and_iff_compat_l. apply Morphisms_Prop.and_iff_morphism.
  - destruct (String.eqb_spec cc "mcp") as [->|]; [|naive_solver].
    rewrite bind_unit_Ok, bind_Ok. naive_solver.
  - destruct p as [|x p]; [naive_solver|]. destruct c as [|y c]; [naive_solver|].
    destruct (find_rule family_rules pc) as [rule|]; [|naive_solver]. split.
    + intros ?. right. eauto.
    + intros [?|(_ & _ & ? & [= <-] & ?)]; done.
Qed.

Lemma validate_params_trans cap p c r :
  validate_params cap p cap c = Ok tt → validate_params cap c cap r = Ok tt →
  validate_params cap p cap r = Ok tt.
Proof.
  rewrite !validate_params_Ok. intros (_ & Hc & Hpc) (_ & Hr & Hcr).
  split_and!; [done..|]. destruct Hpc as [->|(? & Hne & rule & Hrule & ?)]; [by left|].
  destruct Hcr as [->|(_ & ? & rule' & Hrule' & ?)]; [done|]. simplify_eq.
  right. split_and!; [done..|]. exists rule. split; [done|].
  apply find_rule_elem in Hrule. pose proof family_rules_trans as Hall.
  rewrite Forall_forall in Hall. by apply (Hall _ Hrule p c r).
Qed.

(** *** Call-time coverage follows issuance *)

Lemma mcp_scope_restricted p :
  p ≠ [] → reject_unknown_mcp_keys p = Ok tt →
  mcp_scope p = Some {| servers := Some (default [] (parse_csv <$> get_param p "servers"));
                        tool_patterns := parse_csv <$> get_param p "tool-patterns" |}.
Proof. intros Hne Hok. unfold mcp_scope. rewrite Hok. by destruct p. Qed.

Lemma parse_tool_patterns_Ok p pp :
  parse_tool_patterns p = Ok pp ↔
    match get_param p "tool-patterns", pp with
    | None, None => True
    | Some value, Some ps => Forall2 (λ raw q, parse raw = Ok q) (parse_csv value) ps
    | _, _ => False
    end.
Proof.
  unfold parse_tool_patterns. destruct (get_param p _) as [v|]; [|destruct pp; naive_solver].
  rewrite bind_Ok. setoid_rewrite try_map_Ok.
  assert (∀ ps, Forall2 (λ raw q, match parse raw with Ok p => Ok p | Err _ =>
      violation "mcp.tool-patterns: pattern is malformed" end = Ok q) (parse_csv v) ps
    ↔ Forall2 (λ raw q, parse raw = Ok q) (parse_csv v) ps) as Hp.
  { intros ps. split; intros H; (eapply Forall2_impl; [exact H|]);
      intros raw q; simpl; destruct (parse raw); naive_solver. }
  setoid_rewrite Hp. destruct pp; naive_solver.
Qed.

(** A narrower [mcp] scope reaches no server and no tool its parent does not. *)
Definition scope_le (p c : McpGrantScope) : Prop :=
  (∀ s, covers_server c s = true → covers_server p s = true) ∧
  (∀ s t, covers_tool c s t = true → covers_tool p s t = true).

Lemma covers_tool_spec scope s t :
  covers_tool scope s t = true ↔
    covers_server scope s = true ∧ is_callable_name t = true ∧
    ∀ ps, tool_patterns scope = Some ps →
      (∀ raw, raw ∈ ps → is_ok (parse raw) = true) ∧
      ∃ raw q, raw ∈ ps ∧ parse raw = Ok q ∧ matches q t = true.
Proof.
  unfold covers_tool. destruct (covers_server scope s); simpl; [|naive_solver].
  destruct (is_callable_name t); simpl; [|naive_solver].
  destruct (tool_patterns scope) as [ps|]; [|naive_solver].
  rewrite match_patterns_spec. naive_solver.
Qed.

Lemma elem_csv_servers p s :
  s ∈ default [] (parse_csv <$> get_param p "servers") ↔
    ∃ v, get_param p "servers" = Some v ∧ s ∈ parse_csv v.
Proof.
  destruct (get_param p "servers") as [v|]; simpl; [naive_solver|].
  split; [by intros ?%elem_of_nil | naive_solver].
Qed.

Lemma check_mcp_scope_le p c sp sc :
  p ≠ [] → c ≠ [] → check_mcp p c = Ok tt →
  mcp_scope p = Some sp → mcp_scope c = Some sc → scope_le sp sc.
Proof.
  intros Hp Hc (Hkp & Hkc & Hs & pp & cc & Hpp & Hcc & Hle)%check_mcp_Ok.
  rewrite !mcp_scope_restricted by done. intros [= <-] [= <-].
  assert (∀ s, covers_server {| servers := Some (default [] (parse_csv <$> get_param c "servers"));
      tool_patterns := parse_csv <$> get_param c "tool-patterns" |} s = true →
    covers_server {| servers := Some (default [] (parse_csv <$> get_param p "servers"));
      tool_patterns := parse_csv <$> get_param p "tool-patterns" |} s = true) as Hserver.
  { intros s. unfold covers_server. simpl. intros [Hname Hin]%andb_true_iff. rewrite Hname. simpl.
    apply existsb_elem in Hin as (x & Hx & ->%String.eqb_eq).
    apply elem_csv_servers in Hx as (cv & Hcv & Hx). destruct (Hs cv Hcv) as (pv & Hpv & Hincl).
    apply existsb_elem. exists s. rewrite String.eqb_refl, elem_csv_servers. eauto. }
  split; [done|]. intros s t. rewrite !covers_tool_spec. simpl.
  intros (Hsrv & Hname & Htool). split_and!; [auto | done |].
  intros ps Hps. apply parse_tool_patterns_Ok in Hpp, Hcc.
  destruct (get_param p "tool-patterns") as [pv|]; simplify_eq/=. destruct pp as [pp|]; [|done].
  destruct (Hle pp eq_refl) as (cc' & -> & Hcov).
  destruct (get_param c "tool-patterns") as [cv|]; [|done]. simpl in Htool.
  destruct (Htool _ eq_refl) as (_ & raw & q & Hraw & Hq & Hm).
  split.
  - intros r Hr. apply list_elem_of_lookup in Hr as [i Hi].
    destruct (Forall2_lookup_l _ _ _ _ _ Hpp Hi) as (x & _ & ->). done.
  - apply list_elem_of_lookup in Hraw as [i Hi].
    destruct (Forall2_lookup_l _ _ _ _ _ Hcc Hi) as (q' & Hq' & Hraw).
    assert (q' = q) as -> by congruence.
    destruct (Hcov q) as (x & Hx & Hxq); [by apply list_elem_of_lookup; eauto|].
    apply list_elem_of_lookup in Hx as [j Hj].
    destruct (Forall2_lookup_r _ _ _ _ _ Hpp Hj) as (rx & Hrx & Hparse).
    exists rx, x. split_and!; [by apply list_elem_of_lookup; eauto | done |].
    by apply (covers_matches x q).
Qed.

(** What a covered [mcp] request asks of the scope. *)
Lemma covers_mcp_request_Ok held request :
  covers_mcp_request held request = Ok tt ↔
    ∃ scope, mcp_scope held = Some scope ∧ reject_unknown_mcp_keys request = Ok tt ∧
      default [] (parse_csv <$> get_param request "servers") ≠ [] ∧
      parse_csv <$> get_param request "tool-patterns" ≠ Some [] ∧
      ∀ server, server ∈ default [] (parse_csv <$> get_param request "servers") →
        match parse_csv <$> get_param request "tool-patterns" with
        | None => covers_server scope server = true
        | Some tools => ∀ tool, tool ∈ tools → covers_tool scope server tool = true
        end.
Proof.
  unfold covers_mcp_request. rewrite bind_Ok. setoid_rewrite ok_or_Ok.
  setoid_rewrite bind_unit_Ok. setoid_rewrite bind_unit_Ok. setoid_rewrite bind_unit_Ok.
  setoid_rewrite guard_err_Ok. setoid_rewrite bool_decide_eq_false.
  setoid_rewrite try_for_elem. setoid_rewrite guard_err_Ok. setoid_rewrite negb_false_iff.
  destruct (parse_csv <$> get_param request "tool-patterns") as [tools|]; [|done].
  setoid_rewrite forallb_forall. by setoid_rewrite list_elem_of_In.
Qed.

Lemma covers_mcp_request_mono p c request :
  (∀ sc, mcp_scope c = Some sc → ∃ sp, mcp_scope p = Some sp ∧ scope_le sp sc) →
  covers_mcp_request c request = Ok tt → covers_mcp_request p request = Ok tt.
Proof.
  intros Hle. rewrite !covers_mcp_request_Ok. intros (sc & Hsc & ? & ? & ? & Hcov).
  destruct (Hle sc Hsc) as (sp & Hsp & Hserver & Htool). exists sp. split_and!; [done..|].
  intros server Hin. specialize (Hcov server Hin).
  destruct (parse_csv <$> get_param request "tool-patterns") as [tools|]; eauto.
Qed.

Lemma unrestricted_top sc : scope_le unrestricted sc.
Proof.
  split.
  - intros s. unfold covers_server. simpl. intros [-> _]%andb_true_iff. done.
  - intros s t. rewrite !covers_tool_spec. intros (Hs & ? & _). split_and!; [|done..].
    unfold covers_server in *. simpl. by apply andb_true_iff in Hs as [-> _].
Qed.

Lemma covers_request_mono p c draft request :
  SubsetValidatorImpl p draft = Ok tt →
  Grant.capability c = GrantDraft.capability draft → Grant.params c = GrantDraft.params draft →
  covers_request c request = Ok tt → covers_request p request = Ok tt.
Proof.
  unfold covers_request, SubsetValidatorImpl. intros Hval Hcap Hpar. rewrite <- Hcap, <- Hpar in Hval.
  pose proof Hval as (Heq & Hwf & Hpc)%validate_params_Ok. rewrite Heq in *.
  destruct (String.eqb_spec (Grant.capability c) "mcp") as [Hmcp|Hmcp]; simpl.
  2:{ intros Hr. pose proof Hr as (Hcr & _)%validate_params_Ok. rewrite <- Hcr in *.
      by apply (validate_params_trans _ _ (Grant.params c)). }
  destruct (String.eqb_spec (GrantDraft.capability request) "mcp") as [_|Hr].
  2:{ intros (? & _)%validate_params_Ok. congruence. }
  apply covers_mcp_request_mono. intros sc Hsc.
  destruct Hpc as [->|(Hp & Hc & rule & Hrule & Hok)].
  { exists unrestricted. split; [done | apply unrestricted_top]. }
  rewrite Hmcp in Hrule. simpl in Hrule. simplify_eq.
  pose proof Hok as (Hkp & _)%check_mcp_Ok.
  eexists. split; [by apply mcp_scope_restricted|].
  eapply check_mcp_scope_le; [exact Hp | exact Hc | exact Hok | by apply mcp_scope_restricted | exact Hsc].
Qed.

(** *** What the rest of the kernel relies on *)

(** What the grant store relies on, stated on the interface. *)
Class SubsetValidatorLaws `{V : SubsetValidator} : Prop := {
  validate_capability parent child :
    validate parent child = Ok tt → Grant.capability parent = GrantDraft.capability child;
  validate_content parent parent' child :
    Grant.capability parent' = Grant.capability parent → Grant.params parent' = Grant.params parent →
    validate parent' child = validate parent child;
  validate_trans parent child grandchild draft :
    validate parent draft = Ok tt →
    Grant.capability child = Grant.capability parent → Grant.params child = GrantDraft.params draft →
    validate child grandchild = Ok tt → validate parent grandchild = Ok tt
}.

#[export] Instance SubsetValidatorImpl_laws : @SubsetValidatorLaws SubsetValidatorImpl.
Proof.
  split; unfold validate, SubsetValidatorImpl.
  - by intros parent child (? & _)%validate_params_Ok.
  - by intros parent parent' child -> ->.
  - intros parent child grandchild draft Hpd -> Hpar Hcg.
    pose proof Hpd as (Hpc & _)%validate_params_Ok. pose proof Hcg as (Hcc & _)%validate_params_Ok.
    rewrite <- Hpc, <- Hpar in Hpd. rewrite <- Hcc in *.
    by apply (validate_params_trans _ _ (Grant.params child)).
Qed.

(** A grant and a draft at concrete params, for evaluation. *)
Definition sample_grant (cap : string) (params : list (string * string)) : Grant.t :=
  Grant.mk "g" "agent:a" cap ((λ kv, CapParam.mk kv.1 kv.2) <$> params) GrantTtl.Persistent
    GrantIssuer.Config GrantProvenance.StaticConfig GrantStatus.Active 0 None.

Definition sample_draft (cap : string) (params : list (string * string)) : GrantDraft.t :=
  GrantDraft.mk cap ((λ kv, CapParam.mk kv.1 kv.2) <$> params) GrantTtl.Persistent.

(** ** Properties *)

(** Delegation never widens.  If [parent] may issue [draft], [child] holds
    exactly what [draft] asks, and [child] covers a call, then [parent] covers
    that call too: every family rule, path, URL, list, number, boolean and MCP
    pattern included, composes along a chain of grants. *)
Theorem issued_grant_never_covers_more parent child draft request :
  SubsetValidatorImpl parent draft = Ok tt →
  Grant.capability child = GrantDraft.capability draft →
  Grant.params child = GrantDraft.params draft →
  covers_request child request = Ok tt →
  covers_request parent request = Ok tt.
Proof. apply covers_request_mono. Qed.

Lemma issued_grant_never_covers_more_witness :
  covers_request
    (sample_grant "mcp" [("servers", "gh, jira"); ("tool-patterns", "get_*, list_*")])
    (sample_draft "mcp" [("servers", "gh"); ("tool-patterns", "get_issue")]) = Ok tt.
Proof.
  apply (issued_grant_never_covers_more _
           (sample_grant "mcp" [("servers", "gh"); ("tool-patterns", "get_i*")])
           (sample_draft "mcp" [("servers", "gh"); ("tool-patterns", "get_i*")]));
    vm_compute; reflexivity.
Defined.

(** [url_pattern_subset] is exact: it accepts iff both patterns are
    well-formed and every URL the child stands for is one the parent stands
    for, so the [<prefix>/*] separator admits no sibling domain and no allowed
    narrowing is refused. *)
Theorem url_pattern_subset_exact parent child :
  url_pattern_subset parent child = Ok tt ↔
    validate_url_pattern_form parent = Ok tt ∧ validate_url_pattern_form child = Ok tt ∧
    ∀ u, url_matches child u → url_matches parent u.
Proof. apply url_pattern_subset_iff. Qed.

(** Filesystem containment is by whole path segments: a child path is
    accepted iff it equals the parent, the parent is the root, or the
    parent's segments (trailing slashes dropped) are the child's first
    segments, so [/a] never contains [/abc]. *)
Theorem path_prefix_subset_by_segments parent child :
  path_prefix_subset parent child = true ↔
    parent = child ∨ trim_end_matches "/" parent = "" ∨
    split_char "/" (trim_end_matches "/" parent) `prefix_of` split_char "/" child.
Proof. rewrite path_prefix_subset_spec, split_prefix_spec. simpl. naive_solver. Qed.

(** A restricted grant refuses what it must: a different capability, a
    request for the whole capability, and every family without a rule; but a
    whole-capability parent issues any child, of an unknown family too. *)
Theorem validate_fail_closed parent child :
  SubsetValidatorImpl parent child = Ok tt →
  Grant.capability parent = GrantDraft.capability child ∧
  (Grant.params parent = [] ∨
   GrantDraft.params child ≠ [] ∧
   Grant.capability parent ∈ ["fs"; "http"; "messaging"; "lifecycle"; "llm"; "secrets"; "tools";
                              "notify"; "data"; "mcp"; "skills"]).
Proof.
  unfold SubsetValidatorImpl. intros (Hcap & _ & Hp)%validate_params_Ok.
  split; [done|]. destruct Hp as [?|(_ & Hc & rule & Hrule & Hok)]; [by left|]. right.
  split; [done|]. apply find_rule_elem in Hrule. unfold family_rules in Hrule.
  rewrite !elem_of_cons in Hrule. rewrite !elem_of_cons.
  destruct_or!; simplify_eq; auto 20. by apply elem_of_nil in Hrule.
Qed.

Lemma validate_fail_closed_witness :
  let p := sample_grant "tools" [("ids", "a,b")] in
  let c := sample_draft "tools" [("ids", "b")] in
  SubsetValidatorImpl p c = Ok tt ∧ Grant.capability p = GrantDraft.capability c.
Proof.
  split; [vm_compute; reflexivity|].
  apply (validate_fail_closed (sample_grant "tools" [("ids", "a,b")])
           (sample_draft "tools" [("ids", "b")])). vm_compute; reflexivity.
Defined.
