(* ===== verification/Projection.v ===== *)
(** * Projecting JSON capability parameters

    Models [crates/capabilities/cap-grant/src/capability_subset.rs]: a
    [Capability] carries its parameters as JSON, the subset rules read strings.
    [project_params] turns the one into the other and refuses every value the
    rules' parsers would read differently; [validate_capability_subset] is the
    admission gate of spawned agents and submitted components. *)
From S2P Require Import Prelude RustStr McpPatterns GrantData Subset.
Open Scope string_scope.
Open Scope list_scope.
Open Scope Z_scope.

(** ** Definitions *)

(** [serde_json::Value]; a number is kept as its [as_u64], an object as its
    entries in iteration order. *)
Module Value.
Inductive t :=
| Null
| Bool (b : bool)
| Number (as_u64 : option Z)
| String (s : string)
| Array (arr : list t)
| Object (map : list (string * t)).
End Value.

Module Capability.
Record t := mk { id : string; params : Value.t }.
End Capability.

Definition MAX_CAPABILITIES_PER_CALL : Z := 256.
Definition MAX_PARAMS_KEYS_PER_CAPABILITY : Z := 16.
Definition MAX_PARAMS_ARRAY_LEN : Z := 256.
Definition MAX_PARAMS_STRING_BYTES : Z := 4096.

Definition param_keys : list (string * list string) := [
  ("fs", ["read-paths"; "write-paths"]);
  ("http", ["allowlist"]);
  ("messaging", ["targets"; "max-fanout"; "max-depth"]);
  ("lifecycle", ["spawn-child"; "spawn-sub"]);
  ("llm", ["models"; "max-tokens-per-call"]);
  ("secrets", ["names"]);
  ("tools", ["ids"]);
  ("notify", ["targets"]);
  ("mcp", ["servers"; "tool-patterns"]);
  ("skills", ["allowed-actions"; "max-active-skills"]);
  ("web", []);
  ("data", ["mode"])
].

Definition allowed_param_keys (capability : string) : option (list string) :=
  find_rule param_keys capability.

Definition is_unicode_confusable (c : string) : bool :=
  let u := code_point c in
  (u =? 0x00AD) || (u =? 0x180E) || between 0x200B 0x200F u || between 0x202A 0x202E u
  || (u =? 0x2060) || between 0x2061 0x2064 u || between 0x2066 0x2069 u
  || between 0xFE00 0xFE0F u || (u =? 0xFEFF) || between 0xE0000 0xE007F u.

Definition check_parse_csv_safe (s : string) : Result unit :=
  _ ← guard_err (contains_char "," s) (CapGrantError.SubsetViolation "contains a comma");
  _ ← guard_err (String.eqb s "") (CapGrantError.SubsetViolation "empty value");
  _ ← guard_err (negb (String.eqb (trim s) s))
        (CapGrantError.SubsetViolation "leading/trailing whitespace");
  _ ← guard_err (existsb (λ b, (b <? 0x20) || (b =? 0x7F)) (bytes s))
        (CapGrantError.SubsetViolation "ASCII control byte");
  guard_err (existsb is_unicode_confusable (chars s))
    (CapGrantError.SubsetViolation "Unicode confusable").

(** The conversion [array_element_to_string] makes before its safety check. *)
Definition element_text (value : Value.t) : Result string :=
  match value with
  | Value.String s =>
      _ ← guard_err (MAX_PARAMS_STRING_BYTES <? len s)
            (CapGrantError.SubsetViolation "array element length exceeds the maximum");
      Ok s
  | Value.Number n =>
      u ← ok_or n (CapGrantError.SubsetViolation "array element must be a u64");
      Ok (z_to_string u)
  | Value.Bool b => Ok (bool_to_string b)
  | Value.Array _ | Value.Object _ | Value.Null =>
      violation "array element must be string / integer / bool"
  end.

Definition array_element_to_string (value : Value.t) : Result string :=
  s ← element_text value;
  _ ← check_parse_csv_safe s;
  Ok s.

Definition value_to_param_string (value : Value.t) : Result string :=
  match value with
  | Value.String s =>
      _ ← guard_err (MAX_PARAMS_STRING_BYTES <? len s)
            (CapGrantError.SubsetViolation "string value length exceeds the maximum");
      _ ← check_parse_csv_safe s;
      Ok s
  | Value.Number n =>
      u ← ok_or n (CapGrantError.SubsetViolation "numeric param must be a u64");
      Ok (z_to_string u)
  | Value.Bool b => Ok (bool_to_string b)
  | Value.Array arr =>
      _ ← guard_err (MAX_PARAMS_ARRAY_LEN <? size_of arr)
            (CapGrantError.SubsetViolation "array length exceeds the maximum");
      tokens ← try_map array_element_to_string arr;
      Ok (join "," tokens)
  | Value.Object _ => violation "nested objects are rejected"
  | Value.Null => violation "null value forbidden for a known param key"
  end.

(** The loop body of [project_params]. *)
Definition project_entry (allowed : list string) (entry : string * Value.t) : Result CapParam.t :=
  _ ← guard_err (negb (existsb (λ k, String.eqb k entry.1) allowed))
        (CapGrantError.SubsetViolation "unrecognized param key");
  value_str ← value_to_param_string entry.2;
  Ok (CapParam.mk entry.1 value_str).

Definition project_params (cap_id : string) (value : Value.t) : Result (list CapParam.t) :=
  allowed ← ok_or (allowed_param_keys cap_id) (CapGrantError.SubsetViolation "unknown capability");
  match value with
  | Value.Null => Ok []
  | Value.Object [] => Ok []
  | Value.Object map =>
      _ ← guard_err (MAX_PARAMS_KEYS_PER_CAPABILITY <? size_of map)
            (CapGrantError.SubsetViolation "too many params keys");
      try_map (project_entry allowed) map
  | _ => violation "top-level params must be a JSON object or null"
  end.

Definition project_capability_params (capability : Capability.t) : Result (list CapParam.t) :=
  project_params (Capability.id capability) (Capability.params capability).

Definition synthetic_parent_grant (now : Z) (capability_id : string) (params : list CapParam.t) : Grant.t :=
  Grant.mk "__capability_subset_projection__" "" capability_id params GrantTtl.Persistent
    GrantIssuer.Admin GrantProvenance.StaticConfig GrantStatus.Active now None.

Definition synthetic_child_draft (capability_id : string) (params : list CapParam.t) : GrantDraft.t :=
  GrantDraft.mk capability_id params GrantTtl.Persistent.

(** The loop body of [validate_capability_subset]. *)
Definition validate_child_capability (now : Z) (parent : list Capability.t) (child_cap : Capability.t)
    : Result unit :=
  let child_cap_id := Capability.id child_cap in
  match List.filter (λ p, String.eqb (Capability.id p) child_cap_id) parent with
  | [] => violation "parent grant set does not include the capability"
  | parent_cap :: more =>
      _ ← guard_err (bool_decide (more ≠ []))
            (CapGrantError.SubsetViolation "parent grant set contains duplicate capability id");
      parent_params ← project_capability_params parent_cap;
      child_params ← project_capability_params child_cap;
      SubsetValidatorImpl (synthetic_parent_grant now child_cap_id parent_params)
        (synthetic_child_draft child_cap_id child_params)
  end.

Definition validate_capability_subset (now : Z) (parent child : list Capability.t) : Result unit :=
  _ ← guard_err (MAX_CAPABILITIES_PER_CALL <? size_of parent)
        (CapGrantError.SubsetViolation "parent capability slice too long");
  _ ← guard_err (MAX_CAPABILITIES_PER_CALL <? size_of child)
        (CapGrantError.SubsetViolation "child capability slice too long");
  try_for (validate_child_capability now parent) child.

(** ** What a projected value reads back as *)

(** The rules' parsers recover the JSON value from its projection. *)
Definition reads_as (s : string) (v : Value.t) : Prop :=
  match v with
  | Value.String w => parse_csv s = [w]
  | Value.Number (Some n) => parse_u64 (trim s) = Some n
  | Value.Bool b => parse_bool s = Ok b
  | Value.Array arr =>
      Forall2 (λ v tok, element_text v = Ok tok) arr (parse_csv s)
  | _ => False
  end.

(** [as_u64] yields a [u64]. *)
Definition number_ok (v : Value.t) : Prop :=
  match v with Value.Number (Some n) => 0 ≤ n ≤ U64_MAX | _ => True end.

(** ** Facts *)

Lemma check_parse_csv_safe_Ok s :
  check_parse_csv_safe s = Ok tt →
  contains_char "," s = false ∧ s ≠ "" ∧ trim s = s.
Proof.
  unfold check_parse_csv_safe. rewrite !bind_unit_Ok, !guard_err_Ok. intros (? & ? & ? & _). by b2p.
Qed.

Lemma safe_no_comma tokens :
  Forall (λ t, check_parse_csv_safe t = Ok tt) tokens →
  Forall (λ t, contains_char "," t = false) tokens.
Proof. intros H. eapply Forall_impl; [exact H|]. by intros t (? & _)%check_parse_csv_safe_Ok. Qed.

Lemma keep_safe_tokens tokens :
  Forall (λ t, check_parse_csv_safe t = Ok tt) tokens →
  List.filter (λ s, negb (String.eqb s "")) (trim <$> tokens) = tokens.
Proof.
  induction 1 as [|t tokens (_ & Hne & Ht)%check_parse_csv_safe_Ok _ IH]; [done|].
  rewrite fmap_cons, Ht. simpl. rewrite (proj2 (String.eqb_neq t "")) by done. simpl. by rewrite IH.
Qed.

(** A list of safe tokens survives the join and the split. *)
Lemma parse_csv_join tokens :
  Forall (λ t, check_parse_csv_safe t = Ok tt) tokens → parse_csv (join "," tokens) = tokens.
Proof.
  intros Hsafe. destruct (decide (tokens = [])) as [->|Hne]; [reflexivity|].
  unfold parse_csv. rewrite split_join by auto using safe_no_comma. by apply keep_safe_tokens.
Qed.

Lemma array_element_to_string_Ok v tok :
  array_element_to_string v = Ok tok ↔ element_text v = Ok tok ∧ check_parse_csv_safe tok = Ok tt.
Proof.
  unfold array_element_to_string. rewrite bind_Ok. split.
  - intros (s & ? & [? [= <-]]%bind_unit_Ok). done.
  - intros [? ?]. exists tok. by rewrite bind_unit_Ok.
Qed.

Lemma value_reads_as v s :
  number_ok v → value_to_param_string v = Ok s → reads_as s v.
Proof.
  destruct v as [|b|[n|]|w|arr|map]; simpl; intros Hn H; try done.
  - injection H as <-. by destruct b.
  - injection H as <-. by rewrite trim_z_to_string, parse_u64_to_string.
  - apply bind_unit_Ok in H as [_ H]. apply bind_unit_Ok in H as [Hs [= <-]].
    apply (parse_csv_join [w]). by constructor.
  - apply bind_unit_Ok in H as [_ H]. apply bind_Ok in H as (tokens & Ht & [= <-]).
    apply try_map_Ok in Ht. rewrite parse_csv_join.
    + eapply Forall2_impl; [exact Ht|]. intros e tok He. by apply array_element_to_string_Ok in He as [? ?].
    + apply Forall_forall. intros t Hin. apply list_elem_of_lookup in Hin as [i Hi].
      destruct (Forall2_lookup_r _ _ _ _ _ Ht Hi) as (e & _ & He).
      by apply array_element_to_string_Ok in He as [? ?].
Qed.

Lemma project_params_Ok cap_id v ps :
  project_params cap_id v = Ok ps ↔
    ∃ allowed, allowed_param_keys cap_id = Some allowed ∧
      ((v = Value.Null ∧ ps = []) ∨
       ∃ map, v = Value.Object map ∧ size_of map ≤ MAX_PARAMS_KEYS_PER_CAPABILITY ∧
         Forall2 (λ e p, project_entry allowed e = Ok p) map ps).
Proof.
  unfold project_params. rewrite bind_Ok. setoid_rewrite ok_or_Ok.
  assert (∀ allowed, match v with
    | Value.Null | Value.Object [] => Ok []
    | Value.Object map =>
        _ ← guard_err (MAX_PARAMS_KEYS_PER_CAPABILITY <? size_of map)
              (CapGrantError.SubsetViolation "too many params keys");
        try_map (project_entry allowed) map
    | _ => violation "top-level params must be a JSON object or null"
    end = Ok ps ↔ ((v = Value.Null ∧ ps = []) ∨
       ∃ map, v = Value.Object map ∧ size_of map ≤ MAX_PARAMS_KEYS_PER_CAPABILITY ∧
         Forall2 (λ e p, project_entry allowed e = Ok p) map ps)) as Hv.
  { intros allowed. destruct v as [|b|n|w|arr|[|e map]].
    2-5: by split; [|intros [[? _]|(? & ? & _)]].
    - split; [intros [= <-]; by left | by intros [[_ ->]|(? & ? & _)]].
    - split; [intros [= <-]; right; exists []; by repeat constructor|].
      intros [[? _]|(? & [= <-] & _ & H)]; [done|]. by inversion H.
    - rewrite bind_unit_Ok, guard_err_Ok, Z.ltb_ge, try_map_Ok. split.
      + intros [? ?]. right. by exists (e :: map).
      + by intros [[? _]|(? & [= <-] & ? & ?)]. }
  setoid_rewrite Hv. naive_solver.
Qed.

Lemma project_entry_Ok allowed e p :
  project_entry allowed e = Ok p →
  e.1 ∈ allowed ∧ CapParam.key p = e.1 ∧ value_to_param_string e.2 = Ok (CapParam.value p).
Proof.
  unfold project_entry. rewrite bind_unit_Ok, guard_err_Ok, negb_false_iff, existsb_elem, bind_Ok.
  intros ((k & Hk & ->%String.eqb_eq) & s & Hs & [= <-]). done.
Qed.

Lemma get_param_projected allowed map ps k :
  Forall2 (λ e p, project_entry allowed e = Ok p) map ps → NoDup map.*1 →
  (∀ v, (k, v) ∈ map → ∃ s, get_param ps k = Some s ∧ value_to_param_string v = Ok s) ∧
  (k ∉ map.*1 → get_param ps k = None).
Proof.
  induction 1 as [|[k0 v0] p map ps (_ & Hk & Hv)%project_entry_Ok _ IH]; simpl in *; intros Hnd.
  { split; [by intros v ?%elem_of_nil | done]. }
  apply NoDup_cons in Hnd as [Hni Hnd]. specialize (IH Hnd) as [IH1 IH2]. rewrite Hk.
  destruct (String.eqb_spec k0 k) as [->|Hne].
  - split; [|set_solver]. intros v [[= ->]|Hin]%elem_of_cons; [by eauto|].
    exfalso. apply Hni. apply list_elem_of_fmap. by exists (k, v).
  - split; [|set_solver]. intros v [[= -> ->]|Hin]%elem_of_cons; [done | auto].
Qed.

(** One child capability passes iff its parent capability is unique and
    projects to params that issue the child's. *)
Lemma validate_child_capability_Ok now parent c :
  validate_child_capability now parent c = Ok tt ↔
    ∃ p pp cp, List.filter (λ p, String.eqb (Capability.id p) (Capability.id c)) parent = [p] ∧
      project_capability_params p = Ok pp ∧ project_capability_params c = Ok cp ∧
      validate_params (Capability.id c) pp (Capability.id c) cp = Ok tt.
Proof.
  unfold validate_child_capability. destruct (List.filter _ parent) as [|p more]; [naive_solver|].
  rewrite bind_unit_Ok, guard_err_Ok, bool_decide_eq_false, bind_Ok. split.
  - intros (Hm & pp & ? & (cp & ? & ?)%bind_Ok). exists p, pp, cp.
    destruct more; [by split_and!|]. exfalso. by apply Hm.
  - intros (p' & pp & cp & [= -> ->] & ? & ? & ?). split; [by intros []|].
    exists pp. split; [done|]. apply bind_Ok. by exists cp.
Qed.

(** ** Properties *)

(** The projection loses nothing: when [project_params] accepts a JSON
    object, every key is a known one of the capability, every value reads back
    through the parser its rule uses (a string as one token, an array as its
    elements in order, a number, a boolean), and no key appears that the
    object lacks. *)
Theorem project_params_lossless cap_id map ps :
  NoDup map.*1 → Forall number_ok map.*2 →
  project_params cap_id (Value.Object map) = Ok ps →
  ∃ allowed, allowed_param_keys cap_id = Some allowed ∧
    ∀ k, (∀ v, (k, v) ∈ map → k ∈ allowed ∧ ∃ s, get_param ps k = Some s ∧ reads_as s v) ∧
         (k ∉ map.*1 → get_param ps k = None).
Proof.
  intros Hnd Hnum (allowed & Ha & [[? _]|(map' & [= <-] & _ & Hps)])%project_params_Ok; [done|].
  exists allowed. split; [done|]. intros k.
  destruct (get_param_projected _ _ _ k Hps Hnd) as [H1 H2]. split; [|done].
  intros v Hin. split.
  - apply list_elem_of_lookup in Hin as [i Hi].
    destruct (Forall2_lookup_l _ _ _ _ _ Hps Hi) as (p & _ & (? & _)%project_entry_Ok). done.
  - destruct (H1 v Hin) as (s & ? & ?). exists s. split; [done|]. apply value_reads_as; [|done].
    rewrite Forall_forall in Hnum. apply Hnum. apply list_elem_of_fmap. by exists (k, v).
Qed.

Lemma project_params_lossless_witness :
  let map := [("targets", Value.Array [Value.String "agent:b"; Value.Bool true]);
              ("max-depth", Value.Number (Some 18446744073709551615))] in
  ∃ ps, project_params "messaging" (Value.Object map) = Ok ps ∧
    ∃ allowed, allowed_param_keys "messaging" = Some allowed ∧
    ∀ k, (∀ v, (k, v) ∈ map → k ∈ allowed ∧ ∃ s, get_param ps k = Some s ∧ reads_as s v) ∧
         (k ∉ map.*1 → get_param ps k = None).
Proof.
  intros map. eexists. split; [vm_compute; reflexivity|].
  apply (project_params_lossless "messaging" map).
  - apply (bool_decide_unpack _). vm_compute. exact I.
  - repeat constructor; simpl; try lia; vm_compute; discriminate.
  - vm_compute; reflexivity.
Defined.

(** Spawning attenuates along a whole chain: capabilities a child may ask
    of its parent, which the parent could ask of the grandparent, are
    capabilities the child could have asked of the grandparent. *)
Theorem capability_subset_trans t1 t2 t3 grandparent parent child :
  validate_capability_subset t1 grandparent parent = Ok tt →
  validate_capability_subset t2 parent child = Ok tt →
  validate_capability_subset t3 grandparent child = Ok tt.
Proof.
  unfold validate_capability_subset. rewrite !bind_unit_Ok, !try_for_elem.
  intros (Hg & Hp & Hgp) (_ & Hc & Hpc). split_and!; [done..|]. intros c Hin.
  destruct (proj1 (validate_child_capability_Ok _ _ _) (Hpc c Hin)) as (p & pp & cp & Hf & Hpp & Hcp & Hval).
  assert (p ∈ parent ∧ Capability.id p = Capability.id c) as [Hpin Hid].
  { assert (In p (List.filter (λ p, String.eqb (Capability.id p) (Capability.id c)) parent)) as Hi
      by (rewrite Hf; by left).
    apply filter_In in Hi as [Hi Heq%String.eqb_eq]. by apply list_elem_of_In in Hi. }
  destruct (proj1 (validate_child_capability_Ok _ _ _) (Hgp p Hpin)) as (g & gp & pp' & Hfg & Hgg & Hpp' & Hval').
  rewrite Hid in *. rewrite Hpp in Hpp'. simplify_eq.
  apply validate_child_capability_Ok. exists g, gp, cp. split_and!; [done..|].
  by eapply validate_params_trans.
Qed.

Lemma capability_subset_trans_witness :
  let cap ids := Capability.mk "tools" (Value.Object [("ids", Value.Array (Value.String <$> ids))]) in
  validate_capability_subset 0 [cap ["a"; "b"; "c"]] [cap ["a"]] = Ok tt.
Proof.
  intros cap. apply (capability_subset_trans 0 0 0 [cap ["a"; "b"; "c"]] [cap ["a"; "b"]] [cap ["a"]]);
    vm_compute; reflexivity.
Defined.
