(* ===== verification/Cascade.v ===== *)
(** * Walking the delegation graph

    Models [crates/capabilities/cap-grant/src/cascade.rs]: [walk_descendants]
    collects the grants issued, directly or not, under a grant, depth first,
    up to a cap.  The provenance index maps a grant to the set of grants
    delegated from it. *)
From S2P Require Import Prelude RustStr GrantData.
Open Scope string_scope.
Open Scope list_scope.
Open Scope Z_scope.

(** ** Definitions *)

Definition MAX_CASCADE_SIZE : Z := 10000.

Record CascadeResult := mkCascadeResult {
  root_id : string;
  revoked : list string;
  cascade_count : Z
}.

Abbreviation Index := (gmap string (gset string)).

(** [ids.sort()] on grant ids. *)
Definition sort_ids (ids : list string) : list string := merge_sort str_le ids.

(** [index.get(id)], sorted; no entry is no id. *)
Definition sorted_children (provenance : Index) (id : string) : list string :=
  sort_ids (elements (default ∅ (provenance !! id))).

(** [for c in sorted { stack.push(c) }], the top of the stack first. *)
Definition push_all (ids stack : list string) : list string := reverse ids ++ stack.

(** The [while let Some(id) = stack.pop()] loop. *)
Fixpoint walk (fuel : nat) (provenance : Index) (stack : list string) (visited : gset string)
    (out : list string) : option (list string) :=
  match fuel with
  | O => None
  | S fuel =>
      match stack with
      | [] => Some out
      | id :: stack =>
          if MAX_CASCADE_SIZE <=? size_of out then Some out
          else if decide (id ∈ visited) then walk fuel provenance stack visited out
          else walk fuel provenance (push_all (sorted_children provenance id) stack)
                 ({[id]} ∪ visited) (out ++ [id])
      end
  end.

(** How often the loop can still push: the children of ids not yet visited. *)
Definition weight (visited : gset string) (entry : string * gset string) : nat :=
  if decide (entry.1 ∈ visited) then 0%nat else size entry.2.

Definition pending (provenance : Index) (visited : gset string) : nat :=
  sum_list_with (weight visited) (map_to_list provenance).

(** One iteration per id ever pushed, and one to see the empty stack. *)
Definition cascade_fuel (provenance : Index) (root : string) : nat :=
  S (length (sorted_children provenance root) + pending provenance ∅).

Definition walk_descendants (provenance : Index) (root : string) : list string :=
  default [] (walk (cascade_fuel provenance root) provenance
                (push_all (sorted_children provenance root) []) ∅ []).

(** ** The graph *)

(** [child] was delegated from [parent]. *)
Definition edge (provenance : Index) (parent child : string) : Prop :=
  ∃ children, provenance !! parent = Some children ∧ child ∈ children.

(** [x] is at or below a grant delegated from [root]. *)
Definition descendant (provenance : Index) : string → string → Prop := tc (edge provenance).

(** ** Facts *)

Lemma sorted_children_perm provenance id :
  sorted_children provenance id ≡ₚ elements (default ∅ (provenance !! id)).
Proof. apply merge_sort_Permutation. Qed.

Lemma elem_sorted_children provenance id c : c ∈ sorted_children provenance id ↔ edge provenance id c.
Proof.
  rewrite sorted_children_perm, elem_of_elements. unfold edge.
  destruct (provenance !! id); naive_solver set_solver.
Qed.

Lemma elem_push_all x ids stack : x ∈ push_all ids stack ↔ x ∈ ids ∨ x ∈ stack.
Proof. unfold push_all. by rewrite elem_of_app, elem_of_reverse. Qed.

Lemma pending_list_mono (l : list (string * gset string)) (visited visited' : gset string) :
  visited ⊆ visited' → (sum_list_with (weight visited') l ≤ sum_list_with (weight visited) l)%nat.
Proof.
  intros Hsub. induction l as [|e l IH]; simpl; [lia|].
  assert (weight visited' e ≤ weight visited e)%nat; [|lia].
  unfold weight. repeat case_decide; try lia. set_solver.
Qed.

(** Visiting an id releases at least its children. *)
Lemma pending_list_visit l visited id s :
  id ∉ visited → (id, s) ∈ l →
  (size s + sum_list_with (weight ({[id]} ∪ visited)) l ≤ sum_list_with (weight visited) l)%nat.
Proof.
  intros Hid. induction l as [|e l IH]; simpl; [by intros ?%elem_of_nil|].
  intros [<-|Hin]%elem_of_cons.
  - pose proof (pending_list_mono l visited ({[id]} ∪ visited) ltac:(set_solver)).
    unfold weight at 1 3. simpl. rewrite decide_True by set_solver. rewrite decide_False by done. lia.
  - specialize (IH Hin). pose proof (pending_list_mono [e] visited ({[id]} ∪ visited) ltac:(set_solver)).
    simpl in *. lia.
Qed.

Lemma pending_visit provenance visited id :
  id ∉ visited →
  (length (sorted_children provenance id) + pending provenance ({[id]} ∪ visited)
     ≤ pending provenance visited)%nat.
Proof.
  intros Hid. rewrite sorted_children_perm. unfold pending.
  destruct (provenance !! id) as [s|] eqn:Hs; cbn [default].
  - apply (pending_list_visit _ _ _ s Hid). by apply elem_of_map_to_list.
  - apply pending_list_mono. set_solver.
Qed.

(** The loop ends: every pop spends one unit of stack or of pending pushes. *)
Lemma walk_total fuel provenance stack visited out :
  (length stack + pending provenance visited < fuel)%nat →
  is_Some (walk fuel provenance stack visited out).
Proof.
  revert stack visited out. induction fuel as [|fuel IH]; intros stack visited out Hf; simpl; [lia|].
  destruct stack as [|id stack]; [by eexists|]. destruct (_ <=? _); [by eexists|].
  case_decide as Hv; simpl in Hf.
  - apply IH. lia.
  - apply IH. unfold push_all. rewrite length_app, length_reverse.
    pose proof (pending_visit provenance visited id Hv). lia.
Qed.

(** What holds at the head of every iteration. *)
Record walk_inv (provenance : Index) (root : string) (stack : list string) (visited : gset string)
    (out : list string) : Prop := {
  inv_visited x : x ∈ visited ↔ x ∈ out;
  inv_nodup : NoDup out;
  inv_size : size_of out ≤ MAX_CASCADE_SIZE;
  inv_sound x : x ∈ stack ∨ x ∈ out → descendant provenance root x;
  inv_root x : edge provenance root x → x ∈ stack ∨ x ∈ out;
  inv_closed x y : x ∈ out → edge provenance x y → y ∈ stack ∨ y ∈ out
}.

Lemma walk_inv_start provenance root :
  walk_inv provenance root (push_all (sorted_children provenance root) []) ∅ [].
Proof.
  split.
  - set_solver.
  - constructor.
  - done.
  - intros x [Hx|Hx%elem_of_nil]; [|done]. apply elem_push_all in Hx as [Hx|Hx%elem_of_nil]; [|done].
    apply tc_once. by apply elem_sorted_children.
  - intros x Hx. left. apply elem_push_all. left. by apply elem_sorted_children.
  - by intros x y ?%elem_of_nil.
Qed.

Lemma walk_inv_skip provenance root id stack visited out :
  id ∈ visited → walk_inv provenance root (id :: stack) visited out →
  walk_inv provenance root stack visited out.
Proof.
  intros Hid [Hv Hnd Hsz Hs Hr Hc]. split; try done.
  - intros x Hx. apply Hs. set_solver.
  - intros x Hx. destruct (Hr x Hx) as [[->|?]%elem_of_cons|?]; [right; by apply Hv | auto..].
  - intros x y Hx Hy. destruct (Hc x y Hx Hy) as [[->|?]%elem_of_cons|?]; [right; by apply Hv | auto..].
Qed.

Lemma walk_inv_visit provenance root id stack visited out :
  id ∉ visited → size_of out < MAX_CASCADE_SIZE →
  walk_inv provenance root (id :: stack) visited out →
  walk_inv provenance root (push_all (sorted_children provenance id) stack) ({[id]} ∪ visited) (out ++ [id]).
Proof.
  intros Hid Hlt [Hv Hnd Hsz Hs Hr Hc].
  assert (descendant provenance root id) as Hdid by (apply Hs; set_solver).
  split.
  - intros x. rewrite elem_of_union, elem_of_singleton, elem_of_app, list_elem_of_singleton, Hv. tauto.
  - apply NoDup_app. split_and!; [done | | apply NoDup_singleton].
    intros x Hx. rewrite list_elem_of_singleton. intros ->. by apply Hid, Hv.
  - unfold size_of in *. rewrite length_app. simpl. lia.
  - intros x. rewrite elem_push_all, elem_sorted_children, elem_of_app, list_elem_of_singleton.
    intros [[Hx|Hx]|[Hx| ->]]; [by eapply tc_r | apply Hs; set_solver.. | done].
  - intros x Hx. rewrite elem_push_all, elem_of_app, list_elem_of_singleton.
    destruct (Hr x Hx) as [[->|?]%elem_of_cons|?]; tauto.
  - intros x y. rewrite elem_push_all, elem_sorted_children, !elem_of_app, !list_elem_of_singleton.
    intros [Hx| ->] Hy; [|tauto]. destruct (Hc x y Hx Hy) as [[->|?]%elem_of_cons|?]; tauto.
Qed.

(** At the end either the stack is empty or the cap was hit. *)
Lemma walk_result fuel provenance root stack visited out res :
  walk_inv provenance root stack visited out →
  walk fuel provenance stack visited out = Some res →
  ∃ stack' visited', walk_inv provenance root stack' visited' res ∧
    (stack' = [] ∨ MAX_CASCADE_SIZE ≤ size_of res).
Proof.
  revert stack visited out. induction fuel as [|fuel IH]; intros stack visited out Hinv Hw; simpl in Hw; [done|].
  destruct stack as [|id stack]; [injection Hw as <-; eauto|].
  destruct (Z.leb_spec MAX_CASCADE_SIZE (size_of out)) as [Hle|Hlt]; [injection Hw as <-; eauto|].
  case_decide as Hid.
  - eapply IH; [|exact Hw]. by eapply walk_inv_skip.
  - eapply IH; [|exact Hw]. by apply walk_inv_visit.
Qed.

Lemma walk_inv_complete provenance root visited out x :
  walk_inv provenance root [] visited out → descendant provenance root x → x ∈ out.
Proof.
  intros [_ _ _ _ Hr Hc] Hx. revert x Hx.
  assert (∀ y x, descendant provenance y x → (y = root ∨ y ∈ out) → x ∈ out) as Hgen.
  { induction 1 as [y x Hyx|y z x Hyz _ IH]; intros [->|Hy].
    - destruct (Hr x Hyx) as [?%elem_of_nil|]; done.
    - destruct (Hc y x Hy Hyx) as [?%elem_of_nil|]; done.
    - apply IH. right. destruct (Hr z Hyz) as [?%elem_of_nil|]; done.
    - apply IH. right. destruct (Hc y z Hy Hyz) as [?%elem_of_nil|]; done. }
  intros x Hx. apply (Hgen root); auto.
Qed.

Lemma walk_descendants_final provenance root :
  ∃ stack visited, walk_inv provenance root stack visited (walk_descendants provenance root) ∧
    (stack = [] ∨ MAX_CASCADE_SIZE ≤ size_of (walk_descendants provenance root)).
Proof.
  unfold walk_descendants.
  destruct (walk_total (cascade_fuel provenance root) provenance
              (push_all (sorted_children provenance root) []) ∅ []) as [res Hres].
  { unfold cascade_fuel, push_all. rewrite length_app, length_reverse. simpl. lia. }
  rewrite Hres. simpl. by eapply walk_result; [apply walk_inv_start|].
Qed.

Lemma walk_descendants_NoDup provenance root : NoDup (walk_descendants provenance root).
Proof. destruct (walk_descendants_final provenance root) as (? & ? & Hinv & _). apply Hinv. Qed.

Lemma walk_descendants_sound provenance root x :
  x ∈ walk_descendants provenance root → descendant provenance root x.
Proof.
  intros Hx. destruct (walk_descendants_final provenance root) as (? & ? & Hinv & _).
  eapply inv_sound; [exact Hinv | by right].
Qed.

Lemma walk_descendants_complete provenance root x :
  size_of (walk_descendants provenance root) < MAX_CASCADE_SIZE →
  descendant provenance root x → x ∈ walk_descendants provenance root.
Proof.
  intros Hlt Hx. destruct (walk_descendants_final provenance root) as (? & ? & Hinv & [->|?]); [|lia].
  by eapply walk_inv_complete.
Qed.

(** ** Property *)

(** The walk ends and collects the descendants exactly: its result, which
    the loop's fuel always suffices to produce, has no duplicate, is at most
    [MAX_CASCADE_SIZE] long, holds only descendants of the root, and holds
    every one of them when it stays below the cap, on cyclic graphs too. *)
Theorem walk_descendants_exact provenance root :
  let out := walk_descendants provenance root in
  walk (cascade_fuel provenance root) provenance
    (push_all (sorted_children provenance root) []) ∅ [] = Some out ∧
  NoDup out ∧ size_of out ≤ MAX_CASCADE_SIZE ∧
  (∀ x, x ∈ out → descendant provenance root x) ∧
  (size_of out < MAX_CASCADE_SIZE → ∀ x, descendant provenance root x → x ∈ out).
Proof.
  intros out. split_and!.
  - unfold out, walk_descendants. destruct (walk_total (cascade_fuel provenance root) provenance
      (push_all (sorted_children provenance root) []) ∅ []) as [res ->]; [|done].
    unfold cascade_fuel, push_all. rewrite length_app, length_reverse. simpl. lia.
  - apply walk_descendants_NoDup.
  - destruct (walk_descendants_final provenance root) as (? & ? & Hinv & _). apply Hinv.
  - apply walk_descendants_sound.
  - intros Hlt x. by apply walk_descendants_complete.
Qed.
