(* ===== verification/Events.v ===== *)
(** * Grant events

    Models [crates/capabilities/cap-grant/src/events.rs].  An event keeps the
    fields the builders choose: the agent, the type and the payload; its id and
    timestamp are fresh values of the library. *)
From S2P Require Import Prelude RustStr GrantData.
Open Scope string_scope.
Open Scope list_scope.
Open Scope Z_scope.

Inductive PayloadValue :=
| PString (s : string)
| PNumber (n : Z)
| PParams (ps : list CapParam.t).

Record Event := mkEvent {
  agent_id : string;
  event_type : string;
  payload : list (string * PayloadValue)
}.

Definition new_event (agent type : string) (fields : list (string * PayloadValue)) : Event :=
  mkEvent agent type fields.

#[export] Instance PayloadValue_eq_dec : EqDecision PayloadValue.
Proof. solve_decision. Defined.
#[export] Instance Event_eq_dec : EqDecision Event.
Proof. solve_decision. Defined.

Section events.
Context `{Codec}.

Definition ttl_string (ttl : GrantTtl.t) : string :=
  match ttl with
  | GrantTtl.Once => "once"
  | GrantTtl.Lifecycle => "lifecycle"
  | GrantTtl.Persistent => "persistent"
  | GrantTtl.Duration ms => "duration:" +:+ z_to_string ms
  | GrantTtl.Until t => "until:" +:+ to_rfc3339 t
  end.

Definition issuer_string (g : Grant.t) : string :=
  match Grant.issuer g with
  | GrantIssuer.Config => "config"
  | GrantIssuer.Parent id => "parent:" +:+ id
  | GrantIssuer.Resolver c => "resolver:" +:+ c
  | GrantIssuer.Admin => "admin"
  end.

Definition provenance_string (g : Grant.t) : string :=
  match Grant.provenance g with
  | GrantProvenance.StaticConfig => "static-config"
  | GrantProvenance.Delegated id => "delegated:" +:+ id
  | GrantProvenance.Requested => "requested"
  | GrantProvenance.Preset n => "preset:" +:+ n
  end.

Definition grant_issued_event (g : Grant.t) : Event :=
  new_event (Grant.grantee g) "grant.issued" [
    ("grant_id", PString (Grant.id g));
    ("grantee", PString (Grant.grantee g));
    ("capability", PString (Grant.capability g));
    ("params", PParams (Grant.params g));
    ("ttl", PString (ttl_string (Grant.ttl g)));
    ("issuer", PString (issuer_string g));
    ("provenance", PString (provenance_string g))].

Definition grant_revoked_event (grant_id grantee capability revoked_by : string) (cascade_count : Z) : Event :=
  new_event grantee "grant.revoked" [
    ("grant_id", PString grant_id);
    ("grantee", PString grantee);
    ("capability", PString capability);
    ("revoked_by", PString revoked_by);
    ("cascade_count", PNumber cascade_count)].

Definition grant_consumed_event (grant_id grantee capability consumed_by_function : string) : Event :=
  new_event grantee "grant.consumed" [
    ("grant_id", PString grant_id);
    ("grantee", PString grantee);
    ("capability", PString capability);
    ("consumed_by_function", PString consumed_by_function)].

Definition grant_expired_event (grant_id grantee capability : string) (original_ttl : GrantTtl.t) : Event :=
  new_event grantee "grant.expired" [
    ("grant_id", PString grant_id);
    ("grantee", PString grantee);
    ("capability", PString capability);
    ("original_ttl", PString (ttl_string original_ttl))].

Definition grant_narrowed_event (new_grant_id : string) (old_params new_params : list CapParam.t)
    (narrowed_by : string) : Event :=
  new_event narrowed_by "grant.narrowed" [
    ("grant_id", PString new_grant_id);
    ("old_params", PParams old_params);
    ("new_params", PParams new_params);
    ("narrowed_by", PString narrowed_by)].

Definition preset_applied_event (target_agent preset_name : string) (grants_revoked grants_created : Z) : Event :=
  new_event target_agent "preset.applied" [
    ("target_agent", PString target_agent);
    ("preset_name", PString preset_name);
    ("grants_revoked", PNumber grants_revoked);
    ("grants_created", PNumber grants_created)].

Definition resolver_invoked_event (agent capability resolver_type decision : string) : Event :=
  new_event agent "resolver.invoked" [
    ("agent_id", PString agent);
    ("capability", PString capability);
    ("resolver_type", PString resolver_type);
    ("decision", PString decision)].

Definition authz_checked_event (agent capability function decision grant_id : string) : Event :=
  new_event agent "authz.checked" [
    ("agent_id", PString agent);
    ("capability", PString capability);
    ("function", PString function);
    ("decision", PString decision);
    ("grant_id", PString grant_id)].

Definition grant_delegated_event (grant_id parent_grant_id parent_agent child_agent capability : string)
    (ps : list CapParam.t) : Event :=
  new_event parent_agent "grant.delegated" [
    ("grant_id", PString grant_id);
    ("parent_grant_id", PString parent_grant_id);
    ("parent_agent", PString parent_agent);
    ("child_agent", PString child_agent);
    ("capability", PString capability);
    ("params", PParams ps)].
End events.
