(* ===== verification/GrantSqlite.v ===== *)
(** * The durable grant index

    Models [crates/capabilities/cap-grant/src/sqlite.rs].  A row holds the
    table's text columns; [faults] says which coming database calls fail (an
    exhausted list fails none), and a failed call or rolled-back transaction
    changes no row. *)
From S2P Require Import Prelude RustStr GrantData.
Open Scope string_scope.
Open Scope list_scope.
Open Scope Z_scope.

(** ** Definitions *)

(** A row of [grant_index], keyed by [id]. *)
Module Row.
Record t := mk {
  id : string;
  grantee : string;
  capability : string;
  params_json : string;
  ttl_type : string;
  ttl_value : option string;
  issuer_type : string;
  issuer_ref : option string;
  provenance_type : string;
  provenance_ref : option string;
  status : string;
  created_at : string;
  expires_at : option string
}.
#[global] Instance eq_dec : EqDecision t.
Proof. solve_decision. Defined.

(** [SET status = ?1]. *)
Definition set_status (s : string) (r : t) : t :=
  mk (id r) (grantee r) (capability r) (params_json r) (ttl_type r) (ttl_value r) (issuer_type r)
     (issuer_ref r) (provenance_type r) (provenance_ref r) s (created_at r) (expires_at r).

(** The columns [ON CONFLICT(id) DO UPDATE] writes: all but [created_at]. *)
Definition keep_created_at (old r : t) : t :=
  mk (id r) (grantee r) (capability r) (params_json r) (ttl_type r) (ttl_value r) (issuer_type r)
     (issuer_ref r) (provenance_type r) (provenance_ref r) (status r) (created_at old) (expires_at r).
End Row.

Record Sqlite := mkSqlite { rows : gmap string Row.t; faults : list bool }.

Definition set_rows (f : gmap string Row.t → gmap string Row.t) (s : Sqlite) : Sqlite :=
  mkSqlite (f (rows s)) (faults s).

Definition invalid {A} (msg : string) : Result A := Err (CapGrantError.InvalidConfig msg).

(** One database call: [get_conn()?] and the statement or transaction. *)
Definition db_call : M Sqlite CapGrantError.t unit := λ s,
  match faults s with
  | true :: fs => (Err CapGrantError.Db, mkSqlite (rows s) fs)
  | false :: fs => (Ok tt, mkSqlite (rows s) fs)
  | [] => (Ok tt, s)
  end.

Section sqlite.
Context `{Codec}.

Definition encode_ttl (t : GrantTtl.t) : string * option string :=
  match t with
  | GrantTtl.Once => ("once", None)
  | GrantTtl.Lifecycle => ("lifecycle", None)
  | GrantTtl.Persistent => ("persistent", None)
  | GrantTtl.Duration ms => ("duration", Some (z_to_string ms))
  | GrantTtl.Until t => ("until", Some (to_rfc3339 t))
  end.

Definition encode_issuer (i : GrantIssuer.t) : string * option string :=
  match i with
  | GrantIssuer.Config => ("config", None)
  | GrantIssuer.Parent id => ("parent", Some id)
  | GrantIssuer.Resolver c => ("resolver", Some c)
  | GrantIssuer.Admin => ("admin", None)
  end.

Definition encode_provenance (p : GrantProvenance.t) : string * option string :=
  match p with
  | GrantProvenance.StaticConfig => ("static-config", None)
  | GrantProvenance.Delegated id => ("delegated", Some id)
  | GrantProvenance.Requested => ("requested", None)
  | GrantProvenance.Preset n => ("preset", Some n)
  end.

Definition parse_dt (s : string) : Result Z :=
  ok_or (parse_from_rfc3339 s) (CapGrantError.InvalidConfig "rfc3339 parse").

Definition decode_ttl (t : string) (v : option string) : Result GrantTtl.t :=
  if String.eqb t "once" then Ok GrantTtl.Once
  else if String.eqb t "lifecycle" then Ok GrantTtl.Lifecycle
  else if String.eqb t "persistent" then Ok GrantTtl.Persistent
  else if String.eqb t "duration" then
    v ← ok_or v (CapGrantError.InvalidConfig "duration ttl_value missing");
    ms ← ok_or (parse_u64 v) (CapGrantError.InvalidConfig "duration parse");
    Ok (GrantTtl.Duration ms)
  else if String.eqb t "until" then
    v ← ok_or v (CapGrantError.InvalidConfig "until ttl_value missing");
    t ← parse_dt v;
    Ok (GrantTtl.Until t)
  else invalid "unknown ttl_type".

Definition decode_issuer (t : string) (v : option string) : Result GrantIssuer.t :=
  if String.eqb t "config" then Ok GrantIssuer.Config
  else if String.eqb t "parent" then
    v ← ok_or v (CapGrantError.InvalidConfig "parent issuer_ref missing");
    Ok (GrantIssuer.Parent v)
  else if String.eqb t "resolver" then
    v ← ok_or v (CapGrantError.InvalidConfig "resolver issuer_ref missing");
    Ok (GrantIssuer.Resolver v)
  else if String.eqb t "admin" then Ok GrantIssuer.Admin
  else invalid "unknown issuer_type".

Definition decode_provenance (t : string) (v : option string) : Result GrantProvenance.t :=
  if String.eqb t "static-config" then Ok GrantProvenance.StaticConfig
  else if String.eqb t "delegated" then
    v ← ok_or v (CapGrantError.InvalidConfig "delegated provenance_ref missing");
    Ok (GrantProvenance.Delegated v)
  else if String.eqb t "requested" then Ok GrantProvenance.Requested
  else if String.eqb t "preset" then
    v ← ok_or v (CapGrantError.InvalidConfig "preset provenance_ref missing");
    Ok (GrantProvenance.Preset v)
  else invalid "unknown provenance_type".

Definition decode_status (s : string) : Result GrantStatus.t :=
  if String.eqb s "active" then Ok GrantStatus.Active
  else if String.eqb s "consumed" then Ok GrantStatus.Consumed
  else if String.eqb s "expired" then Ok GrantStatus.Expired
  else if String.eqb s "revoked" then Ok GrantStatus.Revoked
  else invalid "unknown status".

(** The [VALUES] of [execute_upsert_grant]. *)
Definition row_of (g : Grant.t) : Row.t :=
  Row.mk (Grant.id g) (Grant.grantee g) (Grant.capability g) (params_to_string (Grant.params g))
    (encode_ttl (Grant.ttl g)).1 (encode_ttl (Grant.ttl g)).2
    (encode_issuer (Grant.issuer g)).1 (encode_issuer (Grant.issuer g)).2
    (encode_provenance (Grant.provenance g)).1 (encode_provenance (Grant.provenance g)).2
    (GrantStatus.as_str (Grant.status g)) (to_rfc3339 (Grant.created_at g))
    (to_rfc3339 <$> Grant.expires_at g).

(** The [INSERT .. ON CONFLICT(id) DO UPDATE] of [execute_upsert_grant]. *)
Definition execute_upsert_grant (g : Grant.t) (rs : gmap string Row.t) : gmap string Row.t :=
  match rs !! Grant.id g with
  | Some old => <[Grant.id g := Row.keep_created_at old (row_of g)]> rs
  | None => <[Grant.id g := row_of g]> rs
  end.

(** [UPDATE grant_index SET status = ?1 WHERE id = ?2]. *)
Definition execute_update_status (status : GrantStatus.t) (rs : gmap string Row.t) (id : string)
    : gmap string Row.t :=
  alter (Row.set_status (GrantStatus.as_str status)) id rs.

Definition upsert_grant (g : Grant.t) : M Sqlite CapGrantError.t unit :=
  _ ← db_call;
  modify (set_rows (execute_upsert_grant g)).

Definition update_status (id : string) (status : GrantStatus.t) : M Sqlite CapGrantError.t unit :=
  _ ← db_call;
  s ← get_state;
  match rows s !! id with
  | None => throw (CapGrantError.NotFound id)
  | Some _ => modify (set_rows (λ rs, execute_update_status status rs id))
  end.

(** One [BEGIN IMMEDIATE] transaction: all the writes or none. *)
Definition apply_preset_atomic (revoked : list string) (created : list Grant.t)
    : M Sqlite CapGrantError.t unit :=
  _ ← db_call;
  modify (set_rows (λ rs,
    foldl (λ rs g, execute_upsert_grant g rs)
      (foldl (execute_update_status GrantStatus.Revoked) rs revoked) created)).

(** The loop body of [recover_active_grants]. *)
Definition decode_row (r : Row.t) : Result Grant.t :=
  params ← ok_or (params_from_str (Row.params_json r)) (CapGrantError.InvalidConfig "params decode");
  ttl ← decode_ttl (Row.ttl_type r) (Row.ttl_value r);
  issuer ← decode_issuer (Row.issuer_type r) (Row.issuer_ref r);
  provenance ← decode_provenance (Row.provenance_type r) (Row.provenance_ref r);
  status ← decode_status (Row.status r);
  created_at ← parse_dt (Row.created_at r);
  expires_at ← match Row.expires_at r with
               | None => Ok None
               | Some s => t ← parse_dt s; Ok (Some t)
               end;
  Ok (Grant.mk (Row.id r) (Row.grantee r) (Row.capability r) params ttl issuer provenance status
        created_at expires_at).

(** [ORDER BY created_at, id]. *)
Definition row_le (r1 r2 : Row.t) : Prop :=
  str_le (Row.created_at r1) (Row.created_at r2) ∧
  (Row.created_at r1 = Row.created_at r2 → str_le (Row.id r1) (Row.id r2)).

#[export] Instance row_le_dec : RelDecision row_le.
Proof. intros r1 r2. unfold row_le. apply _. Defined.

(** [SELECT .. WHERE status = 'active' ORDER BY created_at, id]. *)
Definition active_rows (rs : gmap string Row.t) : list Row.t :=
  merge_sort row_le (List.filter (λ r, String.eqb (Row.status r) "active") (map_to_list rs).*2).

Definition recover_active_grants : M Sqlite CapGrantError.t (list Grant.t) :=
  _ ← db_call;
  s ← get_state;
  lift (try_map decode_row (active_rows (rows s))).
End sqlite.
