(* ===== verification/GrantStore.v ===== *)
(** * The grant store

    Models [crates/capabilities/cap-grant/src/store.rs] and [sweeper.rs]: the
    in-memory grants and their three indexes, the durable index behind them,
    the event bus, and every operation that changes them.  A lock-protected
    section runs as one step; an operation is the sequence of its steps, so an
    early return leaves the state its earlier steps made. *)
From S2P Require Import Prelude RustStr GrantData Subset Cascade Events GrantSqlite.
Open Scope string_scope.
Open Scope list_scope.
Open Scope Z_scope.

(** ** The state *)

Record GrantStore := mkStore {
  grants : gmap string Grant.t;
  by_grantee : Index;
  by_issuer : Index;
  provenance : Index;
  narrow_in_progress : gset string;
  sqlite : Sqlite;
  event_bus : list Event
}.

(** [GrantStore::new]. *)
Definition new_store (db : Sqlite) : GrantStore := mkStore ∅ ∅ ∅ ∅ ∅ db [].

Definition set_grants (f : gmap string Grant.t → gmap string Grant.t) (s : GrantStore) : GrantStore :=
  mkStore (f (grants s)) (by_grantee s) (by_issuer s) (provenance s) (narrow_in_progress s) (sqlite s) (event_bus s).

Definition set_narrow_in_progress (f : gset string → gset string) (s : GrantStore) : GrantStore :=
  mkStore (grants s) (by_grantee s) (by_issuer s) (provenance s) (f (narrow_in_progress s)) (sqlite s) (event_bus s).

Definition set_sqlite (db : Sqlite) (s : GrantStore) : GrantStore :=
  mkStore (grants s) (by_grantee s) (by_issuer s) (provenance s) (narrow_in_progress s) db (event_bus s).

Abbreviation ST := (M GrantStore CapGrantError.t).

(** A method of [self.sqlite]. *)
Definition db {A} (m : M Sqlite CapGrantError.t A) : ST A := λ s,
  let (r, q) := m (sqlite s) in (r, set_sqlite q s).

(** [self.event_bus.emit(e)]. *)
Definition emit (e : Event) : ST unit := modify (λ s,
  mkStore (grants s) (by_grantee s) (by_issuer s) (provenance s) (narrow_in_progress s) (sqlite s)
    (event_bus s ++ [e])).

(** The orders in which Rust's hash containers iterate: some order of the
    elements, which the code may not rely on. *)
Class HashOrder := {
  iter_ids : gset string → list string;
  iter_grants : gmap string Grant.t → list Grant.t
}.

Class HashOrderLaws `{HashOrder} : Prop := {
  iter_ids_perm ids : iter_ids ids ≡ₚ elements ids;
  iter_grants_perm gs : iter_grants gs ≡ₚ (map_to_list gs).*2
}.

Definition hash_order_model : HashOrder := {|
  iter_ids := elements;
  iter_grants gs := (map_to_list gs).*2
|}.

Lemma hash_order_model_laws : @HashOrderLaws hash_order_model.
Proof. by split. Qed.

(** ** Inserting *)

Definition is_agent_or_bare_id (s : string) : bool :=
  match strip_prefix "agent:" s with
  | Some body =>
      negb (String.eqb body "")
      && all_bytes (λ b, is_ascii_alphanumeric b || Ascii.eqb b "_" || Ascii.eqb b "-") body
  | None => negb (contains_char ":" s)
  end.

(** [idx.entry(key).or_default().insert(id)]. *)
Definition index_insert (key id : string) (idx : Index) : Index :=
  <[key := {[id]} ∪ default ∅ (idx !! key)]> idx.

Definition write_in_memory (g : Grant.t) (s : GrantStore) : GrantStore :=
  mkStore (grants s)
    (index_insert (Grant.grantee g) (Grant.id g) (by_grantee s))
    (match Grant.issuer g with
     | GrantIssuer.Parent parent_id => index_insert parent_id (Grant.id g) (by_issuer s)
     | _ => by_issuer s
     end)
    (match Grant.provenance g with
     | GrantProvenance.Delegated parent_grant_id => index_insert parent_grant_id (Grant.id g) (provenance s)
     | _ => provenance s
     end)
    (narrow_in_progress s) (sqlite s) (event_bus s).

Definition insert_no_dual_write (g : Grant.t) (s : GrantStore) : GrantStore :=
  set_grants (λ gs, <[Grant.id g := g]> gs) (write_in_memory g s).

Definition get (id : string) (s : GrantStore) : option Grant.t := grants s !! id.

(** [grant.provenance == Delegated(parent)], for whom. *)
Definition delegated_from (g : Grant.t) : option string :=
  match Grant.provenance g with GrantProvenance.Delegated parent => Some parent | _ => None end.

Definition is_static (g : Grant.t) : bool := bool_decide (Grant.provenance g = GrantProvenance.StaticConfig).

Definition validate_dynamic_grant_shape (g : Grant.t) : Result unit :=
  _ ← guard_err (String.eqb (Grant.grantee g) "") (CapGrantError.InvalidConfig "grantee must not be empty");
  _ ← guard_err (String.eqb (Grant.capability g) "") (CapGrantError.InvalidConfig "capability must not be empty");
  _ ← guard_err (String.eqb (Grant.id g) "") (CapGrantError.InvalidConfig "grant id must not be empty");
  guard_err (is_static g)
    (CapGrantError.InvalidConfig "dynamic grant insert rejects provenance=StaticConfig").

Definition has_control (s : string) : bool := existsb is_control (chars s).

Section store.
Context `{Chrono, Codec, HashOrder, V : SubsetValidator}.

Definition list_by_grantee (grantee : string) (s : GrantStore) : list Grant.t :=
  match by_grantee s !! grantee with
  | Some ids => omap (λ id, grants s !! id) (iter_ids ids)
  | None => []
  end.

Definition list_by_issuer_parent (parent_id : string) (s : GrantStore) : list Grant.t :=
  match by_issuer s !! parent_id with
  | Some ids => omap (λ id, grants s !! id) (iter_ids ids)
  | None => []
  end.

(** The static-config insert. *)
Definition insert (grant : Grant.t) : ST string :=
  _ ← fail_if (String.eqb (Grant.grantee grant) "") (CapGrantError.InvalidConfig "grantee must not be empty");
  _ ← fail_if (String.eqb (Grant.capability grant) "") (CapGrantError.InvalidConfig "capability must not be empty");
  _ ← fail_if (contains_char ":" (Grant.grantee grant))
        (CapGrantError.InvalidConfig "grantee contains forbidden character ':'");
  _ ← fail_if (contains_char ":" (Grant.capability grant))
        (CapGrantError.InvalidConfig "capability contains forbidden character ':'");
  s ← get_state;
  let grant := match grants s !! Grant.id grant with
               | Some existing => Grant.set_created_at (Grant.created_at existing) grant
               | None => grant
               end in
  _ ← db (upsert_grant grant);
  _ ← modify (set_grants (λ gs, <[Grant.id grant := grant]> gs));
  _ ← modify (write_in_memory grant);
  _ ← emit (grant_issued_event grant);
  mret (Grant.id grant).

Definition insert_dynamic_inner (grant : Grant.t) : ST string :=
  _ ← fail_if (String.eqb (Grant.grantee grant) "") (CapGrantError.InvalidConfig "grantee must not be empty");
  _ ← fail_if (String.eqb (Grant.capability grant) "") (CapGrantError.InvalidConfig "capability must not be empty");
  _ ← fail_if (String.eqb (Grant.id grant) "") (CapGrantError.InvalidConfig "grant id must not be empty");
  _ ← fail_if (is_static grant)
        (CapGrantError.InvalidConfig "insert_dynamic_inner rejects provenance=StaticConfig");
  s ← get_state;
  _ ← fail_if (match delegated_from grant with
               | Some parent_id => bool_decide (grants s !! parent_id = None)
               | None => false
               end) (CapGrantError.InvalidConfig "referenced parent grant does not exist in store");
  _ ← db (upsert_grant grant);
  _ ← modify (set_grants (λ gs, <[Grant.id grant := grant]> gs));
  _ ← modify (write_in_memory grant);
  _ ← emit (grant_issued_event grant);
  mret (Grant.id grant).

Definition insert_dynamic (grant : Grant.t) : ST string :=
  s ← get_state;
  _ ← match delegated_from grant with
      | Some parent_id =>
          _ ← fail_if (bool_decide (parent_id ∈ narrow_in_progress s))
                (CapGrantError.InvalidConfig "a narrow / cascade-revoke is in progress against the parent");
          fail_if (bool_decide (grants s !! parent_id = None))
            (CapGrantError.InvalidConfig "referenced parent grant does not exist in store")
      | None => mret tt
      end;
  insert_dynamic_inner grant.

(** ** Status changes *)

(** [if let Some(grant) = g.get_mut(id) { if grant.status == Active {
    grant.status = status; Some(..) } }]. *)
Definition flip_active (status : GrantStatus.t) (id : string) : ST (option Grant.t) :=
  s ← get_state;
  match grants s !! id with
  | Some g =>
      if Grant.is_active g then
        _ ← modify (set_grants (alter (Grant.set_status status) id));
        mret (Some g)
      else mret None
  | None => mret None
  end.

(** Revoke one id: the flip, then its durable row. *)
Definition revoke_one (id : string) : ST (option Grant.t) :=
  o ← flip_active GrantStatus.Revoked id;
  match o with
  | Some g =>
      _ ← db (update_status (Grant.id g) GrantStatus.Revoked);
      mret (Some g)
  | None => mret None
  end.

Definition consume (id consumed_by_function : string) : ST unit :=
  _ ← fail_if (String.eqb consumed_by_function "")
        (CapGrantError.InvalidConfig "consume: consumed_by_function must not be empty");
  _ ← fail_if (256 <? len consumed_by_function)
        (CapGrantError.InvalidConfig "consume: consumed_by_function exceeds 256-byte cap");
  _ ← fail_if (has_control consumed_by_function)
        (CapGrantError.InvalidConfig "consume: consumed_by_function contains ASCII control bytes");
  s ← get_state;
  g ← lift (ok_or (grants s !! id) (CapGrantError.NotFound id));
  _ ← fail_if (negb (Grant.is_active g)) (CapGrantError.NotFound id);
  _ ← fail_if (negb (bool_decide (Grant.ttl g = GrantTtl.Once)))
        (CapGrantError.InvalidConfig "consume() called on non-Once grant");
  _ ← modify (set_grants (alter (Grant.set_status GrantStatus.Consumed) id));
  _ ← db (update_status (Grant.id g) GrantStatus.Consumed);
  emit (grant_consumed_event (Grant.id g) (Grant.grantee g) (Grant.capability g) consumed_by_function).

Definition expire_ids (ids : list string) : ST Z :=
  events ← collect (flip_active GrantStatus.Expired) ids;
  _ ← for_each (λ g, db (update_status (Grant.id g) GrantStatus.Expired)) events;
  _ ← for_each (λ g, emit (grant_expired_event (Grant.id g) (Grant.grantee g) (Grant.capability g) (Grant.ttl g)))
        events;
  mret (size_of events).

Definition collect_expired_ids (now : Z) (s : GrantStore) : list string :=
  Grant.id <$> List.filter (λ g, Grant.is_active g && negb (Grant.unexpired now g)) (iter_grants (grants s)).

(** [TtlSweeper::tick]: the error of [expire_ids] is dropped. *)
Definition tick (now : Z) (s : GrantStore) : GrantStore :=
  let ids := collect_expired_ids now s in
  if bool_decide (ids = []) then s else (expire_ids ids s).2.

Definition revoke_by_grantee (grantee_id : string) : ST (list string) :=
  s ← get_state;
  let ids := match by_grantee s !! grantee_id with Some set => iter_ids set | None => [] end in
  let revoked_by := "grantee-terminate:" +:+ grantee_id in
  collect (λ id,
    o ← revoke_one id;
    match o with
    | Some g =>
        _ ← emit (grant_revoked_event (Grant.id g) (Grant.grantee g) (Grant.capability g) revoked_by 0);
        mret (Some (Grant.id g))
    | None => mret None
    end) ids.

(** [_guard]: [id] leaves [narrow_in_progress] on every path out of [m]. *)
Definition narrow_guarded {A} (id : string) (m : ST A) : ST A := λ s,
  let (r, s') := m s in (r, set_narrow_in_progress (λ nip, nip ∖ {[id]}) s').

(** How many of the applied grants are not the root. *)
Definition count_descendants (applied : list (Grant.t * bool)) : Z :=
  size_of (List.filter (λ a, negb a.2) applied).

Definition emit_revocations (revoked_by : string) (applied : list (Grant.t * bool)) : ST unit :=
  for_each (λ a : Grant.t * bool, emit (grant_revoked_event (Grant.id a.1) (Grant.grantee a.1) (Grant.capability a.1) revoked_by
                         (if a.2 then count_descendants applied else 0))) applied.

(** Both phases of [cascade_revoke_with_reason], under its guard. *)
Definition cascade_phases (root_id revoked_by : string) : ST CascadeResult :=
  s ← get_state;
  let descendants := walk_descendants (provenance s) root_id in
  _ ← fail_if (negb (match grants s !! root_id with Some g => Grant.is_active g | None => false end))
        (CapGrantError.NotFound root_id);
  applied ← collect (λ idr : string * bool,
    o ← revoke_one idr.1;
    mret (option_map (λ g, (g, idr.2)) o)) ((root_id, true) :: ((λ d, (d, false)) <$> descendants));
  _ ← emit_revocations revoked_by applied;
  mret (mkCascadeResult root_id ((λ a : Grant.t * bool, Grant.id a.1) <$> applied) (count_descendants applied)).

Definition cascade_revoke_with_reason (root_id revoked_by : string) : ST CascadeResult :=
  s ← get_state;
  _ ← fail_if (bool_decide (root_id ∈ narrow_in_progress s)) (CapGrantError.NotFound root_id);
  _ ← modify (set_narrow_in_progress (λ nip, {[root_id]} ∪ nip));
  narrow_guarded root_id (cascade_phases root_id revoked_by).

Definition cascade_revoke (root_id : string) : ST CascadeResult :=
  cascade_revoke_with_reason root_id "cascade-revoke".

(** [if visited.insert(id) { all.push(id) }]. *)
Definition push_new (acc : gset string * list string) (id : string) : gset string * list string :=
  if decide (id ∈ acc.1) then acc else ({[id]} ∪ acc.1, acc.2 ++ [id]).

(** The roots and their descendants, deduplicated. *)
Definition issuer_targets (provenance : Index) (root_ids : list string) : list string :=
  (foldl (λ acc root, foldl push_new (push_new acc root) (walk_descendants provenance root)) (∅, []) root_ids).2.

Definition cascade_by_issuer (parent_id : string) : ST CascadeResult :=
  s ← get_state;
  let root_ids := match by_issuer s !! parent_id with Some set => sort_ids (iter_ids set) | None => [] end in
  let revoked_by := "parent-terminate:" +:+ parent_id in
  revoked ← collect (λ id,
    o ← revoke_one id;
    match o with
    | Some g =>
        _ ← emit (grant_revoked_event (Grant.id g) (Grant.grantee g) (Grant.capability g) revoked_by 0);
        mret (Some (Grant.id g))
    | None => mret None
    end) (issuer_targets (provenance s) root_ids);
  mret (mkCascadeResult (default "" (head root_ids)) revoked
          (size_of (List.filter (λ id, negb (bool_decide (id ∈ root_ids))) revoked))).

(** The active non-static grants of a grantee, sorted. *)
Definition dynamic_roots (grantee : string) (s : GrantStore) : list string :=
  match by_grantee s !! grantee with
  | Some set =>
      sort_ids (List.filter (λ id,
        match grants s !! id with Some g => Grant.is_active g && negb (is_static g) | None => false end)
        (iter_ids set))
  | None => []
  end.

(** [match self.cascade_revoke_with_reason(..) { Err(NotFound(_)) => continue, .. }]. *)
Definition revoke_root (revoked_by root : string) : ST (option (list string)) := λ s,
  match cascade_revoke_with_reason root revoked_by s with
  | (Ok result, s') => (Ok (Some (revoked result)), s')
  | (Err (CapGrantError.NotFound _), s') => (Ok None, s')
  | (Err e, s') => (Err e, s')
  end.

Definition revoke_dynamic_for_grantee (grantee : string) : ST (list string) :=
  s ← get_state;
  all_revoked ← collect (revoke_root ("preset-apply:" +:+ grantee)) (dynamic_roots grantee s);
  mret (concat all_revoked).
(** ** Batch preset application *)

(** The body of the loop over one root's subtree: an id still in [active_ids]
    leaves it, and its grant is kept with the flag of the root. *)
Definition preset_pick (s : GrantStore) (st : gset string * list (Grant.t * bool)) (idr : string * bool)
    : gset string * list (Grant.t * bool) :=
  if decide (idr.1 ∈ st.1) then
    (st.1 ∖ {[idr.1]},
     match grants s !! idr.1 with
     | Some g => if Grant.is_active g then st.2 ++ [(g, idr.2)] else st.2
     | None => st.2
     end)
  else st.

(** The loop over the roots: what is revoked, with the event's
    [cascade_count]. *)
Definition preset_root (s : GrantStore) (acc : gset string * list (Grant.t * Z)) (root : string)
    : gset string * list (Grant.t * Z) :=
  if decide (root ∈ acc.1) then
    let ids := (root, true) :: ((λ d, (d, false)) <$> walk_descendants (provenance s) root) in
    let '(active_ids, local) := foldl (preset_pick s) (acc.1, []) ids in
    let descendants := count_descendants local in
    (active_ids, acc.2 ++ ((λ gr : Grant.t * bool, (gr.1, if gr.2 then descendants else 0)) <$> local))
  else acc.

Definition active_ids (s : GrantStore) : gset string :=
  dom (filter (λ ig : string * Grant.t, Grant.is_active ig.2 = true) (grants s)).

Definition preset_revocations (grantee : string) (s : GrantStore) : list (Grant.t * Z) :=
  (foldl (preset_root s) (active_ids s, []) (dynamic_roots grantee s)).2.

(** [if grant.status == Active { grant.status = Revoked }] for one id. *)
Definition revoke_if_active (gs : gmap string Grant.t) (id : string) : gmap string Grant.t :=
  alter (λ g, if Grant.is_active g then Grant.set_status GrantStatus.Revoked g else g) id gs.

(** The in-memory insert of one created grant, with its index entries. *)
Definition install (s : GrantStore) (g : Grant.t) : GrantStore := insert_no_dual_write g s.

Definition apply_preset_atomic_for_grantee (grantee : string) (created_grants : list Grant.t)
    : ST (list string * list string) :=
  _ ← lift (try_for validate_dynamic_grant_shape created_grants);
  s ← get_state;
  let revoked_by := "preset-apply:" +:+ grantee in
  let revocations := preset_revocations grantee s in
  let revoked_ids := (λ gc : Grant.t * Z, Grant.id gc.1) <$> revocations in
  _ ← db (apply_preset_atomic revoked_ids created_grants);
  _ ← modify (set_grants (λ gs, foldl revoke_if_active gs revoked_ids));
  _ ← modify (λ s, foldl install s created_grants);
  _ ← for_each (λ gc : Grant.t * Z, emit (grant_revoked_event (Grant.id gc.1) (Grant.grantee gc.1) (Grant.capability gc.1)
                              revoked_by gc.2)) revocations;
  _ ← for_each (λ g, emit (grant_issued_event g)) created_grants;
  mret (revoked_ids, Grant.id <$> created_grants).

(** ** Narrowing *)

(** [new_params.iter().map(|p| p.key.len() + p.value.len()).sum()]. *)
Definition params_bytes (ps : list CapParam.t) : Z :=
  foldr (λ p n, len (CapParam.key p) + len (CapParam.value p) + n) 0 ps.

Definition MAX_PARAMS_ENTRIES : Z := 64.
Definition MAX_PARAMS_BYTES : Z := 4096.

(** The checks on [caller_id] that open [narrow]. *)
Definition narrow_check_caller (caller_id : string) : Result unit :=
  _ ← guard_err (String.eqb caller_id "") (CapGrantError.InvalidConfig "narrow: caller_id must not be empty");
  _ ← guard_err (256 <? len caller_id) (CapGrantError.InvalidConfig "narrow: caller_id exceeds 256-byte cap");
  _ ← guard_err (negb (is_agent_or_bare_id caller_id))
        (CapGrantError.InvalidConfig "narrow: caller_id must be a bare id or a canonical agent id");
  guard_err (has_control caller_id)
    (CapGrantError.InvalidConfig "narrow: caller_id contains ASCII control bytes").

(** The deadline of the narrowed grant. *)
Definition narrow_expires_at (now : Z) (existing : Grant.t) : option Z :=
  match Grant.ttl existing with
  | GrantTtl.Once | GrantTtl.Lifecycle | GrantTtl.Persistent => None
  | GrantTtl.Duration ms =>
      let naive_new := saturating_deadline now ms in
      match Grant.expires_at existing with
      | Some parent_exp => Some (Z.min naive_new parent_exp)
      | None => Some naive_new
      end
  | GrantTtl.Until t => Some t
  end.

(** The grant [narrow] inserts. *)
Definition narrowed_grant (now : Z) (new_id : string) (existing : Grant.t) (new_params : list CapParam.t)
    (grant_id : string) : Grant.t :=
  Grant.mk new_id (Grant.grantee existing) (Grant.capability existing) new_params (Grant.ttl existing)
    (Grant.issuer existing) (GrantProvenance.Delegated grant_id) GrantStatus.Active now
    (narrow_expires_at now existing).

Definition narrow (now : Z) (new_uuid grant_id : string) (new_params : list CapParam.t) (caller_id : string)
    : ST string :=
  _ ← lift (narrow_check_caller caller_id);
  s ← get_state;
  existing ← lift (match grants s !! grant_id with
                   | Some g => if Grant.is_active g then Ok g else Err (CapGrantError.NotFound grant_id)
                   | None => Err (CapGrantError.NotFound grant_id)
                   end);
  _ ← fail_if (MAX_PARAMS_ENTRIES <? size_of new_params)
        (CapGrantError.InvalidConfig "narrow: new_params exceeds the entry cap");
  _ ← fail_if (MAX_PARAMS_BYTES <? params_bytes new_params)
        (CapGrantError.InvalidConfig "narrow: new_params exceeds the byte cap");
  _ ← fail_if (negb (String.eqb caller_id (Grant.grantee existing)))
        (CapGrantError.PermissionDenied "narrow: caller is not the grantee");
  _ ← lift (validate existing (GrantDraft.mk (Grant.capability existing) new_params (Grant.ttl existing)));
  _ ← cascade_revoke_with_reason grant_id "narrow";
  inserted_id ← insert_dynamic (narrowed_grant now new_uuid existing new_params grant_id);
  _ ← emit (grant_narrowed_event inserted_id (Grant.params existing) new_params caller_id);
  mret inserted_id.

(** ** Delegating *)

(** Step 1 of [delegate_grant]: the three identifiers. *)
Definition delegate_check_ids (parent_grant_id child_agent caller_id : string) : Result unit :=
  let bad msg := CapGrantError.InvalidConfig msg in
  _ ← guard_err (String.eqb parent_grant_id "") (bad "delegate_grant: parent_grant_id must not be empty");
  _ ← guard_err (256 <? len parent_grant_id) (bad "delegate_grant: parent_grant_id exceeds 256-byte cap");
  _ ← guard_err (has_control parent_grant_id) (bad "delegate_grant: parent_grant_id contains control bytes");
  _ ← guard_err (String.eqb caller_id "") (bad "delegate_grant: caller_id must not be empty");
  _ ← guard_err (String.eqb child_agent "") (bad "delegate_grant: child_agent must not be empty");
  _ ← guard_err (negb (is_agent_or_bare_id caller_id)) (bad "delegate_grant: caller_id form");
  _ ← guard_err (negb (is_agent_or_bare_id child_agent)) (bad "delegate_grant: child_agent form");
  _ ← guard_err (has_control caller_id) (bad "delegate_grant: caller_id contains control bytes");
  _ ← guard_err (has_control child_agent) (bad "delegate_grant: child_agent contains control bytes");
  _ ← guard_err (256 <? len caller_id) (bad "delegate_grant: caller_id exceeds 256-byte cap");
  _ ← guard_err (256 <? len child_agent) (bad "delegate_grant: child_agent exceeds 256-byte cap");
  guard_err (String.eqb caller_id child_agent) (bad "delegate_grant: self-delegation forbidden").

(** Step 3: the parent grant, if the caller may delegate it. *)
Definition delegate_parent (now_check : Z) (parent_grant_id caller_id : string) (s : GrantStore)
    : Result Grant.t :=
  match grants s !! parent_grant_id with
  | Some p =>
      if Grant.is_active p && String.eqb (Grant.grantee p) caller_id && Grant.unexpired now_check p then Ok p
      else Err (CapGrantError.PermissionDenied "delegate_grant")
  | None => Err (CapGrantError.PermissionDenied "delegate_grant")
  end.

(** The caps on [draft.params]. *)
Definition delegate_check_params (ps : list CapParam.t) : Result unit :=
  _ ← guard_err (MAX_PARAMS_ENTRIES <? size_of ps)
        (CapGrantError.InvalidConfig "delegate_grant: draft.params exceeds the entry cap");
  guard_err (MAX_PARAMS_BYTES <? params_bytes ps)
    (CapGrantError.InvalidConfig "delegate_grant: draft.params exceeds the byte cap").

(** The TTL kinds a parent may give. *)
Definition delegate_check_ttl (parent child : GrantTtl.t) : Result unit :=
  match parent, child with
  | GrantTtl.Persistent, _ => Ok tt
  | GrantTtl.Once, _ => violation "delegate_grant: parent ttl=Once cannot be delegated"
  | GrantTtl.Lifecycle, (GrantTtl.Once | GrantTtl.Lifecycle) => Ok tt
  | GrantTtl.Lifecycle, _ => violation "delegate_grant: parent ttl=Lifecycle permits child Once or Lifecycle"
  | (GrantTtl.Duration _ | GrantTtl.Until _), GrantTtl.Lifecycle =>
      violation "delegate_grant: parent ttl is time-bounded; child Lifecycle ttl is forbidden"
  | (GrantTtl.Duration _ | GrantTtl.Until _), _ => Ok tt
  end.

(** Step 7: the clamp to the parent's deadline. *)
Definition delegate_expires_at (now : Z) (ttl : GrantTtl.t) (parent_expires_at : option Z) : option Z :=
  match compute_expires_at now ttl, parent_expires_at with
  | Some c, Some p => Some (Z.min c p)
  | Some c, None => Some c
  | None, Some p => Some p
  | None, None => None
  end.

(** The grant [delegate_grant] inserts. *)
Definition delegated_grant (now : Z) (new_id child_agent caller_id : string) (parent : Grant.t)
    (draft : GrantDraft.t) : Grant.t :=
  Grant.mk new_id child_agent (Grant.capability parent) (GrantDraft.params draft) (GrantDraft.ttl draft)
    (GrantIssuer.Parent caller_id) (GrantProvenance.Delegated (Grant.id parent)) GrantStatus.Active now
    (delegate_expires_at now (GrantDraft.ttl draft) (Grant.expires_at parent)).

Definition delegate_grant (now_check now : Z) (new_uuid parent_grant_id child_agent : string)
    (draft : GrantDraft.t) (caller_id : string) : ST string :=
  _ ← lift (delegate_check_ids parent_grant_id child_agent caller_id);
  s ← get_state;
  parent ← lift (delegate_parent now_check parent_grant_id caller_id s);
  _ ← fail_if (bool_decide (parent_grant_id ∈ narrow_in_progress s))
        (CapGrantError.InvalidConfig "delegate_grant: a narrow / cascade-revoke is in progress");
  _ ← lift (delegate_check_params (GrantDraft.params draft));
  _ ← lift (validate parent draft);
  _ ← lift (delegate_check_ttl (Grant.ttl parent) (GrantDraft.ttl draft));
  inserted_id ← insert_dynamic_inner (delegated_grant now new_uuid child_agent caller_id parent draft);
  _ ← emit (grant_delegated_event inserted_id (Grant.id parent) caller_id child_agent (Grant.capability parent)
              (GrantDraft.params draft));
  mret inserted_id.

End store.

(** ** Restart *)

Section restart.
Context `{Codec}.

(** The recovery loop of [register_cap_grant] over a fresh store. *)
Definition recover_store (db0 : Sqlite) : result CapGrantError.t GrantStore * Sqlite :=
  match recover_active_grants db0 with
  | (Ok gs, q) => (Ok (foldl (λ s g, insert_no_dual_write g s) (new_store q) gs), q)
  | (Err e, q) => (Err e, q)
  end.
End restart.
