(* ===== verification/StoreFacts.v ===== *)
(** * Invariants of the grant store

    The two relations every operation of [GrantStore] keeps, and the lemmas
    that compose them: [status_step] (only statuses move, and only out of
    [Active]) and [evolves] (grants may also be added); [wf], the coherence
    of the three indexes with the grants. *)
From S2P Require Import Prelude RustStr GrantData Subset Cascade Events GrantSqlite GrantStore.
Open Scope string_scope.
Open Scope list_scope.
Open Scope Z_scope.

(** ** Definitions *)

(** A grant's life: its content is fixed, its status moves once, out of
    [Active]. *)
Definition g_evolves (g g' : Grant.t) : Prop :=
  g' = Grant.set_status (Grant.status g') g ∧ (Grant.is_active g = false → g' = g).

(** The store keeps its ids and indexes; grants only live their lives. *)
Definition status_step (s s' : GrantStore) : Prop :=
  (∀ id, option_Forall2 g_evolves (grants s !! id) (grants s' !! id)) ∧
  by_grantee s' = by_grantee s ∧ by_issuer s' = by_issuer s ∧ provenance s' = provenance s.

(** No grant disappears or changes but for its status. *)
Definition evolves (s s' : GrantStore) : Prop :=
  ∀ id g, grants s !! id = Some g → ∃ g', grants s' !! id = Some g' ∧ g_evolves g g'.

Definition ids_of (key : string) (idx : Index) : gset string := default ∅ (idx !! key).

(** The indexes hold exactly the stored grants, under their keys. *)
Record wf (s : GrantStore) : Prop := {
  wf_key id g : grants s !! id = Some g → Grant.id g = id;
  wf_grantee k id :
    id ∈ ids_of k (by_grantee s) ↔ ∃ g, grants s !! id = Some g ∧ Grant.grantee g = k;
  wf_issuer k id :
    id ∈ ids_of k (by_issuer s) ↔ ∃ g, grants s !! id = Some g ∧ Grant.issuer g = GrantIssuer.Parent k;
  wf_provenance k id :
    id ∈ ids_of k (provenance s) ↔ ∃ g, grants s !! id = Some g ∧ delegated_from g = Some k
}.

(** An insert of [g] moves no id from one key to another. *)
Definition same_keys (old g : Grant.t) : Prop :=
  Grant.grantee old = Grant.grantee g ∧ Grant.issuer old = Grant.issuer g ∧
  Grant.provenance old = Grant.provenance g.

(** [status_step] and the invariant it keeps. *)
Definition flip (status : GrantStatus.t) (g : Grant.t) : Grant.t :=
  if Grant.is_active g then Grant.set_status status g else g.

(** No database call fails from here on, and every grant has its row. *)
Definition healthy (s : GrantStore) : Prop :=
  faults (sqlite s) = [] ∧ (∀ id g, grants s !! id = Some g → Grant.id g = id) ∧
  ∀ id, is_Some (grants s !! id) → is_Some (rows (sqlite s) !! id).

(** ** Grants *)

Lemma set_status_fields st g :
  Grant.id (Grant.set_status st g) = Grant.id g ∧
  Grant.grantee (Grant.set_status st g) = Grant.grantee g ∧
  Grant.capability (Grant.set_status st g) = Grant.capability g ∧
  Grant.issuer (Grant.set_status st g) = Grant.issuer g ∧
  Grant.provenance (Grant.set_status st g) = Grant.provenance g ∧
  Grant.status (Grant.set_status st g) = st.
Proof. by destruct g. Qed.

Lemma set_status_twice st st' g : Grant.set_status st (Grant.set_status st' g) = Grant.set_status st g.
Proof. by destruct g. Qed.

Lemma set_status_same g : Grant.set_status (Grant.status g) g = g.
Proof. by destruct g. Qed.

#[export] Instance g_evolves_preorder : PreOrder g_evolves.
Proof.
  split.
  - intros g. split; [by rewrite set_status_same | done].
  - intros g1 g2 g3 [H12 F12] [H23 F23]. split.
    + rewrite H23, H12, set_status_twice. by rewrite (proj2 (proj2 (proj2 (proj2 (proj2 (set_status_fields _ _)))))).
    + intros Hg. rewrite <- (F12 Hg). apply F23. by rewrite (F12 Hg).
Qed.

Lemma g_evolves_fields g g' :
  g_evolves g g' →
  Grant.id g' = Grant.id g ∧ Grant.grantee g' = Grant.grantee g ∧ Grant.capability g' = Grant.capability g ∧
  Grant.issuer g' = Grant.issuer g ∧ Grant.provenance g' = Grant.provenance g ∧
  Grant.params g' = Grant.params g ∧ Grant.ttl g' = Grant.ttl g ∧ Grant.expires_at g' = Grant.expires_at g.
Proof. intros [-> _]. by destruct g. Qed.

Lemma flip_evolves st g : g_evolves g (flip st g).
Proof.
  unfold flip. destruct (Grant.is_active g) eqn:Ha; [|done]. split; [by destruct g | congruence].
Qed.

(** ** The relations *)

#[export] Instance status_step_preorder : PreOrder status_step.
Proof.
  split.
  - intros s. split; [|done]. intros id. destruct (grants s !! id); by constructor.
  - intros s1 s2 s3 (H12 & ? & ? & ?) (H23 & ? & ? & ?). split; [|split_and!; congruence].
    intros id. specialize (H12 id). specialize (H23 id).
    destruct H12 as [g1 g2 ?|]; inversion H23; subst; constructor. by etrans.
Qed.

#[export] Instance evolves_preorder : PreOrder evolves.
Proof.
  split.
  - intros s id g Hg. by exists g.
  - intros s1 s2 s3 H12 H23 id g Hg. destruct (H12 id g Hg) as (g2 & Hg2 & ?).
    destruct (H23 id g2 Hg2) as (g3 & ? & ?). exists g3. split; [done|]. by etrans.
Qed.

Lemma status_step_evolves s s' : status_step s s' → evolves s s'.
Proof.
  intros [Hs _] id g Hg. specialize (Hs id). rewrite Hg in Hs. inversion Hs; subst. eauto.
Qed.

Lemma status_step_lookup s s' id g' :
  status_step s s' → grants s' !! id = Some g' → ∃ g, grants s !! id = Some g ∧ g_evolves g g'.
Proof. intros [Hs _] Hg. specialize (Hs id). rewrite Hg in Hs. inversion Hs; subst. eauto. Qed.

Lemma status_step_wf s s' : status_step s s' → wf s → wf s'.
Proof.
  intros Hst [Hk Hg Hi Hp]. pose proof Hst as (_ & Hbg & Hbi & Hpr).
  assert (∀ (P : Grant.t → Prop), (∀ g g', g_evolves g g' → P g ↔ P g') → ∀ id,
    (∃ g, grants s !! id = Some g ∧ P g) ↔ ∃ g, grants s' !! id = Some g ∧ P g) as Htr.
  { intros P HP id. split.
    - intros (g & Hs & ?). destruct (status_step_evolves _ _ Hst id g Hs) as (g' & ? & He).
      exists g'. split; [done|]. by apply (HP g g').
    - intros (g' & Hs & ?). destruct (status_step_lookup _ _ id g' Hst Hs) as (g & ? & He).
      exists g. split; [done|]. by apply (HP g g'). }
  split.
  - intros id g' Hg'. destruct (status_step_lookup _ _ id g' Hst Hg') as (g & Hl & (-> & _)%g_evolves_fields). eauto.
  - intros k id. rewrite Hbg, Hg. apply Htr. by intros g g' (_ & -> & _)%g_evolves_fields.
  - intros k id. rewrite Hbi, Hi. apply Htr. by intros g g' (_ & _ & _ & -> & _)%g_evolves_fields.
  - intros k id. rewrite Hpr, Hp. apply Htr. unfold delegated_from.
    by intros g g' (_ & _ & _ & _ & -> & _)%g_evolves_fields.
Qed.

(** The store with more events on its bus. *)
Definition emit_all (es : list Event) (s : GrantStore) : GrantStore :=
  mkStore (grants s) (by_grantee s) (by_issuer s) (provenance s) (narrow_in_progress s) (sqlite s) (event_bus s ++ es).

Lemma for_each_emit {A} (f : A → Event) l s :
  for_each (λ x, emit (f x)) l s = (Ok tt, emit_all (f <$> l) s).
Proof.
  revert s. induction l as [|x l IH]; intros s; simpl.
  - unfold emit_all. rewrite app_nil_r. by destruct s.
  - run. simpl. rewrite IH. unfold emit_all. simpl. by rewrite <- app_assoc.
Qed.

(** A step that leaves the grants and the indexes alone. *)
Lemma status_step_same s s' :
  grants s' = grants s → by_grantee s' = by_grantee s → by_issuer s' = by_issuer s →
  provenance s' = provenance s → status_step s s'.
Proof.
  intros Hg ? ? ?. split; [|done]. intros id. rewrite Hg. destruct (grants s !! id); by constructor.
Qed.

Lemma lift_run {A} (r : Result A) s : (lift r : ST A) s = (r, s).
Proof. done. Qed.

(** The steps that only read. *)
Ltac pure_steps :=
  repeat match goal with
  | H : lift _ ?s = (_, _) |- _ => rewrite lift_run in H; injection H as ? <-
  | H : get_state _ = (_, _) |- _ => injection H as <- <-
  | H : fail_if _ _ _ = (_, _) |- _ => unfold fail_if in H
  end.

(** ** Operations that only move statuses *)

Lemma keeps_db {A} (m : M Sqlite CapGrantError.t A) : keeps status_step (db m).
Proof. intros s. unfold db. destruct (m (sqlite s)). by apply status_step_same. Qed.

Lemma keeps_emit e : keeps status_step (emit e).
Proof. intros s. by apply status_step_same. Qed.

Lemma keeps_alter st id : keeps status_step (modify (E := CapGrantError.t) (set_grants (alter (flip st) id))).
Proof.
  intros s. split; [|done]. intros k. simpl. destruct (decide (k = id)) as [->|Hne].
  - rewrite lookup_alter_eq. destruct (grants s !! id); constructor. apply flip_evolves.
  - rewrite lookup_alter_ne by done. destruct (grants s !! k); by constructor.
Qed.

Lemma alter_set_status_flip st id (gs : gmap string Grant.t) g :
  gs !! id = Some g → Grant.is_active g = true → alter (Grant.set_status st) id gs = alter (flip st) id gs.
Proof.
  intros Hg Ha. apply map_eq. intros k. destruct (decide (k = id)) as [->|Hne].
  - rewrite !lookup_alter_eq, Hg. simpl. unfold flip. by rewrite Ha.
  - by rewrite !lookup_alter_ne.
Qed.

#[export] Hint Resolve status_step_preorder evolves_preorder keeps_db keeps_emit keeps_alter : keeps.

Lemma set_grants_ext f f' s : f (grants s) = f' (grants s) → set_grants f s = set_grants f' s.
Proof. unfold set_grants. by intros ->. Qed.

Lemma set_grants_id f s : f (grants s) = grants s → set_grants f s = s.
Proof. unfold set_grants. intros ->. by destruct s. Qed.

Lemma alter_flip_idle st id (gs : gmap string Grant.t) :
  (∀ g, gs !! id = Some g → Grant.is_active g = false) → alter (flip st) id gs = gs.
Proof.
  intros Hi. apply map_eq. intros k. destruct (decide (k = id)) as [->|]; [|by rewrite lookup_alter_ne].
  rewrite lookup_alter_eq. destruct (gs !! id) as [g|] eqn:Hg; [|done]. simpl. unfold flip. by rewrite (Hi g).
Qed.

(** The grant with [id], when it is active. *)
Definition active_in (gs : gmap string Grant.t) (id : string) : option Grant.t :=
  match gs !! id with Some g => if Grant.is_active g then Some g else None | None => None end.

Definition active_at (s : GrantStore) (id : string) : option Grant.t := active_in (grants s) id.

(** [flip_active] is [flip] on one id, and says whether it moved. *)
Lemma flip_active_run st id s :
  flip_active st id s = (Ok (active_at s id), set_grants (alter (flip st) id) s).
Proof.
  unfold flip_active, active_at, active_in. run. destruct (grants s !! id) as [g|] eqn:Hg.
  - destruct (Grant.is_active g) eqn:Ha.
    + apply (f_equal (pair _)), (set_grants_ext (alter (Grant.set_status st) id)).
      by eapply alter_set_status_flip.
    + apply (f_equal (pair _)). symmetry. apply set_grants_id, alter_flip_idle. congruence.
  - apply (f_equal (pair _)). symmetry. apply set_grants_id, alter_flip_idle. congruence.
Qed.

Lemma keeps_flip_active st id : keeps status_step (flip_active st id).
Proof. intros s. rewrite flip_active_run. apply (keeps_alter st id s). Qed.

#[export] Hint Resolve keeps_flip_active : keeps.

Lemma status_step_retire st id s g :
  grants s !! id = Some g → Grant.is_active g = true →
  status_step s (set_grants (alter (Grant.set_status st) id) s).
Proof.
  intros Hg Ha. rewrite (set_grants_ext _ (alter (flip st) id)); [apply (keeps_alter st id s)|].
  by eapply alter_set_status_flip.
Qed.

(** Nothing changed but the database calls made. *)
Definition unchanged (s s' : GrantStore) : Prop :=
  s' = set_sqlite (mkSqlite (rows (sqlite s)) (faults (sqlite s'))) s.

#[export] Instance unchanged_preorder : PreOrder unchanged.
Proof.
  split; unfold unchanged, set_sqlite.
  - intros s. destruct s as [? ? ? ? ? [? ?] ?]. done.
  - intros s1 s2 s3 -> H2. rewrite H2. done.
Qed.

Lemma unchanged_fields s s' :
  unchanged s s' → grants s' = grants s ∧ by_grantee s' = by_grantee s ∧ by_issuer s' = by_issuer s ∧
    provenance s' = provenance s ∧ narrow_in_progress s' = narrow_in_progress s ∧
    rows (sqlite s') = rows (sqlite s) ∧ event_bus s' = event_bus s.
Proof. intros ->. done. Qed.

Lemma unchanged_status_step s s' : unchanged s s' → status_step s s'.
Proof. intros (? & ? & ? & ? & _)%unchanged_fields. by apply status_step_same. Qed.

(** A database call that fails leaves everything as it was. *)
Lemma db_call_cases q : ∃ fs, db_call q = (Ok tt, mkSqlite (rows q) fs) ∨ db_call q = (Err CapGrantError.Db, mkSqlite (rows q) fs).
Proof. unfold db_call. destruct q as [rs [|[] fs]]; simpl; eauto. Qed.

(** ** Listings *)

Section listings.
Context `{HashOrder, !HashOrderLaws}.

(** An exact index lists exactly the stored grants it is exact for. *)
Lemma elem_listing (s : GrantStore) (idx : Index) (P : Grant.t → Prop) key g :
  wf s → (∀ id, id ∈ ids_of key idx ↔ ∃ g, grants s !! id = Some g ∧ P g) →
  g ∈ (match idx !! key with Some ids => omap (λ id, grants s !! id) (iter_ids ids) | None => [] end) ↔
  grants s !! Grant.id g = Some g ∧ P g.
Proof.
  intros Hwf Hidx. unfold ids_of in Hidx. destruct (idx !! key) as [ids|]; simpl in Hidx.
  - rewrite list_elem_of_omap. setoid_rewrite iter_ids_perm. setoid_rewrite elem_of_elements. split.
    + intros (id & Hin & Hg). rewrite (wf_key s Hwf id g Hg). split; [done|].
      apply Hidx in Hin as (g' & Hg' & ?). congruence.
    + intros [Hg HP]. exists (Grant.id g). split; [apply Hidx; eauto | done].
  - split; [by intros ?%elem_of_nil|]. intros [Hg HP].
    assert (Grant.id g ∈ (∅ : gset string)) by (apply Hidx; eauto). set_solver.
Qed.

Lemma elem_list_by_grantee s key g :
  wf s → g ∈ list_by_grantee key s ↔ grants s !! Grant.id g = Some g ∧ Grant.grantee g = key.
Proof.
  intros Hwf. apply (elem_listing s (by_grantee s) (λ g, Grant.grantee g = key)); [done|].
  intros id. apply (wf_grantee s Hwf).
Qed.

Lemma elem_list_by_issuer_parent s key g :
  wf s → g ∈ list_by_issuer_parent key s ↔
    grants s !! Grant.id g = Some g ∧ Grant.issuer g = GrantIssuer.Parent key.
Proof.
  intros Hwf. apply (elem_listing s (by_issuer s) (λ g, Grant.issuer g = GrantIssuer.Parent key)); [done|].
  intros id. apply (wf_issuer s Hwf).
Qed.
End listings.

Section ops.
Context `{Chrono, Codec, HashOrder, V : SubsetValidator}.

Lemma db_upsert_cases g s r s1 :
  db (upsert_grant g) s = (r, s1) →
  (∃ e, r = Err e ∧ unchanged s s1) ∨
  (r = Ok tt ∧ ∃ fs, s1 = set_sqlite (mkSqlite (execute_upsert_grant g (rows (sqlite s))) fs) s).
Proof.
  unfold db, upsert_grant. run. destruct (db_call_cases (sqlite s)) as [fs [-> | ->]]; intros [= <- <-].
  - right. eauto.
  - left. eexists. split; [done|]. done.
Qed.

Lemma db_update_status_cases id st s r s1 :
  db (update_status id st) s = (r, s1) →
  (∃ e, r = Err e ∧ unchanged s s1) ∨
  (r = Ok tt ∧ is_Some (rows (sqlite s) !! id) ∧
   ∃ fs, s1 = set_sqlite (mkSqlite (execute_update_status st (rows (sqlite s)) id) fs) s).
Proof.
  unfold db, update_status. run. destruct (db_call_cases (sqlite s)) as [fs [-> | ->]]; simpl.
  - destruct (rows (sqlite s) !! id) eqn:Hr; intros [= <- <-]; [right; eauto | left; eauto].
    eexists. split; [done|]. done.
  - intros [= <- <-]. left. eexists. split; [done|]. done.
Qed.

(** What a completed insert did in memory, and in all. *)
Record installs_mem (g : Grant.t) (s s' : GrantStore) : Prop := {
  ins_grants : grants s' = <[Grant.id g := g]> (grants s);
  ins_grantee : by_grantee s' = by_grantee (write_in_memory g s);
  ins_issuer : by_issuer s' = by_issuer (write_in_memory g s);
  ins_provenance : provenance s' = provenance (write_in_memory g s)
}.

Record installs (g : Grant.t) (s s' : GrantStore) : Prop := {
  ins_mem : installs_mem g s s';
  ins_narrow : narrow_in_progress s' = narrow_in_progress s;
  ins_rows : rows (sqlite s') = execute_upsert_grant g (rows (sqlite s));
  ins_events : event_bus s' = event_bus s ++ [grant_issued_event g]
}.

(** An insert installs its grant or, on any error, changes nothing. *)
Lemma insert_dynamic_inner_cases g s r s' :
  insert_dynamic_inner g s = (r, s') →
  (∃ e, r = Err e ∧ unchanged s s') ∨
  (r = Ok (Grant.id g) ∧ installs g s s' ∧ Grant.grantee g ≠ "" ∧ Grant.capability g ≠ "" ∧
   Grant.id g ≠ "" ∧ is_static g = false ∧
   ∀ p, delegated_from g = Some p → is_Some (grants s !! p)).
Proof.
  unfold insert_dynamic_inner. run.
  destruct (String.eqb_spec (Grant.grantee g) ""); [intros [= <- <-]; left; eexists; by split|].
  destruct (String.eqb_spec (Grant.capability g) ""); [intros [= <- <-]; left; eexists; by split|].
  destruct (String.eqb_spec (Grant.id g) ""); [intros [= <- <-]; left; eexists; by split|].
  destruct (is_static g); [intros [= <- <-]; left; eexists; by split|].
  destruct (match delegated_from g with Some parent_id => bool_decide (grants s !! parent_id = None) | None => false end)
    eqn:Hp; [intros [= <- <-]; left; eexists; by split|].
  destruct (db (upsert_grant g) s) as [r1 s1] eqn:Hdb.
  apply db_upsert_cases in Hdb as [(e & -> & Hu)|(-> & fs & ->)]; intros [= <- <-]; [left; eauto|].
  right. split_and!; [done | by repeat split | done..|]. intros p Hd. rewrite Hd in Hp.
  apply bool_decide_eq_false in Hp. by apply not_eq_None_Some.
Qed.

Lemma insert_dynamic_cases g s r s' :
  insert_dynamic g s = (r, s') →
  (∃ e, r = Err e ∧ unchanged s s') ∨
  (r = Ok (Grant.id g) ∧ installs g s s' ∧ is_static g = false ∧
   ∀ p, delegated_from g = Some p → is_Some (grants s !! p) ∧ p ∉ narrow_in_progress s).
Proof.
  unfold insert_dynamic. run. destruct (delegated_from g) as [p|] eqn:Hd.
  - destruct (bool_decide (p ∈ narrow_in_progress s)) eqn:Hn; [intros [= <- <-]; left; eexists; by split|].
    destruct (bool_decide (grants s !! p = None)) eqn:Hp; [intros [= <- <-]; left; eexists; by split|].
    apply bool_decide_eq_false in Hn, Hp.
    intros [?|(-> & ? & ? & ? & ? & ? & _)]%insert_dynamic_inner_cases; [by left | right].
    split_and!; [done..|]. intros ? [= <-]. split; [by apply not_eq_None_Some | done].
  - intros [?|(-> & ? & ? & ? & ? & ? & _)]%insert_dynamic_inner_cases; [by left | right]. by split_and!.
Qed.

Lemma insert_cases g s r s' :
  insert g s = (r, s') →
  let g' := match grants s !! Grant.id g with
            | Some old => Grant.set_created_at (Grant.created_at old) g | None => g end in
  (∃ e, r = Err e ∧ unchanged s s') ∨
  (r = Ok (Grant.id g) ∧ installs g' s s' ∧ Grant.grantee g ≠ "" ∧ Grant.capability g ≠ "" ∧
   contains_char ":" (Grant.grantee g) = false ∧ contains_char ":" (Grant.capability g) = false).
Proof.
  unfold insert. run.
  destruct (String.eqb_spec (Grant.grantee g) ""); [intros [= <- <-]; left; eexists; by split|].
  destruct (String.eqb_spec (Grant.capability g) ""); [intros [= <- <-]; left; eexists; by split|].
  destruct (contains_char ":" (Grant.grantee g)); [intros [= <- <-]; left; eexists; by split|].
  destruct (contains_char ":" (Grant.capability g)); [intros [= <- <-]; left; eexists; by split|].
  set (g' := match grants s !! Grant.id g with
             | Some old => Grant.set_created_at (Grant.created_at old) g | None => g end).
  assert (Grant.id g' = Grant.id g) as Hid by (unfold g'; by destruct (grants s !! Grant.id g), g).
  destruct (db (upsert_grant g') s) as [r1 s1] eqn:Hdb.
  apply db_upsert_cases in Hdb as [(e & -> & Hu)|(-> & fs & ->)]; intros [= <- <-]; [left; eauto|].
  right. split_and!; [by rewrite Hid | by repeat split | done..].
Qed.
(** ** Every status operation is a status step *)

Lemma keeps_revoke_one id : keeps status_step (revoke_one id).
Proof. unfold revoke_one. keeps. Qed.

#[local] Hint Resolve keeps_revoke_one : keeps.

Lemma keeps_consume id f : keeps status_step (consume id f).
Proof.
  intros s. unfold consume. run. repeat (case_match; try done); simplify_eq/=; b2p.
  all: etrans; [by eapply status_step_retire|].
  all: match goal with H : db ?m ?s1 = (_, ?s2) |- _ => pose proof (keeps_db m s1) as Hdb; rewrite H in Hdb end.
  - etrans; [exact Hdb|]. apply (keeps_emit _ _).
  - exact Hdb.
Qed.

Lemma keeps_expire_ids ids : keeps status_step (expire_ids ids).
Proof. unfold expire_ids. keeps. Qed.

Lemma tick_status_step now s : status_step s (tick now s).
Proof. unfold tick. case_bool_decide; [done|]. apply (keeps_expire_ids _ s). Qed.

Lemma keeps_revoke_by_grantee k : keeps status_step (revoke_by_grantee k).
Proof. unfold revoke_by_grantee. keeps. Qed.

Lemma keeps_cascade_phases root why : keeps status_step (cascade_phases root why).
Proof. unfold cascade_phases, emit_revocations. keeps. Qed.

Lemma keeps_set_narrow f : keeps status_step (modify (E := CapGrantError.t) (set_narrow_in_progress f)).
Proof. intros s. by apply status_step_same. Qed.

Lemma keeps_narrow_guarded {A} id (m : ST A) : keeps status_step m → keeps status_step (narrow_guarded id m).
Proof.
  intros Hm s. unfold narrow_guarded. specialize (Hm s). destruct (m s) as [r s1]. simpl in *.
  etrans; [exact Hm|]. by apply status_step_same.
Qed.

#[local] Hint Resolve keeps_set_narrow keeps_narrow_guarded keeps_cascade_phases : keeps.

Lemma keeps_cascade_revoke root why : keeps status_step (cascade_revoke_with_reason root why).
Proof. unfold cascade_revoke_with_reason. keeps. Qed.

Lemma keeps_cascade_by_issuer parent : keeps status_step (cascade_by_issuer parent).
Proof. unfold cascade_by_issuer. keeps. Qed.

Lemma keeps_revoke_root why root : keeps status_step (revoke_root why root).
Proof.
  intros s. pose proof (keeps_cascade_revoke root why s) as Hs. unfold revoke_root.
  by destruct (cascade_revoke_with_reason root why s) as [[?|[]] ?].
Qed.

Lemma keeps_revoke_dynamic_for_grantee k : keeps status_step (revoke_dynamic_for_grantee k).
Proof. unfold revoke_dynamic_for_grantee. pose proof keeps_revoke_root. keeps. Qed.

(** ** Inserts *)

(** The grant is new, or replaces one with the same keys. *)
Definition fresh_or_same (g : Grant.t) (s : GrantStore) : Prop :=
  ∀ old, grants s !! Grant.id g = Some old → same_keys old g.

Lemma ids_of_insert k key id idx :
  ids_of k (index_insert key id idx) = if decide (k = key) then {[id]} ∪ ids_of k idx else ids_of k idx.
Proof.
  unfold ids_of, index_insert. case_decide as Hk.
  - subst. by rewrite lookup_insert_eq.
  - by rewrite lookup_insert_ne.
Qed.

(** Inserting [g] extends an exact index by [g]'s key and nothing else. *)
Lemma index_insert_exact (P : Grant.t → string → Prop) (gs : gmap string Grant.t) (idx idx' : Index) g :
  (∀ k id, id ∈ ids_of k idx ↔ ∃ g, gs !! id = Some g ∧ P g k) →
  (∀ k old, gs !! Grant.id g = Some old → P old k ↔ P g k) →
  (∀ k id, id ∈ ids_of k idx' ↔ id ∈ ids_of k idx ∨ (id = Grant.id g ∧ P g k)) →
  ∀ k id, id ∈ ids_of k idx' ↔ ∃ g', <[Grant.id g := g]> gs !! id = Some g' ∧ P g' k.
Proof.
  intros Hidx Hold Hidx' k id. rewrite Hidx', Hidx. destruct (decide (id = Grant.id g)) as [->|Hne].
  - rewrite lookup_insert_eq. split.
    + intros [(old & Ho & ?)|[_ ?]]; exists g; split; try done. by apply (Hold k old).
    + intros (? & [= <-] & ?). by right.
  - rewrite lookup_insert_ne by done. naive_solver.
Qed.

Lemma installs_wf g s s' : fresh_or_same g s → installs_mem g s s' → wf s → wf s'.
Proof.
  intros Hf [Hg Hbg Hbi Hpr] [Wk Wg Wi Wp]. split.
  - intros id g'. rewrite Hg. destruct (decide (id = Grant.id g)) as [->|?].
    + rewrite lookup_insert_eq. by intros [= <-].
    + rewrite lookup_insert_ne by done. apply Wk.
  - rewrite Hg, Hbg. apply (index_insert_exact (λ g k, Grant.grantee g = k) _ _ _ _ Wg).
    + intros k old Ho. by destruct (Hf old Ho) as (-> & _).
    + intros k id. simpl. rewrite ids_of_insert. case_decide; set_solver.
  - rewrite Hg, Hbi. apply (index_insert_exact (λ g k, Grant.issuer g = GrantIssuer.Parent k) _ _ _ _ Wi).
    + intros k old Ho. by destruct (Hf old Ho) as (_ & -> & _).
    + intros k id. simpl. destruct (Grant.issuer g); try (split; [by left | by intros [?|[_ ?]]]).
      rewrite ids_of_insert. case_decide; set_solver.
  - rewrite Hg, Hpr. apply (index_insert_exact (λ g k, delegated_from g = Some k) _ _ _ _ Wp).
    + intros k old Ho. destruct (Hf old Ho) as (_ & _ & He). unfold delegated_from. by rewrite He.
    + intros k id. simpl. unfold delegated_from. destruct (Grant.provenance g); try (split; [by left | by intros [?|[_ ?]]]).
      rewrite ids_of_insert. case_decide; set_solver.
Qed.

Lemma installs_evolves g s s' : grants s !! Grant.id g = None → installs_mem g s s' → evolves s s'.
Proof.
  intros Hn [Hg _ _ _] id g0 Hg0. exists g0. split; [|done]. rewrite Hg, lookup_insert_ne; congruence.
Qed.
(** ** Narrowing and delegating *)

(** What a successful delegation did. *)
Lemma delegate_grant_Ok now_check now uuid pid child draft caller s id s' :
  delegate_grant now_check now uuid pid child draft caller s = (Ok id, s') →
  ∃ parent s1,
    let g := delegated_grant now uuid child caller parent draft in
    delegate_check_ids pid child caller = Ok tt ∧
    grants s !! pid = Some parent ∧ Grant.is_active parent = true ∧ Grant.grantee parent = caller ∧
    Grant.unexpired now_check parent = true ∧ (pid ∉ narrow_in_progress s) ∧
    delegate_check_params (GrantDraft.params draft) = Ok tt ∧ validate parent draft = Ok tt ∧
    delegate_check_ttl (Grant.ttl parent) (GrantDraft.ttl draft) = Ok tt ∧
    id = uuid ∧ installs g s s1 ∧
    s' = (emit (grant_delegated_event uuid (Grant.id parent) caller child (Grant.capability parent)
                  (GrantDraft.params draft)) s1).2.
Proof.
  unfold delegate_grant. intros Hrun. steps.
  pure_steps.
  repeat match goal with H : guard_err _ _ = Ok _ |- _ => apply guard_err_Ok in H end. b2p.
  match goal with H : delegate_parent _ _ _ _ = Ok ?p |- _ => rename p into parent; rename H into Hparent end.
  unfold delegate_parent in Hparent. destruct (grants s !! pid) as [p|] eqn:Hp; [|done].
  destruct (Grant.is_active p && String.eqb (Grant.grantee p) caller && Grant.unexpired now_check p) eqn:Hok; [|done].
  injection Hparent as ->. b2p.
  match goal with H : insert_dynamic_inner _ _ = (Ok _, ?s2) |- _ =>
    rename s2 into s1; apply insert_dynamic_inner_cases in H as [(? & ? & _)|([= ->] & ? & _)]; [done|] end.
  match goal with H : emit _ _ = _ |- _ => injection H as _ <- end. injection Hrun as <- <-.
  exists parent, s1. split_and!; try done; by repeat match goal with u : unit |- _ => destruct u end.
Qed.

(** A failed delegation installed nothing. *)
Lemma delegate_grant_Err now_check now uuid pid child draft caller s e s' :
  delegate_grant now_check now uuid pid child draft caller s = (Err e, s') → unchanged s s'.
Proof.
  unfold delegate_grant. intros Hrun. err_steps; pure_steps; try done.
  - apply insert_dynamic_inner_cases in Hrun as [(? & _ & ?)|(? & _)]; done.
Qed.
(** What a successful narrowing did: the cascade, then the insert. *)
Lemma narrow_Ok now uuid gid ps caller s id s' :
  narrow now uuid gid ps caller s = (Ok id, s') →
  ∃ existing res s1 s2,
    let g := narrowed_grant now uuid existing ps gid in
    narrow_check_caller caller = Ok tt ∧
    grants s !! gid = Some existing ∧ Grant.is_active existing = true ∧ Grant.grantee existing = caller ∧
    size_of ps ≤ MAX_PARAMS_ENTRIES ∧ params_bytes ps ≤ MAX_PARAMS_BYTES ∧
    validate existing (GrantDraft.mk (Grant.capability existing) ps (Grant.ttl existing)) = Ok tt ∧
    cascade_revoke_with_reason gid "narrow" s = (Ok res, s1) ∧
    id = uuid ∧ installs g s1 s2 ∧
    s' = (emit (grant_narrowed_event uuid (Grant.params existing) ps caller) s2).2.
Proof.
  unfold narrow. intros Hrun. steps. pure_steps.
  repeat match goal with H : guard_err _ _ = Ok _ |- _ => apply guard_err_Ok in H end. b2p.
  match goal with H : match grants s !! gid with _ => _ end = Ok ?p |- _ => rename p into existing; rename H into Hex end.
  destruct (grants s !! gid) as [p|] eqn:Hp; [|done]. destruct (Grant.is_active p) eqn:Ha; [|done].
  injection Hex as ->.
  match goal with H : insert_dynamic _ ?s1 = (Ok _, ?s2), Hc : cascade_revoke_with_reason _ _ _ = (Ok ?res, _) |- _ =>
    exists existing, res, s1, s2; apply insert_dynamic_cases in H as [(? & ? & _)|([= ->] & ? & _)]; [done|] end.
  match goal with H : emit _ _ = _ |- _ => injection H as _ <- end. injection Hrun as <- <-.
  repeat match goal with H : (_ <? _) = false |- _ => apply Z.ltb_ge in H end.
  split_and!; try done; by repeat match goal with u : unit |- _ => destruct u end.
Qed.

(** A failed narrowing may have revoked, but added nothing. *)
Lemma narrow_Err now uuid gid ps caller s e s' :
  narrow now uuid gid ps caller s = (Err e, s') → status_step s s'.
Proof.
  unfold narrow. intros Hrun. err_steps; pure_steps; try done.
  all: repeat match goal with H : cascade_revoke_with_reason ?r ?w ?s0 = (_, _) |- _ =>
    let K := fresh in pose proof (keeps_cascade_revoke r w s0) as K; rewrite H in K; simpl in K; clear H end;
    try done.
  etrans; [done|].
  apply insert_dynamic_cases in Hrun as [(? & _ & ?)|(? & _)]; [by apply unchanged_status_step | done].
Qed.

(** ** Applying a preset *)

Lemma flip_if_active gs id : revoke_if_active gs id = alter (flip GrantStatus.Revoked) id gs.
Proof. done. Qed.

Definition flip_all (st : GrantStatus.t) (ids : list string) (gs : gmap string Grant.t) : gmap string Grant.t :=
  foldl (λ gs id, alter (flip st) id gs) gs ids.

Lemma flip_flip st g : st ≠ GrantStatus.Active → flip st (flip st g) = flip st g.
Proof.
  intros Hst. unfold flip at 2 3. destruct (Grant.is_active g) eqn:Ha; unfold flip; [|by rewrite Ha].
  unfold Grant.is_active. destruct g. simpl. by rewrite bool_decide_eq_false_2.
Qed.

Lemma lookup_flip_all st ids gs id :
  st ≠ GrantStatus.Active →
  flip_all st ids gs !! id = if decide (id ∈ ids) then flip st <$> gs !! id else gs !! id.
Proof.
  intros Hst. revert gs. induction ids as [|i ids IH]; intros gs; simpl.
  { done. }
  rewrite IH. clear IH. destruct (decide (i = id)) as [->|Hne].
  - rewrite lookup_alter_eq. rewrite (decide_True (P := id ∈ id :: ids)) by left.
    case_decide; [|done]. destruct (gs !! id); simpl; [|done]. by rewrite flip_flip.
  - rewrite lookup_alter_ne by done. repeat case_decide; try done; set_solver.
Qed.

(** Grants installed one after another. *)
Lemma foldl_install_lookup created s id :
  grants (foldl install s created) !! id =
    match last (List.filter (λ g, String.eqb (Grant.id g) id) created) with
    | Some g => Some g
    | None => grants s !! id
    end.
Proof.
  revert s. induction created as [|g created IH] using rev_ind; intros s; [done|].
  rewrite foldl_app, List.filter_app. simpl. destruct (String.eqb_spec (Grant.id g) id) as [->|Hne].
  - rewrite lookup_insert_eq. by rewrite last_snoc.
  - rewrite app_nil_r, lookup_insert_ne by done. apply IH.
Qed.

Lemma install_installs s g : installs_mem g s (install s g).
Proof. done. Qed.

Lemma foldl_install_created created s g :
  NoDup (Grant.id <$> created) → g ∈ created → grants (foldl install s created) !! Grant.id g = Some g.
Proof.
  revert s. induction created as [|g0 created IH]; intros s Hnd Hin; [by apply elem_of_nil in Hin|].
  apply NoDup_cons in Hnd as [Hni Hnd]. apply elem_of_cons in Hin as [->|Hin]; simpl; [|by apply IH].
  rewrite foldl_install_lookup.
  assert (List.filter (λ g, String.eqb (Grant.id g) (Grant.id g0)) created = []) as ->.
  { destruct (List.filter _ created) as [|g1 l] eqn:Hf; [done|]. exfalso. apply Hni.
    assert (In g1 (List.filter (λ g, String.eqb (Grant.id g) (Grant.id g0)) created)) as Hin by (rewrite Hf; by left).
    apply filter_In in Hin as [Hin Heq%String.eqb_eq]. apply list_elem_of_fmap. exists g1.
    split; [done|]. by apply list_elem_of_In. }
  simpl. by rewrite lookup_insert_eq.
Qed.

(** Distinct new grants: each install is of a fresh id. *)
Definition all_fresh (created : list Grant.t) (s : GrantStore) : Prop :=
  NoDup (Grant.id <$> created) ∧ ∀ g, g ∈ created → grants s !! Grant.id g = None.

Lemma foldl_install_spec created s :
  all_fresh created s →
  evolves s (foldl install s created) ∧ (wf s → wf (foldl install s created)) ∧
  (∀ id, grants (foldl install s created) !! id ≠ grants s !! id →
     ∃ g, g ∈ created ∧ Grant.id g = id ∧ grants (foldl install s created) !! id = Some g).
Proof.
  revert s. induction created as [|g created IH]; intros s [Hnd Hfr]; simpl; [done|].
  apply NoDup_cons in Hnd as [Hni Hnd].
  assert (grants s !! Grant.id g = None) as Hg by (apply Hfr; left).
  destruct (IH (install s g)) as (He & Hw & Hd).
  { split; [done|]. intros g' Hg'. simpl. rewrite lookup_insert_ne; [apply Hfr; by right|].
    intros Heq. apply Hni. rewrite Heq. by apply list_elem_of_fmap_2. }
  split_and!.
  - etrans; [|exact He]. by eapply installs_evolves, install_installs.
  - intros Hs. apply Hw. eapply installs_wf; [|apply install_installs|done]. intros old. congruence.
  - intros id Hne. destruct (decide (grants (foldl install (install s g) created) !! id = grants (install s g) !! id)) as [Heq|Hne'].
    + rewrite Heq in Hne |- *. simpl in Hne |- *. destruct (decide (id = Grant.id g)) as [->|?].
      * exists g. rewrite lookup_insert_eq. split_and!; [left|done..].
      * by rewrite lookup_insert_ne in Hne.
    + destruct (Hd id Hne') as (g' & ? & ? & ?). exists g'. split_and!; [by right|done..].
Qed.

Lemma foldl_install_frame created s :
  sqlite (foldl install s created) = sqlite s ∧ event_bus (foldl install s created) = event_bus s ∧
  narrow_in_progress (foldl install s created) = narrow_in_progress s.
Proof. revert s. induction created as [|g created IH]; intros s; simpl; [done|]. by destruct (IH (install s g)) as (-> & -> & ->). Qed.

Definition revocation_ids (k : string) (s : GrantStore) : list string :=
  (λ gc : Grant.t * Z, Grant.id gc.1) <$> preset_revocations k s.

Definition preset_rows (k : string) (created : list Grant.t) (s : GrantStore) : gmap string Row.t :=
  foldl (λ rs g, execute_upsert_grant g rs)
    (foldl (execute_update_status GrantStatus.Revoked) (rows (sqlite s)) (revocation_ids k s)) created.

Definition preset_events (k : string) (created : list Grant.t) (s : GrantStore) : list Event :=
  ((λ gc : Grant.t * Z, grant_revoked_event (Grant.id gc.1) (Grant.grantee gc.1) (Grant.capability gc.1)
      ("preset-apply:" +:+ k) gc.2) <$> preset_revocations k s) ++ (grant_issued_event <$> created).

(** The outcome of a preset apply: a failure changes nothing; a success
    retires the subtrees and installs the new grants, in one transaction. *)
Lemma apply_preset_cases k created s r s' :
  apply_preset_atomic_for_grantee k created s = (r, s') →
  (∃ e, r = Err e ∧ unchanged s s') ∨
  (r = Ok (revocation_ids k s, Grant.id <$> created) ∧
   Forall (λ g, validate_dynamic_grant_shape g = Ok tt) created ∧
   ∃ fs, s' = emit_all (preset_events k created s)
     (foldl install (set_grants (flip_all GrantStatus.Revoked (revocation_ids k s))
        (set_sqlite (mkSqlite (preset_rows k created s) fs) s)) created)).
Proof.
  unfold apply_preset_atomic_for_grantee. run.
  destruct (try_for validate_dynamic_grant_shape created) as [[]|e] eqn:Hshape;
    [|intros [= <- <-]; left; by eexists].
  apply try_for_Ok in Hshape. unfold db at 1, apply_preset_atomic. run.
  destruct (db_call_cases (sqlite s)) as [fs [-> | ->]]; cbn beta iota;
    [|intros [= <- <-]; left; by eexists].
  rewrite !for_each_emit. cbn beta iota. intros [= <- <-]. right.
  split_and!; [done..|]. exists fs. unfold emit_all, preset_events. simpl. by rewrite app_assoc.
Qed.
(** ** Runs of revocations *)

Lemma revoke_one_Ok id s o s' :
  revoke_one id s = (Ok o, s') →
  o = active_at s id ∧ grants s' = alter (flip GrantStatus.Revoked) id (grants s) ∧
  narrow_in_progress s' = narrow_in_progress s ∧ event_bus s' = event_bus s ∧
  rows (sqlite s') = match active_at s id with
                     | Some g => execute_update_status GrantStatus.Revoked (rows (sqlite s)) (Grant.id g)
                     | None => rows (sqlite s)
                     end.
Proof.
  unfold revoke_one. intros Hrun. apply M_bind_Ok in Hrun as (o' & s1 & Hflip & Hrun).
  rewrite flip_active_run in Hflip. injection Hflip as <- <-. destruct (active_at s id) as [g|] eqn:Ha.
  - apply M_bind_Ok in Hrun as ([] & s2 & Hdb & [= <- <-]).
    apply db_update_status_cases in Hdb as [(? & ? & _)|(_ & _ & fs & ->)]; [done|]. by split_and!.
  - injection Hrun as <- <-. by split_and!.
Qed.

(** What a loop that flips each key of a list collects. *)
Fixpoint retired {A B} (st : GrantStatus.t) (key : A → string) (mk : A → Grant.t → B) (l : list A) (gs : gmap string Grant.t) : list B :=
  match l with
  | [] => []
  | x :: l =>
      match active_in gs (key x) with
      | Some g => mk x g :: retired st key mk l (alter (flip st) (key x) gs)
      | None => retired st key mk l (alter (flip st) (key x) gs)
      end
  end.

Lemma collect_flip {A B} (st : GrantStatus.t) (key : A → string) (mk : A → Grant.t → B) (f : A → ST (option B)) l s ys s' :
  (∀ x s o s', f x s = (Ok o, s') →
     grants s' = alter (flip st) (key x) (grants s) ∧ o = mk x <$> active_at s (key x)) →
  collect f l s = (Ok ys, s') →
  grants s' = flip_all st (key <$> l) (grants s) ∧ ys = retired st key mk l (grants s).
Proof.
  intros Hf. revert s ys. induction l as [|x l IH]; intros s ys Hrun; simpl in *.
  { by injection Hrun as <- <-. }
  apply M_bind_Ok in Hrun as (o & s1 & Hx & Hrun). apply M_bind_Ok in Hrun as (ys' & s2 & Hl & Hrun).
  injection Hrun as <- <-. destruct (Hf _ _ _ _ Hx) as [Hg ->]. destruct (IH _ _ Hl) as [Hg' ->].
  rewrite Hg', Hg. split; [done|]. unfold active_at. by destruct (active_in (grants s) (key x)).
Qed.

(** Flipping every id of a list touches the grants only. *)
Lemma collect_flip_run st ids s :
  collect (flip_active st) ids s =
    (Ok (retired st (λ id, id) (λ _ g, g) ids (grants s)), set_grants (flip_all st ids) s).
Proof.
  revert s. induction ids as [|id ids IH]; intros s; simpl.
  { by destruct s. }
  unfold mbind at 1, M_bind at 1. rewrite flip_active_run. cbn beta iota.
  unfold mbind at 1, M_bind at 1. rewrite IH. cbn beta iota.
  unfold active_at. simpl. by destruct (active_in (grants s) id).
Qed.

Lemma active_in_flip st gs id id' :
  st ≠ GrantStatus.Active →
  active_in (alter (flip st) id gs) id' = if decide (id = id') then None else active_in gs id'.
Proof.
  intros Hst. unfold active_in. case_decide as Hd.
  - subst. rewrite lookup_alter_eq. destruct (gs !! id') as [g|]; simpl; [|done].
    unfold flip. destruct (Grant.is_active g) eqn:Ha; [|by rewrite Ha].
    unfold Grant.is_active. destruct g. simpl. by rewrite bool_decide_eq_false_2.
  - by rewrite lookup_alter_ne.
Qed.

(** The ids a run revokes: the active ones among its keys, each once. *)
Lemma retired_ids {A B} st (key : A → string) (mk : A → Grant.t → B) (id_of : B → string) l gs :
  st ≠ GrantStatus.Active →
  (∀ x g, active_in gs (key x) = Some g → id_of (mk x g) = key x) →
  (∀ id, id ∈ (id_of <$> retired st key mk l gs) ↔ id ∈ (key <$> l) ∧ is_Some (active_in gs id)) ∧
  NoDup (id_of <$> retired st key mk l gs).
Proof.
  intros Hst. revert gs. induction l as [|x l IH]; intros gs Hid; simpl.
  { split; [|constructor]. intros id. rewrite elem_of_nil. tauto. }
  destruct (IH (alter (flip st) (key x) gs)) as [IH1 IH2].
  { intros y g. rewrite active_in_flip by done. case_decide; [done | apply Hid]. }
  assert (∀ id, id ∈ (id_of <$> retired st key mk l (alter (flip st) (key x) gs)) ↔
    id ≠ key x ∧ id ∈ (key <$> l) ∧ is_Some (active_in gs id)) as IH1'.
  { intros id. rewrite IH1, active_in_flip by done. case_decide.
    - split; [intros [_ [? ?]]; done | intros [? _]; congruence].
    - naive_solver. }
  destruct (active_in gs (key x)) as [g|] eqn:Ha; simpl.
  - rewrite (Hid x g Ha). split.
    + intros id. rewrite !elem_of_cons, IH1'. destruct (decide (id = key x)) as [->|]; [|naive_solver].
      split; [|by left]. intros _. split; [by left | by exists g].
    + apply NoDup_cons. split; [|done]. rewrite IH1'. tauto.
  - split; [|done]. intros id. rewrite elem_of_cons, IH1'. destruct (decide (id = key x)) as [->|]; [|naive_solver].
    rewrite Ha. split; [tauto | intros [_ [? ?]]; done].
Qed.

(** ** Runs without database errors *)

Lemma healthy_same s s' : grants s' = grants s → sqlite s' = sqlite s → healthy s → healthy s'.
Proof. unfold healthy. by intros -> ->. Qed.

Lemma healthy_emit e : total healthy (emit e).
Proof. intros s Hs. eexists _, _. split; [done|]. by eapply healthy_same. Qed.

Lemma healthy_flip_active st id : total healthy (flip_active st id).
Proof.
  intros s (Hf & Hk & Hr). rewrite flip_active_run. eexists _, _. split; [done|].
  split_and!; [done|..]; simpl.
  - intros k g. rewrite lookup_alter. case_decide; subst; [|apply Hk].
    destruct (grants s !! k) as [g0|] eqn:Hg0; [|done]. intros [= <-].
    rewrite <- (Hk k g0 Hg0). unfold flip. case_match; [by destruct g0 | done].
  - intros k. rewrite lookup_alter. case_decide; subst; rewrite ?fmap_is_Some; apply Hr.
Qed.

Lemma healthy_update_status id st s :
  healthy s → is_Some (grants s !! id) → ∃ s', db (update_status id st) s = (Ok tt, s') ∧ healthy s' ∧
    grants s' = grants s.
Proof.
  intros (Hf & Hk & Hr) Hg. unfold db, update_status. run. unfold db_call. rewrite Hf.
  destruct (Hr id Hg) as [r Hrow]. rewrite Hrow. eexists. split; [done|].
  split; [|done]. split_and!; [done..|]. simpl. intros k Hk'. unfold execute_update_status.
  rewrite lookup_alter. case_decide; [rewrite fmap_is_Some|]; by apply Hr.
Qed.

Lemma healthy_revoke_one id : total healthy (revoke_one id).
Proof.
  intros s Hs. unfold revoke_one. destruct (healthy_flip_active GrantStatus.Revoked id s Hs) as (o & s1 & Hrun & Hs1).
  unfold mbind at 1, M_bind at 1. rewrite Hrun. rewrite flip_active_run in Hrun. injection Hrun as <- <-.
  destruct (active_at s id) as [g|] eqn:Ha; [|by eexists _, _].
  destruct (healthy_update_status (Grant.id g) GrantStatus.Revoked _ Hs1) as (s2 & Hdb & Hs2 & _).
  - unfold active_at, active_in in Ha. destruct (grants s !! id) as [g'|] eqn:Hg; [|done].
    destruct (Grant.is_active g'); [|done]. injection Ha as ->. destruct Hs as (_ & Hk & _). rewrite (Hk id g Hg).
    simpl. rewrite lookup_alter_eq, Hg. by eexists.
  - run. rewrite Hdb. by eexists _, _.
Qed.
End ops.
