(* ===== verification/StoreProps.v ===== *)
(** * What the grant store guarantees

    The store as a transition system over its public operations, the
    invariants of every reachable state, and the properties of delegation,
    narrowing and expiry. *)
From S2P Require Import Prelude RustStr McpPatterns GrantData Subset Cascade Events GrantSqlite GrantStore StoreFacts.
Open Scope string_scope.
Open Scope list_scope.
Open Scope Z_scope.

(** ** The transition system *)

(** A call of a public operation, with the instants and UUIDs it draws. *)
Inductive op :=
| Insert (g : Grant.t)
| InsertDynamic (g : Grant.t)
| Consume (id function : string)
| ExpireIds (ids : list string)
| Tick (now : Z)
| RevokeByGrantee (grantee : string)
| CascadeRevoke (root : string)
| CascadeByIssuer (parent : string)
| RevokeDynamic (grantee : string)
| ApplyPreset (grantee : string) (created : list Grant.t)
| Narrow (now : Z) (uuid id : string) (params : list CapParam.t) (caller : string)
| Delegate (now_check now : Z) (uuid parent child : string) (draft : GrantDraft.t) (caller : string).

Section system.
Context `{Chrono, Codec, HashOrder, V : SubsetValidator}.

(** The state an operation leaves, whatever it returns. *)
Definition run_op (o : op) (s : GrantStore) : GrantStore :=
  match o with
  | Insert g => (insert g s).2
  | InsertDynamic g => (insert_dynamic g s).2
  | Consume id f => (consume id f s).2
  | ExpireIds ids => (expire_ids ids s).2
  | Tick now => tick now s
  | RevokeByGrantee k => (revoke_by_grantee k s).2
  | CascadeRevoke root => (cascade_revoke root s).2
  | CascadeByIssuer p => (cascade_by_issuer p s).2
  | RevokeDynamic k => (revoke_dynamic_for_grantee k s).2
  | ApplyPreset k created => (apply_preset_atomic_for_grantee k created s).2
  | Narrow now uuid id ps caller => (narrow now uuid id ps caller s).2
  | Delegate t now uuid p c d caller => (delegate_grant t now uuid p c d caller s).2
  end.

(** A static insert of a stored id keeps what it grants and to whom. *)
Definition same_grant (g : Grant.t) (s : GrantStore) : Prop :=
  fresh_or_same g s ∧ ∀ old, grants s !! Grant.id g = Some old →
    Grant.capability old = Grant.capability g ∧ Grant.params old = Grant.params g.

(** UUIDs are new; a static insert keeps what its id stands for; grants
    inserted directly are not delegations (only [delegate_grant] and [narrow]
    make those). *)
Definition admissible (o : op) (s : GrantStore) : Prop :=
  match o with
  | Insert g => same_grant g s ∧ delegated_from g = None
  | InsertDynamic g => grants s !! Grant.id g = None ∧ delegated_from g = None
  | ApplyPreset _ created => all_fresh created s ∧ ∀ g, g ∈ created → delegated_from g = None
  | Narrow _ uuid _ _ _ | Delegate _ _ uuid _ _ _ _ => grants s !! uuid = None
  | _ => True
  end.

(** Every operation but the static insert, which may reactivate its own id. *)
Definition dynamic (o : op) : Prop := match o with Insert _ => False | _ => True end.

Definition step (s s' : GrantStore) : Prop := ∃ o, admissible o s ∧ s' = run_op o s.
Definition dynamic_step (s s' : GrantStore) : Prop := ∃ o, admissible o s ∧ dynamic o ∧ s' = run_op o s.

(** The states reached from an empty store. *)
Definition reachable (s : GrantStore) : Prop := ∃ q, rtc step (new_store q) s.

(** ** Steps keep the invariant *)

Lemma emit_status_step e s : status_step s (emit e s).2.
Proof. apply (keeps_emit e s). Qed.

Lemma narrow_run now uuid id ps caller s :
  (status_step s (narrow now uuid id ps caller s).2) ∨
  ∃ existing s1 s2, grants s !! id = Some existing ∧ Grant.is_active existing = true ∧ status_step s s1 ∧
    validate existing (GrantDraft.mk (Grant.capability existing) ps (Grant.ttl existing)) = Ok tt ∧
    installs (narrowed_grant now uuid existing ps id) s1 s2 ∧
    status_step s2 (narrow now uuid id ps caller s).2.
Proof.
  destruct (narrow now uuid id ps caller s) as [[nid|e] s'] eqn:Hrun.
  - right. apply narrow_Ok in Hrun as (ex & res & s1 & s2 & _ & Hl & Ha & _ & _ & _ & Hv & Hc & _ & Hi & ->).
    pose proof (keeps_cascade_revoke id "narrow" s) as K. rewrite Hc in K.
    exists ex, s1, s2. split_and!; [exact Hl | exact Ha | exact K | exact Hv | exact Hi | apply emit_status_step].
  - left. by apply narrow_Err in Hrun.
Qed.

Lemma delegate_run t now uuid p c d caller s :
  status_step s (delegate_grant t now uuid p c d caller s).2 ∨
  ∃ parent s1, grants s !! p = Some parent ∧ validate parent d = Ok tt ∧
    installs (delegated_grant now uuid c caller parent d) s s1 ∧
    status_step s1 (delegate_grant t now uuid p c d caller s).2.
Proof.
  destruct (delegate_grant t now uuid p c d caller s) as [[nid|e] s'] eqn:Hrun.
  - right. apply delegate_grant_Ok in Hrun as (parent & s1 & _ & Hl & _ & _ & _ & _ & _ & Hv & _ & _ & Hi & ->).
    exists parent, s1. split_and!; [exact Hl | exact Hv | exact Hi | apply emit_status_step].
  - left. by apply delegate_grant_Err, unchanged_status_step in Hrun.
Qed.

(** A status operation, as an [op]. *)
Lemma status_op_step o s :
  match o with
  | Insert _ | InsertDynamic _ | ApplyPreset _ _ | Narrow _ _ _ _ _ | Delegate _ _ _ _ _ _ _ => True
  | _ => status_step s (run_op o s)
  end.
Proof.
  destruct o; try done; simpl.
  - apply (keeps_consume id function s).
  - apply (keeps_expire_ids ids s).
  - apply tick_status_step.
  - apply (keeps_revoke_by_grantee grantee s).
  - unfold cascade_revoke. apply (keeps_cascade_revoke root "cascade-revoke" s).
  - apply (keeps_cascade_by_issuer parent s).
  - apply (keeps_revoke_dynamic_for_grantee grantee s).
Qed.

Lemma set_flip_all_step ids s : status_step s (set_grants (flip_all GrantStatus.Revoked ids) s).
Proof.
  split; [|done]. intros id. simpl. rewrite lookup_flip_all by done.
  destruct (grants s !! id) as [g|]; case_decide; constructor; [apply flip_evolves | done].
Qed.

(** A preset apply retires some grants, then installs fresh ones. *)
Lemma preset_run k created s :
  status_step s (apply_preset_atomic_for_grantee k created s).2 ∨
  ∃ s1, status_step s s1 ∧ grants s1 = flip_all GrantStatus.Revoked (revocation_ids k s) (grants s) ∧
    status_step (foldl install s1 created) (apply_preset_atomic_for_grantee k created s).2.
Proof.
  destruct (apply_preset_atomic_for_grantee k created s) as [r s'] eqn:Hrun.
  apply apply_preset_cases in Hrun as [(e & _ & Hu)|(_ & _ & fs & ->)].
  - left. by apply unchanged_status_step.
  - right. exists (set_grants (flip_all GrantStatus.Revoked (revocation_ids k s))
                     (set_sqlite (mkSqlite (preset_rows k created s) fs) s)).
    split_and!; [|reflexivity|by apply status_step_same].
    etrans; [apply (set_flip_all_step (revocation_ids k s))|]. by apply status_step_same.
Qed.

Lemma status_step_None s s' id : status_step s s' → grants s !! id = None → grants s' !! id = None.
Proof. intros [Hs _] Hn. specialize (Hs id). rewrite Hn in Hs. by inversion Hs. Qed.

Lemma status_step_all_fresh s s' created : status_step s s' → all_fresh created s → all_fresh created s'.
Proof. intros Hs [? Hf]. split; [done|]. intros g Hg. eapply status_step_None; [done|]. by apply Hf. Qed.

Lemma run_op_wf o s : admissible o s → wf s → wf (run_op o s).
Proof.
  intros Hadm Hwf. pose proof (status_op_step o s) as Hst.
  destruct o as [g|g| | | | | | | |k created|now uuid id ps caller|t now uuid p c d caller]; simpl in *;
    try by (eapply status_step_wf).
  - destruct (insert g s) as [r s'] eqn:Hrun. apply insert_cases in Hrun as [(? & _ & Hu)|(_ & Hi & _)].
    + by eapply status_step_wf; [apply unchanged_status_step|].
    + eapply installs_wf; [|apply Hi|done]. destruct Hadm as [[Hf _] _]. intros old.
      destruct (grants s !! Grant.id g) as [o|] eqn:Ho.
      * replace (Grant.id _) with (Grant.id g) by (by destruct g). rewrite Ho. intros [= <-].
        destruct (Hf o Ho) as (? & ? & ?). by destruct g.
      * congruence.
  - destruct (insert_dynamic g s) as [r s'] eqn:Hrun. apply insert_dynamic_cases in Hrun as [(? & _ & Hu)|(_ & Hi & _)].
    + by eapply status_step_wf; [apply unchanged_status_step|].
    + eapply installs_wf; [|apply Hi|done]. intros old. destruct Hadm. congruence.
  - destruct (preset_run k created s) as [Hs|(s1 & Hs & _ & Hs')]; [by eapply status_step_wf|].
    eapply status_step_wf; [exact Hs'|]. apply foldl_install_spec; [|by eapply status_step_wf].
    by eapply status_step_all_fresh, Hadm.
  - destruct (narrow_run now uuid id ps caller s) as [Hs|(ex & s1 & s2 & _ & _ & Hs & _ & Hi & Hs')].
    { by eapply status_step_wf. }
    eapply status_step_wf; [exact Hs'|]. eapply installs_wf; [|apply Hi|by eapply status_step_wf].
    intros old. simpl. by rewrite (status_step_None s s1).
  - destruct (delegate_run t now uuid p c d caller s) as [Hs|(parent & s1 & _ & _ & Hi & Hs')].
    { by eapply status_step_wf. }
    eapply status_step_wf; [exact Hs'|]. eapply installs_wf; [|apply Hi|done]. intros old. simpl. congruence.
Qed.

Lemma run_op_evolves o s : admissible o s → dynamic o → evolves s (run_op o s).
Proof.
  intros Hadm Hdyn. pose proof (status_op_step o s) as Hst.
  destruct o as [g|g| | | | | | | |k created|now uuid id ps caller|t now uuid p c d caller]; simpl in *;
    try by (apply status_step_evolves).
  - destruct (insert_dynamic g s) as [r s'] eqn:Hrun. apply insert_dynamic_cases in Hrun as [(? & _ & Hu)|(_ & Hi & _)].
    + by apply status_step_evolves, unchanged_status_step.
    + eapply installs_evolves; [apply Hadm | apply Hi].
  - destruct (preset_run k created s) as [Hs|(s1 & Hs & _ & Hs')]; [by apply status_step_evolves|].
    etrans; [by apply status_step_evolves|]. etrans; [|by apply status_step_evolves].
    apply foldl_install_spec. by eapply status_step_all_fresh, Hadm.
  - destruct (narrow_run now uuid id ps caller s) as [Hs|(ex & s1 & s2 & _ & _ & Hs & _ & Hi & Hs')].
    { by apply status_step_evolves. }
    etrans; [by apply status_step_evolves|]. etrans; [|by apply status_step_evolves].
    eapply installs_evolves; [|apply Hi]. by eapply status_step_None.
  - destruct (delegate_run t now uuid p c d caller s) as [Hs|(parent & s1 & _ & _ & Hi & Hs')].
    { by apply status_step_evolves. }
    etrans; [|by apply status_step_evolves]. eapply installs_evolves; [|apply Hi]. done.
Qed.

Lemma new_store_wf q : wf (new_store q).
Proof.
  split; simpl.
  - intros id g. by rewrite lookup_empty.
  - intros k id. unfold ids_of. rewrite lookup_empty. split; [set_solver|]. intros (? & Hg & _). by rewrite lookup_empty in Hg.
  - intros k id. unfold ids_of. rewrite lookup_empty. split; [set_solver|]. intros (? & Hg & _). by rewrite lookup_empty in Hg.
  - intros k id. unfold ids_of. rewrite lookup_empty. split; [set_solver|]. intros (? & Hg & _). by rewrite lookup_empty in Hg.
Qed.

Lemma reachable_ind' (P : GrantStore → Prop) :
  (∀ q, P (new_store q)) → (∀ o s, admissible o s → wf s → P s → P (run_op o s)) →
  ∀ s, reachable s → wf s ∧ P s.
Proof.
  intros Hnew Hstep s (q & Hr).
  assert (∀ s0 s, rtc step s0 s → wf s0 ∧ P s0 → wf s ∧ P s) as Hgen.
  { induction 1 as [|s1 s2 s3 (o & Ha & ->) _ IH]; [done|]. intros [Hw HP]. apply IH.
    split; [by apply run_op_wf | by apply Hstep]. }
  apply (Hgen (new_store q)); [done|]. split; [apply new_store_wf | apply Hnew].
Qed.
(** ** Lineage *)

(** [child] could have been issued under [parent]. *)
Definition issues (parent child : Grant.t) : Prop :=
  ∃ draft, validate parent draft = Ok tt ∧
    GrantDraft.capability draft = Grant.capability child ∧ GrantDraft.params draft = Grant.params child.

(** Every stored delegation was a valid narrowing of its parent. *)
Definition lineage (s : GrantStore) : Prop :=
  ∀ id g p pg, grants s !! id = Some g → delegated_from g = Some p → grants s !! p = Some pg → issues pg g.

(** [g] descends from [anc] through stored delegations. *)
Inductive descends (s : GrantStore) : string → string → Prop :=
| descends_one id g p : grants s !! id = Some g → delegated_from g = Some p → descends s p id
| descends_more anc p id g :
    descends s anc p → grants s !! id = Some g → delegated_from g = Some p → descends s anc id.

Context `{!SubsetValidatorLaws}.

Lemma issues_content pg pg' g g' :
  g_evolves pg pg' → g_evolves g g' → issues pg g ↔ issues pg' g'.
Proof.
  intros (_ & _ & Hc & _ & _ & Hp & _)%g_evolves_fields (_ & _ & Hc' & _ & _ & Hp' & _)%g_evolves_fields.
  unfold issues. setoid_rewrite (validate_content pg pg' _ Hc Hp). by rewrite Hc', Hp'.
Qed.

Lemma issues_parent pg pg' g :
  Grant.capability pg' = Grant.capability pg → Grant.params pg' = Grant.params pg →
  issues pg g → issues pg' g.
Proof.
  intros Hc Hp (d & ? & ? & ?). exists d. split_and!; [|done..]. by rewrite (validate_content pg pg' d Hc Hp).
Qed.

Lemma issues_trans a b c : issues a b → issues b c → issues a c.
Proof.
  intros (d & Hv & Hc & Hp) (d' & Hv' & Hc' & Hp'). exists d'. split_and!; [|done..].
  eapply validate_trans; [exact Hv| |by symmetry|exact Hv'].
  rewrite <- Hc. symmetry. by apply validate_capability.
Qed.

Lemma status_step_lineage s s' : status_step s s' → lineage s → lineage s'.
Proof.
  intros Hs Hl id g' p pg' Hg Hd Hp.
  destruct (status_step_lookup _ _ _ _ Hs Hg) as (g & Hg0 & He).
  destruct (status_step_lookup _ _ _ _ Hs Hp) as (pg & Hp0 & Hep).
  apply (issues_content pg pg' g g'); [done..|]. eapply Hl; [exact Hg0| |exact Hp0].
  apply g_evolves_fields in He as (_ & _ & _ & _ & He & _). revert Hd. unfold delegated_from. by rewrite He.
Qed.

(** Installing a grant keeps the lineage if it was issued under its parent and
    no stored grant names it as parent with different content. *)
Lemma installs_lineage g s s' :
  installs_mem g s s' →
  (∀ p pg, delegated_from g = Some p → grants s !! p = Some pg → p ≠ Grant.id g → issues pg g) →
  delegated_from g ≠ Some (Grant.id g) →
  (∀ id c, grants s !! id = Some c → delegated_from c = Some (Grant.id g) → id ≠ Grant.id g → issues g c) →
  lineage s → lineage s'.
Proof.
  intros [Hg _ _ _] Hiss Hself Hchild Hl id c p pg. rewrite Hg.
  destruct (decide (id = Grant.id g)) as [->|Hid]; [rewrite lookup_insert_eq | rewrite lookup_insert_ne by done].
  - intros [= <-] Hd. assert (p ≠ Grant.id g) by congruence. rewrite lookup_insert_ne by done. intros Hp. by eapply Hiss.
  - intros Hc Hd. destruct (decide (p = Grant.id g)) as [->|Hp].
    + rewrite lookup_insert_eq. intros [= <-]. by eapply Hchild.
    + rewrite lookup_insert_ne by done. intros Hpg. by eapply Hl.
Qed.
(** A delegation's parent is in the store. *)
Definition parents_stored (s : GrantStore) : Prop :=
  ∀ id g p, grants s !! id = Some g → delegated_from g = Some p → is_Some (grants s !! p).

Definition sound_lineage (s : GrantStore) : Prop := parents_stored s ∧ lineage s.

Lemma status_step_parents s s' : status_step s s' → parents_stored s → parents_stored s'.
Proof.
  intros Hs Hp id g' p Hg Hd. destruct (status_step_lookup _ _ _ _ Hs Hg) as (g & Hg0 & He).
  destruct (Hp id g p Hg0) as [pg Hpg].
  { apply g_evolves_fields in He as (_ & _ & _ & _ & He & _). revert Hd. unfold delegated_from. by rewrite He. }
  destruct (status_step_evolves _ _ Hs p pg Hpg) as (pg' & ? & _). by exists pg'.
Qed.

Lemma status_step_sound s s' : status_step s s' → sound_lineage s → sound_lineage s'.
Proof. intros Hs []. split; [by eapply status_step_parents | by eapply status_step_lineage]. Qed.

(** A fresh grant issued under its stored parent keeps the lineage sound. *)
Lemma installs_sound g s s' :
  grants s !! Grant.id g = None →
  (∀ p, delegated_from g = Some p → ∃ pg, grants s !! p = Some pg ∧ issues pg g) →
  installs_mem g s s' → sound_lineage s → sound_lineage s'.
Proof.
  intros Hfresh Hparent Hi [Hps Hl]. pose proof (ins_grants _ _ _ Hi) as Hg. split.
  - intros id c p. rewrite Hg. intros Hc Hd.
    assert (is_Some (grants s !! p)) as [pg Hpg].
    { destruct (decide (id = Grant.id g)) as [->|?].
      - rewrite lookup_insert_eq in Hc. simplify_eq. destruct (Hparent p Hd) as (pg & ? & _). by exists pg.
      - rewrite lookup_insert_ne in Hc by done. by eapply Hps. }
    rewrite lookup_insert_ne by congruence. by exists pg.
  - eapply installs_lineage; [done|..|done].
    + intros p pg Hd Hp _. destruct (Hparent p Hd) as (pg' & ? & ?). congruence.
    + intros Hd. destruct (Hparent _ Hd) as (pg & ? & _). congruence.
    + intros id c Hc Hd _. destruct (Hps _ _ _ Hc Hd). congruence.
Qed.

(** So does the refresh of a stored static grant. *)
Lemma reinstalls_sound g old s s' :
  grants s !! Grant.id g = Some old → delegated_from g = None →
  Grant.capability old = Grant.capability g → Grant.params old = Grant.params g →
  installs_mem g s s' → sound_lineage s → sound_lineage s'.
Proof.
  intros Ho Hd Hc Hp Hi [Hps Hl]. pose proof (ins_grants _ _ _ Hi) as Hg. split.
  - intros id c p. rewrite Hg. intros Hcl Hdc.
    destruct (decide (id = Grant.id g)) as [->|?]; [rewrite lookup_insert_eq in Hcl; congruence|].
    rewrite lookup_insert_ne in Hcl by done. destruct (decide (p = Grant.id g)) as [->|?].
    + rewrite lookup_insert_eq. by exists g.
    + rewrite lookup_insert_ne by done. by eapply Hps.
  - eapply installs_lineage; [done|congruence..| |done].
    intros id c Hcl Hdc _. apply (issues_parent old); [by symmetry..|]. by eapply Hl.
Qed.

(** A run of fresh installs that are no delegations. *)
Lemma foldl_install_sound created s :
  all_fresh created s → (∀ g, g ∈ created → delegated_from g = None) →
  sound_lineage s → sound_lineage (foldl install s created).
Proof.
  revert s. induction created as [|g created IH]; intros s [Hnd Hfr] Hd Hs; simpl; [done|].
  apply NoDup_cons in Hnd as [Hni Hnd]. apply IH.
  - split; [done|]. intros g' Hg'. simpl. rewrite lookup_insert_ne; [apply Hfr; by right|].
    intros Heq. apply Hni. rewrite Heq. by apply list_elem_of_fmap_2.
  - intros g' Hg'. apply Hd. by right.
  - eapply installs_sound; [apply Hfr; left| |apply install_installs|done].
    intros p. rewrite Hd by left. done.
Qed.

Lemma narrowed_issued now uuid ex ps id pg :
  validate ex (GrantDraft.mk (Grant.capability ex) ps (Grant.ttl ex)) = Ok tt → g_evolves ex pg →
  issues pg (narrowed_grant now uuid ex ps id).
Proof.
  intros Hv (_ & _ & Hc & _ & _ & Hp & _)%g_evolves_fields.
  apply (issues_parent ex); [done..|]. eexists. split; [exact Hv|]. done.
Qed.

Lemma delegated_issued now uuid c caller parent d :
  validate parent d = Ok tt → issues parent (delegated_grant now uuid c caller parent d).
Proof. intros Hv. exists d. split_and!; [done| |done]. symmetry. by apply (validate_capability parent d). Qed.

Lemma run_op_sound o s : admissible o s → wf s → sound_lineage s → sound_lineage (run_op o s).
Proof.
  intros Hadm Hwf Hsl. pose proof (status_op_step o s) as Hst.
  destruct o as [g|g| | | | | | | |k created|now uuid id ps caller|t now uuid p c d caller]; simpl in *;
    try by (eapply status_step_sound).
  - destruct (insert g s) as [r s'] eqn:Hrun. apply insert_cases in Hrun as [(? & _ & Hu)|(_ & Hi & _)].
    { by eapply status_step_sound; [apply unchanged_status_step|]. }
    destruct Hadm as [[Hf Hc] Hd]. destruct (grants s !! Grant.id g) as [old|] eqn:Ho.
    + destruct (Hc old eq_refl). eapply (reinstalls_sound _ old); [| | | |apply Hi|done]; by destruct g.
    + eapply installs_sound; [exact Ho | by rewrite Hd | apply Hi | done].
  - destruct (insert_dynamic g s) as [r s'] eqn:Hrun. apply insert_dynamic_cases in Hrun as [(? & _ & Hu)|(_ & Hi & _)].
    { by eapply status_step_sound; [apply unchanged_status_step|]. }
    destruct Hadm as [Ho Hd]. eapply installs_sound; [exact Ho | by rewrite Hd | apply Hi | done].
  - destruct (preset_run k created s) as [Hs|(s1 & Hs & _ & Hs')]; [by eapply status_step_sound|].
    destruct Hadm as [Hf Hd]. eapply status_step_sound; [exact Hs'|].
    apply foldl_install_sound; [by eapply status_step_all_fresh|done|by eapply status_step_sound].
  - destruct (narrow_run now uuid id ps caller s) as [Hs|(ex & s1 & s2 & Hl & _ & Hs & Hv & Hi & Hs')].
    { by eapply status_step_sound. }
    eapply status_step_sound; [exact Hs'|].
    eapply (installs_sound (narrowed_grant now uuid ex ps id) s1 s2); [by apply (status_step_None s s1)| |apply Hi|by eapply status_step_sound].
    intros ? [= <-]. destruct (status_step_evolves _ _ Hs id ex Hl) as (pg & ? & ?).
    exists pg. split; [done|]. by apply narrowed_issued.
  - destruct (delegate_run t now uuid p c d caller s) as [Hs|(parent & s1 & Hl & Hv & Hi & Hs')].
    { by eapply status_step_sound. }
    eapply status_step_sound; [exact Hs'|]. eapply (installs_sound (delegated_grant now uuid c caller parent d) s s1); [done| |apply Hi|done].
    intros ? [= <-]. exists parent. rewrite (wf_key s Hwf p parent Hl). split; [done|]. by apply delegated_issued.
Qed.

Lemma new_store_sound q : sound_lineage (new_store q).
Proof. split; intros id g p; simpl; by rewrite lookup_empty. Qed.

Lemma reachable_sound s : reachable s → wf s ∧ sound_lineage s.
Proof.
  apply (reachable_ind' sound_lineage); [apply new_store_sound|]. intros. by apply run_op_sound.
Qed.

Lemma descends_issues s anc id a g :
  sound_lineage s → descends s anc id → grants s !! anc = Some a → grants s !! id = Some g → issues a g.
Proof.
  intros [Hps Hl] Hd. revert g. induction Hd as [id g0 p Hg0 Hdel|anc p id g0 _ IH Hg0 Hdel]; intros g Ha Hg; simplify_eq.
  - by eapply Hl.
  - destruct (Hps _ _ _ Hg0 Hdel) as [pg Hpg]. eapply issues_trans; [by apply IH|]. by eapply Hl.
Qed.
End system.

(** ** Properties *)

(** C1: authority is never amplified, as long as the static configuration is not
    narrowed at run time.  In every state the store can reach by its
    operations, where an insertion over the id of a static grant that is already
    stored keeps its capability and params ([admissible]; without that,
    [Divergences.narrowed_configuration_leaves_delegations]), a grant that
    descends from another through delegations and narrowings, at any depth,
    covers no call that its ancestor does not cover. *)
Theorem authority_never_amplified `{Chrono, Codec, HashOrder} (s : GrantStore) anc id a g request :
  @reachable _ _ _ SubsetValidatorImpl s → descends s anc id →
  grants s !! anc = Some a → grants s !! id = Some g →
  covers_request g request = Ok tt → covers_request a request = Ok tt.
Proof.
  intros Hr Hd Ha Hg. destruct (reachable_sound s Hr) as [_ Hsl].
  destruct (descends_issues s anc id a g Hsl Hd Ha Hg) as (d & Hv & Hc & Hp).
  by apply (covers_request_mono a g d request Hv).
Qed.

(** Delegation attenuates.  A successful [delegate_grant] starts from an
    active, unexpired, non-[Once] grant of the caller that no revocation is
    working on; the new grant has the requested holder, never the caller
    itself, the parent's capability, params the parent may issue, a deadline
    no later than the parent's, and the parent recorded as its source. *)
Theorem delegate_attenuates `{Chrono, Codec, HashOrder, V : SubsetValidator}
    (s : GrantStore) now_check now uuid pid child_agent draft caller id s' :
  wf s →
  delegate_grant now_check now uuid pid child_agent draft caller s = (Ok id, s') →
  ∃ parent child,
    grants s !! pid = Some parent ∧ grants s' !! id = Some child ∧ id = uuid ∧
    Grant.is_active parent = true ∧ Grant.unexpired now_check parent = true ∧
    Grant.grantee parent = caller ∧ (pid ∉ narrow_in_progress s) ∧ Grant.ttl parent ≠ GrantTtl.Once ∧
    Grant.grantee child = child_agent ∧ child_agent ≠ caller ∧
    Grant.capability child = Grant.capability parent ∧ Grant.params child = GrantDraft.params draft ∧
    validate parent draft = Ok tt ∧
    deadline_le (Grant.expires_at child) (Grant.expires_at parent) ∧
    delegated_from child = Some pid ∧ Grant.issuer child = GrantIssuer.Parent caller.
Proof.
  intros Hwf (parent & s1 & Hids & Hp & Ha & Hgr & Hun & Hn & _ & Hv & Httl & -> & Hi & ->)%delegate_grant_Ok.
  exists parent, (delegated_grant now uuid child_agent caller parent draft).
  split_and!; try done.
  - simpl. by rewrite (ins_grants _ _ _ (ins_mem _ _ _ Hi)), lookup_insert_eq.
  - intros Ht. by rewrite Ht in Httl.
  - intros ->. unfold delegate_check_ids in Hids.
    repeat (apply bind_unit_Ok in Hids as [_ Hids]). apply guard_err_Ok in Hids. by rewrite String.eqb_refl in Hids.
  - simpl. unfold delegate_expires_at. destruct (compute_expires_at now (GrantDraft.ttl draft)) as [c|],
      (Grant.expires_at parent) as [e|]; simpl; lia.
  - unfold delegated_from. simpl. by rewrite (wf_key s Hwf pid parent Hp).
Qed.

(** *** Who may delegate what, said without the code *)

(** A bare id, or [agent:] and a body of letters, digits, [_] and [-]. *)
Definition agent_form (x : string) : Prop :=
  (∃ body, x = "agent:" +:+ body ∧ body ≠ "" ∧
     Forall (λ c, is_ascii_alphanumeric c = true ∨ c = "_"%char ∨ c = "-"%char) (String.list_ascii_of_string body))
  ∨ ((¬ ∃ body, x = "agent:" +:+ body) ∧ ":"%char ∉ String.list_ascii_of_string x).

Record grant_id_ok (x : string) : Prop := {
  gid_nonempty : x ≠ "";
  gid_len : len x ≤ 256;
  gid_plain : ∀ c, c ∈ chars x → is_control c = false
}.

Record agent_id_ok (x : string) : Prop := {
  aid_grant_id : grant_id_ok x;
  aid_form : agent_form x
}.

(** A one-shot grant is not passed on; one bound to a life cycle only to the
    like of it or once; one with a deadline not to a whole life cycle. *)
Definition ttl_passes (parent child : GrantTtl.t) : Prop :=
  parent ≠ GrantTtl.Once
  ∧ (parent = GrantTtl.Lifecycle → child = GrantTtl.Once ∨ child = GrantTtl.Lifecycle)
  ∧ (child = GrantTtl.Lifecycle → parent = GrantTtl.Persistent ∨ parent = GrantTtl.Lifecycle).

Definition params_size (ps : list CapParam.t) : Z := Z.of_nat (sum_list_with (λ p, String.length (CapParam.key p) + String.length (CapParam.value p))%nat ps).

(** The caller holds [parent], which is in force, and may give [draft] of it to [child_agent]. *)
Record delegable `{V : SubsetValidator} (s : GrantStore) (now : Z) (pid child_agent caller : string) (draft : GrantDraft.t)
    (parent : Grant.t) : Prop := {
  del_id : grant_id_ok pid;
  del_caller : agent_id_ok caller;
  del_child : agent_id_ok child_agent;
  del_other : child_agent ≠ caller;
  del_parent : grants s !! pid = Some parent;
  del_holder : Grant.grantee parent = caller;
  del_active : Grant.status parent = GrantStatus.Active;
  del_deadline t : Grant.expires_at parent = Some t → now < t;
  del_quiet : pid ∉ narrow_in_progress s;
  del_entries : (length (GrantDraft.params draft) ≤ 64)%nat;
  del_bytes : params_size (GrantDraft.params draft) ≤ 4096;
  del_ttl : ttl_passes (Grant.ttl parent) (GrantDraft.ttl draft);
  del_subset : validate parent draft = Ok tt
}.

Lemma all_bytes_list q x : all_bytes q x = true ↔ Forall (λ c, q c = true) (String.list_ascii_of_string x).
Proof. induction x as [|a x IH]; simpl; [by split|]. by rewrite andb_true_iff, Forall_cons, IH. Qed.

Lemma contains_char_list c x : contains_char c x = true ↔ c ∈ String.list_ascii_of_string x.
Proof.
  induction x as [|a x IH]; simpl; [split; [done|intros H; by apply not_elem_of_nil in H]|].
  rewrite orb_true_iff, elem_of_cons, IH, Ascii.eqb_eq. naive_solver.
Qed.

Lemma agent_form_spec x : is_agent_or_bare_id x = true ↔ agent_form x.
Proof.
  unfold is_agent_or_bare_id, agent_form. destruct (strip_prefix "agent:" x) as [body|] eqn:Hp.
  - apply strip_prefix_spec in Hp as ->. rewrite andb_true_iff, negb_true_iff, String.eqb_neq, all_bytes_list.
    assert (∀ c, (is_ascii_alphanumeric c || Ascii.eqb c "_" || Ascii.eqb c "-") = true ↔
      is_ascii_alphanumeric c = true ∨ c = "_"%char ∨ c = "-"%char) as Hc.
    { intros c. rewrite !orb_true_iff, !Ascii.eqb_eq. naive_solver. }
    setoid_rewrite Hc. split; [by left; exists body|].
    intros [(b & Hb & Hne & Hall)|[[] _]]; [|by exists body].
    assert (strip_prefix "agent:" ("agent:" +:+ body) = Some b) as H1 by by apply strip_prefix_spec.
    assert (strip_prefix "agent:" ("agent:" +:+ body) = Some body) as H2 by by apply strip_prefix_spec.
    by replace body with b by congruence.
  - assert (¬ ∃ body, x = "agent:" +:+ body) as Hno.
    { intros (body & Hb%strip_prefix_spec). congruence. }
    rewrite negb_true_iff, <- not_true_iff_false, contains_char_list. split; [by right|]. intros [(b & Hb & _)|[_ H]]; [|done].
    destruct Hno. by exists b.
Qed.

Lemma has_control_spec x : has_control x = false ↔ ∀ c, c ∈ chars x → is_control c = false.
Proof.
  unfold has_control. rewrite <- not_true_iff_false, existsb_exists. split.
  - intros Hno c Hc. apply not_true_iff_false. intros Ht. apply Hno. exists c. by rewrite <- list_elem_of_In.
  - intros Hall (c & Hc & Ht). rewrite <- list_elem_of_In in Hc. by rewrite Hall in Ht.
Qed.

Lemma grant_id_spec x : grant_id_ok x ↔ x ≠ "" ∧ (256 <? len x) = false ∧ has_control x = false.
Proof. rewrite has_control_spec, Z.ltb_ge. split; [by intros []|intros (? & ? & ?); by split]. Qed.

Lemma delegate_check_ids_spec pid child caller :
  delegate_check_ids pid child caller = Ok tt ↔ grant_id_ok pid ∧ agent_id_ok caller ∧ agent_id_ok child ∧ child ≠ caller.
Proof.
  assert (∀ x, agent_id_ok x ↔ grant_id_ok x ∧ is_agent_or_bare_id x = true) as Ha.
  { intros x. rewrite agent_form_spec. split; [by intros []|by intros []]. }
  rewrite !Ha, !grant_id_spec. unfold delegate_check_ids. split.
  - intros Hrun. repeat (apply bind_unit_Ok in Hrun as [?%guard_err_Ok Hrun]). apply guard_err_Ok in Hrun.
    rewrite negb_false_iff, String.eqb_neq in *. by split_and!.
  - intros ((H1 & H2 & H3) & ((H4 & H5 & H6) & H7) & ((H8 & H9 & H10) & H11) & H12).
    rewrite (proj2 (String.eqb_neq _ _) H1), H2, H3, (proj2 (String.eqb_neq _ _) H4), (proj2 (String.eqb_neq _ _) H8), H7, H11, H6, H10, H5, H9.
    by rewrite (proj2 (String.eqb_neq caller child)) by done.
Qed.

Lemma delegate_check_ttl_spec parent child : delegate_check_ttl parent child = Ok tt ↔ ttl_passes parent child.
Proof. unfold ttl_passes. destruct parent, child; simpl; naive_solver. Qed.

Lemma delegate_check_params_spec ps :
  delegate_check_params ps = Ok tt ↔ (length ps ≤ 64)%nat ∧ params_size ps ≤ 4096.
Proof.
  assert (params_bytes ps = params_size ps) as Hb.
  { unfold params_size. induction ps as [|p ps IH]; [done|]. simpl. rewrite IH. unfold len. lia. }
  unfold delegate_check_params, MAX_PARAMS_ENTRIES, MAX_PARAMS_BYTES. rewrite Hb. split.
  - intros [?%guard_err_Ok ?%guard_err_Ok]%bind_unit_Ok. unfold size_of in *. lia.
  - intros [H1 H2]. rewrite (proj2 (Z.ltb_ge 64 (size_of ps))) by (unfold size_of; lia). simpl. by rewrite (proj2 (Z.ltb_ge 4096 (params_size ps))).
Qed.

Section delegating.
Context `{Chrono, Codec, HashOrder, V : SubsetValidator}.

Lemma delegate_grant_delegable now_check now uuid pid child_agent draft caller (s : GrantStore) id s' :
  delegate_grant now_check now uuid pid child_agent draft caller s = (Ok id, s') →
  ∃ parent, delegable s now_check pid child_agent caller draft parent.
Proof.
  intros (parent & s1 & Hids & Hp & Ha & Hg & Hu & Hn & Hps & Hv & Ht & _)%delegate_grant_Ok. exists parent.
  apply delegate_check_ids_spec in Hids as (? & ? & ? & ?). apply delegate_check_params_spec in Hps as [? ?].
  apply delegate_check_ttl_spec in Ht. split; try done.
  - unfold Grant.is_active in Ha. by apply bool_decide_eq_true in Ha.
  - intros t Hexp. unfold Grant.unexpired in Hu. rewrite Hexp in Hu. lia.
Qed.

Lemma delegable_succeeds (s : GrantStore) now_check now uuid pid child_agent draft caller parent :
  wf s → uuid ≠ "" → faults (sqlite s) = [] → (∀ g, grants s !! pid = Some g → Grant.capability g ≠ "") →
  delegable s now_check pid child_agent caller draft parent →
  (delegate_grant now_check now uuid pid child_agent draft caller s).1 = Ok uuid.
Proof.
  intros Hwf Huuid Hf Hcap [Hid Hcaller Hchild Hother Hp Hg Ha Hdl Hn Hen Hby Httl Hv].
  assert (delegate_check_ids pid child_agent caller = Ok tt) as Hids by by apply delegate_check_ids_spec.
  assert (delegate_check_params (GrantDraft.params draft) = Ok tt) as Hps by by apply delegate_check_params_spec.
  assert (delegate_check_ttl (Grant.ttl parent) (GrantDraft.ttl draft) = Ok tt) as Ht by by apply delegate_check_ttl_spec.
  assert (Grant.unexpired now_check parent = true) as Hu.
  { unfold Grant.unexpired. destruct (Grant.expires_at parent) as [t|]; [|done]. apply Z.ltb_lt. by apply Hdl. }
  assert (child_agent ≠ "") as Hne by apply (gid_nonempty _ (aid_grant_id _ Hchild)).
  unfold delegate_grant, delegate_parent, Grant.is_active. run. rewrite Hids, Hp, Ha, Hg, String.eqb_refl, Hu. simpl.
  rewrite bool_decide_eq_false_2 by done. rewrite Hps, Hv, Ht.
  unfold insert_dynamic_inner, delegated_from, is_static. run. simpl.
  rewrite (proj2 (String.eqb_neq child_agent "")) by done.
  rewrite (proj2 (String.eqb_neq (Grant.capability parent) "")) by (by apply Hcap).
  rewrite (proj2 (String.eqb_neq uuid "")) by done.
  rewrite (wf_key s Hwf pid parent Hp). rewrite !bool_decide_eq_false_2 by congruence.
  unfold db, upsert_grant, db_call. run. by rewrite Hf.
Qed.
End delegating.

(** C39: who may delegate what, and what the new grant is.  When the database
    accepts the write, [delegate_grant] succeeds exactly when the identifiers
    are well formed, the caller holds the parent and names another agent, the
    parent is active, unexpired and not being narrowed or revoked, it is not
    one-shot and its TTL kind passes on to the draft's, the params are at most
    64 and 4096 bytes, and the validator accepts the draft under the parent.
    Then the store has exactly one more grant: active, for that agent, of the
    parent's capability, with the draft's params and TTL, delegated from the
    parent by the caller, its deadline the draft's and no later than the
    parent's.  Otherwise nothing is installed. *)
Theorem delegate_grant_decides `{Chrono, Codec, HashOrder, V : SubsetValidator}
    (s : GrantStore) now_check now uuid pid child_agent draft caller :
  wf s → uuid ≠ "" → faults (sqlite s) = [] →
  (∀ g, grants s !! pid = Some g → Grant.capability g ≠ "") →
  let outcome := delegate_grant now_check now uuid pid child_agent draft caller s in
  (is_ok outcome.1 = true ↔ ∃ parent, delegable s now_check pid child_agent caller draft parent) ∧
  (∀ parent, delegable s now_check pid child_agent caller draft parent →
     ∃ deadline,
       outcome.1 = Ok uuid ∧
       grants outcome.2 =
         <[uuid := Grant.mk uuid child_agent (Grant.capability parent) (GrantDraft.params draft) (GrantDraft.ttl draft)
             (GrantIssuer.Parent caller) (GrantProvenance.Delegated pid) GrantStatus.Active now deadline]> (grants s) ∧
       (deadline = compute_expires_at now (GrantDraft.ttl draft) ∨ deadline = Grant.expires_at parent) ∧
       deadline_le deadline (compute_expires_at now (GrantDraft.ttl draft)) ∧ deadline_le deadline (Grant.expires_at parent)) ∧
  (is_ok outcome.1 = false → unchanged s outcome.2).
Proof.
  intros Hwf Huuid Hf Hcap outcome. split; [split|split].
  - unfold outcome. destruct (delegate_grant now_check now uuid pid child_agent draft caller s) as [[id|e] s'] eqn:Hrun; [|done].
    intros _. by apply (delegate_grant_delegable _ _ _ _ _ _ _ _ _ _ Hrun).
  - intros (parent & Hd). unfold outcome. by rewrite (delegable_succeeds s now_check now uuid pid child_agent draft caller parent).
  - intros parent Hd. pose proof (delegable_succeeds s now_check now uuid pid child_agent draft caller parent Hwf Huuid Hf Hcap Hd) as Hok.
    unfold outcome. destruct (delegate_grant now_check now uuid pid child_agent draft caller s) as [r s'] eqn:Hrun. simpl in *. subst r.
    apply delegate_grant_Ok in Hrun as (parent' & s1 & _ & Hp & _ & _ & _ & _ & _ & _ & _ & _ & Hi & ->).
    assert (parent' = parent) as -> by (pose proof (del_parent _ _ _ _ _ _ _ Hd); congruence).
    exists (delegate_expires_at now (GrantDraft.ttl draft) (Grant.expires_at parent)). split; [done|]. split.
    + simpl. rewrite (ins_grants _ _ _ (ins_mem _ _ _ Hi)). unfold delegated_grant. by rewrite (wf_key s Hwf pid parent Hp).
    + unfold delegate_expires_at. destruct (compute_expires_at now (GrantDraft.ttl draft)) as [c|], (Grant.expires_at parent) as [e|]; simpl;
        split_and!; try done; try lia; auto. destruct (Z.min_spec c e) as [[_ ->]|[_ ->]]; auto.
  - unfold outcome. destruct (delegate_grant now_check now uuid pid child_agent draft caller s) as [[id|e] s'] eqn:Hrun; [done|].
    intros _. by eapply delegate_grant_Err.
Qed.

(** A grant never comes back.  Through any sequence of operations other
    than a static insert, no grant disappears, its holder, capability, params,
    TTL, issuer, source and deadline never change, and once its status is not
    active it never changes again. *)
Theorem grants_only_retire `{Chrono, Codec, HashOrder, V : SubsetValidator} (s s' : GrantStore) id g :
  rtc dynamic_step s s' → grants s !! id = Some g →
  ∃ st, grants s' !! id = Some (Grant.set_status st g) ∧ (Grant.is_active g = false → st = Grant.status g).
Proof.
  intros Hr Hg.
  assert (evolves s s') as Hev.
  { clear -Hr. induction Hr as [|s1 s2 s3 (o & Had & Hd & ->) _ IH]; [done|].
    etrans; [by apply run_op_evolves | exact IH]. }
  destruct (Hev id g Hg) as (g' & Hg' & He & Hfix). exists (Grant.status g'). rewrite <- He. split; [done|].
  intros Ha. by rewrite (Hfix Ha).
Qed.

(** The indexes are exact.  In every reachable state a grant is stored
    under its own id, the by-grantee and by-issuer listings return exactly the
    stored grants of that grantee and of that parent agent, and every
    delegation's parent is stored and lists it as a child. *)
Theorem indexes_exact `{Chrono, Codec, HashOrder, V : SubsetValidator, !HashOrderLaws, !SubsetValidatorLaws}
    (s : GrantStore) key g :
  reachable s →
  (g ∈ list_by_grantee key s ↔ grants s !! Grant.id g = Some g ∧ Grant.grantee g = key) ∧
  (g ∈ list_by_issuer_parent key s ↔ grants s !! Grant.id g = Some g ∧ Grant.issuer g = GrantIssuer.Parent key) ∧
  (∀ p, grants s !! Grant.id g = Some g → delegated_from g = Some p →
     Grant.id g ∈ ids_of p (provenance s) ∧ is_Some (grants s !! p)).
Proof.
  intros Hr. destruct (reachable_sound s Hr) as [Hwf [Hps _]].
  split_and!; [by apply elem_list_by_grantee | by apply elem_list_by_issuer_parent |].
  intros p Hg Hd. split; [apply (wf_provenance s Hwf); eauto | by eapply Hps].
Qed.

(** ** A concrete store *)

#[local] Existing Instances chrono_model codec_model hash_order_model SubsetValidatorImpl.

Definition sample_static : Grant.t :=
  Grant.mk "static:root:mcp" "root" "mcp" [CapParam.mk "servers" "github"; CapParam.mk "tool-patterns" "get_*"]
    GrantTtl.Persistent GrantIssuer.Config GrantProvenance.StaticConfig GrantStatus.Active 0 None.

Definition sample_once : Grant.t :=
  Grant.mk "uuid-0" "kid" "tools" [] GrantTtl.Once (GrantIssuer.Resolver "SubsetAutoApprove")
    GrantProvenance.Requested GrantStatus.Active 0 None.

(** An empty store over an empty index that never fails. *)
Definition sample_start : GrantStore := new_store (mkSqlite ∅ []).

Definition sample_draft (pattern : string) (ttl : GrantTtl.t) : GrantDraft.t :=
  GrantDraft.mk "mcp" [CapParam.mk "servers" "github"; CapParam.mk "tool-patterns" pattern] ttl.

(** The root delegates part of its grant to its kid, the kid part of that to
    its own kid; the kid also holds a one-shot grant. *)
Definition sample_ops : list op := [
  Insert sample_static;
  InsertDynamic sample_once;
  Delegate 1 1 "uuid-1" "static:root:mcp" "kid" (sample_draft "get_issue*" (GrantTtl.Duration 60000)) "root";
  Delegate 2 2 "uuid-2" "uuid-1" "grandkid" (sample_draft "get_issue" (GrantTtl.Duration 90000)) "kid"
].

Definition run_ops (ops : list op) (s : GrantStore) : GrantStore := foldl (λ s o, run_op o s) s ops.

Definition sample_store : GrantStore := run_ops sample_ops sample_start.

Lemma reachable_run o s : reachable s → admissible o s → reachable (run_op o s).
Proof. intros [q Hq] Ha. exists q. eapply rtc_r; [exact Hq|]. by exists o. Qed.

Lemma fresh_same_grant g s : grants s !! Grant.id g = None → same_grant g s.
Proof. intros Hg. split; intros old; by rewrite Hg. Qed.

Lemma sample_reachable : reachable sample_store.
Proof.
  unfold sample_store, run_ops, sample_ops, foldl.
  apply reachable_run; [|by vm_compute].
  apply reachable_run; [|by vm_compute].
  apply reachable_run; [|by vm_compute].
  apply reachable_run; [by exists (mkSqlite ∅ [])|].
  split; [apply fresh_same_grant; by vm_compute | done].
Qed.

Lemma sample_wf : wf sample_store.
Proof. apply (reachable_sound sample_store), sample_reachable. Qed.

Lemma sample_healthy : healthy sample_store.
Proof.
  split_and!; [by vm_compute | apply (wf_key _ sample_wf) |].
  assert (dom (grants sample_store) ⊆ dom (rows (sqlite sample_store))) as Hd.
  { apply (bool_decide_unpack _). by vm_compute. }
  intros id Hid. apply elem_of_dom, Hd. by apply elem_of_dom.
Qed.

Definition sample_at (id : string) : Grant.t := default sample_static (grants sample_store !! id).

Definition sample_request (tool : string) : GrantDraft.t := sample_draft tool GrantTtl.Persistent.

(** ** Witnesses *)

Lemma authority_never_amplified_witness :
  covers_request (sample_at "uuid-2") (sample_request "get_issue") = Ok tt ∧
  covers_request sample_static (sample_request "get_issue") = Ok tt.
Proof.
  split; [by vm_compute|].
  apply (authority_never_amplified sample_store "static:root:mcp" "uuid-2" sample_static (sample_at "uuid-2"));
    [apply sample_reachable | | by vm_compute..].
  apply (descends_more _ _ "uuid-1" _ (sample_at "uuid-2")); [apply (descends_one _ _ (sample_at "uuid-1"))|..];
    by vm_compute.
Defined.

Lemma delegate_attenuates_witness :
  Grant.expires_at (sample_at "uuid-2") = Some 60000000001 ∧
  ∃ parent child, grants sample_store !! "uuid-1" = Some parent ∧ Grant.grantee parent = "kid" ∧
    Grant.capability child = Grant.capability parent ∧ deadline_le (Grant.expires_at child) (Grant.expires_at parent).
Proof.
  split; [by vm_compute|].
  destruct (delegate_attenuates (run_ops (take 3 sample_ops) sample_start) 2 2 "uuid-2" "uuid-1" "grandkid" (sample_draft "get_issue" (GrantTtl.Duration 90000)) "kid"
    "uuid-2" sample_store) as (parent & child & Hp & _ & _ & _ & _ & Hg & _ & _ & _ & _ & Hc & _ & _ & Hd & _).
  - apply (reachable_sound _). unfold sample_ops, take, run_ops, foldl. do 3 (apply reachable_run; [|first [by vm_compute | split; [apply fresh_same_grant; by vm_compute | done]]]).
    by exists (mkSqlite ∅ []).
  - by vm_compute.
  - exists parent, child. split_and!; [|done..]. rewrite <- Hp. by vm_compute.
Defined.

Lemma sample_delegable : delegable sample_store 5 "static:root:mcp" "aide" "root" (sample_draft "get_me" GrantTtl.Once) sample_static.
Proof.
  assert (delegate_check_ids "static:root:mcp" "aide" "root" = Ok tt) as (? & ? & ? & ?)%delegate_check_ids_spec by by vm_compute.
  split; try done; try by vm_compute.
  by apply Nat.leb_le.
Qed.

Lemma delegate_grant_decides_witness :
  (delegate_grant 5 5 "uuid-9" "static:root:mcp" "aide" (sample_draft "get_me" GrantTtl.Once) "root" sample_store).1 = Ok "uuid-9".
Proof.
  destruct (delegate_grant_decides sample_store 5 5 "uuid-9" "static:root:mcp" "aide"
    (sample_draft "get_me" GrantTtl.Once) "root") as (_ & Hok & _).
  - apply sample_wf.
  - done.
  - by vm_compute.
  - intros g Hg. replace g with sample_static; [done|].
    assert (Some g = Some sample_static) as [= ->] by (rewrite <- Hg; by vm_compute). done.
  - destruct (Hok sample_static sample_delegable) as (deadline & Hr & _). exact Hr.
Defined.

Lemma grants_only_retire_witness :
  ∃ st, grants (run_op (Consume "uuid-0" "tools::run") sample_store) !! "uuid-0" = Some (Grant.set_status st sample_once) ∧
    st = GrantStatus.Consumed.
Proof.
  destruct (grants_only_retire sample_store (run_op (Consume "uuid-0" "tools::run") sample_store) "uuid-0" sample_once)
    as (st & Hg & _).
  - apply rtc_once. by exists (Consume "uuid-0" "tools::run").
  - by vm_compute.
  - exists st. split; [done|]. assert (Some (Grant.set_status st sample_once) =
      Some (Grant.set_status GrantStatus.Consumed sample_once)) as [= ->]; [|done].
    rewrite <- Hg. by vm_compute.
Defined.

Lemma indexes_exact_witness :
  (sample_at "uuid-1" ∈ list_by_grantee "kid" sample_store) ∧ "uuid-1" ∈ ids_of "static:root:mcp" (provenance sample_store).
Proof.
  destruct (@indexes_exact _ _ _ _ hash_order_model_laws _ sample_store "kid" (sample_at "uuid-1") sample_reachable)
    as (Hg & _ & Hp).
  split.
  - apply Hg. split; by vm_compute.
  - apply Hp; by vm_compute.
Defined.
