(* ===== verification/Revocation.v ===== *)
(** * Revocation

    What revoking does: the cascade over a grant's descendants, the flat and
    per-issuer sweeps, consumption and expiry. *)
From S2P Require Import Prelude RustStr GrantData Subset Cascade Events GrantSqlite GrantStore StoreFacts StoreProps.
Open Scope string_scope.
Open Scope list_scope.
Open Scope Z_scope.

(** ** Facts *)

Section revocation.
Context `{Chrono, Codec, HashOrder, V : SubsetValidator}.

(** The ids a cascade visits. *)
Definition targets (s : GrantStore) (root : string) : list string :=
  root :: walk_descendants (provenance s) root.

Definition flagged (s : GrantStore) (root : string) : list (string * bool) :=
  (root, true) :: ((λ d, (d, false)) <$> walk_descendants (provenance s) root).

Lemma flagged_keys s root : (flagged s root).*1 = targets s root.
Proof.
  unfold flagged, targets. simpl. f_equal. rewrite <- list_fmap_compose. simpl. apply list_fmap_id.
Qed.

Lemma active_at_Some s id g :
  active_at s id = Some g ↔ grants s !! id = Some g ∧ Grant.is_active g = true.
Proof.
  unfold active_at, active_in. destruct (grants s !! id) as [g'|]; [|by split; [|intros [? _]]].
  destruct (Grant.is_active g') eqn:Ha; split; [by intros [= <-] | by intros [[= <-] _] | done |].
  intros [[= <-] ?]. congruence.
Qed.

(** The grants a cascade revoked, the root first. *)
Definition cascade_applied (s : GrantStore) (root : string) : list (Grant.t * bool) :=
  retired GrantStatus.Revoked fst (λ (idr : string * bool) g, (g, idr.2)) (flagged s root) (grants s).

Lemma cascade_phases_run root why s res s' :
  cascade_phases root why s = (Ok res, s') →
  is_Some (active_at s root) ∧
  grants s' = flip_all GrantStatus.Revoked (targets s root) (grants s) ∧
  res = mkCascadeResult root ((λ a : Grant.t * bool, Grant.id a.1) <$> cascade_applied s root)
          (count_descendants (cascade_applied s root)).
Proof.
  unfold cascade_phases. intros Hrun. steps. pure_steps.
  repeat match goal with H : guard_err _ _ = Ok _ |- _ => apply guard_err_Ok in H end. b2p.
  match goal with H : emit_revocations _ _ _ = _ |- _ => unfold emit_revocations in H; rewrite for_each_emit in H; injection H as _ <- end.
  match goal with H : collect _ _ _ = (Ok ?ys, ?s1) |- _ =>
    apply (collect_flip GrantStatus.Revoked fst (λ (idr : string * bool) g, (g, idr.2))) in H as [Hg ->] end.
  - injection Hrun as <- <-. split_and!; [|rewrite <- flagged_keys; exact Hg|done].
    destruct (grants s !! root) as [g|] eqn:Hr; [|done]. exists g. by apply active_at_Some.
  - intros x s2 o s3 Hx. apply M_bind_Ok in Hx as (o' & s4 & Hone & [= <- <-]).
    apply revoke_one_Ok in Hone as (-> & ? & _). by split.
Qed.

Lemma cascade_revoke_run root why s res s' :
  cascade_revoke_with_reason root why s = (Ok res, s') →
  (root ∉ narrow_in_progress s) ∧ is_Some (active_at s root) ∧
  grants s' = flip_all GrantStatus.Revoked (targets s root) (grants s) ∧
  res = mkCascadeResult root ((λ a : Grant.t * bool, Grant.id a.1) <$> cascade_applied s root)
          (count_descendants (cascade_applied s root)).
Proof.
  unfold cascade_revoke_with_reason. intros Hrun. apply M_bind_Ok in Hrun as (? & ? & [= <- <-] & Hrun).
  apply M_bind_Ok in Hrun as ([] & ? & Hnip & Hrun). unfold fail_if in Hnip. rewrite lift_run in Hnip.
  injection Hnip as Hnip <-. apply guard_err_Ok in Hnip. b2p. split; [done|].
  apply M_bind_Ok in Hrun as ([] & ? & [= <-] & Hrun). unfold narrow_guarded in Hrun.
  destruct (cascade_phases root why _) as [r s1] eqn:Hph. injection Hrun as -> <-.
  apply cascade_phases_run in Hph as (Ha & Hg & ->). by split_and!.
Qed.

Lemma active_in_key s id g : wf s → active_in (grants s) id = Some g → Grant.id g = id.
Proof. intros Hwf [Hg _]%active_at_Some. by apply (wf_key s Hwf). Qed.

Lemma cascade_applied_ids s root :
  wf s →
  (∀ id, id ∈ ((λ a : Grant.t * bool, Grant.id a.1) <$> cascade_applied s root) ↔
     id ∈ targets s root ∧ is_Some (active_at s id)) ∧
  NoDup ((λ a : Grant.t * bool, Grant.id a.1) <$> cascade_applied s root).
Proof.
  intros Hwf. unfold cascade_applied. rewrite <- flagged_keys.
  apply (retired_ids GrantStatus.Revoked fst (λ (idr : string * bool) g, (g, idr.2)) (λ a : Grant.t * bool, Grant.id a.1)); [done|].
  intros x g Hg. by apply (active_in_key s).
Qed.

Lemma cascade_applied_head s root :
  wf s → is_Some (active_at s root) →
  head ((λ a : Grant.t * bool, Grant.id a.1) <$> cascade_applied s root) = Some root.
Proof.
  intros Hwf [g Hg]. unfold cascade_applied, flagged. cbn [retired fst]. unfold active_at in Hg. rewrite Hg.
  simpl. f_equal. by apply (active_in_key s).
Qed.

Lemma flip_inactive g : Grant.is_active (flip GrantStatus.Revoked g) = false.
Proof. unfold flip. destruct (Grant.is_active g) eqn:Ha; [by destruct g | done]. Qed.

(** ** The guard set *)

(** Every operation leaves [narrow_in_progress] as it found it. *)
Definition same_guard (s s' : GrantStore) : Prop := narrow_in_progress s' = narrow_in_progress s.

#[local] Instance same_guard_preorder : PreOrder same_guard.
Proof. split; unfold same_guard; [done | congruence]. Qed.

Lemma guard_flip_active st id : keeps same_guard (flip_active st id).
Proof. intros s. by rewrite flip_active_run. Qed.

Lemma guard_db {A} (m : M Sqlite CapGrantError.t A) : keeps same_guard (db m).
Proof. intros s. unfold db. by destruct (m (sqlite s)). Qed.

Lemma guard_emit e : keeps same_guard (emit e).
Proof. done. Qed.

#[local] Hint Resolve same_guard_preorder guard_flip_active guard_db guard_emit : keeps.

Lemma guard_revoke_one id : keeps same_guard (revoke_one id).
Proof. unfold revoke_one. keeps. Qed.

#[local] Hint Resolve guard_revoke_one : keeps.

Lemma guard_cascade_phases root why : keeps same_guard (cascade_phases root why).
Proof. unfold cascade_phases, emit_revocations. keeps. Qed.

(** A cascade marks its root while it runs and unmarks it on every path. *)
Lemma guard_cascade_revoke root why : keeps same_guard (cascade_revoke_with_reason root why).
Proof.
  intros s. unfold cascade_revoke_with_reason, same_guard. run.
  destruct (bool_decide (root ∈ narrow_in_progress s)) eqn:Hin; [done|]. b2p.
  unfold narrow_guarded.
  pose proof (guard_cascade_phases root why (set_narrow_in_progress (λ nip, {[root]} ∪ nip) s)) as Hk.
  destruct (cascade_phases root why _) as [r s1]. unfold same_guard in Hk. simpl in *. rewrite Hk. set_solver.
Qed.

(** ** Success without database errors *)

Lemma healthy_cascade_phases root why s :
  healthy s → is_Some (active_at s root) →
  ∃ res s', cascade_phases root why s = (Ok res, s') ∧ healthy s'.
Proof.
  intros Hs [g Ha%active_at_Some]. destruct Ha as [Hg Ha].
  unfold cascade_phases. apply total_get. rewrite Hg, Ha. simpl negb.
  apply (total_bind healthy); [by intros s0 Hs0; eexists _, _ | intros ? | exact Hs].
  apply total_bind; [|intros applied; apply total_bind].
  - apply total_collect. intros x _. apply total_bind; [apply healthy_revoke_one|]. intros o. apply total_ret.
  - intros s0 Hs0. unfold emit_revocations. rewrite for_each_emit. by eexists _, _.
  - intros ?. apply total_ret.
Qed.

Lemma healthy_cascade_revoke root why s :
  healthy s → is_Some (active_at s root) → root ∉ narrow_in_progress s →
  ∃ res s', cascade_revoke_with_reason root why s = (Ok res, s') ∧ healthy s'.
Proof.
  intros Hs Ha Hn. unfold cascade_revoke_with_reason. run. rewrite bool_decide_eq_false_2 by done.
  destruct (healthy_cascade_phases root why (set_narrow_in_progress (λ nip, {[root]} ∪ nip) s)) as (res & s' & Hrun & Hs').
  - by apply (healthy_same s).
  - done.
  - unfold narrow_guarded. rewrite Hrun. eexists _, _. split; [done|]. by apply (healthy_same s').
Qed.

(** ** The graph the indexes describe *)

Lemma descends_descendant s anc id : wf s → descends s anc id ↔ descendant (provenance s) anc id.
Proof.
  intros Hwf.
  assert (∀ p c, edge (provenance s) p c ↔ ∃ g, grants s !! c = Some g ∧ delegated_from g = Some p) as Hedge.
  { intros p c. rewrite <- (wf_provenance s Hwf p c). unfold edge, ids_of.
    destruct (provenance s !! p) as [ch|]; simpl; [naive_solver|]. split; [naive_solver | set_solver]. }
  split.
  - induction 1 as [id g p Hg Hd|anc p id g _ IH Hg Hd].
    + apply tc_once, Hedge. eauto.
    + eapply tc_r; [exact IH|]. apply Hedge. eauto.
  - revert id. apply (tc_ind_r (λ id, descends s anc id)).
    + intros id (g & Hg & Hd)%Hedge. by eapply descends_one.
    + intros p id _ (g & Hg & Hd)%Hedge IH. by eapply descends_more.
Qed.
(** ** Sweeps *)

Lemma push_new_elem acc id x :
  (∀ y, y ∈ acc.1 ↔ y ∈ acc.2) →
  (x ∈ (push_new acc id).2 ↔ x = id ∨ x ∈ acc.2) ∧ (∀ y, y ∈ (push_new acc id).1 ↔ y ∈ (push_new acc id).2).
Proof.
  intros Hacc. unfold push_new. case_decide as Hin.
  - split; [|done]. split; [by right|]. intros [->|?]; [by apply Hacc | done].
  - simpl. split.
    + rewrite elem_of_app, list_elem_of_singleton. tauto.
    + intros y. rewrite elem_of_union, elem_of_singleton, elem_of_app, list_elem_of_singleton, Hacc. tauto.
Qed.

Lemma push_all_new_elem ids acc x :
  (∀ y, y ∈ acc.1 ↔ y ∈ acc.2) →
  (x ∈ (foldl push_new acc ids).2 ↔ x ∈ ids ∨ x ∈ acc.2) ∧
  (∀ y, y ∈ (foldl push_new acc ids).1 ↔ y ∈ (foldl push_new acc ids).2).
Proof.
  revert acc. induction ids as [|id ids IH]; intros acc Hacc; simpl.
  { split; [|done]. rewrite elem_of_nil. tauto. }
  destruct (push_new_elem acc id x Hacc) as [Hx Hacc']. destruct (IH (push_new acc id) Hacc') as [IHx ?].
  split; [|done]. rewrite IHx, Hx, elem_of_cons. tauto.
Qed.

Lemma elem_issuer_targets prov roots x :
  x ∈ issuer_targets prov roots ↔ ∃ r, r ∈ roots ∧ (x = r ∨ x ∈ walk_descendants prov r).
Proof.
  unfold issuer_targets.
  assert (∀ acc : gset string * list string, (∀ y, y ∈ acc.1 ↔ y ∈ acc.2) →
    x ∈ (foldl (λ acc root, foldl push_new (push_new acc root) (walk_descendants prov root)) acc roots).2 ↔
      x ∈ acc.2 ∨ ∃ r, r ∈ roots ∧ (x = r ∨ x ∈ walk_descendants prov r)) as Hgen.
  { induction roots as [|r roots IH]; intros acc Hacc; simpl.
    - split; [by left|]. intros [?|(r & ?%elem_of_nil & _)]; done.
    - destruct (push_new_elem acc r x Hacc) as [Hx1 Hacc1].
      destruct (push_all_new_elem (walk_descendants prov r) _ x Hacc1) as [Hx2 Hacc2].
      rewrite (IH _ Hacc2), Hx2, Hx1. setoid_rewrite elem_of_cons. naive_solver. }
  rewrite Hgen by (intros y; simpl; set_solver). simpl. rewrite elem_of_nil. tauto.
Qed.

(** The loop body of the two sweeps that emit as they go. *)
Definition sweep_one (why : string) (id : string) : ST (option string) :=
  o ← revoke_one id;
  match o with
  | Some g =>
      _ ← emit (grant_revoked_event (Grant.id g) (Grant.grantee g) (Grant.capability g) why 0);
      mret (Some (Grant.id g))
  | None => mret None
  end.

Lemma sweep_one_Ok why id s o s' :
  sweep_one why id s = (Ok o, s') →
  grants s' = alter (flip GrantStatus.Revoked) id (grants s) ∧ o = Grant.id <$> active_at s id.
Proof.
  unfold sweep_one. intros Hrun. apply M_bind_Ok in Hrun as (o' & s1 & Hone & Hrun).
  apply revoke_one_Ok in Hone as (-> & Hg & _). destruct (active_at s id) as [g|].
  - injection Hrun as <- <-. by split.
  - injection Hrun as <- <-. by split.
Qed.

Lemma healthy_sweep_one why id : total healthy (sweep_one why id).
Proof.
  unfold sweep_one. apply total_bind; [apply healthy_revoke_one|]. intros [g|]; [|apply total_ret].
  apply total_bind; [apply healthy_emit|]. intros _. apply total_ret.
Qed.

(** A sweep over a list of ids: it succeeds, and revokes exactly the listed. *)
Lemma sweep_run why ids s :
  healthy s →
  ∃ out s', collect (sweep_one why) ids s = (Ok out, s') ∧ healthy s' ∧
    grants s' = flip_all GrantStatus.Revoked ids (grants s) ∧
    (∀ id, id ∈ out ↔ id ∈ ids ∧ is_Some (active_at s id)).
Proof.
  intros Hs. destruct (total_collect healthy (sweep_one why) ids) with (s := s) as (out & s' & Hrun & Hs'); [|done|].
  { intros id _. apply healthy_sweep_one. }
  exists out, s'. split_and!; [done..| |].
  - apply (collect_flip GrantStatus.Revoked id (λ _ g, Grant.id g)) in Hrun as [Hg _]; [by rewrite list_fmap_id in Hg|].
    intros x s0 o s1 Hx. by apply sweep_one_Ok in Hx.
  - apply (collect_flip GrantStatus.Revoked id (λ _ g, Grant.id g)) in Hrun as [_ ->].
    + destruct (retired_ids GrantStatus.Revoked id (λ (_ : string) g, Grant.id g) id ids (grants s)) as [Hids _]; [done| |].
      * intros x g Hg. apply (active_at_Some s x g) in Hg as [Hg _]. destruct Hs as (_ & Hk & _). exact (Hk x g Hg).
      * by rewrite !list_fmap_id in Hids.
    + intros x s0 o s1 Hx. by apply sweep_one_Ok in Hx.
Qed.

(** The sorted roots of [cascade_by_issuer]. *)
Definition issuer_roots (parent : string) (s : GrantStore) : list string :=
  match by_issuer s !! parent with Some set => sort_ids (iter_ids set) | None => [] end.

Lemma cascade_by_issuer_run parent s :
  cascade_by_issuer parent s =
    match collect (sweep_one ("parent-terminate:" +:+ parent)) (issuer_targets (provenance s) (issuer_roots parent s)) s with
    | (Ok out, s') =>
        (Ok (mkCascadeResult (default "" (head (issuer_roots parent s))) out
               (size_of (List.filter (λ id, negb (bool_decide (id ∈ issuer_roots parent s))) out))), s')
    | (Err e, s') => (Err e, s')
    end.
Proof. done. Qed.

Lemma elem_issuer_roots `{!HashOrderLaws} parent s r :
  wf s → r ∈ issuer_roots parent s ↔ ∃ g, grants s !! r = Some g ∧ Grant.issuer g = GrantIssuer.Parent parent.
Proof.
  intros Hwf. rewrite <- (wf_issuer s Hwf). unfold issuer_roots, ids_of.
  destruct (by_issuer s !! parent) as [ids|]; simpl.
  - unfold sort_ids. by rewrite merge_sort_Permutation, iter_ids_perm, elem_of_elements.
  - rewrite elem_of_nil. set_solver.
Qed.

(** A flip leaves a grant revoked, or as it was if it was not active. *)
Lemma flip_all_inactive ids (gs : gmap string Grant.t) id g :
  id ∈ ids → flip_all GrantStatus.Revoked ids gs !! id = Some g → Grant.is_active g = false.
Proof.
  intros Hin. rewrite lookup_flip_all, decide_True by done. destruct (gs !! id) as [g0|]; [|done].
  intros [= <-]. apply flip_inactive.
Qed.

Lemma flip_all_same ids (gs : gmap string Grant.t) id :
  (id ∈ ids → active_in gs id = None) → flip_all GrantStatus.Revoked ids gs !! id = gs !! id.
Proof.
  intros Hin. rewrite lookup_flip_all by done. case_decide as Hid; [|done]. specialize (Hin Hid).
  unfold active_in in Hin. destruct (gs !! id) as [g|]; [|done]. simpl. unfold flip.
  by destruct (Grant.is_active g).
Qed.
(** ** Consumption and expiry *)

Lemma consume_Ok id f s s' :
  consume id f s = (Ok tt, s') →
  f ≠ "" ∧ len f ≤ 256 ∧ has_control f = false ∧
  ∃ g, active_at s id = Some g ∧ Grant.ttl g = GrantTtl.Once ∧
    grants s' = alter (flip GrantStatus.Consumed) id (grants s) ∧
    event_bus s' = event_bus s ++ [grant_consumed_event (Grant.id g) (Grant.grantee g) (Grant.capability g) f].
Proof.
  unfold consume. intros Hrun. steps. pure_steps.
  repeat match goal with H : guard_err _ _ = Ok _ |- _ => apply guard_err_Ok in H
                    | H : ok_or _ _ = Ok _ |- _ => apply ok_or_Ok in H end. b2p.
  match goal with H : grants s !! id = Some ?p |- _ => rename p into g; rename H into Hg end.
  match goal with H : (256 <? _) = false |- _ => apply Z.ltb_ge in H end.
  split_and!; [done..|]. exists g. split_and!; [by apply active_at_Some|done|..].
  all: match goal with H : modify _ _ = _ |- _ => injection H as _ <- end.
  all: match goal with H : db _ _ = _ |- _ => apply db_update_status_cases in H as [(? & ? & _)|(_ & _ & fs & ->)]; [done|] end.
  all: injection Hrun as <-; simpl.
  - by eapply alter_set_status_flip.
  - done.
Qed.

Lemma for_each_update_status st (evs : list Grant.t) s :
  healthy s → (∀ g, g ∈ evs → is_Some (grants s !! Grant.id g)) →
  ∃ s', for_each (λ g, db (update_status (Grant.id g) st)) evs s = (Ok tt, s') ∧ healthy s' ∧ grants s' = grants s.
Proof.
  revert s. induction evs as [|g evs IH]; intros s Hs Hin; simpl; [by exists s|].
  destruct (healthy_update_status (Grant.id g) st s Hs) as (s1 & Hrun & Hs1 & Hg1); [apply Hin; left|].
  destruct (IH s1 Hs1) as (s2 & Hrun2 & Hs2 & Hg2).
  { intros g' Hg'. rewrite Hg1. apply Hin. by right. }
  exists s2. run. rewrite Hrun. split_and!; [done..|congruence].
Qed.

(** Expiry succeeds and flips exactly the active ones among its ids. *)
Lemma expire_ids_run ids s :
  healthy s →
  ∃ s', expire_ids ids s = (Ok (size_of (retired GrantStatus.Expired id (λ _ g, g) ids (grants s))), s') ∧
    healthy s' ∧ grants s' = flip_all GrantStatus.Expired ids (grants s).
Proof.
  intros Hs. unfold expire_ids.
  destruct (total_collect healthy (flip_active GrantStatus.Expired) ids) with (s := s) as (evs & s1 & Hrun & Hs1); [|done|].
  { intros x _. apply healthy_flip_active. }
  pose proof Hrun as Hc. apply (collect_flip GrantStatus.Expired id (λ _ g, g)) in Hc as [Hg Hevs].
  2:{ intros x s0 o s2. rewrite flip_active_run. intros [= <- <-]. split; [done|]. unfold id.
      by destruct (active_at s0 x). }
  rewrite list_fmap_id in Hg.
  destruct (for_each_update_status GrantStatus.Expired evs s1 Hs1) as (s2 & Hrun2 & Hs2 & Hg2).
  { intros g Hin. rewrite Hg. rewrite lookup_flip_all by done.
    assert (is_Some (grants s !! Grant.id g)) as Hsome.
    { destruct (retired_ids GrantStatus.Expired id (λ (_ : string) g, g) Grant.id ids (grants s)) as [Hids _]; [done| |].
      - intros x g0 Hx. apply (active_at_Some s x g0) in Hx as [Hx _]. destruct Hs as (_ & Hk & _). exact (Hk x g0 Hx).
      - destruct (proj1 (Hids (Grant.id g))) as [_ [g0 Hg0]].
        + rewrite <- Hevs. by apply list_elem_of_fmap_2.
        + apply (active_at_Some s (Grant.id g) g0) in Hg0 as [? _]. by exists g0. }
    case_decide; [by rewrite fmap_is_Some | done]. }
  exists (emit_all ((λ g, grant_expired_event (Grant.id g) (Grant.grantee g) (Grant.capability g) (Grant.ttl g)) <$> evs) s2).
  run. rewrite Hrun. cbn beta iota. rewrite Hrun2. cbn beta iota. rewrite for_each_emit. rewrite Hevs.
  split_and!; [done|by apply (healthy_same s2)|]. simpl. by rewrite Hg2, Hg.
Qed.
End revocation.

(** ** Properties *)

(** C34: a cascade revokes a grant and everything under it.  Without database
    errors, revoking an active grant succeeds; exactly the root and its
    collected descendants that were active become revoked, each reported
    once, the root first, and nothing else changes; and as long as the
    collection stays below [MAX_CASCADE_SIZE], no active grant descends from
    the root afterwards. *)
Theorem cascade_revoke_complete `{Chrono, Codec, HashOrder, V : SubsetValidator} (s : GrantStore) root :
  wf s → healthy s → is_Some (active_at s root) → root ∉ narrow_in_progress s →
  ∃ res s', cascade_revoke root s = (Ok res, s') ∧ wf s' ∧
    narrow_in_progress s' = narrow_in_progress s ∧
    (∀ id, grants s' !! id = if decide (id ∈ targets s root) then flip GrantStatus.Revoked <$> grants s !! id
                             else grants s !! id) ∧
    (∀ id, id ∈ revoked res ↔ id ∈ targets s root ∧ is_Some (active_at s id)) ∧
    NoDup (revoked res) ∧ head (revoked res) = Some root ∧
    (size_of (walk_descendants (provenance s) root) < MAX_CASCADE_SIZE →
       ∀ id g, descends s' root id → grants s' !! id = Some g → Grant.is_active g = false).
Proof.
  intros Hwf Hs Ha Hn.
  destruct (healthy_cascade_revoke root "cascade-revoke" s Hs Ha Hn) as (res & s' & Hrun & _).
  exists res, s'. split; [exact Hrun|].
  pose proof (keeps_cascade_revoke root "cascade-revoke" s) as Hst. rewrite Hrun in Hst. simpl in Hst.
  pose proof (guard_cascade_revoke root "cascade-revoke" s) as Hgd. rewrite Hrun in Hgd. simpl in Hgd.
  apply cascade_revoke_run in Hrun as (_ & _ & Hg & ->).
  assert (∀ id, grants s' !! id = if decide (id ∈ targets s root) then flip GrantStatus.Revoked <$> grants s !! id
                                  else grants s !! id) as Hl.
  { intros id. rewrite Hg. by apply lookup_flip_all. }
  destruct (cascade_applied_ids s root Hwf) as [Hids Hnd].
  split_and!; [by eapply status_step_wf | exact Hgd | exact Hl | exact Hids | exact Hnd | |].
  - by apply cascade_applied_head.
  - intros Hlt id g Hd Hgid. rewrite Hl in Hgid.
    apply descends_descendant in Hd; [|by eapply status_step_wf].
    destruct Hst as (_ & _ & _ & Hprov). rewrite Hprov in Hd.
    rewrite decide_True in Hgid.
    + destruct (grants s !! id) as [g0|]; [|done]. injection Hgid as <-. apply flip_inactive.
    + right. by apply walk_descendants_complete.
Qed.

(** Terminating a parent agent revokes everything it issued.  Without
    database errors [cascade_by_issuer] succeeds, revokes exactly the active
    grants among those the agent issued and their collected descendants, and,
    below the collection cap, leaves no active grant issued by the agent or
    descending from one. *)
Theorem cascade_by_issuer_complete `{Chrono, Codec, HashOrder, V : SubsetValidator, !HashOrderLaws}
    (s : GrantStore) parent :
  wf s → healthy s →
  ∃ res s', cascade_by_issuer parent s = (Ok res, s') ∧ wf s' ∧
    (∀ id, id ∈ revoked res ↔ is_Some (active_at s id) ∧
       ∃ r g, grants s !! r = Some g ∧ Grant.issuer g = GrantIssuer.Parent parent ∧ id ∈ targets s r) ∧
    (∀ id, id ∉ revoked res → grants s' !! id = grants s !! id) ∧
    ((∀ r, size_of (walk_descendants (provenance s) r) < MAX_CASCADE_SIZE) →
       ∀ r g id g', grants s !! r = Some g → Grant.issuer g = GrantIssuer.Parent parent →
         id = r ∨ descends s r id → grants s' !! id = Some g' → Grant.is_active g' = false).
Proof.
  intros Hwf Hs. rewrite cascade_by_issuer_run.
  destruct (sweep_run ("parent-terminate:" +:+ parent) (issuer_targets (provenance s) (issuer_roots parent s)) s Hs)
    as (out & s' & Hrun & _ & Hg & Hout).
  rewrite Hrun. eexists _, s'. split; [done|].
  assert (status_step s s') as Hst.
  { pose proof (keeps_cascade_by_issuer parent s) as K. by rewrite cascade_by_issuer_run, Hrun in K. }
  assert (∀ id, id ∈ issuer_targets (provenance s) (issuer_roots parent s) ↔
    ∃ r g, grants s !! r = Some g ∧ Grant.issuer g = GrantIssuer.Parent parent ∧ id ∈ targets s r) as Htg.
  { intros id. rewrite elem_issuer_targets. setoid_rewrite elem_issuer_roots; [|done].
    unfold targets. setoid_rewrite elem_of_cons. naive_solver. }
  split_and!.
  - by eapply status_step_wf.
  - intros id. simpl. rewrite Hout, Htg. tauto.
  - intros id. simpl. rewrite Hout, Hg. intros Hni. apply flip_all_same. intros Hin.
    unfold active_at in Hni. destruct (active_in (grants s) id); [|done]. exfalso. apply Hni. by split.
  - intros Hlt r g id g' Hr Hi Hid. rewrite Hg. apply flip_all_inactive, Htg. exists r, g.
    split_and!; [done..|]. destruct Hid as [->|Hid]; [by left|]. right.
    apply walk_descendants_complete; [done|]. by apply descends_descendant.
Qed.

(** A [Once] grant is consumed at most once.  A successful [consume] finds
    the grant active and [Once], marks it consumed and reports it; from then
    on, through any sequence of operations other than a static insert, every
    further [consume] of it fails. *)
Theorem consume_at_most_once `{Chrono, Codec, HashOrder, V : SubsetValidator} (s s' s'' : GrantStore) id f f' :
  consume id f s = (Ok tt, s') → rtc dynamic_step s' s'' →
  (∃ g, grants s !! id = Some g ∧ Grant.is_active g = true ∧ Grant.ttl g = GrantTtl.Once ∧
     grants s' !! id = Some (Grant.set_status GrantStatus.Consumed g)) ∧
  is_ok (consume id f' s'').1 = false.
Proof.
  intros (_ & _ & _ & g & [Hg Ha]%active_at_Some & Ht & Hs' & _)%consume_Ok Hrtc.
  assert (grants s' !! id = Some (Grant.set_status GrantStatus.Consumed g)) as Hl.
  { rewrite Hs', lookup_alter_eq, Hg. simpl. unfold flip. by rewrite Ha. }
  split; [by exists g|].
  assert (evolves s' s'') as Hev.
  { clear -Hrtc. induction Hrtc as [|s1 s2 s3 (o & Had & Hd & ->) _ IH]; [done|].
    etrans; [by apply run_op_evolves | exact IH]. }
  destruct (Hev id _ Hl) as (g' & Hg' & _ & Hfix). rewrite Hfix in Hg' by by destruct g.
  destruct (consume id f' s'') as [[[]|e] s3] eqn:Hrun; [|done]. exfalso.
  apply consume_Ok in Hrun as (_ & _ & _ & g2 & [Hg2 Ha2]%active_at_Some & _).
  rewrite Hg' in Hg2. injection Hg2 as <-. by destruct g.
Qed.

(** The sweeper is exact.  Without database errors a tick at [now]
    expires precisely the active grants whose deadline is at or before [now]:
    no such grant stays active, and no other grant changes. *)
Theorem tick_expires_exactly `{Chrono, Codec, HashOrder, V : SubsetValidator, !HashOrderLaws}
    (s : GrantStore) now id :
  wf s → healthy s →
  grants (tick now s) !! id =
    (λ g, if Grant.is_active g && negb (Grant.unexpired now g) then Grant.set_status GrantStatus.Expired g else g)
      <$> grants s !! id.
Proof.
  intros Hwf Hs.
  assert (∀ id, id ∈ collect_expired_ids now s ↔
    ∃ g, grants s !! id = Some g ∧ Grant.is_active g && negb (Grant.unexpired now g) = true) as Hc.
  { intros k. unfold collect_expired_ids. rewrite list_elem_of_fmap. split.
    - intros (g & -> & Hin). apply list_elem_of_In, filter_In in Hin as [Hin Hb]. apply list_elem_of_In in Hin.
      rewrite iter_grants_perm in Hin. apply list_elem_of_fmap in Hin as ([k g'] & -> & Hin).
      apply elem_of_map_to_list in Hin. simpl in *. exists g'. by rewrite (wf_key s Hwf k g' Hin).
    - intros (g & Hg & Hb). exists g. rewrite (wf_key s Hwf k g Hg). split; [done|].
      apply list_elem_of_In, filter_In. split; [|done]. apply list_elem_of_In.
      rewrite iter_grants_perm. apply list_elem_of_fmap. exists (k, g). by rewrite elem_of_map_to_list. }
  unfold tick. destruct (bool_decide (collect_expired_ids now s = [])) eqn:Hnil; b2p.
  - destruct (grants s !! id) as [g|] eqn:Hg; [|done]. simpl.
    destruct (Grant.is_active g && negb (Grant.unexpired now g)) eqn:Hb; [|done].
    assert (id ∈ collect_expired_ids now s) as Hin by (apply Hc; eauto). rewrite Hnil in Hin.
    by apply elem_of_nil in Hin.
  - destruct (expire_ids_run (collect_expired_ids now s) s Hs) as (s' & Hrun & _ & Hg). rewrite Hrun. simpl.
    rewrite Hg, lookup_flip_all by done. destruct (grants s !! id) as [g|] eqn:Hl; [|by case_decide]. simpl.
    case_decide as Hin.
    + f_equal. apply Hc in Hin as (g' & Hg' & Hb). rewrite Hl in Hg'. injection Hg' as <-. rewrite Hb.
      apply andb_true_iff in Hb as [Ha _]. unfold flip. by rewrite Ha.
    + destruct (Grant.is_active g && negb (Grant.unexpired now g)) eqn:Hb; [|done].
      exfalso. apply Hin, Hc. eauto.
Qed.

(** Narrowing replaces.  A successful [narrow] was asked by the holder of
    an active grant; that grant and everything collected under it are no
    longer active, one new grant with the validated params takes its place,
    for the same holder, capability and TTL, and no other grant changes.  Its
    deadline is clamped to the old one for a [Duration] TTL; for the other
    TTLs it is recomputed from the TTL alone. *)
Theorem narrow_replaces `{Chrono, Codec, HashOrder, V : SubsetValidator}
    (s : GrantStore) now uuid gid ps caller id s' :
  wf s → grants s !! uuid = None →
  narrow now uuid gid ps caller s = (Ok id, s') →
  ∃ old new,
    active_at s gid = Some old ∧ Grant.grantee old = caller ∧ id = uuid ∧ active_at s' id = Some new ∧
    validate old (GrantDraft.mk (Grant.capability old) ps (Grant.ttl old)) = Ok tt ∧
    Grant.grantee new = caller ∧ Grant.capability new = Grant.capability old ∧ Grant.params new = ps ∧
    Grant.ttl new = Grant.ttl old ∧ delegated_from new = Some gid ∧
    (∀ k, k ∈ targets s gid → active_at s' k = None) ∧
    (∀ k, k ∉ targets s gid → k ≠ id → grants s' !! k = grants s !! k) ∧
    match Grant.ttl old with
    | GrantTtl.Duration _ => deadline_le (Grant.expires_at new) (Grant.expires_at old)
    | GrantTtl.Until t => Grant.expires_at new = Some t
    | _ => Grant.expires_at new = None
    end.
Proof.
  intros Hwf Hfresh (old & res & s1 & s2 & _ & Hg & Ha & Hc & _ & _ & Hv & Hcas & -> & Hi & ->)%narrow_Ok.
  apply cascade_revoke_run in Hcas as (_ & _ & Hg1 & _).
  pose proof (ins_grants _ _ _ (ins_mem _ _ _ Hi)) as Hg2. simpl in Hg2.
  assert (uuid ∉ targets s gid) as Hnt.
  { intros [->|Hd]%elem_of_cons; [congruence|].
    apply walk_descendants_sound, descends_descendant in Hd; [|done].
    inversion Hd as [? g p Hl|? ? ? g ? Hl]; subst; congruence. }
  exists old, (narrowed_grant now uuid old ps gid).
  split_and!; try done; unfold active_at, active_in; simpl; rewrite ?Hg2.
  - by rewrite Hg, Ha.
  - by rewrite lookup_insert_eq.
  - intros k Hk. rewrite lookup_insert_ne by congruence. rewrite Hg1.
    destruct (flip_all _ _ _ !! k) as [g|] eqn:Hl; [|done]. by rewrite (flip_all_inactive _ _ _ _ Hk Hl).
  - intros k Hk Hne. rewrite lookup_insert_ne by congruence. by rewrite Hg1, lookup_flip_all, decide_False.
  - unfold narrow_expires_at. destruct (Grant.ttl old); try done.
    destruct (Grant.expires_at old); simpl; [lia | done].
Qed.

(** ** Witnesses *)

#[local] Existing Instances chrono_model codec_model hash_order_model SubsetValidatorImpl.

Lemma cascade_revoke_complete_witness :
  match cascade_revoke "static:root:mcp" sample_store with
  | (Ok res, s') => revoked res = ["static:root:mcp"; "uuid-1"; "uuid-2"] ∧
      ∀ id g, descends s' "static:root:mcp" id → grants s' !! id = Some g → Grant.is_active g = false
  | _ => False
  end.
Proof.
  destruct (cascade_revoke_complete sample_store "static:root:mcp") as (res & s' & Hrun & _ & _ & _ & _ & _ & _ & Hall).
  - apply sample_wf.
  - apply sample_healthy.
  - exists sample_static. by vm_compute.
  - apply (bool_decide_unpack _). by vm_compute.
  - rewrite Hrun. split; [|apply Hall; by vm_compute].
    change res with (match (Ok res : Result CascadeResult) with Ok r => r | Err _ => res end).
    replace (Ok res) with (cascade_revoke "static:root:mcp" sample_store).1 by by rewrite Hrun. by vm_compute.
Defined.

Lemma cascade_by_issuer_complete_witness :
  match cascade_by_issuer "root" sample_store with
  | (Ok res, s') => revoked res = ["uuid-1"; "uuid-2"] ∧ grants s' !! "uuid-0" = Some sample_once
  | _ => False
  end.
Proof.
  destruct (@cascade_by_issuer_complete _ _ _ _ hash_order_model_laws sample_store "root")
    as (res & s' & Hrun & _ & _ & Hsame & _); [apply sample_wf | apply sample_healthy |].
  rewrite Hrun. assert (revoked res = ["uuid-1"; "uuid-2"]) as Hres.
  { change res with (match (Ok res : Result CascadeResult) with Ok r => r | Err _ => res end).
    replace (Ok res) with (cascade_by_issuer "root" sample_store).1 by by rewrite Hrun. by vm_compute. }
  split; [done|]. rewrite Hsame; [by vm_compute|]. rewrite Hres. apply (bool_decide_unpack _). by vm_compute.
Defined.

Lemma consume_at_most_once_witness :
  is_ok (consume "uuid-0" "tools::run" (tick 7 (consume "uuid-0" "tools::run" sample_store).2)).1 = false.
Proof.
  apply (consume_at_most_once sample_store (consume "uuid-0" "tools::run" sample_store).2 _ "uuid-0" "tools::run").
  - by vm_compute.
  - apply rtc_once. by exists (Tick 7).
Defined.

Lemma tick_expires_exactly_witness :
  Grant.status <$> grants (tick 60000000001 sample_store) !! "uuid-1" = Some GrantStatus.Expired ∧
  Grant.status <$> grants (tick 60000000000 sample_store) !! "uuid-1" = Some GrantStatus.Active.
Proof.
  rewrite !(@tick_expires_exactly _ _ _ _ hash_order_model_laws) by (apply sample_wf || apply sample_healthy).
  by vm_compute.
Defined.

Lemma narrow_replaces_witness :
  match narrow 3 "uuid-3" "uuid-1" [CapParam.mk "servers" "github"; CapParam.mk "tool-patterns" "get_issue"] "kid"
          sample_store with
  | (Ok id, s') => id = "uuid-3" ∧ active_at s' "uuid-1" = None ∧ active_at s' "uuid-2" = None
  | _ => False
  end.
Proof.
  destruct (narrow 3 "uuid-3" "uuid-1" [CapParam.mk "servers" "github"; CapParam.mk "tool-patterns" "get_issue"] "kid"
    sample_store) as [r s'] eqn:Hrun.
  assert (r = Ok "uuid-3") as -> by (transitivity (r, s').1; [done | rewrite <- Hrun; by vm_compute]).
  apply narrow_replaces in Hrun as (old & new & _ & _ & _ & _ & _ & _ & _ & _ & _ & _ & Hgone & _).
  - split_and!; [done| |]; apply Hgone, (bool_decide_unpack _); by vm_compute.
  - apply sample_wf.
  - by vm_compute.
Defined.
