(* ===== verification/PresetApply.v ===== *)
(** * Replacing an agent's dynamic grants

    What [apply_preset_atomic_for_grantee] revokes and installs. *)
From S2P Require Import Prelude RustStr GrantData Subset Cascade Events GrantSqlite GrantStore StoreFacts StoreProps Revocation.
Open Scope string_scope.
Open Scope list_scope.
Open Scope Z_scope.

Section preset.
Context `{Chrono, Codec, HashOrder, V : SubsetValidator}.

(** ** The subtree loop *)

(** After some ids: they left the active set, and the active ones among them
    that were in it are collected. *)
Lemma preset_pick_fold s ids A local :
  (∀ id, id ∈ A → is_Some (active_at s id)) →
  (∀ id, id ∈ (foldl (preset_pick s) (A, local) ids).1 ↔ id ∈ A ∧ id ∉ ids.*1) ∧
  (∀ g, g ∈ (foldl (preset_pick s) (A, local) ids).2.*1 ↔
     g ∈ local.*1 ∨ ∃ id, id ∈ ids.*1 ∧ id ∈ A ∧ active_at s id = Some g).
Proof.
  revert A local. induction ids as [|[i b] ids IH]; intros A local HA; simpl.
  { setoid_rewrite elem_of_nil. split; [tauto | naive_solver]. }
  unfold preset_pick at 2 4. simpl. case_decide as Hi.
  - destruct (HA i Hi) as [g Hg]. pose proof Hg as [Hl Hac]%active_at_Some. rewrite Hl, Hac.
    destruct (IH (A ∖ {[i]}) (local ++ [(g, b)])) as [IH1 IH2]; [set_solver|]. split.
    + intros id. rewrite IH1. set_solver.
    + intros g'. rewrite IH2, fmap_app. simpl. rewrite elem_of_app, list_elem_of_singleton. split.
      * intros [[?| ->]|(id & Hin & Hid & ?)]; [by left | right; exists i; set_solver | right; exists id; set_solver].
      * intros [?|(id & [->|Hin]%elem_of_cons & Hid & Hag)]; [by left; left | left; right; congruence |].
        destruct (decide (id = i)) as [->|]; [left; right; congruence|]. right. exists id. set_solver.
  - destruct (IH A local HA) as [IH1 IH2]. split.
    + intros id. rewrite IH1. set_solver.
    + intros g'. rewrite IH2. split.
      * intros [?|(id & ? & ? & ?)]; [by left | right; exists id; set_solver].
      * intros [?|(id & [->|Hin]%elem_of_cons & ? & ?)]; [by left | done | right; by exists id].
Qed.

(** ** The loop over the roots *)

(** What holds between roots; [done] are the roots handled so far. *)
Record preset_inv (s : GrantStore) (done : list string) (acc : gset string * list (Grant.t * Z)) : Prop := {
  pi_sound g : g ∈ acc.2.*1 → ∃ r id, r ∈ done ∧ id ∈ targets s r ∧ active_at s id = Some g;
  pi_active id : id ∈ acc.1 ↔ is_Some (active_at s id) ∧ ∀ g, active_at s id = Some g → g ∉ acc.2.*1;
  pi_complete :
    (∀ r, size_of (walk_descendants (provenance s) r) < MAX_CASCADE_SIZE) →
    ∀ r id g, r ∈ done → id ∈ targets s r → active_at s id = Some g → g ∈ acc.2.*1
}.

Lemma targets_trans s r id x :
  (∀ r, size_of (walk_descendants (provenance s) r) < MAX_CASCADE_SIZE) →
  id ∈ targets s r → x ∈ targets s id → x ∈ targets s r.
Proof.
  intros Hlt. unfold targets. rewrite !elem_of_cons. intros [->|Hid] [->|Hx]; auto.
  right. apply walk_descendants_complete; [done|].
  apply walk_descendants_sound in Hid, Hx. eapply tc_transitive; [exact Hid | exact Hx].
Qed.

Lemma preset_inv_step s done acc r :
  wf s → is_Some (active_at s r) → preset_inv s done acc → preset_inv s (done ++ [r]) (preset_root s acc r).
Proof.
  intros Hwf [gr Hgr] [Hs Ha Hc].
  assert (∀ id id' g, active_at s id = Some g → active_at s id' = Some g → id = id') as Hinj.
  { intros id id' g [H2 _]%active_at_Some [H3 _]%active_at_Some.
    rewrite <- (wf_key s Hwf id g H2). by apply (wf_key s Hwf). }
  unfold preset_root. case_decide as Hr.
  - change ((r, true) :: _) with (flagged s r).
    destruct (preset_pick_fold s (flagged s r) acc.1 []) as [P1 P2]; [intros id Hid; by apply Ha|].
    destruct (foldl (preset_pick s) (acc.1, []) (flagged s r)) as [A local].
    rewrite flagged_keys in P1, P2. cbn [fst snd] in *.
    assert (∀ g, g ∈ (acc.2 ++ ((λ gr : Grant.t * bool, (gr.1, if gr.2 then count_descendants local else 0)) <$> local)).*1
      ↔ g ∈ acc.2.*1 ∨ ∃ id, id ∈ targets s r ∧ id ∈ acc.1 ∧ active_at s id = Some g) as Hout.
    { intros g. rewrite fmap_app, elem_of_app, <- list_fmap_compose. simpl.
      rewrite P2. rewrite elem_of_nil. tauto. }
    split; simpl.
    + intros g. rewrite Hout. intros [Hg|(id & ? & ? & ?)].
      * destruct (Hs g Hg) as (r' & id & ? & ? & ?). exists r', id. set_solver.
      * exists r, id. set_solver.
    + intros id. rewrite P1, Ha. setoid_rewrite Hout. split.
      * intros [[Hsome Hni] Ht]. split; [done|]. intros g Hg [?|(id' & ? & ? & Hg')]; [by eapply Hni|].
        by rewrite (Hinj id id' g Hg Hg') in Ht.
      * intros [Hsome Hni]. split; [split; [done|]|].
        -- intros g Hg Hin. apply (Hni g Hg). by left.
        -- intros Ht. destruct Hsome as [g Hg]. apply (Hni g Hg). right. exists id. split_and!; [done| |done].
           apply Ha. split; [by exists g|]. intros g' Hg' Hin. apply (Hni g' Hg'). by left.
    + intros Hlt r' id g Hr' Ht Hg. rewrite Hout. apply elem_of_app in Hr' as [Hr'|Hr'].
      * left. by eapply Hc.
      * apply list_elem_of_singleton in Hr' as ->. destruct (decide (g ∈ acc.2.*1)) as [|Hni]; [by left|].
        right. exists id. split_and!; [done| |done]. apply Ha. split; [by exists g|]. intros g' Hg'. congruence.
  - split.
    + intros g Hg. destruct (Hs g Hg) as (r' & id & ? & ? & ?). exists r', id. set_solver.
    + exact Ha.
    + intros Hlt r' id g Hr' Ht Hg. apply elem_of_app in Hr' as [Hr'|Hr']; [by eapply Hc|].
      apply list_elem_of_singleton in Hr' as ->.
      assert (gr ∈ acc.2.*1) as Hrev.
      { destruct (decide (gr ∈ acc.2.*1)) as [|Hni]; [done|]. exfalso. apply Hr, Ha. split; [by exists gr|].
        intros g' Hg'. congruence. }
      destruct (Hs gr Hrev) as (r0 & id0 & Hr0 & Hid0 & Hg0).
      assert (r = id0) as -> by (by eapply Hinj).
      eapply (Hc Hlt r0); [done| |done]. by eapply targets_trans.
Qed.

Lemma elem_active_ids s id : id ∈ active_ids s ↔ is_Some (active_at s id).
Proof.
  unfold active_ids. rewrite elem_of_dom. split.
  - intros [g Hg]. apply map_lookup_filter_Some in Hg as [Hg Ha]. exists g. by apply active_at_Some.
  - intros [g [Hg Ha]%active_at_Some]. exists g. by apply map_lookup_filter_Some.
Qed.

Lemma elem_dynamic_roots `{!HashOrderLaws} k s r :
  wf s →
  r ∈ dynamic_roots k s ↔ ∃ g, active_at s r = Some g ∧ Grant.grantee g = k ∧ is_static g = false.
Proof.
  intros Hwf.
  assert (r ∈ dynamic_roots k s ↔ r ∈ ids_of k (by_grantee s) ∧
    match grants s !! r with Some g => Grant.is_active g && negb (is_static g) | None => false end = true) as Hd.
  { unfold dynamic_roots, ids_of. destruct (by_grantee s !! k) as [ids|]; simpl.
    - unfold sort_ids. rewrite merge_sort_Permutation, list_elem_of_In, filter_In, <- list_elem_of_In.
      by rewrite iter_ids_perm, elem_of_elements.
    - rewrite elem_of_nil. set_solver. }
  rewrite Hd, (wf_grantee s Hwf). unfold active_at, active_in. split.
  - intros [(g & Hg & Hk) Hb]. rewrite Hg in *. apply andb_true_iff in Hb as [Ha Hs%negb_true_iff].
    exists g. by rewrite Ha.
  - intros (g & Hg & Hk & Hs). destruct (grants s !! r) as [g'|]; [|done].
    destruct (Grant.is_active g'); [|done]. injection Hg as ->. rewrite Hs. split; [by exists g | done].
Qed.

Lemma preset_revocations_inv `{!HashOrderLaws} k s :
  wf s →
  ∃ A, preset_inv s (dynamic_roots k s) (A, preset_revocations k s).
Proof.
  intros Hwf. unfold preset_revocations.
  assert (∀ done roots acc, (∀ r, r ∈ roots → is_Some (active_at s r)) → preset_inv s done acc →
    preset_inv s (done ++ roots) (foldl (preset_root s) acc roots)) as Hgen.
  { intros dn roots. revert dn. induction roots as [|r roots IH]; intros dn acc Hr Hi; simpl; [by rewrite app_nil_r|].
    replace (dn ++ r :: roots) with ((dn ++ [r]) ++ roots) by (by rewrite <- app_assoc).
    apply IH; [intros r' Hr'; apply Hr; by right|]. apply preset_inv_step; [done| |done]. apply Hr. left. }
  exists (foldl (preset_root s) (active_ids s, []) (dynamic_roots k s)).1.
  rewrite <- surjective_pairing. apply (Hgen [] (dynamic_roots k s)).
  - intros r (g & Hg & _)%elem_dynamic_roots; [|done]. by exists g.
  - split; simpl.
    + by intros g ?%elem_of_nil.
    + intros id. rewrite elem_active_ids. split; [|tauto]. intros ?. split; [done|]. by intros g _ ?%elem_of_nil.
    + by intros _ r id g ?%elem_of_nil.
Qed.

(** The ids a preset apply revokes are active, and lie in the subtree of an
    active dynamic grant of the target; below the cap, all of them. *)
Lemma elem_revocation_ids `{!HashOrderLaws} k s id :
  wf s →
  (id ∈ revocation_ids k s → is_Some (active_at s id) ∧ ∃ r, r ∈ dynamic_roots k s ∧ id ∈ targets s r) ∧
  ((∀ r, size_of (walk_descendants (provenance s) r) < MAX_CASCADE_SIZE) →
     ∀ r, r ∈ dynamic_roots k s → id ∈ targets s r → is_Some (active_at s id) → id ∈ revocation_ids k s).
Proof.
  intros Hwf. destruct (preset_revocations_inv k s Hwf) as (A & [Hs _ Hc]). simpl in *.
  unfold revocation_ids. split.
  - intros ([g c] & -> & Hin)%list_elem_of_fmap. simpl.
    destruct (Hs g) as (r & id' & Hr & Hid & Hg); [by apply list_elem_of_fmap; exists (g, c)|].
    pose proof Hg as [Hg' _]%active_at_Some. rewrite (wf_key s Hwf id' g Hg').
    split; [by exists g | by exists r].
  - intros Hlt r Hr Hid [g Hg]. specialize (Hc Hlt r id g Hr Hid Hg).
    apply list_elem_of_fmap in Hc as ([g' c] & -> & Hin). pose proof Hg as [Hg' _]%active_at_Some.
    apply list_elem_of_fmap. exists (g', c). split; [|done]. simpl. symmetry. by apply (wf_key s Hwf).
Qed.
(** A successful apply stores every created grant as it was given. *)
Lemma apply_preset_created s k created ids s' :
  all_fresh created s → apply_preset_atomic_for_grantee k created s = (Ok ids, s') →
  ∀ g, g ∈ created → grants s' !! Grant.id g = Some g.
Proof.
  intros Hfr Hrun g Hg. apply apply_preset_cases in Hrun as [(e & ? & _)|(_ & _ & fs & ->)]; [done|].
  simpl. apply foldl_install_created; [apply Hfr | done].
Qed.
(** What a stored grant was before a successful apply. *)
Lemma apply_preset_lookup s k created ids s' id g :
  apply_preset_atomic_for_grantee k created s = (Ok ids, s') → grants s' !! id = Some g →
  (g ∈ created ∧ Grant.id g = id) ∨ grants s !! id = Some g ∨ (id ∈ ids.1 ∧ Grant.is_active g = false).
Proof.
  intros Hrun. apply apply_preset_cases in Hrun as [(e & ? & _)|(Hr & _ & fs & ->)]; [done|].
  injection Hr as ->. simpl. rewrite foldl_install_lookup.
  destruct (last _) as [h|] eqn:Hl.
  - intros [= ->]. left. apply last_Some_elem_of, list_elem_of_In, filter_In in Hl as [Hin Hid%String.eqb_eq].
    split; [by apply list_elem_of_In | done].
  - simpl. rewrite lookup_flip_all by done. case_decide as Hin; [|by right; left].
    intros (g0 & _ & ->)%fmap_Some. right. right. split; [done|]. apply flip_inactive.
Qed.
End preset.

(** ** Property *)

(** Applying a preset replaces, atomically.  A failed apply changes
    nothing.  A successful one revokes only active grants lying at or under an
    active non-static grant of the target agent, below the collection cap all
    of them; it installs exactly the created grants; every other grant,
    static ones included, is as before. *)
Theorem apply_preset_replaces `{Chrono, Codec, HashOrder, V : SubsetValidator, !HashOrderLaws}
    (s : GrantStore) grantee created :
  wf s → all_fresh created s →
  match apply_preset_atomic_for_grantee grantee created s with
  | (Err _, s') => unchanged s s'
  | (Ok (revoked_ids, created_ids), s') =>
      created_ids = Grant.id <$> created ∧ wf s' ∧
      (∀ g, g ∈ created → grants s' !! Grant.id g = Some g) ∧
      (∀ id, id ∉ created_ids → grants s' !! id =
         if decide (id ∈ revoked_ids) then Grant.set_status GrantStatus.Revoked <$> grants s !! id
         else grants s !! id) ∧
      (∀ id, id ∈ revoked_ids → is_Some (active_at s id) ∧
         ∃ r g, active_at s r = Some g ∧ Grant.grantee g = grantee ∧ is_static g = false ∧ id ∈ targets s r) ∧
      ((∀ r, size_of (walk_descendants (provenance s) r) < MAX_CASCADE_SIZE) →
       ∀ r g id, active_at s r = Some g → Grant.grantee g = grantee → is_static g = false →
         id ∈ targets s r → is_Some (active_at s id) → id ∈ revoked_ids)
  end.
Proof.
  intros Hwf Hfr. destruct (apply_preset_atomic_for_grantee grantee created s) as [r s'] eqn:Hrun.
  apply apply_preset_cases in Hrun as [(e & -> & Hu)|(-> & _ & fs & ->)]; [done|].
  set (s1 := set_grants (flip_all GrantStatus.Revoked (revocation_ids grantee s))
        (set_sqlite (mkSqlite (preset_rows grantee created s) fs) s)).
  assert (status_step s s1) as Hst.
  { etrans; [apply (set_flip_all_step (revocation_ids grantee s))|]. by apply status_step_same. }
  assert (all_fresh created s1) as Hfr1 by (by eapply status_step_all_fresh).
  destruct (foldl_install_spec created s1 Hfr1) as (_ & Hw & Hdiff).
  split_and!; [done| | | | |].
  - eapply (status_step_wf (foldl install s1 created)); [by apply status_step_same|].
    apply Hw. by eapply status_step_wf.
  - intros g Hg. simpl. apply foldl_install_created; [apply Hfr | done].
  - intros id Hid. simpl. destruct (decide (grants (foldl install s1 created) !! id = grants s1 !! id)) as [Heq|Hne].
    + rewrite Heq. unfold s1. simpl. rewrite lookup_flip_all by done. case_decide as Hin; [|done].
      apply elem_revocation_ids in Hin as [[g Hg] _]; [|done]. apply active_at_Some in Hg as [Hg Ha].
      rewrite Hg. simpl. unfold flip. by rewrite Ha.
    + destruct (Hdiff id Hne) as (g & Hg & <- & _). exfalso. apply Hid. by apply list_elem_of_fmap_2.
  - intros id Hin. apply elem_revocation_ids in Hin as [Ha (r & Hr & Ht)]; [|done]. split; [done|].
    apply elem_dynamic_roots in Hr as (g & ? & ? & ?); [|done]. exists r, g. by split_and!.
  - intros Hlt r g id Hr Hk Hs Ht Ha. eapply elem_revocation_ids; [done..| |exact Ht|exact Ha].
    apply elem_dynamic_roots; [done|]. by exists g.
Qed.

(** ** Witness *)

#[local] Existing Instances chrono_model codec_model hash_order_model SubsetValidatorImpl.

Definition sample_preset : Grant.t :=
  Grant.mk "uuid-7" "kid" "tools" [CapParam.mk "ids" "lint"] GrantTtl.Lifecycle (GrantIssuer.Resolver "preset:narrow")
    (GrantProvenance.Preset "narrow") GrantStatus.Active 9 None.

Lemma apply_preset_replaces_witness :
  match apply_preset_atomic_for_grantee "kid" [sample_preset] sample_store with
  | (Ok (revoked_ids, created_ids), s') =>
      revoked_ids = ["uuid-0"; "uuid-1"; "uuid-2"] ∧ grants s' !! "uuid-7" = Some sample_preset ∧
      grants s' !! "static:root:mcp" = Some sample_static
  | _ => False
  end.
Proof.
  pose proof (@apply_preset_replaces _ _ _ _ hash_order_model_laws sample_store "kid" [sample_preset]) as Hpost.
  destruct (apply_preset_atomic_for_grantee "kid" [sample_preset] sample_store) as [r s'] eqn:Hrun.
  assert (r = Ok (["uuid-0"; "uuid-1"; "uuid-2"], ["uuid-7"])) as ->
    by (transitivity (r, s').1; [done | rewrite <- Hrun; by vm_compute]).
  destruct Hpost as (_ & _ & Hcr & Hrest & _).
  - apply sample_wf.
  - split; [by apply NoDup_singleton|]. intros g ->%list_elem_of_singleton. by vm_compute.
  - split_and!; [done | apply (Hcr sample_preset); left |].
    rewrite Hrest by (apply (bool_decide_unpack _); by vm_compute). by vm_compute.
Defined.
