(* ===== verification/Durable.v ===== *)
(** * Durability of the grant store

    The durable index refines a map of grants, successful operations keep it
    in step with memory, and a restart recovers exactly the active grants. *)
From S2P Require Import Prelude RustStr GrantData Subset Cascade Events GrantSqlite GrantStore StoreFacts StoreProps Revocation PresetApply.
Open Scope string_scope.
Open Scope list_scope.
Open Scope Z_scope.

(** ** Definitions *)

(** The values the text columns can hold: a [u64] duration, RFC 3339
    instants. *)
Definition storable_ttl (t : GrantTtl.t) : Prop :=
  match t with
  | GrantTtl.Duration ms => 0 ≤ ms ≤ U64_MAX
  | GrantTtl.Until t => rfc3339_range t
  | _ => True
  end.

Definition storable (g : Grant.t) : Prop :=
  storable_ttl (Grant.ttl g) ∧ rfc3339_range (Grant.created_at g) ∧
  match Grant.expires_at g with Some t => rfc3339_range t | None => True end.

#[export] Instance storable_dec g : Decision (storable g).
Proof. unfold storable, storable_ttl, rfc3339_range. destruct (Grant.ttl g), (Grant.expires_at g); apply _. Defined.

Section durable.
Context `{Chrono, Codec, HashOrder, V : SubsetValidator}.

(** The row a grant has, whose [created_at] may be that of its first issue. *)
Definition row_matches (r : Row.t) (g : Grant.t) : Prop :=
  ∃ c, rfc3339_range c ∧ r = row_of (Grant.set_created_at c g).

(** Memory and the durable index agree: every grant has its row, every active
    row its grant, and every row says when it was issued. *)
Record in_step (gs : gmap string Grant.t) (rs : gmap string Row.t) : Prop := {
  step_rows id g : gs !! id = Some g →
    Grant.id g = id ∧ storable g ∧ ∃ r, rs !! id = Some r ∧ row_matches r g;
  step_active id r : rs !! id = Some r → Row.status r = "active" → is_Some (gs !! id);
  step_created id r : rs !! id = Some r → ∃ c, rfc3339_range c ∧ Row.created_at r = to_rfc3339 c
}.

Definition synced (s : GrantStore) : Prop := in_step (grants s) (rows (sqlite s)).

(** ** Rows *)

Context `{!CodecLaws}.

Lemma parse_dt_roundtrip t : rfc3339_range t → parse_dt (to_rfc3339 t) = Ok t.
Proof. intros Ht. unfold parse_dt. by rewrite rfc3339_roundtrip. Qed.

Lemma decode_ttl_roundtrip t : storable_ttl t → decode_ttl (encode_ttl t).1 (encode_ttl t).2 = Ok t.
Proof.
  destruct t as [| | |ms|t]; simpl; intros Ht; try done.
  - unfold decode_ttl. simpl. by rewrite parse_u64_to_string.
  - unfold decode_ttl. simpl. by rewrite parse_dt_roundtrip.
Qed.

Lemma decode_issuer_roundtrip i : decode_issuer (encode_issuer i).1 (encode_issuer i).2 = Ok i.
Proof. by destruct i. Qed.

Lemma decode_provenance_roundtrip p : decode_provenance (encode_provenance p).1 (encode_provenance p).2 = Ok p.
Proof. by destruct p. Qed.

Lemma decode_status_roundtrip st : decode_status (GrantStatus.as_str st) = Ok st.
Proof. by destruct st. Qed.

Lemma decode_row_of g : storable g → decode_row (row_of g) = Ok g.
Proof.
  intros (Ht & Hc & He). unfold decode_row, row_of. simpl.
  rewrite params_roundtrip. simpl. rewrite decode_ttl_roundtrip by done. simpl.
  rewrite decode_issuer_roundtrip. simpl. rewrite decode_provenance_roundtrip. simpl.
  rewrite decode_status_roundtrip. simpl. rewrite parse_dt_roundtrip by done. simpl.
  destruct g as [i gr ca ps tt iss pr st cr [t|]]; simpl in *; [|done]. by rewrite parse_dt_roundtrip.
Qed.

Lemma as_str_active st : GrantStatus.as_str st = "active" ↔ st = GrantStatus.Active.
Proof. by destruct st. Qed.

Lemma row_matches_status r g : row_matches r g → Row.status r = "active" ↔ Grant.is_active g = true.
Proof.
  intros (c & _ & ->). destruct g. unfold Grant.is_active. simpl. rewrite as_str_active.
  by rewrite bool_decide_eq_true.
Qed.

Lemma row_matches_set_status st r g :
  row_matches r g → row_matches (Row.set_status (GrantStatus.as_str st) r) (Grant.set_status st g).
Proof. intros (c & ? & ->). exists c. split; [done|]. by destruct g. Qed.

(** ** Steps keep memory and rows in step *)

(** Retiring the same ids in memory and in the index. *)
Lemma in_step_retire st (l : list string) gs gs' rs rs' :
  st ≠ GrantStatus.Active →
  (∀ id, gs' !! id = if decide (id ∈ l) then Grant.set_status st <$> gs !! id else gs !! id) →
  (∀ id, rs' !! id = if decide (id ∈ l) then Row.set_status (GrantStatus.as_str st) <$> rs !! id else rs !! id) →
  in_step gs rs → in_step gs' rs'.
Proof.
  intros Hst Hg Hr [S1 S2 S3]. split.
  - intros id g. rewrite Hg, Hr. case_decide; [|apply S1].
    destruct (gs !! id) as [g0|] eqn:Hg0; [|done]. intros [= <-].
    destruct (S1 id g0 Hg0) as (Hid & Hs & r & Hrow & Hm). rewrite Hrow. split_and!.
    + by destruct g0.
    + by destruct g0.
    + eexists. split; [done|]. by apply row_matches_set_status.
  - intros id r. rewrite Hg, Hr. case_decide; [|apply S2].
    destruct (rs !! id) as [r0|]; [|done]. intros [= <-] Ha. simpl in Ha. by apply as_str_active in Ha.
  - intros id r. rewrite Hr. case_decide; [|apply S3].
    destruct (rs !! id) as [r0|] eqn:Hr0; [|done]. intros [= <-]. by apply (S3 id r0).
Qed.

(** Installing a storable grant. *)
Lemma in_step_install g gs rs :
  storable g → in_step gs rs → in_step (<[Grant.id g := g]> gs) (execute_upsert_grant g rs).
Proof.
  intros Hs [S1 S2 S3].
  assert (∃ r, execute_upsert_grant g rs = <[Grant.id g := r]> rs ∧ row_matches r g) as (r & -> & Hm).
  { unfold execute_upsert_grant. destruct (rs !! Grant.id g) as [old|] eqn:Ho; eexists; (split; [done|]).
    - destruct (S3 _ _ Ho) as (c & Hc & Heq). exists c. split; [done|].
      unfold row_of, Row.keep_created_at. destruct g. simpl in *. by rewrite Heq.
    - exists (Grant.created_at g). split; [apply Hs|]. by destruct g. }
  split.
  - intros id g'. rewrite !lookup_insert. case_decide as Hid; [|apply S1]. intros [= <-]. split_and!; [done..|eauto].
  - intros id r'. rewrite !lookup_insert. case_decide as Hid; [by eexists | apply S2].
  - intros id r'. rewrite !lookup_insert. case_decide as Hid; [|apply S3]. intros [= <-].
    destruct Hm as (c & Hc & ->). exists c. split; [done|]. by destruct g.
Qed.

(** A flip in memory and the matching row update. *)
Lemma in_step_flip st id gs rs :
  st ≠ GrantStatus.Active → in_step gs rs →
  in_step (alter (flip st) id gs)
    (match active_in gs id with Some g => execute_update_status st rs (Grant.id g) | None => rs end).
Proof.
  intros Hst Hs.
  apply (in_step_retire st (match active_in gs id with Some _ => [id] | None => [] end) gs _ rs); [done| | |done].
  - intros k. unfold active_in. rewrite lookup_alter. case_decide as Hk; [subst k|].
    + destruct (gs !! id) as [g|] eqn:Hg; [|by case_decide]. unfold flip.
      destruct (Grant.is_active g) eqn:Ha; cbn [fmap option_fmap option_map]; rewrite Ha;
        case_decide as Hin; try done; set_solver.
    + case_decide as Hin; [|done]. destruct (gs !! id) as [g|]; [|by apply elem_of_nil in Hin].
      destruct (Grant.is_active g); [|by apply elem_of_nil in Hin].
      apply list_elem_of_singleton in Hin. congruence.
  - intros k. unfold active_in. destruct (gs !! id) as [g|] eqn:Hg; [|done].
    destruct (Grant.is_active g); [|done]. destruct (step_rows _ _ Hs id g Hg) as (-> & _).
    unfold execute_update_status. rewrite lookup_alter. repeat case_decide; subst; try done; set_solver.
Qed.

(** A relation kept by successful steps. *)
Definition sync_kept (s s' : GrantStore) : Prop := synced s → synced s'.

#[export] Instance sync_kept_preorder : PreOrder sync_kept.
Proof. split; unfold sync_kept; auto. Qed.

Lemma sync_revoke_one id : okeeps sync_kept (revoke_one id).
Proof.
  intros s o s' (_ & Hg & _ & _ & Hr)%revoke_one_Ok Hs. unfold synced. rewrite Hg, Hr. by apply in_step_flip.
Qed.

Lemma sync_same s s' : grants s' = grants s → rows (sqlite s') = rows (sqlite s) → sync_kept s s'.
Proof. unfold sync_kept, synced. by intros -> ->. Qed.

Lemma sync_emit e : okeeps sync_kept (emit e).
Proof. intros s a s' [= _ <-]. by apply sync_same. Qed.

Lemma sync_sweep_one why id : okeeps sync_kept (sweep_one why id).
Proof.
  unfold sweep_one. apply (okeeps_bind _); [apply sync_revoke_one|]. intros [g|]; [|apply (okeeps_ret _)].
  apply (okeeps_bind _); [apply sync_emit|]. intros ?. apply (okeeps_ret _).
Qed.

Lemma sync_cascade root why : okeeps sync_kept (cascade_revoke_with_reason root why).
Proof.
  unfold cascade_revoke_with_reason. apply (okeeps_bind _); [by apply (okeeps_pure _)|]. intros s0.
  apply (okeeps_bind _); [by apply (okeeps_pure _)|]. intros [].
  apply (okeeps_bind _); [intros s a s' [= _ <-]; by apply sync_same|]. intros [].
  intros s a s' Hrun. unfold narrow_guarded in Hrun.
  destruct (cascade_phases root why s) as [r s1] eqn:Hph. injection Hrun as -> <-.
  trans s1; [|by apply sync_same]. revert s a s1 Hph. change (okeeps sync_kept (cascade_phases root why)).
  unfold cascade_phases. apply (okeeps_bind _); [by apply (okeeps_pure _)|]. intros s0'.
  apply (okeeps_bind _); [by apply (okeeps_pure _)|]. intros [].
  apply (okeeps_bind _).
  - apply (okeeps_collect _). intros x. apply (okeeps_bind _); [apply sync_revoke_one|]. intros o. apply (okeeps_ret _).
  - intros applied. apply (okeeps_bind _); [|intros ?; apply (okeeps_ret _)].
    apply (okeeps_for_each _). intros a. apply sync_emit.
Qed.

Lemma sync_installs g s s' : storable g → installs g s s' → sync_kept s s'.
Proof.
  intros Hst [[Hg _ _ _] _ Hr _] Hs. unfold synced. rewrite Hg, Hr. by apply in_step_install.
Qed.
Lemma sync_consume id f : okeeps sync_kept (consume id f).
Proof.
  intros s [] s' Hrun. unfold consume in Hrun. steps. pure_steps.
  repeat match goal with H : guard_err _ _ = Ok _ |- _ => apply guard_err_Ok in H
                    | H : ok_or _ _ = Ok _ |- _ => apply ok_or_Ok in H end. b2p.
  match goal with H : grants s !! id = Some ?p |- _ => rename p into g; rename H into Hg end.
  match goal with H : modify _ _ = _ |- _ => injection H as _ <- end.
  match goal with H : db _ _ = _ |- _ => apply db_update_status_cases in H as [(? & ? & _)|(_ & _ & fs & ->)]; [done|] end.
  injection Hrun as <-. intros Hs. unfold synced. simpl.
  rewrite (alter_set_status_flip _ _ _ g) by done.
  pose proof (in_step_flip GrantStatus.Consumed id _ _ ltac:(done) Hs) as Hf.
  unfold active_in in Hf. rewrite Hg in Hf.
  match goal with H : Grant.is_active g = true |- _ => by rewrite H in Hf end.
Qed.

(** Rows updated one after another. *)
Lemma lookup_update_all st (ids : list string) rs id :
  foldl (execute_update_status st) rs ids !! id =
    if decide (id ∈ ids) then Row.set_status (GrantStatus.as_str st) <$> rs !! id else rs !! id.
Proof.
  revert rs. induction ids as [|i ids IH]; intros rs; simpl; [done|].
  rewrite IH. unfold execute_update_status. rewrite lookup_alter.
  destruct (decide (i = id)) as [->|Hne].
  - rewrite (decide_True (P := id ∈ id :: ids)) by left. case_decide; [|done]. by destruct (rs !! id) as [[]|].
  - repeat case_decide; try done; set_solver.
Qed.

Lemma update_each_run st (evs : list Grant.t) s s' :
  for_each (λ g, db (update_status (Grant.id g) st)) evs s = (Ok tt, s') →
  grants s' = grants s ∧ rows (sqlite s') = foldl (execute_update_status st) (rows (sqlite s)) (Grant.id <$> evs).
Proof.
  revert s. induction evs as [|g evs IH]; intros s Hrun; simpl in *; [by injection Hrun as <-|].
  apply M_bind_Ok in Hrun as ([] & s1 & Hdb & Hrun).
  apply db_update_status_cases in Hdb as [(? & ? & _)|(_ & _ & fs & ->)]; [done|].
  by apply IH in Hrun as [-> ->].
Qed.

Lemma sync_expire_ids ids : okeeps sync_kept (expire_ids ids).
Proof.
  intros s n s' Hrun Hs. unfold expire_ids in Hrun.
  apply M_bind_Ok in Hrun as (evs & s1 & Hc & Hrun). rewrite collect_flip_run in Hc. injection Hc as <- <-.
  apply M_bind_Ok in Hrun as ([] & s2 & Hup & Hrun). apply update_each_run in Hup as [Hg Hr].
  unfold mbind, M_bind in Hrun. rewrite for_each_emit in Hrun. injection Hrun as _ <-.
  unfold synced. simpl. rewrite Hg, Hr. simpl.
  destruct (retired_ids GrantStatus.Expired (λ id, id) (λ (_ : string) g, g) Grant.id ids (grants s)) as [Hids _]; [done| |].
  { intros x g Hx. apply (active_at_Some s x g) in Hx as [Hx _]. by apply (step_rows _ _ Hs x g). }
  change ((λ id : string, id) <$> ids) with (Datatypes.id <$> ids) in Hids. rewrite list_fmap_id in Hids.
  eapply (in_step_retire GrantStatus.Expired); [done| |intros id; apply lookup_update_all|exact Hs].
  intros id. rewrite lookup_flip_all by done.
  case_decide as Hin; case_decide as Hin'; try done.
  - apply Hids in Hin' as [_ [g Hg']]. apply (active_at_Some s id g) in Hg' as [Hg' Ha]. rewrite Hg'. simpl.
    unfold flip. by rewrite Ha.
  - assert (active_in (grants s) id = None) as Hn.
    { destruct (active_in (grants s) id) eqn:Ha; [|done]. exfalso. apply Hin', Hids. split; [done|]. by eexists. }
    unfold active_in in Hn. destruct (grants s !! id) as [g|]; [|done]. simpl. unfold flip. by destruct (Grant.is_active g).
  - apply Hids in Hin' as [? _]. done.
Qed.
Lemma in_step_installs created s rs :
  Forall storable created → in_step (grants s) rs →
  in_step (grants (foldl install s created)) (foldl (λ rs g, execute_upsert_grant g rs) rs created).
Proof.
  intros Hst. revert s rs. induction Hst as [|g created Hg _ IH]; intros s rs Hs; simpl; [done|].
  apply IH. simpl. by apply in_step_install.
Qed.

Lemma synced_keyed s id g : synced s → grants s !! id = Some g → Grant.id g = id.
Proof. intros Hs Hg. by apply (step_rows _ _ Hs). Qed.

Lemma sync_preset `{!HashOrderLaws} k created s r s' :
  wf s → Forall storable created →
  apply_preset_atomic_for_grantee k created s = (Ok r, s') → sync_kept s s'.
Proof.
  intros Hwf Hst Hrun Hs. apply apply_preset_cases in Hrun as [(e & ? & _)|(_ & _ & fs & ->)]; [done|].
  unfold synced. simpl. destruct (foldl_install_frame created
    (set_grants (flip_all GrantStatus.Revoked (revocation_ids k s))
       (set_sqlite (mkSqlite (preset_rows k created s) fs) s))) as (-> & _ & _).
  simpl. unfold preset_rows. apply in_step_installs; [done|]. simpl.
  eapply (in_step_retire GrantStatus.Revoked (revocation_ids k s)); [done| |intros id; apply lookup_update_all|exact Hs].
  intros id. rewrite lookup_flip_all by done. case_decide as Hin; [|done].
  apply elem_revocation_ids in Hin as [[g Hg] _]; [|done]. apply active_at_Some in Hg as [Hg Ha].
  rewrite Hg. simpl. unfold flip. by rewrite Ha.
Qed.

(** With every row in place, a revocation fails only for the database. *)
Lemma revoke_one_Err id s e s' : synced s → revoke_one id s = (Err e, s') → e = CapGrantError.Db.
Proof.
  intros Hs. unfold revoke_one. intros Hrun. apply M_bind_Err in Hrun as [Hrun|(o & s1 & Hflip & Hrun)].
  { by rewrite flip_active_run in Hrun. }
  rewrite flip_active_run in Hflip. injection Hflip as <- <-. destruct (active_at s id) as [g|] eqn:Ha; [|done].
  apply active_at_Some in Ha as [Hg _]. destruct (step_rows _ _ Hs id g Hg) as (<- & _ & r & Hr & _).
  apply M_bind_Err in Hrun as [Hrun|(? & ? & _ & Hrun)]; [|done]. revert Hrun.
  unfold db, update_status. run. destruct (db_call_cases (sqlite s)) as [fs Hdb]. simpl.
  destruct Hdb as [-> | ->]; simpl; [by rewrite Hr | by intros [= <- <-]].
Qed.

Lemma collect_Err_Db {A B} (f : A → ST (option B)) l s e s' :
  (∀ x, okeeps sync_kept (f x)) → (∀ x s e s', synced s → f x s = (Err e, s') → e = CapGrantError.Db) →
  synced s → collect f l s = (Err e, s') → e = CapGrantError.Db.
Proof.
  intros Hok Herr. revert s. induction l as [|x l IH]; intros s Hs Hrun; simpl in Hrun; [done|].
  apply M_bind_Err in Hrun as [Hrun|(o & s1 & Hx & Hrun)]; [by eapply Herr|].
  apply M_bind_Err in Hrun as [Hrun|(? & ? & _ & Hrun)]; [|done].
  eapply IH; [|exact Hrun]. by eapply Hok.
Qed.

(** A cascade that answers [NotFound] did nothing. *)
Lemma cascade_NotFound root why s id s' :
  synced s → cascade_revoke_with_reason root why s = (Err (CapGrantError.NotFound id), s') → sync_kept s s'.
Proof.
  intros Hs Hrun. unfold cascade_revoke_with_reason in Hrun. err_steps; pure_steps; try done.
  match goal with H : modify _ _ = _ |- _ => injection H as _ <- end.
  unfold narrow_guarded in Hrun. set (s1 := set_narrow_in_progress (λ nip, {[root]} ∪ nip) s) in *.
  assert (synced s1) as Hs1 by done.
  destruct (cascade_phases root why s1) as [r s2] eqn:Hph. injection Hrun as -> <-.
  trans s2; [|by apply sync_same]. trans s1; [by apply sync_same|].
  unfold cascade_phases in Hph. apply M_bind_Err in Hph as [?|(? & ? & [= <- <-] & Hph)]; [done|].
  apply M_bind_Err in Hph as [Hph|(? & ? & Hf & Hph)].
  { unfold fail_if in Hph. rewrite lift_run in Hph. by injection Hph as _ <-. }
  unfold fail_if in Hf. rewrite lift_run in Hf. injection Hf as _ <-.
  apply M_bind_Err in Hph as [Hph|(applied & ? & _ & Hph)].
  - exfalso. apply collect_Err_Db in Hph; [done| | |done].
    + intros y. apply (okeeps_bind _); [apply sync_revoke_one|]. intros o. apply (okeeps_ret _).
    + intros y s0 e s3 Hs0 Hx. apply M_bind_Err in Hx as [Hx|(? & ? & _ & Hx)]; [by eapply revoke_one_Err | done].
  - unfold emit_revocations in Hph. apply M_bind_Err in Hph as [Hph|(? & ? & _ & Hph)]; [|done].
    by rewrite for_each_emit in Hph.
Qed.

Lemma sync_revoke_dynamic k : okeeps sync_kept (revoke_dynamic_for_grantee k).
Proof.
  unfold revoke_dynamic_for_grantee. apply (okeeps_bind _); [by apply (okeeps_pure _)|]. intros s0.
  apply (okeeps_bind _); [|intros ?; apply (okeeps_ret _)].
  apply (okeeps_collect _). intros root s o s' Hrun Hs. unfold revoke_root in Hrun.
  destruct (cascade_revoke_with_reason root _ s) as [[res|e] s1] eqn:Hc.
  - injection Hrun as <- <-. by apply (sync_cascade _ _ _ _ _ Hc).
  - destruct e; try done. injection Hrun as <- <-. by apply (cascade_NotFound _ _ _ _ _ Hs Hc).
Qed.

Lemma installs_storable g s1 s2 s' :
  installs g s1 s2 → grants s' = grants s2 → (∀ id g, grants s' !! id = Some g → storable g) → storable g.
Proof.
  intros Hi Heq Hst. apply (Hst (Grant.id g)). rewrite Heq, (ins_grants _ _ _ (ins_mem _ _ _ Hi)).
  apply lookup_insert_eq.
Qed.

Lemma sync_narrow now uuid id ps caller s nid s' :
  (∀ id g, grants s' !! id = Some g → storable g) →
  narrow now uuid id ps caller s = (Ok nid, s') → sync_kept s s'.
Proof.
  intros Hst (ex & res & s1 & s2 & _ & _ & _ & _ & _ & _ & _ & Hc & _ & Hi & ->)%narrow_Ok.
  trans s1; [by eapply sync_cascade|]. trans s2; [|by apply sync_same].
  eapply sync_installs; [|exact Hi]. eapply installs_storable; [exact Hi|reflexivity|exact Hst].
Qed.

Lemma sync_delegate t now uuid p c d caller s nid s' :
  (∀ id g, grants s' !! id = Some g → storable g) →
  delegate_grant t now uuid p c d caller s = (Ok nid, s') → sync_kept s s'.
Proof.
  intros Hst (parent & s1 & _ & _ & _ & _ & _ & _ & _ & _ & _ & _ & Hi & ->)%delegate_grant_Ok.
  trans s1; [|by apply sync_same].
  eapply sync_installs; [|exact Hi]. eapply installs_storable; [exact Hi|reflexivity|exact Hst].
Qed.

(** Whether an operation reported success; the sweeper's tick drops the
    error of its [expire_ids]. *)
Definition succeeded (o : op) (s : GrantStore) : bool :=
  match o with
  | Insert g => is_ok (insert g s).1
  | InsertDynamic g => is_ok (insert_dynamic g s).1
  | Consume id f => is_ok (consume id f s).1
  | ExpireIds ids => is_ok (expire_ids ids s).1
  | Tick now => is_ok (expire_ids (collect_expired_ids now s) s).1
  | RevokeByGrantee k => is_ok (revoke_by_grantee k s).1
  | CascadeRevoke root => is_ok (cascade_revoke root s).1
  | CascadeByIssuer p => is_ok (cascade_by_issuer p s).1
  | RevokeDynamic k => is_ok (revoke_dynamic_for_grantee k s).1
  | ApplyPreset k created => is_ok (apply_preset_atomic_for_grantee k created s).1
  | Narrow now uuid id ps caller => is_ok (narrow now uuid id ps caller s).1
  | Delegate t now uuid p c d caller => is_ok (delegate_grant t now uuid p c d caller s).1
  end.

Lemma okeeps_run {A} (m : ST A) s : okeeps sync_kept m → is_ok (m s).1 = true → sync_kept s (m s).2.
Proof. intros Hm Hok. destruct (m s) as [[a|e] s'] eqn:Hrun; [|done]. by eapply Hm. Qed.

Lemma run_op_synced `{!HashOrderLaws} o s :
  wf s → admissible o s → synced s → succeeded o s = true →
  (∀ id g, grants (run_op o s) !! id = Some g → storable g) →
  synced (run_op o s).
Proof.
  intros Hwf Hadm Hs Hok Hst. revert Hs. change (sync_kept s (run_op o s)).
  destruct o as [g|g|id f|ids|now|k|root|p|k|k created|now uuid id ps caller|t now uuid p c d caller]; simpl in *.
  - destruct (insert g s) as [r s'] eqn:Hrun. apply insert_cases in Hrun as [(e & -> & _)|(_ & Hi & _)]; [done|].
    eapply sync_installs; [|exact Hi]. by eapply installs_storable.
  - destruct (insert_dynamic g s) as [r s'] eqn:Hrun. apply insert_dynamic_cases in Hrun as [(e & -> & _)|(_ & Hi & _)]; [done|].
    eapply sync_installs; [|exact Hi]. by eapply installs_storable.
  - apply okeeps_run; [apply sync_consume | exact Hok].
  - apply okeeps_run; [apply sync_expire_ids | exact Hok].
  - unfold tick. case_bool_decide; [by intros ?|]. apply okeeps_run; [apply sync_expire_ids | exact Hok].
  - apply okeeps_run; [|exact Hok]. unfold revoke_by_grantee. apply (okeeps_bind _); [by apply (okeeps_pure _)|].
    intros s0. apply (okeeps_collect _). intros id. apply sync_sweep_one.
  - unfold cascade_revoke in *. apply okeeps_run; [|exact Hok]. apply sync_cascade.
  - apply okeeps_run; [|exact Hok]. unfold cascade_by_issuer. apply (okeeps_bind _); [by apply (okeeps_pure _)|].
    intros s0. apply (okeeps_bind _); [|intros ?; apply (okeeps_ret _)].
    apply (okeeps_collect _). intros id. apply sync_sweep_one.
  - apply okeeps_run; [apply sync_revoke_dynamic | exact Hok].
  - destruct (apply_preset_atomic_for_grantee k created s) as [[ids|e] s'] eqn:Hrun; [|done].
    pose proof (apply_preset_created s k created ids s' (proj1 Hadm) Hrun) as Hcr. destruct ids as [rv cr].
    eapply sync_preset; [done| |exact Hrun]. apply Forall_forall. intros g Hg. by eapply Hst, Hcr.
  - destruct (narrow now uuid id ps caller s) as [[nid|e] s'] eqn:Hrun; [|done]. by eapply sync_narrow.
  - destruct (delegate_grant t now uuid p c d caller s) as [[nid|e] s'] eqn:Hrun; [|done]. by eapply sync_delegate.
Qed.

(** ** Recovery *)

Lemma elem_active_rows rs r :
  r ∈ active_rows rs ↔ ∃ id, rs !! id = Some r ∧ Row.status r = "active".
Proof.
  unfold active_rows. rewrite merge_sort_Permutation, list_elem_of_In, filter_In, <- list_elem_of_In.
  rewrite list_elem_of_fmap, String.eqb_eq. split.
  - intros [([id r'] & -> & Hin) Ha]. exists id. by rewrite <- elem_of_map_to_list.
  - intros (id & Hr & Ha). split; [|done]. exists (id, r). by rewrite elem_of_map_to_list.
Qed.

Lemma filter_snd {A B} (f : B → bool) (l : list (A * B)) :
  List.filter f l.*2 = (List.filter (λ ab, f ab.2) l).*2.
Proof.
  induction l as [|[a b] l IH]; [done|]. rewrite fmap_cons. cbn [List.filter snd].
  destruct (f b); rewrite ?fmap_cons; by rewrite IH.
Qed.

Lemma filter_fst_NoDup {A B} (f : A * B → bool) (l : list (A * B)) : NoDup l.*1 → NoDup (List.filter f l).*1.
Proof.
  induction l as [|[a b] l IH]; simpl; [done|]. intros [Hni Hnd]%NoDup_cons.
  destruct (f (a, b)); simpl; [|by apply IH]. apply NoDup_cons. split; [|by apply IH].
  intros Hin. apply Hni. apply list_elem_of_fmap in Hin as (ab & -> & Hin).
  apply list_elem_of_fmap. exists ab. split; [done|].
  apply list_elem_of_In, filter_In in Hin as [Hin _]. by apply list_elem_of_In.
Qed.

Lemma active_rows_perm rs :
  active_rows rs ≡ₚ (List.filter (λ ir : string * Row.t, String.eqb (Row.status ir.2) "active") (map_to_list rs)).*2.
Proof.
  unfold active_rows. rewrite merge_sort_Permutation.
  by rewrite (filter_snd (λ r, String.eqb (Row.status r) "active")).
Qed.

Lemma active_rows_NoDup rs :
  (∀ id r, rs !! id = Some r → Row.status r = "active" → Row.id r = id) → NoDup (Row.id <$> active_rows rs).
Proof.
  intros Hk. rewrite active_rows_perm, <- list_fmap_compose.
  assert (∀ l, l ⊆ map_to_list rs →
    (Row.id ∘ snd) <$> List.filter (λ ir : string * Row.t, String.eqb (Row.status ir.2) "active") l =
    (List.filter (λ ir : string * Row.t, String.eqb (Row.status ir.2) "active") l).*1) as ->; [| |done].
  { intros l. induction l as [|[id r] l IH]; [done|]. intros Hsub. cbn [List.filter snd].
    assert (l ⊆ map_to_list rs) as Hsub' by (intros x Hx; apply Hsub; by right).
    destruct (String.eqb_spec (Row.status r) "active") as [Ha|]; rewrite ?fmap_cons, IH by done; [|done].
    f_equal. apply Hk; [|done]. apply elem_of_map_to_list, Hsub. left. }
  apply filter_fst_NoDup, NoDup_fst_map_to_list.
Qed.

Lemma set_created_at_fields c g :
  Grant.id (Grant.set_created_at c g) = Grant.id g ∧ Grant.status (Grant.set_created_at c g) = Grant.status g.
Proof. by destruct g. Qed.

(** Each active row decodes to its grant, but for the first issue date. *)
Lemma decode_active_row s r :
  synced s → r ∈ active_rows (rows (sqlite s)) →
  ∃ g c, active_at s (Row.id r) = Some g ∧ rows (sqlite s) !! Row.id r = Some r ∧
    decode_row r = Ok (Grant.set_created_at c g).
Proof.
  intros Hs (id & Hr & Ha)%elem_active_rows. destruct (step_active _ _ Hs id r Hr Ha) as [g Hg].
  destruct (step_rows _ _ Hs id g Hg) as (Hid & Hst & r' & Hr' & Hm).
  assert (r' = r) as -> by congruence. pose proof (proj1 (row_matches_status r g Hm) Ha) as Hact.
  destruct Hm as (c & Hc & ->). assert (Row.id (row_of (Grant.set_created_at c g)) = id) as -> by (subst; by destruct g).
  exists g, c. split_and!; [by apply active_at_Some | done |]. apply decode_row_of.
  destruct Hst as (? & _ & ?). by destruct g.
Qed.

Lemma recovered_grants s :
  synced s →
  ∃ gs, try_map decode_row (active_rows (rows (sqlite s))) = Ok gs ∧ NoDup (Grant.id <$> gs) ∧
    (∀ g', g' ∈ gs → ∃ g c, active_at s (Grant.id g') = Some g ∧ g' = Grant.set_created_at c g) ∧
    (∀ id, is_Some (active_at s id) → ∃ g', g' ∈ gs ∧ Grant.id g' = id).
Proof.
  intros Hs.
  assert (∀ l, l ⊆ active_rows (rows (sqlite s)) → ∃ gs, Forall2 (λ r g', decode_row r = Ok g' ∧ Grant.id g' = Row.id r ∧
      ∃ g c, active_at s (Grant.id g') = Some g ∧ g' = Grant.set_created_at c g) l gs) as Hall.
  { induction l as [|r l IH]; intros Hsub; [by exists []|].
    destruct IH as [gs Hgs]; [intros x Hx; apply Hsub; by right|].
    destruct (decode_active_row s r Hs) as (g & c & Hg & _ & Hd); [apply Hsub; left|].
    assert (Grant.id g = Row.id r) as Hid.
    { apply active_at_Some in Hg as [Hg _]. by apply (step_rows _ _ Hs _ g). }
    exists (Grant.set_created_at c g :: gs). constructor; [|done]. destruct (set_created_at_fields c g) as [-> _].
    rewrite Hid. split_and!; [done..|]. by exists g, c. }
  destruct (Hall (active_rows (rows (sqlite s)))) as [gs Hgs]; [done|]. exists gs. split_and!.
  - apply try_map_Ok. eapply Forall2_impl; [exact Hgs|]. by intros r g' (? & _).
  - assert (Grant.id <$> gs = Row.id <$> active_rows (rows (sqlite s))) as ->.
    { clear -Hgs. induction Hgs as [|r g' l gs (_ & Hid & _) _ IH]; [done|]. rewrite !fmap_cons. by f_equal. }
    apply active_rows_NoDup. intros id r Hr Ha.
    destruct (step_active _ _ Hs id r Hr Ha) as [g Hg].
    destruct (step_rows _ _ Hs id g Hg) as (Hid & _ & r' & Hr' & (c & _ & ->)).
    assert (r = row_of (Grant.set_created_at c g)) as -> by congruence. by destruct g.
  - intros g' Hin. apply list_elem_of_lookup in Hin as [i Hi].
    by destruct (Forall2_lookup_r _ _ _ _ _ Hgs Hi) as (r & _ & _ & _ & ?).
  - intros id [g [Hg Ha]%active_at_Some]. destruct (step_rows _ _ Hs id g Hg) as (Hid & _ & r & Hr & Hm).
    assert (r ∈ active_rows (rows (sqlite s))) as Hin.
    { apply elem_active_rows. exists id. split; [done|]. by apply (row_matches_status r g Hm). }
    apply list_elem_of_lookup in Hin as [i Hi].
    destruct (Forall2_lookup_l _ _ _ _ _ Hgs Hi) as (g' & Hg' & _ & Hid' & _).
    exists g'. split; [by apply list_elem_of_lookup; exists i|]. rewrite Hid'.
    destruct Hm as (c & _ & ->). by destruct g.
Qed.
Lemma sqlite_foldl_install gs s : sqlite (foldl install s gs) = sqlite s.
Proof. revert s. induction gs as [|g gs IH]; intros s; simpl; [done | by rewrite IH]. Qed.

Lemma recover_store_sqlite q s' q' : recover_store q = (Ok s', q') → sqlite s' = q'.
Proof.
  unfold recover_store. destruct (recover_active_grants q) as [[gs|e] q1]; [|done]. intros [= <- <-].
  apply (sqlite_foldl_install gs).
Qed.

(** What recovery builds from an index in step with memory. *)
Lemma recover_store_run s :
  synced s → faults (sqlite s) = [] →
  ∃ s', recover_store (sqlite s) = (Ok s', sqlite s) ∧ wf s' ∧
    ∀ id, match active_at s id with
          | Some g => ∃ c, grants s' !! id = Some (Grant.set_created_at c g)
          | None => grants s' !! id = None
          end.
Proof.
  intros Hs Hf. destruct (recovered_grants s Hs) as (gs & Hgs & Hnd & Hsound & Hcomplete).
  assert (all_fresh gs (new_store (sqlite s))) as Hfr by (split; [done|]; intros g _; apply lookup_empty).
  destruct (foldl_install_spec gs _ Hfr) as (_ & Hwf & Hdiff).
  exists (foldl install (new_store (sqlite s)) gs). split_and!.
  - unfold recover_store, recover_active_grants. run. unfold db_call. rewrite Hf. by rewrite Hgs.
  - apply Hwf, new_store_wf.
  - intros id. destruct (active_at s id) as [g|] eqn:Ha.
    + destruct (Hcomplete id) as (g' & Hin & Hid); [by exists g|].
      destruct (Hsound g' Hin) as (g2 & c & Hg2 & ->). rewrite Hid, Ha in Hg2. injection Hg2 as <-.
      exists c. rewrite <- Hid. by apply foldl_install_created.
    + destruct (grants (foldl install (new_store (sqlite s)) gs) !! id) as [g'|] eqn:Hg'; [|done]. exfalso.
      destruct (Hdiff id) as (g2 & Hin & Hid & _); [rewrite Hg'; simpl; by rewrite lookup_empty|].
      destruct (Hsound g2 Hin) as (g3 & c & Hg3 & _). rewrite Hid in Hg3. congruence.
Qed.
End durable.

(** ** Properties *)

(** The text encoding of a grant is faithful: decoding the row a storable
    grant is written as gives the grant back. *)
Theorem row_roundtrip `{Codec, !CodecLaws} (g : Grant.t) :
  storable g → decode_row (row_of g) = Ok g.
Proof. apply decode_row_of. Qed.

(** C36: memory and disk stay in step.  Every successful operation keeps the
    durable index in agreement with memory: each grant's row holds its
    encoding with the current status, and no active row is unknown to memory. *)
Theorem successful_ops_stay_synced `{Chrono, Codec, HashOrder, V : SubsetValidator, !HashOrderLaws, !CodecLaws}
    (o : op) (s : GrantStore) :
  wf s → admissible o s → synced s → succeeded o s = true →
  (∀ id g, grants (run_op o s) !! id = Some g → storable g) →
  synced (run_op o s).
Proof. apply run_op_synced. Qed.

(** C35: a restart recovers exactly the active grants.  From an index in step
    with memory, recovery succeeds and builds a coherent store that holds each
    active grant, with the creation date of its first issue, and no other. *)
Theorem restart_recovers_active `{Chrono, Codec, HashOrder, V : SubsetValidator, !CodecLaws} (s : GrantStore) :
  synced s → faults (sqlite s) = [] →
  ∃ s', recover_store (sqlite s) = (Ok s', sqlite s) ∧ wf s' ∧
    ∀ id, match active_at s id with
          | Some g => ∃ c, grants s' !! id = Some (Grant.set_created_at c g)
          | None => grants s' !! id = None
          end.
Proof. apply recover_store_run. Qed.

(** ** Witnesses *)

#[local] Existing Instances chrono_model codec_model hash_order_model SubsetValidatorImpl.
#[local] Existing Instances codec_model_laws hash_order_model_laws.

Lemma row_roundtrip_witness : decode_row (row_of sample_once) = Ok sample_once.
Proof. apply row_roundtrip. apply (bool_decide_unpack _). by vm_compute. Defined.

(** Every stored grant is storable, by evaluation. *)
Lemma all_storable s :
  bool_decide (map_Forall (λ _ g, storable g) (grants s)) = true →
  ∀ id g, grants s !! id = Some g → storable g.
Proof. intros Hb id g Hg. apply bool_decide_eq_true in Hb. by apply (Hb id). Qed.

Lemma sample_start_synced : synced sample_start.
Proof. split; simpl; intros id x; by rewrite lookup_empty. Qed.

Lemma successful_ops_stay_synced_witness :
  rows (sqlite (run_op (InsertDynamic sample_once) sample_start)) !! "uuid-0" = Some (row_of sample_once) ∧
  synced (run_op (InsertDynamic sample_once) sample_start).
Proof.
  split; [by vm_compute|]. apply successful_ops_stay_synced.
  - apply new_store_wf.
  - by vm_compute.
  - apply sample_start_synced.
  - by vm_compute.
  - apply all_storable. by vm_compute.
Defined.

Lemma sample_synced : synced sample_store.
Proof.
  assert (∀ o s, reachable s ∧ synced s → admissible o s → succeeded o s = true →
    bool_decide (map_Forall (λ _ g, storable g) (grants (run_op o s))) = true →
    reachable (run_op o s) ∧ synced (run_op o s)) as Hstep.
  { intros o s [Hr Hs] Ha Hok Hst. split; [by apply reachable_run|].
    apply run_op_synced; [apply (reachable_sound s Hr) | done..|]. by apply all_storable. }
  apply (proj2 (A := reachable sample_store)). unfold sample_store, run_ops, sample_ops, foldl.
  do 3 (apply Hstep; [|by vm_compute..]).
  apply Hstep; [split; [by exists (mkSqlite ∅ []) | apply sample_start_synced]| |by vm_compute..].
  split; [apply fresh_same_grant; by vm_compute | done].
Qed.

Lemma restart_recovers_active_witness :
  ∃ s', recover_store (sqlite (tick 60000000001 sample_store)) = (Ok s', sqlite (tick 60000000001 sample_store)) ∧
    grants s' !! "uuid-1" = None ∧ is_Some (grants s' !! "uuid-0").
Proof.
  destruct (restart_recovers_active (tick 60000000001 sample_store)) as (s' & Hrun & _ & Hget).
  - apply (run_op_synced (Tick 60000000001)); [apply sample_wf | done | apply sample_synced | by vm_compute|].
    apply all_storable. by vm_compute.
  - by vm_compute.
  - exists s'. split; [done|]. pose proof (Hget "uuid-1") as H1. pose proof (Hget "uuid-0") as H0.
    assert (active_at (tick 60000000001 sample_store) "uuid-1" = None) as E1 by by vm_compute.
    assert (active_at (tick 60000000001 sample_store) "uuid-0" = Some sample_once) as E0 by by vm_compute.
    rewrite E1 in H1. rewrite E0 in H0. destruct H0 as [c H0]. split; [done|]. by eexists.
Defined.
