(* ===== verification/GrantCheck.v ===== *)
(** * The invocation gate and its listing readers

    Models [crates/capabilities/cap-grant/src/check.rs]: [GrantCheckImpl::check]
    decides each host call against the caller's active, unexpired grants and
    reports the decision on the event bus; the [tools], [mcp] and [web] readers
    answer listings from the same grants.  The instant [Utc::now()] returns is
    the argument [now]; of the error text inside a refusal's reason only the
    constant part is kept. *)
From S2P Require Import Prelude RustStr McpPatterns GrantData Subset Projection Cascade Events GrantSqlite GrantStore StoreFacts StoreProps.
Open Scope string_scope.
Open Scope list_scope.
Open Scope Z_scope.

(** ** Definitions *)

Module GrantDecision.
Inductive t := Allow | Deny (reason : string).
#[global] Instance eq_dec : EqDecision t.
Proof. solve_decision. Defined.
End GrantDecision.

Definition is_deny (d : GrantDecision.t) : bool :=
  match d with GrantDecision.Deny _ => true | GrantDecision.Allow => false end.

Module AuthzLevel.
Inductive t := DeniedOnly | All.
End AuthzLevel.

(** The bidirectional and zero-width format characters [sanitize_event_string]
    replaces. *)
Definition is_bidi_format (ch : string) : bool :=
  let u := code_point ch in
  between 0x200C 0x200F u || between 0x202A 0x202E u || between 0x2066 0x2069 u.

(** U+2026 in UTF-8. *)
Definition ellipsis : string := String "226" (String "128" (String "166" "")).

Definition clean_char (ch : string) : string := if is_control ch || is_bidi_format ch then "?" else ch.

Definition sanitize_event_string (s : string) (cap : Z) : string :=
  let needs_truncate := cap <? len s in
  let bound := if needs_truncate then Z.to_nat cap else String.length s in
  let e := floor_char_boundary s bound in
  let out := of_chars (clean_char <$> chars (substring 0 e s)) in
  if needs_truncate then out +:+ ellipsis else out.

Definition STR_CAP : Z := 256.

Definition should_emit (authz_level : AuthzLevel.t) (decision : GrantDecision.t) : bool :=
  match decision, authz_level with
  | GrantDecision.Deny _, _ => true
  | GrantDecision.Allow, AuthzLevel.All => true
  | GrantDecision.Allow, AuthzLevel.DeniedOnly => false
  end.

Definition decision_to_payload (decision : GrantDecision.t) (picked : option string) : string * string :=
  match decision with
  | GrantDecision.Allow => ("allowed", default "" picked)
  | GrantDecision.Deny _ => ("denied", "")
  end.

(** The store with one more event on its bus. *)
Definition with_event (e : Event) (s : GrantStore) : GrantStore :=
  mkStore (grants s) (by_grantee s) (by_issuer s) (provenance s) (narrow_in_progress s) (sqlite s)
    (event_bus s ++ [e]).

(** The tail the three [maybe_emit] functions share. *)
Definition emit_checked (agent_id capability function : string) (payload : string * string) (s : GrantStore)
    : GrantStore :=
  with_event (authz_checked_event agent_id (sanitize_event_string capability STR_CAP)
    (sanitize_event_string function STR_CAP) payload.1 payload.2) s.

Definition maybe_emit (level : AuthzLevel.t) (agent_id capability function : string) (decision : GrantDecision.t)
    (s : GrantStore) : GrantStore :=
  if negb (should_emit level decision) then s
  else emit_checked agent_id capability function (decision_to_payload decision None) s.

Definition maybe_emit_picked (level : AuthzLevel.t) (agent_id capability function : string)
    (decision : GrantDecision.t) (picked : option string) (s : GrantStore) : GrantStore :=
  if negb (should_emit level decision) then s
  else emit_checked agent_id capability function (decision_to_payload decision picked) s.

(** [g.status == Active && g.capability == capability && g.expires_at.map_or(true, |t| t > now)]. *)
Definition in_force (now : Z) (capability : string) (g : Grant.t) : bool :=
  Grant.is_active g && String.eqb (Grant.capability g) capability && Grant.unexpired now g.

(** [matched.sort_by(id); matched.first().map(|g| g.id.clone())]. *)
Definition first_id (matched : list Grant.t) : option string := head (sort_ids (Grant.id <$> matched)).

Definition maybe_emit_with_lookup (level : AuthzLevel.t) (agent_id capability function : string)
    (decision : GrantDecision.t) (allowed : bool) (candidates : list Grant.t) (now : Z) (s : GrantStore)
    : GrantStore :=
  if negb (should_emit level decision) then s
  else
    let picked := match decision with
                  | GrantDecision.Allow =>
                      if allowed then first_id (List.filter (in_force now capability) candidates) else None
                  | _ => None
                  end in
    emit_checked agent_id capability function (decision_to_payload decision picked) s.

Section check.
Context `{HashOrder}.

(** The parameter-level path. *)
Definition check_params (level : AuthzLevel.t) (now : Z) (agent_id capability function : string) (params : Value.t)
    (s : GrantStore) : GrantDecision.t * GrantStore :=
  match project_params capability params with
  | Err _ =>
      let decision := GrantDecision.Deny
        "cap-grant L1 subset: request params rejected by fail-closed projection" in
      (decision, maybe_emit level agent_id capability function decision s)
  | Ok child_params =>
      let child_draft := GrantDraft.mk capability child_params GrantTtl.Persistent in
      let candidates := list_by_grantee agent_id s in
      let covering_id :=
        first_id (List.filter (λ g, in_force now capability g && is_ok (covers_request g child_draft)) candidates) in
      let decision :=
        match covering_id with
        | Some _ => GrantDecision.Allow
        | None => GrantDecision.Deny ("no active grant covers " +:+ capability +:+ " with the requested params")
        end in
      (decision, maybe_emit_picked level agent_id capability function decision covering_id s)
  end.

(** The capability-level path. *)
Definition check_capability (level : AuthzLevel.t) (now : Z) (agent_id capability function : string)
    (s : GrantStore) : GrantDecision.t * GrantStore :=
  let candidates := list_by_grantee agent_id s in
  let allowed := existsb (in_force now capability) candidates in
  let decision := if allowed then GrantDecision.Allow
                  else GrantDecision.Deny ("no active grant for " +:+ capability) in
  (decision, maybe_emit_with_lookup level agent_id capability function decision allowed candidates now s).

Definition check (level : AuthzLevel.t) (now : Z) (agent_id capability function : string) (params : Value.t)
    (s : GrantStore) : GrantDecision.t * GrantStore :=
  match params with
  | Value.Null => check_capability level now agent_id capability function s
  | _ => check_params level now agent_id capability function params s
  end.

(** ** The listing readers *)

(** [if !grants.iter().any(|h| h.id == g.id) { grants.push(g) }]. *)
Definition push_grant (grants : list Grant.t) (g : Grant.t) : list Grant.t :=
  if existsb (λ h, String.eqb (Grant.id h) (Grant.id g)) grants then grants else grants ++ [g].

Definition reader_grants (agent_id : string) (s : GrantStore) : list Grant.t :=
  let grants := list_by_grantee agent_id s in
  match strip_prefix "agent:" agent_id with
  | Some bare =>
      if negb (String.eqb bare agent_id) then foldl push_grant grants (list_by_grantee bare s) else grants
  | None => grants
  end.

(** [if !ids.iter().any(|x| x == id) { ids.push(id) }]. *)
Definition push_id (ids : list string) (id : string) : list string :=
  if existsb (String.eqb id) ids then ids else ids ++ [id].

(** One turn of [tool_allowlist]'s loop over the tools grants; [None] once a
    grant leaves the ids open. *)
Definition allow_tools (acc : bool * list string) (g : Grant.t) : bool * list string :=
  match get_param (Grant.params g) "ids" with
  | Some value => (acc.1, foldl push_id acc.2 (parse_csv value))
  | None => (true, acc.2)
  end.

Definition tool_allowlist (now : Z) (agent_id : string) (s : GrantStore) : option (list string) :=
  let held := List.filter (in_force now "tools") (reader_grants agent_id s) in
  let '(wildcard, ids) := foldl allow_tools (false, []) held in
  if bool_decide (held = []) then Some []
  else if wildcard then None
  else Some ids.

(** [grants.sort_by(|a, b| a.id.cmp(b.id))]. *)
Definition id_le (g h : Grant.t) : Prop := str_le (Grant.id g) (Grant.id h).
#[global] Instance id_le_dec : RelDecision id_le.
Proof. intros g h. unfold id_le. apply _. Defined.

Definition mcp_grant_scopes (now : Z) (agent_id : string) (s : GrantStore) : list McpGrantScope :=
  omap (λ g, mcp_scope (Grant.params g))
    (merge_sort id_le (List.filter (in_force now "mcp") (reader_grants agent_id s))).

Definition web_grant_held (now : Z) (agent_id : string) (s : GrantStore) : bool :=
  existsb (in_force now "web") (reader_grants agent_id s).
End check.

(** ** Facts *)

Lemma clean_char_spec g :
  one_char g → one_char (clean_char g) ∧ is_control (clean_char g) = false ∧ is_bidi_format (clean_char g) = false ∧
  (continues g = false → continues (clean_char g) = false) ∧ len (clean_char g) ≤ len g.
Proof.
  intros Hg. unfold clean_char. destruct (is_control g || is_bidi_format g) eqn:Hb.
  - split_and!; try done. pose proof (one_char_nonempty g Hg). unfold len. destruct g; simpl; [done | lia].
  - apply orb_false_iff in Hb as [? ?]. by split_and!.
Qed.

Lemma len_of_chars_clean gs :
  Forall one_char gs → len (of_chars (clean_char <$> gs)) ≤ len (of_chars gs).
Proof.
  unfold len. induction 1 as [|g gs Hg _ IH]; [done|]. rewrite fmap_cons.
  change (of_chars (?g :: ?l)) with (g +:+ of_chars l). rewrite !length_append.
  destruct (clean_char_spec g Hg) as (_ & _ & _ & _ & Hl). unfold len in Hl. lia.
Qed.

Lemma chars_clean s : chars (of_chars (clean_char <$> chars s)) = clean_char <$> chars s.
Proof.
  destruct (chars_groups s) as [H1 H2]. destruct (chars s) as [|g gs]; [done|]. rewrite fmap_cons.
  apply chars_of_chars.
  - rewrite <- fmap_cons. apply Forall_fmap. eapply Forall_impl; [exact H1|]. by intros ? [? _]%clean_char_spec.
  - apply Forall_fmap. apply Forall_cons in H1 as [_ H1]. rewrite Forall_forall in H1, H2 |- *.
    intros h Hh. apply clean_char_spec; auto.
Qed.

Lemma length_substring n s : (String.length (substring 0 n s) ≤ n)%nat.
Proof. revert s. induction n as [|n IH]; intros [|a s]; simpl; try lia. specialize (IH s). lia. Qed.

Lemma floor_char_boundary_le s n : (floor_char_boundary s n ≤ n)%nat.
Proof. induction n as [|n IH]; simpl; [done|]. case_match; lia. Qed.

Lemma substring_all s : substring 0 (String.length s) s = s.
Proof. induction s as [|a s IH]; simpl; [done|]. by rewrite IH. Qed.

Lemma floor_char_boundary_all s : floor_char_boundary s (String.length s) = String.length s.
Proof.
  destruct (String.length s) as [|n] eqn:Hn; [done|]. simpl. unfold is_char_boundary. rewrite Hn.
  by rewrite Nat.eqb_refl.
Qed.

(** *** The candidates *)

Lemma elem_filter {A} (f : A → bool) l x : x ∈ List.filter f l ↔ x ∈ l ∧ f x = true.
Proof. by rewrite list_elem_of_In, filter_In, <- list_elem_of_In. Qed.

Lemma first_id_None l : first_id l = None ↔ l = [].
Proof.
  unfold first_id, sort_ids. split; [|by intros ->]. pose proof (merge_sort_Permutation str_le (Grant.id <$> l)) as Hp.
  destruct (merge_sort str_le (Grant.id <$> l)); [|done]. intros _. by apply Permutation_nil_l, symmetry, fmap_nil_inv in Hp.
Qed.

(** The first id is the least of the candidates' ids. *)
Lemma first_id_Some l id :
  first_id l = Some id → ∃ g, g ∈ l ∧ Grant.id g = id ∧ ∀ h, h ∈ l → str_le id (Grant.id h).
Proof.
  unfold first_id, sort_ids. pose proof (merge_sort_Permutation str_le (Grant.id <$> l)) as Hp.
  pose proof (StronglySorted_merge_sort str_le (Grant.id <$> l)) as Hs.
  destruct (merge_sort str_le (Grant.id <$> l)) as [|k ids]; [done|]. intros [= ->].
  apply StronglySorted_inv in Hs as [_ Hle]. rewrite Forall_forall in Hle.
  assert (id ∈ Grant.id <$> l) as (g & -> & Hg)%list_elem_of_fmap by (rewrite <- Hp; left).
  exists g. split_and!; [done..|]. intros h Hh.
  assert (Grant.id h ∈ Grant.id g :: ids) as [->|Hin]%elem_of_cons by (rewrite Hp; by apply list_elem_of_fmap_2); [|auto].
  by destruct (str_le_total (Grant.id g) (Grant.id g)).
Qed.

Lemma in_force_true now cap g :
  in_force now cap g = true ↔ Grant.is_active g = true ∧ Grant.capability g = cap ∧ Grant.unexpired now g = true.
Proof. unfold in_force. rewrite !andb_true_iff, String.eqb_eq. tauto. Qed.

(** A stored grant of the agent that allows the call. *)
Record justifies (s : GrantStore) (now : Z) (agent cap : string) (params : Value.t) (g : Grant.t) : Prop := {
  justifies_stored : grants s !! Grant.id g = Some g;
  justifies_grantee : Grant.grantee g = agent;
  justifies_active : Grant.is_active g = true;
  justifies_capability : Grant.capability g = cap;
  justifies_unexpired : Grant.unexpired now g = true;
  justifies_params : params = Value.Null ∨ ∃ ps, project_params cap params = Ok ps ∧
    covers_request g (GrantDraft.mk cap ps GrantTtl.Persistent) = Ok tt
}.

Lemma existsb_filter {A} (f : A → bool) l : existsb f l = negb (bool_decide (List.filter f l = [])).
Proof. induction l as [|x l IH]; simpl; [done|]. destruct (f x); simpl; [by case_bool_decide | done]. Qed.

Section check_facts.
Context `{HashOrder, !HashOrderLaws}.

Lemma elem_in_force s now agent cap (f : Grant.t → bool) g :
  wf s →
  g ∈ List.filter (λ g, in_force now cap g && f g) (list_by_grantee agent s) ↔
    grants s !! Grant.id g = Some g ∧ Grant.grantee g = agent ∧ Grant.is_active g = true ∧
    Grant.capability g = cap ∧ Grant.unexpired now g = true ∧ f g = true.
Proof.
  intros Hwf. rewrite elem_filter, elem_list_by_grantee, andb_true_iff, in_force_true by done. tauto.
Qed.

(** Every path of [check] decides by a list of candidates, which are the grants
    that justify the call, and reports the least of them. *)
Lemma check_run level now agent cap fn params s :
  wf s →
  ∃ matched decision, (∀ g, g ∈ matched ↔ justifies s now agent cap params g) ∧
    (decision = GrantDecision.Allow ↔ matched ≠ []) ∧
    check level now agent cap fn params s =
      (decision, if should_emit level decision
                 then emit_checked agent cap fn (decision_to_payload decision (first_id matched)) s
                 else s).
Proof.
  intros Hwf. assert (params = Value.Null ∨ params ≠ Value.Null) as [->|Hne] by (destruct params; auto).
  - set (matched := List.filter (λ g, in_force now cap g && true) (list_by_grantee agent s)).
    assert (matched = List.filter (in_force now cap) (list_by_grantee agent s)) as Hm.
    { unfold matched. induction (list_by_grantee agent s) as [|g l IH]; [done|]. simpl. by rewrite andb_true_r, IH. }
    exists matched, (if bool_decide (matched = []) then GrantDecision.Deny ("no active grant for " +:+ cap)
                     else GrantDecision.Allow).
    split_and!.
    + intros g. unfold matched. rewrite elem_in_force by done. split.
      * intros (? & ? & ? & ? & ? & _). split; [done..|by left].
      * intros []. done.
    + by case_bool_decide.
    + unfold check, check_capability, maybe_emit_with_lookup. rewrite existsb_filter, <- Hm.
      case_bool_decide; simpl; [done|]. by destruct level.
  - destruct (project_params cap params) as [ps|e] eqn:Hps.
    + set (matched := List.filter (λ g, in_force now cap g &&
        is_ok (covers_request g (GrantDraft.mk cap ps GrantTtl.Persistent))) (list_by_grantee agent s)).
      exists matched, (match first_id matched with
        | Some _ => GrantDecision.Allow
        | None => GrantDecision.Deny ("no active grant covers " +:+ cap +:+ " with the requested params")
        end).
      split_and!.
      * intros g. unfold matched. rewrite elem_in_force, is_ok_unit by done. split.
        -- intros (? & ? & ? & ? & ? & ?). split; [done..|]. right. by exists ps.
        -- intros [? ? ? ? ? [?|(ps' & Hps' & ?)]]; [done|]. rewrite Hps in Hps'. injection Hps' as <-. done.
      * rewrite <- (first_id_None matched). by destruct (first_id matched).
      * assert (check level now agent cap fn params s = check_params level now agent cap fn params s) as -> by by destruct params.
        unfold check_params, maybe_emit_picked. rewrite Hps. fold matched.
        destruct (first_id matched); simpl; by destruct level.
    + exists [], (GrantDecision.Deny
        "cap-grant L1 subset: request params rejected by fail-closed projection"). split_and!.
      * intros g. split; [by intros ?%elem_of_nil|]. intros [? ? ? ? ? [?|(ps & Hps' & _)]]; [done|]. by rewrite Hps in Hps'.
      * by split.
      * assert (check level now agent cap fn params s = check_params level now agent cap fn params s) as -> by by destruct params.
        unfold check_params, maybe_emit. by rewrite Hps.
Qed.
End check_facts.

(** ** Listings *)

Section readers.
Context `{HashOrder, !HashOrderLaws}.

Lemma reader_grants_bare agent s : strip_prefix "agent:" agent = None → reader_grants agent s = list_by_grantee agent s.
Proof. unfold reader_grants. by intros ->. Qed.

Lemma elem_mcp_grant_scopes now agent s scope :
  wf s → strip_prefix "agent:" agent = None →
  scope ∈ mcp_grant_scopes now agent s ↔
    ∃ g, grants s !! Grant.id g = Some g ∧ Grant.grantee g = agent ∧ in_force now "mcp" g = true ∧
      mcp_scope (Grant.params g) = Some scope.
Proof.
  intros Hwf Ha. unfold mcp_grant_scopes. rewrite list_elem_of_omap. setoid_rewrite merge_sort_Permutation.
  setoid_rewrite elem_filter. setoid_rewrite (reader_grants_bare agent s Ha).
  setoid_rewrite elem_list_by_grantee; [|done]. naive_solver.
Qed.

(** The params of an [mcp] tool call, as [mcp_invoke_grant_parts] builds them. *)
Definition mcp_call (server tool : string) : Value.t :=
  Value.Object [("servers", Value.String server); ("tool-patterns", Value.String tool)].

Lemma project_mcp_call server tool ps :
  check_parse_csv_safe server = Ok tt → check_parse_csv_safe tool = Ok tt →
  project_params "mcp" (mcp_call server tool) = Ok ps ↔
    len server ≤ MAX_PARAMS_STRING_BYTES ∧ len tool ≤ MAX_PARAMS_STRING_BYTES ∧
    ps = [CapParam.mk "servers" server; CapParam.mk "tool-patterns" tool].
Proof.
  intros Hs Ht. unfold project_params, mcp_call. simpl. unfold project_entry, value_to_param_string. simpl.
  destruct (Z.ltb_spec MAX_PARAMS_STRING_BYTES (len server)); simpl; [split; [done|lia]|].
  rewrite Hs. simpl. destruct (Z.ltb_spec MAX_PARAMS_STRING_BYTES (len tool)); simpl; [split; [done|lia]|].
  rewrite Ht. simpl. split; [by intros [= <-] | by intros (_ & _ & ->)].
Qed.

Lemma covers_tool_lengths scope server tool :
  covers_tool scope server tool = true → len server ≤ MAX_PARAMS_STRING_BYTES ∧ len tool ≤ MAX_PARAMS_STRING_BYTES.
Proof.
  rewrite covers_tool_spec. intros (Hs & Ht & _). unfold covers_server in Hs.
  apply andb_true_iff in Hs as [Hs _]. unfold is_callable_name, is_request_token in *. b2p.
  unfold MAX_REQUEST_TOKEN_BYTES, MAX_PARAMS_STRING_BYTES in *. lia.
Qed.

Lemma parse_csv_safe s : check_parse_csv_safe s = Ok tt → parse_csv s = [s].
Proof. intros Hs. apply (parse_csv_join [s]). by constructor. Qed.

(** A held grant covers a tool call exactly when its scope covers the tool. *)
Lemma covers_mcp_call g server tool ttl :
  Grant.capability g = "mcp" → check_parse_csv_safe server = Ok tt → check_parse_csv_safe tool = Ok tt →
  covers_request g (GrantDraft.mk "mcp" [CapParam.mk "servers" server; CapParam.mk "tool-patterns" tool] ttl) = Ok tt ↔
  ∃ scope, mcp_scope (Grant.params g) = Some scope ∧ covers_tool scope server tool = true.
Proof.
  intros Hg Hs Ht. unfold covers_request. rewrite Hg. simpl. rewrite covers_mcp_request_Ok. simpl.
  rewrite (parse_csv_safe server Hs), (parse_csv_safe tool Ht). split.
  - intros (scope & Hscope & _ & _ & _ & Hcov). exists scope. split; [done|]. by apply (Hcov server); left.
  - intros (scope & Hscope & Hcov). exists scope. split_and!; [done..|].
    intros x ->%list_elem_of_singleton y ->%list_elem_of_singleton. done.
Qed.
End readers.

(** *** The tool ids *)

Lemma push_id_spec vals ids :
  NoDup ids → NoDup (foldl push_id ids vals) ∧ ∀ id, id ∈ foldl push_id ids vals ↔ id ∈ ids ∨ id ∈ vals.
Proof.
  revert ids. induction vals as [|v vals IH]; intros ids Hnd; simpl.
  { split; [done|]. intros id. rewrite elem_of_nil. tauto. }
  assert (NoDup (push_id ids v) ∧ ∀ id, id ∈ push_id ids v ↔ id ∈ ids ∨ id = v) as [Hnd1 Hin1].
  { unfold push_id. destruct (existsb (String.eqb v) ids) eqn:He.
    - apply existsb_elem in He as (x & Hx & <-%String.eqb_eq). split; [done|]. naive_solver.
    - split; [|intros id; rewrite elem_of_app, list_elem_of_singleton; tauto].
      apply NoDup_app. split_and!; [done| |apply NoDup_singleton].
      intros x Hx ->%list_elem_of_singleton. apply not_true_iff_false in He. apply He, existsb_elem.
      exists v. by rewrite String.eqb_refl. }
  destruct (IH _ Hnd1) as [? Hin]. split; [done|]. intros id. rewrite Hin, Hin1, elem_of_cons. tauto.
Qed.

Lemma allow_tools_spec held w0 ids0 w ids :
  foldl allow_tools (w0, ids0) held = (w, ids) → NoDup ids0 →
  (w = true ↔ w0 = true ∨ ∃ g, g ∈ held ∧ get_param (Grant.params g) "ids" = None) ∧ NoDup ids ∧
  ∀ id, id ∈ ids ↔ id ∈ ids0 ∨
    ∃ g value, g ∈ held ∧ get_param (Grant.params g) "ids" = Some value ∧ id ∈ parse_csv value.
Proof.
  revert w0 ids0. induction held as [|g held IH]; intros w0 ids0; simpl.
  { intros [= <- <-] Hnd. setoid_rewrite elem_of_nil. split_and!; [naive_solver | done | naive_solver]. }
  unfold allow_tools at 2. simpl. setoid_rewrite elem_of_cons.
  destruct (get_param (Grant.params g) "ids") as [value|] eqn:Hv; intros Hf Hnd.
  - destruct (push_id_spec (parse_csv value) ids0 Hnd) as [Hnd1 Hin1].
    destruct (IH _ _ Hf Hnd1) as (Hw & Hnd' & Hin). split_and!; [|done|].
    + rewrite Hw. split; [naive_solver|]. intros [?|(h & [->|Hh] & Hno)]; [by left | congruence | right; by exists h].
    + intros id. rewrite Hin, Hin1. split.
      * intros [[?|?]|(h & v & Hh & ? & ?)]; [by left | right; by exists g, value; split; [left|] |].
        right. exists h, v. split; [by right | done].
      * intros [?|(h & v & [->|Hh] & Hv' & ?)]; [by left; left | |].
        -- rewrite Hv in Hv'. injection Hv' as <-. left. by right.
        -- right. by exists h, v.
  - destruct (IH _ _ Hf Hnd) as (Hw & Hnd' & Hin). split_and!; [naive_solver | done |].
    intros id. rewrite Hin. naive_solver.
Qed.

(** ** Properties *)

(** C33: the invocation gate decides exactly.  [check] allows a call iff the
    agent itself holds a stored, active, unexpired grant for the capability
    and, when the call carries params, they project and that one grant covers
    them. *)
Theorem check_decides `{HashOrder, !HashOrderLaws} level now agent cap fn params s :
  wf s →
  (check level now agent cap fn params s).1 = GrantDecision.Allow ↔ ∃ g, justifies s now agent cap params g.
Proof.
  intros Hwf. destruct (check_run level now agent cap fn params s Hwf) as (matched & d & Hm & Hd & ->).
  simpl. rewrite Hd. setoid_rewrite <- Hm. split.
  - destruct matched as [|g l]; [done|]. intros _. exists g. left.
  - intros [g Hg] ->. by apply elem_of_nil in Hg.
Qed.

(** The audit trail is exact.  A check leaves the store as it is but for
    one [authz.checked] event: a refusal is always reported, with no grant; an
    allowed call only at level [All], naming the least id of the grants that
    justify it. *)
Theorem check_audits `{HashOrder, !HashOrderLaws} level now agent cap fn params s :
  wf s →
  let event outcome id := authz_checked_event agent (sanitize_event_string cap STR_CAP)
                            (sanitize_event_string fn STR_CAP) outcome id in
  match check level now agent cap fn params s, level with
  | (GrantDecision.Deny _, s'), _ => s' = with_event (event "denied" "") s
  | (GrantDecision.Allow, s'), AuthzLevel.DeniedOnly => s' = s
  | (GrantDecision.Allow, s'), AuthzLevel.All =>
      ∃ g, justifies s now agent cap params g ∧ s' = with_event (event "allowed" (Grant.id g)) s ∧
        ∀ h, justifies s now agent cap params h → str_le (Grant.id g) (Grant.id h)
  end.
Proof.
  intros Hwf event. destruct (check_run level now agent cap fn params s Hwf) as (matched & d & Hm & Hd & ->).
  destruct d as [|why]; [|by destruct level]. destruct level; [done|]. simpl.
  destruct (first_id matched) as [id|] eqn:Hf; [|by apply first_id_None, Hd in Hf].
  apply first_id_Some in Hf as (g & Hg & <- & Hle). exists g. split_and!; [by apply Hm | done |].
  intros h Hh. by apply Hle, Hm.
Qed.

(** What an event carries of a caller's text is harmless: at most the cap
    plus the ellipsis in bytes, no control and no bidirectional character, and
    a short, clean text is unchanged. *)
Theorem sanitize_event_string_safe (s : string) (cap : Z) :
  0 ≤ cap →
  len (sanitize_event_string s cap) ≤ cap + 3 ∧
  (∀ ch, ch ∈ chars (sanitize_event_string s cap) → is_control ch = false ∧ is_bidi_format ch = false) ∧
  (len s ≤ cap → (∀ ch, ch ∈ chars s → is_control ch = false ∧ is_bidi_format ch = false) →
     sanitize_event_string s cap = s).
Proof.
  intros Hcap. unfold sanitize_event_string.
  set (e := floor_char_boundary s (if cap <? len s then Z.to_nat cap else String.length s)).
  assert (∀ ch, ch ∈ clean_char <$> chars (substring 0 e s) → is_control ch = false ∧ is_bidi_format ch = false) as Hclean.
  { intros ch (g & -> & Hg)%list_elem_of_fmap. destruct (chars_groups (substring 0 e s)) as [H1 _].
    rewrite Forall_forall in H1. by destruct (clean_char_spec g (H1 g Hg)) as (_ & ? & ? & _). }
  assert (len (of_chars (clean_char <$> chars (substring 0 e s))) ≤ Z.of_nat e) as Hlen.
  { etrans; [apply len_of_chars_clean, chars_groups|]. rewrite of_chars_chars. unfold len.
    pose proof (length_substring e s). lia. }
  pose proof (floor_char_boundary_le s (if cap <? len s then Z.to_nat cap else String.length s)) as He. fold e in He.
  split_and!.
  - destruct (Z.ltb_spec cap (len s)) as [Hlt|Hge].
    + unfold len in *. rewrite length_append. change (String.length ellipsis) with 3%nat. lia.
    + unfold len in *. lia.
  - intros ch. destruct (cap <? len s); [|rewrite chars_clean; apply Hclean].
    rewrite chars_app, chars_clean by done. rewrite elem_of_app. intros [?|Hin]; [by apply Hclean|].
    assert (ch = ellipsis) as -> by (by apply list_elem_of_singleton in Hin). by vm_compute.
  - intros Hle Hok. unfold e. rewrite (proj2 (Z.ltb_ge _ _) Hle), floor_char_boundary_all, substring_all.
    rewrite <- (of_chars_chars s) at 2. f_equal. rewrite <- (list_fmap_id (chars s)) at 2.
    apply list_fmap_ext. intros i ch Hi. apply list_elem_of_lookup_2 in Hi.
    unfold clean_char. by destruct (Hok ch Hi) as [-> ->].
Qed.

(** The [mcp] listing shows exactly what a call may reach: for an agent
    with a bare id, a tool call is allowed iff one of the listed scopes covers
    the tool.  An agent's colon id also lists the grants of the bare id, which
    the gate does not read. *)
Theorem mcp_listing_matches_calls `{HashOrder, !HashOrderLaws} level now agent fn server tool s :
  wf s → strip_prefix "agent:" agent = None →
  check_parse_csv_safe server = Ok tt → check_parse_csv_safe tool = Ok tt →
  (check level now agent "mcp" fn (mcp_call server tool) s).1 = GrantDecision.Allow ↔
    ∃ scope, scope ∈ mcp_grant_scopes now agent s ∧ covers_tool scope server tool = true.
Proof.
  intros Hwf Ha Hs Ht.
  destruct (check_run level now agent "mcp" fn (mcp_call server tool) s Hwf) as (matched & d & Hm & Hd & ->).
  simpl. rewrite Hd. setoid_rewrite elem_mcp_grant_scopes; [|done..]. split.
  - destruct matched as [|g l]; [done|]. intros _.
    destruct (proj1 (Hm g) ltac:(by left)) as [Hg Hgr Hact Hcap Hun [?|(ps & Hps & Hcov)]]; [done|].
    apply project_mcp_call in Hps as (_ & _ & ->); [|done..].
    apply covers_mcp_call in Hcov as (scope & Hsc & Hcov); [|done..].
    exists scope. split; [|done]. exists g. split_and!; [done..| |done]. by apply in_force_true.
  - intros (scope & (g & Hg & Hgr & (Hact & Hcap & Hun)%in_force_true & Hsc) & Hcov) ->.
    assert (g ∈ []) as Hin; [|by apply elem_of_nil in Hin]. apply Hm. split; [done..|]. right. eexists. split.
    + apply project_mcp_call; [done..|]. pose proof (covers_tool_lengths _ _ _ Hcov) as [? ?]. by split_and!.
    + apply covers_mcp_call; [done..|]. by exists scope.
Qed.

(** The tool listing is exact: it is unrestricted iff some active tools
    grant read for the agent sets no [ids], and otherwise holds exactly the
    ids those grants name, without repetition; no tools grant is the empty
    list. *)
Theorem tool_allowlist_exact `{HashOrder} now agent s :
  let held := List.filter (in_force now "tools") (reader_grants agent s) in
  match tool_allowlist now agent s with
  | None => ∃ g, g ∈ held ∧ get_param (Grant.params g) "ids" = None
  | Some ids => NoDup ids ∧ (∀ g, g ∈ held → is_Some (get_param (Grant.params g) "ids")) ∧
      ∀ id, id ∈ ids ↔ ∃ g value, g ∈ held ∧ get_param (Grant.params g) "ids" = Some value ∧ id ∈ parse_csv value
  end.
Proof.
  intros held. unfold tool_allowlist. fold held. destruct (foldl allow_tools (false, []) held) as [wildcard ids] eqn:Hf.
  destruct (allow_tools_spec held false [] wildcard ids) as (Hw & Hnd & Hids); [done | constructor |].
  case_bool_decide as Hnil.
  - rewrite Hnil. split_and!; [constructor | by intros g ?%elem_of_nil |].
    intros id. split; [by intros ?%elem_of_nil | by intros (? & ? & ?%elem_of_nil & _)].
  - destruct wildcard.
    + apply proj1 in Hw. destruct (Hw eq_refl) as [?|?]; [done|done].
    + split_and!; [done| |].
      * intros g Hg. destruct (get_param (Grant.params g) "ids") eqn:Hv; [done|].
        apply proj2 in Hw. discriminate Hw. right. eauto.
      * intros id. rewrite Hids, elem_of_nil. tauto.
Qed.

(** ** Witnesses *)

#[local] Existing Instances hash_order_model hash_order_model_laws.

Definition sample_call (tool : string) : Value.t := mcp_call "github" tool.

Lemma check_decides_witness :
  (check AuthzLevel.All 5 "grandkid" "mcp" "mcp::call-tool" (sample_call "get_issue") sample_store).1
    = GrantDecision.Allow ∧
  ∃ g, justifies sample_store 5 "grandkid" "mcp" (sample_call "get_issue") g.
Proof.
  assert ((check AuthzLevel.All 5 "grandkid" "mcp" "mcp::call-tool" (sample_call "get_issue") sample_store).1
    = GrantDecision.Allow) as Hok by by vm_compute.
  split; [done|]. apply (check_decides AuthzLevel.All 5 "grandkid" "mcp" "mcp::call-tool"); [apply sample_wf | exact Hok].
Defined.

Lemma check_audits_witness :
  let out := check AuthzLevel.DeniedOnly 5 "grandkid" "mcp" "f" (sample_call "delete_repo") sample_store in
  out.1 ≠ GrantDecision.Allow ∧
  out.2 = with_event (authz_checked_event "grandkid" (sanitize_event_string "mcp" STR_CAP)
                        (sanitize_event_string "f" STR_CAP) "denied" "") sample_store.
Proof.
  intros out. pose proof (check_audits AuthzLevel.DeniedOnly 5 "grandkid" "mcp" "f" (sample_call "delete_repo")
    sample_store sample_wf) as H. unfold out. clear out.
  assert (is_deny (check AuthzLevel.DeniedOnly 5 "grandkid" "mcp" "f" (sample_call "delete_repo") sample_store).1 = true)
    as Hd by by vm_compute.
  destruct (check AuthzLevel.DeniedOnly 5 "grandkid" "mcp" "f" (sample_call "delete_repo") sample_store) as [[|why] s'];
    [done|]. by split.
Defined.

Lemma sanitize_event_string_safe_witness :
  sanitize_event_string "tools::run" STR_CAP = "tools::run" ∧
  len (sanitize_event_string (String "010" "abcdef") 4) ≤ 7.
Proof.
  split; [by vm_compute|]. apply (sanitize_event_string_safe (String "010" "abcdef") 4). lia.
Defined.

Lemma mcp_listing_matches_calls_witness :
  (check AuthzLevel.DeniedOnly 5 "kid" "mcp" "f" (mcp_call "github" "get_issue_labels") sample_store).1 = GrantDecision.Allow ∧
  ∃ scope, scope ∈ mcp_grant_scopes 5 "kid" sample_store ∧ covers_tool scope "github" "get_issue_labels" = true.
Proof.
  assert ((check AuthzLevel.DeniedOnly 5 "kid" "mcp" "f" (mcp_call "github" "get_issue_labels") sample_store).1
    = GrantDecision.Allow) as Hok by by vm_compute.
  split; [done|].
  apply (mcp_listing_matches_calls AuthzLevel.DeniedOnly 5 "kid" "f" "github" "get_issue_labels");
    [apply sample_wf | by vm_compute.. | exact Hok].
Defined.

(** The colon id of an agent is listed the scopes of its bare id's grants; the
    gate refuses the same call. *)
Example colon_id_lists_more_than_the_gate_allows :
  existsb (λ scope, covers_tool scope "github" "get_issue") (mcp_grant_scopes 5 "agent:kid" sample_store) = true ∧
  (check AuthzLevel.DeniedOnly 5 "agent:kid" "mcp" "f" (mcp_call "github" "get_issue") sample_store).1
    ≠ GrantDecision.Allow.
Proof. by vm_compute. Qed.
