(* ===== verification/Compile.v ===== *)
(** * Compiling the static configuration

    Models [crates/capabilities/cap-grant/src/compile.rs] and the start of the
    crate ([register_cap_grant] in [lib.rs]): the [capabilities:] mapping of
    the agent's YAML becomes one static grant per entry, laid over the grants
    recovered from the durable index.  The warnings printed to the standard
    error are left out. *)
From S2P Require Import Prelude RustStr Yml McpPatterns GrantData Subset Cascade Events GrantSqlite GrantStore StoreFacts StoreProps Revocation PresetApply Durable.
Open Scope string_scope.
Open Scope list_scope.
Open Scope Z_scope.

(** ** Definitions *)

Definition MAX_YAML_BYTES : Z := Z.shiftl 1 20.
Definition RETIRED_DATA_GRANT_CAPABILITY : string := "data".

Definition param_key (capability key : string) : string :=
  if String.eqb capability "fs" then
    if String.eqb key "read" then "read-paths"
    else if String.eqb key "write" then "write-paths"
    else key
  else key.

(** The closure [scalar] of [param_value]. *)
Definition scalar (v : Yml.t) : option string :=
  match v with
  | Yml.String s => Some s
  | Yml.Bool b => Some (bool_to_string b)
  | Yml.Number _ text => Some text
  | _ => None
  end.

(** One item of a sequence: a scalar without a comma, trimmed. *)
Definition list_item (item : Yml.t) : Result string :=
  s ← ok_or (match scalar item with Some s => if contains_char "," s then None else Some s | None => None end)
        (CapGrantError.InvalidConfig "list items must be scalars without `,`");
  Ok (trim s).

Definition param_value (value : Yml.t) : Result string :=
  match scalar value with
  | Some s => Ok s
  | None =>
      match value with
      | Yml.Sequence items => out ← try_map list_item items; Ok (join "," out)
      | _ => Err (CapGrantError.InvalidConfig "param must be a scalar or a list of scalars")
      end
  end.

(** The loop over one capability's mapping; [None] once [auto-grant: false] is
    read. *)
Fixpoint compile_params (capability_name : string) (m : list (Yml.t * Yml.t)) (params : list CapParam.t)
    : Result (option (list CapParam.t)) :=
  match m with
  | [] => Ok (Some params)
  | (sk, sv) :: m =>
      sk_str ← ok_or (Yml.as_str sk) (CapGrantError.InvalidConfig "sub-key must be string");
      if String.eqb sk_str "auto-grant" then
        match sv with
        | Yml.Bool false => Ok None
        | _ => compile_params capability_name m params
        end
      else
        value ← param_value sv;
        compile_params capability_name m (params ++ [CapParam.mk (param_key capability_name sk_str) value])
  end.

(** The params of one entry; [None] skips it. *)
Definition entry_params (capability_name : string) (v : Yml.t) : Result (option (list CapParam.t)) :=
  match v with
  | Yml.Bool true => Ok (Some [])
  | Yml.Mapping m => compile_params capability_name m []
  | Yml.Bool false => Ok None
  | _ => Err (CapGrantError.InvalidConfig "capability value must be a mapping or `true`")
  end.

(** [format!("static:{grantee}:{capability_name}")]. *)
Definition static_id (grantee capability_name : string) : string :=
  "static:" +:+ grantee +:+ ":" +:+ capability_name.

Definition static_grant (now : Z) (grantee capability_name : string) (params : list CapParam.t) : Grant.t :=
  Grant.mk (static_id grantee capability_name) grantee capability_name params GrantTtl.Persistent GrantIssuer.Config
    GrantProvenance.StaticConfig GrantStatus.Active now None.

(** One turn of the loop of [compile_from_value]. *)
Definition compile_entry (now : Z) (grantee : string) (kv : Yml.t * Yml.t) : Result (option Grant.t) :=
  capability_name ← ok_or (Yml.as_str kv.1) (CapGrantError.InvalidConfig "capability key must be a string");
  _ ← guard_err (String.eqb capability_name "") (CapGrantError.InvalidConfig "capability key must not be empty");
  _ ← guard_err (contains_char ":" capability_name)
        (CapGrantError.InvalidConfig "capability contains forbidden character ':'");
  if String.eqb capability_name RETIRED_DATA_GRANT_CAPABILITY then (Ok None : Result (option Grant.t))
  else
    params ← entry_params capability_name kv.2;
    Ok (option_map (static_grant now grantee capability_name) params).

(** The private [compile_from_value]. *)
Definition compile_value (now : Z) (root : Yml.t) (workspace_root_agent : string) : Result (list Grant.t) :=
  caps_value ← ok_or (Yml.as_mapping root ≫= λ m, Yml.get m "capabilities")
                 (CapGrantError.InvalidConfig "missing top-level `capabilities:` key");
  caps ← ok_or (Yml.as_mapping caps_value) (CapGrantError.InvalidConfig "`capabilities:` must be a mapping");
  out ← try_map (compile_entry now workspace_root_agent) caps;
  Ok (omap (M := list) (λ g, g) out).

(** The gate on [workspace_root_agent]. *)
Definition check_root_agent (workspace_root_agent : string) : Result unit :=
  _ ← guard_err (String.eqb workspace_root_agent "") (CapGrantError.InvalidConfig "grantee must not be empty");
  guard_err (contains_char ":" workspace_root_agent)
    (CapGrantError.InvalidConfig "grantee contains forbidden character ':'").

(** [StaticConfigCompiler::compile_from_value]. *)
Definition compile_from_value (now : Z) (root : Yml.t) (workspace_root_agent : string) : Result (list Grant.t) :=
  _ ← check_root_agent workspace_root_agent;
  compile_value now root workspace_root_agent.

(** [compile_from_path] of a file whose size [stat] reports as [meta_len] and
    whose content [read] returns; [None] is the I/O error. *)
Definition compile_from_path `{Yaml} (now : Z) (meta_len : option Z) (content : option string)
    (workspace_root_agent : string) : Result (list Grant.t) :=
  _ ← check_root_agent workspace_root_agent;
  n ← ok_or meta_len (CapGrantError.InvalidConfig "stat");
  _ ← guard_err (MAX_YAML_BYTES <? n) (CapGrantError.InvalidConfig "yaml too large");
  data ← ok_or content (CapGrantError.InvalidConfig "read");
  _ ← guard_err (MAX_YAML_BYTES <? len data) (CapGrantError.InvalidConfig "yaml too large (post-read)");
  root ← ok_or (from_slice data) CapGrantError.Yaml;
  compile_value now root workspace_root_agent.

(** ** The start of the crate *)

Section start.
Context `{Chrono, Codec, HashOrder, V : SubsetValidator, Yaml}.

(** The layering loop of [register_cap_grant]: [for g in grants { store.insert(g)?; }]. *)
Definition layer_static (gs : list Grant.t) : ST unit := for_each (λ g, _ ← insert g; mret tt) gs.

(** [ensure_schema]: idempotent DDL, which changes no row. *)
Definition ensure_schema : M Sqlite CapGrantError.t unit := db_call.

(** [register_cap_grant], without the sweeper task it may spawn: recovery, then
    the static grants of the file, if there is one. *)
Definition register_cap_grant (now : Z) (db0 : Sqlite) (static_config : option (option Z * option string))
    (workspace_root_agent : string) : result CapGrantError.t GrantStore :=
  match (_ ← ensure_schema; recover_store) db0 with
  | (Err e, _) => Err e
  | (Ok store, _) =>
      match static_config with
      | None => Ok store
      | Some (meta_len, content) =>
          match compile_from_path now meta_len content workspace_root_agent with
          | Err e => Err e
          | Ok gs =>
              match layer_static gs store with
              | (Ok _, store) => Ok store
              | (Err e, _) => Err e
              end
          end
      end
  end.
End start.

(** ** Lists in a param *)

Lemma list_item_Ok item t :
  list_item item = Ok t ↔ ∃ s, scalar item = Some s ∧ contains_char "," s = false ∧ t = trim s.
Proof.
  unfold list_item. rewrite bind_Ok. setoid_rewrite ok_or_Ok. destruct (scalar item) as [s|].
  - destruct (contains_char "," s) eqn:Hc; split.
    + by intros (? & ? & _).
    + intros (? & [= ->] & ? & _). congruence.
    + intros (? & [= ->] & [= <-]). eauto.
    + intros (? & [= ->] & _ & ->). eauto.
  - split; by intros (? & ? & _).
Qed.

Lemma parse_csv_trimmed ts :
  Forall (λ t, contains_char "," t = false ∧ trim t = t) ts →
  parse_csv (join "," ts) = List.filter (λ t, negb (String.eqb t "")) ts.
Proof.
  intros Ht. unfold parse_csv. destruct (decide (ts = [])) as [->|Hne]; [reflexivity|].
  rewrite split_join; [|done|eapply Forall_impl; [exact Ht|]; by intros ? [? _]].
  f_equal. clear Hne. induction Ht as [|t ts [_ Htr] _ IH]; [done|]. by rewrite fmap_cons, Htr, IH.
Qed.

(** ** Compiled grants *)

Lemma compile_entry_Ok now agent kv o :
  compile_entry now agent kv = Ok o →
  ∃ cap, Yml.as_str kv.1 = Some cap ∧ cap ≠ "" ∧ contains_char ":" cap = false ∧
    (o = None ∨ ∃ ps, entry_params cap kv.2 = Ok (Some ps) ∧ o = Some (static_grant now agent cap ps)).
Proof.
  unfold compile_entry. intros (cap & Hcap%ok_or_Ok & Ho)%bind_Ok.
  apply bind_unit_Ok in Ho as [Hne%guard_err_Ok Ho]. apply bind_unit_Ok in Ho as [Hc%guard_err_Ok Ho]. b2p.
  exists cap. split_and!; [done..|]. destruct (String.eqb cap RETIRED_DATA_GRANT_CAPABILITY).
  - injection Ho as <-. by left.
  - apply bind_Ok in Ho as ([ps|] & Hps & [= <-]); simpl; [right; eauto | by left].
Qed.

(** The shape of a compiled grant. *)
Record compiled (now : Z) (agent : string) (g : Grant.t) : Prop := {
  compiled_eq : g = static_grant now agent (Grant.capability g) (Grant.params g);
  compiled_capability : Grant.capability g ≠ "" ∧ contains_char ":" (Grant.capability g) = false;
  compiled_agent : agent ≠ "" ∧ contains_char ":" agent = false
}.

Lemma check_root_agent_Ok agent : check_root_agent agent = Ok tt ↔ agent ≠ "" ∧ contains_char ":" agent = false.
Proof. unfold check_root_agent. by rewrite bind_unit_Ok, !guard_err_Ok, String.eqb_neq. Qed.

Lemma compile_value_compiled now root agent gs :
  agent ≠ "" ∧ contains_char ":" agent = false → compile_value now root agent = Ok gs → Forall (compiled now agent) gs.
Proof.
  intros Ha. unfold compile_value. intros (cv & _ & Hr)%bind_Ok. apply bind_Ok in Hr as (caps & _ & Hr).
  apply bind_Ok in Hr as (out & Hout%try_map_Ok & [= <-]). apply Forall_forall. intros g Hg.
  apply list_elem_of_omap in Hg as (o & Ho & Hog). rewrite Hog in Ho. apply list_elem_of_lookup in Ho as [i Hi].
  destruct (Forall2_lookup_r _ _ _ _ _ Hout Hi) as (kv & _ & (cap & _ & Hne & Hc & [?|(ps & _ & [= ->])])%compile_entry_Ok);
    [done|]. by split.
Qed.

Lemma compile_from_path_compiled `{Yaml} now n data agent gs :
  compile_from_path now n data agent = Ok gs → Forall (compiled now agent) gs.
Proof.
  unfold compile_from_path. intros [Ha%check_root_agent_Ok Hr]%bind_unit_Ok. apply bind_Ok in Hr as (? & _ & Hr).
  apply bind_unit_Ok in Hr as [_ Hr]. apply bind_Ok in Hr as (? & _ & Hr). apply bind_unit_Ok in Hr as [_ Hr].
  apply bind_Ok in Hr as (root & _ & Hr). by eapply compile_value_compiled.
Qed.

(** ** Layering *)

Section layering.
Context `{Chrono, Codec, HashOrder, V : SubsetValidator}.

(** A compiled grant is never refused by a store whose database works, and
    takes its place under its id. *)
Lemma insert_compiled now agent g s :
  compiled now agent g → faults (sqlite s) = [] →
  ∃ s' c, insert g s = (Ok (Grant.id g), s') ∧ faults (sqlite s') = [] ∧
    (∀ id, grants s' !! id = if decide (id = Grant.id g) then Some (Grant.set_created_at c g) else grants s !! id).
Proof.
  intros [Heq [Hc1 Hc2] [Ha1 Ha2]] Hf. assert (Grant.grantee g = agent) as Hg by by rewrite Heq.
  unfold insert. run. rewrite Hg, (proj2 (String.eqb_neq _ _) Ha1), (proj2 (String.eqb_neq _ _) Hc1), Ha2, Hc2. simpl.
  unfold db, upsert_grant, db_call. run. rewrite Hf. simpl.
  destruct (grants s !! Grant.id g) as [old|] eqn:Ho.
  - eexists _, (Grant.created_at old). split_and!; [by destruct g | done |]. intros id. simpl.
    replace (Grant.id (Grant.set_created_at (Grant.created_at old) g)) with (Grant.id g) by by destruct g.
    case_decide; subst; [by rewrite lookup_insert_eq | by rewrite lookup_insert_ne].
  - eexists _, (Grant.created_at g). split_and!; [done | done |]. intros id. simpl.
    replace (Grant.set_created_at (Grant.created_at g) g) with g by by destruct g.
    case_decide; subst; [by rewrite lookup_insert_eq | by rewrite lookup_insert_ne].
Qed.

Lemma layer_static_run now agent gs s :
  Forall (compiled now agent) gs → NoDup (Grant.id <$> gs) → faults (sqlite s) = [] →
  ∃ s', layer_static gs s = (Ok tt, s') ∧
    (∀ g, g ∈ gs → ∃ c, grants s' !! Grant.id g = Some (Grant.set_created_at c g)) ∧
    (∀ id, id ∉ Grant.id <$> gs → grants s' !! id = grants s !! id).
Proof.
  intros Hgs. revert s. induction Hgs as [|g gs Hg _ IH]; intros s Hnd Hf; simpl in *.
  { exists s. split_and!; [done | by intros g ?%elem_of_nil | done]. }
  apply NoDup_cons in Hnd as [Hni Hnd]. destruct (insert_compiled now agent g s Hg Hf) as (s1 & c & Hrun & Hf1 & Hl).
  destruct (IH s1 Hnd Hf1) as (s' & Hrun' & Hin & Hout). exists s'. split_and!.
  - unfold layer_static in *. cbn [for_each]. run. rewrite Hrun. exact Hrun'.
  - intros h [->|Hh]%elem_of_cons; [|by apply Hin]. exists c. by rewrite Hout, Hl, decide_True.
  - intros id Hid. rewrite not_elem_of_cons in Hid. destruct Hid as [Hne Hid].
    by rewrite Hout, Hl, decide_False.
Qed.
End layering.

(** ** Properties *)

(** A list in the configuration reads back as written: the comma-joined
    text [param_value] stores for a sequence is what the subset rules' CSV
    parser turns back into the sequence's scalars, trimmed, the empty ones
    dropped. *)
Theorem param_list_roundtrip (items : list Yml.t) (s : string) :
  param_value (Yml.Sequence items) = Ok s →
  ∃ texts, Forall2 (λ item text, scalar item = Some text) items texts ∧
    parse_csv s = List.filter (λ t, negb (String.eqb t "")) (trim <$> texts).
Proof.
  unfold param_value. simpl. intros (out & Hout%try_map_Ok & [= <-])%bind_Ok.
  assert (∃ texts, Forall2 (λ item text, scalar item = Some text) items texts ∧ out = trim <$> texts ∧
    Forall (λ t, contains_char "," t = false ∧ trim t = t) out) as (texts & Hs & -> & Hok).
  { induction Hout as [|item t items out (text & Hs & Hc & ->)%list_item_Ok _ (texts & IH1 & -> & IH2)]; [by exists []|].
    exists (text :: texts). split_and!; [by constructor | done |]. constructor; [|done].
    by split; [apply contains_char_trim | apply trim_idemp]. }
  exists texts. split; [done|]. by apply parse_csv_trimmed.
Qed.

(** A cold start holds the recovered grants with the configuration on top.
    From the index of a store that was in step with it, and a configuration
    that compiles to grants of distinct ids, the start succeeds: every compiled
    grant is active under its id, whatever the index said of it, and every
    other id holds exactly what was active before. *)
Theorem cold_start_exact `{Chrono, Codec, HashOrder, V : SubsetValidator, Yaml, !CodecLaws} (s : GrantStore)
    now meta_len content agent gs :
  synced s → faults (sqlite s) = [] →
  compile_from_path now meta_len content agent = Ok gs → NoDup (Grant.id <$> gs) →
  ∃ s', register_cap_grant now (sqlite s) (Some (meta_len, content)) agent = Ok s' ∧
    (∀ g, g ∈ gs → ∃ c, grants s' !! Grant.id g = Some (Grant.set_created_at c g)) ∧
    (∀ id, id ∉ Grant.id <$> gs →
       match active_at s id with
       | Some g => ∃ c, grants s' !! id = Some (Grant.set_created_at c g)
       | None => grants s' !! id = None
       end).
Proof.
  intros Hs Hf Hc Hnd. destruct (recover_store_run s Hs Hf) as (s1 & Hrec & _ & Hl).
  pose proof (compile_from_path_compiled _ _ _ _ _ Hc) as Hgs.
  destruct (layer_static_run now agent gs s1 Hgs Hnd) as (s' & Hrun & Hin & Hout).
  { by rewrite (recover_store_sqlite _ _ _ Hrec). }
  exists s'. split_and!; [|done|].
  - unfold register_cap_grant, ensure_schema. run. unfold db_call. rewrite Hf, Hrec. by rewrite Hc, Hrun.
  - intros id Hid. specialize (Hl id). destruct (active_at s id); by rewrite Hout.
Qed.

(** ** Witnesses *)

#[local] Existing Instances chrono_model codec_model hash_order_model SubsetValidatorImpl codec_model_laws.

Definition key (k : string) (v : Yml.t) : Yml.t * Yml.t := (Yml.String k, v).

Definition sample_config : Yml.t := Yml.Mapping [key "capabilities" (Yml.Mapping [
  key "mcp" (Yml.Mapping [key "servers" (Yml.Sequence [Yml.String "github"; Yml.String " gitlab "])]);
  key "llm" (Yml.Bool true);
  key "fs" (Yml.Mapping [key "read" (Yml.String "/tmp"); key "auto-grant" (Yml.Bool false)])])].

Definition config_model : Yaml := {|
  from_slice s := if String.eqb s "capabilities: .." then Some sample_config else None;
  to_yaml_string _ := None
|}.

#[local] Existing Instance config_model.

Lemma param_list_roundtrip_witness :
  param_value (Yml.Sequence [Yml.String "github"; Yml.String " gitlab "]) = Ok "github,gitlab" ∧
  ∃ texts, parse_csv "github,gitlab" = List.filter (λ t, negb (String.eqb t "")) (trim <$> texts).
Proof.
  assert (param_value (Yml.Sequence [Yml.String "github"; Yml.String " gitlab "]) = Ok "github,gitlab") as Hv by by vm_compute.
  split; [done|]. destruct (param_list_roundtrip _ _ Hv) as (texts & _ & Ht). by exists texts.
Defined.

Lemma cold_start_exact_witness :
  ∃ s', register_cap_grant 99 (sqlite sample_store) (Some (Some 16, Some "capabilities: ..")) "root" = Ok s' ∧
    (∃ c, grants s' !! "static:root:mcp" =
       Some (Grant.set_created_at c (static_grant 99 "root" "mcp" [CapParam.mk "servers" "github,gitlab"]))) ∧
    is_Some (grants s' !! "uuid-1").
Proof.
  destruct (cold_start_exact sample_store 99 (Some 16) (Some "capabilities: ..") "root"
    [static_grant 99 "root" "mcp" [CapParam.mk "servers" "github,gitlab"]; static_grant 99 "root" "llm" []])
    as (s' & Hrun & Hin & Hout).
  - apply sample_synced.
  - by vm_compute.
  - by vm_compute.
  - apply (bool_decide_unpack _). by vm_compute.
  - exists s'. split_and!; [done | |].
    { by apply (Hin (static_grant 99 "root" "mcp" [CapParam.mk "servers" "github,gitlab"])); left. }
    specialize (Hout "uuid-1"). assert (active_at sample_store "uuid-1" = Some (sample_at "uuid-1")) as E by by vm_compute.
    rewrite E in Hout. destruct Hout as [c ->]; [|by eexists]. apply (bool_decide_unpack _). by vm_compute.
Defined.
