(* ===== verification/Preset.v ===== *)
(** * Presets

    Models [crates/capabilities/cap-grant/src/preset.rs]: the registry of
    built-in and custom presets, the loader of custom presets from YAML, and
    [apply_preset].  A file is what [stat] and
    [read] return for it; the UUIDs and instants a call draws are arguments. *)
From S2P Require Import Prelude RustStr Yml McpPatterns GrantData Subset Cascade Events GrantSqlite GrantStore StoreFacts StoreProps PresetApply.
Open Scope string_scope.
Open Scope list_scope.
Open Scope Z_scope.

(** [char::to_lowercase], a table of the Unicode standard, of which the model
    uses the ASCII rows. *)
Class CharCase := to_lowercase : string → string.

Definition ascii_lower (a : ascii) : ascii :=
  let b := Z.of_N (N_of_ascii a) in if between 65 90 b then ascii_of_N (Z.to_N (b + 32)) else a.

Class CharCaseLaws `{CharCase} : Prop :=
  to_lowercase_ascii a : (N_of_ascii a < 128)%N → to_lowercase (String a "") = String (ascii_lower a) "".

(** ** Presets *)

Definition MAX_PRESET_YAML_BYTES : Z := Z.shiftl 1 20.
Definition MAX_PRESET_YAML_DEPTH : Z := 16.
Definition MAX_PRESET_GRANTS : Z := 100.

Definition PRESET_RESTRICT : string := "restrict".
Definition PRESET_SUPERVISED : string := "supervised".
Definition PRESET_AUTONOMOUS : string := "autonomous".

Definition VALID_RESOLVER_NAMES : list string :=
  ["SubsetAutoApprove"; "BudgetCheck"; "ParentApproval"; "Channel"; "AutoDeny"].

Module PresetGrant.
Record t := mk { capability : string; params : list CapParam.t; ttl : GrantTtl.t }.
End PresetGrant.

Module Preset.
Record t := mk {
  name : string;
  resolver_chain_names : list string;
  default_ttl : GrantTtl.t;
  grants : list PresetGrant.t
}.
End Preset.

Record ApplyPresetResult := mkApplyPresetResult {
  preset_revoked : list string;
  preset_created : list string
}.

Abbreviation PresetRegistry := (gmap string Preset.t).

Definition with_builtins : PresetRegistry :=
  <[PRESET_RESTRICT := Preset.mk PRESET_RESTRICT ["AutoDeny"] GrantTtl.Once []]>
  (<[PRESET_SUPERVISED := Preset.mk PRESET_SUPERVISED
      ["SubsetAutoApprove"; "BudgetCheck"; "ParentApproval"; "Channel"; "AutoDeny"] GrantTtl.Once []]>
  (<[PRESET_AUTONOMOUS := Preset.mk PRESET_AUTONOMOUS
      ["SubsetAutoApprove"; "BudgetCheck"; "AutoDeny"] GrantTtl.Lifecycle []]> ∅)).

Definition preset_get (name : string) (self : PresetRegistry) : option Preset.t := self !! name.
Definition preset_contains (name : string) (self : PresetRegistry) : bool := bool_decide (is_Some (self !! name)).

(** [names.sort()] over the keys. *)
Definition preset_names (self : PresetRegistry) : list string := merge_sort str_le (elements (dom self)).

Definition is_builtin (name : string) : bool :=
  String.eqb name PRESET_RESTRICT || String.eqb name PRESET_SUPERVISED || String.eqb name PRESET_AUTONOMOUS.

(** The characters [reject_builtin_shadow] drops. *)
Definition is_invisible (c : string) : bool :=
  let cp := code_point c in
  is_whitespace c
  || between 0xFE00 0xFE0F cp || between 0xE0000 0xE007F cp
  || between 0x200B 0x200F cp || (cp =? 0xFEFF) || between 0x2060 0x2064 cp || (cp =? 0x180E)
  || (cp =? 0x00AD) || between 0x202A 0x202E cp || between 0x2066 0x2069 cp.

Section loader.
Context `{CharCase}.

(** [name.chars().filter(..).flat_map(|c| c.to_lowercase()).collect()]. *)
Definition normalize_name (name : string) : string :=
  of_chars (to_lowercase <$> List.filter (λ c, negb (is_invisible c)) (chars name)).

Definition reject_builtin_shadow (name : string) : Result unit :=
  _ ← guard_err (is_builtin name) (CapGrantError.InvalidConfig "custom preset name shadows a built-in preset");
  guard_err (is_builtin (normalize_name name))
    (CapGrantError.InvalidConfig "custom preset name shadows a built-in preset after normalization").

(** [PresetRegistry::insert]. *)
Definition preset_insert (preset : Preset.t) (self : PresetRegistry) : Result PresetRegistry :=
  _ ← reject_builtin_shadow (Preset.name preset);
  Ok (<[Preset.name preset := preset]> self).

(** [PresetRegistry::remove]. *)
Definition preset_remove (name : string) (self : PresetRegistry) : bool * PresetRegistry :=
  if negb (is_ok (reject_builtin_shadow name)) then (false, self)
  else (bool_decide (is_Some (self !! name)), delete name self).

(** ** The YAML loader *)

Fixpoint check_yaml_depth (v : Yml.t) (depth : Z) : Result unit :=
  if MAX_PRESET_YAML_DEPTH <? depth then Err (CapGrantError.InvalidConfig "preset YAML structural depth")
  else
    match v with
    | Yml.Mapping m =>
        (fix entries (m : list (Yml.t * Yml.t)) : Result unit :=
           match m with
           | [] => Ok tt
           | (_, vv) :: m => _ ← check_yaml_depth vv (depth + 1); entries m
           end) m
    | Yml.Sequence seq =>
        (fix items (seq : list Yml.t) : Result unit :=
           match seq with
           | [] => Ok tt
           | item :: seq => _ ← check_yaml_depth item (depth + 1); items seq
           end) seq
    | _ => Ok tt
    end.

Context `{Codec, Yaml}.

Definition invalid {A} (msg : string) : Result A := Err (CapGrantError.InvalidConfig msg).

Definition parse_ttl_value (v : Yml.t) : Result GrantTtl.t :=
  match Yml.as_str v with
  | Some s =>
      if String.eqb s "once" then Ok GrantTtl.Once
      else if String.eqb s "lifecycle" then Ok GrantTtl.Lifecycle
      else if String.eqb s "persistent" then Ok GrantTtl.Persistent
      else invalid "invalid ttl literal"
  | None =>
      match Yml.as_mapping v with
      | Some m =>
          match Yml.get m "duration" ≫= Yml.as_u64 with
          | Some ms => Ok (GrantTtl.Duration ms)
          | None =>
              match Yml.get m "until" ≫= Yml.as_str with
              | Some t =>
                  parsed ← ok_or (parse_from_rfc3339 t) (CapGrantError.InvalidConfig "ttl until: invalid RFC3339");
                  Ok (GrantTtl.Until parsed)
              | None => invalid "invalid ttl shape"
              end
          end
      | None => invalid "invalid ttl shape"
      end
  end.

Definition parse_ttl (v : option Yml.t) : option (Result GrantTtl.t) := parse_ttl_value <$> v.

(** [parse_ttl(..).ok_or_else(..)??]. *)
Definition require_ttl (v : option Yml.t) (msg : string) : Result GrantTtl.t :=
  r ← ok_or (parse_ttl v) (CapGrantError.InvalidConfig msg); r.

(** The loop body of [parse_params]. *)
Definition parse_param (item : Yml.t) : Result CapParam.t :=
  m ← ok_or (Yml.as_mapping item) (CapGrantError.InvalidConfig "param entry must be a mapping");
  key ← ok_or (Yml.get m "key" ≫= Yml.as_str) (CapGrantError.InvalidConfig "param entry missing `key:`");
  _ ← guard_err (String.eqb key "") (CapGrantError.InvalidConfig "param key must not be empty");
  _ ← guard_err (256 <? len key) (CapGrantError.InvalidConfig "param key > 256 bytes");
  _ ← guard_err (negb (forallb (λ b, b <? 128) (bytes key)))
        (CapGrantError.InvalidConfig "param key must be ASCII-printable");
  value_str ← match Yml.get m "value" with
              | Some (Yml.String s) => Ok s
              | Some other =>
                  text ← ok_or (to_yaml_string other) CapGrantError.Yaml;
                  Ok (trim_end_matches "010" text)
              | None => invalid "param entry missing `value:`"
              end;
  _ ← guard_err (4096 <? len value_str) (CapGrantError.InvalidConfig "param value > 4096 bytes");
  Ok (CapParam.mk key value_str).

Definition parse_params (v : Yml.t) : Result (list CapParam.t) :=
  seq ← ok_or (Yml.as_sequence v) (CapGrantError.InvalidConfig "params must be a sequence");
  try_map parse_param seq.

(** The loop body of [parse_grants]. *)
Definition parse_grant (item : Yml.t) : Result PresetGrant.t :=
  m ← ok_or (Yml.as_mapping item) (CapGrantError.InvalidConfig "grant entry must be a mapping");
  capability ← ok_or (Yml.get m "capability" ≫= Yml.as_str)
                 (CapGrantError.InvalidConfig "grant entry missing `capability:`");
  _ ← guard_err (String.eqb capability "") (CapGrantError.InvalidConfig "grant capability must not be empty");
  _ ← guard_err (contains_char ":" capability)
        (CapGrantError.InvalidConfig "grant capability contains forbidden character ':'");
  params ← match Yml.get m "params" with Some pv => parse_params pv | None => Ok [] end;
  ttl ← require_ttl (Yml.get m "ttl") "grant entry missing or unparseable `ttl`";
  Ok (PresetGrant.mk capability params ttl).

Definition parse_grants (v : Yml.t) : Result (list PresetGrant.t) :=
  seq ← ok_or (Yml.as_sequence v) (CapGrantError.InvalidConfig "preset grants must be a sequence");
  try_map parse_grant seq.

(** One entry of [resolver-chain]: a name, or a mapping whose first key is it. *)
Definition resolver_entry (v : Yml.t) : Result string :=
  let name :=
    match Yml.as_str v with
    | Some s => Some s
    | None => Yml.as_mapping v ≫= λ m, head m ≫= λ kv, Yml.as_str kv.1
    end in
  ok_or name (CapGrantError.InvalidConfig "resolver-chain entry must be a string or mapping").

Definition parse_preset (root : Yml.t) : Result Preset.t :=
  map ← ok_or (Yml.as_mapping root) (CapGrantError.InvalidConfig "preset yaml root must be a mapping");
  name ← ok_or (Yml.get map "name" ≫= Yml.as_str)
           (CapGrantError.InvalidConfig "preset yaml: missing `name:` field");
  _ ← guard_err (String.eqb name "") (CapGrantError.InvalidConfig "preset name must not be empty");
  _ ← guard_err (contains_char ":" name) (CapGrantError.InvalidConfig "preset name contains forbidden character ':'");
  resolver_chain_names ← match Yml.get map "resolver-chain" ≫= Yml.as_sequence with
                         | Some seq => try_map resolver_entry seq
                         | None => Ok []
                         end;
  _ ← try_for (λ r, guard_err (negb (contains VALID_RESOLVER_NAMES r))
                      (CapGrantError.InvalidConfig "preset resolver-chain has unknown resolver name"))
        resolver_chain_names;
  default_ttl ← require_ttl (Yml.get map "default-ttl") "preset missing or unparseable `default-ttl`";
  grants ← match Yml.get map "grants" with Some g => parse_grants g | None => Ok [] end;
  _ ← guard_err (MAX_PRESET_GRANTS <? size_of grants)
        (CapGrantError.InvalidConfig "preset grants exceed MAX_PRESET_GRANTS");
  Ok (Preset.mk name resolver_chain_names default_ttl grants).

(** The checks on a parsed document. *)
Definition parse_custom_value (root : Yml.t) : Result Preset.t :=
  _ ← check_yaml_depth root 0;
  preset ← parse_preset root;
  _ ← reject_builtin_shadow (Preset.name preset);
  Ok preset.

(** [parse_custom_yaml] of a file whose size [stat] reports as [meta_len] and
    whose content [read] returns; [None] is the I/O error. *)
Definition parse_custom_yaml (meta_len : option Z) (content : option string) : Result Preset.t :=
  n ← ok_or meta_len (CapGrantError.InvalidConfig "stat");
  _ ← guard_err (MAX_PRESET_YAML_BYTES <? n) (CapGrantError.InvalidConfig "preset yaml too large");
  data ← ok_or content (CapGrantError.InvalidConfig "read");
  _ ← guard_err (MAX_PRESET_YAML_BYTES <? len data) (CapGrantError.InvalidConfig "preset yaml too large (post-read)");
  root ← ok_or (from_slice data) CapGrantError.Yaml;
  parse_custom_value root.

Definition load_custom_yaml (meta_len : option Z) (content : option string) (self : PresetRegistry)
    : Result PresetRegistry :=
  preset ← parse_custom_yaml meta_len content;
  Ok (<[Preset.name preset := preset]> self).

Definition load_custom_value (root : Yml.t) (self : PresetRegistry) : Result PresetRegistry :=
  preset ← parse_custom_value root;
  Ok (<[Preset.name preset := preset]> self).
End loader.

(** ** Applying a preset *)

Section apply.
Context `{Chrono, Codec, HashOrder, V : SubsetValidator}.

(** The checks on [name]. *)
Definition apply_check_name (name : string) : Result unit :=
  _ ← guard_err (String.eqb name "") (CapGrantError.InvalidConfig "apply_preset: name must not be empty");
  _ ← guard_err (256 <? len name) (CapGrantError.InvalidConfig "apply_preset: name exceeds 256-byte cap");
  guard_err (has_control name) (CapGrantError.InvalidConfig "apply_preset: name contains ASCII control bytes").

(** The checks on [caller_id] and [target_grantee]. *)
Definition apply_check_id (id : string) : Result unit :=
  _ ← guard_err (String.eqb id "") (CapGrantError.InvalidConfig "apply_preset: id must not be empty");
  _ ← guard_err (256 <? len id) (CapGrantError.InvalidConfig "apply_preset: id exceeds 256-byte cap");
  _ ← guard_err (negb (is_agent_or_bare_id id))
        (CapGrantError.InvalidConfig "apply_preset: id must be a bare id or a canonical agent id");
  guard_err (has_control id) (CapGrantError.InvalidConfig "apply_preset: id contains ASCII control bytes").

Definition preset_draft (pg : PresetGrant.t) : GrantDraft.t :=
  GrantDraft.mk (PresetGrant.capability pg) (PresetGrant.params pg) (PresetGrant.ttl pg).

(** [parent] lets its holder apply a preset granting [pg]. *)
Definition covers_preset_grant (now : Z) (pg : PresetGrant.t) (parent : Grant.t) : bool :=
  Grant.is_active parent
  && negb (match Grant.expires_at parent with Some t => t <=? now | None => false end)
  && String.eqb (Grant.capability parent) (PresetGrant.capability pg)
  && is_ok (validate parent (preset_draft pg)).

(** The grant one entry of the preset becomes. *)
Definition preset_new_grant (name target_grantee uuid : string) (created now : Z) (pg : PresetGrant.t) : Grant.t :=
  Grant.mk uuid target_grantee (PresetGrant.capability pg) (PresetGrant.params pg) (PresetGrant.ttl pg)
    (GrantIssuer.Resolver ("preset:" +:+ name)) (GrantProvenance.Preset name) GrantStatus.Active created
    (compute_expires_at now (PresetGrant.ttl pg)).

(** [now] is the instant of the coverage check; entry [i] draws [uuids i], and
    reads the clock twice, as [created_at i] and [clock i]. *)
Definition apply_preset (now : Z) (uuids : nat → string) (created_at clock : nat → Z) (registry : PresetRegistry)
    (name target_grantee caller_id : string) : ST ApplyPresetResult :=
  _ ← lift (apply_check_name name);
  _ ← lift (try_for apply_check_id [caller_id; target_grantee]);
  _ ← fail_if (negb (String.eqb caller_id target_grantee))
        (CapGrantError.PermissionDenied "apply_preset: caller is not the target");
  preset ← lift (ok_or (preset_get name registry) (CapGrantError.PresetNotFound name));
  s ← get_state;
  let caller_grants := list_by_grantee caller_id s in
  _ ← lift (try_for (λ pg, guard_err (negb (existsb (covers_preset_grant now pg) caller_grants))
                             (CapGrantError.SubsetViolation "preset grant not covered by any caller grant"))
              (Preset.grants preset));
  let new_grants := imap (λ i pg, preset_new_grant name target_grantee (uuids i) (created_at i) (clock i) pg)
                      (Preset.grants preset) in
  rc ← apply_preset_atomic_for_grantee target_grantee new_grants;
  _ ← emit (preset_applied_event target_grantee name (size_of rc.1) (size_of rc.2));
  mret (mkApplyPresetResult rc.1 rc.2).
End apply.

(** ** The registry as a transition system *)

Section registry.
Context `{CharCase, Codec, Yaml}.

(** A successful or refused call of one of the registry's operations. *)
Inductive registry_step (self : PresetRegistry) : PresetRegistry → Prop :=
| step_insert preset self' : preset_insert preset self = Ok self' → registry_step self self'
| step_remove name : registry_step self (preset_remove name self).2
| step_load_yaml n data self' : load_custom_yaml n data self = Ok self' → registry_step self self'
| step_load_value root self' : load_custom_value root self = Ok self' → registry_step self self'.

Lemma reject_builtin_shadow_Ok name :
  reject_builtin_shadow name = Ok tt ↔ is_builtin name = false ∧ is_builtin (normalize_name name) = false.
Proof. unfold reject_builtin_shadow. by rewrite bind_unit_Ok, !guard_err_Ok. Qed.

Lemma parse_custom_value_Ok root p :
  parse_custom_value root = Ok p ↔
    check_yaml_depth root 0 = Ok tt ∧ parse_preset root = Ok p ∧ reject_builtin_shadow (Preset.name p) = Ok tt.
Proof.
  unfold parse_custom_value. rewrite bind_unit_Ok, bind_Ok. split.
  - intros (? & q & ? & [? [= <-]]%bind_unit_Ok). done.
  - intros (? & ? & ?). split; [done|]. exists p. by rewrite bind_unit_Ok.
Qed.

Lemma parse_custom_yaml_Ok n data p :
  parse_custom_yaml n data = Ok p → ∃ d root, data = Some d ∧ len d ≤ MAX_PRESET_YAML_BYTES ∧
    from_slice d = Some root ∧ parse_custom_value root = Ok p.
Proof.
  unfold parse_custom_yaml. intros (? & _ & Hp)%bind_Ok. apply bind_unit_Ok in Hp as [_ Hp].
  apply bind_Ok in Hp as (d & Hd%ok_or_Ok & Hp). apply bind_unit_Ok in Hp as [Hl%guard_err_Ok Hp].
  apply bind_Ok in Hp as (root & Hr%ok_or_Ok & Hp). exists d, root. apply Z.ltb_ge in Hl. done.
Qed.

(** What one step does: nothing, a removal or a registration, of a name that
    shadows no built-in. *)
Lemma registry_step_cases self self' :
  registry_step self self' →
  self' = self ∨ ∃ name, reject_builtin_shadow name = Ok tt ∧
    (self' = delete name self ∨ ∃ p, Preset.name p = name ∧ self' = <[name := p]> self).
Proof.
  intros [preset s' Hs|name|n data s' Hs|root s' Hs].
  - apply bind_unit_Ok in Hs as [Hr [= <-]]. right. eauto 10.
  - unfold preset_remove. destruct (is_ok (reject_builtin_shadow name)) eqn:Hr; simpl; [|by left].
    apply is_ok_unit in Hr. right. eauto.
  - apply bind_Ok in Hs as (p & (d & root & _ & _ & _ & (_ & _ & Hr)%parse_custom_value_Ok)%parse_custom_yaml_Ok & [= <-]).
    right. eauto 10.
  - apply bind_Ok in Hs as (p & (_ & _ & Hr)%parse_custom_value_Ok & [= <-]). right. eauto 10.
Qed.

Lemma builtins_only name : is_builtin name = false → with_builtins !! name = None.
Proof.
  unfold is_builtin, with_builtins. intros Hb. b2p.
  repeat (rewrite lookup_insert_ne; [|intros Heq; match goal with H : name ≠ ?x |- _ => by apply (H (eq_sym Heq)) end]).
  done.
Qed.
End registry.

(** ** Disguised names *)

Definition is_ascii_letter (a : ascii) : bool :=
  let b := Z.of_N (N_of_ascii a) in between 65 90 b || between 97 122 b.

(** [disguises b gs]: the characters [gs] spell [b] in any letter case, with
    invisible characters anywhere. *)
Inductive disguises : string → list string → Prop :=
| disguise_nil : disguises "" []
| disguise_hidden b g gs : is_invisible g = true → disguises b gs → disguises b (g :: gs)
| disguise_letter b u gs :
    is_ascii_letter u = true → disguises b gs → disguises (String (ascii_lower u) b) (String u "" :: gs).

Lemma letter_visible u : is_ascii_letter u = true → is_invisible (String u "") = false ∧ (N_of_ascii u < 128)%N.
Proof.
  assert (forallb (λ n, implb (is_ascii_letter (ascii_of_nat n))
    (negb (is_invisible (String (ascii_of_nat n) "")) && (N_of_ascii (ascii_of_nat n) <? 128)%N)) (seq 0 256) = true)
    as Hall by by vm_compute.
  intros Hu. rewrite forallb_forall in Hall. specialize (Hall (nat_of_ascii u)).
  rewrite ascii_nat_embedding, Hu in Hall. unfold implb in Hall.
  assert (negb (is_invisible (String u "")) && (N_of_ascii u <? 128)%N = true) as Hb.
  { apply Hall. apply in_seq. pose proof (nat_ascii_bounded u). lia. }
  b2p. by split; [|apply N.ltb_lt].
Qed.

Lemma disguises_normalize `{CharCase, !CharCaseLaws} b gs :
  disguises b gs → of_chars (to_lowercase <$> List.filter (λ c, negb (is_invisible c)) gs) = b.
Proof.
  induction 1 as [|b g gs Hg _ IH|b u gs Hu _ IH]; [done| |]; cbn [List.filter].
  - by rewrite Hg.
  - destruct (letter_visible u Hu) as [-> Hlt]. cbn [negb]. rewrite fmap_cons, to_lowercase_ascii by done.
    change (of_chars (?g :: ?l)) with (g +:+ of_chars l). by rewrite IH.
Qed.

(** ** Well-formed presets *)

Definition wf_param (p : CapParam.t) : Prop :=
  1 ≤ len (CapParam.key p) ≤ 256 ∧ (∀ b, b ∈ bytes (CapParam.key p) → b < 128) ∧ len (CapParam.value p) ≤ 4096.

Definition wf_preset_grant (pg : PresetGrant.t) : Prop :=
  PresetGrant.capability pg ≠ "" ∧ contains_char ":" (PresetGrant.capability pg) = false ∧
  Forall wf_param (PresetGrant.params pg).

Record wf_preset (p : Preset.t) : Prop := {
  wf_preset_name : Preset.name p ≠ "" ∧ contains_char ":" (Preset.name p) = false;
  wf_preset_chain : Forall (λ r, r ∈ VALID_RESOLVER_NAMES) (Preset.resolver_chain_names p);
  wf_preset_size : size_of (Preset.grants p) ≤ MAX_PRESET_GRANTS;
  wf_preset_grants : Forall wf_preset_grant (Preset.grants p)
}.

Lemma len_pos s : s ≠ "" → 1 ≤ len s.
Proof. unfold len. destruct s; simpl; [done | lia]. Qed.

Section wellformed.
Context `{CharCase, Codec, Yaml}.

Lemma parse_param_wf item p : parse_param item = Ok p → wf_param p.
Proof.
  unfold parse_param. intros (m & _ & Hp)%bind_Ok. apply bind_Ok in Hp as (key & _ & Hp).
  apply bind_unit_Ok in Hp as [Hne%guard_err_Ok Hp]. apply bind_unit_Ok in Hp as [Hl%guard_err_Ok Hp].
  apply bind_unit_Ok in Hp as [Ha%guard_err_Ok Hp]. apply bind_Ok in Hp as (value & _ & Hp).
  apply bind_unit_Ok in Hp as [Hv%guard_err_Ok [= <-]]. b2p. apply Z.ltb_ge in Hl, Hv. unfold wf_param. simpl. split_and!; [by apply len_pos | done | | done].
  intros b Hb. rewrite forallb_forall in Ha. apply list_elem_of_In, Ha in Hb. lia.
Qed.

Lemma try_map_wf {A B} (f : A → Result B) (P : B → Prop) l ys :
  (∀ x y, f x = Ok y → P y) → try_map f l = Ok ys → Forall P ys.
Proof.
  intros Hf Hm%try_map_Ok. apply Forall_forall. intros y Hy. apply list_elem_of_lookup in Hy as [i Hi].
  destruct (Forall2_lookup_r _ _ _ _ _ Hm Hi) as (x & _ & Hx). by eapply Hf.
Qed.

Lemma parse_grant_wf item pg : parse_grant item = Ok pg → wf_preset_grant pg.
Proof.
  unfold parse_grant. intros (m & _ & Hp)%bind_Ok. apply bind_Ok in Hp as (cap & _ & Hp).
  apply bind_unit_Ok in Hp as [Hne%guard_err_Ok Hp]. apply bind_unit_Ok in Hp as [Hc%guard_err_Ok Hp].
  apply bind_Ok in Hp as (ps & Hps & Hp). apply bind_Ok in Hp as (ttl & _ & [= <-]). b2p.
  split_and!; [done..|]. simpl. destruct (Yml.get m "params") as [pv|]; [|injection Hps as <-; constructor].
  unfold parse_params in Hps. apply bind_Ok in Hps as (seq & _ & Hps). eapply try_map_wf; [apply parse_param_wf | done].
Qed.

Lemma parse_preset_wf root p : parse_preset root = Ok p → wf_preset p.
Proof.
  unfold parse_preset. intros (m & _ & Hp)%bind_Ok. apply bind_Ok in Hp as (name & _ & Hp).
  apply bind_unit_Ok in Hp as [Hne%guard_err_Ok Hp]. apply bind_unit_Ok in Hp as [Hc%guard_err_Ok Hp].
  apply bind_Ok in Hp as (chain & _ & Hp). apply bind_unit_Ok in Hp as [Hch Hp]. apply bind_Ok in Hp as (ttl & _ & Hp).
  apply bind_Ok in Hp as (gs & Hgs & Hp). apply bind_unit_Ok in Hp as [Hs%guard_err_Ok [= <-]].
  apply Z.ltb_ge in Hs. b2p. split; simpl; [done| |done|].
  - apply try_for_Ok in Hch. eapply Forall_impl; [exact Hch|]. intros r Hr%guard_err_Ok. b2p. by apply contains_elem.
  - destruct (Yml.get m "grants") as [g|]; [|injection Hgs as <-; constructor].
    unfold parse_grants in Hgs. apply bind_Ok in Hgs as (seq & _ & Hgs). eapply try_map_wf; [apply parse_grant_wf | done].
Qed.
End wellformed.

Section apply_facts.
Context `{Chrono, Codec, HashOrder, V : SubsetValidator, !HashOrderLaws}.

Lemma covers_preset_grant_true now pg parent :
  covers_preset_grant now pg parent = true ↔
    Grant.is_active parent = true ∧ Grant.unexpired now parent = true ∧
    Grant.capability parent = PresetGrant.capability pg ∧ validate parent (preset_draft pg) = Ok tt.
Proof.
  unfold covers_preset_grant, Grant.unexpired. rewrite !andb_true_iff, String.eqb_eq, is_ok_unit.
  assert (negb (match Grant.expires_at parent with Some t => t <=? now | None => false end) =
          match Grant.expires_at parent with Some t => now <? t | None => true end) as ->.
  { destruct (Grant.expires_at parent); [|done]. by rewrite Z.ltb_antisym. }
  tauto.
Qed.

(** A successful apply passed every check, and committed one batch. *)
Lemma apply_preset_Ok now uuids created clock reg name target caller s res s' :
  apply_preset now uuids created clock reg name target caller s = (Ok res, s') →
  caller = target ∧ ∃ preset s1, preset_get name reg = Some preset ∧
    (∀ pg, pg ∈ Preset.grants preset → ∃ p, p ∈ list_by_grantee caller s ∧ covers_preset_grant now pg p = true) ∧
    apply_preset_atomic_for_grantee target
      (imap (λ i pg, preset_new_grant name target (uuids i) (created i) (clock i) pg) (Preset.grants preset)) s
      = (Ok (preset_revoked res, preset_created res), s1) ∧
    s' = (emit (preset_applied_event target name (size_of (preset_revoked res)) (size_of (preset_created res))) s1).2.
Proof.
  unfold apply_preset. intros ([] & s1 & [_ <-]%lift_Ok & Hrun)%M_bind_Ok.
  apply M_bind_Ok in Hrun as ([] & s2 & [_ <-]%lift_Ok & Hrun).
  apply M_bind_Ok in Hrun as ([] & s3 & [Hc <-]%lift_Ok & Hrun). apply guard_err_Ok in Hc. b2p.
  apply M_bind_Ok in Hrun as (preset & s4 & [Hp <-]%lift_Ok & Hrun). apply ok_or_Ok in Hp.
  apply M_bind_Ok in Hrun as (s5 & s6 & [= <- <-] & Hrun).
  apply M_bind_Ok in Hrun as ([] & s7 & [Hcov <-]%lift_Ok & Hrun).
  apply M_bind_Ok in Hrun as ([rv cr] & s8 & Hat & Hrun).
  apply M_bind_Ok in Hrun as ([] & s9 & Hem & [= <- <-]). split; [done|]. exists preset, s8. split_and!; [done| |done|].
  - intros pg Hpg. rewrite try_for_elem in Hcov. specialize (Hcov pg Hpg). apply guard_err_Ok, negb_false_iff in Hcov.
    by apply existsb_elem in Hcov.
  - by injection Hem as <-.
Qed.

Lemma apply_preset_Err now uuids created clock reg name target caller s e s' :
  apply_preset now uuids created clock reg name target caller s = (Err e, s') → unchanged s s'.
Proof.
  unfold apply_preset. intros Hrun. err_steps; pure_steps; try done.
  - apply apply_preset_cases in Hrun as [(? & _ & ?)|(? & _)]; done.
Qed.
End apply_facts.

(** ** Properties *)

(** The built-in presets are immutable.  Through any sequence of registry
    operations, each built-in keeps the definition it started with, and no
    other registered name becomes one when its invisible characters and case
    are removed. *)
Theorem builtins_immutable `{CharCase, Codec, Yaml} (registry : PresetRegistry) :
  rtc registry_step with_builtins registry →
  (∀ name, is_builtin name = true → preset_get name registry = preset_get name with_builtins) ∧
  (∀ name, preset_contains name registry = true → is_builtin name = false → is_builtin (normalize_name name) = false).
Proof.
  unfold preset_get, preset_contains. revert registry. apply (rtc_ind_r _ with_builtins).
  - split; [done|]. intros name Hc Hb. apply bool_decide_eq_true in Hc as [p Hp]. by rewrite builtins_only in Hp.
  - intros r1 r2 _ [->|(name & (Hnb & Hnn)%reject_builtin_shadow_Ok & Hr2)]%registry_step_cases [IH1 IH2]; [done|].
    split.
    + intros b Hb. assert (name ≠ b) as Hne by congruence.
      destruct Hr2 as [->|(p & _ & ->)]; rewrite ?lookup_delete_ne, ?lookup_insert_ne by done; by apply IH1.
    + intros n Hc Hb. destruct (decide (n = name)) as [->|Hne]; [done|]. apply IH2; [|done]. rewrite <- Hc.
      destruct Hr2 as [->|(p & _ & ->)]; by rewrite ?lookup_delete_ne, ?lookup_insert_ne.
Qed.

(** No disguise gets a built-in name registered: a name that spells a
    built-in in any letter case, with invisible characters anywhere, is
    refused by every way of adding a preset. *)
Theorem disguised_builtin_rejected `{CharCase, !CharCaseLaws, Codec, Yaml} (preset : Preset.t) (builtin : string)
    (registry : PresetRegistry) :
  is_builtin builtin = true → disguises builtin (chars (Preset.name preset)) →
  is_ok (preset_insert preset registry) = false ∧
  ∀ root, parse_preset root = Ok preset → is_ok (load_custom_value root registry) = false.
Proof.
  intros Hb Hd. pose proof (disguises_normalize _ _ Hd) as Hn.
  assert (reject_builtin_shadow (Preset.name preset) ≠ Ok tt) as Hr.
  { intros (_ & Hno)%reject_builtin_shadow_Ok. unfold normalize_name in Hno. rewrite Hn in Hno. congruence. }
  split.
  - unfold preset_insert. by destruct (reject_builtin_shadow (Preset.name preset)) as [[]|].
  - intros root Hp. apply not_true_iff_false. intros (r & (p & (_ & Hp' & Hok)%parse_custom_value_Ok & _)%bind_Ok)%is_ok_true.
    rewrite Hp in Hp'. injection Hp' as <-. done.
Qed.

(** A custom preset that loads is well formed: its name is non-empty and
    holds no separator, its chain names known resolvers, and its grants, their
    keys and their values are within their caps. *)
Theorem loaded_preset_wellformed `{CharCase, Codec, Yaml} (meta_len : option Z) (content : option string)
    (registry registry' : PresetRegistry) :
  load_custom_yaml meta_len content registry = Ok registry' →
  ∃ p, wf_preset p ∧ reject_builtin_shadow (Preset.name p) = Ok tt ∧ registry' = <[Preset.name p := p]> registry ∧
    ∃ data, content = Some data ∧ len data ≤ MAX_PRESET_YAML_BYTES.
Proof.
  intros (p & (d & root & -> & Hl & _ & (_ & Hp & Hr)%parse_custom_value_Ok)%parse_custom_yaml_Ok & [= <-])%bind_Ok.
  exists p. split_and!; [by eapply parse_preset_wf | done | done |]. by exists d.
Qed.

(** C37: applying a preset never widens authority.  A failed apply changes
    nothing.  A successful one is the caller's own; every grant stored
    afterwards was stored before, or was just revoked, or is a new grant of
    the caller from that preset, and covers no call that some active,
    unexpired grant the caller held did not cover. *)
Theorem apply_preset_never_widens `{Chrono, Codec, HashOrder, !HashOrderLaws} (s : GrantStore)
    now uuids created clock registry name target caller :
  wf s →
  match @apply_preset _ _ _ SubsetValidatorImpl now uuids created clock registry name target caller s with
  | (Err _, s') => unchanged s s'
  | (Ok res, s') =>
      caller = target ∧
      ∀ id g, grants s' !! id = Some g →
        grants s !! id = Some g ∨
        (id ∈ preset_revoked res ∧ Grant.is_active g = false) ∨
        (Grant.grantee g = caller ∧ Grant.provenance g = GrantProvenance.Preset name ∧
         ∃ p, grants s !! Grant.id p = Some p ∧ Grant.grantee p = caller ∧ Grant.is_active p = true ∧
           Grant.unexpired now p = true ∧ Grant.capability p = Grant.capability g ∧
           ∀ request, covers_request g request = Ok tt → covers_request p request = Ok tt)
  end.
Proof.
  intros Hwf. destruct (apply_preset _ _ _ _ _ _ _ _ s) as [[res|e] s'] eqn:Hrun; [|by eapply apply_preset_Err].
  apply apply_preset_Ok in Hrun as (-> & preset & s1 & _ & Hcov & Hat & ->). split; [done|].
  intros id g Hg. eapply apply_preset_lookup in Hat as [[Hin Hid]|[?|?]]; [|by left|by right; left|exact Hg].
  right. right. apply elem_of_lookup_imap in Hin as (i & pg & -> & Hpg). split_and!; [done..|].
  destruct (Hcov pg) as (p & Hp & (Ha & Hu & Hc & Hv)%covers_preset_grant_true); [by eapply list_elem_of_lookup_2|].
  apply elem_list_by_grantee in Hp as [Hp Hgr]; [|done].
  exists p. split_and!; [done..|]. intros request. by eapply covers_request_mono.
Qed.

(** ** Witnesses *)

#[local] Existing Instances chrono_model codec_model hash_order_model hash_order_model_laws.

(** The ASCII rows of the lower-case table. *)
Definition char_case_model : CharCase := λ c,
  match c with String a "" => String (ascii_lower a) "" | _ => c end.

Lemma char_case_model_laws : @CharCaseLaws char_case_model.
Proof. by intros a _. Qed.

Definition entry (k : string) (v : Yml.t) : Yml.t * Yml.t := (Yml.String k, v).

(** A preset for kids who file issues. *)
Definition sample_root : Yml.t := Yml.Mapping [
  entry "name" (Yml.String "triage");
  entry "resolver-chain" (Yml.Sequence [Yml.String "BudgetCheck"; Yml.Mapping [entry "AutoDeny" Yml.Null]]);
  entry "default-ttl" (Yml.Mapping [entry "duration" (Yml.Number (Some 60000) "60000")]);
  entry "grants" (Yml.Sequence [Yml.Mapping [
    entry "capability" (Yml.String "mcp");
    entry "params" (Yml.Sequence [
      Yml.Mapping [entry "key" (Yml.String "servers"); entry "value" (Yml.String "github")];
      Yml.Mapping [entry "key" (Yml.String "tool-patterns"); entry "value" (Yml.String "get_issue")]]);
    entry "ttl" (Yml.String "lifecycle")]])].

Definition yaml_model : Yaml := {|
  from_slice s := if String.eqb s "name: triage" then Some sample_root else None;
  to_yaml_string _ := Some "null"
|}.

#[local] Existing Instances char_case_model char_case_model_laws yaml_model.

Definition sample_triage : Preset.t :=
  Preset.mk "triage" ["BudgetCheck"; "AutoDeny"] (GrantTtl.Duration 60000)
    [PresetGrant.mk "mcp" [CapParam.mk "servers" "github"; CapParam.mk "tool-patterns" "get_issue"] GrantTtl.Lifecycle].

Lemma sample_not_shadow : reject_builtin_shadow "triage" = Ok tt.
Proof. by vm_compute. Qed.

Lemma sample_insert : preset_insert sample_triage with_builtins = Ok (<["triage" := sample_triage]> with_builtins).
Proof. unfold preset_insert, sample_triage, Preset.name. by rewrite sample_not_shadow. Qed.

Lemma sample_parse : parse_custom_yaml (Some 12) (Some "name: triage") = Ok sample_triage.
Proof. by vm_compute. Qed.

Lemma builtins_immutable_witness :
  preset_get "restrict" (preset_remove "restrict" (<["triage" := sample_triage]> with_builtins)).2
    = Some (Preset.mk "restrict" ["AutoDeny"] GrantTtl.Once []).
Proof.
  rewrite (proj1 (builtins_immutable (preset_remove "restrict" (<["triage" := sample_triage]> with_builtins)).2 ltac:(
    eapply rtc_l; [apply (step_insert _ sample_triage), sample_insert|]; apply rtc_once, step_remove)) "restrict" eq_refl).
  reflexivity.
Defined.

Lemma disguised_builtin_rejected_witness :
  is_ok (preset_insert (Preset.mk " REstrict" [] GrantTtl.Once []) with_builtins) = false.
Proof.
  apply (disguised_builtin_rejected (Preset.mk " REstrict" [] GrantTtl.Once []) "restrict"); [done|].
  apply disguise_hidden; [by vm_compute|].
  apply (disguise_letter "estrict" "R"); [done|]. apply (disguise_letter "strict" "E"); [done|].
  apply (disguise_letter "trict" "s"); [done|]. apply (disguise_letter "rict" "t"); [done|].
  apply (disguise_letter "ict" "r"); [done|]. apply (disguise_letter "ct" "i"); [done|].
  apply (disguise_letter "t" "c"); [done|]. apply (disguise_letter "" "t"); [done|]. apply disguise_nil.
Defined.

Lemma loaded_preset_wellformed_witness :
  load_custom_yaml (Some 12) (Some "name: triage") with_builtins = Ok (<["triage" := sample_triage]> with_builtins) ∧
  ∃ p, wf_preset p ∧ <["triage" := sample_triage]> with_builtins = <[Preset.name p := p]> with_builtins.
Proof.
  assert (load_custom_yaml (Some 12) (Some "name: triage") with_builtins
    = Ok (<["triage" := sample_triage]> with_builtins)) as Hrun by (unfold load_custom_yaml; by rewrite sample_parse).
  split; [done|]. destruct (loaded_preset_wellformed _ _ _ _ Hrun) as (p & Hp & _ & Heq & _). by exists p.
Defined.

Lemma apply_preset_never_widens_witness :
  match @apply_preset _ _ _ SubsetValidatorImpl 9 (λ i, "uuid-8") (λ _, 9) (λ _, 9)
          (<["triage" := sample_triage]> with_builtins) "triage" "kid" "kid" sample_store with
  | (Ok res, s') => preset_created res = ["uuid-8"] ∧ "kid" = "kid"
  | (Err _, _) => False
  end.
Proof.
  pose proof (apply_preset_never_widens sample_store 9 (λ i, "uuid-8") (λ _, 9) (λ _, 9)
    (<["triage" := sample_triage]> with_builtins) "triage" "kid" "kid" sample_wf) as H.
  assert (match (@apply_preset _ _ _ SubsetValidatorImpl 9 (λ i, "uuid-8") (λ _, 9) (λ _, 9)
    (<["triage" := sample_triage]> with_builtins) "triage" "kid" "kid" sample_store).1 with
    | Ok res => preset_created res = ["uuid-8"] | Err _ => False end) as Hok by by vm_compute.
  destruct (apply_preset _ _ _ _ _ _ _ _ sample_store) as [[res|e] s']; [|done]. by destruct H.
Defined.

(** *** The depth gate *)

(** [n] sequences around a scalar. *)
Fixpoint nested (n : nat) : Yml.t := match n with O => Yml.Null | S n => Yml.Sequence [nested n] end.

Definition deep_root : Yml.t := Yml.Mapping [
  entry "name" (Yml.String "deep");
  entry "default-ttl" (Yml.String "once");
  entry "notes" (nested 40)].

(** The gate refuses a document nested forty deep, but not the same document
    under a YAML tag, which the loader reads through. *)
Example tag_hides_depth :
  is_ok (load_custom_value deep_root with_builtins) = false ∧
  is_ok (load_custom_value (Yml.Tagged "preset" deep_root) with_builtins) = true.
Proof. by vm_compute. Qed.
