(* ===== verification/SentCache.v ===== *)
(** * The cache of channel approval requests

    Models [SentApprovalCache] of [crates/capabilities/cap-grant/src/resolver.rs]:
    which logical requests the channel resolver has sent to the approval
    backend, bounded by [max_entries].  The two eviction loops carry fuel and
    return [None] when it runs out, which is proved not to happen. *)
From S2P Require Import Prelude RustStr GrantData.
Open Scope string_scope.
Open Scope list_scope.
Open Scope Z_scope.

Definition CHANNEL_APPROVAL_SENT_CACHE_MAX : Z := 1024.

Module SentApprovalState.
Inductive t :=
| Delivering (request_id : string) (draft : GrantDraft.t)
| Delivered (request_id : string) (draft : GrantDraft.t).
#[global] Instance eq_dec : EqDecision t.
Proof. solve_decision. Defined.

Definition request_id (st : t) : string := match st with Delivering rid _ | Delivered rid _ => rid end.
Definition draft (st : t) : GrantDraft.t := match st with Delivering _ d | Delivered _ d => d end.
End SentApprovalState.

Module SentApprovalCacheAction.
Inductive t := Deliver (request_id : string) | AlreadyDelivered | WaitForDelivery | CacheFull.
#[global] Instance eq_dec : EqDecision t.
Proof. solve_decision. Defined.
End SentApprovalCacheAction.

Record SentApprovalCache := mkCache {
  seen : gmap string SentApprovalState.t;
  order : list string;
  max_entries : Z
}.

(** [SentApprovalCache::new]. *)
Definition cache_new (max_entries : Z) : SentApprovalCache := mkCache ∅ [] (Z.max max_entries 1).

(** [self.seen.get(&candidate)] is [Some(Delivering { .. })]. *)
Definition delivering (s : gmap string SentApprovalState.t) (k : string) : bool :=
  match s !! k with Some (SentApprovalState.Delivering _ _) => true | _ => false end.

(** The [while] loop of [evict_one_delivered_entry]. *)
Fixpoint evict_one_loop (fuel scanned : nat) (c : SentApprovalCache) : option SentApprovalCache :=
  match fuel with
  | O => None
  | S fuel =>
      if decide (scanned < length (order c))%nat then
        match order c with
        | [] => Some c
        | candidate :: rest =>
            if delivering (seen c) candidate then
              evict_one_loop fuel (S scanned) (mkCache (seen c) (rest ++ [candidate]) (max_entries c))
            else Some (mkCache (delete candidate (seen c)) rest (max_entries c))
        end
      else Some c
  end.

Definition evict_one_delivered_entry (c : SentApprovalCache) : SentApprovalCache :=
  default c (evict_one_loop (S (length (order c))) 0 c).

(** The [while] loop of [evict_delivered_overflow]. *)
Fixpoint evict_overflow_loop (fuel scanned : nat) (c : SentApprovalCache) : option SentApprovalCache :=
  match fuel with
  | O => None
  | S fuel =>
      if decide (max_entries c < size_of (order c) ∧ (scanned < length (order c))%nat) then
        match order c with
        | [] => Some c
        | candidate :: rest =>
            if delivering (seen c) candidate then
              evict_overflow_loop fuel (S scanned) (mkCache (seen c) (rest ++ [candidate]) (max_entries c))
            else evict_overflow_loop fuel 0 (mkCache (delete candidate (seen c)) rest (max_entries c))
        end
      else Some c
  end.

(** Every removal shortens [order], every rotation raises [scanned]. *)
Definition overflow_fuel (n : nat) : nat := S (n * S n).

Definition evict_delivered_overflow (c : SentApprovalCache) : SentApprovalCache :=
  default c (evict_overflow_loop (overflow_fuel (length (order c))) 0 c).

Definition forget (fingerprint : string) (c : SentApprovalCache) : SentApprovalCache :=
  match seen c !! fingerprint with
  | Some _ =>
      mkCache (delete fingerprint (seen c)) (List.filter (λ k, negb (String.eqb k fingerprint)) (order c))
        (max_entries c)
  | None => c
  end.

(** [*state = Delivered { request_id, draft }] for a [Delivering] state. *)
Definition set_delivered (st : SentApprovalState.t) : SentApprovalState.t :=
  match st with
  | SentApprovalState.Delivering rid draft => SentApprovalState.Delivered rid draft
  | SentApprovalState.Delivered rid draft => SentApprovalState.Delivered rid draft
  end.

Definition finish_delivery (fingerprint : string) (delivered : bool) (c : SentApprovalCache) : SentApprovalCache :=
  if delivered then
    evict_delivered_overflow (mkCache (alter set_delivered fingerprint (seen c)) (order c) (max_entries c))
  else forget fingerprint c.

(** [new_id] is the id [new_channel_request_id] draws. *)
Definition begin_delivery (new_id fingerprint : string) (draft : GrantDraft.t) (c : SentApprovalCache)
    : SentApprovalCacheAction.t * SentApprovalCache :=
  match seen c !! fingerprint with
  | Some (SentApprovalState.Delivered _ _) => (SentApprovalCacheAction.AlreadyDelivered, c)
  | Some (SentApprovalState.Delivering _ _) => (SentApprovalCacheAction.WaitForDelivery, c)
  | None =>
      let c := if max_entries c <=? size_of (order c) then evict_one_delivered_entry c else c in
      if max_entries c <=? size_of (order c) then (SentApprovalCacheAction.CacheFull, c)
      else (SentApprovalCacheAction.Deliver new_id,
            mkCache (<[fingerprint := SentApprovalState.Delivering new_id draft]> (seen c))
              (order c ++ [fingerprint]) (max_entries c))
  end.

(** ** The eviction loops *)

(** What evicting one entry does: the first entry that is not being delivered
    goes, the entries in front of it move to the back. *)
Definition evicted_one (c : SentApprovalCache) : SentApprovalCache :=
  match list_find (λ k, delivering (seen c) k = false) (order c) with
  | Some (i, k) =>
      mkCache (delete k (seen c)) (drop (S i) (order c) ++ take i (order c)) (max_entries c)
  | None => c
  end.

Lemma evict_one_loop_spec (s : gmap string SentApprovalState.t) m todo : ∀ done fuel,
  (length todo < fuel)%nat →
  evict_one_loop fuel (length done) (mkCache s (todo ++ done) m) =
    Some (match list_find (λ k, delivering s k = false) todo with
          | Some (i, k) => mkCache (delete k s) (drop (S i) todo ++ done ++ take i todo) m
          | None => mkCache s (done ++ todo) m
          end).
Proof.
  induction todo as [|k todo IH]; intros done [|fuel] Hfuel; simpl in Hfuel; try lia; simpl.
  - rewrite decide_False by lia. by rewrite app_nil_r.
  - rewrite decide_True by (rewrite length_app; lia).
    destruct (delivering s k) eqn:Hk.
    + rewrite decide_False by done.
      replace (S (length done)) with (length (done ++ [k])) by (rewrite length_app; simpl; lia).
      rewrite <- (assoc_L (++)). rewrite IH by lia. f_equal.
      destruct (list_find _ todo) as [[i k']|]; simpl; by rewrite <- !(assoc_L (++)).
    + rewrite decide_True by done. simpl. by rewrite app_nil_r, drop_0.
Qed.

Lemma evict_one_exact c : evict_one_delivered_entry c = evicted_one c.
Proof.
  unfold evict_one_delivered_entry, evicted_one.
  pose proof (evict_one_loop_spec (seen c) (max_entries c) (order c) [] (S (length (order c)))) as Hloop.
  destruct c as [s o m]; simpl in *. rewrite app_nil_r in Hloop. rewrite Hloop by lia. done.
Qed.

Lemma evict_overflow_loop_total : ∀ fuel scanned c,
  (length (order c) * S (length (order c)) < fuel + scanned)%nat → (scanned ≤ length (order c))%nat →
  is_Some (evict_overflow_loop fuel scanned c).
Proof.
  induction fuel as [|fuel IH]; intros scanned c Hfuel Hscanned; [nia|]. simpl.
  case_decide as Hgo; [|done]. destruct Hgo as [_ Hlt].
  destruct (order c) as [|k rest] eqn:Ho; [done|]. simpl in *.
  destruct (delivering (seen c) k).
  - apply IH; simpl; rewrite length_app; simpl; lia.
  - apply IH; simpl; lia.
Qed.

(** The overflow loop ends within its fuel. *)
Lemma overflow_terminates c :
  evict_overflow_loop (overflow_fuel (length (order c))) 0 c = Some (evict_delivered_overflow c).
Proof.
  unfold evict_delivered_overflow, overflow_fuel.
  destruct (evict_overflow_loop_total (S (length (order c) * S (length (order c)))) 0 c) as [c' Hc'];
    [lia..|]. by rewrite Hc'.
Qed.

Lemma overflow_within c : size_of (order c) ≤ max_entries c → evict_delivered_overflow c = c.
Proof.
  intros Hle. unfold evict_delivered_overflow, overflow_fuel. simpl. by rewrite decide_False by lia.
Qed.

(** ** The invariant *)

(** [order] lists the keys of [seen], each once, and no more than
    [max_entries] of them. *)
Record cache_ok (c : SentApprovalCache) : Prop := {
  cache_order : NoDup (order c);
  cache_keys k : k ∈ order c ↔ is_Some (seen c !! k);
  cache_size : size_of (order c) ≤ max_entries c;
  cache_max : 1 ≤ max_entries c
}.

Lemma cache_new_ok n : cache_ok (cache_new n).
Proof.
  split; simpl; [constructor| |unfold size_of; simpl; lia|lia].
  intros k. rewrite lookup_empty. split; [by intros ?%elem_of_nil | by intros []].
Qed.

Lemma size_of_app {A} (l1 l2 : list A) : size_of (l1 ++ l2) = size_of l1 + size_of l2.
Proof. unfold size_of. rewrite length_app. lia. Qed.

Lemma evicted_one_cases c : cache_ok c →
  (Forall (λ k, delivering (seen c) k = true) (order c) ∧ evicted_one c = c) ∨
  ∃ k rest, delivering (seen c) k = false ∧ order c ≡ₚ k :: rest ∧
    evicted_one c = mkCache (delete k (seen c)) rest (max_entries c).
Proof.
  intros Hc. unfold evicted_one.
  destruct (list_find _ (order c)) as [[i k]|] eqn:Hfind.
  - right. apply list_find_Some in Hfind as (Hi & Hk & _).
    exists k, (drop (S i) (order c) ++ take i (order c)). split_and!; [done| |done].
    rewrite <- (take_drop_middle _ _ _ Hi) at 1.
    rewrite (Permutation_app_comm (drop _ _)). by rewrite Permutation_middle.
  - left. split; [|done]. apply list_find_None in Hfind.
    eapply Forall_impl; [exact Hfind|]. intros x. simpl. by destruct (delivering _ _).
Qed.

Lemma evicted_one_ok c : cache_ok c → cache_ok (evicted_one c).
Proof.
  intros Hc. destruct (evicted_one_cases c Hc) as [[_ ->]|(k & rest & _ & Hperm & ->)]; [done|].
  destruct Hc as [Hnd Hkeys Hsize Hmax]. rewrite Hperm in Hnd. apply NoDup_cons in Hnd as [Hk Hnd].
  split; simpl; [done| | |done].
  - intros k'. rewrite lookup_delete_is_Some, <- Hkeys, Hperm, elem_of_cons. naive_solver.
  - unfold size_of in *. rewrite Hperm in Hsize. simpl in Hsize. lia.
Qed.

Lemma forget_ok fp c : cache_ok c → cache_ok (forget fp c).
Proof.
  intros [Hnd Hkeys Hsize Hmax]. unfold forget. destruct (seen c !! fp) eqn:Hfp; [|by split].
  split; simpl; [| | |done].
  - apply (NoDup_ListNoDup) . apply List.NoDup_filter. by apply NoDup_ListNoDup.
  - intros k. rewrite lookup_delete_is_Some, <- Hkeys. rewrite !list_elem_of_In, List.filter_In.
    rewrite negb_true_iff, String.eqb_neq. naive_solver.
  - unfold size_of in *. pose proof (List.filter_length_le (λ k, negb (String.eqb k fp)) (order c)). lia.
Qed.

Lemma finish_delivery_true fp c : cache_ok c →
  finish_delivery fp true c = mkCache (alter set_delivered fp (seen c)) (order c) (max_entries c).
Proof. intros Hc. unfold finish_delivery. apply overflow_within. simpl. apply Hc. Qed.

Lemma finish_delivery_ok fp b c : cache_ok c → cache_ok (finish_delivery fp b c).
Proof.
  intros Hc. destruct b; [|by apply forget_ok]. rewrite finish_delivery_true by done.
  destruct Hc as [Hnd Hkeys Hsize Hmax]. split; simpl; try done.
  intros k. by rewrite lookup_alter_is_Some, Hkeys.
Qed.

(** The cache [begin_delivery] adds its entry to. *)
Definition with_room (c : SentApprovalCache) : SentApprovalCache :=
  if max_entries c <=? size_of (order c) then evicted_one c else c.

Lemma with_room_ok c : cache_ok c → cache_ok (with_room c).
Proof. intros Hc. unfold with_room. case_match; [by apply evicted_one_ok | done]. Qed.

(** Making room removes at most one entry, none that is being delivered. *)
Lemma with_room_keeps c k st : cache_ok c → seen c !! k = Some st →
  delivering (seen c) k = true → seen (with_room c) !! k = Some st.
Proof.
  intros Hc Hk Hdel. unfold with_room. case_match; [|done].
  destruct (evicted_one_cases c Hc) as [[_ ->]|(k' & rest & Hk' & _ & ->)]; [done|]. simpl.
  rewrite lookup_delete_ne; [done|]. congruence.
Qed.

Lemma with_room_sub c k st : seen (with_room c) !! k = Some st → seen c !! k = Some st.
Proof.
  unfold with_room, evicted_one. case_match; [|done]. repeat case_match; simpl; [|done].
  by intros [_ ?]%lookup_delete_Some.
Qed.

(** There is room unless [max_entries] deliveries are in progress. *)
Lemma with_room_full c : cache_ok c →
  max_entries (with_room c) ≤ size_of (order (with_room c)) ↔
  size_of (order c) = max_entries c ∧ Forall (λ k, delivering (seen c) k = true) (order c).
Proof.
  intros Hc. unfold with_room. pose proof (cache_size c Hc) as Hsize.
  destruct (Z.leb_spec (max_entries c) (size_of (order c))) as [Hle|Hlt]; [|split; [lia|intros [? _]; lia]].
  destruct (evicted_one_cases c Hc) as [[Hall ->]|(k & rest & Hk & Hperm & ->)]; simpl.
  - split; [intros _; split; [lia|done] | lia].
  - assert (size_of (order c) = size_of rest + 1) as Hlen
      by (unfold size_of; rewrite Hperm; simpl; lia).
    split; [lia|]. intros [_ Hall]. rewrite Hperm in Hall. inversion Hall; congruence.
Qed.

Lemma begin_delivery_eq new_id fp draft c : seen c !! fp = None →
  begin_delivery new_id fp draft c =
    if max_entries (with_room c) <=? size_of (order (with_room c))
    then (SentApprovalCacheAction.CacheFull, with_room c)
    else (SentApprovalCacheAction.Deliver new_id,
          mkCache (<[fp := SentApprovalState.Delivering new_id draft]> (seen (with_room c)))
            (order (with_room c) ++ [fp]) (max_entries (with_room c))).
Proof. intros Hfp. unfold begin_delivery. rewrite Hfp, evict_one_exact. done. Qed.

Lemma begin_delivery_ok new_id fp draft c :
  cache_ok c → cache_ok (begin_delivery new_id fp draft c).2.
Proof.
  intros Hc. destruct (seen c !! fp) as [st|] eqn:Hfp.
  { unfold begin_delivery. rewrite Hfp. by destruct st. }
  rewrite begin_delivery_eq by done. pose proof (with_room_ok c Hc) as Hr.
  destruct (Z.leb_spec (max_entries (with_room c)) (size_of (order (with_room c)))) as [_|Hlt]; [done|].
  assert (seen (with_room c) !! fp = None) as Hfresh.
  { destruct (seen (with_room c) !! fp) eqn:Hf; [|done]. apply with_room_sub in Hf. congruence. }
  destruct Hr as [Hnd Hkeys Hsize Hmax]. split; simpl; [| | |done].
  - apply NoDup_app. split_and!; [done| |apply NoDup_singleton].
    intros k Hk ->%list_elem_of_singleton. apply Hkeys in Hk. rewrite Hfresh in Hk. by destruct Hk.
  - intros k. rewrite elem_of_app, list_elem_of_singleton, lookup_insert_is_Some', Hkeys. naive_solver.
  - rewrite size_of_app. unfold size_of at 2. simpl. lia.
Qed.

(** ** Runs *)

(** The calls the channel resolver makes, each under the lock. *)
Inductive cache_op :=
| OpBegin (new_id fingerprint : string) (draft : GrantDraft.t)
| OpFinish (fingerprint : string) (delivered : bool)
| OpForget (fingerprint : string).

Definition run_cache_op (c : SentApprovalCache) (op : cache_op) : SentApprovalCache :=
  match op with
  | OpBegin new_id fp draft => (begin_delivery new_id fp draft c).2
  | OpFinish fp b => finish_delivery fp b c
  | OpForget fp => forget fp c
  end.

Lemma run_cache_op_ok c op : cache_ok c → cache_ok (run_cache_op c op).
Proof.
  destruct op; simpl; [apply begin_delivery_ok | apply finish_delivery_ok | apply forget_ok].
Qed.

Lemma run_cache_ops_ok ops c : cache_ok c → cache_ok (foldl run_cache_op c ops).
Proof. revert c. induction ops as [|op ops IH]; intros c Hc; simpl; [done|]. by apply IH, run_cache_op_ok. Qed.

Lemma run_cache_op_max c op : cache_ok c → max_entries (run_cache_op c op) = max_entries c.
Proof.
  intros Hc. destruct op as [new_id fp draft|fp b|fp]; simpl.
  - destruct (seen c !! fp) as [st|] eqn:Hfp; [unfold begin_delivery; rewrite Hfp; by destruct st|].
    rewrite begin_delivery_eq by done.
    assert (max_entries (with_room c) = max_entries c) as Hm
      by (unfold with_room, evicted_one; repeat case_match; done).
    case_match; simpl; done.
  - destruct b; [by rewrite finish_delivery_true|]. simpl. unfold forget. by case_match.
  - unfold forget. by case_match.
Qed.

Lemma run_cache_ops_max ops c : cache_ok c → max_entries (foldl run_cache_op c ops) = max_entries c.
Proof.
  revert c. induction ops as [|op ops IH]; intros c Hc; simpl; [done|].
  rewrite IH by (by apply run_cache_op_ok). by apply run_cache_op_max.
Qed.

(** The cache of sent approvals stays within its limit over every run of
    its operations: it remembers at most [max(limit, 1)] requests, [order]
    lists the remembered ones once each, and a request whose delivery is in
    progress is only dropped by its own [finish_delivery] or [forget], never
    to make room for another. *)
Theorem sent_cache_bounded (n : Z) (ops : list cache_op) :
  let c := foldl run_cache_op (cache_new n) ops in
  Z.of_nat (size (seen c)) ≤ Z.max n 1 ∧
  order c ≡ₚ elements (dom (seen c)) ∧
  ∀ new_id fp draft k st,
    seen c !! k = Some st → delivering (seen c) k = true →
    seen (begin_delivery new_id fp draft c).2 !! k = Some st.
Proof.
  intros c. assert (cache_ok c) as Hc by apply run_cache_ops_ok, cache_new_ok.
  assert (order c ≡ₚ elements (dom (seen c))) as Hperm.
  { apply NoDup_Permutation; [apply Hc|apply NoDup_elements|].
    intros k. by rewrite elem_of_elements, elem_of_dom, (cache_keys c Hc). }
  assert (max_entries c = Z.max n 1) as Hmax by (unfold c; rewrite run_cache_ops_max; [done|apply cache_new_ok]).
  split_and!; [|done|].
  - rewrite <- Hmax, <- size_dom. pose proof (cache_size c Hc) as Hs. unfold size_of in Hs.
    rewrite Hperm in Hs. exact Hs.
  - intros new_id fp draft k st Hk Hdel. destruct (seen c !! fp) as [st'|] eqn:Hfp.
    { unfold begin_delivery. rewrite Hfp. by destruct st'. }
    rewrite begin_delivery_eq by done. case_match; simpl; [by apply with_room_keeps|].
    rewrite lookup_insert_ne by congruence. by apply with_room_keeps.
Qed.

(** What asking to deliver a request does.  A request already sent or
    being sent is not sent twice; otherwise it is sent under the fresh id,
    unless [max_entries] deliveries are in progress, when nothing changes. *)
Theorem begin_delivery_decides (new_id fp : string) (draft : GrantDraft.t) (c : SentApprovalCache) :
  cache_ok c →
  match begin_delivery new_id fp draft c with
  | (SentApprovalCacheAction.AlreadyDelivered, c') =>
      c' = c ∧ ∃ rid d, seen c !! fp = Some (SentApprovalState.Delivered rid d)
  | (SentApprovalCacheAction.WaitForDelivery, c') =>
      c' = c ∧ ∃ rid d, seen c !! fp = Some (SentApprovalState.Delivering rid d)
  | (SentApprovalCacheAction.CacheFull, c') =>
      c' = c ∧ seen c !! fp = None ∧ size_of (order c) = max_entries c ∧
      Forall (λ k, delivering (seen c) k = true) (order c)
  | (SentApprovalCacheAction.Deliver rid, c') =>
      rid = new_id ∧ seen c !! fp = None ∧
      seen c' !! fp = Some (SentApprovalState.Delivering new_id draft)
  end.
Proof.
  intros Hc. destruct (seen c !! fp) as [[rid d|rid d]|] eqn:Hfp; [unfold begin_delivery; rewrite Hfp; eauto..|].
  rewrite begin_delivery_eq by done. pose proof (with_room_full c Hc) as Hfull.
  destruct (Z.leb_spec (max_entries (with_room c)) (size_of (order (with_room c)))) as [Hle|Hlt].
  - apply Hfull in Hle as [Hlen Hall]. split_and!; try done.
    unfold with_room. case_match; [|done].
    destruct (evicted_one_cases c Hc) as [[_ ->]|(k & rest & Hk & Hperm & _)]; [done|].
    rewrite Hperm in Hall. inversion Hall; congruence.
  - split_and!; try done. simpl. by rewrite lookup_insert_eq.
Qed.
