(* ===== verification/ApprovalIntake.v ===== *)
(** * The operator's approval intake

    Models [crates/capabilities/cap-grant/src/approval_intake.rs], and from
    [resolver.rs] the port between it and the channel resolver.  The registry of
    parked requests is a map behind one mutex: each locked section is one step
    on it, and an operation of the intake is the sequence of its sections. *)
From S2P Require Import Prelude RustStr GrantData Subset Cascade Events GrantSqlite GrantStore Preset.
Open Scope string_scope.
Open Scope list_scope.
Open Scope Z_scope.

(** ** The port *)

Module ChannelApprovalDecision.
Inductive t := Pending | Approved | Denied (reason : string).
#[global] Instance eq_dec : EqDecision t.
Proof. solve_decision. Defined.
End ChannelApprovalDecision.

Module ChannelApprovalRequest.
Record t := mk {
  request_id : string;
  caller : string;
  capability : string;
  params : option (list CapParam.t);
  ttl : GrantTtl.t;
  justification : option string
}.
#[global] Instance eq_dec : EqDecision t.
Proof. solve_decision. Defined.

Definition from_grant_request (req : GrantRequest.t) (request_id : string) : t :=
  mk request_id (GrantRequest.caller req) (GrantRequest.capability req) (GrantRequest.params req)
    (GrantRequest.ttl req) (GrantRequest.justification req).
End ChannelApprovalRequest.

(** The trait, over the backend's state [P].  A [ChannelApprovalError] is its
    message. *)
Class ChannelApprovalPort (P : Type) := {
  decision : string → P → ChannelApprovalDecision.t;
  request_approval : ChannelApprovalRequest.t → M P string unit;
  take_approved : string → P → option (option (list CapParam.t)) * P;
  resolved : string → P → P
}.

(** What the channel resolver relies on: a request is approved at most once,
    and no call touches another request's approval. *)
Class ChannelApprovalPortLaws (P : Type) `{ChannelApprovalPort P} : Prop := {
  take_is_approved rid p narrowed p' :
    take_approved rid p = (Some narrowed, p') →
    decision rid p = ChannelApprovalDecision.Approved ∧ decision rid p' ≠ ChannelApprovalDecision.Approved;
  take_none rid p p' : take_approved rid p = (None, p') → p' = p;
  take_frame rid rid' p : rid ≠ rid' → decision rid' (take_approved rid p).2 = decision rid' p;
  resolved_frame rid rid' p : rid ≠ rid' → decision rid' (resolved rid p) = decision rid' p;
  resolved_not_approved rid p : decision rid (resolved rid p) ≠ ChannelApprovalDecision.Approved;
  request_not_approved r p rid :
    decision rid (request_approval r p).2 = ChannelApprovalDecision.Approved →
    decision rid p = ChannelApprovalDecision.Approved
}.

(** ** The registry *)

Definition MAX_PENDING_REQUESTS : Z := 1024.
Definition MAX_PENDING_PER_CALLER : Z := 64.
Definition MAX_NARROW_PARAMS_ENTRIES : Z := 64.
Definition MAX_NARROW_PARAM_KEY_BYTES : Z := 256.
Definition MAX_NARROW_PARAM_VALUE_BYTES : Z := 4096.
Definition MAX_NARROW_PARAMS_TOTAL_BYTES : Z := 4096.
Definition INTAKE_RESOLVER_TYPE : string := "GrantApprovalIntake".

Module IntakeDecision.
Inductive t := Pending | Approved (narrowed : option (list CapParam.t)) | Denied (reason : string).
#[global] Instance eq_dec : EqDecision t.
Proof. solve_decision. Defined.

Definition is_pending (d : t) : bool := match d with Pending => true | _ => false end.
Definition is_denied (d : t) : bool := match d with Denied _ => true | _ => false end.
End IntakeDecision.

Module PendingEntry.
Record t := mk { request : ChannelApprovalRequest.t; decision : IntakeDecision.t; seq : Z }.
#[global] Instance eq_dec : EqDecision t.
Proof. solve_decision. Defined.

Definition is_pending (e : t) : bool := IntakeDecision.is_pending (decision e).
Definition caller (e : t) : string := ChannelApprovalRequest.caller (request e).
Definition set_decision (d : IntakeDecision.t) (e : t) : t := mk (request e) d (seq e).
End PendingEntry.

Record PendingRegistry := mkRegistry {
  entries : gmap string PendingEntry.t;
  next_seq : Z
}.

Definition set_entries (f : gmap string PendingEntry.t → gmap string PendingEntry.t) (r : PendingRegistry)
    : PendingRegistry := mkRegistry (f (entries r)) (next_seq r).

(** [GrantApprovalIntake::new]. *)
Definition registry_new : PendingRegistry := mkRegistry ∅ 1.

(** The order [entries.iter()] runs in: any, which the code may not rely on. *)
Class EntryOrder := iter_entries : gmap string PendingEntry.t → list (string * PendingEntry.t).

Class EntryOrderLaws `{EntryOrder} : Prop := iter_entries_perm es : iter_entries es ≡ₚ map_to_list es.

Definition entry_order_model : EntryOrder := map_to_list.

Lemma entry_order_model_laws : @EntryOrderLaws entry_order_model.
Proof. intros es. reflexivity. Qed.

(** [iter.min_by_key(key)]: the first of the least elements. *)
Definition min_by_key {A} (key : A → Z) (l : list A) : option A :=
  match l with
  | [] => None
  | x :: l => Some (foldl (λ m y, if key y <? key m then y else m) x l)
  end.

Definition wrapped : string := "grant-approval-intake: pending generation counter wrapped".

Definition try_next_seq : M PendingRegistry string Z :=
  reg ← get_state;
  let s := next_seq reg in
  _ ← fail_if (s =? 0) wrapped;
  _ ← fail_if (U64_MAX <? s + 1) wrapped;
  _ ← modify (λ reg, mkRegistry (entries reg) (s + 1));
  mret s.

(** [a.saturating_add(b)] on [usize]. *)
Definition saturating_add (a b : Z) : Z := Z.min U64_MAX (a + b).

(** The caps on the parameters an operator narrows to. *)
Definition narrow_check_params (new_params : list CapParam.t) : Result unit :=
  _ ← guard_err (MAX_NARROW_PARAMS_ENTRIES <? size_of new_params)
        (CapGrantError.InvalidConfig "narrow: params exceeds the entry cap");
  _ ← try_for (λ p,
        _ ← guard_err (MAX_NARROW_PARAM_KEY_BYTES <? len (CapParam.key p))
              (CapGrantError.InvalidConfig "narrow: cap-param key exceeds the byte cap");
        guard_err (MAX_NARROW_PARAM_VALUE_BYTES <? len (CapParam.value p))
          (CapGrantError.InvalidConfig "narrow: cap-param value exceeds the byte cap")) new_params;
  guard_err (MAX_NARROW_PARAMS_TOTAL_BYTES <?
      foldl (λ t p, saturating_add (saturating_add t (len (CapParam.key p))) (len (CapParam.value p))) 0 new_params)
    (CapGrantError.InvalidConfig "narrow: aggregate params exceed the byte cap").

Definition synthetic_parent_grant (now : Z) (grantee capability : string) (params : list CapParam.t) : Grant.t :=
  Grant.mk ("intake-narrow-parent:" +:+ grantee +:+ ":" +:+ capability) grantee capability params
    GrantTtl.Once GrantIssuer.Admin GrantProvenance.Requested GrantStatus.Active now None.

Definition already_decided (request_id : string) : CapGrantError.t :=
  CapGrantError.PermissionDenied "grant-approval-intake: request already decided".

(** The entry an operator may still decide: parked, undecided and, when a
    generation is expected, of that generation. *)
Definition undecided (expected_gen : option Z) (request_id : string) (reg : PendingRegistry)
    : Result PendingEntry.t :=
  entry ← ok_or (entries reg !! request_id) (CapGrantError.NotFound request_id);
  _ ← guard_err (negb (PendingEntry.is_pending entry)) (already_decided request_id);
  _ ← guard_err (match expected_gen with Some gen => negb (PendingEntry.seq entry =? gen) | None => false end)
        (CapGrantError.InvalidConfig "grant-approval-intake: stale pending generation");
  mret entry.

(** [entry.decision = d]. *)
Definition record_decision (request_id : string) (d : IntakeDecision.t) (reg : PendingRegistry) : PendingRegistry :=
  set_entries (alter (PendingEntry.set_decision d) request_id) reg.

(** The locked section that decides: [set_decision], and the same section of
    the [_if_generation] operations. *)
Definition set_decision (expected_gen : option Z) (request_id : string) (d : IntakeDecision.t)
    : M PendingRegistry CapGrantError.t (string * string) :=
  reg ← get_state;
  entry ← lift (undecided expected_gen request_id reg);
  _ ← modify (record_decision request_id d);
  mret (PendingEntry.caller entry, ChannelApprovalRequest.capability (PendingEntry.request entry)).

Definition invalidate_pending_for (target : string) : PendingRegistry → PendingRegistry :=
  set_entries (fmap (M := gmap string) (λ e,
    if String.eqb (PendingEntry.caller e) target && negb (IntakeDecision.is_denied (PendingEntry.decision e))
    then PendingEntry.set_decision (IntakeDecision.Denied "superseded-by-preset") e else e)).

(** Parking order. *)
Definition entry_le : relation PendingEntry.t := λ a b, PendingEntry.seq a ≤ PendingEntry.seq b.

#[export] Instance entry_le_dec : RelDecision entry_le.
Proof. intros a b. unfold entry_le. apply _. Defined.

Section registry.
Context `{EntryOrder}.

(** The entries for which [f] holds. *)
Definition filter_entries (f : PendingEntry.t → bool) (reg : PendingRegistry) : list (string * PendingEntry.t) :=
  List.filter (λ ie : string * PendingEntry.t, f ie.2) (iter_entries (entries reg)).

Definition evict_one_terminal (reg : PendingRegistry) : bool * PendingRegistry :=
  match min_by_key (λ ie : string * PendingEntry.t, PendingEntry.seq ie.2)
          (filter_entries (λ e, negb (PendingEntry.is_pending e)) reg) with
  | Some (id, _) => (true, set_entries (delete id) reg)
  | None => (false, reg)
  end.

Definition caller_pending (caller : string) (reg : PendingRegistry) : Z :=
  size_of (filter_entries (λ e, String.eqb (PendingEntry.caller e) caller && PendingEntry.is_pending e) reg).

(** The global cap: make room by evicting a decided entry, or fail. *)
Definition ensure_capacity : M PendingRegistry string unit :=
  reg ← get_state;
  if MAX_PENDING_REQUESTS <=? Z.of_nat (size (entries reg)) then
    let (evicted, reg') := evict_one_terminal reg in
    _ ← modify (λ _, reg');
    fail_if (negb evicted) "grant-approval-intake: pending registry full (1024 live pending approvals)"
  else mret tt.

(** The caps, for a request that is not parked yet. *)
Definition room_for (request : ChannelApprovalRequest.t) : M PendingRegistry string unit :=
  reg ← get_state;
  match entries reg !! ChannelApprovalRequest.request_id request with
  | None =>
      _ ← fail_if (MAX_PENDING_PER_CALLER <=? caller_pending (ChannelApprovalRequest.caller request) reg)
            "grant-approval-intake: per-agent pending approval limit reached";
      ensure_capacity
  | Some _ => mret tt
  end.

Definition park_request (request : ChannelApprovalRequest.t) : M PendingRegistry string unit :=
  _ ← room_for request;
  seq ← try_next_seq;
  modify (set_entries (<[ChannelApprovalRequest.request_id request :=
                           PendingEntry.mk request IntakeDecision.Pending seq]>)).

(** The operator's queue. *)
Definition pending_by_seq (reg : PendingRegistry) : list PendingEntry.t :=
  merge_sort entry_le ((filter_entries PendingEntry.is_pending reg).*2).

(** [impl ChannelApprovalPort for GrantApprovalIntake]. *)
#[export] Instance intake_port : ChannelApprovalPort PendingRegistry := {
  decision request_id reg :=
    match entries reg !! request_id with
    | Some e =>
        match PendingEntry.decision e with
        | IntakeDecision.Pending => ChannelApprovalDecision.Pending
        | IntakeDecision.Approved _ => ChannelApprovalDecision.Approved
        | IntakeDecision.Denied reason => ChannelApprovalDecision.Denied reason
        end
    | None => ChannelApprovalDecision.Pending
    end;
  request_approval := park_request;
  take_approved request_id reg :=
    match PendingEntry.decision <$> entries reg !! request_id with
    | Some (IntakeDecision.Approved narrowed) => (Some narrowed, set_entries (delete request_id) reg)
    | _ => (None, reg)
    end;
  resolved request_id reg := set_entries (delete request_id) reg
}.
End registry.

(** ** The intake *)

Module GrantApprovalIntake.
(** The registry, the grant store and the bus the intake emits on. *)
Record t := mk { pending : PendingRegistry; store : GrantStore; event_bus : list Event }.

Definition IM := (M t CapGrantError.t).

(** A section under the lock of [pending]. *)
Definition on_pending {A} (m : M PendingRegistry CapGrantError.t A) : IM A := λ s,
  let (r, p) := m (pending s) in (r, mk p (store s) (event_bus s)).

(** A call of [self.store]. *)
Definition on_store {A} (m : ST A) : IM A := λ s,
  let (r, g) := m (store s) in (r, mk (pending s) g (event_bus s)).

(** [self.event_bus.emit(resolver_invoked_event(&caller, &capability, INTAKE_RESOLVER_TYPE, d))]. *)
Definition emit_decision (cc : string * string) (d : string) : IM unit := modify (λ s,
  mk (pending s) (store s) (event_bus s ++ [resolver_invoked_event cc.1 cc.2 INTAKE_RESOLVER_TYPE d])).

Definition decide_and_emit (expected_gen : option Z) (request_id : string) (d : IntakeDecision.t) (label : string)
    : IM unit :=
  cc ← on_pending (set_decision expected_gen request_id d);
  emit_decision cc label.

Definition approve (request_id : string) : IM unit :=
  decide_and_emit None request_id (IntakeDecision.Approved None) "approve".

Definition deny (request_id reason : string) : IM unit :=
  decide_and_emit None request_id (IntakeDecision.Denied reason) "deny".

Definition approve_if_generation (request_id : string) (expected_gen : Z) : IM unit :=
  decide_and_emit (Some expected_gen) request_id (IntakeDecision.Approved None) "approve".

Definition deny_if_generation (request_id : string) (expected_gen : Z) (reason : string) : IM unit :=
  decide_and_emit (Some expected_gen) request_id (IntakeDecision.Denied reason) "deny".

Section ops.
Context `{Chrono, Codec, HashOrder, V : SubsetValidator}.

(** The unlocked subset check of [narrow]. *)
Definition narrow_validate (now : Z) (entry : PendingEntry.t) (new_params : list CapParam.t) : Result unit :=
  let request := PendingEntry.request entry in
  let capability := ChannelApprovalRequest.capability request in
  validate
    (synthetic_parent_grant now (ChannelApprovalRequest.caller request) capability
       (default [] (ChannelApprovalRequest.params request)))
    (GrantDraft.mk capability new_params (ChannelApprovalRequest.ttl request)).

(** [narrow] and [narrow_if_generation]: the caps, the snapshot, the check,
    the second look under the lock. *)
Definition narrow_gen (expected_gen : option Z) (now : Z) (request_id : string) (new_params : list CapParam.t)
    : IM unit :=
  _ ← lift (narrow_check_params new_params);
  s ← get_state;
  entry ← lift (undecided expected_gen request_id (pending s));
  _ ← lift (narrow_validate now entry new_params);
  _ ← on_pending (set_decision expected_gen request_id (IntakeDecision.Approved (Some new_params)));
  emit_decision (PendingEntry.caller entry, ChannelApprovalRequest.capability (PendingEntry.request entry)) "approve".

Definition narrow (now : Z) (request_id : string) (new_params : list CapParam.t) : IM unit :=
  narrow_gen None now request_id new_params.

Definition narrow_if_generation (now : Z) (request_id : string) (expected_gen : Z) (new_params : list CapParam.t)
    : IM unit :=
  narrow_gen (Some expected_gen) now request_id new_params.

Definition revoke (grant_id : string) : IM Z :=
  s ← get_state;
  _ ← fail_if (match grants (store s) !! grant_id with Some g => is_static g | None => true end)
        (CapGrantError.NotFound grant_id);
  result ← on_store (cascade_revoke grant_id);
  mret (size_of (revoked result)).

(** The name gate of [apply_preset]. *)
Definition check_preset_name (preset_name : string) : Result unit :=
  _ ← guard_err (String.eqb preset_name "")
        (CapGrantError.InvalidConfig "apply_preset: preset name must not be empty");
  _ ← guard_err (256 <? len preset_name)
        (CapGrantError.InvalidConfig "apply_preset: preset name exceeds 256-byte cap");
  guard_err (has_control preset_name)
    (CapGrantError.InvalidConfig "apply_preset: preset name contains control bytes").

Definition apply_preset (now : Z) (uuids : nat → string) (created_at clock : nat → Z) (presets : PresetRegistry)
    (target preset_name : string) : IM (list string) :=
  _ ← lift (check_preset_name preset_name);
  _ ← fail_if (bool_decide (preset_get preset_name presets = None)) (CapGrantError.PresetNotFound preset_name);
  _ ← on_pending (modify (invalidate_pending_for target));
  result ← on_store (Preset.apply_preset now uuids created_at clock presets preset_name target target);
  mret (preset_created result).
End ops.
End GrantApprovalIntake.

(** What [inspect_request] answers. *)
Module RequestInspect.
Inductive t :=
| Decided
| Pending (caller : string) (generation : Z) (capability : string) (params : option (list CapParam.t))
    (ttl : GrantTtl.t) (justification : option string).
End RequestInspect.

Definition inspect_request (request_id : string) (reg : PendingRegistry) : option RequestInspect.t :=
  entry ← entries reg !! request_id;
  let r := PendingEntry.request entry in
  Some (if PendingEntry.is_pending entry then
          RequestInspect.Pending (ChannelApprovalRequest.caller r) (PendingEntry.seq entry)
            (ChannelApprovalRequest.capability r) (ChannelApprovalRequest.params r)
            (ChannelApprovalRequest.ttl r) (ChannelApprovalRequest.justification r)
        else RequestInspect.Decided).

(** A row of [list_pending]. *)
Module PendingApprovalView.
Record t := mk {
  request_id : string;
  caller : string;
  capability : string;
  params : option (list CapParam.t);
  ttl : GrantTtl.t;
  justification : option string;
  generation : Z
}.
End PendingApprovalView.

Definition view_of (e : PendingEntry.t) : PendingApprovalView.t :=
  let r := PendingEntry.request e in
  PendingApprovalView.mk (ChannelApprovalRequest.request_id r) (ChannelApprovalRequest.caller r)
    (ChannelApprovalRequest.capability r) (ChannelApprovalRequest.params r) (ChannelApprovalRequest.ttl r)
    (ChannelApprovalRequest.justification r) (PendingEntry.seq e).

Definition list_pending `{EntryOrder} (reg : PendingRegistry) : list PendingApprovalView.t :=
  view_of <$> pending_by_seq reg.

(** ** The registry's operations *)

Section min.
Context {A : Type} (key : A → Z).

Lemma min_by_key_Some l m : min_by_key key l = Some m → m ∈ l ∧ ∀ x, x ∈ l → key m ≤ key x.
Proof.
  destruct l as [|x l]; simpl; [done|]. intros [= Hm].
  assert (∀ m0, let m := foldl (λ m y, if key y <? key m then y else m) m0 l in
    (m = m0 ∨ m ∈ l) ∧ key m ≤ key m0 ∧ ∀ y, y ∈ l → key m ≤ key y) as Hgen.
  { clear. induction l as [|y l IH]; intros m0; simpl.
    - split_and!; [by left|lia|by intros y ?%elem_of_nil].
    - destruct (Z.ltb_spec (key y) (key m0)).
      + destruct (IH y) as (Hin & Hle & Hall). split_and!; [|lia|].
        * right. destruct Hin as [->|?]; [by left|by right].
        * intros z [->|?]%elem_of_cons; [lia|by apply Hall].
      + destruct (IH m0) as (Hin & Hle & Hall). split_and!; [|lia|].
        * destruct Hin as [->|?]; [by left|right; by right].
        * intros z [->|?]%elem_of_cons; [lia|by apply Hall]. }
  destruct (Hgen x) as (Hin & Hle & Hall). rewrite Hm in *. split.
  - destruct Hin as [->|?]; [by left|by right].
  - intros y [->|?]%elem_of_cons; [lia|by apply Hall].
Qed.

Lemma min_by_key_None l : min_by_key key l = None ↔ l = [].
Proof. by destruct l. Qed.
End min.

Section registry_facts.
Context `{EntryOrder, !EntryOrderLaws}.

Lemma elem_filter_entries f reg k e :
  (k, e) ∈ filter_entries f reg ↔ entries reg !! k = Some e ∧ f e = true.
Proof.
  unfold filter_entries. rewrite list_elem_of_In, List.filter_In, <- list_elem_of_In.
  by rewrite (iter_entries_perm (entries reg)), elem_of_map_to_list.
Qed.

Lemma filter_entries_size f reg :
  size_of (filter_entries f reg) =
    Z.of_nat (size (filter (λ ie : string * PendingEntry.t, f ie.2 = true) (entries reg))).
Proof.
  unfold size_of, filter_entries. f_equal.
  rewrite <- length_map_to_list. apply Permutation_length. apply NoDup_Permutation.
  - apply NoDup_ListNoDup, List.NoDup_filter, NoDup_ListNoDup.
    rewrite (iter_entries_perm (entries reg)). apply NoDup_map_to_list.
  - apply NoDup_map_to_list.
  - intros [k e]. rewrite elem_of_map_to_list, map_lookup_filter_Some.
    rewrite <- elem_filter_entries. done.
Qed.

(** The evicted entry is decided, and the oldest such. *)
Lemma evict_one_terminal_true reg reg' : evict_one_terminal reg = (true, reg') →
  ∃ k e, entries reg !! k = Some e ∧ PendingEntry.is_pending e = false ∧
    reg' = set_entries (delete k) reg ∧
    ∀ k' e', entries reg !! k' = Some e' → PendingEntry.is_pending e' = false →
      PendingEntry.seq e ≤ PendingEntry.seq e'.
Proof.
  unfold evict_one_terminal. destruct (min_by_key _ _) as [[k e]|] eqn:Hmin; [|done].
  intros [= <-]. apply min_by_key_Some in Hmin as [[Hk Hp]%elem_filter_entries Hall].
  exists k, e. split_and!; [done|by apply negb_true_iff|done|].
  intros k' e' Hk' Hp'. apply (Hall (k', e')), elem_filter_entries. by rewrite Hp'.
Qed.

Lemma evict_one_terminal_false reg reg' : evict_one_terminal reg = (false, reg') →
  reg' = reg ∧ ∀ k e, entries reg !! k = Some e → PendingEntry.is_pending e = true.
Proof.
  unfold evict_one_terminal. destruct (min_by_key _ _) as [[k e]|] eqn:Hmin; [done|].
  intros [= <-]. split; [done|]. apply min_by_key_None in Hmin. intros k e Hk.
  destruct (PendingEntry.is_pending e) eqn:Hp; [done|].
  assert ((k, e) ∈ filter_entries (λ e, negb (PendingEntry.is_pending e)) reg) as Hin
    by (apply elem_filter_entries; by rewrite Hp).
  rewrite Hmin in Hin. by apply elem_of_nil in Hin.
Qed.

(** The registry a new entry is added to. *)
Definition with_capacity (reg : PendingRegistry) : PendingRegistry :=
  if MAX_PENDING_REQUESTS <=? Z.of_nat (size (entries reg)) then (evict_one_terminal reg).2 else reg.

Definition full (reg : PendingRegistry) : Prop :=
  MAX_PENDING_REQUESTS ≤ Z.of_nat (size (entries reg)) ∧
  ∀ k e, entries reg !! k = Some e → PendingEntry.is_pending e = true.

Lemma ensure_capacity_cases reg :
  (full reg ∧ ∃ msg, ensure_capacity reg = (Err msg, reg)) ∨
  (¬ full reg ∧ ensure_capacity reg = (Ok tt, with_capacity reg)).
Proof.
  unfold ensure_capacity, with_capacity, full. run.
  destruct (Z.leb_spec MAX_PENDING_REQUESTS (Z.of_nat (size (entries reg)))) as [Hle|Hlt].
  - destruct (evict_one_terminal reg) as [[] reg'] eqn:Hev; cbn.
    + right. split; [|done]. intros [_ Hall].
      apply evict_one_terminal_true in Hev as (k & e & Hk & Hp & _). apply Hall in Hk. congruence.
    + left. apply evict_one_terminal_false in Hev as [-> Hall]. eauto.
  - right. split; [lia|done].
Qed.

Lemma with_capacity_sub reg k e : entries (with_capacity reg) !! k = Some e → entries reg !! k = Some e.
Proof.
  unfold with_capacity. case_match; [|done]. destruct (evict_one_terminal reg) as [[] reg'] eqn:Hev; cbn.
  - apply evict_one_terminal_true in Hev as (k' & e' & _ & _ & -> & _). cbn. by intros [_ ?]%lookup_delete_Some.
  - by apply evict_one_terminal_false in Hev as [-> _].
Qed.

Lemma with_capacity_pending reg k e : entries reg !! k = Some e → PendingEntry.is_pending e = true →
  entries (with_capacity reg) !! k = Some e.
Proof.
  unfold with_capacity. case_match; [|done]. destruct (evict_one_terminal reg) as [[] reg'] eqn:Hev; cbn.
  - apply evict_one_terminal_true in Hev as (k' & e' & Hk' & Hp' & -> & _). cbn. intros Hk Hp.
    rewrite lookup_delete_ne by congruence. done.
  - by apply evict_one_terminal_false in Hev as [-> _].
Qed.

Lemma with_capacity_seq reg : next_seq (with_capacity reg) = next_seq reg.
Proof. unfold with_capacity, evict_one_terminal. repeat case_match; simplify_eq/=; done. Qed.

Lemma with_capacity_room reg : ¬ full reg →
  Z.of_nat (size (entries reg)) ≤ MAX_PENDING_REQUESTS →
  Z.of_nat (size (entries (with_capacity reg))) < MAX_PENDING_REQUESTS.
Proof.
  unfold with_capacity, full. intros Hfull Hsize.
  destruct (Z.leb_spec MAX_PENDING_REQUESTS (Z.of_nat (size (entries reg)))) as [Hle|Hlt]; [|done].
  destruct (evict_one_terminal reg) as [[] reg'] eqn:Hev; cbn.
  - apply evict_one_terminal_true in Hev as (k & e & Hk & _ & -> & _). cbn.
    pose proof (map_size_delete_Some k (entries reg)) as Hd. rewrite Hd by eauto.
    unfold MAX_PENDING_REQUESTS in *. lia.
  - apply evict_one_terminal_false in Hev as [-> Hall]. by exfalso; apply Hfull.
Qed.

(** What parking a request under a new id does. *)
Definition parked (r : ChannelApprovalRequest.t) (reg : PendingRegistry) : PendingRegistry :=
  mkRegistry
    (<[ChannelApprovalRequest.request_id r := PendingEntry.mk r IntakeDecision.Pending (next_seq reg)]> (entries reg))
    (next_seq reg + 1).

Definition seq_exhausted (reg : PendingRegistry) : Prop := next_seq reg = 0 ∨ U64_MAX ≤ next_seq reg.

Lemma try_next_seq_cases reg :
  (seq_exhausted reg ∧ ∃ msg, try_next_seq reg = (Err msg, reg)) ∨
  (¬ seq_exhausted reg ∧ try_next_seq reg = (Ok (next_seq reg), mkRegistry (entries reg) (next_seq reg + 1))).
Proof.
  unfold try_next_seq, seq_exhausted. run.
  destruct (Z.eqb_spec (next_seq reg) 0); cbn; [left; split; eauto|].
  destruct (Z.ltb_spec U64_MAX (next_seq reg + 1)); cbn; [left; split; [lia|eauto]|].
  right. split; [lia|done].
Qed.

Lemma park_request_new r reg : entries reg !! ChannelApprovalRequest.request_id r = None →
  let cp := caller_pending (ChannelApprovalRequest.caller r) reg in
  (¬ full reg ∧ cp < MAX_PENDING_PER_CALLER ∧ ¬ seq_exhausted reg ∧
   park_request r reg = (Ok tt, parked r (with_capacity reg))) ∨
  ((full reg ∨ MAX_PENDING_PER_CALLER ≤ cp ∨ seq_exhausted reg) ∧
   ∃ msg, park_request r reg = (Err msg, reg) ∨
          seq_exhausted reg ∧ park_request r reg = (Err msg, with_capacity reg)).
Proof.
  intros Hnew cp. unfold park_request, room_for. cbv [mbind M_bind get_state fail_if lift guard_err]. cbn beta iota.
  rewrite Hnew. fold cp.
  destruct (Z.leb_spec MAX_PENDING_PER_CALLER cp) as [Hcp|Hcp]; [right; split; [by auto|eauto]|].
  destruct (ensure_capacity_cases reg) as [[Hfull [msg Hc]]|[Hfull Hc]]; cbn beta iota; rewrite Hc.
  { right. split; [by left|]. exists msg. by left. }
  assert (seq_exhausted (with_capacity reg) ↔ seq_exhausted reg) as Hseq
    by (unfold seq_exhausted; by rewrite with_capacity_seq).
  destruct (try_next_seq_cases (with_capacity reg)) as [[Hex [msg Hs]]|[Hex Hs]]; cbn beta iota; rewrite Hs.
  - right. split; [right; right; by apply Hseq|]. exists msg. right. split; [by apply Hseq|done].
  - left. split_and!; [done|done|by rewrite <- Hseq|done].
Qed.

Lemma ensure_capacity_sub reg k e : entries (ensure_capacity reg).2 !! k = Some e → entries reg !! k = Some e.
Proof.
  destruct (ensure_capacity_cases reg) as [[_ [msg ->]]|[_ ->]]; [done|apply with_capacity_sub].
Qed.

Lemma room_for_sub r reg k e : entries (room_for r reg).2 !! k = Some e → entries reg !! k = Some e.
Proof.
  unfold room_for. cbv [mbind M_bind get_state fail_if lift guard_err]. cbn beta iota.
  destruct (entries reg !! ChannelApprovalRequest.request_id r); [done|].
  destruct (_ <=? _); [done|apply ensure_capacity_sub].
Qed.

(** Whatever [request_approval] answers, it adds at most its own entry. *)
Lemma park_sub r reg k e : entries (park_request r reg).2 !! k = Some e →
  entries reg !! k = Some e ∨
  (k = ChannelApprovalRequest.request_id r ∧ PendingEntry.request e = r ∧
   PendingEntry.decision e = IntakeDecision.Pending).
Proof.
  unfold park_request. cbv [mbind M_bind]. cbn beta iota. pose proof (room_for_sub r reg k e) as Hsub.
  destruct (room_for r reg) as [[[]|x] reg1]; cbn in *; [|by auto].
  destruct (try_next_seq_cases reg1) as [[_ [msg ->]]|[_ ->]]; cbn; [by auto|].
  destruct (decide (k = ChannelApprovalRequest.request_id r)) as [->|Hne].
  - rewrite lookup_insert_eq. intros [= <-]. by right.
  - rewrite lookup_insert_ne by done. auto.
Qed.
End registry_facts.
