(* ===== verification/IntakeProps.v ===== *)
(** * What the approval intake guarantees

    Runs of the intake's operations and the port calls of the channel resolver:
    the bounds of the registry, the fate of live requests, and what an operator
    can approve. *)
From S2P Require Import Prelude RustStr GrantData Subset Cascade Events GrantSqlite GrantStore Preset ApprovalIntake.
Open Scope string_scope.
Open Scope list_scope.
Open Scope Z_scope.

(** ** Settling *)

Section settling.
Context `{Chrono, Codec, HashOrder, V : SubsetValidator}.

(** A narrowed approval passed the caps and the subset check against the
    parked request. *)
Definition narrowing_ok (e : PendingEntry.t) : Prop :=
  match PendingEntry.decision e with
  | IntakeDecision.Approved (Some ps) =>
      narrow_check_params ps = Ok tt ∧ ∃ now, GrantApprovalIntake.narrow_validate now e ps = Ok tt
  | _ => True
  end.

(** [settles reg reg']: entries are dropped or decided; none is added, none
    goes back to pending. *)
Record settles (reg reg' : PendingRegistry) : Prop := {
  settles_seq : next_seq reg' = next_seq reg;
  settles_entry k e' : entries reg' !! k = Some e' →
    ∃ e, entries reg !! k = Some e ∧ PendingEntry.request e' = PendingEntry.request e ∧
      PendingEntry.seq e' = PendingEntry.seq e ∧
      (PendingEntry.is_pending e' = true → e' = e) ∧ (e' = e ∨ narrowing_ok e')
}.

Lemma settles_refl reg : settles reg reg.
Proof. split; [done|]. intros k e Hk. exists e. auto 10. Qed.

Lemma settles_delete k reg : settles reg (set_entries (delete k) reg).
Proof. split; [done|]. cbn. intros k' e [_ Hk']%lookup_delete_Some. exists e. auto 10. Qed.

Lemma settles_record rid d reg e :
  entries reg !! rid = Some e → IntakeDecision.is_pending d = false →
  narrowing_ok (PendingEntry.set_decision d e) → settles reg (record_decision rid d reg).
Proof.
  intros Hrid Hd Hok. split; [done|]. cbn. intros k e' Hk. destruct (decide (k = rid)) as [->|Hne].
  - rewrite lookup_alter_eq, Hrid in Hk. simplify_eq/=. exists e. split_and!; try done.
    + unfold PendingEntry.is_pending. cbn. congruence.
    + by right.
  - rewrite lookup_alter_ne in Hk by done. exists e'. auto 10.
Qed.

Lemma settles_invalidate target reg : settles reg (invalidate_pending_for target reg).
Proof.
  split; [done|]. cbn. intros k e'. rewrite lookup_fmap, fmap_Some. intros (e & Hk & ->).
  exists e. split; [done|]. case_match; [|auto 10]. split_and!; [done|done|done|by right].
Qed.

Lemma undecided_Ok gen rid reg e : undecided gen rid reg = Ok e →
  entries reg !! rid = Some e ∧ PendingEntry.is_pending e = true ∧
  match gen with Some g => PendingEntry.seq e = g | None => True end.
Proof.
  unfold undecided. destruct (entries reg !! rid) as [x|]; cbn; [|done].
  destruct (PendingEntry.is_pending x) eqn:Hp; cbn; [|done].
  destruct gen as [g|]; cbn; [|by intros [= <-]].
  destruct (Z.eqb_spec (PendingEntry.seq x) g); cbn; [by intros [= <-]|done].
Qed.

Lemma set_decision_cases gen rid d reg :
  set_decision gen rid d reg =
    match undecided gen rid reg with
    | Ok e => (Ok (PendingEntry.caller e, ChannelApprovalRequest.capability (PendingEntry.request e)),
               record_decision rid d reg)
    | Err x => (Err x, reg)
    end.
Proof. unfold set_decision. run. by destruct (undecided _ _ _). Qed.

Lemma decide_and_emit_settles gen rid d label s :
  match d with IntakeDecision.Approved None | IntakeDecision.Denied _ => True | _ => False end →
  settles (GrantApprovalIntake.pending s)
    (GrantApprovalIntake.pending (GrantApprovalIntake.decide_and_emit gen rid d label s).2).
Proof.
  intros Hd. unfold GrantApprovalIntake.decide_and_emit, GrantApprovalIntake.on_pending, GrantApprovalIntake.emit_decision.
  run. rewrite set_decision_cases. destruct (undecided _ _ _) as [e|] eqn:He; cbn; [|apply settles_refl].
  apply undecided_Ok in He as (He & _). eapply settles_record; [exact He|by destruct d as [|[]|]|].
  by destruct d as [|[]|].
Qed.

(** Every run of [narrow_gen]: either nothing changed, or the request was live,
    the caps and the check passed, and it is now approved with these
    parameters. *)
Lemma narrow_gen_cases gen now rid ps s :
  match GrantApprovalIntake.narrow_gen gen now rid ps s with
  | (Ok _, s') =>
      narrow_check_params ps = Ok tt ∧
      ∃ e, undecided gen rid (GrantApprovalIntake.pending s) = Ok e ∧
        GrantApprovalIntake.narrow_validate now e ps = Ok tt ∧
        s' = GrantApprovalIntake.mk
               (record_decision rid (IntakeDecision.Approved (Some ps)) (GrantApprovalIntake.pending s))
               (GrantApprovalIntake.store s)
               (GrantApprovalIntake.event_bus s ++
                  [resolver_invoked_event (PendingEntry.caller e)
                     (ChannelApprovalRequest.capability (PendingEntry.request e)) INTAKE_RESOLVER_TYPE "approve"])
  | (Err x, s') =>
      s' = s ∧
      (narrow_check_params ps = Err x ∨ undecided gen rid (GrantApprovalIntake.pending s) = Err x ∨
       ∃ e, undecided gen rid (GrantApprovalIntake.pending s) = Ok e ∧
         GrantApprovalIntake.narrow_validate now e ps = Err x)
  end.
Proof.
  unfold GrantApprovalIntake.narrow_gen, GrantApprovalIntake.on_pending, GrantApprovalIntake.emit_decision. run.
  destruct (narrow_check_params ps) as [[]|x] eqn:Hcaps; cbn; [|by auto].
  destruct (undecided gen rid (GrantApprovalIntake.pending s)) as [e|x] eqn:He; cbn; [|by auto].
  destruct (GrantApprovalIntake.narrow_validate now e ps) as [[]|x] eqn:Hv; cbn; [|by eauto 10].
  rewrite set_decision_cases, He. cbn. split; [done|]. by exists e.
Qed.

Lemma narrow_gen_settles gen now rid ps s :
  settles (GrantApprovalIntake.pending s)
    (GrantApprovalIntake.pending (GrantApprovalIntake.narrow_gen gen now rid ps s).2).
Proof.
  pose proof (narrow_gen_cases gen now rid ps s) as Hc.
  destruct (GrantApprovalIntake.narrow_gen gen now rid ps s) as [[[]|x] s']; cbn.
  - destruct Hc as (Hcaps & e & (He & _)%undecided_Ok & Hv & ->). cbn.
    eapply settles_record; [exact He|done|]. split; [done|]. exists now. exact Hv.
  - destruct Hc as [-> _]. apply settles_refl.
Qed.
End settling.

(** ** The registry invariant *)

Section invariant.
Context `{Chrono, Codec, HashOrder, V : SubsetValidator, EntryOrder, !EntryOrderLaws}.

(** [ids] are the request ids parked so far. *)
Record reg_inv (ids : list string) (reg : PendingRegistry) : Prop := {
  inv_entry k e : entries reg !! k = Some e →
    ChannelApprovalRequest.request_id (PendingEntry.request e) = k ∧ k ∈ ids ∧
    1 ≤ PendingEntry.seq e < next_seq reg ∧ narrowing_ok e;
  inv_seq k1 k2 e1 e2 : entries reg !! k1 = Some e1 → entries reg !! k2 = Some e2 →
    PendingEntry.seq e1 = PendingEntry.seq e2 → k1 = k2;
  inv_next : 1 ≤ next_seq reg;
  inv_size : Z.of_nat (size (entries reg)) ≤ MAX_PENDING_REQUESTS;
  inv_caller c : caller_pending c reg ≤ MAX_PENDING_PER_CALLER
}.

Lemma reg_inv_new : reg_inv [] registry_new.
Proof.
  split.
  - intros k e Hk. cbn in Hk. by rewrite lookup_empty in Hk.
  - intros k1 k2 e1 e2 Hk. cbn in Hk. by rewrite lookup_empty in Hk.
  - done.
  - done.
  - intros c. unfold caller_pending. rewrite filter_entries_size. cbn [registry_new entries].
    by rewrite map_filter_empty.
Qed.

Lemma reg_inv_ids ids ids' reg : ids ⊆ ids' → reg_inv ids reg → reg_inv ids' reg.
Proof.
  intros Hsub [He ? ? ? ?]. split; try done. intros k e Hk. apply He in Hk as (? & ? & ? & ?). auto.
Qed.

Lemma caller_pending_mono c reg reg' :
  (∀ k e, entries reg' !! k = Some e → PendingEntry.is_pending e = true → entries reg !! k = Some e) →
  caller_pending c reg' ≤ caller_pending c reg.
Proof.
  intros Hsub. unfold caller_pending. rewrite !filter_entries_size. apply inj_le, map_subseteq_size.
  apply map_subseteq_spec. intros k e. rewrite !map_lookup_filter_Some. cbn. intros [Hk Hp]. split; [|done].
  apply Hsub; [done|]. by b2p.
Qed.

(** The live requests of a caller, as a sub-map. *)
Definition live_of (c : string) (es : gmap string PendingEntry.t) : gmap string PendingEntry.t :=
  filter (λ ie : string * PendingEntry.t,
    String.eqb (PendingEntry.caller ie.2) c && PendingEntry.is_pending ie.2 = true) es.

Lemma live_of_delete c k es : (size (live_of c (delete k es)) ≤ size (live_of c es))%nat.
Proof. apply map_subseteq_size, map_filter_subseteq_mono, delete_subseteq. Qed.

Lemma caller_pending_insert c k e reg s :
  caller_pending c (mkRegistry (<[k := e]> (entries reg)) s) ≤
    caller_pending c reg + (if String.eqb (PendingEntry.caller e) c then 1 else 0).
Proof.
  unfold caller_pending. rewrite !filter_entries_size. cbn [entries].
  change (Z.of_nat (size (live_of c (<[k := e]> (entries reg)))) ≤
    Z.of_nat (size (live_of c (entries reg))) + (if String.eqb (PendingEntry.caller e) c then 1 else 0)).
  pose proof (live_of_delete c k (entries reg)) as Hdel.
  assert (size (live_of c (<[k := e]> (entries reg))) ≤
    size (live_of c (entries reg)) + if String.eqb (PendingEntry.caller e) c then 1 else 0)%nat as Hle;
    [|destruct (String.eqb _ _); lia].
  unfold live_of in *. rewrite map_filter_insert. cbn [snd].
  destruct (String.eqb (PendingEntry.caller e) c); cbn [andb].
  - case_decide; [|lia]. rewrite map_size_insert. case_match; simpl; lia.
  - rewrite decide_False by done. lia.
Qed.

Lemma settles_inv ids reg reg' : settles reg reg' → reg_inv ids reg → reg_inv ids reg'.
Proof.
  intros [Hseq Hent] [He Hs Hn Hsz Hc]. split.
  - intros k e' Hk. apply Hent in Hk as (e & Hk & Hreq & Hsq & Hp & Hok).
    apply He in Hk as (? & ? & ? & ?). rewrite Hreq, Hsq, Hseq. split_and!; [done..|lia|lia|].
    destruct Hok as [->|?]; done.
  - intros k1 k2 e1 e2 Hk1 Hk2 Heq. apply Hent in Hk1 as (x1 & Hx1 & _ & Hq1 & _).
    apply Hent in Hk2 as (x2 & Hx2 & _ & Hq2 & _). eapply Hs; [exact Hx1|exact Hx2|congruence].
  - by rewrite Hseq.
  - assert (size (entries reg') ≤ size (entries reg))%nat; [|lia].
    rewrite <- !size_dom. apply subseteq_size. intros k.
    rewrite !elem_of_dom. intros [e' (e & ? & _)%Hent]. by exists e.
  - intros c. etrans; [|apply (Hc c)]. apply caller_pending_mono.
    intros k e' (e & Hk & _ & _ & Hp & _)%Hent Hpend. by rewrite (Hp Hpend).
Qed.

Lemma with_capacity_settles reg : settles reg (with_capacity reg).
Proof.
  split; [apply with_capacity_seq|]. intros k e Hk%with_capacity_sub. exists e. auto 10.
Qed.

Lemma park_inv ids r reg : reg_inv ids reg → ChannelApprovalRequest.request_id r ∉ ids →
  reg_inv (ChannelApprovalRequest.request_id r :: ids) (park_request r reg).2.
Proof.
  intros Hinv Hfresh. set (id := ChannelApprovalRequest.request_id r) in *.
  assert (entries reg !! id = None) as Hnew.
  { destruct (entries reg !! id) as [e|] eqn:He; [|done]. by apply (inv_entry _ _ Hinv) in He as (_ & ? & _). }
  assert (reg_inv (id :: ids) reg) as Hinv' by (eapply reg_inv_ids; [|exact Hinv]; set_solver).
  pose proof (settles_inv _ _ _ (with_capacity_settles reg) Hinv') as Hcap.
  destruct (park_request_new r reg Hnew) as [(Hroom & Hcp & Hex & ->)|(_ & msg & [->|[_ ->]])]; cbn; try done.
  assert (entries (with_capacity reg) !! id = None) as Hnew'.
  { destruct (entries (with_capacity reg) !! id) eqn:He; [|done]. apply with_capacity_sub in He. congruence. }
  pose proof (with_capacity_room reg Hroom (inv_size _ _ Hinv)) as Hlt.
  pose proof (with_capacity_seq reg) as Hseq.
  destruct Hcap as [He Hs Hn Hsz Hc]. unfold parked. fold id.
  assert (∀ c, caller_pending c (with_capacity reg) ≤ caller_pending c reg) as Hmono.
  { intros c. apply caller_pending_mono. intros k e Hk _. by apply with_capacity_sub. }
  split; cbn [entries next_seq].
  - intros k e Hk. destruct (decide (k = id)) as [->|Hne].
    + rewrite lookup_insert_eq in Hk. simplify_eq/=. split_and!; [done|by left|lia|lia|done].
    + rewrite lookup_insert_ne in Hk by done. apply He in Hk as (? & ? & ? & ?). split_and!; [done..|lia|lia|done].
  - intros k1 k2 e1 e2 Hk1 Hk2 Heq.
    destruct (decide (k1 = id)) as [->|Hn1], (decide (k2 = id)) as [->|Hn2]; [done| | |].
    + rewrite lookup_insert_eq in Hk1. rewrite lookup_insert_ne in Hk2 by done. simplify_eq/=.
      apply He in Hk2 as (_ & _ & ? & _). lia.
    + rewrite lookup_insert_eq in Hk2. rewrite lookup_insert_ne in Hk1 by done. simplify_eq/=.
      apply He in Hk1 as (_ & _ & ? & _). lia.
    + rewrite lookup_insert_ne in Hk1, Hk2 by done. by eapply Hs.
  - lia.
  - rewrite map_size_insert_None by done. lia.
  - intros c. etrans; [apply caller_pending_insert|].
    change (PendingEntry.caller _) with (ChannelApprovalRequest.caller r).
    destruct (String.eqb_spec (ChannelApprovalRequest.caller r) c) as [<-|_].
    + specialize (Hmono (ChannelApprovalRequest.caller r)). lia.
    + specialize (Hc c). lia.
Qed.
End invariant.

(** ** Runs *)

(** The operator's operations and the resolver's port calls. *)
Inductive intake_op :=
| OpApprove (rid : string)
| OpDeny (rid reason : string)
| OpApproveIf (rid : string) (gen : Z)
| OpDenyIf (rid : string) (gen : Z) (reason : string)
| OpNarrow (now : Z) (rid : string) (ps : list CapParam.t)
| OpNarrowIf (now : Z) (rid : string) (gen : Z) (ps : list CapParam.t)
| OpRevoke (grant_id : string)
| OpApplyPreset (now : Z) (uuids : nat → string) (created_at clock : nat → Z) (presets : PresetRegistry)
    (target name : string)
| OpRequest (r : ChannelApprovalRequest.t)
| OpTake (rid : string)
| OpResolved (rid : string).

(** The request ids a run parks, the latest first. *)
Definition op_ids (op : intake_op) : list string :=
  match op with OpRequest r => [ChannelApprovalRequest.request_id r] | _ => [] end.

Definition requested (ops : list intake_op) : list string := foldl (λ ids op, op_ids op ++ ids) [] ops.

Section runs.
Context `{Chrono, Codec, HashOrder, V : SubsetValidator, EntryOrder}.

(** A port call on the intake's registry. *)
Definition with_pending (f : PendingRegistry → PendingRegistry) (s : GrantApprovalIntake.t) : GrantApprovalIntake.t :=
  GrantApprovalIntake.mk (f (GrantApprovalIntake.pending s)) (GrantApprovalIntake.store s)
    (GrantApprovalIntake.event_bus s).

Definition run_intake_op (s : GrantApprovalIntake.t) (op : intake_op) : GrantApprovalIntake.t :=
  match op with
  | OpApprove rid => (GrantApprovalIntake.approve rid s).2
  | OpDeny rid reason => (GrantApprovalIntake.deny rid reason s).2
  | OpApproveIf rid gen => (GrantApprovalIntake.approve_if_generation rid gen s).2
  | OpDenyIf rid gen reason => (GrantApprovalIntake.deny_if_generation rid gen reason s).2
  | OpNarrow now rid ps => (GrantApprovalIntake.narrow now rid ps s).2
  | OpNarrowIf now rid gen ps => (GrantApprovalIntake.narrow_if_generation now rid gen ps s).2
  | OpRevoke grant_id => (GrantApprovalIntake.revoke grant_id s).2
  | OpApplyPreset now uuids created_at clock presets target name =>
      (GrantApprovalIntake.apply_preset now uuids created_at clock presets target name s).2
  | OpRequest r => with_pending (λ p, (request_approval r p).2) s
  | OpTake rid => with_pending (λ p, (take_approved rid p).2) s
  | OpResolved rid => with_pending (resolved rid) s
  end.

Lemma apply_preset_pending now uuids created_at clock presets target name s :
  GrantApprovalIntake.pending (GrantApprovalIntake.apply_preset now uuids created_at clock presets target name s).2 =
    if is_ok (GrantApprovalIntake.check_preset_name name) && bool_decide (is_Some (preset_get name presets))
    then invalidate_pending_for target (GrantApprovalIntake.pending s)
    else GrantApprovalIntake.pending s.
Proof.
  unfold GrantApprovalIntake.apply_preset, GrantApprovalIntake.on_pending, GrantApprovalIntake.on_store. run.
  destruct (GrantApprovalIntake.check_preset_name name) as [[]|]; cbn; [|done].
  destruct (preset_get name presets) as [p|] eqn:Hp; cbn; [|done].
  by destruct (Preset.apply_preset _ _ _ _ _ _ _ _ _) as [[|] ?].
Qed.

Lemma revoke_pending gid s :
  GrantApprovalIntake.pending (GrantApprovalIntake.revoke gid s).2 = GrantApprovalIntake.pending s.
Proof.
  unfold GrantApprovalIntake.revoke, GrantApprovalIntake.on_store. run.
  destruct (match grants (GrantApprovalIntake.store s) !! gid with Some g => is_static g | None => true end); cbn; [done|].
  by destruct (cascade_revoke gid (GrantApprovalIntake.store s)) as [[|] ?].
Qed.

Lemma take_settles rid reg : settles reg (take_approved rid reg).2.
Proof. cbn. repeat case_match; cbn; apply settles_refl || apply settles_delete. Qed.

Lemma run_intake_op_inv `{!EntryOrderLaws} ids op s :
  reg_inv ids (GrantApprovalIntake.pending s) → NoDup (op_ids op ++ ids) →
  reg_inv (op_ids op ++ ids) (GrantApprovalIntake.pending (run_intake_op s op)).
Proof.
  intros Hinv Hnd. destruct op; cbn [op_ids app] in *; cbn [run_intake_op];
    try (eapply settles_inv; [by apply decide_and_emit_settles|exact Hinv]).
  - eapply settles_inv; [apply narrow_gen_settles|exact Hinv].
  - eapply settles_inv; [apply narrow_gen_settles|exact Hinv].
  - by rewrite revoke_pending.
  - rewrite apply_preset_pending. case_match; [|done]. eapply settles_inv; [apply settles_invalidate|exact Hinv].
  - apply NoDup_cons in Hnd as [Hfresh _]. by apply park_inv.
  - eapply settles_inv; [apply take_settles|exact Hinv].
  - eapply settles_inv; [apply settles_delete|exact Hinv].
Qed.

Lemma run_intake_inv `{!EntryOrderLaws} ops s :
  GrantApprovalIntake.pending s = registry_new → NoDup (requested ops) →
  reg_inv (requested ops) (GrantApprovalIntake.pending (foldl run_intake_op s ops)).
Proof.
  intros Hs. induction ops as [|op ops IH] using rev_ind; intros Hnd.
  - cbn. rewrite Hs. apply reg_inv_new.
  - unfold requested in *. rewrite foldl_snoc in *. rewrite foldl_snoc. apply run_intake_op_inv; [|done].
    apply IH. by apply NoDup_app in Hnd as (_ & _ & ?).
Qed.
End runs.

Section listing.
Context `{EntryOrder, !EntryOrderLaws}.

Lemma elem_pending_by_seq reg e :
  e ∈ pending_by_seq reg ↔ PendingEntry.is_pending e = true ∧ ∃ k, entries reg !! k = Some e.
Proof.
  unfold pending_by_seq. rewrite merge_sort_Permutation, list_elem_of_fmap. split.
  - intros ([k e'] & -> & [? ?]%elem_filter_entries). eauto.
  - intros (Hp & k & Hk). exists (k, e). split; [done|]. by apply elem_filter_entries.
Qed.

Lemma pending_by_seq_NoDup reg :
  (∀ k1 k2 e1 e2, entries reg !! k1 = Some e1 → entries reg !! k2 = Some e2 →
    PendingEntry.seq e1 = PendingEntry.seq e2 → k1 = k2) →
  NoDup (PendingEntry.seq <$> pending_by_seq reg).
Proof.
  intros Hinj. unfold pending_by_seq. rewrite merge_sort_Permutation, <- list_fmap_compose.
  apply NoDup_fmap_2_strong.
  - intros [k1 e1] [k2 e2] [H1 _]%elem_filter_entries [H2 _]%elem_filter_entries Heq. cbn in Heq.
    assert (k1 = k2) as -> by (by eapply Hinj). congruence.
  - apply NoDup_ListNoDup, List.NoDup_filter, NoDup_ListNoDup.
    rewrite (iter_entries_perm (entries reg)). apply NoDup_map_to_list.
Qed.

Lemma strictly_sorted l : StronglySorted entry_le l → NoDup (PendingEntry.seq <$> l) →
  StronglySorted Z.lt (PendingEntry.seq <$> l).
Proof.
  induction 1 as [|e l Hl IH Hall]; rewrite ?fmap_cons; [constructor|].
  intros [Hnotin Hnd]%NoDup_cons. constructor; [by apply IH|].
  rewrite Forall_fmap. rewrite Forall_forall in Hall. apply Forall_forall. intros x Hx.
  specialize (Hall x Hx). unfold entry_le in Hall. cbn.
  assert (PendingEntry.seq e ≠ PendingEntry.seq x); [|lia].
  intros Heq. apply Hnotin. rewrite Heq. by apply list_elem_of_fmap_2.
Qed.

Lemma list_pending_sorted reg :
  (∀ k1 k2 e1 e2, entries reg !! k1 = Some e1 → entries reg !! k2 = Some e2 →
    PendingEntry.seq e1 = PendingEntry.seq e2 → k1 = k2) →
  StronglySorted Z.lt (PendingApprovalView.generation <$> list_pending reg).
Proof.
  intros Hinj. unfold list_pending. rewrite <- list_fmap_compose.
  change (PendingApprovalView.generation ∘ view_of) with PendingEntry.seq.
  apply strictly_sorted; [|by apply pending_by_seq_NoDup].
  apply StronglySorted_merge_sort; [intros x y z; unfold entry_le; lia|intros x y; unfold entry_le; lia].
Qed.
End listing.

(** ** Properties *)

(** The registry of parked requests stays within its caps over every run
    of the operator's operations and the resolver's port calls, whatever the
    order: at most 1024 entries, at most 64 live requests per caller, and the
    queue the operator sees holds exactly the live requests, each once, oldest
    first.  Request ids are drawn as UUIDs, so none is parked twice. *)
Theorem intake_bounded `{Chrono, Codec, HashOrder, V : SubsetValidator, EntryOrder, !EntryOrderLaws}
    (ops : list intake_op) (s : GrantApprovalIntake.t) :
  GrantApprovalIntake.pending s = registry_new → NoDup (requested ops) →
  let reg := GrantApprovalIntake.pending (foldl run_intake_op s ops) in
  Z.of_nat (size (entries reg)) ≤ MAX_PENDING_REQUESTS ∧
  (∀ caller, caller_pending caller reg ≤ MAX_PENDING_PER_CALLER) ∧
  StronglySorted Z.lt (PendingApprovalView.generation <$> list_pending reg) ∧
  ∀ v, v ∈ list_pending reg ↔
    ∃ e, entries reg !! PendingApprovalView.request_id v = Some e ∧ PendingEntry.is_pending e = true ∧
      v = view_of e.
Proof.
  intros Hs Hnd reg. pose proof (run_intake_inv ops s Hs Hnd) as Hinv. fold reg in Hinv.
  split_and!; [apply Hinv|apply Hinv|apply list_pending_sorted, Hinv|].
  intros v. unfold list_pending. rewrite list_elem_of_fmap. split.
  - intros (e & -> & (Hp & k & Hk)%elem_pending_by_seq). exists e.
    pose proof (inv_entry _ _ Hinv k e Hk) as (Hid & _). cbn. by rewrite Hid.
  - intros (e & Hk & Hp & ->). exists e. split; [done|]. apply elem_pending_by_seq. eauto.
Qed.

(** What an operator approves never exceeds what was asked.  Whenever, in
    any run, the resolver takes an approval, the request it was given for is
    parked under that id, and the parameters taken (the narrowed ones, or those
    of the request) cover no call the requested ones would not cover; the
    approval is gone afterwards. *)
Theorem approval_within_request `{Chrono, Codec, HashOrder, EntryOrder, !EntryOrderLaws}
    (ops : list intake_op) (s : GrantApprovalIntake.t) (rid : string) narrowed reg' :
  let V := SubsetValidatorImpl in
  GrantApprovalIntake.pending s = registry_new → NoDup (requested ops) →
  take_approved rid (GrantApprovalIntake.pending (foldl run_intake_op s ops)) = (Some narrowed, reg') →
  entries reg' !! rid = None ∧
  ∃ e, entries (GrantApprovalIntake.pending (foldl run_intake_op s ops)) !! rid = Some e ∧
    ChannelApprovalRequest.request_id (PendingEntry.request e) = rid ∧
    ∀ held taken call,
      Grant.capability held = ChannelApprovalRequest.capability (PendingEntry.request e) →
      Grant.capability taken = Grant.capability held →
      Grant.params held = default [] (ChannelApprovalRequest.params (PendingEntry.request e)) →
      Grant.params taken = default (Grant.params held) narrowed →
      covers_request taken call = Ok tt → covers_request held call = Ok tt.
Proof.
  intros V Hs Hnd. pose proof (run_intake_inv ops s Hs Hnd) as Hinv. fold V in Hinv.
  set (reg := GrantApprovalIntake.pending (foldl run_intake_op s ops)) in *. cbn.
  destruct (entries reg !! rid) as [e|] eqn:He; cbn; [|done].
  destruct (PendingEntry.decision e) as [|n|] eqn:Hd; [done| |done]. intros [= -> <-]. cbn.
  split; [apply lookup_delete_eq|]. exists e.
  pose proof (inv_entry _ _ Hinv rid e He) as (Hid & _ & _ & Hok). split_and!; [done|done|].
  intros held taken call Hheld Htaken Hph Hpt Hcov. destruct narrowed as [ps|]; cbn in Hpt.
  - unfold narrowing_ok in Hok. rewrite Hd in Hok. destruct Hok as (_ & now & Hv).
    unfold GrantApprovalIntake.narrow_validate in Hv.
    eapply (covers_request_mono held taken (GrantDraft.mk (Grant.capability held) ps (ChannelApprovalRequest.ttl (PendingEntry.request e))));
      [|exact Htaken|exact Hpt|exact Hcov].
    rewrite Hheld. etrans; [|exact Hv]. symmetry. unfold V.
    apply (validate_content (V := SubsetValidatorImpl)); [symmetry; exact Hheld|symmetry; exact Hph].
  - revert Hcov. unfold covers_request, SubsetValidatorImpl. rewrite Htaken, Hpt. exact id.
Qed.

(** Parking a new request.  It is accepted, pending under the next
    generation, exactly when its caller has fewer than 64 live requests, the
    registry is not full of live ones and the generation counter has room; at
    most one decided entry makes way for it, and on every path each live
    request stays as it was. *)
Theorem park_request_decides `{EntryOrder, !EntryOrderLaws} (r : ChannelApprovalRequest.t) (reg : PendingRegistry) :
  let id := ChannelApprovalRequest.request_id r in
  entries reg !! id = None →
  (is_ok (request_approval r reg).1 = true ↔
    ¬ full reg ∧ caller_pending (ChannelApprovalRequest.caller r) reg < MAX_PENDING_PER_CALLER ∧
    ¬ seq_exhausted reg) ∧
  (is_ok (request_approval r reg).1 = true →
    entries (request_approval r reg).2 !! id = Some (PendingEntry.mk r IntakeDecision.Pending (next_seq reg)) ∧
    next_seq (request_approval r reg).2 = next_seq reg + 1) ∧
  (∀ k e, entries reg !! k = Some e → PendingEntry.is_pending e = true →
    entries (request_approval r reg).2 !! k = Some e) ∧
  (∀ k e, k ≠ id → entries (request_approval r reg).2 !! k = Some e → entries reg !! k = Some e).
Proof.
  intros id Hnew. cbn [request_approval intake_port].
  destruct (park_request_new r reg Hnew) as [(Hroom & Hcp & Hex & ->)|(Hbad & msg & [->|[Hex ->]])]; cbn.
  - split_and!.
    + done.
    + intros _. rewrite with_capacity_seq. split; [|done]. by rewrite lookup_insert_eq.
    + intros k e Hk Hp. rewrite lookup_insert_ne; [by apply with_capacity_pending|].
      intros Heq. fold id in Heq. rewrite <- Heq in Hk. congruence.
    + intros k e Hne. rewrite lookup_insert_ne by done. apply with_capacity_sub.
  - split_and!; [|done|done|done]. split; [done|]. intros (? & ? & ?). exfalso. destruct_or!; try done. lia.
  - split_and!; [|done|apply with_capacity_pending|intros k e _; apply with_capacity_sub].
    split; [done|]. intros (_ & _ & ?). done.
Qed.

(** Applying a preset supersedes every approval its target still has in
    flight: once the preset's name passes, whatever becomes of the apply
    itself, no parked request of the target can be taken as approved or be
    decided by the operator any more, and the requests of other callers are as
    they were. *)
Theorem preset_supersedes_approvals `{Chrono, Codec, HashOrder, V : SubsetValidator, EntryOrder}
    now uuids created_at clock presets target name (s : GrantApprovalIntake.t) :
  GrantApprovalIntake.check_preset_name name = Ok tt → is_Some (preset_get name presets) →
  let s' := (GrantApprovalIntake.apply_preset now uuids created_at clock presets target name s).2 in
  ∀ rid e, entries (GrantApprovalIntake.pending s) !! rid = Some e →
    if decide (PendingEntry.caller e = target) then
      take_approved rid (GrantApprovalIntake.pending s') = (None, GrantApprovalIntake.pending s') ∧
      (∃ reason, decision rid (GrantApprovalIntake.pending s') = ChannelApprovalDecision.Denied reason) ∧
      GrantApprovalIntake.approve rid s' = (Err (already_decided rid), s')
    else entries (GrantApprovalIntake.pending s') !! rid = Some e.
Proof.
  intros Hname Hpreset s' rid e He.
  assert (GrantApprovalIntake.pending s' = invalidate_pending_for target (GrantApprovalIntake.pending s)) as Hp.
  { unfold s'. rewrite apply_preset_pending, Hname. by rewrite bool_decide_eq_true_2. }
  assert (entries (GrantApprovalIntake.pending s') !! rid = Some
    (if String.eqb (PendingEntry.caller e) target && negb (IntakeDecision.is_denied (PendingEntry.decision e))
     then PendingEntry.set_decision (IntakeDecision.Denied "superseded-by-preset") e else e)) as Hrid.
  { rewrite Hp. cbn. by rewrite lookup_fmap, He. }
  clearbody s'. case_decide as Hc.
  - assert (∃ e' reason, entries (GrantApprovalIntake.pending s') !! rid = Some e' ∧
      PendingEntry.decision e' = IntakeDecision.Denied reason) as (e' & reason & He' & Hd).
    { rewrite Hrid, Hc, String.eqb_refl. cbn. destruct (PendingEntry.decision e) as [| |reason] eqn:Hd; cbn; eauto. }
    cbn. rewrite He'. cbn. rewrite Hd. split_and!; [done|eauto|].
    unfold GrantApprovalIntake.approve, GrantApprovalIntake.decide_and_emit, GrantApprovalIntake.on_pending.
    run. unfold set_decision, undecided. run. rewrite He'. cbn. unfold PendingEntry.is_pending. rewrite Hd. cbn.
    by destruct s'.
  - rewrite Hrid. by destruct (String.eqb_spec (PendingEntry.caller e) target).
Qed.

(** ** Witnesses *)

#[local] Existing Instances chrono_model codec_model hash_order_model SubsetValidatorImpl entry_order_model
  entry_order_model_laws.

Definition sample_intake : GrantApprovalIntake.t :=
  GrantApprovalIntake.mk registry_new (new_store (mkSqlite ∅ [])) [].

(** An agent asks for two files' directories; the operator grants one. *)
Definition sample_parked (rid : string) : ChannelApprovalRequest.t :=
  ChannelApprovalRequest.mk rid "kid" "fs" (Some [CapParam.mk "read" "/srv"]) GrantTtl.Persistent None.

Definition sample_narrowed : list CapParam.t := [CapParam.mk "read" "/srv/docs"].

Definition sample_intake_ops : list intake_op := [
  OpRequest (sample_parked "r1");
  OpRequest (sample_parked "r2");
  OpNarrow 7 "r1" sample_narrowed
].

Lemma sample_requested : NoDup (requested sample_intake_ops).
Proof. apply (bool_decide_unpack _). vm_compute. exact I. Qed.

Lemma intake_bounded_witness :
  let reg := GrantApprovalIntake.pending (foldl run_intake_op sample_intake sample_intake_ops) in
  PendingApprovalView.request_id <$> list_pending reg = ["r2"] ∧ caller_pending "kid" reg ≤ MAX_PENDING_PER_CALLER.
Proof.
  intros reg. split; [vm_compute; reflexivity|].
  apply (intake_bounded sample_intake_ops sample_intake); [done|apply sample_requested].
Defined.

Lemma approval_within_request_witness :
  ∃ e, entries (GrantApprovalIntake.pending (foldl run_intake_op sample_intake sample_intake_ops)) !! "r1" = Some e ∧
    covers_request (Grant.mk "h" "kid" "fs" [CapParam.mk "read" "/srv"] GrantTtl.Once GrantIssuer.Admin
        GrantProvenance.Requested GrantStatus.Active 0 None)
      (GrantDraft.mk "fs" [CapParam.mk "read" "/srv/docs/a"] GrantTtl.Once) = Ok tt.
Proof.
  set (reg := GrantApprovalIntake.pending (foldl run_intake_op sample_intake sample_intake_ops)).
  destruct (approval_within_request sample_intake_ops sample_intake "r1" (Some sample_narrowed)
              (take_approved "r1" reg).2) as (_ & e & He & _ & Hcov);
    [done|apply sample_requested|vm_compute; reflexivity|].
  exists e. split; [exact He|].
  assert (PendingEntry.request e = sample_parked "r1") as Hreq.
  { assert (PendingEntry.request <$> entries reg !! "r1" = Some (sample_parked "r1")) as Hr by (vm_compute; reflexivity).
    unfold reg in Hr. rewrite He in Hr. cbn in Hr. congruence. }
  apply (Hcov _ (Grant.mk "t" "kid" "fs" sample_narrowed GrantTtl.Once GrantIssuer.Admin
        GrantProvenance.Requested GrantStatus.Active 0 None)); try (rewrite Hreq); try done.
Defined.

Lemma park_request_decides_witness :
  is_ok (request_approval (sample_parked "r1") registry_new).1 = true ∧
  entries (request_approval (sample_parked "r1") registry_new).2 !! "r1" =
    Some (PendingEntry.mk (sample_parked "r1") IntakeDecision.Pending 1).
Proof.
  assert (is_ok (request_approval (sample_parked "r1") registry_new).1 = true) as Hok by (vm_compute; reflexivity).
  split; [exact Hok|].
  destruct (park_request_decides (sample_parked "r1") registry_new) as (_ & Hin & _); [done|].
  by apply Hin.
Defined.

Lemma preset_supersedes_approvals_witness :
  let s := foldl run_intake_op sample_intake sample_intake_ops in
  let s' := (GrantApprovalIntake.apply_preset 7 (λ _, "u") (λ _, 7) (λ _, 7) with_builtins "kid" PRESET_RESTRICT s).2 in
  GrantApprovalIntake.approve "r2" s' = (Err (already_decided "r2"), s').
Proof.
  intros s s'.
  assert (∃ e, entries (GrantApprovalIntake.pending s) !! "r2" = Some e ∧ PendingEntry.caller e = "kid") as (e & He & Hc).
  { exists (PendingEntry.mk (sample_parked "r2") IntakeDecision.Pending 2). split; vm_compute; reflexivity. }
  pose proof (preset_supersedes_approvals 7 (λ _, "u") (λ _, 7) (λ _, 7) with_builtins "kid" PRESET_RESTRICT s
    ltac:(vm_compute; reflexivity) ltac:(eexists; vm_compute; reflexivity)) as Hsup.
  specialize (Hsup "r2" e He). rewrite decide_True in Hsup by done. apply Hsup.
Defined.
