(* ===== verification/Resolver.v ===== *)
(** * The resolver chain

    Models [crates/capabilities/cap-grant/src/resolver.rs]: the five built-in
    resolvers and the chain that walks them, and the chain the runtime builds
    ([build_grant_resolver_chain] of [crates/runtime-compose/src/wiring.rs]).
    The chain runs over a [World]: the approval backend behind the port, the
    cache of sent approvals, the grant store and the event bus.  Here one retry
    runs alone; file [ApprovalRace] interleaves retries.  A run may stop for
    good in two ways, the cases of [Stuck]. *)
From S2P Require Import Prelude RustStr GrantData Subset Cascade Events GrantSqlite GrantStore ApprovalIntake SentCache.
Open Scope string_scope.
Open Scope list_scope.
Open Scope Z_scope.

(** Ways a resolver may not return: it waits on the condition variable for a
    delivery in progress, or the date arithmetic panics. *)
Module Stuck.
Inductive t := Blocked | Panicked.
End Stuck.

Record World (P : Type) := mkWorld {
  approval : P;
  sent : SentApprovalCache;
  world_store : GrantStore;
  bus : list Event
}.
Arguments mkWorld {P} _ _ _ _.
Arguments approval {P} _.
Arguments sent {P} _.
Arguments world_store {P} _.
Arguments bus {P} _.

(** [ResolverContext]. *)
Module ResolverContext.
Record t := mk { parent_grants : list Grant.t; run_id : option string }.
End ResolverContext.

(** [BudgetDecision]. *)
Module BudgetDecision.
Inductive t := Allow | Deny (reason : string).
End BudgetDecision.

(** The draft that asks what the request asks. *)
Definition grant_draft_from_request (req : GrantRequest.t) : GrantDraft.t :=
  GrantDraft.mk (GrantRequest.capability req) (default [] (GrantRequest.params req)) (GrantRequest.ttl req).

(** ** Fingerprints *)

Definition param_le (p q : string * string) : Prop :=
  p.1 ≠ q.1 ∧ str_le p.1 q.1 ∨ p.1 = q.1 ∧ str_le p.2 q.2.

#[export] Instance param_le_dec : RelDecision param_le.
Proof. intros p q. unfold param_le. apply _. Defined.

(** [Vec::dedup]. *)
Fixpoint dedup {A} `{EqDecision A} (l : list A) : list A :=
  match l with
  | x :: l' => match l' with
               | y :: _ => if decide (x = y) then dedup l' else x :: dedup l'
               | [] => [x]
               end
  | [] => []
  end.

Module ChannelRequestFingerprint.
Record t := mk {
  caller : string;
  capability : string;
  params : list (string * string);
  ttl : GrantTtl.t;
  justification : option string
}.
End ChannelRequestFingerprint.

(** [serde_json::to_string] on a fingerprint, and the [Debug] text of the
    parameters, which the code falls back to. *)
Class FingerprintText := {
  fingerprint_to_string : ChannelRequestFingerprint.t → option string;
  debug_params : option (list CapParam.t) → string
}.

(** Serializing strings, numbers and dates cannot fail, and JSON text reads
    back to the value. *)
Class FingerprintTextLaws `{FingerprintText} : Prop := {
  fingerprint_total f : is_Some (fingerprint_to_string f);
  fingerprint_inj f g : fingerprint_to_string f = fingerprint_to_string g → f = g
}.

Definition fingerprint_of (req : GrantRequest.t) : ChannelRequestFingerprint.t :=
  ChannelRequestFingerprint.mk (GrantRequest.caller req) (GrantRequest.capability req)
    (dedup (merge_sort param_le
      ((λ p, (CapParam.key p, CapParam.value p)) <$> default [] (GrantRequest.params req))))
    (GrantRequest.ttl req) (GrantRequest.justification req).

Definition channel_request_fingerprint `{FingerprintText} (req : GrantRequest.t) : string :=
  "grant-approval:" +:+
    match fingerprint_to_string (fingerprint_of req) with
    | Some serialized => serialized
    | None => GrantRequest.caller req +:+ ":" +:+ GrantRequest.capability req +:+ ":"
                +:+ debug_params (GrantRequest.params req)
    end.

Definition CHANNEL_APPROVAL_DENIED_REASON : string := "channel-denied".
Definition UNAVAILABLE_REASON : string := "channel-approval-unavailable".

(** How the delivery worker treats the job: the channel to it is full or it
    cannot be spawned, it answers in time, or it runs the job but its answer
    comes after the timeout. *)
Inductive Delivery := Unreachable | InTime | TimedOut.

Section resolvers.
Context {P : Type} `{ChannelApprovalPort P}.

Abbreviation WM := (M (World P) Stuck.t).

Definition on_approval {A} (f : P → A * P) : WM A := λ w,
  let (a, p) := f (approval w) in (Ok a, mkWorld p (sent w) (world_store w) (bus w)).

Definition on_sent {A} (f : SentApprovalCache → A * SentApprovalCache) : WM A := λ w,
  let (a, c) := f (sent w) in (Ok a, mkWorld (approval w) c (world_store w) (bus w)).

(** A call of the store whose error is a value. *)
Definition on_world_store {A} (m : ST A) : WM (Result A) := λ w,
  let (r, g) := m (world_store w) in (Ok r, mkWorld (approval w) (sent w) g (bus w)).

Definition emit_on_bus (e : Event) : WM unit := modify (λ w,
  mkWorld (approval w) (sent w) (world_store w) (bus w ++ [e])).

(** [trait Resolver]. *)
Record Resolver := mkResolver {
  name : string;
  resolve : GrantRequest.t → ResolverContext.t → WM ResolverOutcome.t
}.

(** ** The pure resolvers *)

Definition parent_covers `{SubsetValidator} (req : GrantRequest.t) (parent : Grant.t) : bool :=
  String.eqb (Grant.grantee parent) (GrantRequest.caller req)
  && Grant.is_active parent
  && String.eqb (Grant.capability parent) (GrantRequest.capability req)
  && is_ok (validate parent (grant_draft_from_request req)).

Definition subset_auto_approve `{SubsetValidator} : Resolver := mkResolver "SubsetAutoApprove" (λ req ctx,
  mret (if existsb (parent_covers req) (ResolverContext.parent_grants ctx)
        then ResolverOutcome.Approve (grant_draft_from_request req)
        else ResolverOutcome.Abstain)).

(** [check run_id] is [RunBudget::check(run_id, 0, 0.0)] of the injected budget. *)
Definition budget_check (budget : option (string → BudgetDecision.t)) : Resolver := mkResolver "BudgetCheck" (λ _ ctx,
  mret (match budget, ResolverContext.run_id ctx with
        | Some check, Some run_id =>
            match check run_id with
            | BudgetDecision.Deny reason => ResolverOutcome.Deny reason
            | BudgetDecision.Allow => ResolverOutcome.Abstain
            end
        | _, _ => ResolverOutcome.Abstain
        end)).

Definition parent_approval (has_backend approve : bool) : Resolver := mkResolver "ParentApproval" (λ req _,
  mret (if negb has_backend then ResolverOutcome.Abstain
        else if approve then ResolverOutcome.Approve (grant_draft_from_request req)
        else ResolverOutcome.Pending)).

Definition auto_deny : Resolver := mkResolver "AutoDeny" (λ _ _,
  mret (ResolverOutcome.Deny "AutoDenyResolver: request denied by chain terminator")).

(** ** The channel resolver *)

Section channel.
Context `{FingerprintText}.

Definition delivered_approval (fingerprint : string) (c : SentApprovalCache) : option (string * GrantDraft.t) :=
  match seen c !! fingerprint with
  | Some (SentApprovalState.Delivered request_id draft) => Some (request_id, draft)
  | _ => None
  end.

Definition forget_sent (fingerprint : string) : WM unit := on_sent (λ c, (tt, forget fingerprint c)).

Definition finish_pending_delivery (fingerprint : string) (delivered : bool) : WM unit :=
  on_sent (λ c, (tt, finish_delivery fingerprint delivered c)).

(** The approved draft: the delivered one, with the narrowed parameters. *)
Definition approved_draft (delivered : GrantDraft.t) (narrowed : option (list CapParam.t)) : GrantDraft.t :=
  match narrowed with
  | Some params => GrantDraft.mk (GrantDraft.capability delivered) params (GrantDraft.ttl delivered)
  | None => delivered
  end.

(** The outcome a sent request already has, if it has one. *)
Definition observe_delivered (fingerprint : string) : WM (option ResolverOutcome.t) :=
  w ← get_state;
  match delivered_approval fingerprint (sent w) with
  | None => mret None
  | Some (request_id, draft) =>
      w ← get_state;
      match decision request_id (approval w) with
      | ChannelApprovalDecision.Approved =>
          taken ← on_approval (take_approved request_id);
          match taken with
          | Some narrowed =>
              _ ← forget_sent fingerprint;
              mret (Some (ResolverOutcome.Approve (approved_draft draft narrowed)))
          | None => mret None
          end
      | ChannelApprovalDecision.Denied _ =>
          _ ← on_approval (λ p, (tt, resolved request_id p));
          _ ← forget_sent fingerprint;
          mret (Some (ResolverOutcome.Deny CHANNEL_APPROVAL_DENIED_REASON))
      | ChannelApprovalDecision.Pending => mret None
      end
  end.

Definition deliver_approval_request (delivery : Delivery) (request : ChannelApprovalRequest.t) : WM bool :=
  match delivery with
  | Unreachable => mret false
  | InTime => r ← on_approval (request_approval request); mret (is_ok r)
  | TimedOut => r ← on_approval (request_approval request); mret false
  end.

Definition send_or_wait (delivery : Delivery) (new_id fingerprint : string) (req : GrantRequest.t)
    : WM ResolverOutcome.t :=
  action ← on_sent (begin_delivery new_id fingerprint (grant_draft_from_request req));
  match action with
  | SentApprovalCacheAction.Deliver request_id =>
      ok ← deliver_approval_request delivery (ChannelApprovalRequest.from_grant_request req request_id);
      _ ← finish_pending_delivery fingerprint ok;
      mret (if (ok : bool) then ResolverOutcome.Pending else ResolverOutcome.Deny UNAVAILABLE_REASON)
  | SentApprovalCacheAction.AlreadyDelivered => mret ResolverOutcome.Pending
  | SentApprovalCacheAction.WaitForDelivery => throw Stuck.Blocked
  | SentApprovalCacheAction.CacheFull => mret (ResolverOutcome.Deny UNAVAILABLE_REASON)
  end.

Definition channel_resolve (has_port : bool) (delivery : Delivery) (new_id : string) (req : GrantRequest.t)
    : WM ResolverOutcome.t :=
  if negb has_port then mret ResolverOutcome.Abstain
  else
    let fingerprint := channel_request_fingerprint req in
    seen_outcome ← observe_delivered fingerprint;
    match seen_outcome with
    | Some outcome => mret outcome
    | None => send_or_wait delivery new_id fingerprint req
    end.

Definition channel (has_port : bool) (delivery : Delivery) (new_id : string) : Resolver :=
  mkResolver "Channel" (λ req _, channel_resolve has_port delivery new_id req).
End channel.

(** ** The chain *)

Definition decision_label (outcome : ResolverOutcome.t) : string :=
  match outcome with
  | ResolverOutcome.Approve _ => "approve"
  | ResolverOutcome.Deny _ => "deny"
  | ResolverOutcome.Abstain | ResolverOutcome.Pending => "abstain"
  end.

Section chain.
Context `{Chrono, Codec}.

(** The deadline of the approved grant; [Utc::now() + Duration] panics where
    the other copies of this function saturate. *)
Definition chain_expires_at (now : Z) (ttl : GrantTtl.t) : result Stuck.t (option Z) :=
  match ttl with
  | GrantTtl.Once | GrantTtl.Lifecycle | GrantTtl.Persistent => Ok None
  | GrantTtl.Duration ms =>
      match checked_add_ms now (to_i64 ms) with
      | Some t => Ok (Some t)
      | None => Err Stuck.Panicked
      end
  | GrantTtl.Until t => Ok (Some t)
  end.

(** The grant an approval issues. *)
Definition issued_grant (created_at : Z) (expires_at : option Z) (new_id resolver : string)
    (req : GrantRequest.t) (draft : GrantDraft.t) : Grant.t :=
  Grant.mk new_id (GrantRequest.caller req) (GrantDraft.capability draft) (GrantDraft.params draft)
    (GrantDraft.ttl draft) (GrantIssuer.Resolver resolver) GrantProvenance.Requested GrantStatus.Active
    created_at expires_at.

(** What the chain does with an outcome that is not [Abstain]. *)
Definition conclude (created_at now : Z) (uuid resolver : string) (insert_grant : Grant.t → ST string)
    (req : GrantRequest.t) (outcome : ResolverOutcome.t) : WM (option ChainDecision.t) :=
  match outcome with
  | ResolverOutcome.Approve draft =>
      expires_at ← lift (chain_expires_at now (GrantDraft.ttl draft));
      r ← on_world_store (insert_grant (issued_grant created_at expires_at uuid resolver req draft));
      mret (Some (match r with
                  | Ok id => ChainDecision.Approved id
                  | Err _ => ChainDecision.Denied
                      ("resolver " +:+ resolver +:+ " approved but insert failed (internal error)")
                  end))
  | ResolverOutcome.Deny reason => mret (Some (ChainDecision.Denied reason))
  | ResolverOutcome.Pending => mret (Some ChainDecision.Pending)
  | ResolverOutcome.Abstain => mret None
  end.

Fixpoint evaluate_with_insert (resolvers : list Resolver) (created_at now : Z) (uuid : string)
    (insert_grant : Grant.t → ST string) (req : GrantRequest.t) (ctx : ResolverContext.t) : WM ChainDecision.t :=
  match resolvers with
  | [] => mret (ChainDecision.Denied "no resolver matched")
  | r :: resolvers =>
      outcome ← resolve r req ctx;
      _ ← emit_on_bus (resolver_invoked_event (GrantRequest.caller req) (GrantRequest.capability req) (name r)
                         (decision_label outcome));
      decided ← conclude created_at now uuid (name r) insert_grant req outcome;
      match decided with
      | Some d => mret d
      | None => evaluate_with_insert resolvers created_at now uuid insert_grant req ctx
      end
  end.

Definition evaluate (resolvers : list Resolver) (created_at now : Z) (uuid : string)
    (req : GrantRequest.t) (ctx : ResolverContext.t) : WM ChainDecision.t :=
  evaluate_with_insert resolvers created_at now uuid insert_dynamic req ctx.

Definition evaluate_with_dynamic_insert_barrier (resolvers : list Resolver) (created_at now : Z) (uuid : string)
    (req : GrantRequest.t) (ctx : ResolverContext.t) : WM ChainDecision.t :=
  evaluate_with_insert resolvers created_at now uuid insert_dynamic_inner req ctx.

(** The chain of the runtime. *)
Definition build_grant_resolver_chain `{SubsetValidator, FingerprintText}
    (run_budget : string → BudgetDecision.t) (has_port : bool) (delivery : Delivery) (new_id : string)
    : list Resolver := [
  subset_auto_approve;
  budget_check (Some run_budget);
  parent_approval false false;
  channel has_port delivery new_id;
  auto_deny
].
End chain.
End resolvers.
Arguments Resolver : clear implicits.
