(* ===== verification/ApprovalRace.v ===== *)
(** * Retries racing for an approval

    [ChannelResolver::resolve] of [crates/capabilities/cap-grant/src/resolver.rs]
    with its lock sections interleaved: any number of retries, the delivery
    worker and the operator take turns, each step one locked section.  A retry
    carries its place in [resolve] ([Pc]); what was drawn, approved and taken
    is kept as history.  The steps are functions, so schedules run. *)
From S2P Require Import Prelude RustStr GrantData Subset Cascade Events GrantSqlite GrantStore Preset ApprovalIntake SentCache IntakeProps Resolver.
Open Scope string_scope.
Open Scope list_scope.
Open Scope Z_scope.

(** ** The transition system *)

(** Where a retry is in [resolve]. *)
Module Pc.
Inductive t :=
| Look                                             (* before [delivered_approval] *)
| Ask (request_id : string) (draft : GrantDraft.t) (* before [decision] *)
| Take (request_id : string) (draft : GrantDraft.t) (* approved was seen: before [take_approved] *)
| Clear (request_id : string)                      (* denied was seen: before [resolved] *)
| Forget (outcome : ResolverOutcome.t)             (* before [forget_sent] *)
| Begin                                            (* before [pending_delivery_action] *)
| Send (request_id : string)                       (* before the job is sent *)
| Await (request_id : string)                      (* before the answer or the timeout *)
| Finish (request_id : string) (delivered : bool)  (* before [finish_pending_delivery] *)
| Return (outcome : ResolverOutcome.t).

(** A retry that is delivering [rid]. *)
Definition delivers (rid : string) (pc : t) : bool :=
  match pc with
  | Send rid' | Await rid' | Finish rid' _ => String.eqb rid rid'
  | _ => false
  end.

(** How many steps are left at most. *)
Definition rank (pc : t) : nat :=
  match pc with
  | Look => 8 | Ask _ _ => 7 | Take _ _ => 6 | Clear _ => 6 | Begin => 5 | Send _ => 4 | Await _ => 3
  | Finish _ _ => 2 | Forget _ => 1 | Return _ => 0
  end%nat.
End Pc.

Module Retry.
Record t := mk { req : GrantRequest.t; pc : Pc.t }.
End Retry.

(** A [narrow] between its snapshot and its second look. *)
Module Narrowing.
Record t := mk { expected_gen : option Z; request_id : string; new_params : list CapParam.t }.
End Narrowing.

Record Race := mkRace {
  cache : SentApprovalCache;
  registry : PendingRegistry;
  jobs : list ChannelApprovalRequest.t;
  replies : gmap string bool;
  retries : gmap nat Retry.t;
  narrowings : list Narrowing.t;
  (** history: the request each drawn id was drawn for, the approvals the
      operator gave, and which retry took which approval *)
  owner : gmap string GrantRequest.t;
  approvals : list (string * option (list CapParam.t));
  takes : list (string * nat)
}.

Definition set_cache (c : SentApprovalCache) (s : Race) : Race :=
  mkRace c (registry s) (jobs s) (replies s) (retries s) (narrowings s) (owner s) (approvals s) (takes s).
Definition set_registry (r : PendingRegistry) (s : Race) : Race :=
  mkRace (cache s) r (jobs s) (replies s) (retries s) (narrowings s) (owner s) (approvals s) (takes s).
Definition set_jobs (js : list ChannelApprovalRequest.t) (s : Race) : Race :=
  mkRace (cache s) (registry s) js (replies s) (retries s) (narrowings s) (owner s) (approvals s) (takes s).
Definition set_replies (rs : gmap string bool) (s : Race) : Race :=
  mkRace (cache s) (registry s) (jobs s) rs (retries s) (narrowings s) (owner s) (approvals s) (takes s).
Definition set_retry (tid : nat) (r : Retry.t) (s : Race) : Race :=
  mkRace (cache s) (registry s) (jobs s) (replies s) (<[tid := r]> (retries s)) (narrowings s) (owner s)
    (approvals s) (takes s).
Definition set_narrowings (ns : list Narrowing.t) (s : Race) : Race :=
  mkRace (cache s) (registry s) (jobs s) (replies s) (retries s) ns (owner s) (approvals s) (takes s).
Definition draw (rid : string) (q : GrantRequest.t) (s : Race) : Race :=
  mkRace (cache s) (registry s) (jobs s) (replies s) (retries s) (narrowings s) (<[rid := q]> (owner s))
    (approvals s) (takes s).
Definition log_approval (a : string * option (list CapParam.t)) (s : Race) : Race :=
  mkRace (cache s) (registry s) (jobs s) (replies s) (retries s) (narrowings s) (owner s) (approvals s ++ [a]) (takes s).
Definition log_take (t : string * nat) (s : Race) : Race :=
  mkRace (cache s) (registry s) (jobs s) (replies s) (retries s) (narrowings s) (owner s) (approvals s) (takes s ++ [t]).

Definition race_start (sent_cache_limit : Z) : Race :=
  mkRace (cache_new sent_cache_limit) registry_new [] ∅ ∅ [] ∅ [] [].

(** Who moves.  [Advance]'s [new_id] is the id drawn if one is, [alt] picks the
    failing branch of a send or a wait. *)
Inductive choice :=
| Spawn (tid : nat) (req : GrantRequest.t)
| Advance (tid : nat) (new_id : string) (alt : bool)
| Serve
| ApproveAs (expected_gen : option Z) (rid : string)
| DenyAs (expected_gen : option Z) (rid reason : string)
| NarrowStart (now : Z) (expected_gen : option Z) (rid : string) (new_params : list CapParam.t)
| NarrowCommit (i : nat)
| Supersede (target : string).

Section race.
Context `{FingerprintText, EntryOrder, V : SubsetValidator}.

(** One locked section of a retry's [resolve]. *)
Definition advance (tid : nat) (new_id : string) (alt : bool) (r : Retry.t) (s : Race) : option Race :=
  let req := Retry.req r in
  let fp := channel_request_fingerprint req in
  let go pc s := Some (set_retry tid (Retry.mk req pc) s) in
  match Retry.pc r with
  | Pc.Look =>
      match delivered_approval fp (cache s) with
      | Some (rid, draft) => go (Pc.Ask rid draft) s
      | None => go Pc.Begin s
      end
  | Pc.Ask rid draft =>
      match decision rid (registry s) with
      | ChannelApprovalDecision.Approved => go (Pc.Take rid draft) s
      | ChannelApprovalDecision.Denied _ => go (Pc.Clear rid) s
      | ChannelApprovalDecision.Pending => go Pc.Begin s
      end
  | Pc.Take rid draft =>
      match take_approved rid (registry s) with
      | (Some narrowed, reg) =>
          go (Pc.Forget (ResolverOutcome.Approve (approved_draft draft narrowed)))
            (log_take (rid, tid) (set_registry reg s))
      | (None, reg) => go Pc.Begin (set_registry reg s)
      end
  | Pc.Clear rid =>
      go (Pc.Forget (ResolverOutcome.Deny CHANNEL_APPROVAL_DENIED_REASON))
        (set_registry (resolved rid (registry s)) s)
  | Pc.Forget outcome => go (Pc.Return outcome) (set_cache (forget fp (cache s)) s)
  | Pc.Begin =>
      match owner s !! new_id with
      | Some _ => None
      | None =>
          match begin_delivery new_id fp (grant_draft_from_request req) (cache s) with
          | (SentApprovalCacheAction.Deliver rid, c) => go (Pc.Send rid) (draw rid req (set_cache c s))
          | (SentApprovalCacheAction.AlreadyDelivered, c) =>
              go (Pc.Return ResolverOutcome.Pending) (set_cache c s)
          | (SentApprovalCacheAction.CacheFull, c) =>
              go (Pc.Return (ResolverOutcome.Deny UNAVAILABLE_REASON)) (set_cache c s)
          | (SentApprovalCacheAction.WaitForDelivery, _) => None
          end
      end
  | Pc.Send rid =>
      if alt then go (Pc.Finish rid false) s
      else go (Pc.Await rid) (set_jobs (jobs s ++ [ChannelApprovalRequest.from_grant_request req rid]) s)
  | Pc.Await rid =>
      if alt then go (Pc.Finish rid false) s
      else match replies s !! rid with
           | Some ok => go (Pc.Finish rid ok) s
           | None => None
           end
  | Pc.Finish _ ok =>
      go (Pc.Return (if ok then ResolverOutcome.Pending else ResolverOutcome.Deny UNAVAILABLE_REASON))
        (set_cache (finish_delivery fp ok (cache s)) s)
  | Pc.Return _ => None
  end.

(** The operator's locked section; an approval is logged. *)
Definition operate (expected_gen : option Z) (rid : string) (d : IntakeDecision.t) (s : Race) : option Race :=
  match set_decision expected_gen rid d (registry s) with
  | (Ok _, reg) =>
      let s := set_registry reg s in
      Some (match d with IntakeDecision.Approved n => log_approval (rid, n) s | _ => s end)
  | (Err _, _) => None
  end.

Definition step (c : choice) (s : Race) : option Race :=
  match c with
  | Spawn tid req =>
      match retries s !! tid with
      | None => Some (set_retry tid (Retry.mk req Pc.Look) s)
      | Some _ => None
      end
  | Advance tid new_id alt => r ← retries s !! tid; advance tid new_id alt r s
  | Serve =>
      match jobs s with
      | [] => None
      | job :: rest =>
          let (r, reg) := request_approval job (registry s) in
          Some (set_replies (<[ChannelApprovalRequest.request_id job := is_ok r]> (replies s))
                  (set_registry reg (set_jobs rest s)))
      end
  | ApproveAs gen rid => operate gen rid (IntakeDecision.Approved None) s
  | DenyAs gen rid reason => operate gen rid (IntakeDecision.Denied reason) s
  | NarrowStart now gen rid ps =>
      if is_ok (narrow_check_params ps) then
        match undecided gen rid (registry s) with
        | Ok e =>
            if is_ok (GrantApprovalIntake.narrow_validate now e ps)
            then Some (set_narrowings (narrowings s ++ [Narrowing.mk gen rid ps]) s) else None
        | Err _ => None
        end
      else None
  | NarrowCommit i =>
      n ← narrowings s !! i;
      operate (Narrowing.expected_gen n) (Narrowing.request_id n)
        (IntakeDecision.Approved (Some (Narrowing.new_params n))) (set_narrowings (delete i (narrowings s)) s)
  | Supersede target => Some (set_registry (invalidate_pending_for target (registry s)) s)
  end.

(** The states schedules lead to. *)
Inductive reachable (limit : Z) : Race → Prop :=
| reach_start : reachable limit (race_start limit)
| reach_step c s s' : reachable limit s → step c s = Some s' → reachable limit s'.

(** A schedule, for evaluation. *)
Fixpoint run_schedule (cs : list choice) (s : Race) : option Race :=
  match cs with
  | [] => Some s
  | c :: cs => s' ← step c s; run_schedule cs s'
  end.

Lemma run_schedule_reachable limit cs : ∀ s s',
  reachable limit s → run_schedule cs s = Some s' → reachable limit s'.
Proof.
  induction cs as [|c cs IH]; intros s s' Hs; simpl; [by intros [= <-]|].
  intros (s1 & Hc & Hrun)%bind_Some. eapply IH; [|exact Hrun]. by eapply reach_step.
Qed.

(** The end of a schedule that runs, from the start. *)
Definition run_from_start (limit : Z) (cs : list choice) : Race :=
  default (race_start limit) (run_schedule cs (race_start limit)).

Lemma run_from_start_reachable limit cs :
  match run_schedule cs (race_start limit) with Some _ => true | None => false end = true →
  reachable limit (run_from_start limit cs).
Proof.
  unfold run_from_start. destruct (run_schedule cs (race_start limit)) as [s|] eqn:Hrun; [|done]. intros _.
  eapply run_schedule_reachable; [apply reach_start|exact Hrun].
Qed.
End race.
