(* ===== verification/RaceProps.v ===== *)
(** * Why no retry gets more than an operator approved

    Invariants of the interleaved system of file [ApprovalRace], each the
    conjunction of facts about one component that its updates keep. *)
From S2P Require Import Prelude RustStr GrantData Subset Cascade Events GrantSqlite GrantStore Preset ApprovalIntake SentCache IntakeProps Resolver ApprovalRace.
Open Scope string_scope.
Open Scope list_scope.
Open Scope Z_scope.

Section traced.
Context `{FingerprintText, EntryOrder, V : SubsetValidator, !EntryOrderLaws}.

(** ** Every approval is traced to a request and an operator *)

(** The narrowed parameters passed the operator's checks against [q]. *)
Definition within (q : GrantRequest.t) (narrowed : option (list CapParam.t)) : Prop :=
  match narrowed with
  | None => True
  | Some ps =>
      narrow_check_params ps = Ok tt ∧
      ∃ now, validate
        (synthetic_parent_grant now (GrantRequest.caller q) (GrantRequest.capability q)
           (default [] (GrantRequest.params q)))
        (GrantDraft.mk (GrantRequest.capability q) ps (GrantRequest.ttl q)) = Ok tt
  end.

(** What the operator allowed of [q]: the narrowed parameters, or all it asked. *)
Definition approved_params (q : GrantRequest.t) (narrowed : option (list CapParam.t)) : list CapParam.t :=
  default (default [] (GrantRequest.params q)) narrowed.

(** A sent request, as the cache remembers it. *)
Definition sent_for (own : gmap string GrantRequest.t) (fp : string) (rid : string) (draft : GrantDraft.t) : Prop :=
  ∃ q, own !! rid = Some q ∧ channel_request_fingerprint q = fp ∧ draft = grant_draft_from_request q.

Definition entry_traced (own : gmap string GrantRequest.t) (log : list (string * option (list CapParam.t)))
    (rid : string) (e : PendingEntry.t) : Prop :=
  ∃ q, own !! rid = Some q ∧ PendingEntry.request e = ChannelApprovalRequest.from_grant_request q rid ∧
    match PendingEntry.decision e with IntakeDecision.Approved n => (rid, n) ∈ log | _ => True end.

(** The draft of an approving retry comes from one of its approvals. *)
Definition approved_by (own : gmap string GrantRequest.t) (log : list (string * option (list CapParam.t)))
    (tks : list (string * nat)) (tid : nat) (req : GrantRequest.t) (outcome : ResolverOutcome.t) : Prop :=
  match outcome with
  | ResolverOutcome.Approve d =>
      ∃ rid q n, (rid, tid) ∈ tks ∧ (rid, n) ∈ log ∧ own !! rid = Some q ∧
        channel_request_fingerprint q = channel_request_fingerprint req ∧
        d = approved_draft (grant_draft_from_request q) n
  | _ => True
  end.

Definition pc_traced (s : Race) (tid : nat) (r : Retry.t) : Prop :=
  match Retry.pc r with
  | Pc.Ask rid draft | Pc.Take rid draft =>
      sent_for (owner s) (channel_request_fingerprint (Retry.req r)) rid draft
  | Pc.Send rid => owner s !! rid = Some (Retry.req r)
  | Pc.Forget outcome | Pc.Return outcome => approved_by (owner s) (approvals s) (takes s) tid (Retry.req r) outcome
  | _ => True
  end.

Record traced (s : Race) : Prop := {
  tr_cache : cache_ok (cache s);
  tr_seen fp st : seen (cache s) !! fp = Some st →
    sent_for (owner s) fp (SentApprovalState.request_id st) (SentApprovalState.draft st);
  tr_entry rid e : entries (registry s) !! rid = Some e → entry_traced (owner s) (approvals s) rid e;
  tr_job job : job ∈ jobs s → ∃ q, owner s !! ChannelApprovalRequest.request_id job = Some q ∧
    job = ChannelApprovalRequest.from_grant_request q (ChannelApprovalRequest.request_id job);
  tr_narrowing n : n ∈ narrowings s → ∃ q, owner s !! Narrowing.request_id n = Some q ∧
    within q (Some (Narrowing.new_params n));
  tr_approval rid n : (rid, n) ∈ approvals s → ∃ q, owner s !! rid = Some q ∧ within q n;
  tr_take rid tid : (rid, tid) ∈ takes s → ∃ n, (rid, n) ∈ approvals s;
  tr_retry tid r : retries s !! tid = Some r → pc_traced s tid r
}.

Lemma traced_start limit : traced (race_start limit).
Proof.
  split; simpl; try (by intros * ?%elem_of_nil); try (intros *; by rewrite lookup_empty).
  apply cache_new_ok.
Qed.

(** The updates that keep it. *)
Lemma traced_set_retry tid r s : traced s → pc_traced s tid r → traced (set_retry tid r s).
Proof.
  intros [? ? ? ? ? ? ? Hr] Hpc. split; try done. simpl. intros tid' r'.
  destruct (decide (tid' = tid)) as [->|Hne]; [rewrite lookup_insert_eq; by intros [= <-]|].
  rewrite lookup_insert_ne by done. apply Hr.
Qed.

Lemma traced_set_cache c s : traced s → cache_ok c →
  (∀ fp st, seen c !! fp = Some st →
    sent_for (owner s) fp (SentApprovalState.request_id st) (SentApprovalState.draft st)) →
  traced (set_cache c s).
Proof. by intros [] ? ?; split. Qed.

Lemma traced_set_registry reg s : traced s →
  (∀ rid e, entries reg !! rid = Some e → entry_traced (owner s) (approvals s) rid e) →
  traced (set_registry reg s).
Proof. by intros [] ?; split. Qed.

Lemma traced_settled reg s : traced s →
  (∀ rid e', entries reg !! rid = Some e' → ∃ e, entries (registry s) !! rid = Some e ∧
     PendingEntry.request e' = PendingEntry.request e ∧
     (e' = e ∨ IntakeDecision.is_denied (PendingEntry.decision e') = true)) →
  traced (set_registry reg s).
Proof.
  intros Htr Hreg. apply traced_set_registry; [done|]. intros rid e' (e & He & Hreq & Hd)%Hreg.
  apply (tr_entry s Htr) in He as (q & Hq & Hqe & Hlog). exists q. rewrite Hreq. split_and!; [done..|].
  destruct Hd as [->|Hd]; [done|]. by destruct (PendingEntry.decision e').
Qed.

Lemma traced_set_jobs js s : traced s →
  (∀ job, job ∈ js → job ∈ jobs s ∨ ∃ q, owner s !! ChannelApprovalRequest.request_id job = Some q ∧
     job = ChannelApprovalRequest.from_grant_request q (ChannelApprovalRequest.request_id job)) →
  traced (set_jobs js s).
Proof. intros [] Hjs; split; try done. simpl. intros job [?|?]%Hjs; [by auto|done]. Qed.

Lemma traced_set_narrowings ns s : traced s →
  (∀ n, n ∈ ns → n ∈ narrowings s ∨ ∃ q, owner s !! Narrowing.request_id n = Some q ∧
     within q (Some (Narrowing.new_params n))) →
  traced (set_narrowings ns s).
Proof. intros [] Hns; split; try done. simpl. intros n [?|?]%Hns; [by auto|done]. Qed.

Lemma traced_set_replies rs s : traced s → traced (set_replies rs s).
Proof. by intros []; split. Qed.

Lemma approved_by_mono own own' log log' tks tks' tid req outcome :
  own ⊆ own' → log ⊆ log' → tks ⊆ tks' →
  approved_by own log tks tid req outcome → approved_by own' log' tks' tid req outcome.
Proof.
  intros Ho Hl Ht. destruct outcome; simpl; try done.
  intros (rid & q & n & ? & ? & ? & ? & ?). exists rid, q, n. split_and!; auto. by eapply lookup_weaken.
Qed.

Lemma sent_for_mono own own' fp rid draft : own ⊆ own' → sent_for own fp rid draft → sent_for own' fp rid draft.
Proof. intros Ho (q & ? & ? & ?). exists q. split_and!; try done. by eapply lookup_weaken. Qed.

(** The history only grows. *)
Lemma traced_history s s' : traced s →
  cache s' = cache s → registry s' = registry s → jobs s' = jobs s → narrowings s' = narrowings s →
  retries s' = retries s → owner s ⊆ owner s' → approvals s ⊆ approvals s' → takes s ⊆ takes s' →
  (∀ rid n, (rid, n) ∈ approvals s' → (rid, n) ∈ approvals s ∨ ∃ q, owner s' !! rid = Some q ∧ within q n) →
  (∀ rid tid, (rid, tid) ∈ takes s' → (rid, tid) ∈ takes s ∨ ∃ n, (rid, n) ∈ approvals s') →
  traced s'.
Proof.
  intros Htr Hc Hr Hj Hn Hrt Ho Hl Ht Hlog Htk. split; rewrite ?Hc, ?Hr, ?Hj, ?Hn, ?Hrt; [apply Htr|..].
  - intros fp st Hst. by eapply sent_for_mono, (tr_seen s Htr).
  - intros rid e (q & Hq & Hreq & Hd)%(tr_entry s Htr). exists q. split_and!; [by eapply lookup_weaken|done|].
    destruct (PendingEntry.decision e); auto.
  - intros job (q & Hq & Hjob)%(tr_job s Htr). exists q. split; [by eapply lookup_weaken|done].
  - intros n (q & Hq & Hw)%(tr_narrowing s Htr). exists q. split; [by eapply lookup_weaken|done].
  - intros rid n [(q & Hq & Hw)%(tr_approval s Htr)|?]%Hlog; [|done]. exists q. split; [by eapply lookup_weaken|done].
  - intros rid tid [[n Hin]%(tr_take s Htr)|?]%Htk; [|done]. exists n. by apply Hl.
  - intros tid r Hpc%(tr_retry s Htr). unfold pc_traced in *. destruct (Retry.pc r); try done;
      try by eapply sent_for_mono.
    + by eapply approved_by_mono.
    + by eapply lookup_weaken.
    + by eapply approved_by_mono.
Qed.

Lemma traced_draw rid q s : traced s → owner s !! rid = None → traced (draw rid q s).
Proof.
  intros Htr Hfresh. eapply traced_history; try done; simpl; [by apply insert_subseteq|auto|].
  intros rid' tid Hin. by left.
Qed.

Lemma traced_log_approval rid n s q : traced s → owner s !! rid = Some q → within q n →
  traced (log_approval (rid, n) s).
Proof.
  intros Htr Hq Hw. eapply traced_history; try done; simpl; [set_solver| |auto].
  intros rid' n' [?|[= -> ->]%list_elem_of_singleton]%elem_of_app; [by left|right; eauto].
Qed.

Lemma traced_log_take rid tid n s : traced s → (rid, n) ∈ approvals s → traced (log_take (rid, tid) s).
Proof.
  intros Htr Hq. eapply traced_history; try done; simpl; [set_solver|auto|].
  intros rid' tid' [?|[= -> ->]%list_elem_of_singleton]%elem_of_app; [by left|]. right. by exists n.
Qed.

(** The cache operations keep what the cache remembers. *)
Lemma forget_sub fp c k st : seen (forget fp c) !! k = Some st → seen c !! k = Some st.
Proof. unfold forget. case_match; [|done]. simpl. by intros [_ ?]%lookup_delete_Some. Qed.

Lemma finish_sub fp b c k st : cache_ok c → seen (finish_delivery fp b c) !! k = Some st →
  ∃ st0, seen c !! k = Some st0 ∧ SentApprovalState.request_id st = SentApprovalState.request_id st0 ∧
    SentApprovalState.draft st = SentApprovalState.draft st0.
Proof.
  intros Hc. destruct b; [|intros Hk%forget_sub; eauto]. rewrite finish_delivery_true by done. simpl.
  destruct (decide (k = fp)) as [->|Hne].
  - rewrite lookup_alter_eq. destruct (seen c !! fp) as [st0|]; simpl; [|done].
    intros [= <-]. exists st0. by destruct st0.
  - rewrite lookup_alter_ne by done. eauto.
Qed.

Lemma begin_sub new_id fp draft c k st : seen (begin_delivery new_id fp draft c).2 !! k = Some st →
  seen c !! k = Some st ∨
  (begin_delivery new_id fp draft c).1 = SentApprovalCacheAction.Deliver new_id ∧
  k = fp ∧ st = SentApprovalState.Delivering new_id draft.
Proof.
  destruct (seen c !! fp) as [st0|] eqn:Hfp; [unfold begin_delivery; rewrite Hfp; destruct st0; by left|].
  rewrite begin_delivery_eq by done. case_match; simpl; [intros ?%with_room_sub; by left|].
  destruct (decide (k = fp)) as [->|Hne].
  - rewrite lookup_insert_eq. intros [= <-]. by right.
  - rewrite lookup_insert_ne by done. intros ?%with_room_sub. by left.
Qed.

Lemma traced_forget fp s : traced s → traced (set_cache (forget fp (cache s)) s).
Proof.
  intros Htr. apply traced_set_cache; [done|by apply forget_ok, Htr|].
  intros k st ?%forget_sub. by apply (tr_seen s Htr).
Qed.

Lemma traced_finish fp b s : traced s → traced (set_cache (finish_delivery fp b (cache s)) s).
Proof.
  intros Htr. apply traced_set_cache; [done|by apply finish_delivery_ok, Htr|].
  intros k st (st0 & Hst & -> & ->)%finish_sub; [by apply (tr_seen s Htr)|apply Htr].
Qed.

(** Starting a delivery, with its id drawn if it is one. *)
Lemma traced_begin new_id req s : traced s → owner s !! new_id = None →
  let fp := channel_request_fingerprint req in
  let '(a, c) := begin_delivery new_id fp (grant_draft_from_request req) (cache s) in
  match a with
  | SentApprovalCacheAction.Deliver rid => rid = new_id ∧ traced (draw rid req (set_cache c s))
  | _ => traced (set_cache c s)
  end.
Proof.
  intros Htr Hfresh fp. destruct (begin_delivery _ _ _ _) as [a c] eqn:Hb.
  assert (cache_ok c) as Hok.
  { pose proof (begin_delivery_ok new_id fp (grant_draft_from_request req) (cache s) (tr_cache s Htr)) as Hok.
    by rewrite Hb in Hok. }
  assert (∀ k st, seen c !! k = Some st → seen (cache s) !! k = Some st ∨
    a = SentApprovalCacheAction.Deliver new_id ∧ k = fp ∧
    st = SentApprovalState.Delivering new_id (grant_draft_from_request req)) as Hsub.
  { intros k st Hk. pose proof (begin_sub new_id fp (grant_draft_from_request req) (cache s) k st) as Hs.
    rewrite Hb in Hs. by apply Hs. }
  destruct a as [rid| | |].
  { assert (rid = new_id) as -> by (pose proof (begin_delivery_decides new_id fp (grant_draft_from_request req)
      (cache s) (tr_cache s Htr)) as Hd; rewrite Hb in Hd; by destruct Hd).
    split; [done|]. change (traced (set_cache c (draw new_id req s))).
    apply traced_set_cache; [by apply traced_draw|done|]. simpl.
    intros k st [Hst|(_ & -> & ->)]%Hsub.
    - eapply sent_for_mono; [|by apply (tr_seen s Htr)]. by apply insert_subseteq.
    - exists req. by rewrite lookup_insert_eq. }
  all: apply traced_set_cache; [done|done|];
    intros k st [Hst|(? & _)]%Hsub; [by apply (tr_seen s Htr)|done].
Qed.

Lemma traced_advance tid new_id alt r s s' :
  traced s → retries s !! tid = Some r → advance tid new_id alt r s = Some s' → traced s'.
Proof.
  intros Htr Hr Hadv. pose proof (tr_retry s Htr tid r Hr) as Hpc. unfold pc_traced in Hpc.
  unfold advance in Hadv. destruct (Retry.pc r) as [|rid draft|rid draft|rid|out| |rid|rid|rid ok|out] eqn:Hpcr.
  - unfold delivered_approval in Hadv.
    destruct (seen (cache s) !! _) as [[rid d|rid d]|] eqn:Hseen; simplify_eq;
      (apply traced_set_retry; [done|]); try done.
    exact (tr_seen s Htr _ _ Hseen).
  - destruct (decision rid (registry s)); simplify_eq; (apply traced_set_retry; [done|]); done.
  - destruct (take_approved rid (registry s)) as [[narrowed|] reg] eqn:Htake; simplify_eq.
    + simpl in Htake. destruct (entries (registry s) !! rid) as [e|] eqn:He; [|done].
      simpl in Htake. destruct (PendingEntry.decision e) as [|n|] eqn:Hd; [done| |done]. simplify_eq.
      destruct (tr_entry s Htr rid e He) as (q & Hq & Hreq & Hlog). rewrite Hd in Hlog.
      apply traced_set_retry.
      * eapply traced_log_take; [|exact Hlog]. apply traced_settled; [done|]. simpl.
        intros rid' e' [_ He']%lookup_delete_Some. exists e'. auto.
      * destruct Hpc as (q' & Hq' & Hfp & ->). assert (q' = q) as -> by congruence.
        exists rid, q, narrowed. simpl. split_and!; [set_solver|done|done|done|done].
    + simpl in Htake. apply traced_set_retry; [|done].
      assert (reg = registry s) as -> by (repeat case_match; simplify_eq; done). by destruct s.
  - simplify_eq. apply traced_set_retry; [|done]. apply traced_settled; [done|]. simpl.
    intros rid' e' [_ He']%lookup_delete_Some. exists e'. auto.
  - simplify_eq. apply traced_set_retry; [by apply traced_forget|]. exact Hpc.
  - destruct (owner s !! new_id) eqn:Hfresh; [done|].
    pose proof (traced_begin new_id (Retry.req r) s Htr Hfresh) as Hb. simpl in Hb.
    destruct (begin_delivery _ _ _ _) as [[rid| | |] c]; simplify_eq; try (by apply traced_set_retry).
    destruct Hb as [-> Hb]. apply traced_set_retry; [done|]. unfold pc_traced. simpl. by rewrite lookup_insert_eq.
  - destruct alt; simplify_eq; apply traced_set_retry; try done. apply traced_set_jobs; [done|].
    intros job [?|Heq%list_elem_of_singleton]%elem_of_app; [by left|]. subst job. right. by exists (Retry.req r).
  - destruct alt; simplify_eq; [by apply traced_set_retry|].
    destruct (replies s !! rid); simplify_eq. by apply traced_set_retry.
  - simplify_eq. apply traced_set_retry; [by apply traced_finish|]. by destruct ok.
  - done.
Qed.

Lemma traced_operate gen rid d s s' : traced s →
  (∀ q n, owner s !! rid = Some q → d = IntakeDecision.Approved n → within q n) →
  operate gen rid d s = Some s' → traced s'.
Proof.
  intros Htr Hw. unfold operate. rewrite set_decision_cases.
  destruct (undecided gen rid (registry s)) as [e|] eqn:He; [|done]. intros [= <-].
  apply undecided_Ok in He as (He & _). destruct (tr_entry s Htr rid e He) as (q & Hq & Hreq & _).
  assert (∀ log, approvals s ⊆ log → match d with IntakeDecision.Approved n => (rid, n) ∈ log | _ => True end →
    ∀ rid' e', entries (record_decision rid d (registry s)) !! rid' = Some e' → entry_traced (owner s) log rid' e') as Hent.
  { intros log Hsub Hlog rid' e'. simpl. destruct (decide (rid' = rid)) as [->|Hne].
    - rewrite lookup_alter_eq, He. simpl. intros [= <-]. by exists q.
    - rewrite lookup_alter_ne by done. intros (q' & ? & ? & Hl)%(tr_entry s Htr). exists q'. split_and!; [done..|].
      destruct (PendingEntry.decision e'); auto. }
  destruct d as [|n|reason].
  - apply traced_set_registry; [done|]. by apply Hent.
  - change (traced (set_registry (record_decision rid (IntakeDecision.Approved n) (registry s)) (log_approval (rid, n) s))).
    apply traced_set_registry; [eapply traced_log_approval; eauto|]. apply Hent; simpl; set_solver.
  - apply traced_set_registry; [done|]. by apply Hent.
Qed.

Lemma traced_step c s s' : traced s → step c s = Some s' → traced s'.
Proof.
  intros Htr. destruct c as [tid req|tid new_id alt| |gen rid|gen rid reason|now gen rid ps|i|target]; simpl.
  - destruct (retries s !! tid); [done|]. intros [= <-]. by apply traced_set_retry.
  - intros (r & Hr & Hadv)%bind_Some. by eapply traced_advance.
  - destruct (jobs s) as [|job rest] eqn:Hjobs; [done|].
    assert (∃ q, owner s !! ChannelApprovalRequest.request_id job = Some q ∧
      job = ChannelApprovalRequest.from_grant_request q (ChannelApprovalRequest.request_id job)) as (q & Hq & Hjob)
      by (apply (tr_job s Htr); rewrite Hjobs; by left).
    destruct (park_request job (registry s)) as [res reg] eqn:Hpark. intros [= <-].
    apply traced_set_replies, traced_set_registry.
    { apply traced_set_jobs; [done|]. intros j Hj. left. rewrite Hjobs. by right. }
    intros rid e He. simpl. destruct (park_sub job (registry s) rid e) as [Hold|(-> & Hreq & Hd)]; [by rewrite Hpark| |].
    + by apply (tr_entry s Htr).
    + exists q. rewrite Hreq, Hd. done.
  - apply traced_operate; [done|]. intros q n _ [= <-]. done.
  - apply traced_operate; [done|]. done.
  - destruct (is_ok (narrow_check_params ps)) eqn:Hcaps; [|done].
    destruct (undecided gen rid (registry s)) as [e|] eqn:He; [|done].
    destruct (is_ok (GrantApprovalIntake.narrow_validate now e ps)) eqn:Hv; [|done]. intros [= <-].
    apply undecided_Ok in He as (He & _). destruct (tr_entry s Htr rid e He) as (q & Hq & Hreq & _).
    apply traced_set_narrowings; [done|]. intros n [?|Heq%list_elem_of_singleton]%elem_of_app; [by left|].
    subst n. right. exists q. split; [done|]. split; [by apply is_ok_unit|]. exists now.
    apply is_ok_unit in Hv. unfold GrantApprovalIntake.narrow_validate in Hv. by rewrite Hreq in Hv.
  - intros (n & Hn & Hop)%bind_Some. revert Hop. apply traced_operate.
    + apply traced_set_narrowings; [done|]. intros n' Hn'. left. by eapply list_elem_of_delete_inv.
    + simpl. intros q n' Hq [= <-]. apply list_elem_of_lookup_2 in Hn.
      apply (tr_narrowing s Htr) in Hn as (q' & Hq' & Hw). by assert (q' = q) as -> by congruence.
  - intros [= <-]. apply traced_settled; [done|]. simpl. intros rid e'.
    rewrite lookup_fmap, fmap_Some. intros (e & He & ->). exists e. split; [done|]. case_match; simpl; auto.
Qed.

Lemma traced_reachable limit s : reachable limit s → traced s.
Proof. induction 1; [apply traced_start|by eapply traced_step]. Qed.
End traced.

(** ** Each approval is taken once *)

Section once.
Context `{FingerprintText, EntryOrder, V : SubsetValidator, !EntryOrderLaws}.

Definition sending (s : Race) (rid : string) (tid : nat) : Prop :=
  ∃ r, retries s !! tid = Some r ∧ Retry.pc r = Pc.Send rid.

Definition job_ids (s : Race) : list string := ChannelApprovalRequest.request_id <$> jobs s.
Definition taken_ids (s : Race) : list string := (takes s).*1.

(** The request was not parked yet. *)
Definition unparked (s : Race) (rid : string) : Prop :=
  entries (registry s) !! rid = None ∧ rid ∉ taken_ids s.

(** A drawn id is with one retry, then with one job, then parked, then gone. *)
Record once (s : Race) : Prop := {
  on_sending rid tid1 tid2 : sending s rid tid1 → sending s rid tid2 → tid1 = tid2;
  on_send rid tid : sending s rid tid → (rid ∉ job_ids s) ∧ unparked s rid;
  on_jobs : NoDup (job_ids s);
  on_job rid : rid ∈ job_ids s → unparked s rid;
  on_taken rid : rid ∈ taken_ids s → entries (registry s) !! rid = None;
  on_takes : NoDup (taken_ids s)
}.

Lemma once_start limit : once (race_start limit).
Proof.
  assert (∀ rid tid, ¬ sending (race_start limit) rid tid) as Hno.
  { intros rid tid (r & Hr & _). cbn in Hr. by rewrite lookup_empty in Hr. }
  split.
  - by intros rid tid1 tid2 Hs%Hno.
  - by intros rid tid Hs%Hno.
  - constructor.
  - by intros rid Hin%elem_of_nil.
  - done.
  - constructor.
Qed.

Lemma once_shrink s s' : once s →
  (∀ rid tid, sending s' rid tid → sending s rid tid) → (job_ids s') `sublist_of` (job_ids s) →
  (∀ rid, entries (registry s) !! rid = None → entries (registry s') !! rid = None) → takes s' = takes s →
  once s'.
Proof.
  intros Hon Hsend Hjobs Hreg Htakes.
  assert (∀ rid, rid ∈ job_ids s' → rid ∈ job_ids s) as Hsub by (intros rid Hr; eapply elem_of_submseteq; [exact Hr|by apply sublist_submseteq]).
  assert (∀ rid, unparked s rid → unparked s' rid) as Hun.
  { unfold unparked, taken_ids. intros rid [? ?]. rewrite Htakes. auto. }
  split.
  - intros rid tid1 tid2 Hs1 Hs2. eapply (on_sending s Hon); eauto.
  - intros rid tid Hs%Hsend. apply (on_send s Hon) in Hs as [? ?]. split; [|by apply Hun]. by intros ?%Hsub.
  - eapply sublist_NoDup; [apply Hon|exact Hjobs].
  - intros rid ?%Hsub. by apply Hun, (on_job s Hon).
  - unfold taken_ids. rewrite Htakes. intros rid ?. by apply Hreg, (on_taken s Hon).
  - unfold taken_ids. rewrite Htakes. apply Hon.
Qed.

Lemma sending_set_retry tid r s rid tid' : (∀ rid, Retry.pc r ≠ Pc.Send rid) →
  sending (set_retry tid r s) rid tid' → sending s rid tid'.
Proof.
  intros Hpc (r' & Hr' & Hs). simpl in Hr'. destruct (decide (tid' = tid)) as [->|Hne].
  - rewrite lookup_insert_eq in Hr'. simplify_eq. by apply Hpc in Hs.
  - rewrite lookup_insert_ne in Hr' by done. by exists r'.
Qed.

Lemma once_moves tid r s s1 : once s → (∀ rid, Retry.pc r ≠ Pc.Send rid) →
  retries s1 = retries s → jobs s1 = jobs s → takes s1 = takes s →
  (∀ rid, entries (registry s) !! rid = None → entries (registry s1) !! rid = None) →
  once (set_retry tid r s1).
Proof.
  intros Hon Hpc Hr Hj Ht Hreg. eapply (once_shrink s); [done| |unfold job_ids; by rewrite <- Hj|done|done].
  intros rid tid' Hs. apply sending_set_retry in Hs; [|done]. unfold sending in *. by rewrite <- Hr.
Qed.

(** A delivery begins under a fresh id. *)
Lemma once_draw tid rid req c s : once s → traced s → owner s !! rid = None →
  once (set_retry tid (Retry.mk req (Pc.Send rid)) (draw rid req (set_cache c s))).
Proof.
  intros Hon Htr Hfresh.
  assert (∀ tid', ¬ sending s rid tid') as Hnot.
  { intros tid' (r & Hr & Hpc). apply (tr_retry s Htr) in Hr. unfold pc_traced in Hr. rewrite Hpc in Hr. congruence. }
  assert (unparked s rid) as Hun.
  { split.
    - destruct (entries (registry s) !! rid) eqn:He; [|done].
      apply (tr_entry s Htr) in He as (q & ? & _). congruence.
    - intros ([? ?] & -> & Hin)%list_elem_of_fmap. apply (tr_take s Htr) in Hin as [nw Hin].
      apply (tr_approval s Htr) in Hin as (q & ? & _). simpl in *. congruence. }
  assert (rid ∉ job_ids s) as Hjob.
  { intros (job & -> & Hin)%list_elem_of_fmap. apply (tr_job s Htr) in Hin as (q & ? & _). congruence. }
  assert (∀ rid' tid', sending (set_retry tid (Retry.mk req (Pc.Send rid)) (draw rid req (set_cache c s))) rid' tid' →
    (rid' = rid ∧ tid' = tid) ∨ sending s rid' tid') as Hsend.
  { intros rid' tid' (r & Hr & Hpc). simpl in Hr. destruct (decide (tid' = tid)) as [->|Hne].
    - rewrite lookup_insert_eq in Hr. simplify_eq/=. by left.
    - rewrite lookup_insert_ne in Hr by done. right. by exists r. }
  split; [| |apply Hon..].
  - intros rid' t1 t2 [[-> ->]|Hs1]%Hsend [[Heq ->]|Hs2]%Hsend; [done| | |by eapply (on_sending s Hon)].
    + by apply Hnot in Hs2.
    + subst. by apply Hnot in Hs1.
  - intros rid' tid' [[-> ->]|Hs]%Hsend; [done|]. by apply (on_send s Hon) in Hs.
Qed.

(** A retry hands its request to the worker. *)
Lemma once_send tid req rid s : once s → retries s !! tid = Some (Retry.mk req (Pc.Send rid)) →
  once (set_retry tid (Retry.mk req (Pc.Await rid))
          (set_jobs (jobs s ++ [ChannelApprovalRequest.from_grant_request req rid]) s)).
Proof.
  intros Hon Hr. assert (sending s rid tid) as Hs by (by eexists).
  destruct (on_send s Hon rid tid Hs) as [Hjob Hun].
  set (s' := set_retry _ _ _).
  assert (job_ids s' = job_ids s ++ [rid]) as Hids by (unfold job_ids; simpl; by rewrite fmap_app).
  assert (∀ rid' tid', sending s' rid' tid' → sending s rid' tid' ∧ tid' ≠ tid) as Hsend.
  { intros rid' tid' (r & Hr' & Hpc). simpl in Hr'. destruct (decide (tid' = tid)) as [->|Hne].
    - rewrite lookup_insert_eq in Hr'. by simplify_eq.
    - rewrite lookup_insert_ne in Hr' by done. split; [by exists r|done]. }
  split; [| | | |apply Hon|apply Hon]; rewrite ?Hids.
  - intros rid' t1 t2 [Hs1 _]%Hsend [Hs2 _]%Hsend. by eapply (on_sending s Hon).
  - intros rid' tid' [Hs' Hne]%Hsend. destruct (on_send s Hon rid' tid' Hs') as [Hj Hu]. split; [|done].
    intros [?|Heq%list_elem_of_singleton]%elem_of_app; [done|]. subst rid'.
    apply Hne. by eapply (on_sending s Hon).
  - apply NoDup_app. split_and!; [apply Hon| |apply NoDup_singleton].
    intros x Hx ->%list_elem_of_singleton. done.
  - intros rid' [?|Heq%list_elem_of_singleton]%elem_of_app; [by apply (on_job s Hon)|]. by subst.
Qed.

(** The worker parks a request, or fails to. *)
Lemma once_serve job rest rs s : once s → jobs s = job :: rest →
  once (set_replies rs (set_registry (park_request job (registry s)).2 (set_jobs rest s))).
Proof.
  intros Hon Hjobs. set (s' := set_replies _ _).
  assert (job_ids s = ChannelApprovalRequest.request_id job :: job_ids s') as Hids by (unfold job_ids; by rewrite Hjobs).
  pose proof (on_jobs s Hon) as Hnd. rewrite Hids in Hnd. apply NoDup_cons in Hnd as [Hnot Hnd].
  assert (unparked s (ChannelApprovalRequest.request_id job)) as [_ Hfresh]
    by (apply (on_job s Hon); rewrite Hids; by left).
  assert (∀ rid, rid ≠ ChannelApprovalRequest.request_id job → entries (registry s) !! rid = None →
    entries (registry s') !! rid = None) as Hreg.
  { intros rid Hne Hnone. destruct (entries (registry s') !! rid) as [e|] eqn:He; [|done].
    apply park_sub in He as [?|(? & _)]; congruence. }
  assert (∀ rid tid, sending s rid tid → rid ≠ ChannelApprovalRequest.request_id job) as Hsend.
  { intros rid tid Hs ->. apply (on_send s Hon) in Hs as [Hs _]. apply Hs. rewrite Hids. by left. }
  split; [exact (on_sending s Hon)| |done| | |apply Hon].
  - intros rid tid Hs. specialize (Hsend rid tid Hs). apply (on_send s Hon) in Hs as [Hj [Hn Ht]].
    rewrite Hids in Hj. apply not_elem_of_cons in Hj as [_ Hj]. split; [done|]. split; [by apply Hreg|done].
  - intros rid Hrid. assert (rid ≠ ChannelApprovalRequest.request_id job) by congruence.
    destruct (on_job s Hon rid) as [Hn Ht]; [rewrite Hids; by right|]. split; [by apply Hreg|done].
  - intros rid Hrid. apply Hreg; [|by apply (on_taken s Hon)]. intros ->. by apply Hfresh.
Qed.

(** A retry takes an approval. *)
Lemma once_take tid r rid e s : once s → (∀ rid, Retry.pc r ≠ Pc.Send rid) →
  entries (registry s) !! rid = Some e →
  once (set_retry tid r (log_take (rid, tid) (set_registry (set_entries (delete rid) (registry s)) s))).
Proof.
  intros Hon Hpc He. set (s' := set_retry _ _ _).
  assert (taken_ids s' = taken_ids s ++ [rid]) as Hids by (unfold taken_ids; simpl; by rewrite fmap_app).
  assert (∀ rid', unparked s rid' → unparked s' rid') as Hun.
  { intros rid' [Hn Ht]. split.
    - simpl. destruct (decide (rid' = rid)) as [->|Hne]; [apply lookup_delete_eq|by rewrite lookup_delete_ne].
    - rewrite Hids. intros [?|Heq%list_elem_of_singleton]%elem_of_app; [done|]. congruence. }
  assert (∀ rid' tid', sending s' rid' tid' → sending s rid' tid') as Hsend
    by (intros rid' tid' Hs; by apply sending_set_retry in Hs).
  assert (rid ∉ taken_ids s) as Hnew by (intros Hin%(on_taken s Hon); congruence).
  split; rewrite ?Hids.
  - intros rid' t1 t2 Hs1%Hsend Hs2%Hsend. by eapply (on_sending s Hon).
  - intros rid' tid' Hs%Hsend. apply (on_send s Hon) in Hs as [? ?]. split; [done|by apply Hun].
  - apply Hon.
  - intros rid' Hr. by apply Hun, (on_job s Hon).
  - intros rid' [Hin|Heq%list_elem_of_singleton]%elem_of_app; simpl.
    + apply (on_taken s Hon) in Hin. destruct (decide (rid' = rid)) as [->|Hne]; [apply lookup_delete_eq|by rewrite lookup_delete_ne].
    + subst. apply lookup_delete_eq.
  - apply NoDup_app. split_and!; [apply Hon| |apply NoDup_singleton].
    intros x Hx ->%list_elem_of_singleton. done.
Qed.

Lemma once_registry reg s : once s →
  (∀ rid, entries (registry s) !! rid = None → entries reg !! rid = None) → once (set_registry reg s).
Proof. intros Hon Hreg. by apply (once_shrink s). Qed.

Lemma once_advance tid new_id alt r s s' :
  traced s → once s → retries s !! tid = Some r → advance tid new_id alt r s = Some s' → once s'.
Proof.
  intros Htr Hon Hr Hadv. unfold advance in Hadv.
  destruct r as [req pc]. cbn [Retry.pc Retry.req] in Hadv.
  destruct pc as [|rid draft|rid draft|rid|out| |rid|rid|rid ok|out].
  - destruct (delivered_approval _ _) as [[rid draft]|]; simplify_eq; by apply (once_moves _ _ s).
  - destruct (decision rid (registry s)); simplify_eq; by apply (once_moves _ _ s).
  - destruct (take_approved rid (registry s)) as [[narrowed|] reg] eqn:Htake; simplify_eq; simpl in Htake;
      destruct (entries (registry s) !! rid) as [e|] eqn:He; simpl in Htake; try done;
      try (destruct (PendingEntry.decision e)); simplify_eq; try by apply (once_moves _ _ s).
    by eapply once_take.
  - simplify_eq. apply (once_moves _ _ s); try done. simpl. intros rid' Hn.
    apply lookup_delete_None. by right.
  - simplify_eq. by apply (once_moves _ _ s).
  - destruct (owner s !! new_id) eqn:Hfresh; [done|].
    destruct (begin_delivery _ _ _ _) as [[rid| | |] c] eqn:Hb; simplify_eq; try by apply (once_moves _ _ s).
    pose proof (begin_delivery_decides new_id (channel_request_fingerprint req) (grant_draft_from_request req)
      (cache s) (tr_cache s Htr)) as Hd. rewrite Hb in Hd. destruct Hd as [-> _]. by apply once_draw.
  - destruct alt; simplify_eq; [by apply (once_moves _ _ s)|by apply once_send].
  - destruct alt; simplify_eq; [by apply (once_moves _ _ s)|].
    destruct (replies s !! rid); simplify_eq. by apply (once_moves _ _ s).
  - simplify_eq. by apply (once_moves _ _ s).
  - done.
Qed.

Lemma once_operate gen rid d s s' : once s → operate gen rid d s = Some s' → once s'.
Proof.
  intros Hon. unfold operate. rewrite set_decision_cases.
  destruct (undecided gen rid (registry s)) as [e|]; [|done]. intros [= <-].
  assert (once (set_registry (record_decision rid d (registry s)) s)) as Hreg.
  { apply once_registry; [done|]. intros rid' Hn. simpl. by apply lookup_alter_None. }
  destruct d; try done. eapply once_shrink; [exact Hreg|done..].
Qed.

Lemma once_step c s s' : traced s → once s → step c s = Some s' → once s'.
Proof.
  intros Htr Hon. destruct c as [tid req|tid new_id alt| |gen rid|gen rid reason|now gen rid ps|i|target]; simpl.
  - destruct (retries s !! tid); [done|]. intros [= <-]. by apply (once_moves _ _ s).
  - intros (r & Hr & Hadv)%bind_Some. by eapply once_advance.
  - destruct (jobs s) as [|job rest] eqn:Hjobs; [done|].
    destruct (park_request job (registry s)) as [res reg] eqn:Hpark. intros [= <-].
    change reg with (res, reg).2. rewrite <- Hpark. by apply once_serve.
  - by apply once_operate.
  - by apply once_operate.
  - repeat case_match; try done. intros [= <-]. by apply (once_shrink s).
  - intros (n & Hn & Hop)%bind_Some. revert Hop. apply once_operate. by apply (once_shrink s).
  - intros [= <-]. apply once_registry; [done|]. intros rid Hn. simpl. by rewrite lookup_fmap, Hn.
Qed.

Lemma once_reachable limit s : reachable limit s → once s.
Proof.
  induction 1; [apply once_start|]. eapply once_step; [by eapply traced_reachable|done|done].
Qed.
End once.

(** ** A delivery in progress has a retry working on it *)

Section live.
Context `{FingerprintText, EntryOrder, V : SubsetValidator, !EntryOrderLaws}.

Definition live (s : Race) : Prop :=
  ∀ fp rid d, seen (cache s) !! fp = Some (SentApprovalState.Delivering rid d) →
    ∃ tid r, retries s !! tid = Some r ∧ channel_request_fingerprint (Retry.req r) = fp ∧
      Pc.delivers rid (Retry.pc r) = true.

Lemma live_start limit : live (race_start limit).
Proof. intros fp rid d Hs. cbn in Hs. by rewrite lookup_empty in Hs. Qed.

Lemma live_same s s' : live s → cache s' = cache s → retries s' = retries s → live s'.
Proof. unfold live. intros Hl -> ->. exact Hl. Qed.

(** A retry's step: deliveries in progress were so before or are its own, and
    a retry that stops delivering leaves no such delivery. *)
Lemma live_retry tid r pc' c s s1 : live s → retries s !! tid = Some r →
  retries s1 = retries s → cache s1 = c →
  (∀ fp rid d, seen c !! fp = Some (SentApprovalState.Delivering rid d) →
    seen (cache s) !! fp = Some (SentApprovalState.Delivering rid d) ∧
      (channel_request_fingerprint (Retry.req r) = fp → Pc.delivers rid (Retry.pc r) = true →
       Pc.delivers rid pc' = true) ∨
    channel_request_fingerprint (Retry.req r) = fp ∧ Pc.delivers rid pc' = true) →
  live (set_retry tid (Retry.mk (Retry.req r) pc') s1).
Proof.
  intros Hl Hr Hrs Hc Hcache fp rid d Hst. simpl in Hst. rewrite Hc in Hst. simpl. rewrite Hrs.
  apply Hcache in Hst as [[Hst Hkeep]|[Hfp Hdel]].
  - apply Hl in Hst as (tid' & r' & Hr' & Hfp & Hdel). destruct (decide (tid' = tid)) as [->|Hne].
    + assert (r' = r) as -> by congruence. exists tid, (Retry.mk (Retry.req r) pc').
      rewrite lookup_insert_eq. auto.
    + exists tid', r'. rewrite lookup_insert_ne by done. auto.
  - exists tid, (Retry.mk (Retry.req r) pc'). rewrite lookup_insert_eq. auto.
Qed.

Lemma live_keep tid r pc' s s1 : live s → retries s !! tid = Some r → retries s1 = retries s →
  cache s1 = cache s →
  (∀ rid, Pc.delivers rid (Retry.pc r) = true → Pc.delivers rid pc' = true) →
  live (set_retry tid (Retry.mk (Retry.req r) pc') s1).
Proof.
  intros Hl Hr Hrs Hc Hdel. eapply live_retry; [done|done|done|exact Hc|]. intros fp rid d Hst. left. auto.
Qed.

Lemma finish_delivering fp b c k rid d : cache_ok c →
  seen (finish_delivery fp b c) !! k = Some (SentApprovalState.Delivering rid d) →
  k ≠ fp ∧ seen c !! k = Some (SentApprovalState.Delivering rid d).
Proof.
  intros Hc. destruct b.
  - rewrite finish_delivery_true by done. simpl. destruct (decide (k = fp)) as [->|Hne].
    + rewrite lookup_alter_eq. by destruct (seen c !! fp) as [[]|].
    + by rewrite lookup_alter_ne.
  - cbn. unfold forget. destruct (seen c !! fp) eqn:Hfp.
    + simpl. intros [? ?]%lookup_delete_Some. done.
    + intros Hk. split; [congruence|done].
Qed.

Lemma live_advance tid new_id alt r s s' :
  traced s → live s → retries s !! tid = Some r → advance tid new_id alt r s = Some s' → live s'.
Proof.
  intros Htr Hl Hr Hadv. unfold advance in Hadv.
  destruct (Retry.pc r) as [|rid draft|rid draft|rid|out| |rid|rid|rid ok|out] eqn:Hpc.
  - destruct (delivered_approval _ _) as [[rid draft]|]; simplify_eq;
      (eapply live_keep; [exact Hl|exact Hr|done|done|by rewrite Hpc]).
  - destruct (decision rid (registry s)); simplify_eq; (eapply live_keep; [exact Hl|exact Hr|done|done|by rewrite Hpc]).
  - destruct (take_approved rid (registry s)) as [[narrowed|] reg]; simplify_eq;
      (eapply live_keep; [exact Hl|exact Hr|done|done|by rewrite Hpc]).
  - simplify_eq. eapply live_keep; [exact Hl|exact Hr|done|done|by rewrite Hpc].
  - simplify_eq. eapply live_retry; [exact Hl|exact Hr|done|done|].
    intros fp rid d Hst%forget_sub. left. split; [done|]. by rewrite Hpc.
  - destruct (owner s !! new_id) eqn:Hfresh; [done|].
    destruct (begin_delivery _ _ _ _) as [[rid| | |] c] eqn:Hb; simplify_eq;
      (eapply live_retry; [exact Hl|exact Hr|done|done|]);
      intros fp rid' d Hst;
      pose proof (begin_sub new_id (channel_request_fingerprint (Retry.req r)) (grant_draft_from_request (Retry.req r))
        (cache s) fp (SentApprovalState.Delivering rid' d)) as Hsub; rewrite Hb in Hsub;
      destruct (Hsub Hst) as [Hold|(Ha & -> & Heq)]; cbn in *; simplify_eq;
      try (left; split; [done|by rewrite Hpc]).
    right. split; [done|]. apply String.eqb_refl.
  - destruct alt; simplify_eq; (eapply live_keep; [exact Hl|exact Hr|done|done|by rewrite Hpc]).
  - destruct alt; simplify_eq; [eapply live_keep; [exact Hl|exact Hr|done|done|by rewrite Hpc]|].
    destruct (replies s !! rid); simplify_eq. eapply live_keep; [exact Hl|exact Hr|done|done|by rewrite Hpc].
  - simplify_eq. eapply live_retry; [exact Hl|exact Hr|done|done|].
    intros fp rid' d [Hne Hst]%finish_delivering; [|apply Htr]. left. split; [done|]. congruence.
  - done.
Qed.

Lemma live_operate gen rid d s s' : live s → operate gen rid d s = Some s' → live s'.
Proof.
  intros Hl. unfold operate. destruct (set_decision gen rid d (registry s)) as [[]]; [|done].
  intros [= <-]. by destruct d; eapply live_same.
Qed.

Lemma live_step c s s' : traced s → live s → step c s = Some s' → live s'.
Proof.
  intros Htr Hl. destruct c as [tid req|tid new_id alt| |gen rid|gen rid reason|now gen rid ps|i|target]; simpl.
  - destruct (retries s !! tid) eqn:Hnone; [done|]. intros [= <-] fp rid d (tid' & r' & Hr' & ?)%Hl.
    exists tid', r'. simpl. rewrite lookup_insert_ne by congruence. done.
  - intros (r & Hr & Hadv)%bind_Some. by eapply live_advance.
  - destruct (jobs s); [done|]. destruct (park_request _ _). intros [= <-]. by eapply live_same.
  - by apply live_operate.
  - by apply live_operate.
  - repeat case_match; try done. intros [= <-]. by eapply live_same.
  - intros (n & Hn & Hop)%bind_Some. revert Hop. apply live_operate. by eapply live_same.
  - intros [= <-]. by eapply live_same.
Qed.

Lemma live_reachable limit s : reachable limit s → live s.
Proof.
  induction 1; [apply live_start|]. eapply live_step; [by eapply traced_reachable|done|done].
Qed.
End live.
