(* ===== verification/RaceResults.v ===== *)
(** * What racing retries can and cannot do

    The theorems of the interleaved approval system: an approving retry got
    what an operator gave its own request, an approval serves one retry, and
    every retry returns. *)
From S2P Require Import Prelude RustStr GrantData Subset Cascade Events GrantSqlite GrantStore Preset ApprovalIntake SentCache IntakeProps Resolver ApprovalRace RaceProps.
Open Scope string_scope.
Open Scope list_scope.
Open Scope Z_scope.

(** ** Fingerprints *)

Section fingerprints.
Context `{FingerprintText, !FingerprintTextLaws}.

Lemma string_app_inj a b c : a +:+ b = a +:+ c → b = c.
Proof. induction a as [|x a IH]; simpl; [done|]. intros [= ?]. auto. Qed.

Lemma elem_dedup {A} `{EqDecision A} (l : list A) x : x ∈ dedup l ↔ x ∈ l.
Proof.
  induction l as [|y l IH]; [done|]. cbn [dedup]. destruct l as [|z l]; [done|].
  case_decide as Hyz.
  - subst. rewrite IH, (elem_of_cons (z :: l)). split; [by right|]. intros [->|?]; [left|done].
  - rewrite !(elem_of_cons _ x y), IH. done.
Qed.

Definition param_pairs (req : GrantRequest.t) : list (string * string) :=
  (λ p, (CapParam.key p, CapParam.value p)) <$> default [] (GrantRequest.params req).

(** Requests with one fingerprint are the same request, up to the order and
    repetition of their parameters. *)
Lemma fingerprint_same q req : channel_request_fingerprint q = channel_request_fingerprint req →
  GrantRequest.caller q = GrantRequest.caller req ∧ GrantRequest.capability q = GrantRequest.capability req ∧
  GrantRequest.ttl q = GrantRequest.ttl req ∧ GrantRequest.justification q = GrantRequest.justification req ∧
  ∀ p, p ∈ default [] (GrantRequest.params q) ↔ p ∈ default [] (GrantRequest.params req).
Proof.
  unfold channel_request_fingerprint. intros Heq%string_app_inj.
  destruct (fingerprint_total (fingerprint_of q)) as [tq Hq].
  destruct (fingerprint_total (fingerprint_of req)) as [tr Hr]. rewrite Hq, Hr in Heq. subst tr.
  assert (fingerprint_of q = fingerprint_of req) as Hf by (apply fingerprint_inj; congruence).
  pose proof (f_equal ChannelRequestFingerprint.params Hf) as Hps. cbn in Hps.
  assert (∀ kv, kv ∈ param_pairs q ↔ kv ∈ param_pairs req) as Hkv.
  { intros kv. rewrite <- (merge_sort_Permutation param_le (param_pairs q)).
    rewrite <- (merge_sort_Permutation param_le (param_pairs req)).
    rewrite <- elem_dedup. unfold param_pairs. rewrite Hps. by rewrite elem_dedup. }
  split_and!; [exact (f_equal ChannelRequestFingerprint.caller Hf)|exact (f_equal ChannelRequestFingerprint.capability Hf)
    |exact (f_equal ChannelRequestFingerprint.ttl Hf)|exact (f_equal ChannelRequestFingerprint.justification Hf)|].
  intros [k v]. specialize (Hkv (k, v)). unfold param_pairs in Hkv. rewrite !list_elem_of_fmap in Hkv. split; intros Hin.
  - destruct Hkv as [Hkv _]. destruct Hkv as ([k' v'] & ? & ?); [by exists (CapParam.mk k v)|]. by simplify_eq/=.
  - destruct Hkv as [_ Hkv]. destruct Hkv as ([k' v'] & ? & ?); [by exists (CapParam.mk k v)|]. by simplify_eq/=.
Qed.
End fingerprints.

(** ** Counting *)

Lemma NoDup_length_le {A} (l k : list A) : NoDup l → (∀ x, x ∈ l → x ∈ k) → (length l ≤ length k)%nat.
Proof. intros Hnd Hsub. by apply submseteq_length, NoDup_submseteq. Qed.

Section counting.
Context `{FingerprintText, EntryOrder, V : SubsetValidator, !EntryOrderLaws}.

Definition approving (r : Retry.t) : bool :=
  match Retry.pc r with
  | Pc.Forget (ResolverOutcome.Approve _) | Pc.Return (ResolverOutcome.Approve _) => true
  | _ => false
  end.

(** The retries that were approved. *)
Definition approved_retries (s : Race) : list nat :=
  elements (dom (filter (λ ir : nat * Retry.t, approving ir.2 = true) (retries s)) : gset nat).

Lemma approving_took s tid r : traced s → retries s !! tid = Some r → approving r = true →
  ∃ rid, (rid, tid) ∈ takes s.
Proof.
  intros Htr Hr Ha. apply (tr_retry s Htr) in Hr. unfold pc_traced in Hr. unfold approving in Ha.
  destruct (Retry.pc r) as [| | | |out| | | | |out]; try done; destruct out; try done;
    destruct Hr as (rid & q & n & Hin & _); eauto.
Qed.

Lemma approved_le s : traced s → once s → (length (approved_retries s) ≤ length (approvals s))%nat.
Proof.
  intros Htr Hon.
  assert (length (approved_retries s) ≤ length (takes s))%nat as Hle.
  { rewrite <- (length_fmap snd (takes s)). unfold approved_retries.
    apply NoDup_length_le; [apply NoDup_elements|]. intros tid. rewrite elem_of_elements, elem_of_dom. intros [r [Hr Ha]%map_lookup_filter_Some].
    apply (approving_took s tid r Htr Hr) in Ha as [rid Hin]. apply list_elem_of_fmap. by exists (rid, tid). }
  etrans; [exact Hle|]. rewrite <- (length_fmap fst (takes s)), <- (length_fmap fst (approvals s)).
  apply NoDup_length_le; [apply (on_takes s Hon)|].
  intros rid ([rid' tid] & -> & Hin)%list_elem_of_fmap. apply (tr_take s Htr) in Hin as [n Hn].
  apply list_elem_of_fmap. by exists (rid', n).
Qed.
End counting.

(** ** Progress *)

Section progress.
Context `{FingerprintText, EntryOrder, V : SubsetValidator, !EntryOrderLaws}.

(** The steps all retries together have left, at most. *)
Definition steps_left (s : Race) : nat :=
  map_fold (λ (_ : nat) r n, (Pc.rank (Retry.pc r) + n)%nat) 0%nat (retries s).

Lemma steps_left_set tid r r' m : m !! tid = Some r → (Pc.rank (Retry.pc r') < Pc.rank (Retry.pc r))%nat →
  (map_fold (λ (_ : nat) r n, Pc.rank (Retry.pc r) + n) 0 (<[tid := r']> m) <
   map_fold (λ (_ : nat) r n, Pc.rank (Retry.pc r) + n) 0 m)%nat.
Proof.
  intros Hr Hlt.
  rewrite (map_fold_delete_L (λ (_ : nat) r n, Pc.rank (Retry.pc r) + n)%nat 0%nat tid r m);
    [|intros; lia|done].
  rewrite (map_fold_delete_L (λ (_ : nat) r n, Pc.rank (Retry.pc r) + n)%nat 0%nat tid r' (<[tid := r']> m));
    [|intros; lia|apply lookup_insert_eq].
  rewrite delete_insert_eq. lia.
Qed.

Definition is_advance (c : choice) : bool := match c with Advance _ _ _ => true | _ => false end.

(** A retry moves forward only. *)
Lemma advance_forward tid new_id alt r s s' : advance tid new_id alt r s = Some s' →
  ∃ r', retries s' = <[tid := r']> (retries s) ∧ (Pc.rank (Retry.pc r') < Pc.rank (Retry.pc r))%nat.
Proof.
  unfold advance. intros Hadv. destruct (Retry.pc r) as [|rid draft|rid draft|rid|out| |rid|rid|rid ok|out].
  - destruct (delivered_approval _ _) as [[rid d]|]; simplify_eq; eexists; (split; [done|simpl; lia]).
  - destruct (decision _ _); simplify_eq; eexists; (split; [done|simpl; lia]).
  - destruct (take_approved _ _) as [[n|] reg]; simplify_eq; eexists; (split; [done|simpl; lia]).
  - simplify_eq; eexists; (split; [done|simpl; lia]).
  - simplify_eq; eexists; (split; [done|simpl; lia]).
  - destruct (owner s !! new_id); [done|].
    destruct (begin_delivery _ _ _ _) as [[] c]; simplify_eq; eexists; (split; [done|simpl; lia]).
  - destruct alt; simplify_eq; eexists; (split; [done|simpl; lia]).
  - destruct alt; [simplify_eq; eexists; (split; [done|simpl; lia])|].
    destruct (replies s !! rid); simplify_eq; eexists; (split; [done|simpl; lia]).
  - simplify_eq; eexists; (split; [done|simpl; lia]).
  - done.
Qed.

Lemma advance_decreases tid new_id alt s s' : step (Advance tid new_id alt) s = Some s' →
  (steps_left s' < steps_left s)%nat.
Proof.
  simpl. intros (r & Hr & Hadv)%bind_Some. destruct (advance_forward _ _ _ _ _ _ Hadv) as (r' & Hrs & Hlt).
  unfold steps_left. rewrite Hrs. by eapply steps_left_set.
Qed.

(** Everywhere but at a wait for another delivery, a retry can move. *)
Lemma advance_enabled tid r s : retries s !! tid = Some r →
  match Retry.pc r with
  | Pc.Return _ => True
  | Pc.Begin =>
      (∃ rid d, seen (cache s) !! channel_request_fingerprint (Retry.req r) = Some (SentApprovalState.Delivering rid d)) ∨
      ∃ c s', step c s = Some s' ∧ is_advance c = true
  | _ => ∃ c s', step c s = Some s' ∧ is_advance c = true
  end.
Proof.
  intros Hr.
  assert (∀ new_id alt s', advance tid new_id alt r s = Some s' →
    ∃ c s', step c s = Some s' ∧ is_advance c = true) as Hstep.
  { intros new_id alt s' Hadv. exists (Advance tid new_id alt), s'. simpl. by rewrite Hr. }
  destruct (Retry.pc r) as [|rid draft|rid draft|rid|out| |rid|rid|rid ok|out] eqn:Hpc; try done;
    try (eapply (Hstep "" true); unfold advance; rewrite Hpc; done).
  - destruct (advance tid "" true r s) eqn:Hadv; [by eapply Hstep|]. unfold advance in Hadv. rewrite Hpc in Hadv.
    by destruct (delivered_approval _ _) as [[? ?]|].
  - destruct (advance tid "" true r s) eqn:Hadv; [by eapply Hstep|]. unfold advance in Hadv. rewrite Hpc in Hadv.
    by destruct (decision rid (registry s)).
  - destruct (advance tid "" true r s) eqn:Hadv; [by eapply Hstep|]. unfold advance in Hadv. rewrite Hpc in Hadv.
    by destruct (take_approved rid (registry s)) as [[?|] ?].
  - set (new_id := fresh (dom (owner s) : gset string)).
    assert (owner s !! new_id = None) as Hfresh by (apply not_elem_of_dom, is_fresh).
    destruct (advance tid new_id true r s) eqn:Hadv; [right; by eapply Hstep|].
    left. unfold advance in Hadv. rewrite Hpc, Hfresh in Hadv. unfold begin_delivery in Hadv.
    destruct (seen (cache s) !! _) as [[rid d|rid d]|]; [by eauto|done|]. by repeat case_match.
Qed.

Lemma some_retry_moves limit s tid r : reachable limit s → retries s !! tid = Some r →
  (∀ out, Retry.pc r ≠ Pc.Return out) → ∃ c s', step c s = Some s' ∧ is_advance c = true.
Proof.
  intros Hreach Hr Hpc. pose proof (advance_enabled tid r s Hr) as Hen.
  destruct (Retry.pc r) eqn:Hpcr; try exact Hen; [|by exfalso; eapply Hpc].
  destruct Hen as [(rid & d & Hdel)|Hen]; [|exact Hen].
  apply (live_reachable limit s Hreach) in Hdel as (tid' & r' & Hr' & _ & Hdel).
  pose proof (advance_enabled tid' r' s Hr') as Hen. by destruct (Retry.pc r').
Qed.

Definition all_returned (s : Race) : Prop :=
  ∀ tid r, retries s !! tid = Some r → ∃ out, Retry.pc r = Pc.Return out.

Lemma all_returned_dec s : all_returned s ∨
  ∃ tid r, retries s !! tid = Some r ∧ ∀ out, Retry.pc r ≠ Pc.Return out.
Proof.
  destruct (decide (map_Forall (λ _ r, Pc.rank (Retry.pc r) = 0%nat) (retries s))) as [Hall|Hnot].
  - left. intros tid r Hr. specialize (Hall tid r Hr). simpl in Hall. destruct (Retry.pc r); simpl in Hall; try lia. eauto.
  - right. apply map_not_Forall in Hnot as (tid & r & Hr & Hne); [|apply _]. exists tid, r. split; [done|].
    intros out Hpc. rewrite Hpc in Hne. by apply Hne.
Qed.
End progress.

(** ** Properties *)

(** C16: no interleaving of retries, deliveries and operator decisions lets a
    retry be approved for more than an operator gave its own request.  A retry
    that returns approved took an approval the operator gave to a request of
    the same caller, for the same capability, TTL, justification and
    parameters (up to order and repetition).  Its draft has exactly the
    parameters the operator allowed, the narrowed ones if there are, and covers
    no call that request did not ask for. *)
Theorem approvals_traced `{FingerprintText, !FingerprintTextLaws, EntryOrder, !EntryOrderLaws}
    (limit : Z) (s : Race) (tid : nat) (r : Retry.t) (d : GrantDraft.t) :
  @reachable _ _ SubsetValidatorImpl limit s →
  retries s !! tid = Some r → Retry.pc r = Pc.Return (ResolverOutcome.Approve d) →
  ∃ rid q narrowed,
    (rid, tid) ∈ takes s ∧ (rid, narrowed) ∈ approvals s ∧ owner s !! rid = Some q ∧
    GrantRequest.caller q = GrantRequest.caller (Retry.req r) ∧
    GrantDraft.capability d = GrantRequest.capability (Retry.req r) ∧
    GrantDraft.ttl d = GrantRequest.ttl (Retry.req r) ∧
    (∀ p, p ∈ default [] (GrantRequest.params q) ↔ p ∈ default [] (GrantRequest.params (Retry.req r))) ∧
    GrantRequest.justification q = GrantRequest.justification (Retry.req r) ∧
    GrantDraft.params d = approved_params q narrowed ∧
    ∀ asked taken call,
      Grant.capability asked = GrantDraft.capability d → Grant.capability taken = GrantDraft.capability d →
      Grant.params asked = default [] (GrantRequest.params q) → Grant.params taken = GrantDraft.params d →
      covers_request taken call = Ok tt → covers_request asked call = Ok tt.
Proof.
  intros Hreach Hr Hpc. pose proof (traced_reachable limit s Hreach) as Htr.
  pose proof (tr_retry s Htr tid r Hr) as Hap. unfold pc_traced in Hap. rewrite Hpc in Hap.
  destruct Hap as (rid & q & n & Htake & Hlog & Hown & Hfp & ->).
  destruct (fingerprint_same q (Retry.req r) Hfp) as (Hcaller & Hcap & Httl & Hjust & Hps).
  exists rid, q, n. split_and!; [done..| | |done|done| |].
  - destruct n; simpl; by rewrite Hcap.
  - destruct n; simpl; by rewrite Httl.
  - by destruct n.
  - intros asked taken call Ha Ht Hpa Hpt. destruct (tr_approval s Htr rid n Hlog) as (q' & Hq' & Hw).
    assert (q' = q) as -> by congruence. destruct n as [ps|]; simpl in *.
    + destruct Hw as (_ & now & Hv).
      apply (covers_request_mono asked taken (GrantDraft.mk (GrantRequest.capability q) ps (GrantRequest.ttl q)));
        [|done|done].
      etrans; [|exact Hv]. symmetry. by apply (validate_content (V := SubsetValidatorImpl)).
    + unfold covers_request, SubsetValidatorImpl. rewrite Ha, Ht, Hpa, Hpt. exact id.
Qed.

(** C38: an approval serves one retry.  In every reachable state no request id
    was taken twice, two approved retries took different approvals, and there
    are never more approved retries than the operator gave approvals. *)
Theorem approvals_single_use `{FingerprintText, EntryOrder, V : SubsetValidator, !EntryOrderLaws}
    (limit : Z) (s : Race) :
  reachable limit s →
  NoDup (takes s).*1 ∧
  (∀ rid tid1 tid2, (rid, tid1) ∈ takes s → (rid, tid2) ∈ takes s → tid1 = tid2) ∧
  (length (approved_retries s) ≤ length (approvals s))%nat.
Proof.
  intros Hreach. pose proof (once_reachable limit s Hreach) as Hon.
  pose proof (traced_reachable limit s Hreach) as Htr. split_and!; [apply Hon| |by apply approved_le].
  intros rid tid1 tid2 Hin1 Hin2. pose proof (on_takes s Hon) as Hnd. unfold taken_ids in Hnd.
  apply list_elem_of_lookup in Hin1 as [i Hi], Hin2 as [j Hj].
  assert (i = j) as ->; [|congruence].
  eapply (NoDup_lookup (takes s).*1 i j rid); [done|by rewrite list_lookup_fmap, Hi|by rewrite list_lookup_fmap, Hj].
Qed.

(** No retry hangs.  From every reachable state, whatever requests are
    parked and whatever the operator and the worker do not do, moving the
    retries alone brings every one of them to its return: a retry only waits
    for a delivery another retry is busy with, and that one times out. *)
Theorem retries_return `{FingerprintText, EntryOrder, V : SubsetValidator, !EntryOrderLaws}
    (limit : Z) (s : Race) :
  reachable limit s →
  ∃ cs s', forallb is_advance cs = true ∧ run_schedule cs s = Some s' ∧ all_returned s'.
Proof.
  remember (steps_left s) as n eqn:Hn. revert s Hn.
  induction (lt_wf n) as [n _ IH]. intros s -> Hreach.
  destruct (all_returned_dec s) as [Hall|(tid & r & Hr & Hpc)]; [by exists [], s|].
  destruct (some_retry_moves limit s tid r Hreach Hr Hpc) as (c & s1 & Hstep & Hadv).
  assert (steps_left s1 < steps_left s)%nat as Hlt by (destruct c; try done; by eapply advance_decreases).
  destruct (IH (steps_left s1) Hlt s1 eq_refl) as (cs & s' & Hcs & Hrun & Hall); [by eapply reach_step|].
  exists (c :: cs), s'. split_and!; [|by simpl; rewrite Hstep|done]. simpl. by rewrite Hadv.
Qed.

(** ** Witnesses *)

(** A concrete injective text of fingerprints. *)
Definition ttl_code (ttl : GrantTtl.t) : Z * Z :=
  match ttl with
  | GrantTtl.Once => (0, 0) | GrantTtl.Lifecycle => (1, 0) | GrantTtl.Persistent => (2, 0)
  | GrantTtl.Duration ms => (3, ms) | GrantTtl.Until t => (4, t)
  end.

Definition fingerprint_code (f : ChannelRequestFingerprint.t) :=
  (ChannelRequestFingerprint.caller f, ChannelRequestFingerprint.capability f, ChannelRequestFingerprint.params f,
   ttl_code (ChannelRequestFingerprint.ttl f), ChannelRequestFingerprint.justification f).

Definition fingerprint_model : FingerprintText := {|
  fingerprint_to_string f := Some (pos_to_string (encode (fingerprint_code f)));
  debug_params _ := ""
|}.

Lemma fingerprint_model_laws : @FingerprintTextLaws fingerprint_model.
Proof.
  split; simpl; [by eexists|]. intros f g [= Heq%(f_equal pos_of_string)].
  rewrite !pos_of_to_string in Heq. apply (inj encode) in Heq.
  destruct f as [? ? ? tf ?], g as [? ? ? tg ?]. unfold fingerprint_code in Heq. simpl in Heq.
  destruct tf, tg; simpl in Heq; by simplify_eq.
Qed.

#[local] Existing Instances fingerprint_model fingerprint_model_laws entry_order_model entry_order_model_laws
  SubsetValidatorImpl.

Definition sample_ask : GrantRequest.t :=
  GrantRequest.mk "kid" "fs" (Some [CapParam.mk "read" "/srv"]) GrantTtl.Once None.

(** A retry asks, the operator narrows, and two later retries race for the
    approval: both see it, the second takes it. *)
Definition sample_schedule : list choice := [
  Spawn 0 sample_ask;
  Advance 0 "" false; Advance 0 "u1" false; Advance 0 "" false; Serve; Advance 0 "" false; Advance 0 "" false;
  NarrowStart 7 (Some 1) "u1" sample_narrowed; NarrowCommit 0;
  Spawn 1 sample_ask; Spawn 2 sample_ask;
  Advance 1 "" false; Advance 2 "" false; Advance 1 "" false; Advance 2 "" false;
  Advance 2 "" false; Advance 1 "" false; Advance 2 "" false
].

Definition sample_end : Race := run_from_start 4 sample_schedule.

Definition sample_got : GrantDraft.t := GrantDraft.mk "fs" sample_narrowed GrantTtl.Once.

Lemma sample_end_reachable : reachable 4 sample_end.
Proof. apply run_from_start_reachable. vm_compute. reflexivity. Qed.

Lemma sample_end_approved :
  retries sample_end !! 2%nat = Some (Retry.mk sample_ask (Pc.Return (ResolverOutcome.Approve sample_got))).
Proof. vm_compute. reflexivity. Qed.

(** The retry that lost the race is back at the delivery step. *)
Example sample_loser : Retry.pc <$> retries sample_end !! 1%nat = Some Pc.Begin.
Proof. vm_compute. reflexivity. Qed.

Lemma approvals_traced_witness :
  ∃ rid q narrowed, (rid, 2%nat) ∈ takes sample_end ∧ (rid, narrowed) ∈ approvals sample_end ∧
    GrantRequest.caller q = "kid" ∧ approved_params q narrowed = sample_narrowed.
Proof.
  destruct (approvals_traced 4 sample_end 2 (Retry.mk sample_ask (Pc.Return (ResolverOutcome.Approve sample_got))) sample_got)
    as (rid & q & n & Htake & Hlog & _ & Hcaller & _ & _ & _ & _ & Hparams & _);
    [apply sample_end_reachable|apply sample_end_approved|done|].
  exists rid, q, n. split_and!; [exact Htake|exact Hlog|exact Hcaller|symmetry; exact Hparams].
Defined.

Lemma approvals_single_use_witness : (length (approved_retries sample_end) ≤ 1)%nat.
Proof.
  destruct (approvals_single_use 4 sample_end) as (_ & _ & Hle); [apply sample_end_reachable|].
  exact Hle.
Defined.

Lemma retries_return_witness :
  ∃ cs s', forallb is_advance cs = true ∧ run_schedule cs sample_end = Some s' ∧ all_returned s'.
Proof. apply (retries_return 4 sample_end), sample_end_reachable. Defined.
