(* ===== verification/ResolverProps.v ===== *)
(** * What the resolver chain decides

    The chain of the runtime over the approval intake: a request is approved
    only for authority the caller holds or an operator gave, and the resolver
    run alone is a schedule of the interleaved system. *)
From S2P Require Import Prelude RustStr GrantData Subset Cascade Events GrantSqlite GrantStore StoreFacts Preset ApprovalIntake SentCache IntakeProps Resolver ApprovalRace RaceProps RaceResults.
Open Scope string_scope.
Open Scope list_scope.
Open Scope Z_scope.

Section chain.
Context {P : Type} `{ChannelApprovalPort P, Chrono, Codec}.

Abbreviation WM := (M (World P) Stuck.t).

(** [quiet m]: [m] touches neither the store nor the bus. *)
Definition quiet {A} (m : WM A) : Prop := ∀ w, world_store (m w).2 = world_store w ∧ bus (m w).2 = bus w.

Lemma quiet_ret {A} (a : A) : quiet (mret a).
Proof. done. Qed.

Lemma quiet_bind {A B} (m : WM A) (k : A → WM B) : quiet m → (∀ a, quiet (k a)) → quiet (m ≫= k).
Proof.
  intros Hm Hk w. unfold mbind, M_bind. specialize (Hm w). destruct (m w) as [[a|e] w1]; simpl in *; [|done].
  destruct Hm as [<- <-]. apply Hk.
Qed.

Lemma quiet_get : quiet (get_state (S := World P)).
Proof. done. Qed.

Lemma quiet_throw {A} e : quiet (throw (A := A) e).
Proof. done. Qed.

Lemma quiet_on_approval {A} (f : P → A * P) : quiet (on_approval f).
Proof. intros w. unfold on_approval. by destruct (f (approval w)). Qed.

Lemma quiet_on_sent {A} (f : SentApprovalCache → A * SentApprovalCache) : quiet (on_sent f).
Proof. intros w. unfold on_sent. by destruct (f (sent w)). Qed.



Lemma quiet_channel `{FingerprintText} has_port delivery new_id req : quiet (channel_resolve has_port delivery new_id req).
Proof.
  unfold channel_resolve. destruct (negb has_port); [apply quiet_ret|]. apply quiet_bind.
  - unfold observe_delivered. apply quiet_bind; [apply quiet_get|]. intros w.
    destruct (delivered_approval _ _) as [[rid draft]|]; [|apply quiet_ret].
    apply quiet_bind; [apply quiet_get|]. intros w'. destruct (decision rid (approval w')).
    + apply quiet_ret.
    + apply quiet_bind; [apply quiet_on_approval|]. intros [n|]; [|apply quiet_ret].
      apply quiet_bind; [apply quiet_on_sent|]. intros _. apply quiet_ret.
    + apply quiet_bind; [apply quiet_on_approval|]. intros _.
      apply quiet_bind; [apply quiet_on_sent|]. intros _. apply quiet_ret.
  - intros [out|]; [apply quiet_ret|]. unfold send_or_wait. apply quiet_bind; [apply quiet_on_sent|].
    intros [rid| | |]; [|apply quiet_ret|apply quiet_throw|apply quiet_ret]. apply quiet_bind.
    + unfold deliver_approval_request. destruct delivery; [apply quiet_ret|..];
        (apply quiet_bind; [apply quiet_on_approval|]; intros r; apply quiet_ret).
    + intros ok. apply quiet_bind; [apply quiet_on_sent|]. intros _. apply quiet_ret.
Qed.

(** What the chain relies on: a resolver leaves the store and the bus alone,
    and one that abstains leaves everything alone. *)
Record well_behaved (r : Resolver P) : Prop := {
  wb_quiet req ctx : quiet (resolve r req ctx);
  wb_abstain req ctx w w' : resolve r req ctx w = (Ok ResolverOutcome.Abstain, w') → w' = w
}.

Lemma pure_well_behaved n f : well_behaved (mkResolver n (λ req ctx, mret (f req ctx))).
Proof. split; simpl; [by intros req ctx w|]. intros req ctx w w'. cbv [mret M_ret]. by intros [= _ <-]. Qed.

Lemma observe_not_abstain `{FingerprintText} fp w o w' :
  observe_delivered (P := P) fp w = (Ok (Some o), w') → o ≠ ResolverOutcome.Abstain.
Proof.
  unfold observe_delivered. intros (w1 & w2 & _ & Hrun)%M_bind_Ok.
  destruct (delivered_approval _ _) as [[rid draft]|]; [|by cbv [mret M_ret] in Hrun; simplify_eq].
  apply M_bind_Ok in Hrun as (w3 & w4 & _ & Hrun). destruct (decision rid (approval w3)).
  - by cbv [mret M_ret] in Hrun; simplify_eq.
  - apply M_bind_Ok in Hrun as ([n|] & w5 & _ & Hrun); [|by cbv [mret M_ret] in Hrun; simplify_eq].
    apply M_bind_Ok in Hrun as (? & w6 & _ & Hrun). by cbv [mret M_ret] in Hrun; simplify_eq.
  - apply M_bind_Ok in Hrun as (? & w5 & _ & Hrun). apply M_bind_Ok in Hrun as (? & w6 & _ & Hrun).
    by cbv [mret M_ret] in Hrun; simplify_eq.
Qed.

Lemma send_not_approve delivery new_id fp req w o w' :
  send_or_wait (P := P) delivery new_id fp req w = (Ok o, w') →
  o = ResolverOutcome.Pending ∨ o = ResolverOutcome.Deny UNAVAILABLE_REASON.
Proof.
  unfold send_or_wait. intros (a & w1 & _ & Hrun)%M_bind_Ok.
  destruct a; try (cbv [mret M_ret throw] in Hrun; simplify_eq; auto).
  apply M_bind_Ok in Hrun as (ok & w2 & _ & Hrun). apply M_bind_Ok in Hrun as (? & w3 & _ & Hrun).
  cbv [mret M_ret] in Hrun. destruct ok; simplify_eq; auto.
Qed.

Lemma channel_well_behaved `{FingerprintText} has_port delivery new_id :
  well_behaved (channel has_port delivery new_id).
Proof.
  split; simpl; [intros req ctx; apply quiet_channel|]. intros req ctx w w'. unfold channel_resolve.
  destruct (negb has_port); [cbv [mret M_ret]; by intros [= <-]|].
  intros (o & w1 & Hobs & Hrun)%M_bind_Ok. destruct o as [o|].
  - cbv [mret M_ret] in Hrun. simplify_eq. by apply observe_not_abstain in Hobs.
  - by apply send_not_approve in Hrun as [|].
Qed.

Lemma runtime_chain_well_behaved `{SubsetValidator, FingerprintText} budget has_port delivery new_id :
  Forall well_behaved (build_grant_resolver_chain budget has_port delivery new_id).
Proof.
  unfold build_grant_resolver_chain. rewrite !Forall_cons.
  split; [exact (pure_well_behaved _ _)|]. split; [exact (pure_well_behaved _ _)|].
  split; [exact (pure_well_behaved _ _)|]. split; [exact (channel_well_behaved _ _ _)|].
  split; [exact (pure_well_behaved _ _)|]. constructor.
Qed.

(** The event of one consulted resolver. *)
Definition invoked (req : GrantRequest.t) (r : Resolver P) (label : string) : Event :=
  resolver_invoked_event (GrantRequest.caller req) (GrantRequest.capability req) (name r) label.

Definition with_events (es : list Event) (w : World P) : World P :=
  mkWorld (approval w) (sent w) (world_store w) (bus w ++ es).

Lemma with_events_app es1 es2 w : with_events es2 (with_events es1 w) = with_events (es1 ++ es2) w.
Proof. unfold with_events. simpl. by rewrite (assoc_L (++)). Qed.

(** Every decided run: the resolvers before the one that decided abstained and
    left only their events. *)
Lemma evaluate_decided resolvers created now uuid insert req ctx : ∀ w d w',
  Forall well_behaved resolvers →
  evaluate_with_insert resolvers created now uuid insert req ctx w = (Ok d, w') →
  (∃ pre r post out w2,
    resolvers = pre ++ r :: post ∧ out ≠ ResolverOutcome.Abstain ∧
    resolve r req ctx (with_events ((λ r, invoked req r "abstain") <$> pre) w) = (Ok out, w2) ∧
    conclude created now uuid (name r) insert req out (with_events [invoked req r (decision_label out)] w2) =
      (Ok (Some d), w')) ∨
  (d = ChainDecision.Denied "no resolver matched" ∧
   ∀ pre r post, resolvers = pre ++ r :: post → ∃ w1 w2, resolve r req ctx w1 = (Ok ResolverOutcome.Abstain, w2)).
Proof.
  induction resolvers as [|r resolvers IH]; intros w d w' Hq; cbn [evaluate_with_insert].
  { intros [= <- <-]. right. split; [done|]. by intros [|? pre]. }
  apply Forall_cons in Hq as [Hqr Hq].
  intros (out & w2 & Hres & Hrun)%M_bind_Ok.
  change ((decided ← conclude created now uuid (name r) insert req out;
           match decided with
           | Some d => mret d
           | None => evaluate_with_insert resolvers created now uuid insert req ctx
           end) (with_events [invoked req r (decision_label out)] w2) = (Ok d, w')) in Hrun.
  apply M_bind_Ok in Hrun as (decided & w4 & Hcon & Hrun).
  assert (with_events [] w = w) as Hnil by (unfold with_events; rewrite app_nil_r; by destruct w).
  destruct decided as [d'|].
  - cbv [mret M_ret] in Hrun. simplify_eq. left.
    exists [], r, resolvers, out, w2. split_and!; [done| |by rewrite fmap_nil, Hnil|done].
    intros ->. unfold conclude in Hcon. cbv [mret M_ret] in Hcon. by simplify_eq.
  - assert (out = ResolverOutcome.Abstain ∧ w4 = with_events [invoked req r (decision_label out)] w2) as [-> ->].
    { unfold conclude in Hcon. destruct out; [|by cbv [mret M_ret] in Hcon; simplify_eq..].
      apply M_bind_Ok in Hcon as (? & ? & _ & Hcon). apply M_bind_Ok in Hcon as (? & ? & _ & Hcon).
      by cbv [mret M_ret] in Hcon; simplify_eq. }
    pose proof Hres as Hw2. apply (wb_abstain r Hqr) in Hw2. subst w2.
    destruct (IH _ d w' Hq Hrun) as [(pre & r' & post & o & w2' & -> & Ho & Hr & Hc)|[-> Hall]].
    + left. exists (r :: pre), r', post, o, w2'. split_and!; [done|done| |done].
      rewrite fmap_cons. change (?x :: ?l) with ([x] ++ l). by rewrite <- with_events_app.
    + right. split; [done|]. intros [|x pre] r' post Heq; simplify_eq/=; [by eexists _, _|by eapply Hall].
Qed.
End chain.

(** ** The runtime's chain *)

Section runtime.
Context {P : Type} `{ChannelApprovalPort P, Chrono, Codec, V : SubsetValidator, FingerprintText}.

Lemma runtime_chain_split budget has_port delivery new_id pre (r : Resolver P) post :
  build_grant_resolver_chain budget has_port delivery new_id = pre ++ r :: post →
  r = subset_auto_approve ∨ r = budget_check (Some budget) ∨ r = parent_approval false false ∨
  r = channel has_port delivery new_id ∨ (r = auto_deny ∧ post = []).
Proof.
  unfold build_grant_resolver_chain.
  destruct pre as [|? [|? [|? [|? [|? pre]]]]]; intros Heq; injection Heq; intros; subst; auto 10.
  by destruct pre.
Qed.

Lemma auto_approve_inv req ctx w out w' :
  resolve (P := P) subset_auto_approve req ctx w = (Ok out, w') →
  w' = w ∧
  (out = ResolverOutcome.Abstain ∨
   out = ResolverOutcome.Approve (grant_draft_from_request req) ∧
   ∃ p, p ∈ ResolverContext.parent_grants ctx ∧ parent_covers req p = true).
Proof.
  simpl. cbv [mret M_ret]. destruct (existsb _ _) eqn:Hex; intros [= <- <-]; [|by auto].
  split; [done|]. right. split; [done|]. apply existsb_exists in Hex as (p & Hp & Hc).
  exists p. split; [by apply list_elem_of_In|done].
Qed.

Lemma budget_inv budget req ctx w out w' : resolve (P := P) (budget_check (Some budget)) req ctx w = (Ok out, w') →
  w' = w ∧ (out = ResolverOutcome.Abstain ∨ ∃ reason, out = ResolverOutcome.Deny reason).
Proof.
  simpl. cbv [mret M_ret]. intros [= <- <-]. split; [done|].
  destruct (ResolverContext.run_id ctx) as [rid|]; [|by left]. destruct (budget rid); eauto.
Qed.

(** Which resolver of the runtime's chain can do what. *)
Lemma runtime_outcomes budget has_port delivery new_id pre r post req ctx w out w' :
  build_grant_resolver_chain budget has_port delivery new_id = pre ++ r :: post →
  resolve (P := P) r req ctx w = (Ok out, w') → out ≠ ResolverOutcome.Abstain →
  match out with
  | ResolverOutcome.Approve _ => r = subset_auto_approve ∨ r = channel has_port delivery new_id
  | ResolverOutcome.Pending => r = channel has_port delivery new_id
  | _ => True
  end.
Proof.
  intros Hsplit Hres Hne. apply runtime_chain_split in Hsplit as [->|[->|[->|[->|[-> _]]]]].
  - apply auto_approve_inv in Hres as [_ [->|[-> _]]]; [done|by left].
  - apply budget_inv in Hres as [_ [->|[reason ->]]]; done.
  - simpl in Hres. cbv [mret M_ret] in Hres. by simplify_eq.
  - destruct out; auto.
  - simpl in Hres. cbv [mret M_ret] in Hres. by simplify_eq.
Qed.

(** The runtime's chain never falls through: its last resolver denies. *)
Lemma runtime_decided budget has_port delivery new_id created now uuid insert req ctx w d w' :
  evaluate_with_insert (P := P) (build_grant_resolver_chain budget has_port delivery new_id) created now uuid insert req ctx w
    = (Ok d, w') →
  ∃ pre r post out w2,
    build_grant_resolver_chain budget has_port delivery new_id = pre ++ r :: post ∧ out ≠ ResolverOutcome.Abstain ∧
    resolve r req ctx (with_events ((λ r, invoked req r "abstain") <$> pre) w) = (Ok out, w2) ∧
    conclude created now uuid (name r) insert req out (with_events [invoked req r (decision_label out)] w2) =
      (Ok (Some d), w').
Proof.
  intros Hrun. apply evaluate_decided in Hrun as [Hev|[_ Hall]]; [exact Hev| |apply runtime_chain_well_behaved].
  (* had every resolver abstained, so would the last, which denies *)
  destruct (Hall [subset_auto_approve; budget_check (Some budget); parent_approval false false;
                  channel has_port delivery new_id] auto_deny []) as (w1 & w2 & Hres); [done|].
  simpl in Hres. cbv [mret M_ret] in Hres. by simplify_eq.
Qed.
End runtime.

Section conclusions.
Context `{Chrono, Codec, FingerprintText, EntryOrder, V : SubsetValidator}.

Lemma conclude_inv created now uuid rname req out (w : World PendingRegistry) d w' :
  conclude created now uuid rname insert_dynamic_inner req out w = (Ok (Some d), w') →
  approval w' = approval w ∧ sent w' = sent w ∧ bus w' = bus w ∧
  match d with
  | ChainDecision.Approved id =>
      ∃ draft expires, out = ResolverOutcome.Approve draft ∧ id = uuid ∧
        installs (issued_grant created expires uuid rname req draft) (world_store w) (world_store w')
  | _ => grants (world_store w') = grants (world_store w)
  end.
Proof.
  unfold conclude. destruct out as [draft|reason| |].
  - intros (expires & w1 & [_ <-]%lift_Ok & Hrun)%M_bind_Ok.
    apply M_bind_Ok in Hrun as (r & w2 & Hins & Hrun). cbv [mret M_ret] in Hrun. injection Hrun as <- <-.
    unfold on_world_store in Hins.
    destruct (insert_dynamic_inner _ (world_store w)) as [r' g'] eqn:Hrun. injection Hins as <- <-. simpl.
    split_and!; [done..|]. apply insert_dynamic_inner_cases in Hrun as [(e & -> & Hun)|(-> & Hin & _)].
    + by apply unchanged_fields in Hun as (? & _).
    + by exists draft, expires.
  - cbv [mret M_ret]. intros [= <- <-]. done.
  - cbv [mret M_ret]. intros [= <- <-]. done.
  - by cbv [mret M_ret].
Qed.

Lemma channel_approves has_port delivery new_id req (w : World PendingRegistry) draft w' :
  channel_resolve has_port delivery new_id req w = (Ok (ResolverOutcome.Approve draft), w') →
  ∃ rid delivered n reg,
    seen (sent w) !! channel_request_fingerprint req = Some (SentApprovalState.Delivered rid delivered) ∧
    take_approved rid (approval w) = (Some n, reg) ∧ draft = approved_draft delivered n.
Proof.
  unfold channel_resolve. destruct (negb has_port); [by cbv [mret M_ret]|].
  intros (o & w1 & Hobs & Hrun)%M_bind_Ok. destruct o as [o|].
  2:{ by apply send_not_approve in Hrun as [|]. }
  cbv [mret M_ret] in Hrun. simplify_eq. unfold observe_delivered in Hobs.
  apply M_bind_Ok in Hobs as (w1 & w2 & [= <- <-] & Hobs). unfold delivered_approval in Hobs.
  destruct (seen (sent w) !! channel_request_fingerprint req) as [[rid del|rid del]|] eqn:Hseen;
    [by cbv [mret M_ret] in Hobs; simplify_eq| |by cbv [mret M_ret] in Hobs; simplify_eq].
  apply M_bind_Ok in Hobs as (w1 & w2 & [= <- <-] & Hobs). destruct (decision rid (approval w)).
  - by cbv [mret M_ret] in Hobs; simplify_eq.
  - apply M_bind_Ok in Hobs as (o & w3 & Htake & Hobs). unfold on_approval in Htake.
    destruct (take_approved rid (approval w)) as [o' reg] eqn:Hta. injection Htake as <- <-.
    destruct o' as [n|]; [|by cbv [mret M_ret] in Hobs; simplify_eq].
    apply M_bind_Ok in Hobs as (? & w4 & _ & Hobs). cbv [mret M_ret] in Hobs. simplify_eq.
    by exists rid, del, n, reg.
  - apply M_bind_Ok in Hobs as (? & w3 & _ & Hobs). apply M_bind_Ok in Hobs as (? & w4 & _ & Hobs).
    by cbv [mret M_ret] in Hobs; simplify_eq.
Qed.
End conclusions.

(** ** Properties *)

(** A request gets no authority from nowhere.  When the runtime's chain,
    run over a cache and an intake that any interleaving may have led to,
    approves a request, exactly one grant is added: the caller's, active, for
    the requested capability and TTL, and everything it covers is covered by
    an active grant the caller was shown to hold, or by what an operator
    approved for a request of the same caller.  Any other decision leaves the
    grants as they were. *)
Lemma request_traced
    `{Chrono, Codec, FingerprintText, !FingerprintTextLaws, EntryOrder, !EntryOrderLaws}
    (limit : Z) (s : Race) budget has_port delivery new_id created now uuid req ctx
    (w : World PendingRegistry) (d : ChainDecision.t) (w' : World PendingRegistry) :
  let V := SubsetValidatorImpl in
  reachable limit s → sent w = cache s → approval w = registry s →
  evaluate_with_dynamic_insert_barrier (build_grant_resolver_chain budget has_port delivery new_id)
    created now uuid req ctx w = (Ok d, w') →
  match d with
  | ChainDecision.Approved id =>
      ∃ g held, Grant.id g = id ∧ grants (world_store w') = <[id := g]> (grants (world_store w)) ∧
        Grant.grantee g = GrantRequest.caller req ∧ Grant.capability g = GrantRequest.capability req ∧
        Grant.ttl g = GrantRequest.ttl req ∧ Grant.is_active g = true ∧
        (∀ call, covers_request g call = Ok tt → covers_request held call = Ok tt) ∧
        (held ∈ ResolverContext.parent_grants ctx ∧ Grant.grantee held = GrantRequest.caller req ∧
           Grant.is_active held = true ∨
         ∃ rid q narrowed, (rid, narrowed) ∈ approvals s ∧ owner s !! rid = Some q ∧
           GrantRequest.caller q = GrantRequest.caller req ∧
           Grant.capability held = GrantRequest.capability q ∧
           Grant.params held = approved_params q narrowed ∧
           ∀ asked call, Grant.capability asked = GrantRequest.capability q →
             Grant.params asked = default [] (GrantRequest.params q) →
             covers_request held call = Ok tt → covers_request asked call = Ok tt)
  | _ => grants (world_store w') = grants (world_store w)
  end.
Proof.
  intros V Hreach Hsent Happ Hrun.
  apply runtime_decided in Hrun as (pre & r & post & out & w2 & Hsplit & Hne & Hres & Hcon).
  assert (world_store w2 = world_store w) as Hstore.
  { pose proof (runtime_chain_well_behaved (P := PendingRegistry) budget has_port delivery new_id) as Hwb.
    rewrite Hsplit in Hwb. apply Forall_app in Hwb as [_ [Hr _]%Forall_cons].
    pose proof (wb_quiet r Hr req ctx (with_events ((λ r, invoked req r "abstain") <$> pre) w)) as [Hq _].
    by rewrite Hres in Hq. }
  apply conclude_inv in Hcon as (_ & _ & _ & Hcon). cbn [with_events world_store] in Hcon. rewrite Hstore in Hcon.
  destruct d as [id| |]; [|exact Hcon..]. destruct Hcon as (draft & expires & -> & -> & Hins).
  pose proof (runtime_outcomes _ _ _ _ _ _ _ _ _ _ _ _ Hsplit Hres Hne) as [->| ->]; simpl in Hres.
  - apply auto_approve_inv in Hres as [_ [|[Hd (p & Hp & Hc)]]]; [done|]. simplify_eq.
    unfold parent_covers in Hc. b2p. exists (issued_grant created expires uuid "SubsetAutoApprove" req (grant_draft_from_request req)), p.
    split_and!; try done; [apply Hins| |by left].
    intros call. eapply covers_request_mono; [by apply is_ok_unit|done|done].
  - apply channel_approves in Hres as (rid & del & n & reg & Hseen & Htake & ->). cbn [with_events sent approval] in *.
    rewrite Hsent in Hseen. rewrite Happ in Htake.
    pose proof (traced_reachable limit s Hreach) as Htr.
    destruct (tr_seen s Htr _ _ Hseen) as (q & Hq & Hfp & Hdel). simpl in Hdel, Hq. subst del.
    destruct (fingerprint_same q req Hfp) as (Hcaller & Hcap & Httl & _ & _).
    simpl in Htake. destruct (entries (registry s) !! rid) as [e|] eqn:He; [|done].
    simpl in Htake. destruct (PendingEntry.decision e) as [|n'|] eqn:Hd; [done| |done]. simplify_eq.
    destruct (tr_entry s Htr rid e He) as (q' & Hq' & _ & Hlog). rewrite Hd in Hlog.
    assert (q' = q) as -> by congruence.
    destruct (tr_approval s Htr rid n Hlog) as (q' & Hq'' & Hw). assert (q' = q) as -> by congruence.
    set (g := issued_grant created expires uuid "Channel" req (approved_draft (grant_draft_from_request q) n)).
    exists g, g.
    split_and!; [done|apply Hins|done| | |done|done|].
    + unfold g. destruct n; simpl; congruence.
    + unfold g. destruct n; simpl; congruence.
    + right. exists rid, q, n. split_and!; [done..|by destruct n|by destruct n|].
      intros asked call Hac Hap'. destruct n as [ps|].
      * destruct Hw as (_ & at_ & Hv).
        apply (covers_request_mono asked g (GrantDraft.mk (GrantRequest.capability q) ps (GrantRequest.ttl q))); [|done|done].
        etrans; [|exact Hv]. symmetry. by apply (validate_content (V := SubsetValidatorImpl)).
      * unfold covers_request, SubsetValidatorImpl. rewrite Hac, Hap'. exact id.
Qed.

(** The chain's audit trail.  A decided run emits one [resolver.invoked]
    event per resolver it consulted, in the order of the chain: the earlier
    ones abstained, the last one decided, only the auto-approver and the
    channel approve, only the channel leaves a request pending, and the chain
    never ends without a decision of its own. *)
Theorem chain_audits `{Chrono, Codec, FingerprintText, EntryOrder, V : SubsetValidator}
    budget has_port delivery new_id created now uuid req ctx (w : World PendingRegistry) d w' :
  evaluate_with_dynamic_insert_barrier (build_grant_resolver_chain budget has_port delivery new_id)
    created now uuid req ctx w = (Ok d, w') →
  ∃ pre r post label,
    build_grant_resolver_chain (P := PendingRegistry) budget has_port delivery new_id = pre ++ r :: post ∧
    bus w' = bus w ++ ((λ r, invoked req r "abstain") <$> pre) ++ [invoked req r label] ∧
    match d with
    | ChainDecision.Approved _ => label = "approve" ∧ name r ∈ ["SubsetAutoApprove"; "Channel"]
    | ChainDecision.Pending => label = "abstain" ∧ name r = "Channel"
    | ChainDecision.Denied _ => label ∈ ["approve"; "deny"]
    end.
Proof.
  intros Hrun. apply runtime_decided in Hrun as (pre & r & post & out & w2 & Hsplit & Hne & Hres & Hcon).
  assert (bus w2 = bus w ++ ((λ r, invoked req r "abstain") <$> pre)) as Hbus.
  { pose proof (runtime_chain_well_behaved (P := PendingRegistry) budget has_port delivery new_id) as Hwb.
    rewrite Hsplit in Hwb. apply Forall_app in Hwb as [_ [Hr _]%Forall_cons].
    pose proof (wb_quiet r Hr req ctx (with_events ((λ r, invoked req r "abstain") <$> pre) w)) as [_ Hq].
    by rewrite Hres in Hq. }
  pose proof (runtime_outcomes _ _ _ _ _ _ _ _ _ _ _ _ Hsplit Hres Hne) as Hwho.
  pose proof Hcon as Hc. apply conclude_inv in Hc as (_ & _ & Hb & Hd).
  exists pre, r, post, (decision_label out). split; [exact Hsplit|]. split.
  { rewrite Hb. cbn [with_events bus]. by rewrite Hbus, (assoc_L (++)). }
  destruct out as [draft|reason| |]; [| | |done].
  - destruct d as [id|reason|]; simpl.
    + split; [done|]. destruct Hwho as [->| ->]; simpl; rewrite !elem_of_cons; auto.
    + left.
    + exfalso. unfold conclude in Hcon. apply M_bind_Ok in Hcon as (? & ? & _ & Hcon).
      apply M_bind_Ok in Hcon as (ins & ? & _ & Hcon). cbv [mret M_ret] in Hcon. by destruct ins; simplify_eq.
  - unfold conclude in Hcon. cbv [mret M_ret] in Hcon. simplify_eq. simpl. rewrite !elem_of_cons. auto.
  - unfold conclude in Hcon. cbv [mret M_ret] in Hcon. simplify_eq. simpl. done.
Qed.

(** ** The resolver alone and the interleaved system *)

Section alone.
Context `{FingerprintText, EntryOrder, V : SubsetValidator}.

(** Only retry [tid] and the worker move. *)
Definition moves_only (tid : nat) (c : choice) : bool :=
  match c with Advance tid' _ _ => bool_decide (tid' = tid) | Serve => true | _ => false end.

Definition sched (tid : nat) (cs : list choice) (s : Race) (out : ResolverOutcome.t) (w : World PendingRegistry) : Prop :=
  forallb (moves_only tid) cs = true ∧
  ∃ s', run_schedule cs s = Some s' ∧ Retry.pc <$> retries s' !! tid = Some (Pc.Return out) ∧
    cache s' = sent w ∧ registry s' = approval w.

Lemma step_advance tid new_id alt r s :
  step (Advance tid new_id alt) (set_retry tid r s) = advance tid new_id alt r (set_retry tid r s).
Proof. simpl. by rewrite lookup_insert_eq. Qed.

Lemma moves_self tid new_id alt : moves_only tid (Advance tid new_id alt) = true.
Proof. simpl. by apply bool_decide_eq_true. Qed.

(** A step of the retry in front of a schedule. *)
Lemma sched_advance tid new_id alt r s s1 cs out w :
  advance tid new_id alt r (set_retry tid r s) = Some s1 → sched tid cs s1 out w →
  sched tid (Advance tid new_id alt :: cs) (set_retry tid r s) out w.
Proof.
  intros Hadv (Hcs & s' & Hrun & ?). split.
  - cbn [forallb]. by rewrite moves_self, Hcs.
  - exists s'. split; [|done]. cbn [run_schedule]. by rewrite step_advance, Hadv.
Qed.

Lemma sched_serve tid s s1 cs out w :
  step Serve s = Some s1 → sched tid cs s1 out w → sched tid (Serve :: cs) s out w.
Proof.
  intros Hserve (Hcs & s' & Hrun & ?). split; [done|]. exists s'. split; [|done].
  cbn [run_schedule]. by rewrite Hserve.
Qed.

Lemma sched_done tid req out s w : cache s = sent w → registry s = approval w →
  sched tid [] (set_retry tid (Retry.mk req (Pc.Return out)) s) out w.
Proof. intros Hc Hr. split; [done|]. eexists. split; [done|]. simpl. by rewrite lookup_insert_eq. Qed.

(** The part from [pending_delivery_action] on. *)
Lemma send_sched tid new_id delivery req s st b out w' :
  owner s !! new_id = None → jobs s = [] →
  send_or_wait delivery new_id (channel_request_fingerprint req) req (mkWorld (registry s) (cache s) st b) = (Ok out, w') →
  ∃ cs, sched tid cs (set_retry tid (Retry.mk req Pc.Begin) s) out w'.
Proof.
  intros Hfresh Hjobs. unfold send_or_wait. intros (a & w1 & Hb & Hrun)%M_bind_Ok.
  unfold on_sent in Hb. cbn [sent approval world_store bus] in Hb.
  destruct (begin_delivery new_id _ _ (cache s)) as [a' c] eqn:Hbegin. injection Hb as -> <-.
  destruct a as [rid| | |].
  - apply M_bind_Ok in Hrun as (ok & w2 & Hdel & Hrun). apply M_bind_Ok in Hrun as ([] & w3 & Hfin & Hrun).
    cbv [mret M_ret] in Hrun. injection Hrun as <- <-. unfold finish_pending_delivery, on_sent in Hfin. injection Hfin as <-.
    assert (∀ alt, advance tid new_id alt (Retry.mk req Pc.Begin) (set_retry tid (Retry.mk req Pc.Begin) s) =
      Some (set_retry tid (Retry.mk req (Pc.Send rid))
              (draw rid req (set_cache c (set_retry tid (Retry.mk req Pc.Begin) s))))) as Hadv.
    { intros alt. unfold advance. cbn [Retry.pc Retry.req set_retry owner cache]. by rewrite Hfresh, Hbegin. }
    destruct delivery; unfold deliver_approval_request in Hdel.
    + cbv [mret M_ret] in Hdel. injection Hdel as <- <-.
      exists [Advance tid new_id true; Advance tid new_id true; Advance tid new_id true].
      eapply sched_advance; [apply Hadv|]. eapply sched_advance; [done|]. eapply sched_advance; [done|].
      by apply sched_done.
    + apply M_bind_Ok in Hdel as (r & w3 & Hreq & Hdel). cbv [mret M_ret] in Hdel. injection Hdel as <- <-.
      unfold on_approval in Hreq. cbn [approval] in Hreq.
      destruct (request_approval _ (registry s)) as [r' reg] eqn:Hpark. injection Hreq as <- <-.
      exists [Advance tid new_id false; Advance tid new_id false; Serve; Advance tid new_id false; Advance tid new_id false].
      eapply sched_advance; [apply Hadv|]. eapply sched_advance; [done|].
      eapply sched_serve. { cbn. rewrite Hjobs. cbn. cbn in Hpark. by rewrite Hpark. }
      change (set_replies ?rs (set_registry ?rg (set_jobs ?js (set_retry tid ?r ?x)))) with
        (set_retry tid r (set_replies rs (set_registry rg (set_jobs js x)))).
      eapply sched_advance. { unfold advance. cbn. by rewrite lookup_insert_eq. }
      eapply sched_advance; [done|]. by apply sched_done.
    + apply M_bind_Ok in Hdel as (r & w3 & Hreq & Hdel). cbv [mret M_ret] in Hdel. injection Hdel as <- <-.
      unfold on_approval in Hreq. cbn [approval] in Hreq.
      destruct (request_approval _ (registry s)) as [r' reg] eqn:Hpark. injection Hreq as <- <-.
      exists [Advance tid new_id false; Advance tid new_id false; Serve; Advance tid new_id true; Advance tid new_id false].
      eapply sched_advance; [apply Hadv|]. eapply sched_advance; [done|].
      eapply sched_serve. { cbn. rewrite Hjobs. cbn. cbn in Hpark. by rewrite Hpark. }
      change (set_replies ?rs (set_registry ?rg (set_jobs ?js (set_retry tid ?r ?x)))) with
        (set_retry tid r (set_replies rs (set_registry rg (set_jobs js x)))).
      eapply sched_advance; [done|]. eapply sched_advance; [done|]. by apply sched_done.
  - cbv [mret M_ret] in Hrun. injection Hrun as <- <-. exists [Advance tid new_id false].
    eapply sched_advance; [unfold advance; cbn [Retry.pc Retry.req set_retry owner cache]; by rewrite Hfresh, Hbegin|].
    by apply sched_done.
  - by cbv [throw] in Hrun.
  - cbv [mret M_ret] in Hrun. injection Hrun as <- <-. exists [Advance tid new_id false].
    eapply sched_advance; [unfold advance; cbn [Retry.pc Retry.req set_retry owner cache]; by rewrite Hfresh, Hbegin|].
    by apply sched_done.
Qed.

Lemma set_retry_twice tid r r' s : set_retry tid r (set_retry tid r' s) = set_retry tid r s.
Proof. unfold set_retry. simpl. by rewrite insert_insert_eq. Qed.

(** The part before it. *)
Lemma observe_sched tid req s st b o w1 :
  observe_delivered (channel_request_fingerprint req) (mkWorld (registry s) (cache s) st b) = (Ok o, w1) →
  match o with
  | Some out => ∃ cs, sched tid cs (set_retry tid (Retry.mk req Pc.Look) s) out w1
  | None =>
      w1 = mkWorld (registry s) (cache s) st b ∧
      ∀ cs out w', sched tid cs (set_retry tid (Retry.mk req Pc.Begin) s) out w' →
        ∃ cs', sched tid cs' (set_retry tid (Retry.mk req Pc.Look) s) out w'
  end.
Proof.
  unfold observe_delivered. intros (w0 & w2 & [= <- <-] & Hobs)%M_bind_Ok. cbn [sent] in Hobs.
  destruct (delivered_approval _ (cache s)) as [[rid draft]|] eqn:Hdel.
  2:{ cbv [mret M_ret] in Hobs. injection Hobs as <- <-. split; [done|]. intros cs out w' Hs.
      exists (Advance tid "" false :: cs). eapply sched_advance.
      { unfold advance. cbn [Retry.pc Retry.req set_retry cache]. by rewrite Hdel. }
      change (sched tid cs (set_retry tid (Retry.mk req Pc.Begin) (set_retry tid (Retry.mk req Pc.Look) s)) out w').
      by rewrite set_retry_twice. }
  apply M_bind_Ok in Hobs as (w0 & w2 & [= <- <-] & Hobs). cbn [approval] in Hobs.
  assert (∀ r, advance tid "" false (Retry.mk req Pc.Look) (set_retry tid r s) =
    Some (set_retry tid (Retry.mk req (Pc.Ask rid draft)) (set_retry tid r s))) as Hlook.
  { intros r. unfold advance. cbn [Retry.pc Retry.req set_retry cache]. by rewrite Hdel. }
  destruct (decision rid (registry s)) as [| |reason] eqn:Hdec.
  - cbv [mret M_ret] in Hobs. injection Hobs as <- <-. split; [done|]. intros cs out w' Hs.
    exists (Advance tid "" false :: Advance tid "" false :: cs). eapply sched_advance; [apply Hlook|].
    eapply sched_advance. { unfold advance. cbn [Retry.pc Retry.req set_retry registry]. by rewrite Hdec. }
    by rewrite !set_retry_twice.
  - apply M_bind_Ok in Hobs as (taken & w2 & Htake & Hobs). unfold on_approval in Htake. cbn [approval] in Htake.
    destruct (take_approved rid (registry s)) as [tk reg] eqn:Hta. injection Htake as <- <-.
    destruct tk as [n|].
    2:{ exfalso. simpl in Hta, Hdec. destruct (entries (registry s) !! rid) as [e|]; [|done].
        simpl in Hta. by destruct (PendingEntry.decision e). }
    apply M_bind_Ok in Hobs as ([] & w2 & Hf & Hobs). cbv [mret M_ret] in Hobs. injection Hobs as <- <-.
    unfold forget_sent, on_sent in Hf. injection Hf as <-.
    exists [Advance tid "" false; Advance tid "" false; Advance tid "" false; Advance tid "" false].
    eapply sched_advance; [apply Hlook|].
    eapply sched_advance. { unfold advance. cbn [Retry.pc Retry.req set_retry registry]. by rewrite Hdec. }
    eapply sched_advance. { unfold advance. cbn [Retry.pc Retry.req set_retry registry]. by rewrite Hta. }
    eapply sched_advance; [done|]. by apply sched_done.
  - apply M_bind_Ok in Hobs as (u & w2 & Hr & Hobs). unfold on_approval in Hr. injection Hr as <- <-.
    apply M_bind_Ok in Hobs as ([] & w2 & Hf & Hobs). cbv [mret M_ret] in Hobs. injection Hobs as <- <-.
    unfold forget_sent, on_sent in Hf. injection Hf as <-.
    exists [Advance tid "" false; Advance tid "" false; Advance tid "" false; Advance tid "" false].
    eapply sched_advance; [apply Hlook|].
    eapply sched_advance. { unfold advance. cbn [Retry.pc Retry.req set_retry registry]. by rewrite Hdec. }
    eapply sched_advance; [done|]. eapply sched_advance; [done|]. by apply sched_done.
Qed.

(** The straight-line resolver is one schedule of the interleaved system:
    run alone, with no job queued, every outcome it returns is reached by
    spawning a retry and letting only that retry and the worker move, and the
    cache and the registry end the same.  What holds of every schedule
    therefore holds of it. *)
Theorem channel_resolve_refines (s : Race) tid new_id delivery req st b out w' :
  retries s !! tid = None → owner s !! new_id = None → jobs s = [] →
  channel_resolve true delivery new_id req (mkWorld (registry s) (cache s) st b) = (Ok out, w') →
  ∃ cs s', run_schedule (Spawn tid req :: cs) s = Some s' ∧ forallb (moves_only tid) cs = true ∧
    Retry.pc <$> retries s' !! tid = Some (Pc.Return out) ∧ cache s' = sent w' ∧ registry s' = approval w'.
Proof.
  intros Hnone Hfresh Hjobs Hrun. unfold channel_resolve in Hrun. cbn [negb] in Hrun.
  apply M_bind_Ok in Hrun as (o & w1 & Hobs & Hrun). apply (observe_sched tid) in Hobs.
  assert (∃ cs, sched tid cs (set_retry tid (Retry.mk req Pc.Look) s) out w') as (cs & Hcs & s' & Hs & Hpc & Hc & Hr).
  { destruct o as [out'|].
    - cbv [mret M_ret] in Hrun. by injection Hrun as <- <-.
    - destruct Hobs as [-> Hobs]. apply (send_sched tid) in Hrun as [cs Hs]; [|done|done]. by eapply Hobs. }
  exists cs, s'. split_and!; try done. cbn [run_schedule step]. by rewrite Hnone.
Qed.
End alone.

(** ** Witnesses *)

#[local] Existing Instances fingerprint_model fingerprint_model_laws entry_order_model entry_order_model_laws
  SubsetValidatorImpl chrono_model codec_model.

Definition sample_world (s : Race) : World PendingRegistry :=
  mkWorld (registry s) (cache s) (new_store (mkSqlite ∅ [])) [].

(** The state after the operator narrowed the parked request. *)
Definition sample_decided : Race := run_from_start 4 (take 9 sample_schedule).

Lemma sample_decided_reachable : reachable 4 sample_decided.
Proof. apply run_from_start_reachable. vm_compute. reflexivity. Qed.

Definition sample_budget : string → BudgetDecision.t := λ _, BudgetDecision.Allow.
Definition sample_ctx : ResolverContext.t := ResolverContext.mk [] None.

Definition sample_evaluation : result Stuck.t ChainDecision.t * World PendingRegistry :=
  evaluate_with_dynamic_insert_barrier (build_grant_resolver_chain sample_budget true InTime "u2")
    10 10 "grant-1" sample_ask sample_ctx (sample_world sample_decided).

Lemma sample_evaluation_approved : sample_evaluation.1 = Ok (ChainDecision.Approved "grant-1").
Proof. vm_compute. reflexivity. Qed.

Lemma sample_evaluation_run : sample_evaluation = (Ok (ChainDecision.Approved "grant-1"), sample_evaluation.2).
Proof. rewrite <- sample_evaluation_approved. by destruct sample_evaluation. Qed.

Lemma chain_audits_witness :
  ∃ pre r post label,
    build_grant_resolver_chain (P := PendingRegistry) sample_budget true InTime "u2" = pre ++ r :: post ∧
    label = "approve" ∧
    bus sample_evaluation.2 = ((λ r, invoked sample_ask r "abstain") <$> pre) ++ [invoked sample_ask r label].
Proof.
  destruct (chain_audits sample_budget true InTime "u2" 10 10 "grant-1" sample_ask sample_ctx
    (sample_world sample_decided) (ChainDecision.Approved "grant-1") sample_evaluation.2)
    as (pre & r & post & label & Hsplit & Hbus & Hl & _); [apply sample_evaluation_run|].
  exists pre, r, post, label. split; [exact Hsplit|]. split; [exact Hl|exact Hbus].
Defined.

Lemma channel_resolve_refines_witness :
  ∃ cs s', run_schedule (Spawn 9 sample_ask :: cs) (race_start 4) = Some s' ∧
    Retry.pc <$> retries s' !! 9%nat = Some (Pc.Return ResolverOutcome.Pending).
Proof.
  destruct (channel_resolve_refines (race_start 4) 9 "u1" InTime sample_ask (new_store (mkSqlite ∅ [])) []
    ResolverOutcome.Pending (channel_resolve true InTime "u1" sample_ask (sample_world (race_start 4))).2)
    as (cs & s' & Hrun & _ & Hpc & _); [done|done|done| |by exists cs, s'].
  assert ((channel_resolve true InTime "u1" sample_ask (sample_world (race_start 4))).1 = Ok ResolverOutcome.Pending) as Hout
    by (vm_compute; reflexivity).
  rewrite <- Hout. by destruct (channel_resolve _ _ _ _ _).
Defined.
