(* ===== verification/Wit.v ===== *)
(** * The guest's interface to its grants

    Models [crates/capabilities/cap-grant/src/wit_impl.rs]: the seven
    [agent-grant] host functions, from the component-model values a guest
    passes to the values it gets back.  The caller is the agent of the call
    frame.  A handler decodes, checks and calls the store in its own error
    type; [answer] lowers the outcome to the WIT [result]. *)
From S2P Require Import Prelude RustStr GrantData Subset Cascade Events GrantSqlite GrantStore GrantCheck Preset ApprovalIntake SentCache Resolver.
Open Scope string_scope.
Open Scope list_scope.
Open Scope Z_scope.

(** ** Component values *)

(** [wasmtime::component::Val], with the cases the code builds or matches;
    [Other] is any other. *)
Module Val.
Inductive t :=
| String (s : string)
| U64 (n : Z)
| Record (fields : list (string * t))
| List (items : list t)
| Variant (case : string) (payload : option t)
| Option (o : option t)
| ResultOk (o : option t)
| ResultErr (o : option t)
| Other.
End Val.

(** What the handlers read of the call frame. *)
Module HostCallContext.
Record t := mk { agent_id : string; run_id : option string }.
End HostCallContext.

(** [HostCallError::HandlerError], or a wait that does not end (see [Stuck]). *)
Module HostCallError.
Inductive t := HandlerError (msg : string) | Waiting.
End HostCallError.

(** [s.parse::<DateTime<Utc>>()]. *)
Class ParseDate := parse_datetime : string → option Z.

(** It reads back what [to_rfc3339] writes. *)
Class ParseDateLaws `{Codec, ParseDate} : Prop :=
  parse_datetime_to_rfc3339 t : rfc3339_range t → parse_datetime (to_rfc3339 t) = Some t.

Definition MAX_CAPABILITY_BYTES : Z := 256.
Definition MAX_JUSTIFICATION_BYTES : Z := 1024.
Definition MAX_PARAM_KEY_BYTES : Z := 256.
Definition MAX_PARAM_VALUE_BYTES : Z := 4096.
Definition MAX_PARAMS_TOTAL_BYTES : Z := 4096.
Definition MAX_TARGET_BYTES : Z := 256.
Definition MAX_PRESET_NAME_BYTES : Z := 256.
Definition MAX_GRANT_ID_BYTES : Z := 256.
Definition MAX_ACTIVE_GRANTS_RESPONSE : nat := 1024.

Definition bad {A} (msg : string) : Result A := Err (CapGrantError.InvalidConfig msg).

(** ** Decoding *)

Definition cap_param_field (kv : option string * option string) (f : string * Val.t) : option string * option string :=
  match f with
  | ("key", Val.String s) => (Some s, kv.2)
  | ("value", Val.String s) => (kv.1, Some s)
  | _ => kv
  end.

Definition cap_param_from_val (v : Val.t) : Result CapParam.t :=
  match v with
  | Val.Record fields =>
      match foldl cap_param_field (None, None) fields with
      | (Some k, Some v) => Ok (CapParam.mk k v)
      | _ => bad "cap-param record missing key/value field"
      end
  | _ => bad "cap-param: expected Val::Record"
  end.

Definition cap_param_list_from_val (v : Val.t) : Result (list CapParam.t) :=
  match v with
  | Val.List items => try_map cap_param_from_val items
  | _ => bad "expected Val::List for cap-param list"
  end.

Definition grant_ttl_from_val `{ParseDate} (v : Val.t) : Result GrantTtl.t :=
  match v with
  | Val.Variant case payload =>
      match payload with
      | None =>
          if String.eqb case "once" then Ok GrantTtl.Once
          else if String.eqb case "lifecycle" then Ok GrantTtl.Lifecycle
          else if String.eqb case "persistent" then Ok GrantTtl.Persistent
          else bad "grant-ttl: unknown variant case"
      | Some (Val.U64 n) =>
          if String.eqb case "duration" then Ok (GrantTtl.Duration n) else bad "grant-ttl: unknown variant case"
      | Some (Val.String s) =>
          if String.eqb case "until" then
            match parse_datetime s with
            | Some t => Ok (GrantTtl.Until t)
            | None => bad "grant-ttl::until: invalid timestamp"
            end
          else bad "grant-ttl: unknown variant case"
      | Some _ => bad "grant-ttl: unknown variant case"
      end
  | _ => bad "grant-ttl: expected Val::Variant"
  end.

(** [for x in l { acc = f(acc, x)?; }]. *)
Fixpoint try_fold {A B E} (f : B → A → result E B) (acc : B) (l : list A) : result E B :=
  match l with
  | [] => Ok acc
  | x :: l => acc ← f acc x; try_fold f acc l
  end.

(** The three fields of [grant-request] read so far. *)
Record RequestFields := mkRequestFields {
  rf_capability : option string;
  rf_params : option (option (list CapParam.t));
  rf_justification : option (option string)
}.

Definition request_field (acc : RequestFields) (f : string * Val.t) : Result RequestFields :=
  match f.2 with
  | Val.String s =>
      if String.eqb f.1 "capability" then Ok (mkRequestFields (Some s) (rf_params acc) (rf_justification acc))
      else Ok acc
  | Val.Option opt =>
      if String.eqb f.1 "params" then
        match opt with
        | None => Ok (mkRequestFields (rf_capability acc) (Some None) (rf_justification acc))
        | Some inner =>
            ps ← cap_param_list_from_val inner;
            Ok (mkRequestFields (rf_capability acc) (Some (Some ps)) (rf_justification acc))
        end
      else if String.eqb f.1 "justification" then
        match opt with
        | None => Ok (mkRequestFields (rf_capability acc) (rf_params acc) (Some None))
        | Some (Val.String s) => Ok (mkRequestFields (rf_capability acc) (rf_params acc) (Some (Some s)))
        | Some _ => bad "grant-request: justification expected option<string>"
        end
      else Ok acc
  | _ => Ok acc
  end.

Definition grant_request_from_val (v : Val.t) : Result (string * option (list CapParam.t) * option string) :=
  match v with
  | Val.Record fields =>
      rf ← try_fold request_field (mkRequestFields None None None) fields;
      capability ← ok_or (rf_capability rf) (CapGrantError.InvalidConfig "grant-request: missing capability field");
      params ← ok_or (rf_params rf) (CapGrantError.InvalidConfig "grant-request: missing params field");
      justification ← ok_or (rf_justification rf) (CapGrantError.InvalidConfig "grant-request: missing justification field");
      Ok (capability, params, justification)
  | _ => bad "grant-request: expected Val::Record"
  end.

(** The three fields of [grant-draft] read so far. *)
Record DraftFields := mkDraftFields {
  df_capability : option string;
  df_params : option (list CapParam.t);
  df_ttl : option GrantTtl.t
}.

Definition draft_field `{ParseDate} (acc : DraftFields) (f : string * Val.t) : Result DraftFields :=
  if String.eqb f.1 "params" then
    ps ← cap_param_list_from_val f.2;
    Ok (mkDraftFields (df_capability acc) (Some ps) (df_ttl acc))
  else if String.eqb f.1 "ttl" then
    ttl ← grant_ttl_from_val f.2;
    Ok (mkDraftFields (df_capability acc) (df_params acc) (Some ttl))
  else
    match f.2 with
    | Val.String s =>
        if String.eqb f.1 "capability" then Ok (mkDraftFields (Some s) (df_params acc) (df_ttl acc)) else Ok acc
    | _ => Ok acc
    end.

Definition grant_draft_from_val `{ParseDate} (v : Val.t) : Result GrantDraft.t :=
  match v with
  | Val.Record fields =>
      df ← try_fold draft_field (mkDraftFields None None None) fields;
      capability ← ok_or (df_capability df) (CapGrantError.InvalidConfig "grant-draft: missing capability field");
      params ← ok_or (df_params df) (CapGrantError.InvalidConfig "grant-draft: missing params field");
      ttl ← ok_or (df_ttl df) (CapGrantError.InvalidConfig "grant-draft: missing ttl field");
      Ok (GrantDraft.mk capability params ttl)
  | _ => bad "grant-draft: expected Val::Record"
  end.

(** ** Encoding *)

Definition cap_param_to_val (p : CapParam.t) : Val.t :=
  Val.Record [("key", Val.String (CapParam.key p)); ("value", Val.String (CapParam.value p))].

Definition grant_ttl_to_val `{Codec} (t : GrantTtl.t) : Val.t :=
  match t with
  | GrantTtl.Once => Val.Variant "once" None
  | GrantTtl.Lifecycle => Val.Variant "lifecycle" None
  | GrantTtl.Persistent => Val.Variant "persistent" None
  | GrantTtl.Duration n => Val.Variant "duration" (Some (Val.U64 n))
  | GrantTtl.Until t => Val.Variant "until" (Some (Val.String (to_rfc3339 t)))
  end.

Definition grant_status_to_val (s : GrantStatus.t) : Val.t :=
  Val.Variant (match s with
               | GrantStatus.Active => "active"
               | GrantStatus.Consumed => "consumed"
               | GrantStatus.Expired => "expired"
               | GrantStatus.Revoked => "revoked"
               end) None.

Definition issuer_to_string (i : GrantIssuer.t) : string :=
  match i with
  | GrantIssuer.Config => "config"
  | GrantIssuer.Parent id => "parent:" +:+ id
  | GrantIssuer.Resolver name => "resolver:" +:+ name
  | GrantIssuer.Admin => "admin"
  end.

Definition provenance_to_string (p : GrantProvenance.t) : string :=
  match p with
  | GrantProvenance.StaticConfig => "static-config"
  | GrantProvenance.Delegated id => "delegated:" +:+ id
  | GrantProvenance.Requested => "requested"
  | GrantProvenance.Preset name => "preset:" +:+ name
  end.

Definition grant_info_to_val `{Codec} (g : Grant.t) : Val.t :=
  Val.Record [
    ("id", Val.String (Grant.id g));
    ("grantee", Val.String (Grant.grantee g));
    ("capability", Val.String (Grant.capability g));
    ("params", Val.List (cap_param_to_val <$> Grant.params g));
    ("ttl", grant_ttl_to_val (Grant.ttl g));
    ("issuer", Val.String (issuer_to_string (Grant.issuer g)));
    ("provenance", Val.String (provenance_to_string (Grant.provenance g)));
    ("status", grant_status_to_val (Grant.status g));
    ("created-at", Val.String (to_rfc3339 (Grant.created_at g)));
    ("expires-at", Val.Option (match Grant.expires_at g with
                               | Some t => Some (Val.String (to_rfc3339 t))
                               | None => None
                               end))].

Definition grant_info_list_to_val `{Codec} (grants : list Grant.t) : Val.t := Val.List (grant_info_to_val <$> grants).

Definition chain_decision_to_val (d : ChainDecision.t) : Val.t :=
  match d with
  | ChainDecision.Approved id => Val.Variant "approved" (Some (Val.String id))
  | ChainDecision.Denied reason => Val.Variant "denied" (Some (Val.String reason))
  | ChainDecision.Pending => Val.Variant "pending" None
  end.

Definition cap_grant_error_to_val (err : CapGrantError.t) : Val.t :=
  let '(case, payload) := match err with
    | CapGrantError.NotFound id => ("not-found", id)
    | CapGrantError.PermissionDenied msg => ("permission-denied", msg)
    | CapGrantError.SubsetViolation msg => ("subset-violation", msg)
    | CapGrantError.InvalidConfig msg => ("invalid-params", msg)
    | CapGrantError.PresetNotFound name => ("preset-not-found", name)
    | CapGrantError.Db | CapGrantError.Yaml => ("invalid-params", "internal-error")
    end in
  Val.Variant case (Some (Val.String payload)).

Definition ok_some (v : Val.t) : Val.t := Val.ResultOk (Some v).
Definition ok_err (err : CapGrantError.t) : Val.t := Val.ResultErr (Some (cap_grant_error_to_val err)).

(** ** Checks *)

Definition check_results_len (got want : Z) : result HostCallError.t unit :=
  if got =? want then Ok tt else Err (HostCallError.HandlerError "unexpected results_len").

Definition check_params_len (got : list Val.t) (want : Z) : result HostCallError.t unit :=
  if size_of got =? want then Ok tt else Err (HostCallError.HandlerError "unexpected parameters").

Definition single_record (params : list Val.t) : result HostCallError.t Val.t :=
  match params with
  | [v] => Ok v
  | _ => Err (HostCallError.HandlerError "expected single record parameter")
  end.

Definition validate_capability_string (s : string) : Result unit :=
  _ ← guard_err (String.eqb s "") (CapGrantError.InvalidConfig "capability must not be empty");
  _ ← guard_err (MAX_CAPABILITY_BYTES <? len s) (CapGrantError.InvalidConfig "capability exceeds the byte cap");
  _ ← guard_err (contains_char ":" s) (CapGrantError.InvalidConfig "capability contains forbidden character ':'");
  guard_err (has_control s) (CapGrantError.InvalidConfig "capability contains ASCII control bytes").

Definition target_too_long (s : string) : Result unit :=
  guard_err (MAX_TARGET_BYTES <? len s) (CapGrantError.InvalidConfig "target exceeds the byte cap").

Definition grant_id_too_long (s : string) : Result unit :=
  guard_err (MAX_GRANT_ID_BYTES <? len s) (CapGrantError.InvalidConfig "grant-id exceeds the byte cap").

Definition check_params_caps (params : list CapParam.t) : Result unit :=
  _ ← guard_err (MAX_PARAMS_ENTRIES <? size_of params) (CapGrantError.InvalidConfig "params exceeds the entry cap");
  _ ← try_for (λ p,
        _ ← guard_err (MAX_PARAM_KEY_BYTES <? len (CapParam.key p))
              (CapGrantError.InvalidConfig "cap-param key exceeds the byte cap");
        guard_err (MAX_PARAM_VALUE_BYTES <? len (CapParam.value p))
          (CapGrantError.InvalidConfig "cap-param value exceeds the byte cap")) params;
  guard_err (MAX_PARAMS_TOTAL_BYTES <?
      foldl (λ t p, saturating_add (saturating_add t (len (CapParam.key p))) (len (CapParam.value p))) 0 params)
    (CapGrantError.InvalidConfig "params total bytes exceed the aggregate cap").

Definition justification_ok (justification : option string) : Result unit :=
  match justification with
  | None => Ok tt
  | Some j =>
      _ ← guard_err (MAX_JUSTIFICATION_BYTES <? len j)
            (CapGrantError.InvalidConfig "request-capability: justification exceeds the byte cap");
      guard_err (has_control j)
        (CapGrantError.InvalidConfig "request-capability: justification must not contain control characters")
  end.

Definition filter_active_unexpired (now : Z) (grants : list Grant.t) : list Grant.t :=
  List.filter (λ g, Grant.is_active g && Grant.unexpired now g) grants.

(** ** The handlers *)

Abbreviation Host S A := (M S HostCallError.t A).

(** [match outcome { Ok(v) => Ok(vec![ok_some(v)]), Err(e) => Ok(vec![ok_err(&e)]) }]. *)
Definition answer {S} (m : M S CapGrantError.t Val.t) : Host S (list Val.t) := λ s,
  match m s with
  | (Ok v, s') => (Ok [v], s')
  | (Err e, s') => (Ok [ok_err e], s')
  end.

Definition wrong_params {S A} : Host S A := throw (HostCallError.HandlerError "unexpected parameters").

Section handlers.
Context `{Chrono, Codec, ParseDate, HashOrder, V : SubsetValidator}.

Definition by_id (grants : list Grant.t) : list Grant.t := merge_sort id_le grants.

Definition active_grants (now : Z) (ctx : HostCallContext.t) (params : list Val.t) (results_len : Z)
    : Host GrantStore (list Val.t) :=
  _ ← lift (check_results_len results_len 1);
  _ ← lift (check_params_len params 0);
  s ← get_state;
  let grants := by_id (filter_active_unexpired now (list_by_grantee (HostCallContext.agent_id ctx) s)) in
  mret [ok_some (grant_info_list_to_val (take MAX_ACTIVE_GRANTS_RESPONSE grants))].

Definition grant_status (now : Z) (ctx : HostCallContext.t) (params : list Val.t) (results_len : Z)
    : Host GrantStore (list Val.t) :=
  _ ← lift (check_results_len results_len 1);
  match params with
  | [Val.String capability] =>
      answer (
        _ ← lift (validate_capability_string capability);
        s ← get_state;
        let all := filter_active_unexpired now (list_by_grantee (HostCallContext.agent_id ctx) s) in
        let matching := List.filter (λ g, String.eqb (Grant.capability g) capability) all in
        mret (ok_some (Val.Option (option_map grant_info_to_val
                                     (head (take MAX_ACTIVE_GRANTS_RESPONSE (by_id matching)))))))
  | _ => wrong_params
  end.

(** The active unexpired grants of the caller that may issue the draft. *)
Definition delegate_covers (now : Z) (agent : string) (draft : GrantDraft.t) (s : GrantStore) : list Grant.t :=
  List.filter (λ p, is_ok (validate p draft))
    (by_id (List.filter (λ g, String.eqb (Grant.capability g) (GrantDraft.capability draft))
              (filter_active_unexpired now (list_by_grantee agent s)))).

Definition delegate_grant_handler (now now_check now_issue : Z) (uuid : string) (ctx : HostCallContext.t)
    (params : list Val.t) (results_len : Z) : Host GrantStore (list Val.t) :=
  _ ← lift (check_results_len results_len 1);
  match params with
  | [Val.String target; draft_val] =>
      answer (
        _ ← lift (target_too_long target);
        draft ← lift (grant_draft_from_val draft_val);
        _ ← lift (validate_capability_string (GrantDraft.capability draft));
        _ ← lift (check_params_caps (GrantDraft.params draft));
        s ← get_state;
        parent ← lift (match delegate_covers now (HostCallContext.agent_id ctx) draft s with
                       | [p] => Ok p
                       | [] => Err (CapGrantError.PermissionDenied "delegate-grant: no parent grant covers requested draft")
                       | _ => Err (CapGrantError.PermissionDenied "delegate-grant: ambiguous parent")
                       end);
        id ← delegate_grant now_check now_issue uuid (Grant.id parent) target draft (HostCallContext.agent_id ctx);
        mret (ok_some (Val.String id)))
  | _ => wrong_params
  end.

(** [store.list_by_grantee(&ctx.agent_id).any(|g| g.id == grant_id)]. *)
Definition owned (agent grant_id : string) (s : GrantStore) : bool :=
  existsb (λ g, String.eqb (Grant.id g) grant_id) (list_by_grantee agent s).

Definition narrow_grant_handler (now : Z) (uuid : string) (ctx : HostCallContext.t) (params : list Val.t)
    (results_len : Z) : Host GrantStore (list Val.t) :=
  _ ← lift (check_results_len results_len 1);
  match params with
  | [Val.String target; Val.String grant_id; params_val] =>
      answer (
        _ ← lift (target_too_long target);
        _ ← lift (grant_id_too_long grant_id);
        _ ← fail_if (negb (String.eqb target (HostCallContext.agent_id ctx)))
              (CapGrantError.PermissionDenied "narrow-grant: cross-agent narrow not yet supported");
        new_params ← lift (cap_param_list_from_val params_val);
        _ ← lift (check_params_caps new_params);
        s ← get_state;
        _ ← fail_if (negb (owned (HostCallContext.agent_id ctx) grant_id s))
              (CapGrantError.PermissionDenied "narrow-grant: caller does not own grant");
        id ← narrow now uuid grant_id new_params (HostCallContext.agent_id ctx);
        mret (ok_some (Val.String id)))
  | _ => wrong_params
  end.

Definition revoke_grant_handler (ctx : HostCallContext.t) (params : list Val.t) (results_len : Z)
    : Host GrantStore (list Val.t) :=
  _ ← lift (check_results_len results_len 1);
  match params with
  | [Val.String target; Val.String grant_id] =>
      answer (
        _ ← lift (target_too_long target);
        _ ← lift (grant_id_too_long grant_id);
        _ ← fail_if (negb (String.eqb target (HostCallContext.agent_id ctx)))
              (CapGrantError.PermissionDenied "revoke-grant: cross-agent revoke not yet supported");
        s ← get_state;
        _ ← fail_if (negb (owned (HostCallContext.agent_id ctx) grant_id s))
              (CapGrantError.PermissionDenied "revoke-grant: caller does not own grant");
        _ ← cascade_revoke grant_id;
        mret (Val.ResultOk None))
  | _ => wrong_params
  end.

Definition apply_preset_handler (now : Z) (uuids : nat → string) (created_at clock : nat → Z)
    (presets : PresetRegistry) (ctx : HostCallContext.t) (params : list Val.t) (results_len : Z)
    : Host GrantStore (list Val.t) :=
  _ ← lift (check_results_len results_len 1);
  match params with
  | [Val.String target; Val.String preset_name] =>
      answer (
        _ ← lift (target_too_long target);
        _ ← fail_if (MAX_PRESET_NAME_BYTES <? len preset_name)
              (CapGrantError.InvalidConfig "apply-preset: preset-name exceeds the byte cap");
        _ ← fail_if (has_control preset_name)
              (CapGrantError.InvalidConfig "apply-preset: preset-name contains control bytes");
        _ ← fail_if (negb (String.eqb target (HostCallContext.agent_id ctx)))
              (CapGrantError.PermissionDenied "apply-preset: cross-target apply not yet supported");
        result ← Preset.apply_preset now uuids created_at clock presets preset_name target (HostCallContext.agent_id ctx);
        mret (ok_some (Val.List (Val.String <$> preset_created result))))
  | _ => wrong_params
  end.

(** ** Requesting *)

Section request.
Context {P : Type}.

(** The request the handler hands to the chain. *)
Definition guest_request (ctx : HostCallContext.t) (req_val : Val.t) : Result GrantRequest.t :=
  '(capability, params, justification) ← grant_request_from_val req_val;
  _ ← validate_capability_string capability;
  _ ← justification_ok justification;
  _ ← match params with Some p => check_params_caps p | None => Ok tt end;
  Ok (GrantRequest.mk (HostCallContext.agent_id ctx) capability params GrantTtl.Once justification).

Definition guest_context (now : Z) (ctx : HostCallContext.t) (w : World P) : ResolverContext.t :=
  ResolverContext.mk
    (filter_active_unexpired now (list_by_grantee (HostCallContext.agent_id ctx) (world_store w)))
    (HostCallContext.run_id ctx).

(** [spawn_blocking(..).await.map_err(..)]: a panic in the chain is a handler
    error. *)
Definition blocking {A} (m : M (World P) Stuck.t A) : Host (World P) A := λ w,
  match m w with
  | (Ok a, w') => (Ok a, w')
  | (Err Stuck.Panicked, w') => (Err (HostCallError.HandlerError "request-capability resolver failed"), w')
  | (Err Stuck.Blocked, w') => (Err HostCallError.Waiting, w')
  end.

Definition request_capability (chain : list (Resolver P)) (now created clock : Z) (uuid : string)
    (ctx : HostCallContext.t) (params : list Val.t) (results_len : Z) : Host (World P) (list Val.t) :=
  _ ← lift (check_results_len results_len 1);
  req_val ← lift (single_record params);
  match guest_request ctx req_val with
  | Err e => mret [ok_err e]
  | Ok req =>
      w ← get_state;
      decision ← blocking (evaluate_with_dynamic_insert_barrier chain created clock uuid req (guest_context now ctx w));
      mret [ok_some (chain_decision_to_val decision)]
  end.
End request.
End handlers.
