(* ===== verification/WitProps.v ===== *)
(** * What a guest can do with its grants

    The theorems of the seven host functions: typed answers, no authority from
    nowhere, no oracle on other agents' grants, and the exact listings. *)
From S2P Require Import Prelude RustStr GrantData Subset Cascade Events GrantSqlite GrantStore StoreFacts StoreProps Durable GrantCheck Preset ApprovalIntake SentCache IntakeProps Resolver ApprovalRace RaceProps RaceResults ResolverProps Wit.
Open Scope string_scope.
Open Scope list_scope.
Open Scope Z_scope.

(** ** WIT types *)

(** The types of [wit/agent-grant.wit]. *)
Module WitType.
Inductive t :=
| String
| U64
| List (elem : t)
| Option (elem : t)
| Record (fields : list (string * t))
| Variant (cases : list (string * option t))
| Result (ok : option t) (err : t).
End WitType.

(** [typed f v]: value [v] has type [f]. *)
Fixpoint typed (ty : WitType.t) (v : Val.t) : bool :=
  match ty, v with
  | WitType.String, Val.String _ => true
  | WitType.U64, Val.U64 _ => true
  | WitType.List ty, Val.List vs => forallb (typed ty) vs
  | WitType.Option ty, Val.Option o => match o with Some v => typed ty v | None => true end
  | WitType.Record tys, Val.Record fs =>
      (fix fields tys fs := match tys, fs with
                            | [], [] => true
                            | (n, ty) :: tys, (m, v) :: fs => String.eqb n m && typed ty v && fields tys fs
                            | _, _ => false
                            end) tys fs
  | WitType.Variant cases, Val.Variant c payload =>
      existsb (λ case : string * option WitType.t,
        String.eqb case.1 c &&
        match case.2, payload with
        | Some ty, Some v => typed ty v
        | None, None => true
        | _, _ => false
        end) cases
  | WitType.Result ok err, Val.ResultOk o =>
      match ok, o with Some ty, Some v => typed ty v | None, None => true | _, _ => false end
  | WitType.Result ok err, Val.ResultErr o => match o with Some v => typed err v | None => false end
  | _, _ => false
  end.

Definition grant_error : WitType.t := WitType.Variant [
  ("not-found", Some WitType.String); ("permission-denied", Some WitType.String);
  ("subset-violation", Some WitType.String); ("invalid-params", Some WitType.String);
  ("preset-not-found", Some WitType.String)].

Definition cap_param : WitType.t := WitType.Record [("key", WitType.String); ("value", WitType.String)].

Definition grant_ttl : WitType.t := WitType.Variant [
  ("once", None); ("lifecycle", None); ("persistent", None); ("duration", Some WitType.U64);
  ("until", Some WitType.String)].

Definition grant_status_type : WitType.t := WitType.Variant [
  ("active", None); ("consumed", None); ("expired", None); ("revoked", None)].

Definition grant_info : WitType.t := WitType.Record [
  ("id", WitType.String); ("grantee", WitType.String); ("capability", WitType.String);
  ("params", WitType.List cap_param); ("ttl", grant_ttl); ("issuer", WitType.String);
  ("provenance", WitType.String); ("status", grant_status_type); ("created-at", WitType.String);
  ("expires-at", WitType.Option WitType.String)].

Definition grant_decision : WitType.t := WitType.Variant [
  ("approved", Some WitType.String); ("denied", Some WitType.String); ("pending", None)].

Section typing.
Context `{Codec}.

Lemma grant_error_typed e : typed grant_error (cap_grant_error_to_val e) = true.
Proof. by destruct e. Qed.

Lemma cap_param_typed ps : forallb (typed cap_param) (cap_param_to_val <$> ps) = true.
Proof. by induction ps as [|p ps IH]; simpl. Qed.

Lemma grant_info_typed g : typed grant_info (grant_info_to_val g) = true.
Proof.
  unfold grant_info, grant_info_to_val. cbn [typed]. rewrite cap_param_typed.
  assert (typed grant_ttl (grant_ttl_to_val (Grant.ttl g)) = true) as -> by (by destruct (Grant.ttl g)).
  assert (typed grant_status_type (grant_status_to_val (Grant.status g)) = true) as -> by (by destruct (Grant.status g)).
  by destruct (Grant.expires_at g).
Qed.

Lemma grant_infos_typed gs : typed (WitType.List grant_info) (grant_info_list_to_val gs) = true.
Proof.
  unfold grant_info_list_to_val. cbn [typed]. induction gs as [|g gs IH]; [done|].
  rewrite fmap_cons. cbn [forallb]. by rewrite grant_info_typed.
Qed.

Lemma strings_typed l : typed (WitType.List WitType.String) (Val.List (Val.String <$> l)) = true.
Proof. cbn [typed]. by induction l as [|x l IH]; simpl. Qed.

Lemma chain_decision_typed d : typed grant_decision (chain_decision_to_val d) = true.
Proof. by destruct d. Qed.
End typing.

(** [answers ty m]: whenever handler [m] answers, with one value of [ty]. *)
Definition answers {S} (ty : WitType.t) (m : Host S (list Val.t)) : Prop :=
  ∀ s vs s', m s = (Ok vs, s') → ∃ v, vs = [v] ∧ typed ty v = true.

Section answers.
Context {S : Type}.

Lemma answers_ret ty v : typed ty v = true → answers (S := S) ty (mret [v]).
Proof. intros Hv s vs s' [= <- <-]. eauto. Qed.

Lemma answers_lift {A} ty (r : result HostCallError.t A) (k : A → Host S (list Val.t)) :
  (∀ a, answers ty (k a)) → answers ty (lift r ≫= k).
Proof. intros Hk s vs s' (a & s1 & _ & Hrun)%M_bind_Ok. by eapply Hk. Qed.

Lemma answers_get ty (k : S → Host S (list Val.t)) : (∀ a, answers ty (k a)) → answers ty (get_state ≫= k).
Proof. intros Hk s vs s' (a & s1 & _ & Hrun)%M_bind_Ok. by eapply Hk. Qed.

Lemma answers_wrong ty : answers (S := S) ty wrong_params.
Proof. by intros s vs s'. Qed.

(** [yields ty m]: the value of a successful [m] has type [ty]. *)
Definition yields (ty : WitType.t) (m : M S CapGrantError.t Val.t) : Prop :=
  ∀ s v s', m s = (Ok v, s') → typed ty v = true.

Lemma yields_ret ty v : typed ty v = true → yields ty (mret v).
Proof. intros Hv s v' s' [= <- _]. done. Qed.

Lemma yields_bind {A} ty (m : M S CapGrantError.t A) k : (∀ a, yields ty (k a)) → yields ty (m ≫= k).
Proof. intros Hk s v s' (a & s1 & _ & Hrun)%M_bind_Ok. by eapply Hk. Qed.

Lemma answers_answer ok m : yields (WitType.Result ok grant_error) m → answers (WitType.Result ok grant_error) (answer m).
Proof.
  intros Hm s vs s'. unfold answer. specialize (Hm s). destruct (m s) as [[v|e] s1]; intros [= <- <-].
  - exists v. split; [done|]. by eapply Hm.
  - exists (ok_err e). split; [done|]. cbn [typed ok_err]. apply grant_error_typed.
Qed.
End answers.

Ltac solve_yields :=
  repeat first [apply yields_bind; intros ?]; apply yields_ret.

(** The declared result types. *)
Definition result_of (ok : option WitType.t) : WitType.t := WitType.Result ok grant_error.

Section handlers.
Context `{Chrono, Codec, ParseDate, HashOrder, V : SubsetValidator}.

Lemma active_grants_typed now ctx params n :
  answers (result_of (Some (WitType.List grant_info))) (active_grants now ctx params n).
Proof.
  unfold active_grants. apply answers_lift. intros _. apply answers_lift. intros _. apply answers_get. intros s.
  apply answers_ret. exact (grant_infos_typed _).
Qed.

Lemma grant_status_typed now ctx params n :
  answers (result_of (Some (WitType.Option grant_info))) (grant_status now ctx params n).
Proof.
  unfold grant_status. apply answers_lift. intros _.
  destruct params as [|[capability| | | | | | | |] [|]]; try apply answers_wrong.
  apply answers_answer. solve_yields. cbn [typed ok_some].
  destruct (head _) as [g|]; [|done]. apply grant_info_typed.
Qed.

Lemma delegate_typed now1 now2 now3 uuid ctx params n :
  answers (result_of (Some WitType.String)) (delegate_grant_handler now1 now2 now3 uuid ctx params n).
Proof.
  unfold delegate_grant_handler. apply answers_lift. intros _.
  destruct params as [|[target| | | | | | | |] [|v [|]]]; try apply answers_wrong.
  apply answers_answer. by solve_yields.
Qed.

Lemma narrow_typed now uuid ctx params n :
  answers (result_of (Some WitType.String)) (narrow_grant_handler now uuid ctx params n).
Proof.
  unfold narrow_grant_handler. apply answers_lift. intros _.
  destruct params as [|[target| | | | | | | |] [|[id| | | | | | | |] [|v [|]]]]; try apply answers_wrong.
  apply answers_answer. by solve_yields.
Qed.

Lemma revoke_typed ctx params n : answers (result_of None) (revoke_grant_handler ctx params n).
Proof.
  unfold revoke_grant_handler. apply answers_lift. intros _.
  destruct params as [|[target| | | | | | | |] [|[id| | | | | | | |] [|]]]; try apply answers_wrong.
  apply answers_answer. by solve_yields.
Qed.

Lemma apply_preset_typed now uuids created clock presets ctx params n :
  answers (result_of (Some (WitType.List WitType.String)))
    (apply_preset_handler now uuids created clock presets ctx params n).
Proof.
  unfold apply_preset_handler. apply answers_lift. intros _.
  destruct params as [|[target| | | | | | | |] [|[id| | | | | | | |] [|]]]; try apply answers_wrong.
  apply answers_answer. solve_yields. apply strings_typed.
Qed.

Lemma request_typed {P} (chain : list (Resolver P)) now created clock uuid ctx params n :
  answers (result_of (Some grant_decision)) (request_capability chain now created clock uuid ctx params n).
Proof.
  unfold request_capability. apply answers_lift. intros _. apply answers_lift. intros v.
  destruct (guest_request ctx v) as [req|e].
  - apply answers_get. intros w s vs s' (d & s1 & _ & Hrun)%M_bind_Ok. cbv [mret M_ret] in Hrun. simplify_eq.
    eexists. split; [done|]. cbn [typed ok_some result_of]. apply chain_decision_typed.
  - apply answers_ret. cbn [typed ok_err result_of]. apply grant_error_typed.
Qed.
End handlers.

(** ** Listings *)

Section listings.
Context `{Chrono, Codec, ParseDate, HashOrder, !HashOrderLaws, V : SubsetValidator}.

Lemma omap_ids_NoDup (s : GrantStore) l : wf s → NoDup l → NoDup (Grant.id <$> omap (M := list) (λ id, grants s !! id) l).
Proof.
  intros Hwf. induction l as [|x l IH]; intros Hnd; [constructor|].
  apply NoDup_cons in Hnd as [Hx Hnd]. cbn [omap list_omap].
  destruct (grants s !! x) as [g|] eqn:Hg; [|by apply IH]. rewrite fmap_cons. apply NoDup_cons. split; [|by apply IH].
  rewrite (wf_key s Hwf _ _ Hg). intros (g' & Heq & (y & Hy & Hg')%list_elem_of_omap)%list_elem_of_fmap.
  apply (wf_key s Hwf) in Hg' as Hid. congruence.
Qed.

Lemma list_by_grantee_NoDup key s : wf s → NoDup (Grant.id <$> list_by_grantee key s).
Proof.
  intros Hwf. unfold list_by_grantee. destruct (by_grantee s !! key) as [ids|]; [|constructor].
  apply omap_ids_NoDup; [done|]. rewrite iter_ids_perm. apply NoDup_elements.
Qed.

Lemma NoDup_filter_ids (f : Grant.t → bool) gs : NoDup (Grant.id <$> gs) → NoDup (Grant.id <$> List.filter f gs).
Proof.
  induction gs as [|g gs IH]; [done|]. rewrite fmap_cons. intros [Hg Hnd]%NoDup_cons. cbn [List.filter].
  destruct (f g); [|by apply IH]. rewrite fmap_cons. apply NoDup_cons. split; [|by apply IH].
  intros (g' & Heq & Hin)%list_elem_of_fmap. apply Hg. rewrite Heq. apply list_elem_of_fmap_2.
  apply list_elem_of_In, List.filter_In in Hin as [Hin _]. by apply list_elem_of_In.
Qed.

(** The grants a guest may see: stored, its own, active and unexpired. *)
Definition visible (now : Z) (agent : string) (s : GrantStore) (g : Grant.t) : Prop :=
  grants s !! Grant.id g = Some g ∧ Grant.grantee g = agent ∧ Grant.is_active g = true ∧ Grant.unexpired now g = true.

Lemma elem_active_unexpired now agent s g : wf s →
  g ∈ filter_active_unexpired now (list_by_grantee agent s) ↔ visible now agent s g.
Proof.
  intros Hwf. unfold filter_active_unexpired, visible.
  rewrite list_elem_of_In, List.filter_In, <- list_elem_of_In, elem_list_by_grantee by done.
  rewrite andb_true_iff. naive_solver.
Qed.

Lemma by_id_sorted gs : StronglySorted id_le (by_id gs).
Proof.
  apply StronglySorted_merge_sort.
  - intros g h k. unfold id_le. apply transitivity.
  - intros g h. unfold id_le. apply (str_le_total (Grant.id g) (Grant.id h)).
Qed.
End listings.

(** ** Properties *)

(** C2: end to end, a guest's request gets it no authority from nowhere.  When
    [request-capability] answers [approved] over the runtime's chain, with a
    cache and an intake that any interleaving of retries and operator decisions
    may have led to, one grant of the guest's is added: active, one-shot,
    for the capability asked, and whatever it covers is covered by an active,
    unexpired grant the guest already held, or by exactly what an operator
    allowed a request of the same guest: its parameters or, if the operator
    narrowed them, the narrowed ones, and no call that request did not ask for.
    Any other answer leaves the grants as they were. *)
Theorem request_capability_never_amplifies
    `{Chrono, Codec, ParseDate, HashOrder, !HashOrderLaws, FingerprintText, !FingerprintTextLaws, EntryOrder, !EntryOrderLaws}
    (limit : Z) (s : Race) budget has_port delivery new_id now created clock uuid ctx params results_len
    (w : World PendingRegistry) vals w' :
  let V := SubsetValidatorImpl in
  reachable limit s → sent w = cache s → approval w = registry s → wf (world_store w) →
  request_capability (build_grant_resolver_chain budget has_port delivery new_id) now created clock uuid ctx params
    results_len w = (Ok vals, w') →
  grants (world_store w') = grants (world_store w) ∨
  ∃ g held, vals = [ok_some (Val.Variant "approved" (Some (Val.String (Grant.id g))))] ∧
    grants (world_store w') = <[Grant.id g := g]> (grants (world_store w)) ∧
    Grant.grantee g = HostCallContext.agent_id ctx ∧ Grant.ttl g = GrantTtl.Once ∧ Grant.is_active g = true ∧
    Grant.capability g ≠ "" ∧
    (∀ call, covers_request g call = Ok tt → covers_request held call = Ok tt) ∧
    (visible now (HostCallContext.agent_id ctx) (world_store w) held ∨
     ∃ rid q narrowed, (rid, narrowed) ∈ approvals s ∧ owner s !! rid = Some q ∧
       GrantRequest.caller q = HostCallContext.agent_id ctx ∧
       Grant.capability held = GrantRequest.capability q ∧ Grant.params held = approved_params q narrowed ∧
       ∀ asked call, Grant.capability asked = GrantRequest.capability q →
         Grant.params asked = default [] (GrantRequest.params q) →
         covers_request held call = Ok tt → covers_request asked call = Ok tt).
Proof.
  intros V Hreach Hsent Happ Hwf. unfold request_capability.
  intros (_ & w0 & [_ <-]%lift_Ok & Hrun)%M_bind_Ok. apply M_bind_Ok in Hrun as (v & w0 & [_ <-]%lift_Ok & Hrun).
  destruct (guest_request ctx v) as [req|e] eqn:Hreq; [|cbv [mret M_ret] in Hrun; simplify_eq; by left].
  apply M_bind_Ok in Hrun as (w0 & w1 & [= <- <-] & Hrun).
  apply M_bind_Ok in Hrun as (d & w1 & Hblock & Hrun). cbv [mret M_ret] in Hrun. injection Hrun as <- <-.
  unfold blocking in Hblock.
  destruct (evaluate_with_dynamic_insert_barrier _ _ _ _ _ _ w) as [[d'|[|]] w2] eqn:Hev; simplify_eq.
  apply (request_traced limit s) in Hev; [|done|done|done].
  unfold guest_request in Hreq. destruct (grant_request_from_val v) as [[[cap ps] just]|]; cbn in Hreq; [|done].
  apply bind_unit_Ok in Hreq as [Hcap Hreq]. apply bind_unit_Ok in Hreq as [_ Hreq].
  apply bind_unit_Ok in Hreq as [_ [= <-]]. cbn in Hev.
  destruct d as [id| |]; [|by left..]. right.
  destruct Hev as (g & held & Hid & Hgs & Hgr & Hgc & Httl & Hact & Hcov & Hwhy).
  exists g, held. rewrite Hid. split_and!; try done.
  - rewrite Hgc. unfold validate_capability_string in Hcap. apply bind_unit_Ok in Hcap as [He _].
    apply guard_err_Ok in He. by b2p.
  - destruct Hwhy as [(Hin & _ & _)|Hop]; [left|by right].
    by apply (elem_active_unexpired now (HostCallContext.agent_id ctx)) in Hin.
Qed.

(** Every answer is one value of the type the WIT file declares: whatever
    the guest passes and whatever state the kernel is in, each of the seven
    functions either fails as a host error or returns exactly one value, a
    [result] of its declared payload or of [grant-error]. *)
Theorem guest_answers_typed `{Chrono, Codec, ParseDate, HashOrder, V : SubsetValidator} {P : Type}
    `{ChannelApprovalPort P} ctx params n :
  (∀ now, answers (result_of (Some (WitType.List grant_info))) (active_grants now ctx params n)) ∧
  (∀ now, answers (result_of (Some (WitType.Option grant_info))) (grant_status now ctx params n)) ∧
  (∀ (chain : list (Resolver P)) now created clock uuid,
    answers (result_of (Some grant_decision)) (request_capability chain now created clock uuid ctx params n)) ∧
  (∀ now1 now2 now3 uuid,
    answers (result_of (Some WitType.String)) (delegate_grant_handler now1 now2 now3 uuid ctx params n)) ∧
  (∀ now uuid, answers (result_of (Some WitType.String)) (narrow_grant_handler now uuid ctx params n)) ∧
  answers (result_of None) (revoke_grant_handler ctx params n) ∧
  ∀ now uuids created clock presets, answers (result_of (Some (WitType.List WitType.String)))
    (apply_preset_handler now uuids created clock presets ctx params n).
Proof.
  split_and!; intros.
  - apply active_grants_typed.
  - apply grant_status_typed.
  - apply request_typed.
  - apply delegate_typed.
  - apply narrow_typed.
  - apply revoke_typed.
  - apply apply_preset_typed.
Qed.

(** No oracle on other agents' grants.  On a grant id the guest does not
    own, [narrow-grant] and [revoke-grant] answer the same in every state of
    the store, whether or not some other agent holds a grant of that id, and
    change nothing. *)
Theorem no_ownership_oracle `{Chrono, Codec, ParseDate, HashOrder, V : SubsetValidator}
    now uuid ctx target grant_id params_val n (s1 s2 : GrantStore) :
  owned (HostCallContext.agent_id ctx) grant_id s1 = false →
  owned (HostCallContext.agent_id ctx) grant_id s2 = false →
  (∃ r, narrow_grant_handler now uuid ctx [Val.String target; Val.String grant_id; params_val] n s1 = (r, s1) ∧
        narrow_grant_handler now uuid ctx [Val.String target; Val.String grant_id; params_val] n s2 = (r, s2)) ∧
  (∃ r, revoke_grant_handler ctx [Val.String target; Val.String grant_id] n s1 = (r, s1) ∧
        revoke_grant_handler ctx [Val.String target; Val.String grant_id] n s2 = (r, s2)).
Proof.
  intros Ho1 Ho2. unfold narrow_grant_handler, revoke_grant_handler, answer. run.
  destruct (check_results_len n 1) as [[]|e]; cbn; [|split; by eexists].
  destruct (target_too_long target) as [[]|e]; cbn; [|split; by eexists].
  destruct (grant_id_too_long grant_id) as [[]|e]; cbn; [|split; by eexists].
  destruct (String.eqb target (HostCallContext.agent_id ctx)); cbn; [|split; by eexists].
  rewrite Ho1, Ho2. cbn. split; [|by eexists].
  destruct (cap_param_list_from_val params_val) as [ps|e]; cbn; [|by eexists].
  destruct (check_params_caps ps) as [[]|e]; cbn; by eexists.
Qed.

(** The TTLs the wire can carry: chrono reads back the instants of years 0 to
    9999. *)
Definition wire_ttl (t : GrantTtl.t) : Prop :=
  match t with GrantTtl.Until t => rfc3339_range t | _ => True end.

(** The wire loses nothing.  A draft encoded as the WIT record [grant-draft]
    decodes to itself, and a request to its capability, parameters and
    justification: TTLs of every case, any parameters, present or absent. *)
Theorem wire_roundtrip `{Codec, ParseDate, !ParseDateLaws} (d : GrantDraft.t) (cap : string)
    (ps : option (list CapParam.t)) (just : option string) :
  wire_ttl (GrantDraft.ttl d) →
  grant_draft_from_val (Val.Record [
    ("capability", Val.String (GrantDraft.capability d));
    ("params", Val.List (cap_param_to_val <$> GrantDraft.params d));
    ("ttl", grant_ttl_to_val (GrantDraft.ttl d))]) = Ok d ∧
  grant_request_from_val (Val.Record [
    ("capability", Val.String cap);
    ("params", Val.Option (option_map (λ ps, Val.List (cap_param_to_val <$> ps)) ps));
    ("justification", Val.Option (option_map Val.String just))]) = Ok (cap, ps, just).
Proof.
  intros Httl.
  assert (∀ l, cap_param_list_from_val (Val.List (cap_param_to_val <$> l)) = Ok l) as Hps.
  { intros l. cbn. apply try_map_Ok. induction l as [|[k v] l IH]; cbn; by constructor. }
  assert (grant_ttl_from_val (grant_ttl_to_val (GrantDraft.ttl d)) = Ok (GrantDraft.ttl d)) as Ht.
  { destruct (GrantDraft.ttl d); cbn; try done. by rewrite parse_datetime_to_rfc3339. }
  split.
  - cbn -[cap_param_list_from_val grant_ttl_from_val grant_ttl_to_val]. rewrite Hps.
    cbn -[grant_ttl_from_val grant_ttl_to_val]. rewrite Ht. cbn. by destruct d.
  - unfold grant_request_from_val. cbn [try_fold]. destruct ps as [l|], just as [j|];
      cbn -[cap_param_list_from_val]; rewrite ?Hps; done.
Qed.

(** What a guest is shown.  [active-grants] answers the guest's own stored,
    active and unexpired grants, no others, sorted by id, each once, and all of
    them when there are at most 1024; [grant-status] answers the one of the
    capability with the least id, or none when there is none. *)
Theorem guest_listings_exact `{Chrono, Codec, ParseDate, HashOrder, !HashOrderLaws, V : SubsetValidator}
    now ctx capability (s : GrantStore) :
  wf s → validate_capability_string capability = Ok tt →
  let agent := HostCallContext.agent_id ctx in
  (∃ gs, active_grants now ctx [] 1 s = (Ok [ok_some (grant_info_list_to_val gs)], s) ∧
     StronglySorted id_le gs ∧ NoDup (Grant.id <$> gs) ∧ (length gs ≤ MAX_ACTIVE_GRANTS_RESPONSE)%nat ∧
     (∀ g, g ∈ gs → visible now agent s g) ∧
     ((length gs < MAX_ACTIVE_GRANTS_RESPONSE)%nat → ∀ g, visible now agent s g → g ∈ gs)) ∧
  ∃ o, grant_status now ctx [Val.String capability] 1 s = (Ok [ok_some (Val.Option (option_map grant_info_to_val o))], s) ∧
    match o with
    | Some g => visible now agent s g ∧ Grant.capability g = capability ∧
        ∀ h, visible now agent s h → Grant.capability h = capability → id_le g h
    | None => ∀ h, visible now agent s h → Grant.capability h ≠ capability
    end.
Proof.
  intros Hwf Hcap agent. set (all := filter_active_unexpired now (list_by_grantee agent s)).
  assert (∀ g, g ∈ all ↔ visible now agent s g) as Hall by (intros g; by apply elem_active_unexpired).
  split.
  - exists (take MAX_ACTIVE_GRANTS_RESPONSE (by_id all)).
    assert (∀ g, g ∈ by_id all ↔ visible now agent s g) as Hby
      by (intros g; unfold by_id; by rewrite merge_sort_Permutation).
    split_and!.
    + done.
    + pose proof (by_id_sorted all) as Hs. rewrite <- (take_drop MAX_ACTIVE_GRANTS_RESPONSE (by_id all)) in Hs.
      by apply StronglySorted_app_1_l in Hs.
    + eapply sublist_NoDup; [|apply fmap_sublist, sublist_take].
      unfold by_id. rewrite merge_sort_Permutation. by apply NoDup_filter_ids, list_by_grantee_NoDup.
    + rewrite length_take. lia.
    + intros g Hg. apply Hby. eapply elem_of_submseteq; [exact Hg|]. apply sublist_submseteq, sublist_take.
    + rewrite length_take. intros Hlt g Hg. rewrite take_ge by lia. by apply Hby.
  - set (matching := List.filter (λ g, String.eqb (Grant.capability g) capability) all).
    assert (∀ g, g ∈ by_id matching ↔ visible now agent s g ∧ Grant.capability g = capability) as Hm.
    { intros g. unfold by_id. rewrite merge_sort_Permutation. unfold matching.
      rewrite list_elem_of_In, List.filter_In, <- list_elem_of_In, Hall. by rewrite String.eqb_eq. }
    exists (head (by_id matching)). split.
    { unfold grant_status, answer. run. rewrite Hcap. cbn -[MAX_ACTIVE_GRANTS_RESPONSE]. fold agent all matching.
      unfold MAX_ACTIVE_GRANTS_RESPONSE. by destruct (by_id matching). }
    pose proof (by_id_sorted matching) as Hs. destruct (by_id matching) as [|g gs] eqn:Heq; cbn.
    + intros h Hh Hc. assert (h ∈ @nil Grant.t) as Hin by (apply Hm; done). by apply elem_of_nil in Hin.
    + destruct (proj1 (Hm g)) as [Hg Hgc]; [by left|]. split_and!; [done|done|].
      intros h Hh Hc. assert (h ∈ g :: gs) as [->|Hin]%elem_of_cons by (apply Hm; done);
        [by destruct (str_le_total (Grant.id g) (Grant.id g))|].
      apply StronglySorted_inv in Hs as [_ Hs]. rewrite Forall_forall in Hs. by apply Hs.
Qed.

(** ** Witnesses *)

#[local] Existing Instances fingerprint_model fingerprint_model_laws entry_order_model entry_order_model_laws
  SubsetValidatorImpl chrono_model codec_model codec_model_laws hash_order_model hash_order_model_laws.

Definition parse_date_model : ParseDate := parse_from_rfc3339.

Lemma parse_date_model_laws : @ParseDateLaws codec_model parse_date_model.
Proof. intros t Ht. by apply rfc3339_roundtrip. Qed.

#[local] Existing Instances parse_date_model parse_date_model_laws.

Definition sample_guest : HostCallContext.t := HostCallContext.mk "kid" None.

Definition sample_request_val : Val.t := Val.Record [
  ("capability", Val.String "fs");
  ("params", Val.Option (Some (Val.List [cap_param_to_val (CapParam.mk "read" "/srv")])));
  ("justification", Val.Option None)].

Definition sample_call : result HostCallError.t (list Val.t) * World PendingRegistry :=
  request_capability (build_grant_resolver_chain sample_budget true InTime "u2") 10 10 10 "grant-1" sample_guest
    [sample_request_val] 1 (sample_world sample_decided).

Definition sample_answer : list Val.t := [ok_some (Val.Variant "approved" (Some (Val.String "grant-1")))].

Lemma sample_call_run : sample_call = (Ok sample_answer, sample_call.2).
Proof.
  assert (sample_call.1 = Ok sample_answer) as <- by (vm_compute; reflexivity). by destruct sample_call.
Qed.

Lemma sample_call_issues : bool_decide (grants (world_store sample_call.2) = ∅) = false.
Proof. vm_compute. reflexivity. Qed.

Lemma request_capability_never_amplifies_witness :
  ∃ g, grants (world_store sample_call.2) = <[Grant.id g := g]> ∅ ∧ Grant.grantee g = "kid".
Proof.
  destruct (request_capability_never_amplifies 4 sample_decided sample_budget true InTime "u2" 10 10 10 "grant-1"
    sample_guest [sample_request_val] 1 (sample_world sample_decided) sample_answer sample_call.2)
    as [Hsame|(g & held & _ & Hgs & Hgr & _)];
    [apply sample_decided_reachable|reflexivity|reflexivity|apply new_store_wf|apply sample_call_run| |].
  - pose proof sample_call_issues as Hne. apply bool_decide_eq_false in Hne. by destruct Hne.
  - exists g. split; [exact Hgs|exact Hgr].
Defined.

Lemma no_ownership_oracle_witness :
  ∃ r, revoke_grant_handler (HostCallContext.mk "stranger" None) [Val.String "stranger"; Val.String "uuid-0"] 1 sample_store
         = (r, sample_store).
Proof.
  destruct (no_ownership_oracle 0 "u" (HostCallContext.mk "stranger" None) "stranger" "uuid-0" (Val.List []) 1
    sample_store sample_start) as [_ (r & Hr & _)]; [vm_compute; reflexivity|vm_compute; reflexivity|].
  exists r. exact Hr.
Defined.

Lemma wire_roundtrip_witness :
  grant_request_from_val sample_request_val = Ok ("fs", Some [CapParam.mk "read" "/srv"], None).
Proof.
  destruct (wire_roundtrip (GrantDraft.mk "fs" [] (GrantTtl.Until 0)) "fs" (Some [CapParam.mk "read" "/srv"]) None)
    as [_ Hreq]; [unfold wire_ttl, rfc3339_range; simpl; lia|]. exact Hreq.
Defined.

Lemma guest_listings_exact_witness :
  ∃ o, grant_status 0 sample_guest [Val.String "tools"] 1 sample_store =
    (Ok [ok_some (Val.Option (option_map grant_info_to_val o))], sample_store).
Proof.
  destruct (guest_listings_exact 0 sample_guest "tools" sample_store) as [_ (o & Ho & _)];
    [apply sample_wf|vm_compute; reflexivity|]. exists o. exact Ho.
Defined.
