(* ===== verification/RunData.v ===== *)
(** * The run data model

    Models the data of [crates/run-manager/src]: the record of a run and its
    budget ([run.rs]), the identifier checks ([identifier.rs]), the
    configuration records and their defaults ([retry.rs], [wit_types.rs]), the
    events of a run's life ([events.rs]), and the status and error enums of
    [crates/shared-types/src/run.rs].  An [f64] is an IEEE binary64 of
    [SpecFloat]; a [DateTime<Utc>] is its nanosecond count. *)
From Stdlib Require Export SpecFloat.
From S2P Require Import Prelude RustStr.
Open Scope string_scope.
Open Scope list_scope.
Open Scope Z_scope.

(** ** Numbers *)

(** [u64::saturating_add]. *)
Definition sat_add_u64 (a b : Z) : Z := Z.min U64_MAX (a + b).

(** [f64], rounding to nearest. *)
Definition f64 : Type := spec_float.
#[export] Instance f64_eq_dec : EqDecision f64.
Proof. unfold f64. solve_decision. Defined.

Definition f64_zero : f64 := S754_zero false.
Definition f64_add (x y : f64) : f64 := SFadd 53 1024 x y.
Definition f64_sub (x y : f64) : f64 := SFsub 53 1024 x y.
Definition f64_lt (x y : f64) : bool := SFltb x y.
(** [f64::is_finite]. *)
Definition f64_is_finite (x : f64) : bool :=
  match x with S754_zero _ | S754_finite _ _ _ => true | _ => false end.
(** [f64::min], on numbers (the callers exclude NaN). *)
Definition f64_min (x y : f64) : f64 := if f64_lt y x then y else x.

(** ** Statuses, errors, decisions *)

Module TaskRunStatus.
Inductive t := Active | Suspended | Paused | Completed | Failed (reason : string) | Cancelled (reason : string).
#[global] Instance eq_dec : EqDecision t.
Proof. solve_decision. Defined.
End TaskRunStatus.

Module RunError.
Inductive t :=
| NotFound (s : string)
| AlreadyExists (s : string)
| InvalidState (s : string)
| BudgetExceeded (s : string)
| PermissionDenied (s : string).
#[global] Instance eq_dec : EqDecision t.
Proof. solve_decision. Defined.
End RunError.

Module RoundDecision.
Inductive t := ContinueAllowed | Blocked (reason : string).
#[global] Instance eq_dec : EqDecision t.
Proof. solve_decision. Defined.
End RoundDecision.

(** ** Configuration *)

Module RetryConfig.
Record t := mk {
  llm_max_retries : option Z;
  llm_base_delay_ms : option Z;
  llm_max_delay_ms : option Z;
  tool_max_retries : option Z;
  tool_base_delay_ms : option Z;
  tool_max_delay_ms : option Z
}.
#[global] Instance eq_dec : EqDecision t.
Proof. solve_decision. Defined.

Record Defaults := mkDefaults {
  d_llm_max_retries : Z;
  d_llm_base_delay_ms : Z;
  d_llm_max_delay_ms : Z;
  d_tool_max_retries : Z;
  d_tool_base_delay_ms : Z;
  d_tool_max_delay_ms : Z
}.

Definition MAX_RETRIES_CAP : Z := 10.
Definition MAX_DELAY_MS_CAP : Z := 300000.
Definition clamp_retries (n : Z) : Z := Z.min n MAX_RETRIES_CAP.
Definition clamp_delay (n : Z) : Z := Z.min n MAX_DELAY_MS_CAP.

Definition apply_defaults (c : t) : Defaults := {|
  d_llm_max_retries := clamp_retries (default 3 (llm_max_retries c));
  d_llm_base_delay_ms := clamp_delay (default 1000 (llm_base_delay_ms c));
  d_llm_max_delay_ms := clamp_delay (default 30000 (llm_max_delay_ms c));
  d_tool_max_retries := clamp_retries (default 2 (tool_max_retries c));
  d_tool_base_delay_ms := clamp_delay (default 500 (tool_base_delay_ms c));
  d_tool_max_delay_ms := clamp_delay (default 10000 (tool_max_delay_ms c))
|}.
End RetryConfig.

Module RepetitionGuardConfig.
Record t := mk {
  enabled : option bool;
  window_size : option Z;
  repeat_threshold : option Z;
  action : option string
}.
#[global] Instance eq_dec : EqDecision t.
Proof. solve_decision. Defined.

Record Defaults := mkDefaults {
  d_enabled : bool;
  d_window_size : Z;
  d_repeat_threshold : Z;
  d_action : string
}.

Definition apply_defaults (c : t) : Defaults := {|
  d_enabled := default true (enabled c);
  d_window_size := default 10 (window_size c);
  d_repeat_threshold := default 3 (repeat_threshold c);
  d_action := default "warn-then-terminate" (action c)
|}.
End RepetitionGuardConfig.

Module RunConfig.
Record t := mk {
  token_limit : option Z;
  cost_usd_limit : option f64;
  rounds_limit : option Z;
  retry_overrides : option RetryConfig.t;
  repetition_guard : option RepetitionGuardConfig.t
}.
End RunConfig.

(** ** Runs *)

Module BudgetState.
Record t := mk {
  token_used : Z;
  token_reserved : Z;
  token_limit : option Z;
  cost_usd : f64;
  cost_reserved : f64;
  cost_limit : option f64;
  rounds_used : Z;
  rounds_limit : option Z
}.
#[global] Instance eq_dec : EqDecision t.
Proof. solve_decision. Defined.

Definition from_config (cfg : RunConfig.t) : t := {|
  token_used := 0;
  token_reserved := 0;
  token_limit := RunConfig.token_limit cfg;
  cost_usd := f64_zero;
  cost_reserved := f64_zero;
  cost_limit := RunConfig.cost_usd_limit cfg;
  rounds_used := 0;
  rounds_limit := RunConfig.rounds_limit cfg
|}.

(** [b.token_reserved = 0; b.cost_reserved = 0.0]. *)
Definition drain (b : t) : t :=
  mk (token_used b) 0 (token_limit b) (cost_usd b) f64_zero (cost_limit b) (rounds_used b) (rounds_limit b).

(** [b.token_reserved += tokens; b.cost_reserved += cost] of a reservation. *)
Definition reserve (tokens : Z) (cost : f64) (b : t) : t :=
  mk (token_used b) (sat_add_u64 (token_reserved b) tokens) (token_limit b) (cost_usd b)
    (f64_add (cost_reserved b) cost) (cost_limit b) (rounds_used b) (rounds_limit b).

(** What a commit moves from reserved to used. *)
Definition spend (tokens : Z) (cost : f64) (b : t) : t :=
  mk (sat_add_u64 (token_used b) tokens) (token_reserved b - tokens) (token_limit b)
    (f64_add (cost_usd b) cost) (f64_sub (cost_reserved b) cost) (cost_limit b) (rounds_used b) (rounds_limit b).

(** [b.rounds_used = b.rounds_used.saturating_add(1)]. *)
Definition next_round (b : t) : t :=
  mk (token_used b) (token_reserved b) (token_limit b) (cost_usd b) (cost_reserved b) (cost_limit b)
    (sat_add_u32 (rounds_used b) 1) (rounds_limit b).
End BudgetState.

Module Run.
Record t := mk {
  id : string;
  task_id : string;
  controller_agent : string;
  status : TaskRunStatus.t;
  root_await : option string;
  budget : BudgetState.t;
  iteration : Z;
  created_at : Z;
  updated_at : Z;
  pause_pending : option string;
  cancel_pending : option string;
  retry_overrides : option RetryConfig.t;
  repetition_guard : option RepetitionGuardConfig.t
}.
#[global] Instance eq_dec : EqDecision t.
Proof. solve_decision. Defined.

(** [Run::new], with the id [RunId::new_random] draws. *)
Definition new (new_id task_id controller_agent : string) (cfg : RunConfig.t) (now : Z) : t := {|
  id := new_id;
  task_id := task_id;
  controller_agent := controller_agent;
  status := TaskRunStatus.Active;
  root_await := None;
  budget := BudgetState.from_config cfg;
  iteration := 0;
  created_at := now;
  updated_at := now;
  pause_pending := None;
  cancel_pending := None;
  retry_overrides := RunConfig.retry_overrides cfg;
  repetition_guard := RunConfig.repetition_guard cfg
|}.

(** The assignments the operations make. *)
Definition set_status (s : TaskRunStatus.t) (r : t) : t :=
  mk (id r) (task_id r) (controller_agent r) s (root_await r) (budget r) (iteration r) (created_at r)
    (updated_at r) (pause_pending r) (cancel_pending r) (retry_overrides r) (repetition_guard r).
Definition set_root_await (a : option string) (r : t) : t :=
  mk (id r) (task_id r) (controller_agent r) (status r) a (budget r) (iteration r) (created_at r)
    (updated_at r) (pause_pending r) (cancel_pending r) (retry_overrides r) (repetition_guard r).
Definition set_budget (f : BudgetState.t → BudgetState.t) (r : t) : t :=
  mk (id r) (task_id r) (controller_agent r) (status r) (root_await r) (f (budget r)) (iteration r)
    (created_at r) (updated_at r) (pause_pending r) (cancel_pending r) (retry_overrides r) (repetition_guard r).
Definition set_iteration (n : Z) (r : t) : t :=
  mk (id r) (task_id r) (controller_agent r) (status r) (root_await r) (budget r) n (created_at r)
    (updated_at r) (pause_pending r) (cancel_pending r) (retry_overrides r) (repetition_guard r).
Definition touch (now : Z) (r : t) : t :=
  mk (id r) (task_id r) (controller_agent r) (status r) (root_await r) (budget r) (iteration r) (created_at r)
    now (pause_pending r) (cancel_pending r) (retry_overrides r) (repetition_guard r).
Definition set_pause (p : option string) (r : t) : t :=
  mk (id r) (task_id r) (controller_agent r) (status r) (root_await r) (budget r) (iteration r) (created_at r)
    (updated_at r) p (cancel_pending r) (retry_overrides r) (repetition_guard r).
Definition set_cancel (c : option string) (r : t) : t :=
  mk (id r) (task_id r) (controller_agent r) (status r) (root_await r) (budget r) (iteration r) (created_at r)
    (updated_at r) (pause_pending r) c (retry_overrides r) (repetition_guard r).
End Run.

Definition is_live_status (s : TaskRunStatus.t) : bool :=
  match s with
  | TaskRunStatus.Active | TaskRunStatus.Suspended | TaskRunStatus.Paused => true
  | _ => false
  end.

Definition is_live (r : Run.t) : bool := is_live_status (Run.status r).

Definition is_active (r : Run.t) : bool := bool_decide (Run.status r = TaskRunStatus.Active).
Definition is_suspended (r : Run.t) : bool := bool_decide (Run.status r = TaskRunStatus.Suspended).

Definition task_run_status_label (s : TaskRunStatus.t) : string :=
  match s with
  | TaskRunStatus.Active => "active"
  | TaskRunStatus.Suspended => "suspended"
  | TaskRunStatus.Paused => "paused"
  | TaskRunStatus.Completed => "completed"
  | TaskRunStatus.Failed _ => "failed"
  | TaskRunStatus.Cancelled _ => "cancelled"
  end.

(** ** Identifiers *)

Definition id_byte (extra : list ascii) (a : ascii) : bool := is_ascii_alphanumeric a || bool_decide (a ∈ extra).

Definition validate_id (max : Z) (extra : list ascii) (s : string) : result string unit :=
  _ ← guard_err (String.eqb s "") "empty";
  _ ← guard_err (max <? len s) "overlong";
  guard_err (negb (all_bytes (id_byte extra) s)) "invalid-char".

Definition validate_run_id (s : string) : result string unit := validate_id 64 ["_"%char; "-"%char] s.
Definition validate_task_id (s : string) : result string unit :=
  validate_id 128 ["_"%char; "-"%char; ":"%char; "."%char] s.
Definition validate_agent_id (s : string) : result string unit := validate_task_id s.
Definition validate_session_id (s : string) : result string unit := validate_run_id s.
Definition is_auto_mode (task_id : string) : bool := starts_with "auto:" task_id.

(** [.map_err(|e| RunError::PermissionDenied(format!(...)))]. *)
Definition deny_as {A} (msg : string) (r : result string A) : result RunError.t A :=
  match r with
  | Ok a => Ok a
  | Err e => Err (RunError.PermissionDenied (msg +:+ ": " +:+ e))
  end.

(** ** Reasons *)

Definition MAX_REASON_LEN_BYTES : Z := 256.

Definition strip_char (c : string) : string :=
  if String.eqb c (String "009" "") || String.eqb c " " || negb (is_control c) then c else "_".

(** The ellipsis is U+2026. *)
Definition truncated_mark : string :=
  String "226" (String "128" (String "166" "")) +:+ "[truncated]".

Definition truncate_reason (s : string) : string :=
  let stripped := of_chars (strip_char <$> chars s) in
  if len stripped <=? MAX_REASON_LEN_BYTES then stripped
  else substring 0 (floor_char_boundary stripped (Z.to_nat MAX_REASON_LEN_BYTES)) stripped +:+ truncated_mark.

(** ** Events *)

Module RunEvent.
Inductive Value := VString (s : string) | VNumber (n : Z) | VFloat (x : f64).
#[global] Instance value_eq_dec : EqDecision Value.
Proof. solve_decision. Defined.

(** [trace_id] is [None] for the fresh UUID of [base_event]. *)
Record t := mk {
  event_type : string;
  run_id : option string;
  task_id : option string;
  agent_id : string;
  payload : list (string * Value);
  trace_id : option string;
  parent_span_id : option string
}.
#[global] Instance eq_dec : EqDecision t.
Proof. solve_decision. Defined.

Definition base_event (event_type : string) (run_id task_id : option string) (agent_id : string)
    (payload : list (string * Value)) : t := mk event_type run_id task_id agent_id payload None None.

(** The event of a run with one text field, the shape of seven builders. *)
Definition text_event (event_type key : string) (id task agent text : string) : t :=
  base_event event_type (Some id) (Some task) agent [(key, VString text)].

Definition run_created_event (id task agent : string) : t :=
  base_event "run.created" (Some id) (Some task) agent
    [("task_id", VString task); ("controller_agent", VString agent)].
Definition run_reused_event (id task agent status : string) : t :=
  base_event "run.reused" (Some id) (Some task) agent
    [("task_id", VString task); ("controller_agent", VString agent); ("status", VString status)].
Definition run_round_completed_event (id task agent : string) (iteration token_used : Z) (cost_usd : f64)
    (decision : string) (trace parent_span : option string) : t :=
  mk "run.round_completed" (Some id) (Some task) agent
    [("iteration", VNumber iteration); ("token_used", VNumber token_used); ("cost_usd", VFloat cost_usd);
     ("decision", VString decision)] trace parent_span.
Definition run_completed_event : string → string → string → string → t := text_event "run.completed" "outcome".
Definition run_suspended_event : string → string → string → string → t :=
  text_event "run.suspended" "root_await_session_id".
Definition run_resumed_event : string → string → string → string → t := text_event "run.resumed" "reason".
Definition run_paused_event : string → string → string → string → t := text_event "run.paused" "reason".
Definition run_failed_event : string → string → string → string → t := text_event "run.failed" "reason".
Definition run_cancelled_event : string → string → string → string → t := text_event "run.cancelled" "reason".
Definition run_interrupted_event : string → string → string → string → t := text_event "run.interrupted" "reason".
Definition run_repetition_detected_event (run_id task_id : option string) (agent detection_type details : string)
    (repeat_count : Z) (action_taken : string) : t :=
  base_event "run.repetition_detected" run_id task_id agent
    [("detection_type", VString detection_type); ("details", VString details);
     ("repeat_count", VNumber repeat_count); ("action_taken", VString action_taken)].
End RunEvent.

Definition DECISION_CONTINUE_ALLOWED : string := "continue-allowed".
Definition DECISION_BLOCKED_ROUNDS_EXCEEDED : string := "blocked:rounds-exceeded".
Definition DECISION_BLOCKED_CANCEL_PENDING : string := "blocked:cancel-pending".

(** The same builders on a run. *)
Definition run_event (build : string → string → string → string → RunEvent.t) (r : Run.t) (text : string)
    : RunEvent.t := build (Run.id r) (Run.task_id r) (Run.controller_agent r) text.
