(* ===== verification/RunStore.v ===== *)
(** * The run store and its files

    Models [crates/run-manager/src/store.rs], the table of runs with the index
    of live runs by task, and [persist.rs], one YAML file per task.  A file is
    what the directory holds for it; a write that fails changes no file.  YAML
    text is class [RunYaml]. *)
From S2P Require Import Prelude RustStr RunData.
Open Scope string_scope.
Open Scope list_scope.
Open Scope Z_scope.

(** ** The store *)

Record RunStore := mkStore {
  runs : gmap string Run.t;
  live_by_task : gmap string string
}.

Definition store_new : RunStore := mkStore ∅ ∅.

Definition find_live_by_task (task_id : string) (s : RunStore) : option Run.t :=
  run_id ← live_by_task s !! task_id;
  run ← runs s !! run_id;
  if is_live run then Some run else None.

Definition insert (run : Run.t) (s : RunStore) : RunStore :=
  mkStore (<[Run.id run := run]> (runs s))
    (if is_live run then <[Run.task_id run := Run.id run]> (live_by_task s) else live_by_task s).

Definition get (run_id : string) (s : RunStore) : option Run.t := runs s !! run_id.

(** [get_mut] and an assignment through it. *)
Definition update (run_id : string) (f : Run.t → Run.t) (s : RunStore) : RunStore :=
  mkStore (alter f run_id (runs s)) (live_by_task s).

Definition drop_live_by_task (task_id : string) (s : RunStore) : RunStore :=
  mkStore (runs s) (delete task_id (live_by_task s)).

Definition remove (run_id : string) (s : RunStore) : RunStore := mkStore (delete run_id (runs s)) (live_by_task s).

Definition runs_len (s : RunStore) : Z := Z.of_nat (size (runs s)).

(** The order [HashMap::values] runs in: any. *)
Class RunOrder := iter_runs : gmap string Run.t → list Run.t.
Class RunOrderLaws `{RunOrder} : Prop := iter_runs_perm rs : iter_runs rs ≡ₚ (map_to_list rs).*2.

Definition run_order_model : RunOrder := λ rs, (map_to_list rs).*2.
Lemma run_order_model_laws : @RunOrderLaws run_order_model.
Proof. intros rs. reflexivity. Qed.

Lemma elem_iter_runs `{RunOrderLaws} rs r :
  r ∈ iter_runs rs ↔ ∃ id, rs !! id = Some r.
Proof.
  rewrite (iter_runs_perm rs), list_elem_of_fmap. split.
  - intros ([id r'] & -> & Hin%elem_of_map_to_list). eauto.
  - intros (id & Hid). exists (id, r). by rewrite elem_of_map_to_list.
Qed.

(** ** Files *)

Module RunFile.
(** A regular file has a size and a text, unless it cannot be read. *)
Inductive t := Regular (bytes : Z) (body : option string) | Symlink | NotRegular | NoMetadata.
#[global] Instance eq_dec : EqDecision t.
Proof. solve_decision. Defined.
End RunFile.

(** [serde_yml] on runs. *)
Class RunYaml := {
  to_yaml : Run.t → option string;
  of_yaml : string → option Run.t
}.

(** Serializing a run does not fail, and the text reads back to it. *)
Class RunYamlLaws `{RunYaml} : Prop := {
  to_yaml_total r : is_Some (to_yaml r);
  of_to_yaml r body : to_yaml r = Some body → of_yaml body = Some r
}.

(** The state directory: its files, which coming writes fail, and whether it
    can be listed. *)
Record StateDir := mkDir {
  files : gmap string RunFile.t;
  write_faults : list bool;
  listable : bool
}.

Definition MAX_YAML_BODY_BYTES : Z := 65536.
Definition MAX_RUNS_PER_STORE : Z := 100000.
Definition MAX_SCAN_ENTRIES : Z := MAX_RUNS_PER_STORE * 2.

Definition validate_path_safe (task_id : string) : result string unit :=
  _ ← guard_err (String.eqb task_id "") "empty";
  _ ← guard_err (String.eqb task_id "." || String.eqb task_id "..") "reserved";
  _ ← guard_err (starts_with "." task_id) "leading-dot";
  guard_err (contains_str ".." task_id) "interior-dotdot".

Definition target_path (task_id : string) : string := task_id +:+ ".yaml".

Section files.
Context `{RunYaml}.

Definition persist (run : Run.t) : M StateDir RunError.t unit := λ d,
  match deny_as "persist-unsafe-task-id" (validate_path_safe (Run.task_id run)) with
  | Err e => (Err e, d)
  | Ok _ =>
      match to_yaml run with
      | None => (Err (RunError.PermissionDenied "persist-serialize"), d)
      | Some body =>
          let faults := tl (write_faults d) in
          if default false (head (write_faults d))
          then (Err (RunError.PermissionDenied "persist-write"), mkDir (files d) faults (listable d))
          else (Ok tt, mkDir (<[target_path (Run.task_id run) := RunFile.Regular (len body) (Some body)]> (files d))
                         faults (listable d))
      end
  end.

(** The order [read_dir] lists the entries in: any. *)
Class DirOrder := iter_files : gmap string RunFile.t → list (string * RunFile.t).

(** [path.file_stem()] of a path whose [extension()] is [yaml]. *)
Definition yaml_stem (name : string) : option string :=
  match strip_suffix ".yaml" name with
  | Some "" | None => None
  | Some stem => Some stem
  end.

Definition is_terminal (s : TaskRunStatus.t) : bool := negb (is_live_status s).

(** The numeric and state-machine checks on a loaded row. *)
Definition budget_row_ok (b : BudgetState.t) : bool :=
  f64_is_finite (BudgetState.cost_usd b) && negb (f64_lt (BudgetState.cost_usd b) f64_zero)
  && f64_is_finite (BudgetState.cost_reserved b) && negb (f64_lt (BudgetState.cost_reserved b) f64_zero)
  && match BudgetState.cost_limit b with
     | Some limit => f64_is_finite limit && negb (f64_lt limit f64_zero)
     | None => true
     end.

Definition state_row_ok (run : Run.t) : bool :=
  match Run.status run, Run.root_await run with
  | TaskRunStatus.Active, Some _ => false
  | TaskRunStatus.Completed, _ | TaskRunStatus.Failed _, _ | TaskRunStatus.Cancelled _, _ =>
      (BudgetState.token_reserved (Run.budget run) =? 0)
      && SFeqb (BudgetState.cost_reserved (Run.budget run)) f64_zero
  | _, _ => true
  end.

(** One entry with a [yaml] extension: the run it holds, if it passes. *)
Definition load_file (stem : string) (f : RunFile.t) : option Run.t :=
  match f with
  | RunFile.Regular bytes (Some body) =>
      if MAX_YAML_BODY_BYTES <? bytes then None
      else
        run ← of_yaml body;
        if String.eqb stem (Run.task_id run)
           && is_ok (validate_run_id (Run.id run)) && is_ok (validate_task_id (Run.task_id run))
           && is_ok (validate_agent_id (Run.controller_agent run))
           && is_ok (validate_path_safe (Run.task_id run))
           && budget_row_ok (Run.budget run) && state_row_ok run
        then Some run else None
  | _ => None
  end.

(** The loop of [load_all]: [scanned] entries seen, [acc] runs kept, newest
    first, [invalid] entries refused.  The scan cap and the row cap end it. *)
Fixpoint load_entries (entries : list (string * RunFile.t)) (scanned : Z) (acc : list Run.t) (invalid : Z)
    : list Run.t * Z :=
  match entries with
  | [] => (rev acc, invalid)
  | (name, f) :: entries =>
      let scanned := scanned + 1 in
      if MAX_SCAN_ENTRIES <? scanned then (rev acc, sat_add_u32 invalid 1)
      else
        match yaml_stem name with
        | None => load_entries entries scanned acc invalid
        | Some stem =>
            match load_file stem f with
            | None => load_entries entries scanned acc (sat_add_u32 invalid 1)
            | Some run =>
                if MAX_RUNS_PER_STORE <=? size_of acc then (rev acc, sat_add_u32 invalid 1)
                else load_entries entries scanned (run :: acc) invalid
            end
        end
  end.

Definition load_all `{DirOrder} (d : StateDir) : result RunError.t (list Run.t * Z) :=
  if listable d then Ok (load_entries (iter_files (files d)) 0 [] 0)
  else Err (RunError.PermissionDenied "load_all-read_dir").
End files.

Class DirOrderLaws `{DirOrder} : Prop := iter_files_perm fs : iter_files fs ≡ₚ map_to_list fs.
