(* ===== verification/RunManager.v ===== *)
(** * The run manager

    Models [crates/run-manager/src/run.rs], [budget.rs] and [recovery.rs]: what
    each operation does under one acquisition of a lock is a section, a state
    transformer; an operation is a sequence of sections.  File [RunOps] runs
    operations with other callers' sections in between. *)
From S2P Require Import Prelude RustStr RunData RunStore.
Open Scope string_scope.
Open Scope list_scope.
Open Scope Z_scope.

(** ** The services a manager is wired to *)

Module OrchestrationError.
Inductive t :=
| CapabilityDenied (s : string)
| InvalidTarget (s : string)
| DeadlockDetected (s : string)
| SessionLimitExceeded (s : string)
| SessionClosed (s : string)
| IdleTimeoutExceeded (s : string)
| NotFound (s : string)
| InvalidRequest (s : string)
| Downstream (s : string).
End OrchestrationError.

(** [AwaitTreeSummary] without its per-session rows. *)
Module AwaitTreeSummary.
Record t := mk { depth : Z; total_sessions : Z; pending_replies : Z }.
End AwaitTreeSummary.

(** What the session service would answer now. *)
Record AwaitSessionRef := mkSessions {
  exists_session : string → bool;
  walk_tree : string → option AwaitTreeSummary.t;
  close_session : string → string → result OrchestrationError.t unit
}.

(** What the cascade reads of [AgentTreeSnapshotData]. *)
Record AgentTree := mkTree {
  nodes : list string;
  children_of : gmap string (list string)
}.

(** ** The state *)

(** [completions] and [interrupts] record what the optional sinks were told,
    [closes] the sessions that were asked to close. *)
Record RunManager := mkManager {
  store : RunStore;
  persister : option StateDir;
  await_session_ref : option AwaitSessionRef;
  agent_tree : option AgentTree;
  terminated_agents : gset string;
  scoped_block_counts : gmap string Z;
  event_bus : list RunEvent.t;
  completions : option (list (string * string * string * string));
  interrupts : option (list (string * string * string * string));
  closes : list (string * string)
}.

Definition manager_new : RunManager := mkManager store_new None None None ∅ ∅ [] None None [].

Definition set_store (f : RunStore → RunStore) (m : RunManager) : RunManager :=
  mkManager (f (store m)) (persister m) (await_session_ref m) (agent_tree m) (terminated_agents m)
    (scoped_block_counts m) (event_bus m) (completions m) (interrupts m) (closes m).
Definition set_persister (d : option StateDir) (m : RunManager) : RunManager :=
  mkManager (store m) d (await_session_ref m) (agent_tree m) (terminated_agents m)
    (scoped_block_counts m) (event_bus m) (completions m) (interrupts m) (closes m).
Definition set_services (ar : option AwaitSessionRef) (tree : option AgentTree) (m : RunManager) : RunManager :=
  mkManager (store m) (persister m) ar tree (terminated_agents m) (scoped_block_counts m) (event_bus m)
    (completions m) (interrupts m) (closes m).
Definition set_terminated (f : gset string → gset string) (m : RunManager) : RunManager :=
  mkManager (store m) (persister m) (await_session_ref m) (agent_tree m) (f (terminated_agents m))
    (scoped_block_counts m) (event_bus m) (completions m) (interrupts m) (closes m).
Definition set_scoped (f : gmap string Z → gmap string Z) (m : RunManager) : RunManager :=
  mkManager (store m) (persister m) (await_session_ref m) (agent_tree m) (terminated_agents m)
    (f (scoped_block_counts m)) (event_bus m) (completions m) (interrupts m) (closes m).
Definition add_event (e : RunEvent.t) (m : RunManager) : RunManager :=
  mkManager (store m) (persister m) (await_session_ref m) (agent_tree m) (terminated_agents m)
    (scoped_block_counts m) (event_bus m ++ [e]) (completions m) (interrupts m) (closes m).
Definition add_completion (x : string * string * string * string) (m : RunManager) : RunManager :=
  mkManager (store m) (persister m) (await_session_ref m) (agent_tree m) (terminated_agents m)
    (scoped_block_counts m) (event_bus m) ((λ l, l ++ [x]) <$> completions m) (interrupts m) (closes m).
Definition add_interrupt (x : string * string * string * string) (m : RunManager) : RunManager :=
  mkManager (store m) (persister m) (await_session_ref m) (agent_tree m) (terminated_agents m)
    (scoped_block_counts m) (event_bus m) (completions m) ((λ l, l ++ [x]) <$> interrupts m) (closes m).
Definition add_close (x : string * string) (m : RunManager) : RunManager :=
  mkManager (store m) (persister m) (await_session_ref m) (agent_tree m) (terminated_agents m)
    (scoped_block_counts m) (event_bus m) (completions m) (interrupts m) (closes m ++ [x]).

Abbreviation Sec := (M RunManager RunError.t).

(** ** Reading and writing one run *)

Definition run_of (id : string) : Sec Run.t :=
  m ← get_state;
  lift (ok_or (get id (store m)) (RunError.NotFound id)).

Definition write_run (id : string) (f : Run.t → Run.t) : Sec unit := modify (set_store (update id f)).

(** The assignments shared by every terminal transition. *)
Definition settle (status : TaskRunStatus.t) (now : Z) (r : Run.t) : Run.t :=
  Run.touch now (Run.set_budget BudgetState.drain (Run.set_cancel None (Run.set_pause None (Run.set_status status r)))).

(** ... with [store.drop_live_by_task(&task_id)]. *)
Definition settle_run (id : string) (r : Run.t) (f : Run.t → Run.t) : Sec unit :=
  modify (set_store (λ s, drop_live_by_task (Run.task_id r) (update id f s))).

Definition invalid_state {A} (msg : string) : Sec A := throw (RunError.InvalidState msg).

(** ** Creation *)

Definition creation_blocked (agent : string) (m : RunManager) : bool :=
  bool_decide (agent ∈ terminated_agents m) || (0 <? default 0 (scoped_block_counts m !! agent)).

(** The checks of [ensure_run_inner] before any lock. *)
Definition ensure_run_checks (has_persister : bool) (task agent : string) (cfg : RunConfig.t)
    : result RunError.t unit :=
  _ ← deny_as "invalid-task-id" (validate_task_id task);
  _ ← deny_as "invalid-controller-agent" (validate_agent_id agent);
  _ ← (if has_persister then deny_as "persist-unsafe-task-id" (validate_path_safe task) else Ok tt);
  match RunConfig.cost_usd_limit cfg with
  | Some limit =>
      guard_err (negb (f64_is_finite limit) || f64_lt limit f64_zero) (RunError.PermissionDenied "invalid-cost-usd-limit")
  | None => Ok tt
  end.

(** Reuse the live run of the task or create one; the creation blocks are read
    under guards held for the whole section. *)
Definition ensure_run_section (now : Z) (new_id : string) (strict : bool) (task agent : string) (cfg : RunConfig.t)
    : Sec (string * RunEvent.t * option Run.t) :=
  m ← get_state;
  _ ← fail_if (creation_blocked agent m) (RunError.PermissionDenied "run-creation-blocked-for-terminating-agent");
  match find_live_by_task task (store m) with
  | Some existing =>
      _ ← fail_if (strict && negb (String.eqb (Run.controller_agent existing) agent))
            (RunError.PermissionDenied "task-owned-by-different-agent");
      mret (Run.id existing,
            RunEvent.run_reused_event (Run.id existing) task agent (task_run_status_label (Run.status existing)), None)
  | None =>
      _ ← fail_if (MAX_RUNS_PER_STORE <=? runs_len (store m)) (RunError.PermissionDenied "run-store-cap-reached");
      let run := Run.new new_id task agent cfg now in
      _ ← modify (set_store (insert run));
      mret (new_id, RunEvent.run_created_event new_id task agent, Some run)
  end.

(** The undoing of a creation whose file could not be written. *)
Definition rollback_section (run : Run.t) : Sec unit :=
  modify (set_store (λ s, remove (Run.id run) (drop_live_by_task (Run.task_id run) s))).

(** ** Rounds *)

Definition rounds_blocked (b : BudgetState.t) : bool :=
  match BudgetState.rounds_limit b with Some limit => limit <? BudgetState.rounds_used b | None => false end.

Definition round_label (r : Run.t) : string :=
  if rounds_blocked (Run.budget r) then DECISION_BLOCKED_ROUNDS_EXCEEDED
  else if bool_decide (is_Some (Run.cancel_pending r)) then DECISION_BLOCKED_CANCEL_PENDING
  else DECISION_CONTINUE_ALLOWED.

(** [rounds_used], [iteration] and [updated_at] of the finished round. *)
Definition next_round (now : Z) (r : Run.t) : Run.t :=
  let r := Run.set_budget BudgetState.next_round r in
  Run.touch now (Run.set_iteration (BudgetState.rounds_used (Run.budget r)) r).

Definition blocked_or_continue (b : BudgetState.t) : RoundDecision.t :=
  if rounds_blocked b then RoundDecision.Blocked "rounds-exceeded" else RoundDecision.ContinueAllowed.

(** What the locked section of a round decides. *)
Record RoundOutcome := mkRoundOutcome {
  round_event : RunEvent.t;
  settle_event : option RunEvent.t;
  cascade_reason : option string;
  round_decision : RoundDecision.t
}.

(** The rest of the section, after the counters moved. *)
Definition settle_round (now : Z) (id : string) (r : Run.t) (round_event : RunEvent.t) : Sec RoundOutcome :=
  match Run.cancel_pending r, Run.pause_pending r with
  | Some reason, _ =>
      let reason := truncate_reason reason in
      _ ← settle_run id r (settle (TaskRunStatus.Cancelled reason) now);
      mret (mkRoundOutcome round_event (Some (run_event RunEvent.run_cancelled_event r reason)) (Some reason)
              (RoundDecision.Blocked "cancel-pending"))
  | None, Some reason =>
      let reason := truncate_reason reason in
      _ ← write_run id (λ r, Run.set_pause None (Run.set_status TaskRunStatus.Paused r));
      mret (mkRoundOutcome round_event (Some (run_event RunEvent.run_paused_event r reason)) (Some reason)
              (blocked_or_continue (Run.budget r)))
  | None, None => mret (mkRoundOutcome round_event None None (blocked_or_continue (Run.budget r)))
  end.

(** ** Post-order descendants *)

Definition tree_cycle : RunError.t := RunError.InvalidState "agent-tree-cycle-in-descendant-cascade".

(** The walk's sets and output, newest last. *)
Record WalkState := mkWalk { visiting : gset string; visited : gset string; out : list string }.

Section walk.
Context (children : string → list string) (root : string).

(** [visit]: [fuel] is [max_depth + 1 - depth], so running out of it is the
    depth test. *)
Fixpoint visit (fuel : nat) (current : string) (w : WalkState) : result RunError.t WalkState :=
  match fuel with
  | O => Err tree_cycle
  | S fuel =>
      if bool_decide (current ∈ visited w) then Ok w
      else if bool_decide (current ∈ visiting w) then Err tree_cycle
      else
        let fix visit_children (cs : list string) (w : WalkState) : result RunError.t WalkState :=
          match cs with
          | [] => Ok w
          | c :: cs =>
              if String.eqb c root then Err tree_cycle
              else w ← visit fuel c w; visit_children cs w
          end in
        w ← visit_children (children current) (mkWalk ({[current]} ∪ visiting w) (visited w) (out w));
        Ok (mkWalk (visiting w ∖ {[current]}) ({[current]} ∪ visited w)
              (if String.eqb current root then out w else out w ++ [current]))
  end.
End walk.

Definition max_depth (t : AgentTree) : nat := S (length (nodes t)).

Definition post_order_descendant_agents (t : AgentTree) (root : string) : result RunError.t (list string) :=
  w ← visit (λ a, default [] (children_of t !! a)) root (S (max_depth t)) root (mkWalk ∅ ∅ []);
  Ok (out w).

(** ** Live runs by agent *)

Section order.
Context `{RunOrder}.

#[local] Instance str_le_decision : RelDecision str_le.
Proof. intros s t. unfold str_le. apply _. Defined.

Definition live_run_ids_for_agent_in_store (s : RunStore) (agent : string) : list string :=
  merge_sort str_le
    (Run.id <$> List.filter (λ r, String.eqb (Run.controller_agent r) agent && is_live r) (iter_runs (runs s))).

Definition live_run_ids_for_agents_in_store (s : RunStore) (agents : list string) : list string :=
  agents ≫= live_run_ids_for_agent_in_store s.

(** [AgentRunResolver::resolve]: the run and task of the agent's only live run. *)
Definition resolve (agent : string) (s : RunStore) : option (string * string) :=
  match List.filter (λ r, String.eqb (Run.controller_agent r) agent && is_live r) (iter_runs (runs s)) with
  | [r] => Some (Run.id r, Run.task_id r)
  | _ => None
  end.
End order.

(** ** Terminal transitions *)

Definition complete_run_section (now : Z) (id : string) : Sec Run.t :=
  r ← run_of id;
  _ ← fail_if (negb (is_active r)) (RunError.InvalidState "complete-run-on-non-active");
  _ ← settle_run id r (settle TaskRunStatus.Completed now);
  mret r.

Definition fail_run_section (now : Z) (id reason : string) : Sec Run.t :=
  r ← run_of id;
  _ ← fail_if (negb (is_active r)) (RunError.InvalidState "fail-run-on-non-active");
  _ ← settle_run id r (settle (TaskRunStatus.Failed reason) now);
  mret r.

(** [status = Cancelled; root_await = None; ...]. *)
Definition cancel_settle (reason : string) (now : Z) (r : Run.t) : Run.t :=
  Run.set_root_await None (settle (TaskRunStatus.Cancelled reason) now r).

Definition force_cancel_section (now : Z) (id reason : string) : Sec (option RunEvent.t) :=
  m ← get_state;
  match get id (store m) with
  | None => mret None
  | Some r =>
      if is_terminal (Run.status r) then mret None
      else
        _ ← settle_run id r (cancel_settle reason now);
        mret (Some (run_event RunEvent.run_cancelled_event r reason))
  end.

(** [cancel_descendant_run] under the write lock: done with nothing to do, an
    event to emit, or another try. *)
Inductive DescendantStep := Gone | CancelledNow (e : RunEvent.t) | Raced.

Definition cancel_descendant_section (now : Z) (id reason : string) (root_await_snapshot : option string)
    : Sec DescendantStep :=
  m ← get_state;
  match get id (store m) with
  | None => mret Gone
  | Some r =>
      if negb (is_live r) then mret Gone
      else if bool_decide (Run.root_await r ≠ root_await_snapshot) && bool_decide (is_Some (Run.root_await r))
      then mret Raced
      else
        _ ← settle_run id r (cancel_settle reason now);
        mret (CancelledNow (run_event RunEvent.run_cancelled_event r reason))
  end.

(** ** Pausing and cancelling *)

Definition pause_suspended_section (now : Z) (id reason : string) (root_await_snapshot : option string)
    : Sec (option RunEvent.t) :=
  r ← run_of id;
  if is_suspended r && bool_decide (Run.root_await r = root_await_snapshot) then
    _ ← write_run id (λ r, Run.touch now (Run.set_pause None (Run.set_root_await None
                             (Run.set_status TaskRunStatus.Paused r))));
    mret (Some (run_event RunEvent.run_paused_event r reason))
  else mret None.

(** [true] when the row changed. *)
Definition arm_pause_section (now : Z) (id reason : string) (root_await_snapshot : option string) : Sec bool :=
  r ← run_of id;
  _ ← fail_if (negb (is_active r)) (RunError.InvalidState "pause-run-raced-from-active");
  _ ← fail_if (bool_decide (is_Some (Run.cancel_pending r))) (RunError.InvalidState "cancel-pending-already-set");
  _ ← fail_if (bool_decide (is_Some root_await_snapshot))
        (RunError.InvalidState "active-with-root-await-invariant-violation");
  match Run.pause_pending r with
  | Some _ => mret false
  | None => _ ← write_run id (λ r, Run.touch now (Run.set_pause (Some reason) r)); mret true
  end.

(** [CancelRecheck]. *)
Inductive CancelRecheck :=
| Settled (e : RunEvent.t)
| RacedTerminal
| RacedLive (status : TaskRunStatus.t) (root_await : option string).

Definition raced (r : Run.t) : CancelRecheck :=
  if is_live r then RacedLive (Run.status r) (Run.root_await r) else RacedTerminal.

Definition cancel_suspended_section (now : Z) (id reason : string) (root_await_snapshot : option string)
    : Sec CancelRecheck :=
  r ← run_of id;
  if is_suspended r && bool_decide (Run.root_await r = root_await_snapshot) then
    _ ← settle_run id r (cancel_settle reason now);
    mret (Settled (run_event RunEvent.run_cancelled_event r reason))
  else mret (raced r).

Definition cancel_paused_section (now : Z) (id reason : string) : Sec CancelRecheck :=
  r ← run_of id;
  if bool_decide (Run.status r = TaskRunStatus.Paused) then
    _ ← settle_run id r (settle (TaskRunStatus.Cancelled reason) now);
    mret (Settled (run_event RunEvent.run_cancelled_event r reason))
  else mret (raced r).

Definition arm_cancel_section (now : Z) (id reason : string) : Sec bool :=
  r ← run_of id;
  _ ← fail_if (negb (is_active r)) (RunError.InvalidState "cancel-run-raced-from-active");
  match Run.cancel_pending r with
  | Some _ => mret false
  | None =>
      _ ← write_run id (λ r, Run.touch now (Run.set_cancel (Some reason) (Run.set_pause None r)));
      mret true
  end.

(** ** Suspending and resuming *)

Definition suspend_run_section (now : Z) (id session_id : string) : Sec RunEvent.t :=
  r ← run_of id;
  _ ← fail_if (negb (is_active r)) (RunError.InvalidState "suspend-run-on");
  _ ← write_run id (λ r, Run.touch now (Run.set_root_await (Some session_id)
                           (Run.set_status TaskRunStatus.Suspended r)));
  mret (run_event RunEvent.run_suspended_event r session_id).

Definition resume_run_section (now : Z) (id reason : string) : Sec RunEvent.t :=
  r ← run_of id;
  match Run.status r with
  | TaskRunStatus.Paused =>
      _ ← write_run id (λ r, Run.touch now (Run.set_pause None (Run.set_status TaskRunStatus.Active r)));
      mret (run_event RunEvent.run_resumed_event r reason)
  | TaskRunStatus.Suspended =>
      _ ← write_run id (λ r, Run.touch now (Run.set_root_await None (Run.set_status TaskRunStatus.Active r)));
      mret (run_event RunEvent.run_resumed_event r reason)
  | _ => invalid_state "resume-run-on"
  end.

Definition resume_if_suspended_section (now : Z) (id reason : string) : Sec (option RunEvent.t) :=
  r ← run_of id;
  if is_suspended r then
    _ ← write_run id (λ r, Run.touch now (Run.set_root_await None (Run.set_status TaskRunStatus.Active r)));
    mret (Some (run_event RunEvent.run_resumed_event r reason))
  else mret None.

(** The recheck of [recover_on_startup]: [true] when the run was interrupted. *)
Definition interrupt_section (now : Z) (id session_id : string) : Sec bool :=
  m ← get_state;
  match get id (store m) with
  | Some r =>
      if is_suspended r && bool_decide (Run.root_await r = Some session_id) then
        _ ← write_run id (λ r, Run.touch now (Run.set_root_await None (Run.set_status TaskRunStatus.Active r)));
        mret true
      else mret false
  | None => mret false
  end.

(** ** The budget *)

Module BudgetDecision.
Inductive t := Allow | Deny (reason : string).
End BudgetDecision.

(** [effective_cost_usd]: the larger of the local and the tracked cost. *)
Definition effective_cost (tracker : option (string → option f64)) (id : string) (b : BudgetState.t) : f64 :=
  match tracker with
  | Some query =>
      match query id with
      | Some tracked => if f64_lt (BudgetState.cost_usd b) tracked then tracked else BudgetState.cost_usd b
      | None => BudgetState.cost_usd b
      end
  | None => BudgetState.cost_usd b
  end.

(** The gates, in their order. *)
Definition budget_gates (tracker : option (string → option f64)) (id : string) (b : BudgetState.t)
    (additional_tokens : Z) (additional_cost : f64) : result string unit :=
  let token_after := sat_add_u64 (sat_add_u64 (BudgetState.token_used b) (BudgetState.token_reserved b)) additional_tokens in
  let cost_after := f64_add (f64_add (effective_cost tracker id b) (BudgetState.cost_reserved b)) additional_cost in
  _ ← guard_err (match BudgetState.rounds_limit b with Some l => l <=? BudgetState.rounds_used b | None => false end)
        "budget-exceeded-rounds";
  _ ← guard_err (match BudgetState.token_limit b with Some l => l <? token_after | None => false end)
        "budget-exceeded-tokens";
  _ ← guard_err (negb (f64_is_finite cost_after)) "budget-cost-overflow";
  guard_err (match BudgetState.cost_limit b with Some l => f64_lt l cost_after | None => false end)
    "budget-exceeded-cost".

Definition budget_check (tracker : option (string → option f64)) (id : string) (additional_tokens : Z)
    (additional_cost : f64) : M RunManager string unit :=
  _ ← fail_if (negb (is_ok (validate_run_id id))) "budget-invalid-run-id";
  _ ← fail_if (negb (f64_is_finite additional_cost) || f64_lt additional_cost f64_zero) "budget-invalid-cost";
  m ← get_state;
  match get id (store m) with
  | None => throw "budget-unknown-run"
  | Some r =>
      _ ← fail_if (negb (is_live r)) "budget-run-terminal";
      _ ← lift (budget_gates tracker id (Run.budget r) additional_tokens additional_cost);
      modify (set_store (update id (Run.set_budget (BudgetState.reserve additional_tokens additional_cost))))
  end.

(** [RunBudget::check]. *)
Definition check (tracker : option (string → option f64)) (id : string) (additional_tokens : Z)
    (additional_cost : f64) (m : RunManager) : BudgetDecision.t * RunManager :=
  match budget_check tracker id additional_tokens additional_cost m with
  | (Ok _, m) => (BudgetDecision.Allow, m)
  | (Err reason, m) => (BudgetDecision.Deny reason, m)
  end.

(** The locked part of [RunBudget::commit]: the committed run. *)
Definition commit_section (id : string) (tokens : Z) (cost : f64) : Sec (option Run.t) :=
  if negb (is_ok (validate_run_id id)) || (negb (f64_is_finite cost) || f64_lt cost f64_zero) then mret None
  else
    m ← get_state;
    match get id (store m) with
    | None => mret None
    | Some r =>
        if negb (is_live r) then mret None
        else
          let b := Run.budget r in
          let f := Run.set_budget (BudgetState.spend (Z.min (BudgetState.token_reserved b) tokens)
                                     (f64_min (BudgetState.cost_reserved b) cost)) in
          _ ← write_run id f;
          mret (Some (f r))
    end.

(** ** Run creation blocks *)

Definition block_agent_section (agent : string) : Sec unit := modify (set_terminated (λ s, {[agent]} ∪ s)).

(** [ScopedRunCreationBlock::add_agents]: the guard holds [held] already. *)
Definition add_agents (agents held : list string) : Sec (list string) :=
  let fresh := foldl (λ acc a, if bool_decide (a ∈ acc) then acc else acc ++ [a]) held agents in
  let added := drop (length held) fresh in
  _ ← modify (set_scoped (λ sc, foldl (λ sc a, <[a := default 0 (sc !! a) + 1]> sc) sc added));
  mret fresh.

(** [Drop]. *)
Definition release (a : string) (sc : gmap string Z) : gmap string Z :=
  match sc !! a with
  | Some n => if n <=? 1 then delete a sc else <[a := n - 1]> sc
  | None => sc
  end.

Definition drop_agents (held : list string) : Sec unit := modify (set_scoped (λ sc, foldl (flip release) sc held)).

(** ** Recovery *)

(** The loop body of [recover_from_disk] on one loaded row, with its counters. *)
Definition recover_row (acc : RunStore * Z * Z) (run : Run.t) : RunStore * Z * Z :=
  let '(s, loaded, invalid) := acc in
  if MAX_RUNS_PER_STORE <=? runs_len s then (s, loaded, sat_add_u32 invalid 1)
  else if bool_decide (is_Some (get (Run.id run) s)) then (s, loaded, invalid)
  else if is_live run && bool_decide (is_Some (find_live_by_task (Run.task_id run) s)) then (s, loaded, invalid)
  else (insert run s, sat_add_u32 loaded 1, invalid).

Definition recover_from_disk_section `{RunYaml, DirOrder} : Sec (Z * Z) :=
  m ← get_state;
  match persister m with
  | None => throw (RunError.PermissionDenied "recover-from-disk-requires-state-dir")
  | Some d =>
      '(rows, invalid) ← lift (load_all d);
      let '(s, loaded, invalid) := foldl recover_row (store m, 0, invalid) rows in
      _ ← modify (set_store (λ _, s));
      mret (loaded, invalid)
  end.

(** ** Files, events and sinks *)

Definition emit (e : RunEvent.t) : Sec unit := modify (add_event e).

(** [self.persister.persist(run)]. *)
Definition persist_section `{RunYaml} (run : Run.t) : Sec unit := λ m,
  match persister m with
  | None => (Ok tt, m)
  | Some d => let (r, d) := persist run d in (r, set_persister (Some d) m)
  end.

(** [ar.close(&sid, reason)]. *)
Definition close_section (session_id reason : string) : Sec (result OrchestrationError.t unit) :=
  m ← get_state;
  match await_session_ref m with
  | None => throw (RunError.PermissionDenied "await-session-ref-not-configured")
  | Some ar =>
      _ ← modify (add_close (session_id, reason));
      mret (close_session ar session_id reason)
  end.
