(* ===== verification/RunOps.v ===== *)
(** * Run manager operations, with other callers in between

    The operations of [RunManager] ([crates/run-manager/src/run.rs],
    [budget.rs], [recovery.rs]), each the sequence of its locked sections.
    Before every section other callers may have taken theirs: [others] lists
    what they do at each such point, as data.  With nothing in [others] an
    operation runs alone. *)
From S2P Require Import Prelude RustStr RunData RunStore RunManager.
Open Scope string_scope.
Open Scope list_scope.
Open Scope Z_scope.

(** ** Sections as data *)

(** A locked section of some other call, with its arguments. *)
Inductive action :=
| Ensure (now : Z) (new_id : string) (strict : bool) (task agent : string) (cfg : RunConfig.t)
| Round (now : Z) (id : string) (trace parent_span : option string)
| Complete (now : Z) (id : string)
| FailRun (now : Z) (id reason : string)
| ForceCancel (now : Z) (id reason : string)
| CancelDescendant (now : Z) (id reason : string) (root_await_snapshot : option string)
| PauseSuspended (now : Z) (id reason : string) (root_await_snapshot : option string)
| ArmPause (now : Z) (id reason : string) (root_await_snapshot : option string)
| CancelSuspended (now : Z) (id reason : string) (root_await_snapshot : option string)
| CancelPaused (now : Z) (id reason : string)
| ArmCancel (now : Z) (id reason : string)
| Suspend (now : Z) (id session_id : string)
| Resume (now : Z) (id reason : string)
| ResumeIfSuspended (now : Z) (id reason : string)
| Interrupt (now : Z) (id session_id : string)
| Reserve (tracker : option (string → option f64)) (id : string) (tokens : Z) (cost : f64)
| Commit (id : string) (tokens : Z) (cost : f64)
| BlockAgent (agent : string)
| AddAgents (agents held : list string)
| DropAgents (held : list string)
| PersistNow (id : string)
| Emit (e : RunEvent.t)
| Close (session_id reason : string)
| Services (ar : option AwaitSessionRef) (tree : option AgentTree).

(** A manager, and what other callers do at the coming points where they can. *)
Record World := mkWorld { manager : RunManager; others : list (list action) }.

Abbreviation RM := (M World RunError.t).

Section ops.
Context `{RunYaml, DirOrder, RunOrder}.

(** The locked section of [complete_round_with_trace], in normal mode. *)
Definition round_section (now : Z) (id : string) (trace parent_span : option string) : Sec RoundOutcome :=
  r ← run_of id;
  _ ← fail_if (negb (is_active r)) (RunError.InvalidState "complete-round-on-non-active");
  m ← get_state;
  _ ← (match agent_tree m with
       | Some tree =>
           if bool_decide (is_Some (Run.pause_pending r)) || bool_decide (is_Some (Run.cancel_pending r))
           then _ ← lift (post_order_descendant_agents tree (Run.controller_agent r)); mret tt
           else mret tt
       | None => mret tt
       end);
  let r' := next_round now r in
  _ ← write_run id (next_round now);
  settle_round now id r'
    (RunEvent.run_round_completed_event (Run.id r') (Run.task_id r') (Run.controller_agent r') (Run.iteration r')
       (BudgetState.token_used (Run.budget r')) (BudgetState.cost_usd (Run.budget r')) (round_label r')
       trace parent_span).

(** Reading a run and writing its file, uninterrupted. *)
Definition persist_now (id : string) : Sec unit :=
  m ← get_state;
  match get id (store m) with
  | Some r => persist_section r
  | None => mret tt
  end.

Definition is_u64 (n : Z) : bool := between 0 U64_MAX n.
Definition is_u32 (n : Z) : bool := between 0 U32_MAX n.
Definition all_some {A} (p : A → bool) (o : option A) : bool := match o with Some a => p a | None => true end.

(** A configuration whose numbers have their Rust types. *)
Definition config_typed (cfg : RunConfig.t) : bool :=
  all_some is_u64 (RunConfig.token_limit cfg) && all_some is_u32 (RunConfig.rounds_limit cfg).

(** An id drawn for a new run is fresh, and numbers have their Rust types. *)
Definition possible (a : action) (m : RunManager) : bool :=
  match a with
  | Ensure _ new_id _ _ _ cfg => bool_decide (get new_id (store m) = None) && config_typed cfg
  | Reserve _ _ tokens _ | Commit _ tokens _ => is_u64 tokens
  | _ => true
  end.

(** What an action leaves, whatever it answers. *)
Definition act (a : action) (m : RunManager) : RunManager :=
  match a with
  | Ensure now id strict task agent cfg => (ensure_run_section now id strict task agent cfg m).2
  | Round now id trace parent => (round_section now id trace parent m).2
  | Complete now id => (complete_run_section now id m).2
  | FailRun now id reason => (fail_run_section now id reason m).2
  | ForceCancel now id reason => (force_cancel_section now id reason m).2
  | CancelDescendant now id reason root => (cancel_descendant_section now id reason root m).2
  | PauseSuspended now id reason root => (pause_suspended_section now id reason root m).2
  | ArmPause now id reason root => (arm_pause_section now id reason root m).2
  | CancelSuspended now id reason root => (cancel_suspended_section now id reason root m).2
  | CancelPaused now id reason => (cancel_paused_section now id reason m).2
  | ArmCancel now id reason => (arm_cancel_section now id reason m).2
  | Suspend now id sid => (suspend_run_section now id sid m).2
  | Resume now id reason => (resume_run_section now id reason m).2
  | ResumeIfSuspended now id reason => (resume_if_suspended_section now id reason m).2
  | Interrupt now id sid => (interrupt_section now id sid m).2
  | Reserve tracker id tokens cost => (budget_check tracker id tokens cost m).2
  | Commit id tokens cost => (commit_section id tokens cost m).2
  | BlockAgent agent => (block_agent_section agent m).2
  | AddAgents agents held => (add_agents agents held m).2
  | DropAgents held => (drop_agents held m).2
  | PersistNow id => (persist_now id m).2
  | Emit e => (emit e m).2
  | Close sid reason => (close_section sid reason m).2
  | Services ar tree => set_services ar tree m
  end.

Definition perform (a : action) (m : RunManager) : RunManager := if possible a m then act a m else m.

Definition perform_all (acts : list action) (m : RunManager) : RunManager := foldl (flip perform) m acts.

(** ** Operations *)

(** The other callers' turn, then a section. *)
Definition atomically {A} (sec : Sec A) : RM A := λ w,
  let m := perform_all (default [] (head (others w))) (manager w) in
  let (r, m) := sec m in
  (r, mkWorld m (tl (others w))).

(** [match op() { ... }]: an error is a value. *)
Definition attempt {A} (op : RM A) : RM (result RunError.t A) := λ w,
  let (r, w) := op w in (Ok r, w).

(** [persist_best_effort] logs a failure. *)
Definition persist_best_effort (run : Run.t) : RM unit :=
  _ ← attempt (atomically (persist_section run)); mret tt.

Definition persist_snapshot_best_effort (id : string) : RM unit :=
  m ← atomically get_state;
  match persister m, get id (store m) with
  | Some _, Some run => persist_best_effort run
  | _, _ => mret tt
  end.

Definition persist_and_emit (id : string) (e : RunEvent.t) : RM unit :=
  _ ← persist_snapshot_best_effort id;
  atomically (emit e).

(** *** Creation *)

Definition ensure_run_inner (now : Z) (new_id task agent : string) (cfg : RunConfig.t) (strict : bool)
    : RM string :=
  m ← atomically get_state;
  _ ← lift (ensure_run_checks (bool_decide (is_Some (persister m))) task agent cfg);
  '(id, event, created) ← atomically (ensure_run_section now new_id strict task agent cfg);
  _ ← (match created with
       | Some run =>
           r ← attempt (atomically (persist_section run));
           match r with
           | Ok _ => mret tt
           | Err e => _ ← atomically (rollback_section run); throw e
           end
       | None => mret tt
       end);
  _ ← atomically (emit event);
  mret id.

Definition ensure_run (now : Z) (new_id task agent : string) (cfg : RunConfig.t) : RM string :=
  ensure_run_inner now new_id task agent cfg false.
Definition ensure_run_strict (now : Z) (new_id task agent : string) (cfg : RunConfig.t) : RM string :=
  ensure_run_inner now new_id task agent cfg true.

(** *** The descendant cascade *)

Definition descendant_agents_for_run (root_run_id : string) : RM (list string) :=
  m ← atomically get_state;
  match agent_tree m with
  | None => mret []
  | Some _ =>
      r ← atomically (run_of root_run_id);
      m ← atomically get_state;
      match agent_tree m with
      | Some tree => lift (post_order_descendant_agents tree (Run.controller_agent r))
      | None => mret []
      end
  end.

Definition live_run_ids_for_agents (agents : list string) : RM (list string) :=
  m ← atomically get_state;
  mret (live_run_ids_for_agents_in_store (store m) agents).

Definition DESCENDANT_CASCADE_RETRY_LIMIT : nat := 2.
Definition DESCENDANT_CASCADE_SCAN_LIMIT : nat := 2.
Definition CANCEL_RACE_RETRY_LIMIT : nat := 3.

(** Closing a session, where a session that is gone is closed. *)
Definition close_descendant_session (sid reason : string) : RM unit :=
  r ← atomically (close_section sid reason);
  match r with
  | Ok _ | Err (OrchestrationError.NotFound _) | Err (OrchestrationError.SessionClosed _) => mret tt
  | Err _ => throw (RunError.InvalidState "descendant-cascade-await-close-failed")
  end.

(** [retries_left] counts down from [DESCENDANT_CASCADE_RETRY_LIMIT]. *)
Fixpoint cancel_descendant_loop (retries_left : nat) (now : Z) (id reason : string) : RM unit :=
  m ← atomically get_state;
  match get id (store m) with
  | None => mret tt
  | Some r =>
      if negb (is_live r) then mret tt
      else
        _ ← (match Run.root_await r with Some sid => close_descendant_session sid reason | None => mret tt end);
        step ← atomically (cancel_descendant_section now id reason (Run.root_await r));
        match step with
        | Gone => mret tt
        | CancelledNow e => persist_and_emit id e
        | Raced =>
            match retries_left with
            | O => throw (RunError.InvalidState "descendant-cascade-raced")
            | S n => cancel_descendant_loop n now id reason
            end
        end
  end.

Definition cancel_descendant_run (now : Z) (id reason : string) : RM unit :=
  cancel_descendant_loop DESCENDANT_CASCADE_RETRY_LIMIT now id reason.

(** The inner loop: every run is tried, the first error is kept. *)
Fixpoint cancel_descendants (now : Z) (ids : list string) (reason : string) : RM (option RunError.t) :=
  match ids with
  | [] => mret None
  | id :: ids =>
      r ← attempt (cancel_descendant_run now id reason);
      later ← cancel_descendants now ids reason;
      mret (match r with Ok _ => later | Err e => Some e end)
  end.

(** The scans: what they answer and the agents the guard blocks. *)
Fixpoint cascade_scans (scans : nat) (now : Z) (root_run_id reason : string) (held : list string)
    (last_error : option RunError.t) : RM (result RunError.t unit * list string) :=
  match scans with
  | O =>
      match last_error with
      | Some e => mret (Err e, held)
      | None =>
          agents ← attempt (descendant_agents_for_run root_run_id);
          match agents with
          | Err e => mret (Err e, held)
          | Ok agents =>
              ids ← live_run_ids_for_agents agents;
              mret (match ids with [] => Ok tt | _ => Err (RunError.InvalidState "descendant-cascade-raced") end, held)
          end
      end
  | S scans =>
      agents ← attempt (descendant_agents_for_run root_run_id);
      match agents with
      | Err e => mret (Err e, held)
      | Ok agents =>
          held ← atomically (add_agents agents held);
          ids ← live_run_ids_for_agents agents;
          match ids with
          | [] => mret (Ok tt, held)
          | _ =>
              error ← cancel_descendants now ids reason;
              cascade_scans scans now root_run_id reason held error
          end
      end
  end.

Definition cascade_descendants_for_run (now : Z) (root_run_id reason : string) : RM unit :=
  '(answer, held) ← cascade_scans (S DESCENDANT_CASCADE_SCAN_LIMIT) now root_run_id reason [] None;
  _ ← atomically (drop_agents held);
  lift answer.

Definition preflight_descendant_cascade_for_run (id : string) : RM unit :=
  _ ← descendant_agents_for_run id; mret tt.

(** *** Rounds *)

(** [advance] is [RoundAdvancer::on_complete_round], where one is wired. *)
Definition complete_round_with_trace (advance : option (string → result RunError.t RoundDecision.t)) (now : Z)
    (id : string) (trace parent_span : option string) : RM RoundDecision.t :=
  r ← atomically (run_of id);
  _ ← fail_if (negb (is_active r)) (RunError.InvalidState "complete-round-on-non-active");
  if is_auto_mode (Run.task_id r) then
    match advance with
    | None => throw (RunError.PermissionDenied "auto-mode-requires-round-advancer")
    | Some advance =>
        _ ← lift (advance id);
        r ← atomically (run_of id);
        _ ← fail_if (negb (is_active r)) (RunError.InvalidState "complete-round-raced-from-active");
        mret RoundDecision.ContinueAllowed
    end
  else
    _ ← (if bool_decide (is_Some (Run.pause_pending r)) || bool_decide (is_Some (Run.cancel_pending r))
         then preflight_descendant_cascade_for_run id else mret tt);
    o ← atomically (round_section now id trace parent_span);
    _ ← persist_snapshot_best_effort id;
    _ ← atomically (emit (round_event o));
    _ ← (match settle_event o with Some e => atomically (emit e) | None => mret tt end);
    _ ← (match cascade_reason o with
         | Some reason => cascade_descendants_for_run now id reason
         | None => mret tt
         end);
    mret (round_decision o).

Definition complete_round (advance : option (string → result RunError.t RoundDecision.t)) (now : Z) (id : string)
    : RM RoundDecision.t := complete_round_with_trace advance now id None None.

(** *** Terminal transitions *)

Definition complete_run (now : Z) (id outcome : string) : RM unit :=
  let outcome := truncate_reason outcome in
  r ← atomically (complete_run_section now id);
  _ ← persist_and_emit (Run.id r) (run_event RunEvent.run_completed_event r outcome);
  atomically (modify (add_completion (Run.controller_agent r, Run.id r, Run.task_id r, outcome))).

Definition fail_run (now : Z) (id reason : string) : RM unit :=
  let reason := truncate_reason reason in
  r ← atomically (fail_run_section now id reason);
  persist_and_emit (Run.id r) (run_event RunEvent.run_failed_event r reason).

(** *** Pausing *)

Definition close_if_some (root_await : option string) (reason : string) : RM unit :=
  match root_await with
  | Some sid => _ ← atomically (close_section sid reason); mret tt
  | None => mret tt
  end.

Definition require_sessions : RM unit :=
  m ← atomically get_state;
  fail_if (bool_decide (await_session_ref m = None)) (RunError.PermissionDenied "await-session-ref-not-configured").

Definition pause_run (now : Z) (id reason : string) : RM unit :=
  let reason := truncate_reason reason in
  r ← atomically (run_of id);
  match Run.status r with
  | TaskRunStatus.Suspended =>
      _ ← preflight_descendant_cascade_for_run id;
      _ ← require_sessions;
      _ ← close_if_some (Run.root_await r) reason;
      e ← atomically (pause_suspended_section now id reason (Run.root_await r));
      match e with
      | Some e => _ ← persist_and_emit id e; cascade_descendants_for_run now id reason
      | None => mret tt
      end
  | TaskRunStatus.Paused => cascade_descendants_for_run now id reason
  | TaskRunStatus.Active =>
      changed ← atomically (arm_pause_section now id reason (Run.root_await r));
      if changed : bool then persist_snapshot_best_effort id else mret tt
  | _ => throw (RunError.InvalidState "pause-run-on")
  end.

(** *** Cancelling *)

Definition finish_cancel (now : Z) (id reason : string) (e : RunEvent.t) : RM unit :=
  _ ← persist_and_emit id e; cascade_descendants_for_run now id reason.

(** [attempts] counts down from [CANCEL_RACE_RETRY_LIMIT]; the state an
    attempt found under the lock seeds the next one. *)
Fixpoint cancel_attempts (attempts : nat) (now : Z) (id reason : string) (status : TaskRunStatus.t)
    (root_await : option string) : RM unit :=
  match attempts with
  | O => throw (RunError.InvalidState "cancel-run-raced")
  | S attempts =>
      let recheck (outcome : CancelRecheck) : RM unit :=
        match outcome with
        | Settled e => finish_cancel now id reason e
        | RacedTerminal => mret tt
        | RacedLive status root_await => cancel_attempts attempts now id reason status root_await
        end in
      match status with
      | TaskRunStatus.Suspended =>
          _ ← preflight_descendant_cascade_for_run id;
          _ ← require_sessions;
          _ ← close_if_some root_await reason;
          outcome ← atomically (cancel_suspended_section now id reason root_await);
          recheck outcome
      | TaskRunStatus.Paused =>
          _ ← preflight_descendant_cascade_for_run id;
          outcome ← atomically (cancel_paused_section now id reason);
          recheck outcome
      | TaskRunStatus.Cancelled _ => cascade_descendants_for_run now id reason
      | TaskRunStatus.Active =>
          changed ← atomically (arm_cancel_section now id reason);
          if changed : bool then persist_snapshot_best_effort id else mret tt
      | _ => throw (RunError.InvalidState "cancel-run-on")
      end
  end.

Definition cancel_run (now : Z) (id reason : string) : RM unit :=
  let reason := truncate_reason reason in
  r ← atomically (run_of id);
  cancel_attempts CANCEL_RACE_RETRY_LIMIT now id reason (Run.status r) (Run.root_await r).

Definition force_cancel_run_by_id_sync (now : Z) (id reason : string) : RM bool :=
  e ← atomically (force_cancel_section now id reason);
  match e with
  | Some e => _ ← persist_and_emit id e; mret true
  | None => mret false
  end.

Definition cancel_run_for_agent (now : Z) (agent reason : string) : RM unit :=
  let reason := truncate_reason reason in
  m ← atomically get_state;
  match resolve agent (store m) with
  | Some (id, _) => _ ← force_cancel_run_by_id_sync now id reason; mret tt
  | None =>
      m ← atomically get_state;
      fail_if (negb (bool_decide (live_run_ids_for_agent_in_store (store m) agent = [])))
        (RunError.InvalidState "cancel-run-for-agent-ambiguous")
  end.

Fixpoint force_cancel_all (now : Z) (ids : list string) (reason : string) : RM unit :=
  match ids with
  | [] => mret tt
  | id :: ids => _ ← force_cancel_run_by_id_sync now id reason; force_cancel_all now ids reason
  end.

Fixpoint cancel_scans (scans : nat) (now : Z) (agent reason : string) : RM unit :=
  m ← atomically get_state;
  match live_run_ids_for_agent_in_store (store m) agent with
  | [] => mret tt
  | ids =>
      match scans with
      | O => throw (RunError.InvalidState "cancel-all-runs-for-agent-raced")
      | S scans => _ ← force_cancel_all now ids reason; cancel_scans scans now agent reason
      end
  end.

Definition cancel_all_runs_for_agent (now : Z) (agent reason : string) : RM unit :=
  _ ← atomically (block_agent_section agent);
  cancel_scans (S DESCENDANT_CASCADE_SCAN_LIMIT) now agent (truncate_reason reason).

(** *** Suspending and resuming *)

Definition suspend_run (now : Z) (id session_id : string) : RM unit :=
  _ ← lift (deny_as "invalid-session-id" (validate_session_id session_id));
  e ← atomically (suspend_run_section now id session_id);
  persist_and_emit id e.

Definition RESUME_REASONS : list string := ["await_complete"; "manual"].

Definition resume_run (now : Z) (id reason : string) : RM unit :=
  let reason := truncate_reason reason in
  _ ← fail_if (negb (bool_decide (reason ∈ RESUME_REASONS))) (RunError.PermissionDenied "invalid-resume-reason");
  e ← atomically (resume_run_section now id reason);
  persist_and_emit id e.

Definition resume_run_if_suspended (now : Z) (id reason : string) : RM bool :=
  let reason := truncate_reason reason in
  _ ← fail_if (negb (String.eqb reason "await_complete")) (RunError.PermissionDenied "invalid-await-resume-reason");
  e ← atomically (resume_if_suspended_section now id reason);
  match e with
  | Some e => _ ← persist_and_emit id e; mret true
  | None => mret false
  end.

(** *** The budget *)

Definition commit (id : string) (tokens : Z) (cost : f64) : RM unit :=
  snapshot ← atomically (commit_section id tokens cost);
  match snapshot with
  | Some run => persist_best_effort run
  | None => mret tt
  end.

(** *** Recovery *)

Record RecoveryReport := mkReport {
  suspended_scanned : Z;
  interrupted_emitted : Z;
  invalid_session_id : Z;
  raced_skipped : Z;
  disk_loaded : Z;
  disk_invalid : Z
}.

(** What one candidate adds to the report. *)
Inductive RecoveryStep := NoSession | BadSession | Alive | RacedAway | Interrupted.

(** [alive] is [exists] of the session service the caller passes. *)
Definition recover_candidate (alive : string → bool) (now : Z) (r : Run.t) : RM RecoveryStep :=
  match Run.root_await r with
  | None => mret NoSession
  | Some sid =>
      if negb (is_ok (validate_session_id sid)) then mret BadSession
      else if alive sid then mret Alive
      else
        mutated ← atomically (interrupt_section now (Run.id r) sid);
        if negb mutated then mret RacedAway
        else
          _ ← persist_snapshot_best_effort (Run.id r);
          _ ← atomically (emit (run_event RunEvent.run_interrupted_event r "crash-recovery"));
          _ ← atomically (modify (add_interrupt (Run.controller_agent r, Run.id r, Run.task_id r, "crash-recovery")));
          mret Interrupted
  end.

Definition count_step (st : RecoveryStep) (rep : RecoveryReport) : RecoveryReport :=
  let one (b : bool) (n : Z) := if b then sat_add_u32 n 1 else n in
  mkReport (one true (suspended_scanned rep))
    (one (match st with Interrupted => true | _ => false end) (interrupted_emitted rep))
    (one (match st with BadSession => true | _ => false end) (invalid_session_id rep))
    (one (match st with RacedAway => true | _ => false end) (raced_skipped rep))
    (disk_loaded rep) (disk_invalid rep).

Fixpoint recover_candidates (alive : string → bool) (now : Z) (rs : list Run.t) (rep : RecoveryReport) : RM RecoveryReport :=
  match rs with
  | [] => mret rep
  | r :: rs => st ← recover_candidate alive now r; recover_candidates alive now rs (count_step st rep)
  end.

Definition recover_on_startup (alive : string → bool) (now : Z) : RM RecoveryReport :=
  m ← atomically get_state;
  recover_candidates alive now (List.filter is_suspended (iter_runs (runs (store m)))) (mkReport 0 0 0 0 0 0).

Definition cold_start_recovery (alive : string → bool) (now : Z) : RM RecoveryReport :=
  '(loaded, invalid) ← atomically recover_from_disk_section;
  rep ← recover_on_startup alive now;
  mret (mkReport (suspended_scanned rep) (interrupted_emitted rep) (invalid_session_id rep) (raced_skipped rep)
          loaded invalid).

(** *** Calls as data *)

(** The operations that start from runs that exist. *)
Inductive call :=
| CompleteRound (advance : option (string → result RunError.t RoundDecision.t)) (now : Z) (id : string)
    (trace parent_span : option string)
| CompleteRun (now : Z) (id outcome : string)
| FailTheRun (now : Z) (id reason : string)
| PauseRun (now : Z) (id reason : string)
| CancelRun (now : Z) (id reason : string)
| ForceCancelById (now : Z) (id reason : string)
| CancelForAgent (now : Z) (agent reason : string)
| CancelAllForAgent (now : Z) (agent reason : string)
| CascadeDescendants (now : Z) (id reason : string)
| SuspendRun (now : Z) (id session_id : string)
| ResumeRun (now : Z) (id reason : string)
| ResumeIfAwaiting (now : Z) (id reason : string)
| CommitTokens (id : string) (tokens : Z) (cost : f64)
| RecoverOnStartup (alive : string → bool) (now : Z).

Definition ignore {A} (op : RM A) : RM unit := _ ← op; mret tt.

Definition run_call (c : call) : RM unit :=
  match c with
  | CompleteRound advance now id trace parent => ignore (complete_round_with_trace advance now id trace parent)
  | CompleteRun now id outcome => complete_run now id outcome
  | FailTheRun now id reason => fail_run now id reason
  | PauseRun now id reason => pause_run now id reason
  | CancelRun now id reason => cancel_run now id reason
  | ForceCancelById now id reason => ignore (force_cancel_run_by_id_sync now id reason)
  | CancelForAgent now agent reason => cancel_run_for_agent now agent reason
  | CancelAllForAgent now agent reason => cancel_all_runs_for_agent now agent reason
  | CascadeDescendants now id reason => cascade_descendants_for_run now id reason
  | SuspendRun now id sid => suspend_run now id sid
  | ResumeRun now id reason => resume_run now id reason
  | ResumeIfAwaiting now id reason => ignore (resume_run_if_suspended now id reason)
  | CommitTokens id tokens cost => if is_u64 tokens then commit id tokens cost else mret tt
  | RecoverOnStartup alive now => ignore (recover_on_startup alive now)
  end.
End ops.
