(* ===== verification/RunFacts.v ===== *)
(** * Invariants of the run manager

    What every section keeps: the invariant of a run ([run_ok]), the index of
    live runs ([store_ok]), and how a run may move ([run_advances]).  Each
    section either leaves the store alone, updates one live run, or settles one
    live run, and those three cases are the lemmas here. *)
From S2P Require Import Prelude RustStr RunData RunStore RunManager RunOps.
Open Scope string_scope.
Open Scope list_scope.
Open Scope Z_scope.

(** ** Definitions *)

(** The numbers of a budget: in range, and never beyond the token limit. *)
Record budget_ok (b : BudgetState.t) : Prop := {
  bk_used : 0 ≤ BudgetState.token_used b ≤ U64_MAX;
  bk_reserved : 0 ≤ BudgetState.token_reserved b ≤ U64_MAX;
  bk_rounds : 0 ≤ BudgetState.rounds_used b ≤ U32_MAX;
  bk_limit l : BudgetState.token_limit b = Some l →
    0 ≤ l ≤ U64_MAX ∧ sat_add_u64 (BudgetState.token_used b) (BudgetState.token_reserved b) ≤ l
}.

Definition drained (b : BudgetState.t) : Prop :=
  BudgetState.token_reserved b = 0 ∧ BudgetState.cost_reserved b = f64_zero.

Record run_ok (r : Run.t) : Prop := {
  rk_budget : budget_ok (Run.budget r);
  rk_await : is_Some (Run.root_await r) ↔ Run.status r = TaskRunStatus.Suspended;
  rk_pending : ¬ (is_Some (Run.pause_pending r) ∧ is_Some (Run.cancel_pending r));
  rk_terminal : is_live r = false →
    Run.pause_pending r = None ∧ Run.cancel_pending r = None ∧ drained (Run.budget r)
}.

Record store_ok (s : RunStore) : Prop := {
  sk_key id r : runs s !! id = Some r → Run.id r = id;
  sk_run id r : runs s !! id = Some r → run_ok r;
  sk_sound task id : live_by_task s !! task = Some id →
    ∃ r, runs s !! id = Some r ∧ is_live r = true ∧ Run.task_id r = task;
  sk_complete id r : runs s !! id = Some r → is_live r = true → live_by_task s !! Run.task_id r = Some id;
  sk_size : runs_len s ≤ MAX_RUNS_PER_STORE
}.

(** A run moves: whose it is stays, what it used grows, a terminal run is final
    and a cancel that was asked for stays asked for until the run ends. *)
Record run_advances (r r' : Run.t) : Prop := {
  ra_id : Run.id r' = Run.id r;
  ra_task : Run.task_id r' = Run.task_id r;
  ra_agent : Run.controller_agent r' = Run.controller_agent r;
  ra_created : Run.created_at r' = Run.created_at r;
  ra_used : BudgetState.token_used (Run.budget r) ≤ BudgetState.token_used (Run.budget r');
  ra_rounds : BudgetState.rounds_used (Run.budget r) ≤ BudgetState.rounds_used (Run.budget r');
  ra_limit : BudgetState.token_limit (Run.budget r') = BudgetState.token_limit (Run.budget r);
  ra_final : is_live r = false → r' = r;
  ra_cancel : is_Some (Run.cancel_pending r) → is_live r' = false ∨ Run.cancel_pending r' = Run.cancel_pending r
}.

Definition advances (s s' : RunStore) : Prop :=
  ∀ id r, runs s !! id = Some r → ∃ r', runs s' !! id = Some r' ∧ run_advances r r'.

(** What a section does to a store that satisfies the invariant. *)
Definition good (s s' : RunStore) : Prop := store_ok s → store_ok s' ∧ advances s s'.

Definition mgood (m m' : RunManager) : Prop := good (store m) (store m').
Definition wgood (w w' : World) : Prop := mgood (manager w) (manager w').

(** ** Preorders *)

#[export] Instance run_advances_preorder : PreOrder run_advances.
Proof.
  split.
  - intros r. split; try done. auto.
  - intros r1 r2 r3 [] []. split; try congruence; try lia.
    + intros Hlive. rewrite ra_final1, ra_final0; [done..|]. by rewrite ra_final0.
    + intros Hc. destruct (ra_cancel0 Hc) as [Hl|Heq].
      * left. by rewrite (ra_final1 Hl).
      * destruct ra_cancel1 as [?|?]; [by rewrite Heq|by left|right; congruence].
Qed.

#[export] Instance advances_preorder : PreOrder advances.
Proof.
  split.
  - intros s id r Hr. exists r. split; [done|reflexivity].
  - intros s1 s2 s3 H12 H23 id r Hr. destruct (H12 id r Hr) as (r2 & Hr2 & Ha).
    destruct (H23 id r2 Hr2) as (r3 & Hr3 & Ha'). exists r3. split; [done|by etrans].
Qed.

#[export] Instance good_preorder : PreOrder good.
Proof.
  split.
  - intros s Hs. split; [done|reflexivity].
  - intros s1 s2 s3 H12 H23 Hs. destruct (H12 Hs) as [Hs2 Ha]. destruct (H23 Hs2) as [Hs3 Ha']. split; [done|by etrans].
Qed.

#[export] Instance mgood_preorder : PreOrder mgood.
Proof. split; [intros m; unfold mgood; reflexivity|intros m1 m2 m3; unfold mgood; apply transitivity]. Qed.
#[export] Instance wgood_preorder : PreOrder wgood.
Proof. split; [intros m; unfold wgood; reflexivity|intros m1 m2 m3; unfold wgood; apply transitivity]. Qed.

(** ** The three ways a store changes *)

Lemma lookup_update id f s id' :
  runs (update id f s) !! id' = if decide (id = id') then f <$> runs s !! id' else runs s !! id'.
Proof.
  simpl. case_decide; subst; [by rewrite lookup_alter_eq|by rewrite lookup_alter_ne].
Qed.

Lemma runs_len_update id f s : runs_len (update id f s) = runs_len s.
Proof.
  unfold runs_len. simpl. rewrite <- !(size_dom (D := gset string)). by rewrite dom_alter_L.
Qed.

Lemma update_advances id f s r :
  runs s !! id = Some r → run_advances r (f r) → advances s (update id f s).
Proof.
  intros Hr Ha id' r' Hr'. rewrite lookup_update. case_decide; [|exists r'; split; [done|reflexivity]].
  subst id'. exists (f r'). rewrite Hr'. split; [done|]. by simplify_eq.
Qed.

(** A live run stays live. *)
Lemma update_good id f s r :
  runs s !! id = Some r → is_live r = true → is_live (f r) = true →
  (run_ok r → run_ok (f r) ∧ run_advances r (f r)) → good s (update id f s).
Proof.
  intros Hr Hlive Hlive' Hstep Hs. destruct (Hstep (sk_run s Hs id r Hr)) as [Hok Ha].
  split; [|by eapply update_advances]. split.
  - intros id' r'. rewrite lookup_update. case_decide; [|apply Hs]. subst. rewrite Hr. simpl. intros [= <-].
    rewrite (ra_id _ _ Ha). by apply Hs.
  - intros id' r'. rewrite lookup_update. case_decide; [|apply Hs]. subst. rewrite Hr. simpl. by intros [= <-].
  - intros task id' Hid. destruct (sk_sound s Hs task id' Hid) as (r' & Hr' & Hl & Ht). rewrite lookup_update.
    case_decide; [|by exists r']. subst id'. simplify_eq. rewrite Hr. exists (f r). split; [done|]. split; [done|].
    by rewrite (ra_task _ _ Ha).
  - intros id' r'. rewrite lookup_update. case_decide; [|apply Hs]. subst. rewrite Hr. simpl. intros [= <-] _.
    rewrite (ra_task _ _ Ha). by apply Hs.
  - rewrite runs_len_update. apply Hs.
Qed.

(** A live run ends. *)
Lemma settle_good id f s r :
  runs s !! id = Some r → is_live r = true → is_live (f r) = false →
  (run_ok r → run_ok (f r) ∧ run_advances r (f r)) → good s (drop_live_by_task (Run.task_id r) (update id f s)).
Proof.
  intros Hr Hlive Hlive' Hstep Hs. destruct (Hstep (sk_run s Hs id r Hr)) as [Hok Ha].
  split; [|by eapply (update_advances id f s r)]. split.
  - intros id' r'. change (runs (drop_live_by_task _ ?s)) with (runs s). rewrite lookup_update.
    case_decide; [|apply Hs]. subst. rewrite Hr. simpl. intros [= <-]. rewrite (ra_id _ _ Ha). by apply Hs.
  - intros id' r'. change (runs (drop_live_by_task _ ?s)) with (runs s). rewrite lookup_update.
    case_decide; [|apply Hs]. subst. rewrite Hr. simpl. by intros [= <-].
  - intros task id'. change (runs (drop_live_by_task _ ?s)) with (runs s). simpl.
    rewrite lookup_delete_Some. intros [Hne Hid]. destruct (sk_sound s Hs task id' Hid) as (r' & Hr' & Hl & Ht).
    rewrite lookup_alter_ne; [by exists r'|]. intros <-. simplify_eq.
  - intros id' r'. change (runs (drop_live_by_task _ ?s)) with (runs s). rewrite lookup_update. simpl.
    case_decide; [subst; rewrite Hr; simpl; intros [= <-]; congruence|]. intros Hr' Hl.
    rewrite lookup_delete_ne; [by apply Hs|]. intros Heq.
    pose proof (sk_complete s Hs id r Hr Hlive). pose proof (sk_complete s Hs id' r' Hr' Hl). congruence.
  - change (runs_len (drop_live_by_task (Run.task_id r) (update id f s))) with (runs_len (update id f s)).
    rewrite runs_len_update. apply Hs.
Qed.

(** A run is added. *)
Lemma insert_good run s :
  runs s !! Run.id run = None → runs_len s < MAX_RUNS_PER_STORE → run_ok run →
  (is_live run = true → find_live_by_task (Run.task_id run) s = None) → good s (insert run s).
Proof.
  intros Hfresh Hroom Hok Hfree Hs. split.
  2: { intros id r Hr. exists r. split; [|reflexivity]. simpl. rewrite lookup_insert_ne; [done|]. intros <-. congruence. }
  assert (∀ id r, runs s !! id = Some r → is_live r = true → is_live run = true → Run.task_id r ≠ Run.task_id run) as Hother.
  { intros id r Hr Hl Hlr Heq. specialize (Hfree Hlr). unfold find_live_by_task in Hfree.
    rewrite <- Heq, (sk_complete s Hs id r Hr Hl) in Hfree. simpl in Hfree. rewrite Hr in Hfree. simpl in Hfree.
    by rewrite Hl in Hfree. }
  split; simpl.
  - intros id r. rewrite lookup_insert_Some. intros [[<- <-]|[_ Hr]]; [done|by apply Hs].
  - intros id r. rewrite lookup_insert_Some. intros [[<- <-]|[_ Hr]]; [done|by eapply sk_run].
  - intros task id Hid. destruct (is_live run) eqn:Hl.
    + rewrite lookup_insert_Some in Hid. destruct Hid as [[<- <-]|[Hne Hid]].
      * exists run. by rewrite lookup_insert_eq.
      * destruct (sk_sound s Hs task id Hid) as (r & Hr & ? & ?). exists r. rewrite lookup_insert_ne; [done|].
        intros <-. congruence.
    + destruct (sk_sound s Hs task id Hid) as (r & Hr & ? & ?). exists r. rewrite lookup_insert_ne; [done|].
      intros <-. congruence.
  - intros id r. rewrite lookup_insert_Some. intros [[<- <-]|[_ Hr]] Hl.
    + rewrite Hl. by rewrite lookup_insert_eq.
    + destruct (is_live run) eqn:Hlr; [|by apply Hs]. rewrite lookup_insert_ne; [by apply Hs|].
      symmetry. by eapply Hother.
  - unfold runs_len in *. simpl. rewrite map_size_insert, Hfresh. lia.
Qed.

(** ** Budgets *)

Section numbers.
Implicit Types b : BudgetState.t.

Lemma u64_max_pos : 0 < U64_MAX ∧ 0 < U32_MAX.
Proof. unfold U64_MAX, U32_MAX. lia. Qed.

Lemma from_config_ok cfg : config_typed cfg = true → budget_ok (BudgetState.from_config cfg).
Proof.
  unfold config_typed, all_some, is_u64, is_u32, between. intros Hc. pose proof u64_max_pos.
  split; simpl; [lia..|]. intros l Hl. rewrite Hl in Hc. b2p. unfold sat_add_u64. lia.
Qed.

Lemma drain_ok b : budget_ok b → budget_ok (BudgetState.drain b).
Proof.
  intros []. pose proof u64_max_pos. split; simpl; [lia..|]. intros l Hl. destruct (bk_limit0 l Hl).
  unfold sat_add_u64 in *. lia.
Qed.

Lemma next_round_ok b : budget_ok b → budget_ok (BudgetState.next_round b).
Proof. intros []. unfold sat_add_u32. split; simpl; unfold sat_add_u32; [lia..|done]. Qed.

Lemma reserve_ok b tokens cost l0 :
  budget_ok b → 0 ≤ tokens ≤ U64_MAX →
  (∀ l, BudgetState.token_limit b = Some l →
     sat_add_u64 (sat_add_u64 (BudgetState.token_used b) (BudgetState.token_reserved b)) tokens ≤ l) →
  l0 = BudgetState.reserve tokens cost b → budget_ok l0.
Proof.
  intros [] Ht Hgate ->. unfold sat_add_u64 in *. split; simpl; unfold sat_add_u64; [lia..|].
  intros l Hl. specialize (Hgate l Hl). destruct (bk_limit0 l Hl). lia.
Qed.

Lemma spend_ok b tokens cost :
  budget_ok b → 0 ≤ tokens → budget_ok (BudgetState.spend (Z.min (BudgetState.token_reserved b) tokens) cost b).
Proof.
  intros [] Ht. unfold sat_add_u64 in *. split; simpl; unfold sat_add_u64; [lia..|].
  intros l Hl. destruct (bk_limit0 l Hl). lia.
Qed.
End numbers.

(** ** Run transitions *)

Lemma awaits_suspended r : run_ok r → Run.status r ≠ TaskRunStatus.Suspended → Run.root_await r = None.
Proof. intros Hok Hne. destruct (Run.root_await r) eqn:Hr; [|done]. destruct Hne. apply Hok. by rewrite Hr. Qed.

Lemma settle_step status now r :
  is_live r = true → Run.status r ≠ TaskRunStatus.Suspended → is_live_status status = false →
  run_ok r → run_ok (settle status now r) ∧ run_advances r (settle status now r).
Proof.
  intros Hlive Hne Hs Hok. pose proof (awaits_suspended r Hok Hne) as Hroot. split.
  - split; simpl; [apply drain_ok, Hok| |by intros [[] []]|done]. rewrite Hroot. split; [by intros []|].
    intros ->. done.
  - split; simpl; try done. { congruence. } by left.
Qed.

Lemma cancel_settle_step reason now r :
  is_live r = true → run_ok r → run_ok (cancel_settle reason now r) ∧ run_advances r (cancel_settle reason now r).
Proof.
  intros Hlive Hok. split.
  - split; simpl; [apply drain_ok, Hok|split; [by intros []|done]|by intros [[] []]|done].
  - split; simpl; try done. { congruence. } by left.
Qed.

(** A step between live statuses that touches no number. *)
Record moves_live (r r' : Run.t) : Prop := {
  ml_frame : (Run.id r', Run.task_id r', Run.controller_agent r', Run.created_at r', Run.budget r')
             = (Run.id r, Run.task_id r, Run.controller_agent r, Run.created_at r, Run.budget r);
  ml_live : is_live r = true ∧ is_live r' = true;
  ml_await : is_Some (Run.root_await r') ↔ Run.status r' = TaskRunStatus.Suspended;
  ml_pending : ¬ (is_Some (Run.pause_pending r') ∧ is_Some (Run.cancel_pending r'));
  ml_cancel : is_Some (Run.cancel_pending r) → Run.cancel_pending r' = Run.cancel_pending r
}.

Lemma moves_live_step r r' : moves_live r r' → run_ok r → run_ok r' ∧ run_advances r r'.
Proof.
  intros [Hf [Hl Hl'] Hw Hp Hc] Hok. injection Hf as ? ? ? ? Hb. split.
  - split; [rewrite Hb; apply Hok|done|done|congruence].
  - split; try congruence; rewrite ?Hb; try lia. by right; apply Hc.
Qed.

Lemma not_both r : run_ok r → Run.pause_pending r = None ∨ Run.cancel_pending r = None.
Proof.
  intros Hok. destruct (Run.pause_pending r) eqn:Hp, (Run.cancel_pending r) eqn:Hc; auto.
  exfalso. apply (rk_pending r Hok). by rewrite Hp, Hc.
Qed.

(** ** Sections *)

Lemma write_run_mgood id f m r :
  get id (store m) = Some r → is_live r = true → (run_ok r → moves_live r (f r)) →
  mgood m (set_store (update id f) m).
Proof.
  intros Hr Hl Hf Hs. assert (run_ok r) as Hok by by eapply sk_run. specialize (Hf Hok).
  eapply update_good; [exact Hr|done|apply Hf|by apply moves_live_step|done].
Qed.

Lemma run_of_cases id m : run_of id m = match get id (store m) with
  | Some r => (Ok r, m) | None => (Err (RunError.NotFound id), m) end.
Proof. unfold run_of. run. by destruct (get id (store m)). Qed.

Ltac section := unfold mbind, M_bind, mret, M_ret, get_state, modify, fail_if, guard_err, ok_or, lift, throw;
  cbn [fst snd]; rewrite ?run_of_cases.

Lemma is_active_true r : is_active r = true ↔ Run.status r = TaskRunStatus.Active.
Proof. apply bool_decide_eq_true. Qed.
Lemma is_suspended_true r : is_suspended r = true ↔ Run.status r = TaskRunStatus.Suspended.
Proof. apply bool_decide_eq_true. Qed.

(** A run whose status is known is live. *)
Ltac is_alive := match goal with
  | H : Run.status ?r = _ |- is_live ?r = true => unfold is_live; rewrite H; reflexivity
  end.

(** [b2p], and what the status tests say. *)
Ltac r2p := b2p; repeat match goal with
  | H : is_suspended _ = true |- _ => apply is_suspended_true in H
  | H : is_active _ = true |- _ => apply is_active_true in H
  | H : (_ <=? _) = true |- _ => apply Z.leb_le in H
  | H : (_ <=? _) = false |- _ => apply Z.leb_gt in H
  | H : (_ <? _) = true |- _ => apply Z.ltb_lt in H
  | H : (_ <? _) = false |- _ => apply Z.ltb_ge in H
  end.

Lemma complete_good now id m : mgood m (complete_run_section now id m).2.
Proof.
  unfold complete_run_section. section. destruct (get id (store m)) as [r|] eqn:Hr; [|reflexivity].
  destruct (is_active r) eqn:Ha; simpl; [|reflexivity]. apply is_active_true in Ha.
  eapply settle_good; [exact Hr|by is_alive|done|]. apply settle_step; [|congruence|done].
  by is_alive.
Qed.

Lemma fail_good now id reason m : mgood m (fail_run_section now id reason m).2.
Proof.
  unfold fail_run_section. section. destruct (get id (store m)) as [r|] eqn:Hr; [|reflexivity].
  destruct (is_active r) eqn:Ha; simpl; [|reflexivity]. apply is_active_true in Ha.
  eapply settle_good; [exact Hr|by is_alive|done|]. apply settle_step; [|congruence|done].
  by is_alive.
Qed.

(** The settlement that cancels a live run. *)
Lemma cancel_settle_good reason now id m r :
  get id (store m) = Some r → is_live r = true →
  mgood m (set_store (λ s, drop_live_by_task (Run.task_id r) (update id (cancel_settle reason now) s)) m).
Proof. intros Hr Hl. eapply settle_good; [exact Hr|done|done|]. by apply cancel_settle_step. Qed.

Lemma force_cancel_good now id reason m : mgood m (force_cancel_section now id reason m).2.
Proof.
  unfold force_cancel_section. section. destruct (get id (store m)) as [r|] eqn:Hr; [|reflexivity].
  unfold is_terminal. destruct (is_live_status (Run.status r)) eqn:Hl; simpl; [|reflexivity].
  by apply cancel_settle_good.
Qed.

Lemma cancel_descendant_good now id reason root m : mgood m (cancel_descendant_section now id reason root m).2.
Proof.
  unfold cancel_descendant_section. section. destruct (get id (store m)) as [r|] eqn:Hr; [|reflexivity].
  destruct (is_live r) eqn:Hl; simpl; [|reflexivity]. case_match; [reflexivity|]. by apply cancel_settle_good.
Qed.

Lemma cancel_suspended_good now id reason root m : mgood m (cancel_suspended_section now id reason root m).2.
Proof.
  unfold cancel_suspended_section. section. destruct (get id (store m)) as [r|] eqn:Hr; [|reflexivity].
  case_match eqn:Hc; [|reflexivity]. r2p. apply cancel_settle_good; [done|]. by is_alive.
Qed.

Lemma cancel_paused_good now id reason m : mgood m (cancel_paused_section now id reason m).2.
Proof.
  unfold cancel_paused_section. section. destruct (get id (store m)) as [r|] eqn:Hr; [|reflexivity].
  case_match eqn:Hc; [|reflexivity]. r2p. simpl.
  eapply settle_good; [exact Hr|by is_alive|done|]. apply settle_step; [by is_alive|congruence|done].
Qed.

Lemma pause_suspended_good now id reason root m : mgood m (pause_suspended_section now id reason root m).2.
Proof.
  unfold pause_suspended_section. section. destruct (get id (store m)) as [r|] eqn:Hr; [|reflexivity].
  case_match eqn:Hc; [|reflexivity]. r2p. simpl. apply (write_run_mgood id _ m r Hr); [by is_alive|].
  intros Hok. split; simpl; [done|split; [by is_alive|done]|split; [by intros []|done]|by intros [[] _]|done].
Qed.

Lemma arm_pause_good now id reason root m : mgood m (arm_pause_section now id reason root m).2.
Proof.
  unfold arm_pause_section. section. destruct (get id (store m)) as [r|] eqn:Hr; [|reflexivity].
  destruct (is_active r) eqn:Ha; simpl; [|reflexivity]. apply is_active_true in Ha.
  destruct (bool_decide (is_Some (Run.cancel_pending r))) eqn:Hc; simpl; [reflexivity|].
  apply bool_decide_eq_false, eq_None_not_Some in Hc.
  destruct (bool_decide (is_Some root)); simpl; [reflexivity|].
  destruct (Run.pause_pending r); simpl; [reflexivity|]. apply (write_run_mgood id _ m r Hr); [by is_alive|].
  intros Hok. split; simpl; [done|split; [by is_alive|]|apply Hok|rewrite Hc; by intros [_ []]|done].
  unfold is_live. simpl. by rewrite Ha.
Qed.

Lemma arm_cancel_good now id reason m : mgood m (arm_cancel_section now id reason m).2.
Proof.
  unfold arm_cancel_section. section. destruct (get id (store m)) as [r|] eqn:Hr; [|reflexivity].
  destruct (is_active r) eqn:Ha; simpl; [|reflexivity]. apply is_active_true in Ha.
  destruct (Run.cancel_pending r) eqn:Hc; simpl; [reflexivity|].
  apply (write_run_mgood id _ m r Hr); [by is_alive|].
  intros Hok. split; simpl; [done|split; [by is_alive|]|apply Hok|by intros [[] _]|].
  - unfold is_live. simpl. by rewrite Ha.
  - rewrite Hc. by intros [].
Qed.

Lemma suspend_good now id sid m : mgood m (suspend_run_section now id sid m).2.
Proof.
  unfold suspend_run_section. section. destruct (get id (store m)) as [r|] eqn:Hr; [|reflexivity].
  destruct (is_active r) eqn:Ha; simpl; [|reflexivity]. apply is_active_true in Ha.
  apply (write_run_mgood id _ m r Hr); [by is_alive|].
  intros Hok. split; simpl; [done|split; [by is_alive|done]|done|apply Hok|done].
Qed.

(** Back to [Active] from a suspension. *)
Lemma wake_moves now r :
  Run.status r = TaskRunStatus.Suspended → run_ok r →
  moves_live r (Run.touch now (Run.set_root_await None (Run.set_status TaskRunStatus.Active r))).
Proof.
  intros Hs Hok. split; simpl; [done|split; [by is_alive|done]|split; [by intros []|done]|apply Hok|done].
Qed.

Lemma resume_good now id reason m : mgood m (resume_run_section now id reason m).2.
Proof.
  unfold resume_run_section, invalid_state. section. destruct (get id (store m)) as [r|] eqn:Hr; [|reflexivity].
  destruct (Run.status r) eqn:Hs; simpl; try reflexivity; apply (write_run_mgood id _ m r Hr); try by is_alive.
  - by apply wake_moves.
  - intros Hok. assert (Run.root_await r = None) as Hroot by (apply awaits_suspended; [done|congruence]).
    split; simpl; [done|split; [by is_alive|done]| |by intros [[] _]|done].
    rewrite Hroot. split; [by intros []|done].
Qed.

Lemma resume_if_suspended_good now id reason m : mgood m (resume_if_suspended_section now id reason m).2.
Proof.
  unfold resume_if_suspended_section. section. destruct (get id (store m)) as [r|] eqn:Hr; [|reflexivity].
  destruct (is_suspended r) eqn:Hs; simpl; [|reflexivity]. apply is_suspended_true in Hs.
  apply (write_run_mgood id _ m r Hr); [by is_alive|by apply wake_moves].
Qed.

Lemma interrupt_good now id sid m : mgood m (interrupt_section now id sid m).2.
Proof.
  unfold interrupt_section. section. destruct (get id (store m)) as [r|] eqn:Hr; [|reflexivity].
  case_match eqn:Hc; [|reflexivity]. r2p. simpl.
  apply (write_run_mgood id _ m r Hr); [by is_alive|by apply wake_moves].
Qed.

(** ** Sections on numbers *)

Lemma number_step f r :
  (∀ b, f b = BudgetState.mk (BudgetState.token_used (f b)) (BudgetState.token_reserved (f b)) (BudgetState.token_limit b)
                (BudgetState.cost_usd (f b)) (BudgetState.cost_reserved (f b)) (BudgetState.cost_limit b)
                (BudgetState.rounds_used (f b)) (BudgetState.rounds_limit b)) →
  is_live r = true → budget_ok (f (Run.budget r)) →
  BudgetState.token_used (Run.budget r) ≤ BudgetState.token_used (f (Run.budget r)) →
  BudgetState.rounds_used (Run.budget r) ≤ BudgetState.rounds_used (f (Run.budget r)) →
  run_ok r → run_ok (Run.set_budget f r) ∧ run_advances r (Run.set_budget f r).
Proof.
  intros Hf Hl Hb Hu Hr Hok. split.
  - split; [done|apply Hok|apply Hok|]. intros Hdead. change (is_live r = false) in Hdead. congruence.
  - split; try done. { simpl. by rewrite Hf. } { congruence. } by right.
Qed.

Lemma reserve_good tracker id tokens cost m : is_u64 tokens = true → mgood m (budget_check tracker id tokens cost m).2.
Proof.
  intros Ht. unfold is_u64, between in Ht. r2p. unfold budget_check. section.
  destruct (negb (is_ok _)); simpl; [reflexivity|]. destruct (negb _ || _); simpl; [reflexivity|].
  destruct (get id (store m)) as [r|] eqn:Hr; [|reflexivity]. destruct (is_live r) eqn:Hl; simpl; [|reflexivity].
  destruct (budget_gates tracker id (Run.budget r) tokens cost) as [[]|] eqn:Hg; simpl; [|reflexivity].
  eapply update_good; [exact Hr|done|done|]. intros Hok. apply number_step; [done|done| |simpl; lia..|done].
  eapply reserve_ok; [apply Hok|done| |done].
  intros l Hlim. unfold budget_gates in Hg. rewrite Hlim in Hg. steps. r2p. lia.
Qed.

Lemma commit_good id tokens cost m : is_u64 tokens = true → mgood m (commit_section id tokens cost m).2.
Proof.
  intros Ht. unfold is_u64, between in Ht. r2p. unfold commit_section. section.
  case_match; [reflexivity|]. destruct (get id (store m)) as [r|] eqn:Hr; [|reflexivity].
  destruct (is_live r) eqn:Hl; simpl; [|reflexivity].
  eapply update_good; [exact Hr|done|done|]. intros Hok. pose proof (rk_budget r Hok) as [].
  apply number_step; [done|done|by apply spend_ok; [apply Hok|]| |simpl; lia|done]. simpl. unfold sat_add_u64. lia.
Qed.

(** ** Rounds and creation *)

Lemma next_round_step now r : is_live r = true → run_ok r → run_ok (next_round now r) ∧ run_advances r (next_round now r).
Proof.
  intros Hl Hok. split.
  - split; [apply next_round_ok, Hok|apply Hok|apply Hok|]. intros Hdead. change (is_live r = false) in Hdead. congruence.
  - pose proof (bk_rounds _ (rk_budget r Hok)).
    split; simpl; unfold sat_add_u32; [done..|lia|lia|done|congruence|by right].
Qed.

Lemma settle_round_good now id r e m :
  get id (store m) = Some r → Run.status r = TaskRunStatus.Active → mgood m (settle_round now id r e m).2.
Proof.
  intros Hr Ha. unfold settle_round. section. destruct (Run.cancel_pending r) eqn:Hc; simpl.
  - eapply settle_good; [exact Hr|by is_alive|done|]. apply settle_step; [by is_alive|congruence|done].
  - destruct (Run.pause_pending r); simpl; [|reflexivity]. apply (write_run_mgood id _ m r Hr); [by is_alive|].
    intros Hok. assert (Run.root_await r = None) as Hroot by (apply awaits_suspended; [done|congruence]).
    split; simpl; [done|split; [by is_alive|done]| |by intros [[] _]|done]. rewrite Hroot. split; [by intros []|done].
Qed.

Lemma cascade_preflight_store (r : Run.t) m :
  ((match agent_tree m with
    | Some tree =>
        if bool_decide (is_Some (Run.pause_pending r)) || bool_decide (is_Some (Run.cancel_pending r))
        then _ ← lift (post_order_descendant_agents tree (Run.controller_agent r)); mret tt
        else mret tt
    | None => mret tt
    end : Sec unit) m).2 = m.
Proof. section. destruct (agent_tree m); [|done]. case_match; [|done]. by destruct (post_order_descendant_agents _ _). Qed.

Lemma round_good now id trace parent m : mgood m (round_section now id trace parent m).2.
Proof.
  unfold round_section. cbv [mbind M_bind]. cbn beta iota. rewrite run_of_cases.
  destruct (get id (store m)) as [r|] eqn:Hr; [|reflexivity].
  cbv [fail_if guard_err lift]. destruct (is_active r) eqn:Ha; cbn [negb]; [|reflexivity]. apply is_active_true in Ha.
  cbv [get_state]. pose proof (cascade_preflight_store r m) as Hpre. cbv [mbind M_bind lift] in Hpre. cbn beta iota in Hpre |- *.
  match goal with |- context [ match ?x m with _ => _ end ] => destruct (x m) as [[[]|err] m'] end;
    simpl in Hpre; subst m'; [|reflexivity].
  unfold write_run, modify. cbn [fst snd].
  set (m' := set_store (update id (next_round now)) m).
  trans m'.
  - eapply (update_good id _ (store m) r); [exact Hr|by is_alive|unfold is_live; simpl; by rewrite Ha|].
    apply next_round_step. by is_alive.
  - apply settle_round_good; [|done]. unfold m', get. simpl. rewrite lookup_alter_eq. unfold get in Hr. by rewrite Hr.
Qed.

Lemma new_run_ok new_id task agent cfg now :
  config_typed cfg = true → run_ok (Run.new new_id task agent cfg now).
Proof.
  intros Hc. split; simpl; [by apply from_config_ok|split; [by intros []|done]|by intros [[] _]|done].
Qed.

Lemma ensure_good now new_id strict task agent cfg m :
  get new_id (store m) = None → config_typed cfg = true →
  mgood m (ensure_run_section now new_id strict task agent cfg m).2.
Proof.
  intros Hfresh Hc. unfold ensure_run_section. section. destruct (creation_blocked agent m); [reflexivity|].
  destruct (find_live_by_task task (store m)) as [r|] eqn:Hfind; [case_match; reflexivity|].
  destruct (MAX_RUNS_PER_STORE <=? runs_len (store m)) eqn:Hroom; [reflexivity|]. r2p. simpl.
  apply insert_good; [done|lia|by apply new_run_ok|done].
Qed.

(** ** Every action *)

Section perform.
Context `{RunYaml, DirOrder, RunOrder}.

Lemma persist_section_store run m : store (persist_section run m).2 = store m.
Proof. unfold persist_section. destruct (persister m); [|done]. by destruct (persist run s). Qed.

Lemma same_store_good m m' : store m' = store m → mgood m m'.
Proof. unfold mgood. intros ->. reflexivity. Qed.

Lemma persist_now_store id m : store (persist_now id m).2 = store m.
Proof. unfold persist_now. section. destruct (get id (store m)); [|done]. apply persist_section_store. Qed.

Lemma close_section_store sid reason m : store (close_section sid reason m).2 = store m.
Proof. unfold close_section. section. by destruct (await_session_ref m). Qed.

Lemma perform_good a m : mgood m (perform a m).
Proof.
  unfold perform. destruct (possible a m) eqn:Hp; [|reflexivity]. destruct a; cbn [act possible] in *.
  all: try (apply same_store_good; reflexivity).
  all: try (eauto using round_good, complete_good, fail_good, force_cancel_good, cancel_descendant_good,
    pause_suspended_good, arm_pause_good, cancel_suspended_good, cancel_paused_good, arm_cancel_good, suspend_good,
    resume_good, resume_if_suspended_good, interrupt_good, reserve_good, commit_good; fail).
  - b2p. by apply ensure_good.
  - apply same_store_good, persist_now_store.
  - apply same_store_good, close_section_store.
Qed.

Lemma perform_all_good acts : ∀ m, mgood m (perform_all acts m).
Proof.
  unfold perform_all. induction acts as [|a acts IH]; intros m; simpl; [reflexivity|].
  trans (perform a m); [apply perform_good|apply IH].
Qed.

(** ** Operations under interference *)

Lemma atomically_keeps {A} (sec : Sec A) : keeps mgood sec → keeps wgood (atomically sec).
Proof.
  intros Hsec w. unfold atomically. set (m := perform_all _ _). destruct (sec m) as [r m'] eqn:Hm. simpl.
  unfold wgood. simpl. trans m; [apply perform_all_good|]. pose proof (Hsec m) as Hk. by rewrite Hm in Hk.
Qed.

Lemma attempt_keeps {A} (op : RM A) : keeps wgood op → keeps wgood (attempt op).
Proof. intros Hop w. unfold attempt. specialize (Hop w). by destruct (op w). Qed.

Lemma sec_same {A} (sec : Sec A) : (∀ m, store (sec m).2 = store m) → keeps mgood sec.
Proof. intros Hs m. apply same_store_good, Hs. Qed.
End perform.
