(* ===== verification/RunKeeps.v ===== *)
(** * Operations of the run manager keep its invariant

    Every operation, with any interference, moves the store as [good] allows:
    from an invariant store to one, with every run advancing.  The undoing of a
    creation is the exception and is not covered here. *)
From S2P Require Import Prelude RustStr RunData RunStore RunManager RunOps RunFacts.
Open Scope string_scope.
Open Scope list_scope.
Open Scope Z_scope.

Create HintDb runs.
#[export] Hint Resolve wgood_preorder mgood_preorder : runs.

(** One step through monadic code: a bind, a case, or a known leaf. *)
Ltac keeps_step :=
  lazymatch goal with
  | |- keeps _ (mbind _ _) => apply (keeps_bind _); [|intros ?]
  | |- keeps _ (mret _) => apply (keeps_ret _)
  | |- keeps _ (lift _) => apply (keeps_lift _)
  | |- keeps _ (throw _) => apply (keeps_lift _ (Err _))
  | |- keeps _ (fail_if _ _) => apply (keeps_fail_if _)
  | |- keeps wgood (attempt _) => apply attempt_keeps
  | |- keeps wgood (atomically _) => apply atomically_keeps
  | |- keeps _ (if ?b then _ else _) => destruct b
  | |- keeps _ (match ?x with _ => _ end) => destruct x
  | |- keeps _ (let '(_, _) := ?x in _) => destruct x
  end.
Ltac keeps := repeat (keeps_step || (solve [eauto with runs])).

Section keeps.
Context `{RunYaml, DirOrder, RunOrder}.

(** ** Sections *)

Lemma keeps_section_of {A} (sec : Sec A) : (∀ m, mgood m (sec m).2) → keeps mgood sec.
Proof. exact id. Qed.

Lemma keeps_read {A} (f : RunManager → result RunError.t A) : keeps mgood (λ m, (f m, m)).
Proof. intros m. reflexivity. Qed.

Lemma keeps_run_of id : keeps mgood (run_of id).
Proof. intros m. rewrite run_of_cases. by destruct (get id (store m)). Qed.

Lemma keeps_get : keeps mgood (get_state : Sec RunManager).
Proof. intros m. reflexivity. Qed.

Lemma keeps_persist_section run : keeps mgood (persist_section run).
Proof. apply sec_same. intros m. apply persist_section_store. Qed.

Lemma keeps_emit_event e : keeps mgood (emit e).
Proof. by apply sec_same. Qed.

Lemma keeps_close sid reason : keeps mgood (close_section sid reason).
Proof. apply sec_same. intros m. apply close_section_store. Qed.

Lemma keeps_add_agents agents held : keeps mgood (add_agents agents held).
Proof. by apply sec_same. Qed.

Lemma keeps_drop_agents held : keeps mgood (drop_agents held).
Proof. by apply sec_same. Qed.

Lemma keeps_block agent : keeps mgood (block_agent_section agent).
Proof. by apply sec_same. Qed.

Lemma keeps_completion x : keeps mgood (modify (add_completion x) : Sec unit).
Proof. by apply sec_same. Qed.

Lemma keeps_interrupt_note x : keeps mgood (modify (add_interrupt x) : Sec unit).
Proof. by apply sec_same. Qed.
End keeps.

#[export] Hint Resolve keeps_run_of keeps_get keeps_persist_section keeps_emit_event keeps_close keeps_add_agents
  keeps_drop_agents keeps_block keeps_completion keeps_interrupt_note : runs.
#[export] Hint Resolve round_good complete_good fail_good force_cancel_good cancel_descendant_good
  pause_suspended_good arm_pause_good cancel_suspended_good cancel_paused_good arm_cancel_good suspend_good
  resume_good resume_if_suspended_good interrupt_good : runs.
#[export] Hint Extern 1 (keeps mgood _) => (apply keeps_section_of; intros ?) : runs.

Section ops.
Context `{RunYaml, DirOrder, RunOrder}.

Lemma keeps_persist_snapshot id : keeps wgood (persist_snapshot_best_effort id).
Proof. unfold persist_snapshot_best_effort, persist_best_effort. keeps. Qed.
#[local] Hint Resolve keeps_persist_snapshot : runs.

Lemma keeps_persist_and_emit id e : keeps wgood (persist_and_emit id e).
Proof. unfold persist_and_emit. keeps. Qed.
#[local] Hint Resolve keeps_persist_and_emit : runs.

Lemma keeps_descendant_agents id : keeps wgood (descendant_agents_for_run id).
Proof. unfold descendant_agents_for_run. keeps. Qed.

Lemma keeps_live_ids agents : keeps wgood (live_run_ids_for_agents agents).
Proof. unfold live_run_ids_for_agents. keeps. Qed.
#[local] Hint Resolve keeps_descendant_agents keeps_live_ids : runs.

Lemma keeps_close_descendant sid reason : keeps wgood (close_descendant_session sid reason).
Proof. unfold close_descendant_session. keeps. Qed.
#[local] Hint Resolve keeps_close_descendant : runs.

Lemma keeps_cancel_descendant n now id reason : keeps wgood (cancel_descendant_loop n now id reason).
Proof. induction n; simpl; keeps. Qed.

Lemma keeps_cancel_descendants now ids reason : keeps wgood (cancel_descendants now ids reason).
Proof. pose proof keeps_cancel_descendant. induction ids; simpl; unfold cancel_descendant_run; keeps. Qed.
#[local] Hint Resolve keeps_cancel_descendants : runs.

Lemma keeps_cascade_scans n now id reason : ∀ held e, keeps wgood (cascade_scans n now id reason held e).
Proof. induction n; intros held e; simpl; keeps. Qed.
#[local] Hint Resolve keeps_cascade_scans : runs.

Lemma keeps_cascade now id reason : keeps wgood (cascade_descendants_for_run now id reason).
Proof. unfold cascade_descendants_for_run. keeps. Qed.
#[local] Hint Resolve keeps_cascade : runs.

Lemma keeps_preflight id : keeps wgood (preflight_descendant_cascade_for_run id).
Proof. unfold preflight_descendant_cascade_for_run. keeps. Qed.

Lemma keeps_require_sessions : keeps wgood require_sessions.
Proof. unfold require_sessions. keeps. Qed.

Lemma keeps_close_if_some root reason : keeps wgood (close_if_some root reason).
Proof. unfold close_if_some. keeps. Qed.
#[local] Hint Resolve keeps_preflight keeps_require_sessions keeps_close_if_some : runs.

Lemma keeps_finish_cancel now id reason e : keeps wgood (finish_cancel now id reason e).
Proof. unfold finish_cancel. keeps. Qed.
#[local] Hint Resolve keeps_finish_cancel : runs.

Lemma keeps_cancel_attempts n now id reason : ∀ status root, keeps wgood (cancel_attempts n now id reason status root).
Proof. induction n; intros status root; simpl; keeps. Qed.

Lemma keeps_complete_round advance now id trace parent :
  keeps wgood (complete_round_with_trace advance now id trace parent).
Proof. unfold complete_round_with_trace. keeps. Qed.

Lemma keeps_complete_run now id outcome : keeps wgood (complete_run now id outcome).
Proof. unfold complete_run. keeps. Qed.

Lemma keeps_fail_run now id reason : keeps wgood (fail_run now id reason).
Proof. unfold fail_run. keeps. Qed.

Lemma keeps_pause_run now id reason : keeps wgood (pause_run now id reason).
Proof. unfold pause_run. keeps. Qed.

Lemma keeps_cancel_run now id reason : keeps wgood (cancel_run now id reason).
Proof. pose proof keeps_cancel_attempts. unfold cancel_run. keeps. Qed.

Lemma keeps_force_cancel now id reason : keeps wgood (force_cancel_run_by_id_sync now id reason).
Proof. unfold force_cancel_run_by_id_sync. keeps. Qed.
#[local] Hint Resolve keeps_force_cancel : runs.

Lemma keeps_cancel_run_for_agent now agent reason : keeps wgood (cancel_run_for_agent now agent reason).
Proof. unfold cancel_run_for_agent. keeps. Qed.

Lemma keeps_cancel_all now agent reason : keeps wgood (cancel_all_runs_for_agent now agent reason).
Proof.
  assert (∀ ids, keeps wgood (force_cancel_all now ids reason)) as Hids.
  { intros ids. induction ids; simpl; keeps. }
  unfold cancel_all_runs_for_agent. generalize (S DESCENDANT_CASCADE_SCAN_LIMIT). intros n.
  apply (keeps_bind _); [keeps|intros _].
  assert (∀ ids, keeps wgood (force_cancel_all now ids (truncate_reason reason))) as Hids'.
  { intros ids. induction ids; simpl; keeps. }
  induction n; simpl; keeps.
Qed.

Lemma keeps_suspend_run now id sid : keeps wgood (suspend_run now id sid).
Proof. unfold suspend_run. keeps. Qed.

Lemma keeps_resume_run now id reason : keeps wgood (resume_run now id reason).
Proof. unfold resume_run. keeps. Qed.

Lemma keeps_resume_if_suspended now id reason : keeps wgood (resume_run_if_suspended now id reason).
Proof. unfold resume_run_if_suspended. keeps. Qed.

Lemma keeps_recover_on_startup alive now : keeps wgood (recover_on_startup alive now).
Proof.
  assert (∀ r, keeps wgood (recover_candidate alive now r)) as Hone. { intros r. unfold recover_candidate. keeps. }
  assert (∀ rs rep, keeps wgood (recover_candidates alive now rs rep)) as Hall.
  { intros rs. induction rs; intros rep; simpl; keeps. }
  unfold recover_on_startup. keeps.
Qed.

Lemma keeps_commit id tokens cost : is_u64 tokens = true → keeps wgood (commit id tokens cost).
Proof.
  intros Ht. unfold commit. apply (keeps_bind _).
  - apply atomically_keeps, keeps_section_of. intros m. by apply commit_good.
  - intros [run|]; unfold persist_best_effort; keeps.
Qed.

Lemma keeps_ignore {A} (op : RM A) : keeps wgood op → keeps wgood (ignore op).
Proof. intros Hop. unfold ignore. keeps. Qed.

Lemma keeps_call c : keeps wgood (run_call c).
Proof.
  destruct c; simpl.
  - apply keeps_ignore, keeps_complete_round.
  - apply keeps_complete_run.
  - apply keeps_fail_run.
  - apply keeps_pause_run.
  - apply keeps_cancel_run.
  - apply keeps_ignore, keeps_force_cancel.
  - apply keeps_cancel_run_for_agent.
  - apply keeps_cancel_all.
  - apply keeps_cascade.
  - apply keeps_suspend_run.
  - apply keeps_resume_run.
  - apply keeps_ignore, keeps_resume_if_suspended.
  - destruct (is_u64 tokens) eqn:Ht; [by apply keeps_commit|by keeps].
  - apply keeps_ignore, keeps_recover_on_startup.
Qed.
End ops.

#[export] Hint Resolve keeps_call keeps_persist_snapshot keeps_persist_and_emit keeps_cascade keeps_preflight
  keeps_require_sessions keeps_close_if_some keeps_finish_cancel keeps_cancel_attempts : runs.
