(* ===== verification/RunProps.v ===== *)
(** * What the run manager guarantees

    The theorems that hold in every state any callers can reach, whatever the
    interleaving of their sections: the index of live runs, the token budget,
    the finality of ended runs, and that a cancel which reports success is not
    lost. *)
From S2P Require Import Prelude RustStr RunData RunStore RunManager RunOps RunFacts RunKeeps.
Open Scope string_scope.
Open Scope list_scope.
Open Scope Z_scope.

(** ** A sample *)

Definition sample_config : RunConfig.t := RunConfig.mk (Some 100) None (Some 5) None None.

(** A manager without a directory never serializes a run. *)
Definition no_yaml : RunYaml := {| to_yaml := λ _, None; of_yaml := λ _, None |}.

(** Two runs; the first has spent ten tokens, reserved twenty and waits. *)
Definition sample_acts : list action :=
  [Ensure 1 "r1" false "task-1" "lead" sample_config; Ensure 1 "r2" false "task-2" "lead" sample_config;
   Reserve None "r1" 30 f64_zero; Commit "r1" 10 f64_zero; Round 2 "r1" None None; Suspend 3 "r1" "session-1"].
#[local] Existing Instances no_yaml run_order_model.
#[local] Instance sample_dir_order : DirOrder := map_to_list.
Definition sample_manager : RunManager := perform_all sample_acts manager_new.
Definition sample_run : Run.t := default (Run.new "" "" "" sample_config 0) (get "r1" (store sample_manager)).

Definition sample_ended : RunManager := perform_all [ForceCancel 4 "r1" "stop"] sample_manager.
Definition sample_ended_run : Run.t := default sample_run (get "r1" (store sample_ended)).

Section reach.
Context `{RunYaml, DirOrder, RunOrder}.

(** The states sections, and whole calls with other callers' sections in
    between, lead to from a manager with no runs. *)
Inductive reachable : RunManager → Prop :=
| reach_start m : store m = store_new → reachable m
| reach_step a m : reachable m → reachable (perform a m)
| reach_call c w : reachable (manager w) → reachable (manager (run_call c w).2).

Lemma store_new_ok : store_ok store_new.
Proof. split; try done. Qed.

Lemma reachable_ok m : reachable m → store_ok (store m).
Proof.
  induction 1 as [m Hm|a m _ IH|c w _ IH]; [rewrite Hm; apply store_new_ok|by apply (perform_good a m)|].
  by apply (keeps_call c w).
Qed.

Lemma reachable_all acts m : reachable m → reachable (perform_all acts m).
Proof.
  unfold perform_all. revert m. induction acts as [|a acts IH]; intros m Hm; simpl; [done|].
  apply IH. by apply reach_step.
Qed.

Lemma reach_services ar tree m : reachable m → reachable (set_services ar tree m).
Proof. apply (reach_step (Services ar tree)). Qed.

(** Asked to be cancelled, or over. *)
Definition doomed (id : string) (m : RunManager) : Prop :=
  ∃ r, get id (store m) = Some r ∧ (is_live r = false ∨ is_Some (Run.cancel_pending r)).

Lemma doomed_good id m m' : store_ok (store m) → mgood m m' → doomed id m → doomed id m'.
Proof.
  intros Hok Hg (r & Hr & Hd). destruct (Hg Hok) as [_ Ha]. destruct (Ha id r Hr) as (r' & Hr' & Hadv).
  exists r'. split; [done|]. destruct Hd as [Hl|Hc].
  - left. by rewrite (ra_final _ _ Hadv Hl).
  - destruct (ra_cancel _ _ Hadv Hc) as [?|Heq]; [by left|right]. by rewrite Heq.
Qed.

(** What a successful step of an operation keeps. *)
Lemma wgood_Ok {A} (op : RM A) w a w' :
  keeps wgood op → op w = (Ok a, w') → store_ok (store (manager w)) →
  store_ok (store (manager w')) ∧ mgood (manager w) (manager w').
Proof.
  intros Hk Hrun Hok. specialize (Hk w). rewrite Hrun in Hk. simpl in Hk. split; [|exact Hk]. by apply Hk.
Qed.

(** An operation whose section dooms the run. *)
Lemma atomically_Ok {A} (sec : Sec A) w a w' :
  atomically sec w = (Ok a, w') → store_ok (store (manager w)) →
  ∃ m, store_ok (store m) ∧ mgood (manager w) m ∧ sec m = (Ok a, manager w').
Proof.
  unfold atomically. set (m := perform_all _ _). destruct (sec m) as [r m'] eqn:Hm. intros [= -> <-] Hok.
  exists m. pose proof (perform_all_good (default [] (head (others w))) (manager w)) as Hg.
  split; [by apply Hg|done].
Qed.

Lemma raced_doomed id m r o : get id (store m) = Some r → raced r = o → o = RacedTerminal → doomed id m.
Proof. intros Hr <-. unfold raced. destruct (is_live r) eqn:Hl; [done|]. intros _. exists r. auto. Qed.

Lemma settled_doomed id m r f :
  get id (store m) = Some r → is_live (f r) = false →
  doomed id (set_store (λ s, drop_live_by_task (Run.task_id r) (update id f s)) m).
Proof.
  intros Hr Hl. exists (f r). split; [|by left]. unfold get in *. simpl. rewrite lookup_alter_eq. by rewrite Hr.
Qed.

Lemma cancel_suspended_doomed now id reason root m o m' :
  cancel_suspended_section now id reason root m = (Ok o, m') → (∀ st ra, o ≠ RacedLive st ra) → doomed id m'.
Proof.
  unfold cancel_suspended_section. section. destruct (get id (store m)) as [r|] eqn:Hr; [|done].
  destruct (is_suspended r && _); simpl; intros [= <- <-] Ho; [by apply settled_doomed|].
  unfold raced in Ho. destruct (is_live r) eqn:Hl; [by destruct (Ho (Run.status r) (Run.root_await r))|].
  exists r. auto.
Qed.

Lemma cancel_paused_doomed now id reason m o m' :
  cancel_paused_section now id reason m = (Ok o, m') → (∀ st ra, o ≠ RacedLive st ra) → doomed id m'.
Proof.
  unfold cancel_paused_section. section. destruct (get id (store m)) as [r|] eqn:Hr; [|done].
  destruct (bool_decide _); simpl; intros [= <- <-] Ho; [by apply settled_doomed|].
  unfold raced in Ho. destruct (is_live r) eqn:Hl; [by destruct (Ho (Run.status r) (Run.root_await r))|].
  exists r. auto.
Qed.

Lemma arm_cancel_doomed now id reason m b m' :
  arm_cancel_section now id reason m = (Ok b, m') → doomed id m'.
Proof.
  unfold arm_cancel_section. section. destruct (get id (store m)) as [r|] eqn:Hr; [|done].
  destruct (is_active r); simpl; [|done]. destruct (Run.cancel_pending r) eqn:Hc; simpl; intros [= <- <-].
  - exists r. split; [done|]. right. by rewrite Hc.
  - eexists. split; [unfold get in *; simpl; by rewrite lookup_alter_eq, Hr|]. by right.
Qed.

(** After a bind whose second half keeps the invariant. *)
Lemma doomed_then {A} id (op : RM A) w a w' :
  keeps wgood op → op w = (Ok a, w') → store_ok (store (manager w)) → doomed id (manager w) →
  doomed id (manager w').
Proof. intros Hk Hrun Hok Hd. destruct (wgood_Ok op w a w' Hk Hrun Hok) as [_ Hg]. by eapply doomed_good. Qed.

Lemma cancel_attempts_doomed n now id reason : ∀ status root w w',
  cancel_attempts n now id reason status root w = (Ok tt, w') → store_ok (store (manager w)) →
  (is_live_status status = false → doomed id (manager w)) → doomed id (manager w').
Proof.
  induction n as [|n IH]; intros status root w w' Hrun Hok Hdead; [done|].
  assert (∀ o w1 w2, store_ok (store (manager w1)) →
    match o with
    | Settled e => finish_cancel now id reason e
    | RacedTerminal => mret tt
    | RacedLive st ra => cancel_attempts n now id reason st ra
    end w1 = (Ok tt, w2) →
    ((∀ st ra, o ≠ RacedLive st ra) → doomed id (manager w1)) →
    (∀ st ra, o = RacedLive st ra → is_live_status st = true) → doomed id (manager w2)) as Hrecheck.
  { intros o w1 w2 Hok1 Hrun1 Hd Hlive. destruct o as [e| |st ra].
    - eapply doomed_then; [apply keeps_finish_cancel|exact Hrun1|done|by apply Hd].
    - injection Hrun1 as <-. by apply Hd.
    - eapply IH; [exact Hrun1|done|]. by rewrite (Hlive st ra). }
  destruct status; simpl in Hrun; [| | |done|done|].
  - apply M_bind_Ok in Hrun as (b & w1 & Harm & Hrun).
    destruct (wgood_Ok _ _ _ _ (atomically_keeps _ (arm_cancel_good now id reason)) Harm Hok) as [Hok1 _].
    apply atomically_Ok in Harm as (m & _ & _ & Harm); [|done]. apply arm_cancel_doomed in Harm.
    destruct b; [|by injection Hrun as <-]. by eapply (doomed_then _ _ w1); [apply keeps_persist_snapshot|..].
  - apply M_bind_Ok in Hrun as (? & w1 & Hs1 & Hrun). apply M_bind_Ok in Hrun as (? & w2 & Hs2 & Hrun).
    apply M_bind_Ok in Hrun as (? & w3 & Hs3 & Hrun). apply M_bind_Ok in Hrun as (o & w4 & Hs4 & Hrun).
    apply (wgood_Ok _ _ _ _ (keeps_preflight id)) in Hs1 as [Hok1 _]; [|done].
    apply (wgood_Ok _ _ _ _ keeps_require_sessions) in Hs2 as [Hok2 _]; [|done].
    apply (wgood_Ok _ _ _ _ (keeps_close_if_some root reason)) in Hs3 as [Hok3 _]; [|done].
    destruct (wgood_Ok _ _ _ _ (atomically_keeps _ (cancel_suspended_good now id reason root)) Hs4 Hok3) as [Hok4 _].
    apply atomically_Ok in Hs4 as (m & _ & _ & Hs4); [|done]. eapply Hrecheck; [|exact Hrun| |]; [done| |].
    + by eapply cancel_suspended_doomed.
    + intros st ra ->. revert Hs4. unfold cancel_suspended_section. section. destruct (get id (store m)); [|done].
      destruct (is_suspended t && _); simpl; [done|]. unfold raced. destruct (is_live t) eqn:Hl; [|done]. by intros [= <- <- _].
  - apply M_bind_Ok in Hrun as (? & w1 & Hs1 & Hrun). apply M_bind_Ok in Hrun as (o & w2 & Hs2 & Hrun).
    apply (wgood_Ok _ _ _ _ (keeps_preflight id)) in Hs1 as [Hok1 _]; [|done].
    destruct (wgood_Ok _ _ _ _ (atomically_keeps _ (cancel_paused_good now id reason)) Hs2 Hok1) as [Hok2 _].
    apply atomically_Ok in Hs2 as (m & _ & _ & Hs2); [|done]. eapply Hrecheck; [|exact Hrun| |]; [done| |].
    + by eapply cancel_paused_doomed.
    + intros st ra ->. revert Hs2. unfold cancel_paused_section. section. destruct (get id (store m)); [|done].
      destruct (bool_decide _); simpl; [done|]. unfold raced. destruct (is_live t) eqn:Hl; [|done]. by intros [= <- <- _].
  - eapply doomed_then; [apply keeps_cascade|exact Hrun|done|by apply Hdead].
Qed.
End reach.

(** ** Properties *)

Section properties.
Context `{RunYaml, DirOrder, RunOrder}.

Lemma find_live_spec s task r : store_ok s →
  find_live_by_task task s = Some r ↔
    runs s !! Run.id r = Some r ∧ is_live r = true ∧ Run.task_id r = task.
Proof.
  intros Hok. unfold find_live_by_task. split.
  - intros (id & Hid & (r' & Hr & Hl)%bind_Some)%bind_Some. case_match eqn:Hlive; simplify_eq.
    destruct (sk_sound s Hok task id Hid) as (r' & Hr' & _ & Ht). simplify_eq.
    by rewrite (sk_key s Hok id r Hr).
  - intros (Hr & Hl & <-). rewrite (sk_complete s Hok _ _ Hr Hl). simpl. rewrite Hr. simpl. by rewrite Hl.
Qed.

(** One live run per task.  In every state callers can reach, the index of
    live runs answers a task exactly with the live run stored for it, no task
    has two live runs, and the store is within its cap.  (No creation was
    undone on the way: see [RunDivergences.rollback_unindexes_another_run].) *)
Theorem live_runs_indexed m :
  reachable m →
  (∀ task r, find_live_by_task task (store m) = Some r ↔
     get (Run.id r) (store m) = Some r ∧ is_live r = true ∧ Run.task_id r = task) ∧
  (∀ id1 id2 r1 r2, get id1 (store m) = Some r1 → get id2 (store m) = Some r2 →
     is_live r1 = true → is_live r2 = true → Run.task_id r1 = Run.task_id r2 → id1 = id2) ∧
  runs_len (store m) ≤ MAX_RUNS_PER_STORE.
Proof.
  intros Hreach. pose proof (reachable_ok m Hreach) as Hok. split_and!; [|clear Hreach|apply Hok].
  - intros task r. by apply find_live_spec.
  - intros id1 id2 r1 r2 Hr1 Hr2 Hl1 Hl2 Ht. pose proof (sk_complete _ Hok id1 r1 Hr1 Hl1) as Hc1.
    rewrite Ht, (sk_complete _ Hok id2 r2 Hr2 Hl2) in Hc1. congruence.
Qed.

(** C27: the state machine's shape.  In every state callers can reach, a run
    waits on a session exactly while it is suspended, has at most one of a
    pause and a cancel asked for, and once it has ended has neither and holds
    no reservation. *)
Theorem runs_well_formed m id r :
  reachable m → get id (store m) = Some r →
  Run.id r = id ∧
  (is_Some (Run.root_await r) ↔ Run.status r = TaskRunStatus.Suspended) ∧
  (Run.pause_pending r = None ∨ Run.cancel_pending r = None) ∧
  (is_live r = false →
     Run.pause_pending r = None ∧ Run.cancel_pending r = None ∧
     BudgetState.token_reserved (Run.budget r) = 0 ∧ BudgetState.cost_reserved (Run.budget r) = f64_zero).
Proof.
  intros Hreach Hr. pose proof (reachable_ok m Hreach) as Hok. pose proof (sk_run _ Hok id r Hr) as Hrun.
  split_and!; [by eapply sk_key|apply Hrun|by apply not_both|]. intros Hl.
  destruct (rk_terminal r Hrun Hl) as (? & ? & ? & ?). done.
Qed.

(** C23: the token limit holds.  In every state callers can reach, however
    their checks and commits interleave, what a run has used is within its
    token limit, and so is what it has used and reserved together (up to the
    saturation of the counter at its width). *)
Theorem tokens_within_limit m id r limit :
  reachable m → get id (store m) = Some r → BudgetState.token_limit (Run.budget r) = Some limit →
  0 ≤ BudgetState.token_used (Run.budget r) ≤ limit ∧
  sat_add_u64 (BudgetState.token_used (Run.budget r)) (BudgetState.token_reserved (Run.budget r)) ≤ limit ∧
  (limit < U64_MAX →
     BudgetState.token_used (Run.budget r) + BudgetState.token_reserved (Run.budget r) ≤ limit).
Proof.
  intros Hreach Hr Hl. pose proof (sk_run _ (reachable_ok m Hreach) id r Hr) as Hrun.
  destruct (rk_budget r Hrun) as [Hu Hres _ Hlim]. destruct (Hlim limit Hl) as [Hb Hs].
  unfold sat_add_u64 in *. lia.
Qed.

(** C28: runs only move forward.  Whatever sections callers take from a
    reachable state, a run stays stored and stays its controller's, its usage
    and rounds never decrease, and a run that has ended never changes again. *)
Theorem ended_runs_final m acts id r :
  reachable m → get id (store m) = Some r →
  ∃ r', get id (store (perform_all acts m)) = Some r' ∧
    (is_live r = false → r' = r) ∧
    Run.task_id r' = Run.task_id r ∧ Run.controller_agent r' = Run.controller_agent r ∧
    BudgetState.token_used (Run.budget r) ≤ BudgetState.token_used (Run.budget r') ∧
    BudgetState.rounds_used (Run.budget r) ≤ BudgetState.rounds_used (Run.budget r') ∧
    BudgetState.token_limit (Run.budget r') = BudgetState.token_limit (Run.budget r).
Proof.
  intros Hreach Hr. destruct (perform_all_good acts m (reachable_ok m Hreach)) as [_ Ha].
  destruct (Ha id r Hr) as (r' & Hr' & []). by exists r'.
Qed.

(** A round that completes on a run with a cancel asked for ends it. *)
Lemma round_ends_doomed now id trace parent m o m' r :
  round_section now id trace parent m = (Ok o, m') → get id (store m) = Some r → is_Some (Run.cancel_pending r) →
  ∃ reason r', get id (store m') = Some r' ∧ Run.status r' = TaskRunStatus.Cancelled reason ∧
    round_decision o = RoundDecision.Blocked "cancel-pending".
Proof.
  unfold round_section. intros Hrun Hr [reason Hc]. steps.
  repeat match goal with
  | Hs : run_of _ _ = _ |- _ => rewrite run_of_cases, Hr in Hs; injection Hs as <- <-
  | Hs : fail_if _ _ _ = _ |- _ => apply lift_Ok in Hs as [_ <-]
  | Hs : get_state _ = _ |- _ => injection Hs as <- <-
  end.
  match goal with Hs : (match agent_tree _ with _ => _ end) _ = (Ok _, ?m1) |- _ =>
    pose proof (cascade_preflight_store r m) as Hpre; rewrite Hs in Hpre; simpl in Hpre; subst m1; clear Hs end.
  match goal with Hs : write_run _ _ _ = _ |- _ => injection Hs as <- <- end.
  unfold settle_round in Hrun. simpl in Hrun. rewrite Hc in Hrun. simpl in Hrun. injection Hrun as <- <-.
  unfold get in *. eexists _, _. split_and!; [simpl; rewrite !lookup_alter_eq, Hr; reflexivity|reflexivity|done].
Qed.

(** C17: a cancel that reports success is not lost.  However other callers'
    sections fall between those of [cancel_run], when it answers [Ok] the run
    has ended or has the cancel asked for, it stays so whatever callers do
    next, and a round that completes on it in normal mode ends it. *)
Theorem cancel_never_lost w now id reason w' acts :
  reachable (manager w) → cancel_run now id reason w = (Ok tt, w') →
  let m := perform_all acts (manager w') in
  ∃ r, get id (store m) = Some r ∧ (is_live r = false ∨ is_Some (Run.cancel_pending r)) ∧
    ∀ later trace parent o m', is_live r = true → round_section later id trace parent m = (Ok o, m') →
      ∃ why r', get id (store m') = Some r' ∧ Run.status r' = TaskRunStatus.Cancelled why.
Proof.
  intros Hreach Hrun m. pose proof (reachable_ok _ Hreach) as Hok.
  assert (store_ok (store (manager w')) ∧ doomed id (manager w')) as [Hok' Hd].
  { split; [by eapply (wgood_Ok _ _ _ _ (keeps_cancel_run now id reason)) in Hrun as [? _]|].
    unfold cancel_run in Hrun. apply M_bind_Ok in Hrun as (r & w1 & Hread & Hrun).
    destruct (wgood_Ok _ _ _ _ (atomically_keeps _ (keeps_run_of id)) Hread Hok) as [Hok1 _].
    eapply cancel_attempts_doomed; [exact Hrun|done|]. intros Hdead.
    apply atomically_Ok in Hread as (m1 & _ & _ & Hread); [|done]. rewrite run_of_cases in Hread.
    destruct (get id (store m1)) as [r1|] eqn:Hr; [|done]. injection Hread as <- <-. exists r1. auto. }
  destruct (doomed_good id (manager w') m Hok' (perform_all_good acts _) Hd) as (r & Hr & Hdoom).
  exists r. split_and!; [done..|]. intros later trace parent o m' Hl Hround.
  destruct Hdoom as [?|Hc]; [congruence|]. destruct (round_ends_doomed _ _ _ _ _ _ _ _ Hround Hr Hc) as (why & r' & ? & ? & _).
  eauto.
Qed.
End properties.

(** ** Witnesses *)

Section witnesses.
#[local] Existing Instances no_yaml run_order_model sample_dir_order.

Lemma sample_runs_reachable : reachable sample_manager.
Proof. apply reachable_all. by apply reach_start. Qed.

Lemma live_runs_indexed_witness : find_live_by_task "task-1" (store sample_manager) = Some sample_run.
Proof. apply (live_runs_indexed sample_manager sample_runs_reachable). by vm_compute. Defined.

Lemma runs_well_formed_witness : Run.status sample_run = TaskRunStatus.Suspended.
Proof. apply (runs_well_formed sample_manager "r1" sample_run sample_runs_reachable); [by vm_compute|]. by exists "session-1". Defined.

Lemma tokens_within_limit_witness :
  BudgetState.token_used (Run.budget sample_run) + BudgetState.token_reserved (Run.budget sample_run) ≤ 100.
Proof. apply (tokens_within_limit sample_manager "r1" sample_run 100 sample_runs_reachable); by vm_compute. Defined.

Lemma ended_runs_final_witness :
  get "r1" (store (perform_all [Resume 5 "r1" "manual"; Commit "r1" 5 f64_zero] sample_ended)) = Some sample_ended_run.
Proof.
  destruct (ended_runs_final sample_ended [Resume 5 "r1" "manual"; Commit "r1" 5 f64_zero] "r1" sample_ended_run)
    as (r' & Hr' & Hf & _); [apply reachable_all, sample_runs_reachable|by vm_compute|].
  rewrite Hf in Hr'; [done|by vm_compute].
Defined.

(** The run is resumed by another caller before the cancel takes its lock; the
    second attempt finds it active and asks for the cancel. *)
Definition raced_cancel : World :=
  mkWorld (set_services (Some (mkSessions (λ _, true) (λ _, None) (λ _ _, Ok tt))) None sample_manager)
    [[]; []; []; []; [Resume 4 "r1" "manual"]].

Lemma cancel_never_lost_witness :
  ∃ r, get "r1" (store (manager (cancel_run 5 "r1" "stop" raced_cancel).2)) = Some r ∧
    (is_live r = false ∨ is_Some (Run.cancel_pending r)).
Proof.
  destruct (cancel_run 5 "r1" "stop" raced_cancel) as [[[]|e] w'] eqn:Hrun.
  - destruct (cancel_never_lost raced_cancel 5 "r1" "stop" w' []) as (r & Hr & Hd & _);
      [exact (reach_services _ None sample_manager sample_runs_reachable)|exact Hrun|].
    exists r. split; [exact Hr|exact Hd].
  - assert (is_ok (cancel_run 5 "r1" "stop" raced_cancel).1 = true) as Hok by by vm_compute. by rewrite Hrun in Hok.
Defined.
End witnesses.
