(* ===== verification/RunTree.v ===== *)
(** * The walk over descendant agents

    [post_order_descendant_agents] of [crates/run-manager/src/run.rs]: when it
    answers, it lists every descendant once, each after its own descendants,
    and it answers on every tree that has no cycle and is no deeper than the
    number of its agents. *)
From S2P Require Import Prelude RustStr RunData RunStore RunManager.
Open Scope string_scope.
Open Scope list_scope.
Open Scope Z_scope.

Section walk.
Context (children : string → list string) (root : string).

Definition child (a c : string) : Prop := c ∈ children a.

(** The loop over the children of a node, with the recursive call as an argument. *)
Fixpoint visit_children (rec : string → WalkState → result RunError.t WalkState) (cs : list string) (w : WalkState)
    : result RunError.t WalkState :=
  match cs with
  | [] => Ok w
  | c :: cs => if String.eqb c root then Err tree_cycle else w ← rec c w; visit_children rec cs w
  end.

Lemma visit_S fuel current w :
  visit children root (S fuel) current w =
    if bool_decide (current ∈ visited w) then Ok w
    else if bool_decide (current ∈ visiting w) then Err tree_cycle
    else
      w ← visit_children (visit children root fuel) (children current)
            (mkWalk ({[current]} ∪ visiting w) (visited w) (out w));
      Ok (mkWalk (visiting w ∖ {[current]}) ({[current]} ∪ visited w)
            (if String.eqb current root then out w else out w ++ [current])).
Proof.
  simpl. case_bool_decide; [done|]. case_bool_decide; [done|].
  f_equal. generalize (mkWalk ({[current]} ∪ visiting w) (visited w) (out w)).
  induction (children current) as [|c cs IH]; intros w'; simpl; [done|]. case_match; [done|].
  destruct (visit children root fuel c w'); simpl; [apply IH|done].
Qed.

(** What holds between visits. *)
Record walk_ok (w : WalkState) : Prop := {
  wk_apart : visiting w ## visited w;
  wk_out a : a ∈ out w ↔ a ∈ visited w ∧ a ≠ root;
  wk_NoDup : NoDup (out w);
  wk_closed a c : a ∈ visited w → child a c → c ∈ visited w ∧ c ≠ root;
  wk_order k1 a k2 c : out w = k1 ++ a :: k2 → child a c → c ∈ k1
}.

(** What a visit of [from] adds. *)
Record walk_step (from : string → Prop) (w w' : WalkState) : Prop := {
  ws_visiting : visiting w' = visiting w;
  ws_mono : visited w ⊆ visited w';
  ws_sound a : a ∈ visited w' → a ∈ visited w ∨ ∃ f, from f ∧ rtc child f a
}.

#[local] Instance walk_step_refl from : Reflexive (walk_step from).
Proof. intros w. split; [done|done|by left]. Qed.

Lemma walk_step_trans from w1 w2 w3 : walk_step from w1 w2 → walk_step from w2 w3 → walk_step from w1 w3.
Proof.
  intros [] []. split; [congruence|set_solver|]. intros a Ha. destruct (ws_sound1 a Ha) as [?|?]; [by apply ws_sound0|by right].
Qed.

Lemma walk_step_weaken (from from' : string → Prop) w w' :
  (∀ f, from f → ∃ f', from' f' ∧ rtc child f' f) → walk_step from w w' → walk_step from' w w'.
Proof.
  intros Hsub []. split; [done..|]. intros a Ha. destruct (ws_sound0 a Ha) as [?|(f & Hf & Hr)]; [by left|right].
  destruct (Hsub f Hf) as (f' & ? & ?). exists f'. split; [done|]. by etrans.
Qed.

Lemma visit_children_spec rec cs :
  (∀ c w w', c ∈ cs → rec c w = Ok w' → walk_ok w → walk_ok w' ∧ walk_step (eq c) w w' ∧ c ∈ visited w') →
  ∀ w w', visit_children rec cs w = Ok w' → walk_ok w →
    walk_ok w' ∧ walk_step (λ f, f ∈ cs) w w' ∧ ∀ c, c ∈ cs → c ∈ visited w' ∧ c ≠ root.
Proof.
  induction cs as [|c cs IH]; intros Hrec w w' Hrun Hok; simpl in Hrun.
  { injection Hrun as <-. split_and!; [done|reflexivity|by intros c ?%elem_of_nil]. }
  destruct (String.eqb c root) eqn:Hc; [done|]. apply String.eqb_neq in Hc.
  apply bind_Ok in Hrun as (w1 & Hrun1 & Hrun).
  destruct (Hrec c w w1 (list_elem_of_here _ _) Hrun1 Hok) as (Hok1 & Hs1 & Hv1).
  destruct (IH (λ c' v v' Hin, Hrec c' v v' (list_elem_of_further c' c cs Hin)) w1 w' Hrun Hok1) as (Hok' & Hs' & Hv').
  split_and!; [done| |].
  - eapply walk_step_trans; [eapply walk_step_weaken; [|exact Hs1]|eapply walk_step_weaken; [|exact Hs']].
    + intros f <-. exists c. split; [by left|reflexivity].
    + intros f Hf. exists f. split; [by right|reflexivity].
  - intros c' [->|Hin]%elem_of_cons; [|by apply Hv']. split; [by apply Hs'|done].
Qed.

Lemma visit_spec fuel : ∀ current w w',
  visit children root fuel current w = Ok w' → walk_ok w →
  walk_ok w' ∧ walk_step (eq current) w w' ∧ current ∈ visited w'.
Proof.
  induction fuel as [|fuel IH]; intros current w w' Hrun Hok; [done|]. rewrite visit_S in Hrun.
  case_bool_decide as Hseen; [injection Hrun as <-; split_and!; [done|reflexivity|done]|].
  case_bool_decide as Hcyc; [done|]. apply bind_Ok in Hrun as (w1 & Hkids & [= <-]).
  apply visit_children_spec in Hkids as (Hok1 & Hs1 & Hin); [|by eauto|].
  2: { destruct Hok. split; simpl; [set_solver|done..]. }
  destruct Hs1 as [Hvis Hmono Hsound], Hok1. simpl in *.
  assert (current ∉ visited w1) as Hfresh. { intros Hin'. rewrite Hvis in wk_apart0. set_solver. }
  assert (visiting w1 ∖ {[current]} = visiting w) as Hback. { rewrite Hvis. set_solver. }
  split_and!; [|split; simpl|simpl; set_solver].
  - split; simpl.
    + rewrite Hback. rewrite Hvis in wk_apart0. set_solver.
    + intros a. destruct (String.eqb current root) eqn:Hroot.
      * apply String.eqb_eq in Hroot as ->. rewrite wk_out0. set_solver.
      * apply String.eqb_neq in Hroot. rewrite elem_of_app, wk_out0, list_elem_of_singleton. set_solver.
    + destruct (String.eqb current root); [done|]. apply NoDup_app. split_and!; [done| |apply NoDup_singleton].
      intros a Ha ->%list_elem_of_singleton. apply wk_out0 in Ha as [? _]. done.
    + intros a c [->%elem_of_singleton|Ha]%elem_of_union Hc.
      * destruct (Hin c Hc). split; [set_solver|done].
      * destruct (wk_closed0 a c Ha Hc). split; [set_solver|done].
    + intros k1 a k2 c Heq Hc. destruct (String.eqb current root); [by eapply wk_order0|].
      destruct (decide (k2 = [])) as [->|Hne].
      * apply app_inj_tail in Heq as [<- <-]. apply wk_out0, Hin, Hc.
      * destruct k2 as [|b k2 _] using rev_ind; [done|]. rewrite app_comm_cons, app_assoc in Heq.
        apply app_inj_tail in Heq as [Heq _]. by eapply wk_order0.
  - done.
  - set_solver.
  - intros a [->%elem_of_singleton|Ha]%elem_of_union; [right; exists current; split; [done|reflexivity]|].
    destruct (Hsound a Ha) as [?|(f & Hf & Hr)]; [by left|right]. exists current. split; [done|].
    by eapply rtc_l.
Qed.

Lemma walk_start_ok : walk_ok (mkWalk ∅ ∅ []).
Proof.
  split; simpl; [set_solver|set_solver|constructor|set_solver|]. intros k1 a k2 c Heq. by destruct k1.
Qed.

Lemma below_before w (Hok : walk_ok w) k1 a k2 c : out w = k1 ++ a :: k2 → tc child a c → c ∈ k1.
Proof.
  intros Heq Htc. revert k1 k2 Heq. induction Htc as [a c Hac|a b c Hab _ IH]; intros k1 k2 Heq.
  - by eapply wk_order.
  - pose proof (wk_order w Hok k1 a k2 b Heq Hab) as (j1 & j2 & ->)%list_elem_of_split.
    rewrite <-app_assoc in Heq. apply elem_of_app. left. by apply (IH j1 (j2 ++ a :: k2)).
Qed.

Lemma tc_last a c : tc child a c → ∃ x, rtc child a x ∧ child x c.
Proof.
  induction 1 as [a c Hac|a b c Hab _ (x & Hx & Hxc)]; [by exists a|]. exists x. split; [by eapply rtc_l|done].
Qed.

(** *** Termination within the depth *)

Context (rank : string → nat) (Hrank : ∀ a c, rtc child root a → child a c → (rank c < rank a)%nat).

Lemma rank_below x : rtc child root x → (rank x ≤ rank root)%nat.
Proof.
  revert x. apply (rtc_ind_r (λ x, rank x ≤ rank root)%nat); [lia|].
  intros x y Hx Hxy IH. pose proof (Hrank x y Hx Hxy). lia.
Qed.

Lemma visit_total fuel : ∀ current w,
  rtc child root current → (rank current < fuel)%nat → (∀ a, a ∈ visiting w → (rank current < rank a)%nat) →
  ∃ w', visit children root fuel current w = Ok w' ∧ (visiting w' = visiting w).
Proof.
  induction fuel as [|fuel IH]; intros current w Hreach Hfuel Hvis; [lia|]. rewrite visit_S.
  case_bool_decide; [by exists w|]. case_bool_decide as Hin; [apply Hvis in Hin; lia|].
  assert (rank current ≤ rank root)%nat as Htop.
  { by apply rank_below. }
  assert (∀ cs w1, (∀ c, c ∈ cs → child current c) → visiting w1 = {[current]} ∪ visiting w →
    ∃ w2, visit_children (visit children root fuel) cs w1 = Ok w2 ∧ visiting w2 = visiting w1) as Hkids.
  { induction cs as [|c cs IHcs]; intros w1 Hcs Hw1; simpl; [by exists w1|].
    assert (child current c) as Hc by (apply Hcs; left). pose proof (Hrank current c Hreach Hc).
    destruct (String.eqb c root) eqn:Hroot; [apply String.eqb_eq in Hroot as ->; lia|].
    destruct (IH c w1) as (w2 & Hw2 & Hv2); [by eapply rtc_r|lia| |].
    - intros a. rewrite Hw1. intros [->%elem_of_singleton|Ha]%elem_of_union; [lia|]. specialize (Hvis a Ha). lia.
    - rewrite Hw2. simpl. destruct (IHcs w2) as (w3 & Hw3 & Hv3); [intros; apply Hcs; by right|congruence|].
      exists w3. split; [done|congruence]. }
  destruct (Hkids (children current) (mkWalk ({[current]} ∪ visiting w) (visited w) (out w))) as (w2 & Hw2 & Hv2); [done..|].
  rewrite Hw2. simpl. eexists. split; [done|]. simpl. rewrite Hv2. simpl.
  assert (current ∉ visiting w) by (intros Hi; apply Hvis in Hi; lia). set_solver.
Qed.
End walk.

(** The parent-child relation of a tree. *)
Definition kids (t : AgentTree) : string → list string := λ a, default [] (children_of t !! a).

Lemma post_order_spec t root l :
  post_order_descendant_agents t root = Ok l →
  NoDup l ∧
  (∀ a, a ∈ l ↔ a ≠ root ∧ rtc (child (kids t)) root a) ∧
  (∀ k1 a k2 c, l = k1 ++ a :: k2 → child (kids t) a c → c ∈ k1) ∧
  (∀ a, rtc (child (kids t)) root a → ¬ tc (child (kids t)) a a).
Proof.
  unfold post_order_descendant_agents.
  intros (w & Hrun & [= <-])%bind_Ok. apply visit_spec in Hrun as (Hok & Hs & Hroot); [|apply walk_start_ok].
  change (visit (λ a, default [] (children_of t !! a))) with (visit (kids t)) in *.
  assert (∀ a, rtc (child (kids t)) root a → a ∈ visited w) as Hall.
  { apply (rtc_ind_r (λ a, a ∈ visited w)); [done|]. intros a c _ Hc Ha. by apply (wk_closed _ _ w Hok a). }
  assert (∀ a c, rtc (child (kids t)) root a → child (kids t) a c → c ≠ root) as Hnr.
  { intros a c Ha Hc. eapply (wk_closed _ _ w Hok); [by apply Hall|done]. }
  assert (∀ a, a ∈ out w ↔ a ≠ root ∧ rtc (child (kids t)) root a) as Hmem.
  { intros a. rewrite (wk_out _ _ w Hok a). split; intros [Hv Hd]; [split; [done|]|by split; [apply Hall|]].
    destruct (ws_sound _ _ _ _ Hs a Hv) as [[]%elem_of_empty|(f & <- & Hf)]. done. }
  pose proof (wk_NoDup _ _ w Hok) as Hnodup. pose proof (below_before _ _ w Hok) as Hbelow.
  split_and!; [done|done|by apply (wk_order _ _ w Hok)|].
  intros a Ha Hcyc. destruct (decide (a = root)) as [->|Hne].
  - apply tc_last in Hcyc as (x & Hx & Hxr). by apply (Hnr x root).
  - assert (a ∈ out w) as (k1 & k2 & Heq)%list_elem_of_split by by apply Hmem.
    pose proof (Hbelow k1 a k2 a Heq Hcyc) as Hin. rewrite Heq in Hnodup.
    apply NoDup_app in Hnodup as (_ & Hnodup & _). by apply (Hnodup a Hin); left.
Qed.

Lemma post_order_total t root (rank : string → nat) :
  (∀ a c, rtc (child (kids t)) root a → child (kids t) a c → (rank c < rank a)%nat) →
  (rank root ≤ S (length (nodes t)))%nat →
  ∃ l, post_order_descendant_agents t root = Ok l.
Proof.
  intros Hrank Hle. unfold post_order_descendant_agents.
  destruct (visit_total (kids t) root rank Hrank (S (max_depth t)) root (mkWalk ∅ ∅ [])) as (w & Hw & _);
    [reflexivity|unfold max_depth; lia|set_solver|].
  exists (out w). change (visit (λ a, default [] (children_of t !! a))) with (visit (kids t)). by rewrite Hw.
Qed.

(** The descendants of an agent.  When the walk answers, its list holds
    every agent below the root exactly once and nothing else, an agent comes
    after everything below it, and no agent is below itself.  It does answer
    whenever no cycle can be reached and no chain is longer than the number of
    agents plus one. *)
Theorem post_order_exact t root :
  (∀ l, post_order_descendant_agents t root = Ok l →
     NoDup l ∧
     (∀ a, a ∈ l ↔ a ≠ root ∧ rtc (child (kids t)) root a) ∧
     (∀ k1 a k2 c, l = k1 ++ a :: k2 → child (kids t) a c → c ∈ k1) ∧
     (∀ a, rtc (child (kids t)) root a → ¬ tc (child (kids t)) a a)) ∧
  (∀ rank : string → nat,
     (∀ a c, rtc (child (kids t)) root a → child (kids t) a c → (rank c < rank a)%nat) →
     (rank root ≤ S (length (nodes t)))%nat →
     ∃ l, post_order_descendant_agents t root = Ok l).
Proof. split; [apply post_order_spec | apply post_order_total]. Qed.

(** Two agents below the root, one also below the other. *)
Definition sample_tree : AgentTree := mkTree ["a"; "b"; "c"] (<["a" := ["b"; "c"]]> (<["b" := ["c"]]> ∅)).

Lemma post_order_exact_witness :
  post_order_descendant_agents sample_tree "a" = Ok ["c"; "b"] ∧ NoDup ["c"; "b"].
Proof.
  assert (post_order_descendant_agents sample_tree "a" = Ok ["c"; "b"]) as Hl by by vm_compute.
  split; [exact Hl|]. by apply (proj1 (post_order_exact sample_tree "a")).
Defined.
