(* ===== verification/RunSpec.v ===== *)
(** * What single operations of the run manager do

    The contracts of creating a run and of checking its budget, on every
    branch: when they succeed, what exactly they change, and that a refusal
    changes nothing. *)
From S2P Require Import Prelude RustStr RunData RunStore RunManager RunOps RunFacts RunKeeps RunProps.
Open Scope string_scope.
Open Scope list_scope.
Open Scope Z_scope.

(** ** Running alone *)

Section alone.
Context `{RunYaml, DirOrder, RunOrder}.

Lemma atomically_alone {A} (sec : Sec A) m :
  atomically sec (mkWorld m []) = ((sec m).1, mkWorld (sec m).2 []).
Proof. unfold atomically. simpl. unfold perform_all. simpl. by destruct (sec m). Qed.

Lemma attempt_alone {A} (sec : Sec A) m :
  attempt (atomically sec) (mkWorld m []) = (Ok (sec m).1, mkWorld (sec m).2 []).
Proof. unfold attempt. by rewrite atomically_alone. Qed.

Lemma bind_run {S E A B} (op : M S E A) (k : A → M S E B) w :
  (op ≫= k) w = match op w with (Ok a, w) => k a w | (Err e, w) => (Err e, w) end.
Proof. reflexivity. Qed.

(** ** Creation *)

(** What writing the file of a run does. *)
Definition writable (run : Run.t) (d : StateDir) : Prop :=
  is_ok (validate_path_safe (Run.task_id run)) = true ∧ is_Some (to_yaml run) ∧ head (write_faults d) ≠ Some true.

Lemma persist_section_spec run m :
  match persist_section run m with
  | (Ok _, m') =>
      store m' = store m ∧ event_bus m' = event_bus m ∧
      ∀ d, persister m = Some d → writable run d ∧ ∃ d' body, persister m' = Some d' ∧ to_yaml run = Some body ∧
        files d' = <[target_path (Run.task_id run) := RunFile.Regular (len body) (Some body)]> (files d)
  | (Err _, m') =>
      store m' = store m ∧ event_bus m' = event_bus m ∧ files <$> persister m' = files <$> persister m ∧
      ∃ d, persister m = Some d ∧ ¬ writable run d
  end.
Proof.
  unfold persist_section, writable. destruct (persister m) as [d|] eqn:Hd; [|by split_and!].
  unfold persist, deny_as. destruct (validate_path_safe (Run.task_id run)) as [u|e] eqn:Hv.
  2: { split_and!; [done..|]. exists d. split; [done|]. by intros [? _]. }
  destruct (to_yaml run) as [body|] eqn:Hy.
  2: { split_and!; [done..|]. exists d. split; [done|]. by intros (_ & [? ?] & _). }
  destruct (default false (head (write_faults d))) eqn:Hf; simpl.
  - split_and!; [done..|]. exists d. split; [done|]. intros (_ & _ & Hh). destruct (head (write_faults d)) as [[]|]; done.
  - split_and!; [done..|]. intros d' [= <-]. split.
    + split_and!; [done|by eexists|]. by intros Hh; rewrite Hh in Hf.
    + by eexists _, body.
Qed.

Lemma rollback_insert run s :
  store_ok s → get (Run.id run) s = None → is_live run = true → find_live_by_task (Run.task_id run) s = None →
  remove (Run.id run) (drop_live_by_task (Run.task_id run) (insert run s)) = s.
Proof.
  intros Hok Hid Hl Hf. unfold remove, drop_live_by_task, insert, get in *. rewrite Hl. destruct s as [rs live]; simpl in *.
  f_equal; [by rewrite delete_insert_eq, delete_id|]. rewrite delete_insert_eq, delete_id; [done|].
  destruct (live !! Run.task_id run) as [id|] eqn:Hlive; [|done].
  destruct (sk_sound _ Hok _ _ Hlive) as (r & Hr & Hlr & Ht). unfold find_live_by_task in Hf. simpl in Hf, Hr.
  rewrite Hlive in Hf. simpl in Hf. rewrite Hr in Hf. simpl in Hf. by rewrite Hlr in Hf.
Qed.

Lemma ensure_section_cases now new_id strict task agent cfg m :
  ensure_run_section now new_id strict task agent cfg m =
    if creation_blocked agent m then (Err (RunError.PermissionDenied "run-creation-blocked-for-terminating-agent"), m)
    else match find_live_by_task task (store m) with
    | Some ex =>
        if strict && negb (String.eqb (Run.controller_agent ex) agent)
        then (Err (RunError.PermissionDenied "task-owned-by-different-agent"), m)
        else (Ok (Run.id ex, RunEvent.run_reused_event (Run.id ex) task agent (task_run_status_label (Run.status ex)),
                  None), m)
    | None =>
        if MAX_RUNS_PER_STORE <=? runs_len (store m)
        then (Err (RunError.PermissionDenied "run-store-cap-reached"), m)
        else (Ok (new_id, RunEvent.run_created_event new_id task agent, Some (Run.new new_id task agent cfg now)),
              set_store (insert (Run.new new_id task agent cfg now)) m)
    end.
Proof.
  unfold ensure_run_section. section. destruct (creation_blocked agent m); [done|].
  destruct (find_live_by_task task (store m)); [by destruct (strict && _)|by destruct (MAX_RUNS_PER_STORE <=? _)].
Qed.

(** What lets a creation through. *)
Definition creation_allowed (new_id task agent : string) (cfg : RunConfig.t) (strict : bool) (now : Z) (m : RunManager)
    : Prop :=
  ensure_run_checks (bool_decide (is_Some (persister m))) task agent cfg = Ok tt ∧
  creation_blocked agent m = false ∧
  match find_live_by_task task (store m) with
  | Some r => strict = true → Run.controller_agent r = agent
  | None =>
      runs_len (store m) < MAX_RUNS_PER_STORE ∧
      ∀ d, persister m = Some d →
        writable (Run.new new_id task agent cfg now) d
  end.

(** C26: creating a run.  Called alone in a state callers can reach, with a
    fresh id, [ensure_run] succeeds exactly when the arguments pass the
    checks, the agent is not blocked, and either the task has a live run (of
    the caller, in strict mode) or there is room and the file can be written.
    It then answers the task's live run: the one there was, with the store
    unchanged, or the new one, the only change and already on disk.  Refused,
    it leaves the store, the events and the files as they were. *)
Theorem ensure_run_exact now new_id task agent cfg strict m r w' :
  reachable m → get new_id (store m) = None →
  ensure_run_inner now new_id task agent cfg strict (mkWorld m []) = (r, w') →
  (is_ok r = true ↔ creation_allowed new_id task agent cfg strict now m) ∧
  match r with
  | Ok id =>
      ∃ run, find_live_by_task task (store (manager w')) = Some run ∧ Run.id run = id ∧
        (strict = true → Run.controller_agent run = agent) ∧
        (store (manager w') = store m ∨
         find_live_by_task task (store m) = None ∧ run = Run.new new_id task agent cfg now ∧
         store (manager w') = insert run (store m) ∧
         ∀ d, persister m = Some d → ∃ d' body, persister (manager w') = Some d' ∧ to_yaml run = Some body ∧
           files d' = <[target_path task := RunFile.Regular (len body) (Some body)]> (files d))
  | Err _ =>
      store (manager w') = store m ∧ event_bus (manager w') = event_bus m ∧
      files <$> persister (manager w') = files <$> persister m
  end.
Proof.
  intros Hreach Hfresh. pose proof (reachable_ok m Hreach) as Hok. unfold ensure_run_inner, creation_allowed.
  rewrite bind_run, atomically_alone. cbn [get_state fst snd]. rewrite bind_run. unfold lift.
  destruct (ensure_run_checks _ task agent cfg) as [[]|e] eqn:Hchecks; [|intros [= <- <-]; naive_solver].
  rewrite bind_run, atomically_alone, ensure_section_cases.
  destruct (creation_blocked agent m) eqn:Hblocked; [intros [= <- <-]; naive_solver|].
  destruct (find_live_by_task task (store m)) as [ex|] eqn:Hlive.
  - destruct (strict && _) eqn:Hs; cbn [fst snd].
    + intros [= <- <-]. apply andb_true_iff in Hs as [-> Hne]. r2p. naive_solver.
    + intros [= <- <-]. assert (strict = true → Run.controller_agent ex = agent) as Hown.
      { intros ->. simpl in Hs. by r2p. }
      split; [done|]. exists ex. by eauto.
  - destruct (MAX_RUNS_PER_STORE <=? runs_len (store m)) eqn:Hroom; r2p; cbn [fst snd].
    { intros [= <- <-]. split; [|done]. split; [done|]. intros (_ & _ & ? & _). lia. }
    set (run := Run.new new_id task agent cfg now). set (m1 := set_store (insert run) m).
    assert (find_live_by_task task (insert run (store m)) = Some run) as Hfind.
    { unfold find_live_by_task, insert. simpl. rewrite lookup_insert_eq. simpl. by rewrite lookup_insert_eq. }
    rewrite !bind_run, attempt_alone. pose proof (persist_section_spec run m1) as Hp.
    destruct (persist_section run m1) as [[[]|e] m2] eqn:Hpersist; cbn [fst snd].
    + destruct Hp as (Hst & Hev & Hfile). cbv [mret M_ret]. cbn beta iota. rewrite bind_run, atomically_alone. unfold emit, modify. cbn [fst snd].
      intros [= <- <-]. simpl. rewrite Hst. split.
      * split; [intros _|done]. split_and!; [done..|lia|]. intros d Hd. by apply Hfile.
      * exists run. split_and!; [exact Hfind|done|done|]. right. split_and!; [done..|]. intros d Hd. by apply Hfile.
    + destruct Hp as (Hst & Hev & Hfiles & d & Hd & Hwhy). rewrite bind_run, atomically_alone. unfold rollback_section, modify, throw, lift.
      cbn [fst snd]. intros [= <- <-]. simpl. rewrite Hst. split_and!; [|by apply rollback_insert|done|done].
      split; [done|]. intros (_ & _ & _ & Hw). exfalso. by apply Hwhy, Hw.
Qed.

(** ** The budget *)

(** What the gates demand of a budget. *)
Record within_budget (tracker : option (string → option f64)) (id : string) (b : BudgetState.t) (tokens : Z) (cost : f64)
    : Prop := {
  wb_rounds l : BudgetState.rounds_limit b = Some l → BudgetState.rounds_used b < l;
  wb_tokens l : BudgetState.token_limit b = Some l →
    Z.min U64_MAX (BudgetState.token_used b + BudgetState.token_reserved b + tokens) ≤ l;
  wb_finite : f64_is_finite (f64_add (f64_add (effective_cost tracker id b) (BudgetState.cost_reserved b)) cost) = true;
  wb_cost l : BudgetState.cost_limit b = Some l →
    f64_lt l (f64_add (f64_add (effective_cost tracker id b) (BudgetState.cost_reserved b)) cost) = false
}.

Lemma gate_Ok {A} (P : A → Prop) (test : A → bool) (o : option A) e :
  (∀ a, P a ↔ test a = false) →
  guard_err (match o with Some a => test a | None => false end) (e : string) = Ok tt ↔ ∀ a, o = Some a → P a.
Proof.
  intros HP. rewrite guard_err_Ok. destruct o as [a|]; split.
  - intros Ht ? [= <-]. by apply HP.
  - intros Ha. by apply HP, Ha.
  - by intros _ ? [=].
  - done.
Qed.

Lemma budget_gates_Ok tracker id b tokens cost :
  budget_ok b → 0 ≤ tokens → budget_gates tracker id b tokens cost = Ok tt ↔ within_budget tracker id b tokens cost.
Proof.
  intros [] Ht. unfold budget_gates. rewrite !bind_unit_Ok.
  rewrite (gate_Ok (λ l, BudgetState.rounds_used b < l)); [|intros l; rewrite Z.leb_gt; lia].
  rewrite (gate_Ok (λ l, Z.min U64_MAX (BudgetState.token_used b + BudgetState.token_reserved b + tokens) ≤ l));
    [|intros l; rewrite Z.ltb_ge; unfold sat_add_u64; lia].
  rewrite guard_err_Ok, negb_false_iff.
  rewrite (gate_Ok (λ l, f64_lt l (f64_add (f64_add (effective_cost tracker id b) (BudgetState.cost_reserved b)) cost) = false));
    [|done].
  split; [intros (? & ? & ? & ?)|intros []]; by repeat split.
Qed.

Definition cost_typed (cost : f64) : Prop := f64_is_finite cost = true ∧ f64_lt cost f64_zero = false.

(** Reservations.  In a state callers can reach, [check] allows exactly
    the requests for a live run with a valid, non-negative cost whose rounds
    are not used up and whose used, reserved and asked amounts stay within the
    limits.  Allowing one reserves just what was asked, on that run alone;
    denying one changes nothing. *)
Theorem check_exact tracker id tokens cost m d m' :
  reachable m → 0 ≤ tokens ≤ U64_MAX → check tracker id tokens cost m = (d, m') →
  (d = BudgetDecision.Allow ↔
     validate_run_id id = Ok tt ∧ cost_typed cost ∧
     ∃ r, get id (store m) = Some r ∧ is_live r = true ∧ within_budget tracker id (Run.budget r) tokens cost) ∧
  (d = BudgetDecision.Allow → ∃ r, get id (store m) = Some r ∧
     let b := Run.budget r in let b' := BudgetState.reserve tokens cost b in
     store m' = mkStore (<[id := Run.set_budget (λ _, b') r]> (runs (store m))) (live_by_task (store m)) ∧
     (BudgetState.token_reserved b + tokens ≤ U64_MAX →
        BudgetState.token_reserved b' = BudgetState.token_reserved b + tokens)) ∧
  (d ≠ BudgetDecision.Allow → m' = m).
Proof.
  intros Hreach Ht. pose proof (reachable_ok m Hreach) as Hok. unfold check, budget_check, cost_typed. section.
  destruct (validate_run_id id) as [[]|e]; [|intros [= <- <-]; naive_solver]. cbn [is_ok negb].
  destruct (f64_is_finite cost) eqn:Hfin; [|intros [= <- <-]; naive_solver]. cbn [negb orb].
  destruct (f64_lt cost f64_zero) eqn:Hneg; [intros [= <- <-]; naive_solver|].
  destruct (get id (store m)) as [r|] eqn:Hr; [|intros [= <- <-]; naive_solver].
  destruct (is_live r) eqn:Hl; cbn [negb]; cbn beta iota.
  2: { intros [= <- <-]. split_and!; [|done..]. split; [done|]. intros (_ & _ & r' & [= <-] & ? & _). congruence. }
  pose proof (budget_gates_Ok tracker id (Run.budget r) tokens cost (rk_budget r (sk_run _ Hok id r Hr)) (proj1 Ht)) as Hg.
  destruct (budget_gates tracker id (Run.budget r) tokens cost) as [[]|e]; intros [= <- <-].
  - split_and!; [|intros _; exists r|done].
    + split; [|done]. intros _. split_and!; [done..|]. exists r. split_and!; [done..|by apply Hg].
    + split_and!; [done| |simpl; unfold sat_add_u64; lia]. unfold update, get in *. simpl. f_equal.
      apply map_eq. intros i. destruct (decide (i = id)) as [->|Hne];
        [by rewrite lookup_insert_eq, lookup_alter_eq, Hr|by rewrite lookup_insert_ne, lookup_alter_ne].
  - split_and!; [|done..]. split; [done|]. intros (_ & _ & r' & [= <-] & _ & Hw). apply Hg in Hw. done.
Qed.
End alone.

(** ** Witnesses *)

Section witnesses.
#[local] Existing Instances no_yaml run_order_model sample_dir_order.

Lemma ensure_run_exact_witness :
  creation_allowed "r3" "task-3" "lead" sample_config true 9 sample_manager ∧
  store (manager (ensure_run_strict 9 "r3" "task-3" "lead" sample_config (mkWorld sample_manager [])).2)
    = insert (Run.new "r3" "task-3" "lead" sample_config 9) (store sample_manager).
Proof.
  destruct (ensure_run_strict 9 "r3" "task-3" "lead" sample_config (mkWorld sample_manager [])) as [r w'] eqn:Hrun.
  assert (is_ok (ensure_run_strict 9 "r3" "task-3" "lead" sample_config (mkWorld sample_manager [])).1 = true) as Hok
    by by vm_compute.
  rewrite Hrun in Hok. cbn [fst] in Hok.
  assert (get "r3" (store sample_manager) = None) as Hfresh by by vm_compute.
  destruct (ensure_run_exact 9 "r3" "task-3" "lead" sample_config true sample_manager r w' sample_runs_reachable Hfresh Hrun) as [Hiff Hr].
  split; [by apply Hiff|]. destruct r as [id|e]; [|discriminate Hok]. destruct Hr as (run & Hlive & _ & _ & [Heq|(_ & -> & Heq & _)]).
  - rewrite Heq in Hlive. assert (find_live_by_task "task-3" (store sample_manager) = None) as Hn by by vm_compute.
    rewrite Hn in Hlive. discriminate Hlive.
  - exact Heq.
Defined.

Lemma check_exact_witness :
  (check None "r1" 70 f64_zero sample_manager).1 = BudgetDecision.Allow ∧
  (check None "r1" 71 f64_zero sample_manager).2 = sample_manager.
Proof.
  split; [by vm_compute|]. assert (0 ≤ 71 ≤ U64_MAX) as Ht by (unfold U64_MAX; lia).
  destruct (check None "r1" 71 f64_zero sample_manager) as [d m'] eqn:Hc.
  destruct (check_exact None "r1" 71 f64_zero sample_manager d m' sample_runs_reachable Ht Hc) as (_ & _ & Hdenied).
  assert ((check None "r1" 71 f64_zero sample_manager).1 = BudgetDecision.Deny "budget-exceeded-tokens") as Hd by by vm_compute.
  rewrite Hc in Hd. cbn [fst snd] in Hd |- *. apply Hdenied. rewrite Hd. done.
Defined.
End witnesses.
