(* ===== verification/RunCascade.v ===== *)
(** * The descendant cascade

    [cascade_descendants_for_run] of [crates/run-manager/src/run.rs] among other
    callers' sections: what its scans leave behind.  It holds a creation block on
    every descendant it found ([shielded]) as long as the others release only
    blocks they took ([guarded]), and when its scans end no run of a descendant
    is live ([scans_done]).  [RunSealed] has the theorem. *)
From S2P Require Import Prelude RustStr RunData RunStore RunManager RunOps RunFacts RunKeeps RunProps RunTree RunSpec.
Open Scope string_scope.
Open Scope list_scope.
Open Scope Z_scope.

(** ** The tree stays *)

Definition is_services (a : action) : bool := match a with Services _ _ => true | _ => false end.

(** Nobody rewires the manager while the operation runs. *)
Definition calm (w : World) : Prop := Forall (Forall (λ a, is_services a = false)) (others w).

Definition same_tree (m m' : RunManager) : Prop := agent_tree m' = agent_tree m.

(** What no section changes but the blocks' own. *)
Definition same_wires (m m' : RunManager) : Prop :=
  agent_tree m' = agent_tree m ∧ scoped_block_counts m' = scoped_block_counts m.

#[export] Instance same_tree_preorder : PreOrder same_tree.
Proof. split; [done|]. intros m1 m2 m3 H12 H23. unfold same_tree in *. congruence. Qed.

#[export] Instance same_wires_preorder : PreOrder same_wires.
Proof. split; [done|]. intros m1 m2 m3 [] []. split; congruence. Qed.

Lemma keeps_wires_modify f : (∀ m, same_wires m (f m)) → keeps same_wires (modify f : Sec unit).
Proof. intros Hf m. apply Hf. Qed.

(** ** The blocks stand *)

(** How many guards block [agent]. *)
Definition blocks (m : RunManager) (agent : string) : Z := default 0 (scoped_block_counts m !! agent).

Definition mine (held : list string) (agent : string) : Z := if bool_decide (agent ∈ held) then 1 else 0.

Definition occurrences (agent : string) (held : list string) : Z := Z.of_nat (length (List.filter (String.eqb agent) held)).

(** What an action does to the number of guards. *)
Definition guard_delta (agent : string) (a : action) : Z :=
  match a with
  | AddAgents agents held => mine agents agent * (1 - mine held agent)
  | DropAgents held => - occurrences agent held
  | _ => 0
  end.

Definition balance (agent : string) (acts : list action) : Z := foldr (λ a n, guard_delta agent a + n) 0 acts.

(** A guard is dropped by whoever made it, once: of [c] guards, with those made
    meanwhile, no more are ever dropped than there are. *)
Definition guarded (c : string → Z) (acts : list action) : Prop :=
  ∀ agent pre post, acts = pre ++ post → 0 ≤ c agent + balance agent pre.

Lemma guarded_none c acts : Forall (λ a, match a with AddAgents _ _ | DropAgents _ => False | _ => True end) acts → (∀ agent, 0 ≤ c agent) → guarded c acts.
Proof.
  intros Hall Hc agent pre post ->. apply Forall_app in Hall as [Hall _]. specialize (Hc agent).
  assert (balance agent pre = 0) as ->; [|lia]. induction Hall as [|a pre Ha _ IH]; [done|]. simpl. rewrite IH. by destruct a.
Qed.

(** The operation holds the guards of [held]; the others' leave these alone. *)
Definition shielded (held : list string) (w : World) : Prop :=
  ∃ oth, (∀ agent, blocks (manager w) agent = mine held agent + oth agent) ∧ guarded oth (concat (others w)).

Definition calm_tree (w w' : World) : Prop :=
  (calm w → calm w' ∧ same_tree (manager w) (manager w')) ∧ ∀ held, shielded held w → shielded held w'.

#[export] Instance calm_tree_preorder : PreOrder calm_tree.
Proof.
  split; [split; [done|auto]|]. intros w1 w2 w3 [H12 S12] [H23 S23]. split; [|auto].
  intros Hc. destruct (H12 Hc) as [Hc2 Ht]. destruct (H23 Hc2) as [Hc3 Ht']. split; [done|by etrans].
Qed.

Lemma guarded_nonneg c acts agent : guarded c acts → 0 ≤ c agent.
Proof. intros Hg. specialize (Hg agent [] acts eq_refl). simpl in Hg. lia. Qed.

Lemma guarded_cons c a acts : guarded c (a :: acts) → guarded (λ agent, c agent + guard_delta agent a) acts.
Proof. intros Hg agent pre post ->. specialize (Hg agent (a :: pre) post eq_refl). simpl in Hg. lia. Qed.

Lemma mine_nonneg held agent : 0 ≤ mine held agent ≤ 1.
Proof. unfold mine. case_bool_decide; lia. Qed.

Lemma add_fresh (agents held : list string) : ∃ added,
  foldl (λ acc a, if bool_decide (a ∈ acc) then acc else acc ++ [a]) held agents = held ++ added ∧
  NoDup added ∧ (∀ a, a ∈ added ↔ a ∈ agents ∧ a ∉ held).
Proof.
  induction agents as [|x agents IH] using rev_ind.
  { exists []. rewrite app_nil_r. split_and!; [done|constructor|]. intros a. rewrite !elem_of_nil. naive_solver. }
  destruct IH as (added & Heq & Hnd & Hmem). rewrite foldl_app. simpl. rewrite Heq. case_bool_decide as Hx.
  - exists added. split_and!; [done|done|]. intros a. rewrite Hmem, elem_of_app, list_elem_of_singleton.
    rewrite elem_of_app, Hmem in Hx. naive_solver.
  - exists (added ++ [x]). rewrite elem_of_app in Hx. split_and!; [by rewrite app_assoc| |].
    + apply NoDup_app. split_and!; [done| |apply NoDup_singleton]. intros a Ha ->%list_elem_of_singleton. tauto.
    + intros a. rewrite !elem_of_app, Hmem, !list_elem_of_singleton. naive_solver.
Qed.

Lemma bump_blocks (added : list string) (sc : gmap string Z) agent :
  NoDup added → default 0 (foldl (λ sc a, <[a := default 0 (sc !! a) + 1]> sc) sc added !! agent)
    = default 0 (sc !! agent) + mine added agent.
Proof.
  revert sc. induction added as [|x added IH]; intros sc Hnd; simpl.
  { unfold mine. rewrite bool_decide_eq_false_2; [lia|]. apply not_elem_of_nil. }
  apply NoDup_cons in Hnd as [Hx Hnd]. rewrite IH by done. unfold mine. destruct (decide (x = agent)) as [->|Hne].
  - rewrite lookup_insert_eq, bool_decide_eq_false_2, bool_decide_eq_true_2 by (done || left). simpl. lia.
  - rewrite lookup_insert_ne by done. f_equal. assert (agent ∈ added ↔ agent ∈ x :: added) as Hiff by (rewrite elem_of_cons; naive_solver).
    by rewrite (bool_decide_ext _ _ Hiff).
Qed.

Lemma add_agents_spec agents held m : ∃ held', add_agents agents held m = (Ok held', (add_agents agents held m).2)
  ∧ (∀ a, a ∈ held' ↔ a ∈ held ∨ a ∈ agents)
  ∧ ∀ agent, blocks (add_agents agents held m).2 agent = blocks m agent + guard_delta agent (AddAgents agents held).
Proof.
  destruct (add_fresh agents held) as (added & Heq & Hnd & Hmem). unfold add_agents. rewrite Heq, drop_app_length.
  exists (held ++ added). split; [done|]. split.
  - intros a. rewrite elem_of_app, Hmem. destruct (decide (a ∈ held)); naive_solver.
  - intros agent. unfold blocks. simpl. rewrite (bump_blocks _ _ _ Hnd). f_equal. unfold mine.
    repeat case_bool_decide; rewrite Hmem in *; naive_solver lia.
Qed.

Lemma occurrences_cons agent a held : occurrences agent (a :: held) = (if bool_decide (a = agent) then 1 else 0) + occurrences agent held.
Proof.
  unfold occurrences. simpl. case_bool_decide as Ha; [subst; rewrite String.eqb_refl; simpl; lia|].
  rewrite (proj2 (String.eqb_neq agent a)) by done. lia.
Qed.

Lemma drop_blocks held (sc : gmap string Z) agent :
  occurrences agent held ≤ default 0 (sc !! agent) →
  default 0 (foldl (flip release) sc held !! agent) = default 0 (sc !! agent) - occurrences agent held.
Proof.
  revert sc. induction held as [|a held IH]; intros sc Hle; simpl; [unfold occurrences; simpl; lia|].
  rewrite occurrences_cons in *. assert (0 ≤ occurrences agent held) by (unfold occurrences; lia).
  assert (default 0 (release a sc !! agent) = default 0 (sc !! agent) - (if bool_decide (a = agent) then 1 else 0)) as Hone.
  { unfold release. case_bool_decide as Ha.
    - subst a. destruct (sc !! agent) as [n|] eqn:Hn; simpl in *; [|lia]. destruct (n <=? 1) eqn:Hle1.
      + rewrite lookup_delete_eq. simpl. lia.
      + rewrite lookup_insert_eq. simpl. lia.
    - destruct (sc !! a) as [n|]; [|lia]. destruct (n <=? 1); [rewrite lookup_delete_ne by done|rewrite lookup_insert_ne by done]; lia. }
  rewrite IH; lia.
Qed.

(** The tree through one section. *)
Ltac tree_step :=
  lazymatch goal with
  | |- keeps _ (mbind _ _) => apply (keeps_bind _); [|intros ?]
  | |- keeps _ (mret _) => apply (keeps_ret _)
  | |- keeps _ (lift _) => apply (keeps_lift _)
  | |- keeps _ (throw _) => apply (keeps_lift _ (Err _))
  | |- keeps _ (fail_if _ _) => apply (keeps_fail_if _)
  | |- keeps _ get_state => apply (keeps_get_state _)
  | |- keeps same_wires (modify _) => apply keeps_wires_modify; intros ?; by split
  | |- keeps same_wires (write_run _ _) => apply keeps_wires_modify; intros ?; by split
  | |- keeps same_wires (settle_run _ _ _) => apply keeps_wires_modify; intros ?; by split
  | |- keeps same_wires (run_of _) => unfold run_of
  | |- keeps _ (if ?b then _ else _) => destruct b
  | |- keeps _ (match ?x with _ => _ end) => destruct x
  | |- keeps _ (let '(_, _) := ?x in _) => destruct x
  end.
Ltac tree := repeat tree_step.

Section tree.
Context `{RunYaml, DirOrder, RunOrder}.

Lemma tree_persist run : keeps same_wires (persist_section run).
Proof. intros m. unfold persist_section. destruct (persister m); [|done]. by destruct (persist run s). Qed.

Lemma tree_check tracker id tokens cost m : same_wires m (budget_check tracker id tokens cost m).2.
Proof.
  unfold budget_check. section. repeat (case_match; simplify_eq/=; try done).
Qed.

Lemma keeps_apply {A} (sec : Sec A) m : keeps same_wires sec → same_wires m (sec m).2.
Proof. intros Hk. apply Hk. Qed.

(** The actions on the blocks, and the others. *)
Definition is_guard (a : action) : bool := match a with AddAgents _ _ | DropAgents _ => true | _ => false end.

Lemma wires_perform a m : is_services a = false → is_guard a = false → same_wires m (perform a m).
Proof.
  intros Hs Hg. unfold perform. destruct (possible a m); [|reflexivity]. destruct a; cbn [act]; try discriminate Hs; try discriminate Hg.
  all: try (apply tree_check).
  all: try (apply (@keeps_apply)).
  - unfold ensure_run_section. tree.
  - unfold round_section, settle_round. tree.
  - unfold complete_run_section. tree.
  - unfold fail_run_section. tree.
  - unfold force_cancel_section. tree.
  - unfold cancel_descendant_section. tree.
  - unfold pause_suspended_section. tree.
  - unfold arm_pause_section. tree.
  - unfold cancel_suspended_section. tree.
  - unfold cancel_paused_section. tree.
  - unfold arm_cancel_section. tree.
  - unfold suspend_run_section. tree.
  - unfold resume_run_section, invalid_state. tree.
  - unfold resume_if_suspended_section. tree.
  - unfold interrupt_section. tree.
  - unfold commit_section. tree.
  - unfold block_agent_section. tree.
  - unfold persist_now. tree. apply tree_persist.
  - unfold emit. tree.
  - unfold close_section. tree.
Qed.

Lemma tree_perform a m : is_services a = false → same_tree m (perform a m).
Proof.
  intros Hs. destruct (is_guard a) eqn:Hg; [|by apply wires_perform]. by destruct a.
Qed.

Lemma blocks_perform a m agent :
  0 ≤ blocks m agent + guard_delta agent a → blocks (perform a m) agent = blocks m agent + guard_delta agent a.
Proof.
  intros Hle. destruct (is_guard a) eqn:Hg.
  - destruct a; try discriminate Hg; unfold perform; cbn [possible act].
    + by destruct (add_agents_spec agents held m) as (held' & _ & _ & ->).
    + unfold drop_agents, blocks in *. simpl in *. rewrite drop_blocks; lia.
  - assert (scoped_block_counts (perform a m) = scoped_block_counts m) as Hsame.
    { destruct (is_services a) eqn:Hs; [by destruct a|by apply wires_perform]. }
    unfold blocks. rewrite Hsame. destruct a; simpl in *; try discriminate Hg; lia.
Qed.

Lemma tree_perform_all acts m :
  Forall (λ a, is_services a = false) acts → same_tree m (perform_all acts m).
Proof.
  unfold perform_all. intros Hall. revert m. induction Hall as [|a acts Ha _ IH]; intros m; simpl; [done|].
  trans (perform a m); [by apply tree_perform|apply IH].
Qed.

Lemma blocks_perform_all acts rest : ∀ m held oth,
  (∀ agent, blocks m agent = mine held agent + oth agent) → guarded oth (acts ++ rest) →
  ∃ oth', (∀ agent, blocks (perform_all acts m) agent = mine held agent + oth' agent) ∧ guarded oth' rest.
Proof.
  unfold perform_all. induction acts as [|a acts IH]; intros m held oth Hb Hg; simpl; [by exists oth|].
  apply (IH (perform a m) held (λ agent, oth agent + guard_delta agent a)); [|by apply guarded_cons].
  intros agent. pose proof (guarded_nonneg _ _ agent (guarded_cons _ _ _ Hg)) as Hnn. simpl in Hnn.
  rewrite blocks_perform; rewrite Hb; pose proof (mine_nonneg held agent); lia.
Qed.

(** What an operation holds through the others' turn. *)
Lemma shielded_turn held w :
  shielded held w →
  ∃ oth, (∀ agent, blocks (perform_all (default [] (head (others w))) (manager w)) agent = mine held agent + oth agent)
    ∧ guarded oth (concat (tl (others w))).
Proof.
  intros (oth & Hb & Hg). destruct w as [m [|acts os]]; simpl in *; [by exists oth|]. by eapply blocks_perform_all.
Qed.

Lemma calm_section {A} (sec : Sec A) w :
  (∀ m, same_tree m (sec m).2) → calm w → calm (atomically sec w).2 ∧ same_tree (manager w) (manager (atomically sec w).2).
Proof.
  intros Hk Hc. unfold atomically. set (m := perform_all _ _). destruct (sec m) as [r m'] eqn:Hm. simpl.
  assert (same_tree m m') as Hs by (pose proof (Hk m) as Hs; by rewrite Hm in Hs).
  unfold calm in *. destruct w as [m0 [|acts os]]; simpl in *; [done|]. apply Forall_cons in Hc as [Ha Ho].
  split; [done|]. trans m; [by apply tree_perform_all|done].
Qed.

Lemma atomically_tree {A} (sec : Sec A) : keeps same_wires sec → keeps calm_tree (atomically sec).
Proof.
  intros Hk w. split; [apply calm_section; intros m; apply (Hk m)|].
  intros held (oth & Hb & Hg)%shielded_turn. exists oth. unfold atomically. set (m := perform_all _ _) in *.
  pose proof (Hk m) as [_ Hsc]. destruct (sec m) as [r m']. cbn [snd] in Hsc. split; [|exact Hg]. intros agent. cbn [manager snd].
  unfold blocks. rewrite Hsc. apply Hb.
Qed.

Lemma attempt_tree {A} (op : RM A) : keeps calm_tree op → keeps calm_tree (attempt op).
Proof. intros Hop w. unfold attempt. specialize (Hop w). by destruct (op w). Qed.
End tree.

(** ... and through an operation. *)
Ltac calm_step :=
  lazymatch goal with
  | |- keeps _ (mbind _ _) => apply (keeps_bind _); [|intros ?]
  | |- keeps _ (mret _) => apply (keeps_ret _)
  | |- keeps _ (lift _) => apply (keeps_lift _)
  | |- keeps _ (throw _) => apply (keeps_lift _ (Err _))
  | |- keeps calm_tree (attempt _) => apply attempt_tree
  | |- keeps calm_tree (atomically _) => apply atomically_tree
  | |- keeps _ (if ?b then _ else _) => destruct b
  | |- keeps _ (match ?x with _ => _ end) => destruct x
  | |- keeps _ (let '(_, _) := ?x in _) => destruct x
  end.
Ltac calm := repeat (calm_step || tree_step || (solve [eauto with calm])).
Create HintDb calm.
#[export] Hint Resolve calm_tree_preorder same_wires_preorder tree_persist : calm.

Section calm_ops.
Context `{RunYaml, DirOrder, RunOrder}.

Lemma calm_descendants id : keeps calm_tree (descendant_agents_for_run id).
Proof. unfold descendant_agents_for_run. calm. Qed.

Lemma calm_live_ids agents : keeps calm_tree (live_run_ids_for_agents agents).
Proof. unfold live_run_ids_for_agents. calm. Qed.

(** Taking the guards of [agents] too. *)
Lemma add_agents_run agents held w :
  ∃ held' w', atomically (add_agents agents held) w = (Ok held', w') ∧ (∀ a, a ∈ held' ↔ a ∈ held ∨ a ∈ agents)
    ∧ (shielded held w → shielded held' w').
Proof.
  unfold atomically. set (m := perform_all _ _). destruct (add_agents_spec agents held m) as (held' & Hrun & Hmem & Hb).
  rewrite Hrun. exists held', (mkWorld (add_agents agents held m).2 (tl (others w))). split_and!; [done|done|].
  intros (oth & Hbl & Hg)%shielded_turn. exists oth. split; [|done]. intros agent. cbn [manager]. rewrite Hb. unfold m. rewrite Hbl.
  simpl. unfold mine. repeat case_bool_decide; rewrite Hmem in *; naive_solver lia.
Qed.

Lemma calm_cancel_descendant n now id reason : keeps calm_tree (cancel_descendant_loop n now id reason).
Proof.
  induction n as [|n IH]; simpl; calm; unfold close_descendant_session, close_section, cancel_descendant_section,
    persist_and_emit, persist_snapshot_best_effort, persist_best_effort, emit; calm.
Qed.

Lemma calm_cancel_descendants now ids reason : keeps calm_tree (cancel_descendants now ids reason).
Proof. pose proof calm_cancel_descendant. induction ids; simpl; unfold cancel_descendant_run; calm. Qed.
End calm_ops.

(** ** The runs a scan finds *)

Lemma elem_live_ids_of `{RunOrderLaws} s agent rid :
  store_ok s → rid ∈ live_run_ids_for_agent_in_store s agent ↔
    ∃ r, runs s !! rid = Some r ∧ is_live r = true ∧ Run.controller_agent r = agent.
Proof.
  intros Hok. unfold live_run_ids_for_agent_in_store. rewrite merge_sort_Permutation, list_elem_of_fmap. split.
  - intros (r & -> & Hin%list_elem_of_In). apply filter_In in Hin as [Hin Hb]. apply list_elem_of_In, elem_iter_runs in Hin as [id Hr].
    b2p. exists r. by rewrite (sk_key s Hok id r Hr).
  - intros (r & Hr & Hl & <-). exists r. split; [by rewrite (sk_key s Hok rid r Hr)|].
    apply list_elem_of_In, filter_In. split; [apply list_elem_of_In, elem_iter_runs; by exists rid|].
    by rewrite String.eqb_refl, Hl.
Qed.

Lemma elem_live_ids `{RunOrderLaws} s agents rid :
  store_ok s → rid ∈ live_run_ids_for_agents_in_store s agents ↔
    ∃ r, runs s !! rid = Some r ∧ is_live r = true ∧ Run.controller_agent r ∈ agents.
Proof.
  intros Hok. unfold live_run_ids_for_agents_in_store. rewrite list_elem_of_bind. split.
  - intros (agent & (r & Hr & Hl & <-)%elem_live_ids_of & Ha); [|done]. by exists r.
  - intros (r & Hr & Hl & Ha). exists (Run.controller_agent r). split; [|done]. apply elem_live_ids_of; [done|]. by exists r.
Qed.

(** ** What a successful cascade has done *)

Section interference.
Context `{RunYaml, DirOrder} `{RunOrderLaws}.

(** The state [w], some steps after [w0]. *)
Record after (w0 w : World) : Prop := {
  af_ok : store_ok (store (manager w));
  af_advances : advances (store (manager w0)) (store (manager w));
  af_calm : calm w;
  af_tree : agent_tree (manager w) = agent_tree (manager w0)
}.

Lemma after_step {A} (op : RM A) w0 w r w' :
  keeps wgood op → (calm w → calm (op w).2 ∧ same_tree (manager w) (manager (op w).2)) → op w = (r, w') → after w0 w → after w0 w'.
Proof.
  intros Hg Ht Hrun []. specialize (Hg w). rewrite Hrun in Hg, Ht. simpl in Hg, Ht.
  destruct (Hg af_ok0) as [Hok Ha]. destruct (Ht af_calm0) as [Hc Heq]. split; [done|by etrans|done|].
  unfold same_tree in Heq. congruence.
Qed.

(** A section that reads. *)
Lemma after_read {A} (sec : Sec A) w0 w r w' :
  (∀ m, (sec m).2 = m) → atomically sec w = (r, w') → after w0 w → after w0 w' ∧ sec (manager w') = (r, manager w').
Proof.
  intros Hread Hrun Hw. split.
  - eapply (after_step (atomically sec)); [| |exact Hrun|done].
    + apply atomically_keeps, sec_same. intros m. by rewrite Hread.
    + apply calm_section. intros m. unfold same_tree. by rewrite Hread.
  - unfold atomically in Hrun. set (m := perform_all _ _) in Hrun. pose proof (Hread m) as Hm.
    destruct (sec m) as [r1 m'] eqn:Hsec. simpl in Hm. subst m'. by injection Hrun as <- <-.
Qed.

Lemma attempt_run {A} (op : RM A) w r w' : attempt op w = (Ok r, w') → op w = (r, w').
Proof. unfold attempt. destruct (op w). by intros [= -> ->]. Qed.

Lemma descendants_read id w0 w agents w' tree root :
  descendant_agents_for_run id w = (Ok agents, w') → after w0 w →
  agent_tree (manager w0) = Some tree → get id (store (manager w0)) = Some root →
  post_order_descendant_agents tree (Run.controller_agent root) = Ok agents.
Proof.
  intros Hrun Hw Htree Hroot. unfold descendant_agents_for_run in Hrun.
  apply M_bind_Ok in Hrun as (m1 & w1 & Hr1 & Hrun). eapply after_read in Hr1 as [Hw1 [= <-]]; [|done|done].
  rewrite (af_tree _ _ Hw1), Htree in Hrun.
  apply M_bind_Ok in Hrun as (r & w2 & Hr2 & Hrun). eapply after_read in Hr2 as [Hw2 Hr2]; [| |done].
  2: { intros m. rewrite run_of_cases. by destruct (get id (store m)). }
  apply M_bind_Ok in Hrun as (m3 & w3 & Hr3 & Hrun). eapply after_read in Hr3 as [Hw3 [= <-]]; [|done|done].
  rewrite (af_tree _ _ Hw3), Htree in Hrun. apply lift_Ok in Hrun as [Hpost _]. rewrite <- Hpost. f_equal.
  rewrite run_of_cases in Hr2. destruct (get id (store (manager w2))) as [r2|] eqn:Hg; [|done]. injection Hr2 as <-.
  destruct (af_advances _ _ Hw2 id root Hroot) as (r' & Hr' & Hadv). unfold get in Hg. rewrite Hr' in Hg.
  injection Hg as ->. symmetry. apply (ra_agent _ _ Hadv).
Qed.

(** The runs the agents had at [w0] are over at [w]. *)
Definition ended_since (agents : list string) (w0 w : World) : Prop :=
  ∀ rid r, get rid (store (manager w0)) = Some r → Run.controller_agent r ∈ agents →
    ∃ r', get rid (store (manager w)) = Some r' ∧ is_live r' = false.

(** No run of these agents is live. *)
Definition none_live (agents : list string) (m : RunManager) : Prop :=
  ∀ rid r, get rid (store m) = Some r → Run.controller_agent r ∈ agents → is_live r = false.

Lemma none_live_ended agents w0 w : after w0 w → none_live agents (manager w) → ended_since agents w0 w.
Proof.
  intros Hw Hnone rid r Hr Hin. destruct (af_advances _ _ Hw rid r Hr) as (r' & Hr' & Hadv). exists r'. split; [done|].
  apply (Hnone rid); [done|]. by rewrite (ra_agent _ _ Hadv).
Qed.

Lemma live_ids_none agents w0 w w' :
  live_run_ids_for_agents agents w = (Ok [], w') → after w0 w → after w0 w' ∧ none_live agents (manager w').
Proof.
  intros Hrun Hw. unfold live_run_ids_for_agents in Hrun. apply M_bind_Ok in Hrun as (m & w1 & Hr & Hrun).
  eapply after_read in Hr as [Hw1 [= <-]]; [|done|done]. injection Hrun as Hnone <-. split; [done|].
  intros rid r Hr Hin. destruct (is_live r) eqn:Hl; [|done].
  assert (rid ∈ live_run_ids_for_agents_in_store (store (manager w1)) agents) as Hi.
  { apply elem_live_ids; [apply Hw1|]. by exists r. }
  rewrite Hnone in Hi. by apply elem_of_nil in Hi.
Qed.

(** A step of the operation that takes no guard. *)
Lemma shielded_after {A} (op : RM A) held w0 w r w' :
  keeps wgood op → keeps calm_tree op → op w = (r, w') → after w0 w → shielded held w → after w0 w' ∧ shielded held w'.
Proof.
  intros Hg Ht Hrun Hw Hs. split; [eapply after_step; [exact Hg|apply (Ht w)|exact Hrun|exact Hw]|].
  pose proof (proj2 (Ht w) held Hs) as Hs'. by rewrite Hrun in Hs'.
Qed.

(** Descendants that cannot be listed are not cancelled. *)
Lemma scans_refused scans now id reason tree root e : ∀ held err w0 w held' w',
  cascade_scans scans now id reason held err w = (Ok (Ok tt, held'), w') → after w0 w →
  agent_tree (manager w0) = Some tree → get id (store (manager w0)) = Some root →
  post_order_descendant_agents tree (Run.controller_agent root) ≠ Err e.
Proof.
  intros held err w0 w held' w' Hrun Hw Htree Hroot Hpost.
  assert (∃ agents w1, descendant_agents_for_run id w = (Ok agents, w1)) as (agents & w1 & Hd).
  { destruct scans; simpl in Hrun; [destruct err; [done|]|]; apply M_bind_Ok in Hrun as ([agents|e'] & w1 & Hr1 & Hrun);
      apply attempt_run in Hr1; eauto; done. }
  eapply descendants_read in Hd; [|done..]. congruence.
Qed.

(** A cascade that succeeds ends at a scan that found nothing, under its guards. *)
Lemma scans_done scans now id reason tree root agents : ∀ held err w0 w held' w',
  cascade_scans scans now id reason held err w = (Ok (Ok tt, held'), w') → after w0 w → shielded held w →
  agent_tree (manager w0) = Some tree → get id (store (manager w0)) = Some root →
  post_order_descendant_agents tree (Run.controller_agent root) = Ok agents → (scans = O → agents ⊆ held) →
  after w0 w' ∧ shielded held' w' ∧ agents ⊆ held' ∧ none_live agents (manager w').
Proof.
  induction scans as [|scans IH]; intros held err w0 w held' w' Hrun Hw Hs Htree Hroot Hpost Hheld; simpl in Hrun.
  - destruct err; [done|]. apply M_bind_Ok in Hrun as (o & w1 & Hr1 & Hrun). apply attempt_run in Hr1.
    destruct (shielded_after _ held w0 _ _ _ (keeps_descendant_agents id) (calm_descendants id) Hr1 Hw Hs) as [Hw1 Hs1].
    destruct o as [agents'|e]; [|done]. pose proof (descendants_read _ _ _ _ _ _ _ Hr1 Hw Htree Hroot) as Hp.
    assert (agents' = agents) as -> by congruence.
    apply M_bind_Ok in Hrun as (ids & w2 & Hr2 & Hrun). destruct ids; [|done]. injection Hrun as <- <-.
    destruct (shielded_after _ held w0 _ _ _ (keeps_live_ids agents) (calm_live_ids agents) Hr2 Hw1 Hs1) as [Hw2 Hs2].
    apply (live_ids_none agents w0) in Hr2 as [_ ?]; [|done]. split_and!; [done|done|by apply Hheld|done].
  - apply M_bind_Ok in Hrun as (o & w1 & Hr1 & Hrun). apply attempt_run in Hr1.
    destruct (shielded_after _ held w0 _ _ _ (keeps_descendant_agents id) (calm_descendants id) Hr1 Hw Hs) as [Hw1 Hs1].
    destruct o as [agents'|e]; [|done]. pose proof (descendants_read _ _ _ _ _ _ _ Hr1 Hw Htree Hroot) as Hp.
    assert (agents' = agents) as -> by congruence.
    apply M_bind_Ok in Hrun as (held2 & w2 & Hr2 & Hrun).
    assert (after w0 w2) as Hw2.
    { eapply (after_step (atomically (add_agents agents held))); [|apply calm_section; intros m; reflexivity|exact Hr2|done].
      apply atomically_keeps, keeps_add_agents. }
    assert ((∀ a, a ∈ held2 ↔ a ∈ held ∨ a ∈ agents) ∧ shielded held2 w2) as [Hmem Hs2].
    { destruct (add_agents_run agents held w1) as (h & w2' & Heq & Hm & Hsh). rewrite Heq in Hr2. injection Hr2 as <- <-. auto. }
    apply M_bind_Ok in Hrun as (ids & w3 & Hr3 & Hrun).
    destruct (shielded_after _ held2 w0 _ _ _ (keeps_live_ids agents) (calm_live_ids agents) Hr3 Hw2 Hs2) as [Hw3 Hs3].
    destruct ids as [|i ids].
    + injection Hrun as <- <-. apply (live_ids_none agents w0) in Hr3 as [_ ?]; [|done].
      split_and!; [done|done|intros a Ha; apply Hmem; by right|done].
    + apply M_bind_Ok in Hrun as (e & w4 & Hr4 & Hrun).
      destruct (shielded_after _ held2 w0 _ _ _ (keeps_cancel_descendants now _ reason) (calm_cancel_descendants now _ reason) Hr4 Hw3 Hs3) as [Hw4 Hs4].
      eapply (IH held2); try done. intros _ a Ha. apply Hmem. by right.
Qed.
End interference.

(** ** A sample and the witness *)

#[local] Existing Instances no_yaml run_order_model run_order_model_laws sample_dir_order.

Definition sample_services : AwaitSessionRef := mkSessions (λ _, true) (λ _, None) (λ _ _, Ok tt).
Definition sample_lineage : AgentTree := mkTree ["lead"; "helper"; "other"] (<["lead" := ["helper"]]> ∅).

(** A run of the lead, a waiting run of its helper, and a run of another agent. *)
Definition sample_family : RunManager :=
  set_services (Some sample_services) (Some sample_lineage)
    (perform_all [Ensure 1 "r1" false "task-1" "lead" sample_config; Ensure 1 "r2" false "task-2" "helper" sample_config;
                  Suspend 2 "r2" "session-2"; Ensure 3 "r3" false "task-3" "other" sample_config] manager_new).
Definition sample_run_of (rid : string) (m : RunManager) : Run.t :=
  default (Run.new "" "" "" sample_config 0) (get rid (store m)).

(** While the cascade runs, another caller resumes the helper's run, and tries
    again and again to create one. *)
Definition raced_cascade : World := mkWorld sample_family ([[]; []; []; []; []; [ResumeIfSuspended 8 "r2" "await_complete"]]
    ++ replicate 12 [Ensure 8 "r9" false "task-9" "helper" sample_config]).

Lemma sample_family_reachable : reachable sample_family.
Proof. apply reach_services, reachable_all. by apply reach_start. Qed.
