(* ===== verification/RunCascadeAlone.v ===== *)
(** * The descendant cascade, alone

    Run without interference on a tree without cycles, the cascade of
    [crates/run-manager/src/run.rs] succeeds, cancels exactly the live runs of
    the descendants, and gives back every creation block it took. *)
From S2P Require Import Prelude RustStr RunData RunStore RunManager RunOps RunFacts RunKeeps RunProps RunTree RunSpec RunCascade.
Open Scope string_scope.
Open Scope list_scope.
Open Scope Z_scope.

(** ** The creation blocks *)

Definition bump (sc : gmap string Z) (a : string) : gmap string Z := <[a := default 0 (sc !! a) + 1]> sc.

Lemma lookup_bump l : ∀ sc a, NoDup l →
  foldl bump sc l !! a = if bool_decide (a ∈ l) then Some (default 0 (sc !! a) + 1) else sc !! a.
Proof.
  induction l as [|x l IH]; intros sc a Hnd; simpl; [done|]. apply NoDup_cons in Hnd as [Hx Hnd]. rewrite IH; [|done].
  unfold bump. destruct (decide (a = x)) as [->|Hne].
  - rewrite (bool_decide_eq_false_2 (x ∈ l)), (bool_decide_eq_true_2 (x ∈ x :: l)); [|by left|done]. by rewrite lookup_insert_eq.
  - rewrite lookup_insert_ne; [|done]. destruct (decide (a ∈ l)).
    + by rewrite (bool_decide_eq_true_2 (a ∈ l)), (bool_decide_eq_true_2 (a ∈ x :: l)); [|by right|].
    + rewrite (bool_decide_eq_false_2 (a ∈ l)), (bool_decide_eq_false_2 (a ∈ x :: l)); [done| |done]. by apply not_elem_of_cons.
Qed.

Lemma lookup_release sc x a : release x sc !! a =
  if decide (a = x) then (match sc !! x with Some n => if n <=? 1 then None else Some (n - 1) | None => None end) else sc !! a.
Proof.
  unfold release. destruct (sc !! x) as [n|] eqn:Hx; case_decide; subst; [|destruct (n <=? 1)|done|done].
  - destruct (n <=? 1); [by rewrite lookup_delete_eq|by rewrite lookup_insert_eq].
  - by rewrite lookup_delete_ne.
  - by rewrite lookup_insert_ne.
Qed.

Lemma lookup_releases l : ∀ sc a, NoDup l →
  foldl (flip release) sc l !! a = if bool_decide (a ∈ l) then release a sc !! a else sc !! a.
Proof.
  induction l as [|x l IH]; intros sc a Hnd; simpl; [done|]. apply NoDup_cons in Hnd as [Hx Hnd]. rewrite IH; [|done].
  destruct (decide (a = x)) as [->|Hne].
  - by rewrite (bool_decide_eq_false_2 (x ∈ l)), (bool_decide_eq_true_2 (x ∈ x :: l)); [|left|].
  - assert (bool_decide (a ∈ x :: l) = bool_decide (a ∈ l)) as -> by (apply bool_decide_ext; rewrite elem_of_cons; naive_solver).
    rewrite !(lookup_release _ x a), decide_False; [|done]. case_bool_decide; [|done].
    rewrite !lookup_release. destruct (decide (a = a)), (decide (a = x)); done.
Qed.

(** Taking and giving back blocks changes nothing. *)
Lemma releases_undo l sc :
  NoDup l → (∀ a n, sc !! a = Some n → 1 ≤ n) → foldl (flip release) (foldl bump sc l) l = sc.
Proof.
  intros Hnd Hpos. apply map_eq. intros a. rewrite lookup_releases, lookup_bump; [|done..].
  case_bool_decide as Hin; [|done]. rewrite lookup_release, decide_True, lookup_bump, bool_decide_eq_true_2; [|done..].
  destruct (sc !! a) as [n|] eqn:Ha; simpl; [|done]. specialize (Hpos a n Ha).
  destruct (Z.leb_spec (n + 1) 1); [lia|]. f_equal. lia.
Qed.

(** ** One descendant *)

(** What the cascade leaves of the manager beside the store and the log. *)
Record frame (m m' : RunManager) : Prop := {
  fr_tree : agent_tree m' = agent_tree m;
  fr_sessions : await_session_ref m' = await_session_ref m;
  fr_scoped : scoped_block_counts m' = scoped_block_counts m
}.
#[export] Instance frame_preorder : PreOrder frame.
Proof. split; [by intros m|]. intros m1 m2 m3 [] []. split; congruence. Qed.

Definition closable (r : result OrchestrationError.t unit) : Prop :=
  match r with
  | Ok _ | Err (OrchestrationError.NotFound _) | Err (OrchestrationError.SessionClosed _) => True
  | Err _ => False
  end.

(** The session the run waits on, if any, can be closed. *)
Definition closes (reason : string) (m : RunManager) (r : Run.t) : Prop :=
  ∀ sid, Run.root_await r = Some sid → ∃ ar, await_session_ref m = Some ar ∧ closable (close_session ar sid reason).

Definition end_run (reason : string) (now : Z) (r : Run.t) : Run.t := if is_live r then cancel_settle reason now r else r.

Section alone.
Context `{RunYaml, DirOrder, RunOrder}.

Lemma persist_and_emit_alone id e m : ∃ m',
  persist_and_emit id e (mkWorld m []) = (Ok tt, mkWorld m' []) ∧ store m' = store m ∧ frame m m'.
Proof.
  unfold persist_and_emit, persist_snapshot_best_effort. rewrite !bind_run, atomically_alone. cbn [get_state fst snd].
  assert (∃ m1, (match persister m, get id (store m) with Some _, Some run => persist_best_effort run | _, _ => mret tt end)
    (mkWorld m []) = (Ok tt, mkWorld m1 []) ∧ store m1 = store m ∧ frame m m1) as (m1 & -> & Hst & Hfr).
  { destruct (persister m) eqn:Hp; [|by exists m]. destruct (get id (store m)) as [run|]; [|by exists m].
    unfold persist_best_effort. rewrite bind_run, attempt_alone. eexists. split; [reflexivity|].
    unfold persist_section. rewrite Hp. destruct (persist run s). split; [done|by split]. }
  rewrite atomically_alone. eexists. split; [reflexivity|]. split; [done|]. by destruct Hfr.
Qed.

Lemma close_alone sid reason m ar :
  await_session_ref m = Some ar → closable (close_session ar sid reason) →
  close_descendant_session sid reason (mkWorld m []) = (Ok tt, mkWorld (add_close (sid, reason) m) []).
Proof.
  intros Har Hc. unfold close_descendant_session. rewrite bind_run, atomically_alone. unfold close_section. section.
  rewrite Har. cbn. by destruct (close_session ar sid reason) as [|[]].
Qed.

Lemma cancel_one now id reason m :
  store_ok (store m) → (∀ r, get id (store m) = Some r → is_live r = true → closes reason m r) →
  ∃ m', cancel_descendant_run now id reason (mkWorld m []) = (Ok tt, mkWorld m' []) ∧ frame m m' ∧
    ∀ rid, get rid (store m') = (if decide (rid = id) then end_run reason now else Datatypes.id) <$> get rid (store m).
Proof.
  intros Hok Hcl. unfold cancel_descendant_run. cbn [cancel_descendant_loop DESCENDANT_CASCADE_RETRY_LIMIT].
  rewrite bind_run, atomically_alone. cbn [get_state fst snd]. destruct (get id (store m)) as [r|] eqn:Hr.
  2: { exists m. split; [done|]. split; [reflexivity|]. intros rid. case_decide; subst; [by rewrite Hr|by destruct (get rid (store m))]. }
  destruct (is_live r) eqn:Hl; cbn [negb].
  2: { exists m. split; [done|]. split; [reflexivity|]. intros rid. case_decide; subst; [|by destruct (get rid (store m))].
       rewrite Hr. simpl. unfold end_run. by rewrite Hl. }
  specialize (Hcl r eq_refl Hl). rewrite bind_run.
  assert (∃ m1, (match Run.root_await r with Some sid => close_descendant_session sid reason | None => mret tt end)
    (mkWorld m []) = (Ok tt, mkWorld m1 []) ∧ store m1 = store m ∧ frame m m1) as (m1 & -> & Hst & Hfr).
  { destruct (Run.root_await r) as [sid|] eqn:Hra; [|by exists m]. destruct (Hcl sid) as (ar & Har & Hc); [done|].
    rewrite (close_alone sid reason m ar Har Hc). by eexists. }
  rewrite bind_run, atomically_alone. unfold cancel_descendant_section. section. rewrite Hst, Hr, Hl. cbn [negb].
  rewrite bool_decide_eq_false_2; [|by intros []]. cbn [andb]. unfold settle_run, modify. cbn [fst snd].
  match goal with |- context [ persist_and_emit ?i ?e (mkWorld ?m2 _) ] =>
    destruct (persist_and_emit_alone i e m2) as (m3 & -> & Hst3 & Hfr3) end.
  exists m3. split; [done|]. split; [trans m1; [done|]; etrans; [|exact Hfr3]; by split|].
  intros rid. rewrite Hst3. unfold get in *. simpl. rewrite Hst. case_decide as Hid.
  - subst. rewrite lookup_alter_eq, Hr. simpl. unfold end_run. by rewrite Hl.
  - rewrite lookup_alter_ne; [|done]. by destruct (runs (store m) !! rid).
Qed.

(** ** All of them *)

Lemma end_run_idem reason now r : end_run reason now (end_run reason now r) = end_run reason now r.
Proof. unfold end_run. destruct (is_live r) eqn:Hl; simpl; [done|]. by rewrite Hl. Qed.

Lemma end_run_owner reason now r :
  Run.controller_agent (end_run reason now r) = Run.controller_agent r ∧ is_live (end_run reason now r) = false.
Proof. unfold end_run. by destruct (is_live r) eqn:Hl. Qed.

(** Every session a live run of the agents waits on can be closed. *)
Definition all_close (reason : string) (agents : list string) (m : RunManager) : Prop :=
  ∀ rid r, get rid (store m) = Some r → is_live r = true → Run.controller_agent r ∈ agents → closes reason m r.

Definition some_ended (reason : string) (now : Z) (ids : list string) (m m' : RunManager) : Prop :=
  ∀ rid, get rid (store m') = (if bool_decide (rid ∈ ids) then end_run reason now else Datatypes.id) <$> get rid (store m).

Lemma all_close_ended reason now agents ids m m' :
  frame m m' → some_ended reason now ids m m' → all_close reason agents m → all_close reason agents m'.
Proof.
  intros Hfr He Hc rid r Hr Hl Hin sid Hsid. rewrite He in Hr. destruct (get rid (store m)) as [r0|] eqn:Hr0; [|done].
  simpl in Hr. injection Hr as <-. destruct (bool_decide (rid ∈ ids)).
  - pose proof (end_run_owner reason now r0). naive_solver congruence.
  - simpl in *. destruct (Hc rid r0 Hr0 Hl Hin sid Hsid) as (ar & Har & ?). exists ar. split; [|done].
    by rewrite (fr_sessions _ _ Hfr).
Qed.

Lemma cancel_all_alone now reason agents ids : ∀ m,
  store_ok (store m) → all_close reason agents m →
  (∀ rid r, rid ∈ ids → get rid (store m) = Some r → Run.controller_agent r ∈ agents) →
  ∃ m', cancel_descendants now ids reason (mkWorld m []) = (Ok None, mkWorld m' []) ∧ frame m m' ∧
    store_ok (store m') ∧ some_ended reason now ids m m'.
Proof.
  induction ids as [|id ids IH]; intros m Hok Hcl Hown.
  { exists m. split_and!; [done|reflexivity|done|]. intros rid. by destruct (get rid (store m)). }
  destruct (cancel_one now id reason m Hok) as (m1 & Hrun1 & Hfr1 & Hget1).
  { intros r Hr Hl. eapply Hcl; [exact Hr|done|]. eapply Hown; [by left|exact Hr]. }
  assert (store_ok (store m1)) as Hok1.
  { pose proof (keeps_cancel_descendant DESCENDANT_CASCADE_RETRY_LIMIT now id reason (mkWorld m [])) as Hk.
    change (cancel_descendant_loop DESCENDANT_CASCADE_RETRY_LIMIT now id reason) with (cancel_descendant_run now id reason) in Hk.
    rewrite Hrun1 in Hk. by apply Hk. }
  assert (some_ended reason now [id] m m1) as He1.
  { intros rid. rewrite Hget1. f_equal. case_decide as Hd; case_bool_decide as Hb; rewrite list_elem_of_singleton in Hb; congruence. }
  destruct (IH m1) as (m2 & Hrun2 & Hfr2 & Hok2 & He2); [done|by eapply all_close_ended| |].
  { intros rid r Hin Hr. rewrite He1 in Hr. destruct (get rid (store m)) as [r0|] eqn:Hr0; [|done]. simpl in Hr. injection Hr as <-.
    assert (Run.controller_agent r0 ∈ agents) as Ha by (eapply Hown; [by right|exact Hr0]).
    destruct (bool_decide (rid ∈ [id])); [by rewrite (proj1 (end_run_owner reason now r0))|done]. }
  exists m2. split_and!; [|by trans m1|done|].
  - cbn [cancel_descendants]. rewrite bind_run. unfold attempt. rewrite Hrun1, bind_run, Hrun2. done.
  - intros rid. rewrite He2, He1. destruct (get rid (store m)) as [r0|]; [|done]. simpl. f_equal.
    destruct (bool_decide (rid ∈ ids)) eqn:Hb1, (bool_decide (rid ∈ [id])) eqn:Hb2, (bool_decide (rid ∈ id :: ids)) eqn:Hb3;
      b2p; rewrite ?list_elem_of_singleton, ?elem_of_cons in *; simpl; try done; try (apply end_run_idem); exfalso; tauto.
Qed.
End alone.

(** ** The guard of the cascade *)

Definition dedup (held agents : list string) : list string :=
  foldl (λ acc a, if bool_decide (a ∈ acc) then acc else acc ++ [a]) held agents.

Lemma dedup_spec agents : ∀ held, NoDup held →
  NoDup (dedup held agents) ∧ (∀ a, a ∈ held ∨ a ∈ agents → a ∈ dedup held agents) ∧
  ∃ added, dedup held agents = held ++ added.
Proof.
  unfold dedup. induction agents as [|a agents IH]; intros held Hnd; simpl.
  { split_and!; [done|by intros a [?|?%elem_of_nil]|by exists []; rewrite app_nil_r]. }
  case_bool_decide as Hin.
  - destruct (IH held Hnd) as (Hnd' & Hall & Hadd). split_and!; [done| |done].
    intros b [Hb|[->|Hb]%elem_of_cons]; apply Hall; auto.
  - destruct (IH (held ++ [a])) as (Hnd' & Hall & added & Heq).
    { apply NoDup_app. split_and!; [done|by intros b Hb ->%list_elem_of_singleton|apply NoDup_singleton]. }
    split_and!; [done| |exists ([a] ++ added); by rewrite Heq, <- app_assoc].
    intros b Hb. apply Hall. rewrite elem_of_app, list_elem_of_singleton. rewrite elem_of_cons in Hb. tauto.
Qed.

Lemma dedup_stable agents held : (∀ a, a ∈ agents → a ∈ held) → dedup held agents = held.
Proof.
  unfold dedup. induction agents as [|a agents IH]; intros Hin; simpl; [done|].
  rewrite bool_decide_eq_true_2 by (apply Hin; by left). apply IH. intros b Hb. apply Hin. by right.
Qed.

Section alone_cascade.
Context `{RunYaml, DirOrder} `{RunOrderLaws}.

Lemma descendants_alone id m tree root agents :
  agent_tree m = Some tree → get id (store m) = Some root →
  post_order_descendant_agents tree (Run.controller_agent root) = Ok agents →
  descendant_agents_for_run id (mkWorld m []) = (Ok agents, mkWorld m []).
Proof.
  intros Ht Hr Hp. unfold descendant_agents_for_run. rewrite bind_run, atomically_alone. cbn [get_state fst snd].
  rewrite Ht, bind_run, atomically_alone, run_of_cases, Hr. cbn [fst snd].
  rewrite bind_run, atomically_alone. cbn [get_state fst snd]. rewrite Ht. unfold lift. by rewrite Hp.
Qed.

Lemma live_ids_alone agents m :
  live_run_ids_for_agents agents (mkWorld m []) = (Ok (live_run_ids_for_agents_in_store (store m) agents), mkWorld m []).
Proof. unfold live_run_ids_for_agents. by rewrite bind_run, atomically_alone. Qed.

Lemma add_agents_alone agents held m :
  atomically (add_agents agents held) (mkWorld m []) =
    (Ok (dedup held agents),
     mkWorld (set_scoped (λ sc, foldl bump sc (drop (length held) (dedup held agents))) m) []).
Proof. by rewrite atomically_alone. Qed.

(** The effect on one run. *)
Definition descendant_ended (reason : string) (now : Z) (agents : list string) (r : Run.t) : Run.t :=
  if is_live r && bool_decide (Run.controller_agent r ∈ agents) then cancel_settle reason now r else r.

(** The first scan cancels what there is; what it leaves ends the next one. *)
Lemma scans_alone now id reason tree root agents m n :
  store_ok (store m) → agent_tree m = Some tree → get id (store m) = Some root →
  post_order_descendant_agents tree (Run.controller_agent root) = Ok agents → all_close reason agents m →
  ∃ m', cascade_scans (S (S n)) now id reason [] None (mkWorld m []) = (Ok (Ok tt, dedup [] agents), mkWorld m' []) ∧
    scoped_block_counts m' = foldl bump (scoped_block_counts m) (dedup [] agents) ∧
    ∀ rid, get rid (store m') = descendant_ended reason now agents <$> get rid (store m).
Proof.
  intros Hok Ht Hr Hp Hcl. destruct (dedup_spec agents [] (NoDup_nil_2)) as (Hnd & Hall & _).
  set (held := dedup [] agents) in *. set (m1 := set_scoped (λ sc, foldl bump sc held) m).
  assert (Hscan : ∀ k held0 m2, agent_tree m2 = Some tree → (∃ root2, get id (store m2) = Some root2 ∧ Run.controller_agent root2 = Run.controller_agent root) →
    cascade_scans (S k) now id reason held0 None (mkWorld m2 []) =
      let m3 := set_scoped (λ sc, foldl bump sc (drop (length held0) (dedup held0 agents))) m2 in
      match live_run_ids_for_agents_in_store (store m2) agents with
      | [] => (Ok (Ok tt, dedup held0 agents), mkWorld m3 [])
      | ids => (error ← cancel_descendants now ids reason; cascade_scans k now id reason (dedup held0 agents) error) (mkWorld m3 [])
      end).
  { intros k held0 m2 Ht2 (root2 & Hr2 & Ho2). cbn [cascade_scans]. rewrite bind_run. unfold attempt.
    rewrite (descendants_alone id m2 tree root2 agents Ht2 Hr2) by (by rewrite Ho2).
    rewrite bind_run, add_agents_alone, bind_run, live_ids_alone. cbn [store set_scoped].
    by destruct (live_run_ids_for_agents_in_store (store m2) agents). }
  rewrite (Hscan (S n) [] m Ht (ex_intro _ root (conj Hr eq_refl))). cbn zeta. change (drop (length (@nil string)) (dedup [] agents)) with held. fold held m1.
  destruct (live_run_ids_for_agents_in_store (store m) agents) as [|i ids] eqn:Hids.
  { exists m1. split_and!; [done..|]. intros rid. destruct (get rid (store m)) as [r|] eqn:Hrid; [|done]. cbn. rewrite Hrid. cbn. f_equal.
    unfold descendant_ended. destruct (is_live r && _) eqn:Hb; [|done]. b2p. exfalso.
    assert (rid ∈ live_run_ids_for_agents_in_store (store m) agents) as Hin by (apply elem_live_ids; [done|]; by exists r).
    rewrite Hids in Hin. by apply elem_of_nil in Hin. }
  destruct (cancel_all_alone now reason agents (i :: ids) m1) as (m2 & Hrun & Hfr & Hok2 & He); [done|exact Hcl| |].
  { intros rid r Hin Hr'. rewrite <- Hids in Hin. apply elem_live_ids in Hin as (r2 & Hr2 & _ & Ha); [|done].
    unfold get in Hr'. cbn in Hr'. rewrite Hr2 in Hr'. by injection Hr' as ->. }
  rewrite bind_run, Hrun, (Hscan n held m2); [|by rewrite (fr_tree _ _ Hfr)|].
  2: { rewrite (He id). cbn. rewrite Hr. cbn. eexists. split; [reflexivity|].
       destruct (bool_decide (id ∈ i :: ids)); [apply end_run_owner|done]. }
  assert (∀ rid, get rid (store m2) = descendant_ended reason now agents <$> get rid (store m)) as Hget.
  { intros rid. rewrite He. cbn. destruct (get rid (store m)) as [r|] eqn:Hrid; [|done]. cbn. f_equal.
    unfold descendant_ended. destruct (bool_decide (rid ∈ i :: ids)) eqn:Hb.
    - b2p. rewrite <- Hids in Hb. apply elem_live_ids in Hb as (r2 & Hr2 & Hl & Ha); [|done].
      unfold get in Hrid. rewrite Hrid in Hr2. injection Hr2 as ->. unfold end_run. by rewrite Hl, bool_decide_eq_true_2.
    - b2p. destruct (is_live r && _) eqn:Hl; [|done]. b2p. destruct Hb. rewrite <- Hids. apply elem_live_ids; [done|]. by exists r. }
  destruct (live_run_ids_for_agents_in_store (store m2) agents) as [|j js] eqn:Hids2.
  - rewrite dedup_stable by (intros a Ha; apply Hall; by right). cbn zeta. eexists. split; [reflexivity|].
    split; [|exact Hget]. cbn. rewrite drop_all. cbn. by rewrite (fr_scoped _ _ Hfr).
  - exfalso. assert (j ∈ live_run_ids_for_agents_in_store (store m2) agents) as Hin by (rewrite Hids2; by left).
    apply elem_live_ids in Hin as (r & Hr2 & Hl & Ha); [|done]. specialize (Hget j). unfold get in Hget. rewrite Hr2 in Hget.
    destruct (runs (store m) !! j) as [r0|]; [|done]. cbn in Hget. injection Hget as ->. unfold descendant_ended in *.
    destruct (is_live r0 && bool_decide (Run.controller_agent r0 ∈ agents)) eqn:Hb; [done|].
    rewrite Hl, bool_decide_eq_true_2 in Hb; done.
Qed.

(** The cascade, alone.  Where the tree below the run's agent has no cycle
    and the sessions waited on can be closed, the cascade succeeds; it cancels
    every live run of a descendant, changes no other run, and leaves the
    counts that block creations as it found them. *)
Theorem cascade_alone_exact now id reason m tree root agents :
  reachable m → agent_tree m = Some tree → get id (store m) = Some root →
  post_order_descendant_agents tree (Run.controller_agent root) = Ok agents → all_close reason agents m →
  (∀ a n, scoped_block_counts m !! a = Some n → 1 ≤ n) →
  ∃ m', cascade_descendants_for_run now id reason (mkWorld m []) = (Ok tt, mkWorld m' []) ∧
    scoped_block_counts m' = scoped_block_counts m ∧
    ∀ rid, get rid (store m') =
      (λ r, if is_live r && bool_decide (Run.controller_agent r ∈ agents) then cancel_settle reason now r else r)
      <$> get rid (store m).
Proof.
  intros Hreach Ht Hr Hp Hcl Hpos.
  destruct (scans_alone now id reason tree root agents m 1 (reachable_ok m Hreach) Ht Hr Hp Hcl) as (m1 & Hrun & Hsc & Hget).
  unfold cascade_descendants_for_run. rewrite bind_run. change (S DESCENDANT_CASCADE_SCAN_LIMIT) with 3%nat. rewrite Hrun.
  rewrite bind_run, atomically_alone. cbn [drop_agents modify fst snd]. eexists. split; [reflexivity|]. split; [|exact Hget].
  cbn. rewrite Hsc. apply releases_undo; [|done]. apply dedup_spec, NoDup_nil_2.
Qed.
End alone_cascade.

(** ** Witness *)

#[local] Existing Instances no_yaml run_order_model run_order_model_laws sample_dir_order.

Lemma sample_family_closes agents : all_close "stop" agents sample_family.
Proof. intros rid r _ _ _ sid _. exists sample_services. by split. Qed.

Lemma cascade_alone_exact_witness :
  ∃ m', cascade_descendants_for_run 9 "r1" "stop" (mkWorld sample_family []) = (Ok tt, mkWorld m' []) ∧
    get "r2" (store m') = Some (cancel_settle "stop" 9 (sample_run_of "r2" sample_family)) ∧
    get "r3" (store m') = get "r3" (store sample_family).
Proof.
  assert (get "r1" (store sample_family) = Some (sample_run_of "r1" sample_family)) as Hr by by vm_compute.
  assert (post_order_descendant_agents sample_lineage "lead" = Ok ["helper"]) as Hp by by vm_compute.
  assert (Run.controller_agent (sample_run_of "r1" sample_family) = "lead") as Ho by by vm_compute.
  rewrite <- Ho in Hp. assert (∀ a n, scoped_block_counts sample_family !! a = Some n → 1 ≤ n) as Hpos.
  { intros a n. change (scoped_block_counts sample_family) with (∅ : gmap string Z). by rewrite lookup_empty. }
  destruct (cascade_alone_exact 9 "r1" "stop" sample_family sample_lineage _ _ sample_family_reachable eq_refl Hr Hp
    (sample_family_closes _) Hpos) as (m' & Hrun & _ & Hget).
  exists m'. split; [exact Hrun|]. clear Hrun. rewrite !Hget. split; vm_compute; reflexivity.
Defined.
