(* ===== verification/RunWit.v ===== *)
(** * The guest interface of runs

    Models [AgentRunWitImpl] of [crates/run-manager/src/wit_impl.rs] and the
    status record of [wit_types.rs]: the seven methods a guest can call, each
    behind the check that the run is the caller's.  [WitRunConfig] and
    [WitRunError] have the fields and constructors of [RunConfig] and
    [RunError]; the same types stand for them. *)
From S2P Require Import Prelude RustStr RunData RunStore RunManager RunOps RunFacts RunKeeps RunProps RunTree RunSpec.
Open Scope string_scope.
Open Scope list_scope.
Open Scope Z_scope.

(** ** Status *)

Module WitRunState.
End WitRunState.




(** ** The methods *)



Section wit.
Context `{RunYaml, DirOrder, RunOrder}.







(** ** Ownership *)








End wit.

(** ** Witness *)

#[local] Existing Instances no_yaml run_order_model sample_dir_order.

