(* ===== verification/RepetitionGuard.v ===== *)
(** * The repetition guard

    Models [crates/run-manager/src/repetition_guard.rs], with the action names
    of [wit_types.rs] and the signature type of
    [crates/shared-types/src/repetition.rs]: per agent, a window of recent tool
    calls and outputs, and what a repetition past the threshold leads to.  A
    [usize] that is only compared is a [nat]; an output hash is its bytes. *)
From S2P Require Import Prelude RustStr RunData.
Open Scope string_scope.
Open Scope list_scope.
Open Scope Z_scope.

(** ** Data *)

(** [{:016x}] of a [u64]. *)
Definition hex_digit (n : Z) : string := default "" (String.get (Z.to_nat n) "0123456789abcdef" ≫= λ a, Some (String a "")).
Fixpoint hex_digits (digits : nat) (n : Z) : string :=
  match digits with
  | O => ""
  | S k => hex_digits k (n / 16) +:+ hex_digit (n mod 16)
  end.

Module ToolCallSignature.
Record t := mk { tool_id : string; method : string; params_hash : Z }.
#[global] Instance eq_dec : EqDecision t.
Proof. solve_decision. Defined.

Definition to_string (s : t) : string := tool_id s +:+ "::" +:+ method s +:+ "#" +:+ hex_digits 16 (params_hash s).
End ToolCallSignature.

Module RepetitionDecision.
Inductive t := Pass | Warn (pattern : string) | Terminate (pattern : string).
#[global] Instance eq_dec : EqDecision t.
Proof. solve_decision. Defined.
End RepetitionDecision.

Module RepetitionAction.
Inductive t := WarnOnly | Terminate | WarnThenTerminate.
#[global] Instance eq_dec : EqDecision t.
Proof. solve_decision. Defined.
End RepetitionAction.

Definition action_to_repetition_action (s : string) : option RepetitionAction.t :=
  if String.eqb s "warn-only" then Some RepetitionAction.WarnOnly
  else if String.eqb s "terminate" then Some RepetitionAction.Terminate
  else if String.eqb s "warn-then-terminate" then Some RepetitionAction.WarnThenTerminate
  else None.

Inductive Severity := Critical | High | Medium.
#[global] Instance severity_eq_dec : EqDecision Severity.
Proof. solve_decision. Defined.

(** The severities a scan of the text finds, and the text as an untrusted block. *)
Record PromptInjectionHelpers := mkHelpers {
  flag_injection_patterns : string → list Severity;
  wrap_with_boundary : string → string
}.

Definition MAX_AGENTS_PER_GUARD : Z := 10000.
Definition MAX_TOOL_FIELD_LEN_BYTES : Z := 256.
Definition MAX_WINDOW_SIZE : nat := 1024.

(** A guard's configuration and the services it is wired to. *)
Record RepetitionGuard := mkGuard {
  window_size : nat;
  repeat_threshold : nat;
  action : RepetitionAction.t;
  enabled : bool;
  context_assembler : bool;
  prompt_injection_helpers : option PromptInjectionHelpers;
  has_event_bus : bool;
  run_resolver : option (string → option string * option string)
}.

Definition guard_new (window threshold : nat) (a : RepetitionAction.t) : RepetitionGuard :=
  mkGuard (if bool_decide (MAX_WINDOW_SIZE < window)%nat then MAX_WINDOW_SIZE else window) threshold a true false None
    false None.

(** [build_repetition_guard_from_config] of [run.rs]. *)
Definition guard_from_config (resolve : string → option string * option string) (cfg : RepetitionGuardConfig.t)
    : RepetitionGuard :=
  let d := RepetitionGuardConfig.apply_defaults cfg in
  let g := guard_new (Z.to_nat (RepetitionGuardConfig.d_window_size d))
             (Z.to_nat (RepetitionGuardConfig.d_repeat_threshold d))
             (default RepetitionAction.WarnThenTerminate
                (action_to_repetition_action (RepetitionGuardConfig.d_action d))) in
  mkGuard (window_size g) (repeat_threshold g) (action g) (RepetitionGuardConfig.d_enabled d) (context_assembler g)
    (prompt_injection_helpers g) true (Some resolve).

Record AgentWindow := mkWindow {
  tool_calls : list ToolCallSignature.t;
  outputs : list string;
  warned : bool;
  last_emit_action : option string
}.
Definition window_default : AgentWindow := mkWindow [] [] false None.

(** The windows, and what the sinks were given. *)
Record GuardState := mkState {
  per_agent : gmap string AgentWindow;
  injected : list (string * string);
  emitted : list RunEvent.t
}.
Definition guard_start : GuardState := mkState ∅ [] [].

(** ** Deciding *)

Definition raw_message (pattern : string) : string :=
  "Repetition detected: " +:+ pattern +:+ ". Please vary approach or confirm intent.".

(** The text to inject, where the sinks are wired and the text is harmless. *)
Definition inject_directive (g : RepetitionGuard) (pattern : string) : option string :=
  match context_assembler g, prompt_injection_helpers g with
  | true, Some pih =>
      if existsb (λ s, bool_decide (s = Critical)) (flag_injection_patterns pih (raw_message pattern)) then None
      else Some (wrap_with_boundary pih (raw_message pattern))
  | _, _ => None
  end.

Definition label (d : RepetitionDecision.t) : string :=
  match d with RepetitionDecision.Terminate _ => "terminate" | _ => "warn" end.

(** [decide_locked]: the window after, the decision, the injection, the event. *)
Definition decide_locked (g : RepetitionGuard) (w : AgentWindow) (agent pattern detection_type : string) (count : nat)
    : AgentWindow * RepetitionDecision.t * option string * option RunEvent.t :=
  let '(warned', decision, inject) :=
    match action g with
    | RepetitionAction.WarnOnly => (warned w, RepetitionDecision.Warn pattern, None)
    | RepetitionAction.Terminate => (warned w, RepetitionDecision.Terminate pattern, None)
    | RepetitionAction.WarnThenTerminate =>
        if warned w then (false, RepetitionDecision.Terminate pattern, None)
        else (true, RepetitionDecision.Warn pattern, inject_directive g pattern)
    end in
  if has_event_bus g && negb (bool_decide (last_emit_action w = Some (label decision))) then
    let '(run, task) := match run_resolver g with Some resolve => resolve agent | None => (None, None) end in
    (mkWindow (tool_calls w) (outputs w) warned' (Some (label decision)), decision, inject,
     Some (RunEvent.run_repetition_detected_event run task agent detection_type pattern (Z.of_nat count) (label decision)))
  else (mkWindow (tool_calls w) (outputs w) warned' (last_emit_action w), decision, inject, None).

(** ** Observations *)

(** [push_back], then [pop_front] of a window that is too long. *)
Definition push_window {A} (size : nat) (x : A) (l : list A) : list A :=
  let l := l ++ [x] in if bool_decide (size < length l)%nat then tail l else l.

Definition count_of {A} `{EqDecision A} (x : A) (l : list A) : nat := length (List.filter (λ y, bool_decide (y = x)) l).

Definition set_tool_calls (l : list ToolCallSignature.t) (w : AgentWindow) : AgentWindow :=
  mkWindow l (outputs w) (warned w) (last_emit_action w).
Definition set_outputs (l : list string) (w : AgentWindow) : AgentWindow :=
  mkWindow (tool_calls w) l (warned w) (last_emit_action w).
Definition reset_emit (w : AgentWindow) : AgentWindow := mkWindow (tool_calls w) (outputs w) (warned w) None.

Definition pass (w : AgentWindow) : AgentWindow * RepetitionDecision.t * option string * option RunEvent.t :=
  (reset_emit w, RepetitionDecision.Pass, None, None).

(** The part of [record_tool_call] on one window. *)
Definition tool_call_locked (g : RepetitionGuard) (agent : string) (sig : ToolCallSignature.t) (w : AgentWindow)
    : AgentWindow * RepetitionDecision.t * option string * option RunEvent.t :=
  let w := set_tool_calls (push_window (window_size g) sig (tool_calls w)) w in
  let count := count_of sig (tool_calls w) in
  if bool_decide (repeat_threshold g ≤ count)%nat
  then decide_locked g w agent (ToolCallSignature.to_string sig) "tool_call" count
  else pass w.

(** [iter().rev().take_while(|h| h == x).count()]. *)
Fixpoint run_length {A} `{EqDecision A} (x : A) (newest_first : list A) : nat :=
  match newest_first with
  | y :: l => if bool_decide (y = x) then S (run_length x l) else O
  | [] => O
  end.

(** The part of [record_output] on one window. *)
Definition output_locked (g : RepetitionGuard) (agent : string) (hash : string) (w : AgentWindow)
    : AgentWindow * RepetitionDecision.t * option string * option RunEvent.t :=
  if bool_decide (last (outputs w) = Some hash) then
    let w := set_outputs (push_window (window_size g) hash (outputs w)) w in
    let run_len := run_length hash (rev (outputs w)) in
    if bool_decide (repeat_threshold g ≤ run_len)%nat
    then decide_locked g w agent "output-repeat" "output_repeat" run_len
    else pass w
  else pass (set_outputs [hash] w).

Inductive observation := Tool (sig : ToolCallSignature.t) | Output (hash : string).

Definition locked (g : RepetitionGuard) (agent : string) (o : observation) (w : AgentWindow)
    : AgentWindow * RepetitionDecision.t * option string * option RunEvent.t :=
  match o with Tool sig => tool_call_locked g agent sig w | Output hash => output_locked g agent hash w end.

(** The size limits of a signature. *)
Definition sized (o : observation) : bool :=
  match o with
  | Tool sig =>
      (len (ToolCallSignature.tool_id sig) <=? MAX_TOOL_FIELD_LEN_BYTES)
      && (len (ToolCallSignature.method sig) <=? MAX_TOOL_FIELD_LEN_BYTES)
  | Output _ => true
  end.

(** [record_tool_call] and [record_output], which differ in the limits and in
    what they do to the window. *)
Definition observe (g : RepetitionGuard) (agent : string) (o : observation) (st : GuardState)
    : RepetitionDecision.t * GuardState :=
  if negb (enabled g) then (RepetitionDecision.Pass, st)
  else if negb (is_ok (validate_agent_id agent)) then (RepetitionDecision.Pass, st)
  else if negb (sized o) then (RepetitionDecision.Pass, st)
  else if bool_decide (per_agent st !! agent = None) && (MAX_AGENTS_PER_GUARD <=? Z.of_nat (size (per_agent st)))
  then (RepetitionDecision.Pass, st)
  else
    let '(w, decision, inject, event) := locked g agent o (default window_default (per_agent st !! agent)) in
    (decision,
     mkState (<[agent := w]> (per_agent st))
       (injected st ++ match inject with Some msg => [(agent, msg)] | None => [] end)
       (emitted st ++ match event with Some e => [e] | None => [] end)).

Definition record_tool_call (g : RepetitionGuard) (agent : string) (sig : ToolCallSignature.t) :=
  observe g agent (Tool sig).
Definition record_output (g : RepetitionGuard) (agent : string) (hash : string) := observe g agent (Output hash).

Definition is_terminate_decision (d : RepetitionDecision.t) : bool :=
  match d with RepetitionDecision.Terminate _ => true | _ => false end.
Definition is_retryable_repetition_decision (d : RepetitionDecision.t) : bool := negb (is_terminate_decision d).

(** ** Histories *)

(** A history lists an agent's accepted observations, newest first. *)
Definition tools (h : list observation) : list ToolCallSignature.t :=
  omap (λ o, match o with Tool sig => Some sig | Output _ => None end) h.
Definition hashes (h : list observation) : list string :=
  omap (λ o, match o with Output hash => Some hash | Tool _ => None end) h.

(** How often the observation repeats what is in the window. *)
Definition repeats (g : RepetitionGuard) (h : list observation) (o : observation) : nat :=
  match o with
  | Tool sig => count_of sig (take (window_size g) (sig :: tools h))
  | Output hash => Nat.min (S (run_length hash (hashes h))) (Nat.max 1 (window_size g))
  end.

(** The first output of a kind never counts. *)
Definition first_of_kind (h : list observation) (o : observation) : bool :=
  match o with Tool _ => false | Output hash => bool_decide (run_length hash (hashes h) = 0%nat) end.

Definition hit (g : RepetitionGuard) (h : list observation) (o : observation) : bool :=
  bool_decide (repeat_threshold g ≤ repeats g h o)%nat && negb (first_of_kind h o).

Fixpoint hits (g : RepetitionGuard) (h : list observation) : nat :=
  match h with
  | [] => O
  | o :: h => (if hit g h o then 1 else 0) + hits g h
  end.

Definition pattern_of (o : observation) : string :=
  match o with Tool sig => ToolCallSignature.to_string sig | Output _ => "output-repeat" end.

(** The verdict on a repetition, by how many there were before. *)
Definition verdict (g : RepetitionGuard) (before : nat) (pattern : string) : RepetitionDecision.t :=
  match action g with
  | RepetitionAction.WarnOnly => RepetitionDecision.Warn pattern
  | RepetitionAction.Terminate => RepetitionDecision.Terminate pattern
  | RepetitionAction.WarnThenTerminate =>
      if Nat.odd before then RepetitionDecision.Terminate pattern else RepetitionDecision.Warn pattern
  end.

Definition spec (g : RepetitionGuard) (h : list observation) (o : observation) : RepetitionDecision.t :=
  if hit g h o then verdict g (hits g h) (pattern_of o) else RepetitionDecision.Pass.

(** What was last announced since an observation passed. *)
Definition announced (g : RepetitionGuard) (h : list observation) : option string :=
  match h with
  | [] => None
  | o :: h => if has_event_bus g && hit g h o then Some (label (spec g h o)) else None
  end.

(** The guard on a list of observations, oldest first. *)
Definition run (g : RepetitionGuard) (trace : list (string * observation)) : GuardState :=
  foldl (λ st '(agent, o), (observe g agent o st).2) guard_start trace.

(** An agent's history in a trace. *)
Definition history (agent : string) (trace : list (string * observation)) : list observation :=
  foldl (λ h '(a, o), if bool_decide (a = agent) && sized o then o :: h else h) [] trace.

(** ** Windows of histories *)

Section windows.
Context {A : Type} `{EqDecision A}.
Implicit Types (x : A) (l : list A).

Lemma push_window_rev n x l : push_window n x (rev (take n l)) = rev (take n (x :: l)).
Proof.
  unfold push_window. rewrite length_app, length_rev, length_take. destruct n as [|n]; [done|].
  change (take (S n) (x :: l)) with (x :: take n l). change (length [x]) with 1%nat. case_bool_decide as Hlen.
  - assert (n < length l)%nat as [y Hy]%lookup_lt_is_Some_2 by lia. rewrite (take_S_r l n y Hy), rev_app_distr. done.
  - rewrite !take_ge; [done|lia..].
Qed.

Lemma push_window_replicate n m x :
  (0 < m ≤ Nat.max 1 n)%nat → push_window n x (replicate m x) = replicate (Nat.min (S m) (Nat.max 1 n)) x.
Proof.
  intros Hm. unfold push_window. rewrite <- replicate_cons_app. change (x :: replicate m x) with (replicate (S m) x).
  rewrite length_replicate. case_bool_decide; [change (tail (replicate (S m) x)) with (replicate m x)|]; f_equal; lia.
Qed.

Lemma count_of_rev x l : count_of x (rev l) = count_of x l.
Proof. unfold count_of. by rewrite filter_rev, length_rev. Qed.

Lemma run_length_replicate x m : run_length x (rev (replicate m x)) = m.
Proof.
  assert (rev (replicate m x) = replicate m x) as ->.
  { induction m as [|m IH]; simpl; [done|]. by rewrite IH, <- replicate_cons_app. }
  induction m as [|m IH]; simpl; [done|]. rewrite bool_decide_eq_true_2; [by rewrite IH|done].
Qed.
End windows.

(** The window a history leaves. *)
Definition window_of (g : RepetitionGuard) (h : list observation) : AgentWindow :=
  mkWindow (rev (take (window_size g) (tools h)))
    (match hashes h with
     | [] => []
     | x :: hs => replicate (Nat.min (S (run_length x hs)) (Nat.max 1 (window_size g))) x
     end)
    (bool_decide (action g = RepetitionAction.WarnThenTerminate) && Nat.odd (hits g h))
    (announced g h).

(** What an observation adds to the sinks. *)
Definition spec_injection (g : RepetitionGuard) (h : list observation) (o : observation) : option string :=
  if hit g h o && bool_decide (action g = RepetitionAction.WarnThenTerminate) && Nat.even (hits g h)
  then inject_directive g (pattern_of o) else None.

Definition detection_type (o : observation) : string := match o with Tool _ => "tool_call" | Output _ => "output_repeat" end.

Definition spec_event (g : RepetitionGuard) (agent : string) (h : list observation) (o : observation) : option RunEvent.t :=
  if has_event_bus g && hit g h o && negb (bool_decide (announced g h = Some (label (spec g h o)))) then
    let '(run, task) := match run_resolver g with Some resolve => resolve agent | None => (None, None) end in
    Some (RunEvent.run_repetition_detected_event run task agent (detection_type o) (pattern_of o)
            (Z.of_nat (repeats g h o)) (label (spec g h o)))
  else None.

Lemma decide_locked_spec g h agent o tc outs :
  hit g h o = true →
  decide_locked g (mkWindow tc outs (warned (window_of g h)) (announced g h)) agent (pattern_of o) (detection_type o) (repeats g h o)
    = (mkWindow tc outs (bool_decide (action g = RepetitionAction.WarnThenTerminate) && Nat.odd (hits g (o :: h)))
         (announced g (o :: h)), spec g h o, spec_injection g h o, spec_event g agent h o).
Proof.
  intros Hhit. unfold spec_injection, spec_event, announced at 2. cbn [hits]. unfold spec. rewrite Hhit, !andb_true_r.
  unfold decide_locked, verdict, window_of. cbn [warned last_emit_action tool_calls outputs].
  assert (has_event_bus g = false → announced g h = None) as Hquiet by (intros Hb; destruct h; simpl; [done|by rewrite Hb]).
  assert (Nat.odd (1 + hits g h) = Nat.even (hits g h)) as Hodd by apply Nat.odd_succ.
  rewrite Hodd, <- Nat.negb_odd.
  assert (∀ a, bool_decide (a = RepetitionAction.WarnThenTerminate)
    = match a with RepetitionAction.WarnThenTerminate => true | _ => false end) as Hwtt by by intros [].
  rewrite !Hwtt. destruct (action g); [| |destruct (Nat.odd (hits g h))]; cbn [andb negb label];
    (destruct (has_event_bus g); cbn [andb]; [|by rewrite Hquiet]; case_bool_decide as Ha; cbn [negb]; [by rewrite Ha|];
     destruct (run_resolver g) as [resolve|]; [by destruct (resolve agent)|done]).
Qed.

Lemma pass_spec g h agent o tc outs :
  hit g h o = false →
  pass (mkWindow tc outs (warned (window_of g h)) (announced g h))
    = (mkWindow tc outs (bool_decide (action g = RepetitionAction.WarnThenTerminate) && Nat.odd (hits g (o :: h)))
         (announced g (o :: h)), spec g h o, spec_injection g h o, spec_event g agent h o).
Proof.
  intros Hhit. unfold spec_injection, spec_event, spec. cbn [hits announced]. rewrite Hhit, !andb_false_r. done.
Qed.

Lemma count_window g h sig :
  count_of sig (push_window (window_size g) sig (rev (take (window_size g) (tools h)))) = repeats g h (Tool sig).
Proof. by rewrite push_window_rev, count_of_rev. Qed.

(** The window in which only the tool calls, or the outputs, moved. *)
Definition window_after (g : RepetitionGuard) (h : list observation) (o : observation) : AgentWindow :=
  mkWindow
    (match o with Tool sig => rev (take (window_size g) (sig :: tools h)) | Output _ => tool_calls (window_of g h) end)
    (match o with
     | Tool _ => outputs (window_of g h)
     | Output x => replicate (Nat.min (S (run_length x (hashes h))) (Nat.max 1 (window_size g))) x
     end)
    (bool_decide (action g = RepetitionAction.WarnThenTerminate) && Nat.odd (hits g (o :: h)))
    (announced g (o :: h)).

Lemma window_of_cons g h o : window_of g (o :: h) = window_after g h o.
Proof. by destruct o. Qed.

Lemma last_replicate {A} (x : A) m : last (replicate (S m) x) = Some x.
Proof. change (replicate (S m) x) with (x :: replicate m x). rewrite replicate_cons_app. apply last_snoc. Qed.

(** The newest output is the one the window ends with. *)
Lemma last_output g h x :
  bool_decide (last (outputs (window_of g h)) = Some x) = negb (first_of_kind h (Output x)).
Proof.
  cbn [outputs window_of first_of_kind]. destruct (hashes h) as [|y hs]; [done|]. cbn [run_length].
  replace (Nat.min (S (run_length y hs)) (Nat.max 1 (window_size g)))
    with (S (Nat.pred (Nat.min (S (run_length y hs)) (Nat.max 1 (window_size g))))) by lia.
  rewrite last_replicate. destruct (decide (y = x)) as [->|Hne].
  - rewrite (bool_decide_eq_true_2 (x = x)), (bool_decide_eq_true_2 (Some x = Some x)) by done.
    by rewrite bool_decide_eq_false_2.
  - rewrite (bool_decide_eq_false_2 (y = x)), (bool_decide_eq_false_2 (Some y = Some x)) by congruence. done.
Qed.

(** A repeated output lengthens the run, up to the window. *)
Lemma push_output g h x :
  first_of_kind h (Output x) = false →
  push_window (window_size g) x (outputs (window_of g h)) = replicate (repeats g h (Output x)) x.
Proof.
  cbn [first_of_kind outputs window_of repeats]. intros Hk%bool_decide_eq_false. destruct (hashes h) as [|y hs]; [done|].
  cbn [run_length] in *. destruct (decide (y = x)) as [->|Hne].
  - rewrite bool_decide_eq_true_2 by done. rewrite push_window_replicate by lia. f_equal. lia.
  - by rewrite bool_decide_eq_false_2 in Hk.
Qed.

(** One observation takes the window of a history to that of the longer one. *)
Lemma locked_spec g h agent o :
  locked g agent o (window_of g h) = (window_of g (o :: h), spec g h o, spec_injection g h o, spec_event g agent h o).
Proof.
  rewrite window_of_cons. destruct o as [sig|x]; cbn [locked].
  - unfold tool_call_locked, set_tool_calls. change (tool_calls (window_of g h)) with (rev (take (window_size g) (tools h))).
    cbn [tool_calls outputs]. rewrite count_window.
    assert (hit g h (Tool sig) = bool_decide (repeat_threshold g ≤ repeats g h (Tool sig))%nat) as Hhit
      by (unfold hit; cbn [first_of_kind negb]; by rewrite andb_true_r).
    rewrite push_window_rev, <- Hhit. destruct (hit g h (Tool sig)) eqn:Hh.
    + apply (decide_locked_spec g h agent (Tool sig) _ _ Hh).
    + apply (pass_spec g h agent (Tool sig) _ _ Hh).
  - unfold output_locked. rewrite last_output. destruct (first_of_kind h (Output x)) eqn:Hf; cbn [negb].
    + assert (hit g h (Output x) = false) as Hhit by (unfold hit; rewrite Hf; apply andb_false_r).
      etrans; [apply (pass_spec g h agent (Output x) (tool_calls (window_of g h)) [x] Hhit)|].
      unfold window_after. cbn [first_of_kind] in Hf. b2p. rewrite Hf.
      by replace (Nat.min 1 (Nat.max 1 (window_size g))) with 1%nat by lia.
    + rewrite (push_output g h x Hf). unfold set_outputs. cbn [outputs]. rewrite run_length_replicate.
      assert (hit g h (Output x) = bool_decide (repeat_threshold g ≤ repeats g h (Output x))%nat) as Hhit
        by (unfold hit; rewrite Hf; cbn [negb]; by rewrite andb_true_r).
      rewrite <- Hhit. destruct (hit g h (Output x)) eqn:Hh.
      * apply (decide_locked_spec g h agent (Output x) _ _ Hh).
      * apply (pass_spec g h agent (Output x) _ _ Hh).
Qed.

(** ** Traces *)

Definition agents_of (trace : list (string * observation)) : gset string := list_to_set trace.*1.

Lemma history_snoc agent trace a o :
  history agent (trace ++ [(a, o)]) = if bool_decide (a = agent) && sized o then o :: history agent trace else history agent trace.
Proof. unfold history. by rewrite foldl_app. Qed.

(** Between observations, each agent's window is that of its history. *)
Record tracks (g : RepetitionGuard) (trace : list (string * observation)) (st : GuardState) : Prop := {
  tr_window a : is_ok (validate_agent_id a) = true →
    default window_default (per_agent st !! a) = window_of g (history a trace);
  tr_agents a : is_Some (per_agent st !! a) → a ∈ agents_of trace
}.

(** While the agents fit, an observation is never refused for the cap. *)
Lemma within_cap g trace st a :
  tracks g trace st → Z.of_nat (size ({[a]} ∪ agents_of trace)) ≤ MAX_AGENTS_PER_GUARD →
  bool_decide (per_agent st !! a = None) && (MAX_AGENTS_PER_GUARD <=? Z.of_nat (size (per_agent st))) = false.
Proof.
  intros [_ Ha] Hcap. case_bool_decide as Hnone; [|done]. apply Z.leb_gt.
  assert (size (per_agent st) < size ({[a]} ∪ agents_of trace))%nat; [|lia].
  rewrite <- (size_dom (D := gset string)). apply subset_size. split.
  - intros b Hb%elem_of_dom%Ha. set_solver.
  - intros Hsub. assert (a ∈ dom (per_agent st)) as Hin by set_solver. apply elem_of_dom in Hin as [? Hin]. congruence.
Qed.

Definition to_list {A} (o : option A) : list A := match o with Some a => [a] | None => [] end.

Lemma observe_tracks g trace st agent o :
  enabled g = true → is_ok (validate_agent_id agent) = true → sized o = true → tracks g trace st →
  Z.of_nat (size ({[agent]} ∪ agents_of trace)) ≤ MAX_AGENTS_PER_GUARD →
  let h := history agent trace in
  observe g agent o st =
    (spec g h o, mkState (<[agent := window_of g (o :: h)]> (per_agent st))
       (injected st ++ to_list ((λ msg, (agent, msg)) <$> spec_injection g h o))
       (emitted st ++ to_list (spec_event g agent h o))).
Proof.
  intros Hen Hv Hs Ht Hcap h. subst h. unfold observe. rewrite Hen, Hv, Hs. cbn [negb]. rewrite (within_cap g trace st agent Ht Hcap).
  rewrite (tr_window _ _ _ Ht agent Hv), locked_spec. by destruct (spec_injection g (history agent trace) o), (spec_event _ _ _ _).
Qed.

Lemma observe_skipped g a o st : is_ok (validate_agent_id a) && sized o = false → (observe g a o st).2 = st.
Proof.
  intros Hboth. unfold observe. destruct (enabled g); cbn [negb]; [|done].
  destruct (is_ok (validate_agent_id a)), (sized o); done.
Qed.

Lemma run_tracks g trace :
  enabled g = true → Z.of_nat (size (agents_of trace)) ≤ MAX_AGENTS_PER_GUARD → tracks g trace (run g trace).
Proof.
  intros Hen. induction trace as [|[a o] trace IH] using rev_ind; intros Hcap.
  { split; [|by intros a []]. intros a _. cbn. unfold window_of, window_default. cbn.
    rewrite take_nil, andb_false_r. done. }
  assert (agents_of (trace ++ [(a, o)]) = {[a]} ∪ agents_of trace) as Hag.
  { unfold agents_of. rewrite fmap_app, list_to_set_app_L. set_solver. }
  rewrite Hag in Hcap. assert (size (agents_of trace) ≤ size ({[a]} ∪ agents_of trace))%nat as Hle by (apply subseteq_size; set_solver).
  specialize (IH ltac:(lia)). unfold run. rewrite foldl_app. fold (run g trace). cbn [foldl].
  destruct (is_ok (validate_agent_id a) && sized o) eqn:Hboth.
  - apply andb_true_iff in Hboth as [Hv Hs]. rewrite (observe_tracks g trace _ a o Hen Hv Hs IH Hcap). cbn [snd]. split; cbn [per_agent].
    + intros b Hb. rewrite history_snoc, Hs, andb_true_r. case_bool_decide as Hab.
      * subst. by rewrite lookup_insert_eq.
      * rewrite lookup_insert_ne by done. by apply IH.
    + intros b Hb. rewrite Hag. destruct (decide (a = b)) as [->|Hab]; [set_solver|].
      rewrite lookup_insert_ne in Hb by done. apply elem_of_union_r. by apply IH.
  - rewrite (observe_skipped g a o _ Hboth). split; [|intros b Hb; rewrite Hag; apply elem_of_union_r; by apply IH].
    intros b Hb. rewrite history_snoc. case_bool_decide as Hab; [subst b; rewrite Hb in Hboth; cbn in Hboth; rewrite Hboth|];
      by apply IH.
Qed.

(** C25: decisions follow the history.  While no more agents are seen than the
    guard's cap, what an enabled guard decides on an observation is a function
    of that agent's own accepted history: it passes unless the observation
    repeats, within the window, at least the threshold's number of times; a
    repetition gets the configured verdict, and a guard that warns first
    alternates between warning and terminating, starting with a warning.  An
    event goes out only when the verdict differs from the last one since an
    observation passed, and only a first warning reaches the prompt, wrapped
    and scanned. *)
Theorem guard_follows_history g trace agent o :
  enabled g = true → is_ok (validate_agent_id agent) = true → sized o = true →
  Z.of_nat (size ({[agent]} ∪ agents_of trace)) ≤ MAX_AGENTS_PER_GUARD →
  let h := history agent trace in
  let '(decision, st) := observe g agent o (run g trace) in
  decision = spec g h o ∧
  injected st = injected (run g trace) ++ to_list ((λ msg, (agent, msg)) <$> spec_injection g h o) ∧
  emitted st = emitted (run g trace) ++ to_list (spec_event g agent h o).
Proof.
  intros Hen Hv Hs Hcap h. assert (size (agents_of trace) ≤ size ({[agent]} ∪ agents_of trace))%nat as Hle
    by (apply subseteq_size; set_solver).
  rewrite (observe_tracks g trace _ agent o Hen Hv Hs); [done| |done]. apply run_tracks; [done|lia].
Qed.

(** An agent is only terminated for repeating itself.  However long the
    trace and whatever the other agents do, a tool call of a valid agent is
    answered [Terminate] only when it is in that agent's recent tool calls as
    often as the threshold says, and a guard that warns first has then warned
    it more often than it has terminated it. *)
Theorem termination_is_earned g trace agent sig pattern :
  enabled g = true → is_ok (validate_agent_id agent) = true → sized (Tool sig) = true →
  Z.of_nat (size ({[agent]} ∪ agents_of trace)) ≤ MAX_AGENTS_PER_GUARD →
  (record_tool_call g agent sig (run g trace)).1 = RepetitionDecision.Terminate pattern →
  (repeat_threshold g ≤ count_of sig (take (window_size g) (sig :: tools (history agent trace))))%nat ∧
  pattern = ToolCallSignature.to_string sig ∧
  (action g = RepetitionAction.WarnThenTerminate → Nat.odd (hits g (history agent trace)) = true).
Proof.
  intros Hen Hv Hs Hcap. unfold record_tool_call.
  assert (size (agents_of trace) ≤ size ({[agent]} ∪ agents_of trace))%nat as Hle by (apply subseteq_size; set_solver).
  assert (tracks g trace (run g trace)) as Ht by (apply run_tracks; [done|lia]).
  rewrite (observe_tracks g trace _ agent (Tool sig) Hen Hv Hs Ht Hcap). cbn [fst]. unfold spec.
  destruct (hit g _ _) eqn:Hhit; [|done]. unfold hit in Hhit. b2p. unfold verdict. cbn [repeats pattern_of] in *.
  destruct (action g) eqn:Ha; [done|by intros [= <-]|]. destruct (Nat.odd _); [by intros [= <-]|done].
Qed.

(** ** Witnesses *)

Definition sample_guard : RepetitionGuard :=
  mkGuard 10 3 RepetitionAction.WarnThenTerminate true true (Some (mkHelpers (λ _, [Medium]) (λ s, "<<" +:+ s +:+ ">>"))) true None.
Definition sample_call : ToolCallSignature.t := ToolCallSignature.mk "fs" "read" 255.

(** Three calls of one agent, between those of another. *)
Definition sample_trace : list (string * observation) :=
  [("a1", Tool sample_call); ("b2", Tool sample_call); ("a1", Tool sample_call); ("a1", Tool sample_call); ("a1", Output "x")].

Lemma guard_follows_history_witness :
  (observe sample_guard "a1" (Tool sample_call) (run sample_guard sample_trace)).1
    = spec sample_guard (history "a1" sample_trace) (Tool sample_call) ∧
  spec sample_guard (history "a1" sample_trace) (Tool sample_call) = RepetitionDecision.Terminate "fs::read#00000000000000ff".
Proof.
  split; [|vm_compute; reflexivity].
  pose proof (guard_follows_history sample_guard sample_trace "a1" (Tool sample_call) eq_refl eq_refl eq_refl) as Hf.
  assert (Z.of_nat (size ({["a1"]} ∪ agents_of sample_trace)) ≤ MAX_AGENTS_PER_GUARD) as Hcap by by vm_compute.
  specialize (Hf Hcap). cbv zeta in Hf. destruct (observe sample_guard "a1" (Tool sample_call) (run sample_guard sample_trace)).
  apply Hf.
Defined.

Lemma termination_is_earned_witness : Nat.odd (hits sample_guard (history "a1" sample_trace)) = true.
Proof.
  apply (termination_is_earned sample_guard sample_trace "a1" sample_call "fs::read#00000000000000ff");
    [reflexivity|vm_compute; reflexivity|vm_compute; reflexivity|by vm_compute|vm_compute; reflexivity|reflexivity].
Defined.
