(* ===== verification/RunDivergences.v ===== *)
(** * Where the run manager and its account differ

    Runs of the model, from states its operations reach, that show behaviours
    the comments of [crates/run-manager/src] exclude or do not mention. *)
From S2P Require Import Prelude RustStr RunData RunStore RunManager RunOps RunFacts RunKeeps RunProps.
Open Scope string_scope.
Open Scope list_scope.
Open Scope Z_scope.

(** Text that names the run and its status, enough to tell files apart. *)
#[local] Instance label_yaml : RunYaml :=
  {| to_yaml r := Some (Run.id r +:+ ":" +:+ task_run_status_label (Run.status r)); of_yaml _ := None |}.
#[local] Existing Instances run_order_model sample_dir_order.

Definition live_ids (task : string) (m : RunManager) : list string :=
  Run.id <$> List.filter (λ r, String.eqb (Run.task_id r) task && is_live r) (iter_runs (runs (store m))).

(** ** Undoing a creation *)

(** The first file cannot be written.  Before the creation is undone its run is
    completed by a caller who learned of it, and the task gets another run. *)
Definition failing_dir : RunManager := set_persister (Some (mkDir ∅ [true] true)) manager_new.
Definition undone : World :=
  (ensure_run 1 "r1" "task" "lead" sample_config
     (mkWorld failing_dir [[]; []; [Complete 2 "r1"; Ensure 3 "r2" false "task" "lead" sample_config]])).2.

(** The undoing takes the index entry of the other run, and the next creation
    makes a second live run of the task. *)
Example rollback_unindexes_another_run :
  live_ids "task" (manager undone) = ["r2"] ∧
  find_live_by_task "task" (store (manager undone)) = None ∧
  length (live_ids "task" (perform (Ensure 4 "r3" false "task" "lead" sample_config) (manager undone))) = 2%nat.
Proof. by vm_compute. Qed.

(** ** Files *)

Definition dir_manager : RunManager :=
  set_persister (Some (mkDir ∅ [] true)) (perform (Ensure 1 "r1" false "task" "lead" sample_config) manager_new).

Definition file_body (task : string) (m : RunManager) : option string :=
  d ← persister m; f ← files d !! target_path task;
  match f with RunFile.Regular _ body => body | _ => None end.

(** A snapshot is read under the lock and written outside it: while one caller
    suspends the run, another ends it and writes its file; the older snapshot
    is written last. *)
Definition overwritten : World :=
  (suspend_run 2 "r1" "s1" (mkWorld dir_manager [[]; []; [ForceCancel 3 "r1" "stop"; PersistNow "r1"]])).2.

Example stale_snapshot_wins :
  (task_run_status_label ∘ Run.status) <$> get "r1" (store (manager overwritten)) = Some "cancelled" ∧
  file_body "task" (manager overwritten) = Some "r1:suspended".
Proof. by vm_compute. Qed.

(** ** Automatic runs *)

Definition auto_manager : RunManager := perform (Ensure 1 "r1" false "auto:lead" "lead" sample_config) manager_new.
Definition always_continue : string → result RunError.t RoundDecision.t := λ _, Ok RoundDecision.ContinueAllowed.

(** A cancel of an automatic run is accepted, and no round applies it. *)
Example auto_run_ignores_cancel :
  let w := (cancel_run 2 "r1" "stop" (mkWorld auto_manager [])).2 in
  let w' := (complete_round (Some always_continue) 3 "r1" w).2 in
  (cancel_run 2 "r1" "stop" (mkWorld auto_manager [])).1 = Ok tt ∧
  (complete_round (Some always_continue) 3 "r1" w).1 = Ok RoundDecision.ContinueAllowed ∧
  (Run.status <$> get "r1" (store (manager w'))) = Some TaskRunStatus.Active ∧
  (Run.cancel_pending <$> get "r1" (store (manager w'))) = Some (Some "stop").
Proof. by vm_compute. Qed.

(** ** Rounds *)

(** A run past its rounds with a cancel asked for: the event tells of the
    rounds, the decision of the cancel. *)
Definition spent_manager : RunManager :=
  perform_all [Ensure 1 "r1" false "task" "lead" (RunConfig.mk None None (Some 0) None None); ArmCancel 2 "r1" "stop"] manager_new.

Example round_event_hides_cancel :
  match (round_section 3 "r1" None None spent_manager).1 with
  | Ok o => (RunEvent.payload (round_event o) !! 3%nat, round_decision o)
            = (Some ("decision", RunEvent.VString "blocked:rounds-exceeded"), RoundDecision.Blocked "cancel-pending")
  | Err _ => False
  end.
Proof. by vm_compute. Qed.

(** ** Loading *)

(** A paused row that waits on a session is loaded, and resuming it makes an
    active run that waits on one. *)
Definition odd_row : Run.t :=
  Run.set_root_await (Some "s1") (Run.set_status TaskRunStatus.Paused (Run.new "r1" "task" "lead" sample_config 1)).

Example loaded_pause_resumes_waiting :
  state_row_ok odd_row = true ∧
  let m := perform (Resume 2 "r1" "manual") (set_store (insert odd_row) manager_new) in
  (Run.status <$> get "r1" (store m), Run.root_await <$> get "r1" (store m))
    = (Some TaskRunStatus.Active, Some (Some "s1")).
Proof. by vm_compute. Qed.
