(* ===== verification/Divergences.v ===== *)
(** * Where the code and its account differ

    Runs of the model, from stores its operations reach, that show behaviours
    the comments of the grant store and of the resolver chain exclude or do
    not mention. *)
From S2P Require Import Prelude RustStr Yml McpPatterns GrantData Subset Cascade Events GrantSqlite GrantStore StoreFacts StoreProps Revocation PresetApply Durable Compile Preset SentCache ApprovalIntake IntakeProps Resolver ApprovalRace RaceProps RaceResults.
Open Scope string_scope.
Open Scope list_scope.
Open Scope Z_scope.

#[local] Existing Instances chrono_model codec_model hash_order_model SubsetValidatorImpl fingerprint_model
  entry_order_model.

Definition status_of (id : string) (s : GrantStore) : option GrantStatus.t := Grant.status <$> grants s !! id.

(** ** Narrowing *)

(** The kid delegates without a time bound; the deadline is its own. *)
Definition clamped_store : GrantStore :=
  run_op (Delegate 3 3 "uuid-5" "uuid-1" "aide" (sample_draft "get_issue" GrantTtl.Persistent) "kid") sample_store.

(** [narrow] recomputes the deadline from the TTL alone unless it is a
    [Duration]: the holder of a clamped grant narrows it to itself and is rid
    of the deadline. *)
Example narrowing_lifts_a_clamped_deadline :
  let s := run_op (Narrow 4 "uuid-6" "uuid-5" (GrantDraft.params (sample_draft "get_issue" GrantTtl.Once)) "aide") clamped_store in
  Grant.expires_at <$> grants clamped_store !! "uuid-5" = Some (Some 60000000001) ∧
  Grant.expires_at <$> grants s !! "uuid-6" = Some None ∧ status_of "uuid-6" s = Some GrantStatus.Active.
Proof. by vm_compute. Qed.

(** ** A database error in a cascade *)

(** The third write of the cascade fails. *)
Definition failing_store : GrantStore :=
  set_sqlite (mkSqlite (rows (sqlite sample_store)) [false; false; true]) sample_store.

(** The root is revoked in memory, no event was emitted, and the retry of the
    cascade is refused because the root is no longer active, although the last
    write is lost. *)
Example cascade_stops_at_a_database_error :
  let s := (cascade_revoke "static:root:mcp" failing_store).2 in
  is_ok (cascade_revoke "static:root:mcp" failing_store).1 = false ∧
  status_of "static:root:mcp" s = Some GrantStatus.Revoked ∧
  Row.status <$> rows (sqlite s) !! "uuid-2" = Some "active" ∧
  event_bus s = event_bus failing_store ∧
  (cascade_revoke "static:root:mcp" s).1 = Err (CapGrantError.NotFound "static:root:mcp").
Proof. by vm_compute. Qed.

(** The second write fails: the grandchild stays active. *)
Example cascade_leaves_descendants_active :
  let s0 := set_sqlite (mkSqlite (rows (sqlite sample_store)) [false; true]) sample_store in
  let s := (cascade_revoke "static:root:mcp" s0).2 in
  status_of "static:root:mcp" s = Some GrantStatus.Revoked ∧ status_of "uuid-2" s = Some GrantStatus.Active ∧
  (cascade_revoke "static:root:mcp" s).1 = Err (CapGrantError.NotFound "static:root:mcp").
Proof. by vm_compute. Qed.

(** ** Restarts *)

(** The store after the kid's own grants were revoked: the grandchild's grant
    is still active, under a revoked link. *)
Definition flat_store : GrantStore := run_op (RevokeByGrantee "kid") sample_store.

Definition restarted (s : GrantStore) : GrantStore :=
  match (recover_store (sqlite s)).1 with Ok s' => s' | Err _ => s end.

(** A cascade from the root reaches the grandchild before a restart and not
    after it, since only active rows are recovered. *)
Example restart_cuts_the_lineage :
  status_of "uuid-2" flat_store = Some GrantStatus.Active ∧
  status_of "uuid-2" (cascade_revoke "static:root:mcp" flat_store).2 = Some GrantStatus.Revoked ∧
  status_of "uuid-2" (cascade_revoke "static:root:mcp" (restarted flat_store)).2 = Some GrantStatus.Active.
Proof. by vm_compute. Qed.

(** ** Static inserts *)

Definition narrower_static : Grant.t :=
  Grant.mk "static:root:mcp" "root" "mcp" [CapParam.mk "servers" "github"; CapParam.mk "tool-patterns" "get_me"]
    GrantTtl.Persistent GrantIssuer.Config GrantProvenance.StaticConfig GrantStatus.Active 50 None.

(** The configuration takes a tool away from the root; the grant the root had
    delegated still covers it. *)
Example narrowed_configuration_leaves_delegations :
  let s := run_op (Insert narrower_static) sample_store in
  grants s !! "uuid-2" = grants sample_store !! "uuid-2" ∧ status_of "uuid-2" s = Some GrantStatus.Active ∧
  covers_request (sample_at "uuid-2") (sample_request "get_issue") = Ok tt ∧
  is_ok (covers_request (default sample_static (grants s !! "static:root:mcp")) (sample_request "get_issue")) = false.
Proof. by vm_compute. Qed.

(** A static grant revoked before a restart comes back with a new issue date in
    memory, while its row keeps the first. *)
Example static_issue_dates_diverge :
  let s := run_op (Insert narrower_static) (restarted (cascade_revoke "static:root:mcp" sample_store).2) in
  Grant.created_at <$> grants s !! "static:root:mcp" = Some 50 ∧
  Row.created_at <$> rows (sqlite s) !! "static:root:mcp" = Some (to_rfc3339 0).
Proof. by vm_compute. Qed.

(** ** The resolver chain *)

(** A duration past the last instant: three copies of the function saturate,
    the one of the resolver chain panics. *)
Example chain_deadline_panics :
  compute_expires_at 5 (GrantTtl.Duration U64_MAX) = Some MAX_UTC ∧
  chain_expires_at 5 (GrantTtl.Duration U64_MAX) = Err Stuck.Panicked.
Proof. by vm_compute. Qed.

(** A delivery that answers after the timeout still parks its request.  The
    retry was told the channel is unavailable, the operator approves what is
    parked, and the next retry draws a second request: the approval is never
    picked up. *)
Definition late_delivery : Race := run_from_start 4 [
  Spawn 0 sample_ask;
  Advance 0 "" false; Advance 0 "u1" false; Advance 0 "" false; Advance 0 "" true; Advance 0 "" false;
  Serve; ApproveAs None "u1";
  Spawn 1 sample_ask; Advance 1 "" false; Advance 1 "u2" false
].

Example late_approval_is_lost :
  (Retry.pc <$> retries late_delivery !! 0%nat, Retry.pc <$> retries late_delivery !! 1%nat,
   approvals late_delivery, takes late_delivery) =
  (Some (Pc.Return (ResolverOutcome.Deny UNAVAILABLE_REASON)), Some (Pc.Send "u2"), [("u1", None)], []).
Proof. by vm_compute. Qed.
