(* ===== verification/AgentTree.v ===== *)
(** * The agent tree

    Models [crates/capabilities/cap-lifecycle/src/tree.rs] with the checks of
    [identifier.rs] and the types of [crates/shared-types/src/agent_tree.rs]:
    the store of live agents, its two indexes (children by parent, agent by
    handle), the snapshot taken of it and the readers of both.

    Every write operation takes the store's write lock once, so an operation
    is one state transformer.  What the file system answers to
    [Path::canonicalize] is an argument of the operations that ask it.  The
    text of an error message is left out. *)
From S2P Require Import Prelude RustStr Projection.
Open Scope string_scope.
Open Scope list_scope.
Open Scope Z_scope.

(** ** Errors *)

Module SpawnError.
Inductive t :=
| InvalidConfig
| AlreadyExists
| ParentNotFound
| PathTraversal
| WorkspaceIoFailure
| TreeStateInvalid
| SubsetViolation.
#[global] Instance eq_dec : EqDecision t.
Proof. solve_decision. Defined.
End SpawnError.

(** ** Paths *)

(** [std::path::Component] of a Unix path. *)
Module Component.
Inductive t := RootDir | CurDir | ParentDir | Normal (s : string).
#[global] Instance eq_dec : EqDecision t.
Proof. solve_decision. Defined.
End Component.

(** A [PathBuf] is compared by its components. *)
Abbreviation PathBuf := (list Component.t).

Definition is_absolute (p : PathBuf) : bool :=
  match p with Component.RootDir :: _ => true | _ => false end.

(** [Path::starts_with]. *)
Fixpoint path_starts_with (base p : PathBuf) : bool :=
  match base, p with
  | [], _ => true
  | b :: base, c :: p => bool_decide (b = c) && path_starts_with base p
  | _ :: _, [] => false
  end.

(** ** Identifiers *)

Definition MAX_AGENT_ID_LEN : Z := 64.

(** A byte outside ASCII belongs to a character outside ASCII. *)
Definition agent_id_char (a : ascii) : bool :=
  is_ascii_alphanumeric a || Ascii.eqb a "_" || Ascii.eqb a "-".

Definition validate_agent_id (id : string) : result SpawnError.t unit :=
  _ ← guard_err (String.eqb id "") SpawnError.InvalidConfig;
  _ ← guard_err (MAX_AGENT_ID_LEN <? len id) SpawnError.InvalidConfig;
  guard_err (negb (all_bytes agent_id_char id)) SpawnError.InvalidConfig.

Definition to_ascii_lowercase_byte (a : ascii) : ascii :=
  let b := N_of_ascii a in
  if between 65 90 (Z.of_N b) then ascii_of_N (b + 32) else a.

(** [str::to_ascii_lowercase]. *)
Fixpoint to_ascii_lowercase (s : string) : string :=
  match s with "" => "" | String a s => String (to_ascii_lowercase_byte a) (to_ascii_lowercase s) end.

Definition is_workspace_hidden_name (component : string) : bool :=
  let lc := to_ascii_lowercase component in
  bool_decide (lc ∈ [".git"; ".meta.yaml"; ".advance"; ".runtime"])
  || ends_with ".sqlite" lc
  || ends_with ".sqlite-wal" lc
  || ends_with ".sqlite-shm" lc
  || ends_with ".sqlite-journal" lc.

Definition RESERVED_AGENT_IDS : list string := ["user"].

(** [str::eq_ignore_ascii_case]. *)
Definition eq_ignore_ascii_case (a b : string) : bool := String.eqb (to_ascii_lowercase a) (to_ascii_lowercase b).

Definition validate_new_agent_id (id : string) : result SpawnError.t unit :=
  _ ← validate_agent_id id;
  guard_err (existsb (eq_ignore_ascii_case id) RESERVED_AGENT_IDS) SpawnError.InvalidConfig.

(** The uuid crate: [sub_uuid_v4 n] is the answer to the [n]-th draw, and
    [parse_str] tells whether a parsed UUID is of version 4. *)
Class Uuid := {
  sub_uuid_v4 : nat → string;
  parse_str : string → option bool
}.

(** No two draws agree. *)
Class UuidLaws `{Uuid} : Prop := sub_uuid_v4_inj : Inj (=) (=) sub_uuid_v4.

(** ** Nodes and snapshots *)

Module AgentKind.
Inductive t := Root | Child | Sub.
#[global] Instance eq_dec : EqDecision t.
Proof. solve_decision. Defined.
End AgentKind.

Module AgentStatus.
Inductive t := Active | Paused | Terminated | Failed.
#[global] Instance eq_dec : EqDecision t.
Proof. solve_decision. Defined.
End AgentStatus.

Module AgentNode.
Record t := mk {
  id : string;
  kind : AgentKind.t;
  parent : option string;
  workspace_path : PathBuf;
  capabilities : list Capability.t;
  template_ref : option string;
  status : AgentStatus.t
}.

Definition set_parent (p : option string) (n : t) : t :=
  mk (id n) (kind n) p (workspace_path n) (capabilities n) (template_ref n) (status n).
Definition set_workspace_path (p : PathBuf) (n : t) : t :=
  mk (id n) (kind n) (parent n) p (capabilities n) (template_ref n) (status n).
Definition set_status (st : AgentStatus.t) (n : t) : t :=
  mk (id n) (kind n) (parent n) (workspace_path n) (capabilities n) (template_ref n) st.
End AgentNode.

Module AgentTreeSnapshotData.
Record t := mk {
  nodes : list AgentNode.t;
  parent_of : gmap string (option string);
  children_of : gmap string (list string);
  peer_slug_map : gmap string (gmap string string);
  handles : gmap string string;
  revision : Z
}.

Definition handle_of (data : t) (id : string) : string := default id (handles data !! id).
End AgentTreeSnapshotData.

(** ** The store *)

Definition MAX_CAPABILITIES : Z := 64.
Definition MAX_AGENTS_PER_STORE : Z := 1024.
Definition MAX_PATH_DEPTH : Z := 32.

Module AgentTreeInner.
Record t := mk {
  nodes : gmap string AgentNode.t;
  children_by_parent : gmap string (list string);
  handles : gmap string string;
  by_handle : gmap string string;
  revision : Z
}.

Definition set_nodes (f : gmap string AgentNode.t → gmap string AgentNode.t) (s : t) : t :=
  mk (f (nodes s)) (children_by_parent s) (handles s) (by_handle s) (revision s).
Definition set_children (f : gmap string (list string) → gmap string (list string)) (s : t) : t :=
  mk (nodes s) (f (children_by_parent s)) (handles s) (by_handle s) (revision s).
Definition set_handles (f : gmap string string → gmap string string) (s : t) : t :=
  mk (nodes s) (children_by_parent s) (f (handles s)) (by_handle s) (revision s).
Definition set_by_handle (f : gmap string string → gmap string string) (s : t) : t :=
  mk (nodes s) (children_by_parent s) (handles s) (f (by_handle s)) (revision s).
(** [revision.saturating_add(1)]. *)
Definition bump (s : t) : t :=
  mk (nodes s) (children_by_parent s) (handles s) (by_handle s) (Z.min U64_MAX (revision s + 1)).
End AgentTreeInner.

Import AgentTreeInner.

Definition tree_new : AgentTreeInner.t := AgentTreeInner.mk ∅ ∅ ∅ ∅ 0.

Abbreviation TreeM := (M AgentTreeInner.t SpawnError.t).

(** [HashMap::entry(k).or_default()]. *)
Definition or_default (k : string) (m : gmap string (list string)) : gmap string (list string) :=
  <[k := default [] (m !! k)]> m.

(** [HashMap::values().any(p)]. *)
Definition any_value {A} (p : A → bool) (m : gmap string A) : bool := existsb p (map_to_list m).*2.

(** *** Handles *)

Definition handle_of (s : AgentTreeInner.t) (id : string) : string := default id (handles s !! id).

Definition bind_handle (id : string) (handle : option string) : TreeM unit :=
  let handle := default id handle in
  _ ← lift (validate_agent_id handle);
  s ← get_state;
  _ ← (match by_handle s !! handle with
       | Some owner => fail_if (negb (String.eqb owner id)) SpawnError.AlreadyExists
       | None => mret tt
       end);
  _ ← modify (set_handles (if String.eqb handle id then delete id else <[id := handle]>));
  modify (set_by_handle <[handle := id]>).

Definition unbind_handle (id : string) (s : AgentTreeInner.t) : AgentTreeInner.t :=
  let handle := handle_of s id in
  let s := set_handles (delete id) s in
  if bool_decide (by_handle s !! handle = Some id) then set_by_handle (delete handle) s else s.

(** *** Inserting *)

Definition validate_node_common (node : AgentNode.t) : result SpawnError.t unit :=
  _ ← validate_agent_id (AgentNode.id node);
  _ ← guard_err (MAX_CAPABILITIES <? size_of (AgentNode.capabilities node)) SpawnError.InvalidConfig;
  guard_err (negb (is_absolute (AgentNode.workspace_path node))) SpawnError.InvalidConfig.

(** The names in a path, in order. *)
Definition normal_names (p : PathBuf) : list string :=
  omap (λ c, match c with Component.Normal s => Some s | _ => None end) p.

Definition check_workspace_path_constraints (canonical_path workspace_root : PathBuf) : result SpawnError.t unit :=
  _ ← try_for (λ s, guard_err (is_workspace_hidden_name s) SpawnError.InvalidConfig) (normal_names canonical_path);
  _ ← guard_err (MAX_PATH_DEPTH <? size_of (normal_names canonical_path)) SpawnError.InvalidConfig;
  guard_err (negb (path_starts_with workspace_root canonical_path)) SpawnError.InvalidConfig.

Section inserting.
Context (workspace_root : PathBuf).

(** [canonicalize] is the answer of the file system at the time of the call. *)
Definition canonicalize_workspace_path (canonicalize : PathBuf → option PathBuf) (path : PathBuf)
    : result SpawnError.t PathBuf :=
  ok_or (canonicalize path) SpawnError.InvalidConfig.

(** The checks shared by the two inserts; the node comes back with its canonical path. *)
Definition admit_node (canonicalize : PathBuf → option PathBuf) (node : AgentNode.t) : result SpawnError.t AgentNode.t :=
  _ ← validate_node_common node;
  canonical_workspace ← canonicalize_workspace_path canonicalize (AgentNode.workspace_path node);
  _ ← check_workspace_path_constraints canonical_workspace workspace_root;
  Ok (AgentNode.set_workspace_path canonical_workspace node).

Definition insert_root_with_handle (canonicalize : PathBuf → option PathBuf) (node : AgentNode.t) (handle : option string)
    : TreeM unit :=
  _ ← fail_if (bool_decide (is_Some (AgentNode.parent node))) SpawnError.InvalidConfig;
  node ← lift (admit_node canonicalize (AgentNode.set_parent None node));
  s ← get_state;
  _ ← fail_if (any_value (λ n, bool_decide (AgentNode.kind n = AgentKind.Root)) (nodes s)) SpawnError.TreeStateInvalid;
  _ ← fail_if (bool_decide (is_Some (nodes s !! AgentNode.id node))) SpawnError.AlreadyExists;
  _ ← fail_if (MAX_AGENTS_PER_STORE <=? Z.of_nat (size (nodes s))) SpawnError.TreeStateInvalid;
  let id := AgentNode.id node in
  _ ← bind_handle id handle;
  _ ← modify (set_nodes <[id := node]>);
  _ ← modify (set_children (or_default id));
  modify bump.

Definition insert_child_with_handle (canonicalize : PathBuf → option PathBuf) (parent : string) (node : AgentNode.t)
    (handle : option string) : TreeM unit :=
  _ ← fail_if (bool_decide (AgentNode.parent node ≠ Some parent)) SpawnError.InvalidConfig;
  node ← lift (admit_node canonicalize (AgentNode.set_parent (Some parent) node));
  s ← get_state;
  parent_node ← lift (ok_or (nodes s !! parent) SpawnError.ParentNotFound);
  _ ← fail_if (bool_decide (AgentNode.status parent_node ∈ [AgentStatus.Terminated; AgentStatus.Failed]))
        SpawnError.TreeStateInvalid;
  _ ← fail_if (bool_decide (AgentNode.kind parent_node = AgentKind.Sub)) SpawnError.TreeStateInvalid;
  _ ← fail_if (bool_decide (is_Some (nodes s !! AgentNode.id node))) SpawnError.AlreadyExists;
  _ ← fail_if (any_value (λ existing, bool_decide (AgentNode.workspace_path existing = AgentNode.workspace_path node))
                 (nodes s)) SpawnError.AlreadyExists;
  _ ← fail_if (MAX_AGENTS_PER_STORE <=? Z.of_nat (size (nodes s))) SpawnError.TreeStateInvalid;
  let id := AgentNode.id node in
  _ ← bind_handle id handle;
  _ ← modify (set_nodes <[id := node]>);
  _ ← modify (set_children (λ m, <[parent := default [] (m !! parent) ++ [id]]> m));
  _ ← modify (set_children (or_default id));
  modify bump.
End inserting.

(** *** Changing and removing *)

Definition remove (id : string) : TreeM AgentNode.t :=
  s ← get_state;
  node ← lift (ok_or (nodes s !! id) SpawnError.TreeStateInvalid);
  _ ← fail_if (bool_decide (default [] (children_by_parent s !! id) ≠ [])) SpawnError.TreeStateInvalid;
  _ ← modify (set_nodes (delete id));
  _ ← modify (set_children (delete id));
  _ ← modify (unbind_handle id);
  _ ← modify (set_children (λ m,
        match AgentNode.parent node with
        | Some parent => alter (List.filter (λ c, negb (String.eqb c id))) parent m
        | None => m
        end));
  _ ← modify bump;
  mret node.

Definition set_status (id : string) (status : AgentStatus.t) : TreeM unit :=
  s ← get_state;
  _ ← lift (ok_or (nodes s !! id) SpawnError.TreeStateInvalid);
  _ ← modify (set_nodes (alter (AgentNode.set_status status) id));
  modify bump.

Definition set_handle (id handle : string) : TreeM unit :=
  s ← get_state;
  _ ← fail_if (bool_decide (nodes s !! id = None)) SpawnError.TreeStateInvalid;
  if String.eqb (handle_of s id) handle then mret tt
  else
    _ ← lift (validate_agent_id handle);
    _ ← fail_if (bool_decide (is_Some (by_handle s !! handle))) SpawnError.AlreadyExists;
    _ ← modify (unbind_handle id);
    _ ← bind_handle id (Some handle);
    modify bump.

(** *** Queries of the store *)

Definition contains (id : string) (s : AgentTreeInner.t) : bool := bool_decide (is_Some (nodes s !! id)).
Definition get_node (id : string) (s : AgentTreeInner.t) : option AgentNode.t := nodes s !! id.
Definition tree_len (s : AgentTreeInner.t) : Z := Z.of_nat (size (nodes s)).

(** [AgentTreeStore::handle]. *)
Definition handle (id : string) (s : AgentTreeInner.t) : option string :=
  if contains id s then Some (handle_of s id) else None.

Definition node_by_handle (handle : string) (s : AgentTreeInner.t) : option AgentNode.t :=
  id ← by_handle s !! handle; nodes s !! id.

(** ** The snapshot *)

Definition sort_children (kids : list string) : list string := merge_sort str_le kids.

(** The map of one agent: its template, to the last sibling sharing it. *)
Definition peer_map_of (nodes : gmap string AgentNode.t) (a_id a_template : string) (siblings : list string)
    : gmap string string :=
  foldl (λ peer_map s_id,
    if String.eqb s_id a_id then peer_map
    else match s_node ← nodes !! s_id; AgentNode.template_ref s_node with
         | Some s_template =>
             if String.eqb s_template a_template then <[a_template := s_id]> peer_map else peer_map
         | None => peer_map
         end) ∅ siblings.

Definition build_peer_slug_map (nodes : gmap string AgentNode.t) (children_of : gmap string (list string))
    (parent_of : gmap string (option string)) : gmap string (gmap string string) :=
  map_imap (λ a_id a_node,
    parent ← mjoin (parent_of !! a_id);
    a_template ← AgentNode.template_ref a_node;
    siblings ← children_of !! parent;
    let peer_map := peer_map_of nodes a_id a_template siblings in
    if bool_decide (peer_map = ∅) then None else Some peer_map) nodes.

Section preorder.
Context (nodes_map : gmap string AgentNode.t) (children_of : gmap string (list string)).

(** [for x in l { f(x, out) }], where [f] may not return. *)
Fixpoint for_out {A} (f : A → list AgentNode.t → option (list AgentNode.t)) (l : list A) (out : list AgentNode.t)
    : option (list AgentNode.t) :=
  match l with
  | [] => Some out
  | x :: l => out ← f x out; for_out f l out
  end.

(** [fuel] bounds the depth of the recursion. *)
Fixpoint push_preorder (fuel : nat) (id : string) (out : list AgentNode.t) : option (list AgentNode.t) :=
  match fuel with
  | O => None
  | S fuel =>
      let out := match nodes_map !! id with Some node => out ++ [node] | None => out end in
      match children_of !! id with
      | Some kids => for_out (push_preorder fuel) (sort_children kids) out
      | None => Some out
      end
  end.

Definition build_preorder_nodes (parent_of : gmap string (option string)) : option (list AgentNode.t) :=
  let roots := sort_children (omap (λ '(id, p), match p with None => Some id | Some _ => None end) (map_to_list parent_of)) in
  for_out (push_preorder (S (size nodes_map))) roots [].
End preorder.

(** [None] is a walk deeper than the number of agents, which would not end. *)
Definition snapshot (s : AgentTreeInner.t) : option AgentTreeSnapshotData.t :=
  let parent_of := AgentNode.parent <$> nodes s in
  let children_of := sort_children <$> children_by_parent s in
  let peer_slug_map := build_peer_slug_map (nodes s) children_of parent_of in
  nodes_list ← build_preorder_nodes (nodes s) children_of parent_of;
  Some (AgentTreeSnapshotData.mk nodes_list parent_of children_of peer_slug_map (handles s) (revision s)).

(** ** Readers *)

(** The trait [AgentTreeReader]. *)
Class AgentTreeReader (R : Type) := {
  reader_parent_of : R → string → option string;
  reader_children_of : R → string → list string;
  reader_siblings_of : R → string → list string;
  reader_agent_exists : R → string → bool;
  reader_agent_kind : R → string → option AgentKind.t;
  reader_capabilities : R → string → list Capability.t;
  reader_handle_of : R → string → option string;
  reader_id_by_handle : R → string → option string
}.

(** [if validate_agent_id(agent_id).is_err() { return none }]. *)
Definition when_valid {A} (agent_id : string) (none a : A) : A :=
  if is_ok (validate_agent_id agent_id) then a else none.

Definition other_than (id : string) (l : list string) : list string := List.filter (λ c, negb (String.eqb c id)) l.

#[export] Instance live_reader : AgentTreeReader AgentTreeInner.t := {|
  reader_parent_of s a := when_valid a None (n ← nodes s !! a; AgentNode.parent n);
  reader_children_of s a := when_valid a [] (default [] (children_by_parent s !! a));
  reader_siblings_of s a := when_valid a []
    (match n ← nodes s !! a; AgentNode.parent n with
     | Some parent => default [] (other_than a <$> children_by_parent s !! parent)
     | None => []
     end);
  reader_agent_exists s a := when_valid a false (bool_decide (is_Some (nodes s !! a)));
  reader_agent_kind s a := when_valid a None (AgentNode.kind <$> nodes s !! a);
  reader_capabilities s a := when_valid a [] (default [] (AgentNode.capabilities <$> nodes s !! a));
  reader_handle_of s a := handle a s;
  reader_id_by_handle s h := by_handle s !! h
|}.

(** [data.nodes.iter().find(p)]. *)
Definition find_node (p : AgentNode.t → bool) (d : AgentTreeSnapshotData.t) : option AgentNode.t :=
  List.find p (AgentTreeSnapshotData.nodes d).

#[export] Instance snapshot_reader : AgentTreeReader AgentTreeSnapshotData.t := {|
  reader_parent_of d a := when_valid a None (mjoin (AgentTreeSnapshotData.parent_of d !! a));
  reader_children_of d a := when_valid a [] (default [] (AgentTreeSnapshotData.children_of d !! a));
  reader_siblings_of d a := when_valid a []
    (match mjoin (AgentTreeSnapshotData.parent_of d !! a) with
     | Some parent => default [] (other_than a <$> AgentTreeSnapshotData.children_of d !! parent)
     | None => []
     end);
  reader_agent_exists d a := when_valid a false (bool_decide (is_Some (AgentTreeSnapshotData.parent_of d !! a)));
  reader_agent_kind d a := when_valid a None (AgentNode.kind <$> find_node (λ n, String.eqb (AgentNode.id n) a) d);
  reader_capabilities d a :=
    when_valid a [] (default [] (AgentNode.capabilities <$> find_node (λ n, String.eqb (AgentNode.id n) a) d));
  reader_handle_of d a :=
    if existsb (λ n, String.eqb (AgentNode.id n) a) (AgentTreeSnapshotData.nodes d)
    then Some (AgentTreeSnapshotData.handle_of d a) else None;
  reader_id_by_handle d h :=
    AgentNode.id <$> find_node (λ n, String.eqb (AgentTreeSnapshotData.handle_of d (AgentNode.id n)) h) d
|}.
