(* ===== verification/AgentTreeFacts.v ===== *)
(** * Facts about the agent tree

    What each operation of [AgentTree] does when it succeeds, that a failed one
    does nothing, and the invariant of the store: the parent links form a
    forest, the index of children is their inverse, and the handles name the
    agents one to one. *)
From S2P Require Import Prelude RustStr Projection AgentTree.
Import AgentTreeInner.
Open Scope string_scope.
Open Scope list_scope.
Open Scope Z_scope.

(** ** The parent relation *)

Definition parent_rel (s : AgentTreeInner.t) (c p : string) : Prop :=
  ∃ n, nodes s !! c = Some n ∧ AgentNode.parent n = Some p.

Definition in_tree (s : AgentTreeInner.t) (i : string) : Prop := is_Some (nodes s !! i).

(** What the checks of an insertion leave true of the node. *)
Record node_ok (root : PathBuf) (n : AgentNode.t) : Prop := {
  node_id : validate_agent_id (AgentNode.id n) = Ok tt;
  node_capabilities : size_of (AgentNode.capabilities n) ≤ MAX_CAPABILITIES;
  node_depth : size_of (normal_names (AgentNode.workspace_path n)) ≤ MAX_PATH_DEPTH;
  node_hidden s : s ∈ normal_names (AgentNode.workspace_path n) → is_workspace_hidden_name s = false;
  node_under : path_starts_with root (AgentNode.workspace_path n) = true
}.

(** Parents come first in [order]: no chain of parents returns to its start. *)
Record forest (nodes : gmap string AgentNode.t) (children : gmap string (list string)) : Prop := {
  forest_ids i n : nodes !! i = Some n → AgentNode.id n = i;
  forest_parents i n p : nodes !! i = Some n → AgentNode.parent n = Some p →
    ∃ pn, nodes !! p = Some pn ∧ AgentNode.kind pn ≠ AgentKind.Sub;
  forest_dom p : is_Some (children !! p) ↔ is_Some (nodes !! p);
  forest_kids p l : children !! p = Some l →
    NoDup l ∧ ∀ c, c ∈ l ↔ ∃ n, nodes !! c = Some n ∧ AgentNode.parent n = Some p;
  forest_order : ∃ order, NoDup order ∧ (∀ i, i ∈ order ↔ is_Some (nodes !! i)) ∧
    ∀ k1 c k2 n p, order = k1 ++ c :: k2 → nodes !! c = Some n → AgentNode.parent n = Some p → p ∈ k1
}.

(** The handles of the agents in [P], and of no other. *)
Record named (P : string → Prop) (handles by_handle : gmap string string) : Prop := {
  named_own i h : handles !! i = Some h → P i ∧ h ≠ i;
  named_iff h i : by_handle !! h = Some i ↔ P i ∧ default i (handles !! i) = h;
  named_valid h i : by_handle !! h = Some i → validate_agent_id h = Ok tt
}.

Record tree_ok (root : PathBuf) (s : AgentTreeInner.t) : Prop := {
  ok_forest : forest (nodes s) (children_by_parent s);
  ok_named : named (in_tree s) (handles s) (by_handle s);
  ok_nodes i n : nodes s !! i = Some n → node_ok root n;
  ok_size : Z.of_nat (size (nodes s)) ≤ MAX_AGENTS_PER_STORE;
  ok_revision : 0 ≤ revision s ≤ U64_MAX
}.

(** ** Names *)

Lemma named_proper P Q hs bh : (∀ i, P i ↔ Q i) → named P hs bh → named Q hs bh.
Proof.
  intros HPQ [Hown Hiff Hval]. split; [|intros h i; rewrite Hiff, HPQ; done|done].
  intros i h Hi. rewrite <- HPQ. by apply Hown.
Qed.

Lemma named_bind (P : string → Prop) hs bh i h :
  named P hs bh → ¬ P i → validate_agent_id h = Ok tt → bh !! h = None →
  named (λ j, P j ∨ j = i) ((if String.eqb h i then delete i else <[i := h]>) hs) (<[h := i]> bh).
Proof.
  intros [Hown Hiff Hval] Hi Hh Hfree.
  assert (∀ j, default j ((if String.eqb h i then delete i else <[i:=h]>) hs !! j) = if decide (j = i) then h else default j (hs !! j))
    as Hdef.
  { intros j. destruct (String.eqb_spec h i) as [->|Hne]; destruct (decide (j = i)) as [->|].
    - by rewrite lookup_delete_eq.
    - by rewrite lookup_delete_ne.
    - by rewrite lookup_insert_eq.
    - by rewrite lookup_insert_ne. }
  split.
  - intros j k. destruct (String.eqb_spec h i) as [->|Hne].
    + rewrite lookup_delete_Some. intros [? Hk]. apply Hown in Hk. naive_solver.
    + rewrite lookup_insert_Some. intros [[<- <-]|[? Hk]]; [by split; [right|]|]. apply Hown in Hk. naive_solver.
  - intros k j. rewrite Hdef, lookup_insert_Some, Hiff. destruct (decide (j = i)) as [->|Hj]; split; intros Hk.
    + split; [by right|]. naive_solver.
    + left. naive_solver.
    + naive_solver.
    + right. destruct Hk as [[?|?] Hk]; [|done]. split; [|done]. intros <-.
      assert (bh !! h = Some j) by by apply Hiff. congruence.
  - intros k j. rewrite lookup_insert_Some. intros [[<- <-]|[_ Hk]]; [done|by eapply Hval].
Qed.

Lemma named_unbind (P : string → Prop) hs bh i :
  named P hs bh → P i →
  named (λ j, P j ∧ j ≠ i) (delete i hs) (delete (default i (hs !! i)) bh).
Proof.
  intros [Hown Hiff Hval] Hi. split.
  - intros j k. rewrite lookup_delete_Some. intros [? Hk]. apply Hown in Hk. naive_solver.
  - intros k j. rewrite lookup_delete_Some, Hiff. split.
    + intros (Hk & Hj & Hd). destruct (decide (j = i)) as [->|]; [done|]. by rewrite lookup_delete_ne.
    + intros ([Hj Hji] & Hd). rewrite lookup_delete_ne in Hd by done. split_and!; [|done..].
      intros Hk. apply Hji. assert (bh !! k = Some j) by by apply Hiff. assert (bh !! k = Some i) by by apply Hiff. congruence.
  - intros k j. rewrite lookup_delete_Some. intros [_ Hk]. by eapply Hval.
Qed.

(** An agent answers to its handle and to no other. *)
Lemma named_lookup P hs bh i : named P hs bh → P i → bh !! default i (hs !! i) = Some i.
Proof. intros Hn Hi. by apply (named_iff _ _ _ Hn). Qed.

(** ** What a successful operation did *)

Definition bound (id : string) (handle : option string) (s : AgentTreeInner.t) : AgentTreeInner.t :=
  let h := default id handle in
  set_by_handle <[h := id]> (set_handles (if String.eqb h id then delete id else <[id := h]>) s).

(** Whether [h] may name [id]. *)
Definition bindable (id h : string) (s : AgentTreeInner.t) : result SpawnError.t unit :=
  _ ← validate_agent_id h;
  guard_err (bool_decide (by_handle s !! h ≠ None ∧ by_handle s !! h ≠ Some id)) SpawnError.AlreadyExists.

(** A handle is bound as a whole or not at all. *)
Lemma bind_handle_run id h s :
  bind_handle id h s =
    match bindable id (default id h) s with Ok _ => (Ok tt, bound id h s) | Err e => (Err e, s) end.
Proof.
  unfold bind_handle, bindable, bound, fail_if. run. destruct (validate_agent_id (default id h)); [|done].
  destruct (by_handle s !! default id h) as [o|].
  - destruct (String.eqb_spec o id) as [->|Hne]; cbn [negb].
    + rewrite bool_decide_eq_false_2 by naive_solver. done.
    + rewrite bool_decide_eq_true_2 by naive_solver. done.
  - rewrite bool_decide_eq_false_2 by naive_solver. done.
Qed.

(** The checks of an insertion against the store. *)
Definition root_fits (node : AgentNode.t) (handle : option string) (s : AgentTreeInner.t) : result SpawnError.t unit :=
  _ ← guard_err (any_value (λ n, bool_decide (AgentNode.kind n = AgentKind.Root)) (nodes s)) SpawnError.TreeStateInvalid;
  _ ← guard_err (bool_decide (is_Some (nodes s !! AgentNode.id node))) SpawnError.AlreadyExists;
  _ ← guard_err (MAX_AGENTS_PER_STORE <=? Z.of_nat (size (nodes s))) SpawnError.TreeStateInvalid;
  bindable (AgentNode.id node) (default (AgentNode.id node) handle) s.

Definition child_fits (parent : string) (node : AgentNode.t) (handle : option string) (s : AgentTreeInner.t)
    : result SpawnError.t unit :=
  parent_node ← ok_or (nodes s !! parent) SpawnError.ParentNotFound;
  _ ← guard_err (bool_decide (AgentNode.status parent_node ∈ [AgentStatus.Terminated; AgentStatus.Failed]))
        SpawnError.TreeStateInvalid;
  _ ← guard_err (bool_decide (AgentNode.kind parent_node = AgentKind.Sub)) SpawnError.TreeStateInvalid;
  _ ← guard_err (bool_decide (is_Some (nodes s !! AgentNode.id node))) SpawnError.AlreadyExists;
  _ ← guard_err (any_value (λ existing, bool_decide (AgentNode.workspace_path existing = AgentNode.workspace_path node))
                   (nodes s)) SpawnError.AlreadyExists;
  _ ← guard_err (MAX_AGENTS_PER_STORE <=? Z.of_nat (size (nodes s))) SpawnError.TreeStateInvalid;
  bindable (AgentNode.id node) (default (AgentNode.id node) handle) s.

(** Decide the next early return of the goal. *)
Ltac guard_step :=
  match goal with
  | |- context [if ?b then Err _ else Ok _] => destruct b; [done|]
  end.

(** The store with the node in it. *)
Definition with_node (push : gmap string (list string) → gmap string (list string)) (node : AgentNode.t)
    (handle : option string) (s : AgentTreeInner.t) : AgentTreeInner.t :=
  let id := AgentNode.id node in
  bump (set_children (or_default id) (set_children push (set_nodes <[id := node]> (bound id handle s)))).

Definition push_child (parent id : string) (m : gmap string (list string)) : gmap string (list string) :=
  <[parent := default [] (m !! parent) ++ [id]]> m.

Lemma insert_root_run root canon node h s :
  insert_root_with_handle root canon node h s =
    match (_ ← guard_err (bool_decide (is_Some (AgentNode.parent node))) SpawnError.InvalidConfig;
           node ← admit_node root canon (AgentNode.set_parent None node);
           _ ← root_fits node h s; Ok node) with
    | Ok node => (Ok tt, with_node id node h s)
    | Err e => (Err e, s)
    end.
Proof.
  unfold insert_root_with_handle, root_fits, with_node, fail_if. run. cbv [result_bind]. guard_step.
  destruct (admit_node root canon _) as [n|]; [|done]. do 3 guard_step. rewrite bind_handle_run.
  by destruct (bindable _ _ s).
Qed.

Lemma insert_child_run root canon parent node h s :
  insert_child_with_handle root canon parent node h s =
    match (_ ← guard_err (bool_decide (AgentNode.parent node ≠ Some parent)) SpawnError.InvalidConfig;
           node ← admit_node root canon (AgentNode.set_parent (Some parent) node);
           _ ← child_fits parent node h s; Ok node) with
    | Ok node => (Ok tt, with_node (push_child parent (AgentNode.id node)) node h s)
    | Err e => (Err e, s)
    end.
Proof.
  unfold insert_child_with_handle, child_fits, with_node, fail_if. run. cbv [result_bind]. guard_step.
  destruct (admit_node root canon _) as [n|]; [|done]. destruct (nodes s !! parent) as [pn|]; [|done].
  do 5 guard_step. rewrite bind_handle_run. by destruct (bindable _ _ s).
Qed.

(** The store without a leaf. *)
Definition without_node (id : string) (node : AgentNode.t) (s : AgentTreeInner.t) : AgentTreeInner.t :=
  bump (set_children (λ m,
          match AgentNode.parent node with Some p => alter (other_than id) p m | None => m end)
    (unbind_handle id (set_children (delete id) (set_nodes (delete id) s)))).

Lemma remove_run id s :
  remove id s =
    match nodes s !! id with
    | Some node =>
        if bool_decide (default [] (children_by_parent s !! id) = []) then (Ok node, without_node id node s)
        else (Err SpawnError.TreeStateInvalid, s)
    | None => (Err SpawnError.TreeStateInvalid, s)
    end.
Proof.
  unfold remove, without_node, fail_if. run. destruct (nodes s !! id) as [n|]; [|done].
  case_bool_decide as Hk; case_bool_decide; done.
Qed.

Lemma set_status_run id st s :
  set_status id st s =
    if bool_decide (in_tree s id) then (Ok tt, bump (set_nodes (alter (AgentNode.set_status st) id) s))
    else (Err SpawnError.TreeStateInvalid, s).
Proof.
  unfold set_status, in_tree. run. destruct (nodes s !! id) as [n|].
  - by rewrite bool_decide_eq_true_2.
  - rewrite bool_decide_eq_false_2; [done|]. by intros [].
Qed.

Lemma set_handle_run id h s :
  set_handle id h s =
    if bool_decide (nodes s !! id = None) then (Err SpawnError.TreeStateInvalid, s)
    else if String.eqb (handle_of s id) h then (Ok tt, s)
    else match (_ ← validate_agent_id h;
                guard_err (bool_decide (is_Some (by_handle s !! h))) SpawnError.AlreadyExists) with
         | Ok _ => (Ok tt, bump (bound id (Some h) (unbind_handle id s)))
         | Err e => (Err e, s)
         end.
Proof.
  unfold set_handle, fail_if. run. cbv [result_bind]. destruct (bool_decide (nodes s !! id = None)); [done|].
  destruct (String.eqb (handle_of s id) h); [done|]. destruct (validate_agent_id h) as [[]|] eqn:Hv; [|done].
  destruct (bool_decide (is_Some (by_handle s !! h))) eqn:Hh; [done|]. rewrite bind_handle_run.
  assert (bindable id h (unbind_handle id s) = Ok tt) as Hb; [|by simpl default; rewrite Hb].
  unfold bindable. rewrite Hv. simpl. apply guard_err_Ok, bool_decide_eq_false. apply bool_decide_eq_false in Hh.
  apply eq_None_not_Some in Hh. intros [Hn _]. apply Hn. unfold unbind_handle. case_bool_decide; [|done].
  simpl. by rewrite lookup_delete_None, Hh; right.
Qed.

(** ** The forest *)

(** An element that occurs once has one position. *)
Lemma NoDup_split {A} (x : A) k1 k2 l1 l2 :
  NoDup (k1 ++ x :: k2) → k1 ++ x :: k2 = l1 ++ x :: l2 → k1 = l1.
Proof.
  revert l1. induction k1 as [|a k1 IH]; intros [|b l1] Hnd; simpl; intros [= Heq].
  - done.
  - subst. apply NoDup_cons in Hnd as [[] _]. set_solver.
  - subst. apply NoDup_cons in Hnd as [[] _]. set_solver.
  - subst. f_equal. apply NoDup_cons in Hnd as [_ Hnd]. by eapply IH.
Qed.

Lemma forest_new : forest ∅ ∅.
Proof.
  split; [done..| |done|].
  - intros p. by rewrite !lookup_empty.
  - exists []. split_and!; [constructor| |by intros []]. intros i. rewrite lookup_empty, elem_of_nil. split; [done|by intros []].
Qed.

Lemma forest_add ns ch ch' i n :
  forest ns ch → ns !! i = None → AgentNode.id n = i →
  (∀ p, AgentNode.parent n = Some p → ∃ pn, ns !! p = Some pn ∧ AgentNode.kind pn ≠ AgentKind.Sub) →
  (∀ q, ch' !! q = if decide (q = i) then Some []
                   else if decide (AgentNode.parent n = Some q) then Some (default [] (ch !! q) ++ [i]) else ch !! q) →
  forest (<[i := n]> ns) ch'.
Proof.
  intros [Hids Hpar Hdom Hkids (order & Hnd & Hin & Hord)] Hfresh Hid Hp Hch.
  assert (∀ p, AgentNode.parent n = Some p → p ≠ i) as Hpi by (intros p Hpn ->; apply Hp in Hpn; naive_solver congruence).
  split.
  - intros j m. rewrite lookup_insert_Some. naive_solver.
  - intros j m p Hj Hm. assert (∃ pn, ns !! p = Some pn ∧ AgentNode.kind pn ≠ AgentKind.Sub) as (pn & Hpn & Hk).
    { apply lookup_insert_Some in Hj as [[<- <-]|[_ Hj]]; [by apply Hp|by eapply Hpar]. }
    exists pn. split; [|done]. rewrite lookup_insert_ne by congruence. done.
  - intros q. rewrite Hch, lookup_insert_is_Some. destruct (decide (q = i)) as [->|Hq]; [naive_solver|].
    case_decide as Hqp; [|rewrite Hdom; naive_solver]. apply Hp in Hqp as (pn & ? & _). naive_solver.
  - intros q l. rewrite Hch. assert (∀ m, ns !! i = Some m → False) as Hno by congruence.
    destruct (decide (q = i)) as [->|Hq]; [|case_decide as Hqp].
    + intros [= <-]. split; [constructor|]. intros c. rewrite elem_of_nil. split; [done|].
      intros (m & [[<- <-]|[_ Hm]]%lookup_insert_Some & Hmp); [by eapply Hpi|]. destruct (Hpar c m i Hm Hmp) as (? & ? & _). eauto.
    + intros [= <-]. apply Hp in Hqp as Hq'. destruct Hq' as (pn & Hpn & _).
      destruct (proj2 (Hdom q)) as [l Hl]; [by exists pn|]. rewrite Hl. simpl. destruct (Hkids q l Hl) as [Hndl Hl'].
      split.
      * apply NoDup_app. split_and!; [done| |apply NoDup_singleton]. intros c (m & Hm & _)%Hl' ->%list_elem_of_singleton. eauto.
      * intros c. rewrite elem_of_app, list_elem_of_singleton, Hl'. setoid_rewrite lookup_insert_Some. split.
        -- intros [(m & Hm & Hmp)| ->]; [|by exists n; split; [left|]]. exists m. split; [|done]. right. split; [|done]. intros <-. eauto.
        -- intros (m & [[<- <-]|[_ Hm]] & Hmp); [by right|left; by exists m].
    + intros Hl. destruct (Hkids q l Hl) as [Hndl Hl']. split; [done|]. intros c. rewrite Hl'.
      setoid_rewrite lookup_insert_Some. split; intros (m & Hm & Hmp).
      * exists m. split; [|done]. right. split; [|done]. intros <-. eauto.
      * destruct Hm as [[<- <-]|[_ Hm]]; [done|by exists m].
  - exists (order ++ [i]). split_and!.
    + apply NoDup_app. split_and!; [done| |apply NoDup_singleton]. intros c Hc ->%list_elem_of_singleton. apply Hin in Hc as [??]. congruence.
    + intros j. rewrite elem_of_app, list_elem_of_singleton, lookup_insert_is_Some, Hin.
      destruct (decide (j = i)) as [->|]; naive_solver.
    + intros k1 c k2 m p Heq Hc Hm.
      destruct (decide (k2 = [])) as [->|Hne].
      * apply app_inj_tail in Heq as [<- <-]. rewrite lookup_insert_eq in Hc. injection Hc as <-.
        apply Hin. destruct (Hp p Hm) as (pn & ? & _). by exists pn.
      * destruct k2 as [|b k2 _] using rev_ind; [done|]. rewrite app_comm_cons, app_assoc in Heq.
        apply app_inj_tail in Heq as [Heq _]. eapply Hord; [exact Heq| |exact Hm].
        rewrite lookup_insert_ne in Hc; [done|]. intros <-. assert (i ∈ order) as [??]%Hin by (rewrite Heq; set_solver). congruence.
Qed.

Lemma forest_remove ns ch ch' i n :
  forest ns ch → ns !! i = Some n → default [] (ch !! i) = [] →
  (∀ q, ch' !! q = if decide (q = i) then None
                   else if decide (AgentNode.parent n = Some q) then other_than i <$> ch !! q else ch !! q) →
  forest (delete i ns) ch'.
Proof.
  intros [Hids Hpar Hdom Hkids (order & Hnd & Hin & Hord)] Hi Hleaf Hch.
  assert (∀ c m, ns !! c = Some m → AgentNode.parent m = Some i → False) as Hno.
  { intros c m Hc Hm. destruct (proj2 (Hdom i)) as [l Hl]; [by exists n|]. rewrite Hl in Hleaf. simpl in Hleaf. subst.
    destruct (Hkids i [] Hl) as [_ Hl']. apply (not_elem_of_nil c), Hl'. by exists m. }
  split.
  - intros j m [_ Hj]%lookup_delete_Some. by apply Hids.
  - intros j m p [_ Hj]%lookup_delete_Some Hm. destruct (Hpar j m p Hj Hm) as (pn & Hpn & Hk).
    exists pn. split; [|done]. rewrite lookup_delete_ne; [done|]. intros <-. eauto.
  - intros q. rewrite Hch, lookup_delete_is_Some. destruct (decide (q = i)) as [->|Hq]; [split; [by intros []|naive_solver]|].
    case_decide; rewrite ?fmap_is_Some, Hdom; naive_solver.
  - intros q l. rewrite Hch. destruct (decide (q = i)) as [|Hq]; [done|].
    assert (∀ c, (∃ m, delete i ns !! c = Some m ∧ AgentNode.parent m = Some q) ↔
      c ≠ i ∧ ∃ m, ns !! c = Some m ∧ AgentNode.parent m = Some q) as Heq.
    { intros c. setoid_rewrite lookup_delete_Some. naive_solver. }
    setoid_rewrite Heq. case_decide as Hqp.
    + intros (l0 & Hl & ->)%fmap_Some. destruct (Hkids q l0 Hl) as [Hndl Hl'].
      unfold other_than. split.
      * by apply NoDup_ListNoDup, List.NoDup_filter, NoDup_ListNoDup.
      * intros c. rewrite list_elem_of_In, filter_In, <- list_elem_of_In, Hl', negb_true_iff, String.eqb_neq. tauto.
    + intros Hl. destruct (Hkids q l Hl) as [Hndl Hl']. split; [done|]. intros c. rewrite Hl'. split; [|naive_solver].
      intros (m & Hm & Hmp). split; [intros ->; naive_solver congruence|by exists m].
  - exists (filter (λ c, c ≠ i) order). split_and!.
    + by apply NoDup_filter.
    + intros j. rewrite list_elem_of_filter, Hin, lookup_delete_is_Some. naive_solver.
    + intros k1 c k2 m p Heq [Hci Hc]%lookup_delete_Some Hm.
      assert (c ∈ order) as (j1 & j2 & ->)%list_elem_of_split by (apply Hin; by exists m).
      rewrite filter_app, filter_cons_True in Heq by done.
      assert (p ∈ filter (λ c, c ≠ i) j1) as Hp.
      { apply list_elem_of_filter. split; [intros ->; eauto|]. by eapply Hord. }
      assert (k1 = filter (λ c, c ≠ i) j1) as ->; [|done]. symmetry. eapply NoDup_split; [|exact Heq].
      rewrite <- (filter_cons_True (λ c, c ≠ i)), <- filter_app by done. by apply NoDup_filter.
Qed.

(** A change that keeps every agent's id, kind and parent. *)
Lemma forest_alter ns ch f i :
  forest ns ch →
  (∀ n, AgentNode.id (f n) = AgentNode.id n ∧ AgentNode.kind (f n) = AgentNode.kind n ∧ AgentNode.parent (f n) = AgentNode.parent n) →
  forest (alter f i ns) ch.
Proof.
  intros [Hids Hpar Hdom Hkids (order & Hnd & Hin & Hord)] Hf.
  assert (∀ j m', alter f i ns !! j = Some m' → ∃ m, ns !! j = Some m ∧ AgentNode.id m' = AgentNode.id m ∧
    AgentNode.kind m' = AgentNode.kind m ∧ AgentNode.parent m' = AgentNode.parent m) as Hback.
  { intros j m' [(-> & m & Hm & ->)|[_ Hm]]%lookup_alter_Some; [destruct (Hf m) as (?&?&?); by exists m|by exists m']. }
  assert (∀ j m, ns !! j = Some m → ∃ m', alter f i ns !! j = Some m' ∧
    AgentNode.kind m' = AgentNode.kind m ∧ AgentNode.parent m' = AgentNode.parent m) as Hthere.
  { intros j m Hm. destruct (decide (j = i)) as [->|].
    - exists (f m). destruct (Hf m) as (?&?&?). by rewrite lookup_alter_eq, Hm.
    - exists m. by rewrite lookup_alter_ne. }
  split.
  - intros j m' (m & Hm & -> & _)%Hback. by apply Hids.
  - intros j m' p (m & Hm & _ & _ & ->)%Hback Hp. destruct (Hpar j m p Hm Hp) as (pn & Hpn & Hk).
    destruct (Hthere p pn Hpn) as (pn' & ? & Hk' & _). exists pn'. split; [done|congruence].
  - intros p. rewrite Hdom. split; intros [m Hm]; [destruct (Hthere p m Hm) as (m' & ? & _)|destruct (Hback p m Hm) as (m' & ? & _)]; by exists m'.
  - intros p l Hl. destruct (Hkids p l Hl) as [? Hl']. split; [done|]. intros c. rewrite Hl'. split; intros (m & Hm & Hmp).
    + destruct (Hthere c m Hm) as (m' & ? & _ & ?). exists m'. split; [done|congruence].
    + destruct (Hback c m Hm) as (m' & ? & _ & _ & ?). exists m'. split; [done|congruence].
  - exists order. split_and!; [done| |].
    + intros j. rewrite Hin. split; intros [m Hm]; [destruct (Hthere j m Hm) as (m' & ? & _)|destruct (Hback j m Hm) as (m' & ? & _)]; by exists m'.
    + intros k1 c k2 m' p Heq (m & Hm & _ & _ & ->)%Hback. by apply (Hord k1 c k2).
Qed.

(** ** Every operation keeps the invariant *)

Lemma admit_node_Ok root canon n n' :
  admit_node root canon n = Ok n' →
  node_ok root n' ∧ AgentNode.id n' = AgentNode.id n ∧ AgentNode.parent n' = AgentNode.parent n ∧
  AgentNode.kind n' = AgentNode.kind n ∧ AgentNode.status n' = AgentNode.status n ∧
  canon (AgentNode.workspace_path n) = Some (AgentNode.workspace_path n').
Proof.
  unfold admit_node, validate_node_common, canonicalize_workspace_path, check_workspace_path_constraints.
  intros Hrun. steps. b2p. injection Hrun as <-. destruct x, x1, x2, x3, x4.
  match goal with H : try_for _ _ = _ |- _ => apply try_for_Ok in H; rewrite Forall_forall in H; rename H into Hall end.
  rewrite Z.ltb_ge in *. split_and!; try done. split; simpl; try done.
  intros s Hs. by apply Hall, guard_err_Ok in Hs.
Qed.

Lemma bindable_Ok id h s u :
  bindable id h s = Ok u → validate_agent_id h = Ok tt ∧ (by_handle s !! h = None ∨ by_handle s !! h = Some id).
Proof.
  unfold bindable. intros ([] & Hv & Hb%guard_err_Ok%bool_decide_eq_false)%bind_Ok. split; [done|].
  destruct (decide (by_handle s !! h = None)); [by left|]. right. destruct (decide (by_handle s !! h = Some id)); [done|tauto].
Qed.

Lemma ok_bump root s : tree_ok root s → tree_ok root (bump s).
Proof. intros []. split; simpl; try done. unfold U64_MAX in *. lia. Qed.

Lemma with_node_ok root push node h s :
  tree_ok root s → node_ok root node → nodes s !! AgentNode.id node = None →
  Z.of_nat (size (nodes s)) < MAX_AGENTS_PER_STORE →
  bindable (AgentNode.id node) (default (AgentNode.id node) h) s = Ok tt →
  (∀ p, AgentNode.parent node = Some p → ∃ pn, nodes s !! p = Some pn ∧ AgentNode.kind pn ≠ AgentKind.Sub) →
  push = match AgentNode.parent node with Some p => push_child p (AgentNode.id node) | None => id end →
  tree_ok root (with_node push node h s).
Proof.
  intros [Hf Hn Hnodes Hsize Hrev] Hnode Hfresh Hroom [Hvalid Hfree]%bindable_Ok Hp ->. unfold with_node. apply ok_bump.
  split; simpl.
  - eapply forest_add; [exact Hf|done..|]. intros q.
    assert (AgentNode.parent node ≠ Some (AgentNode.id node)) as Hself.
    { intros Hq. apply Hp in Hq as (pn & ? & _). congruence. }
    assert (children_by_parent s !! AgentNode.id node = None) as Hnone.
    { apply eq_None_not_Some. rewrite (forest_dom _ _ Hf). rewrite Hfresh. by intros []. }
    unfold or_default, push_child. destruct (AgentNode.parent node) as [p|]; simpl.
    + rewrite (lookup_insert_ne _ p (AgentNode.id node)), Hnone by congruence. simpl.
      destruct (decide (q = AgentNode.id node)) as [->|Hq]; [by rewrite lookup_insert_eq|].
      rewrite lookup_insert_ne by done. case_decide as Hpq.
      * injection Hpq as <-. by rewrite lookup_insert_eq.
      * by rewrite lookup_insert_ne by congruence.
    + destruct (decide (q = AgentNode.id node)) as [->|Hq]; [by rewrite lookup_insert_eq, Hnone|].
      by rewrite lookup_insert_ne.
  - eapply named_proper; [|apply (named_bind (in_tree s))]; [|exact Hn| |exact Hvalid|].
    + intros i. unfold in_tree. simpl. rewrite lookup_insert_is_Some. destruct (decide (AgentNode.id node = i)); naive_solver.
    + unfold in_tree. rewrite Hfresh. by intros [].
    + destruct Hfree as [Hfree|Hfree]; [exact Hfree|]. apply (named_iff _ _ _ Hn) in Hfree as [[? Hin] _].
      unfold in_tree in Hin. congruence.
  - intros i n [[<- <-]|[_ Hi]]%lookup_insert_Some; [done|by eapply Hnodes].
  - rewrite map_size_insert_None by done. lia.
  - done.
Qed.

Lemma without_node_ok root id n s :
  tree_ok root s → nodes s !! id = Some n → default [] (children_by_parent s !! id) = [] →
  tree_ok root (without_node id n s).
Proof.
  intros [Hf Hn Hnodes Hsize Hrev] Hid Hleaf. unfold without_node. apply ok_bump.
  assert (in_tree s id) as Hin by by exists n.
  assert (unbind_handle id (set_children (delete id) (set_nodes (delete id) s)) =
    set_by_handle (delete (handle_of s id)) (set_handles (delete id) (set_children (delete id) (set_nodes (delete id) s)))) as ->.
  { unfold unbind_handle. simpl. rewrite bool_decide_eq_true_2; [done|]. by apply (named_lookup _ _ _ _ Hn). }
  split; simpl.
  - eapply forest_remove; [exact Hf|done..|]. intros q.
    assert (AgentNode.parent n ≠ Some id) as Hself.
    { intros Hp. destruct (forest_order _ _ Hf) as (order & Hnd & Hord & Hfirst).
      assert (id ∈ order) as (k1 & k2 & ->)%list_elem_of_split by by apply Hord.
      apply (Hfirst k1 id k2 n id) in Hp; [|done..]. apply NoDup_app in Hnd as (_ & Hnd & _). apply (Hnd id Hp). left. }
    destruct (AgentNode.parent n) as [p|]; simpl.
    + destruct (decide (q = p)) as [->|Hq].
      * rewrite lookup_alter_eq. rewrite lookup_delete_ne by congruence. rewrite decide_False by congruence.
        by rewrite decide_True.
      * rewrite lookup_alter_ne by done. destruct (decide (q = id)) as [->|Hqi]; [apply lookup_delete_eq|].
        rewrite decide_False by congruence. by apply lookup_delete_ne.
    + destruct (decide (q = id)) as [->|Hqi]; [apply lookup_delete_eq|]. by apply lookup_delete_ne.
  - eapply named_proper; [|apply (named_unbind (in_tree s)); [exact Hn|exact Hin]].
    intros i. unfold in_tree. simpl. rewrite lookup_delete_is_Some. naive_solver.
  - intros i m [_ Hi]%lookup_delete_Some. by eapply Hnodes.
  - rewrite map_size_delete, Hid. lia.
  - done.
Qed.

(** ** Histories *)

(** One call of a write operation. *)
Inductive tree_action :=
| InsertRoot (canonicalize : PathBuf → option PathBuf) (node : AgentNode.t) (handle : option string)
| InsertChild (canonicalize : PathBuf → option PathBuf) (parent : string) (node : AgentNode.t) (handle : option string)
| Remove (id : string)
| SetStatus (id : string) (status : AgentStatus.t)
| SetHandle (id handle : string).

Definition tree_act (root : PathBuf) (a : tree_action) : TreeM unit :=
  match a with
  | InsertRoot canon node h => insert_root_with_handle root canon node h
  | InsertChild canon parent node h => insert_child_with_handle root canon parent node h
  | Remove id => _ ← remove id; mret tt
  | SetStatus id st => set_status id st
  | SetHandle id h => set_handle id h
  end.

(** The store after a sequence of calls, whatever each answered. *)
Definition tree_run (root : PathBuf) (acts : list tree_action) (s : AgentTreeInner.t) : AgentTreeInner.t :=
  foldl (λ s a, (tree_act root a s).2) s acts.

(** A refused call changed nothing. *)
Lemma tree_act_Err root a s e s' : tree_act root a s = (Err e, s') → s' = s.
Proof.
  destruct a as [canon n h|canon p n h|i|i st|i h]; simpl;
    rewrite ?insert_root_run, ?insert_child_run, ?set_status_run, ?set_handle_run; cbv [mbind M_bind]; rewrite ?remove_run;
    repeat case_match; naive_solver.
Qed.

(** What an accepted call did, by kind of call. *)
Inductive tree_step (root : PathBuf) (s : AgentTreeInner.t) : tree_action → AgentTreeInner.t → Prop :=
| step_root canon node node' h :
    admit_node root canon (AgentNode.set_parent None node) = Ok node' → AgentNode.parent node = None →
    root_fits node' h s = Ok tt → tree_step root s (InsertRoot canon node h) (with_node id node' h s)
| step_child canon parent node node' h :
    admit_node root canon (AgentNode.set_parent (Some parent) node) = Ok node' → AgentNode.parent node = Some parent →
    child_fits parent node' h s = Ok tt →
    tree_step root s (InsertChild canon parent node h) (with_node (push_child parent (AgentNode.id node')) node' h s)
| step_remove i n :
    nodes s !! i = Some n → default [] (children_by_parent s !! i) = [] → tree_step root s (Remove i) (without_node i n s)
| step_status i st :
    in_tree s i → tree_step root s (SetStatus i st) (bump (set_nodes (alter (AgentNode.set_status st) i) s))
| step_same i :
    in_tree s i → tree_step root s (SetHandle i (handle_of s i)) s
| step_handle i h :
    in_tree s i → handle_of s i ≠ h → validate_agent_id h = Ok tt → by_handle s !! h = None →
    tree_step root s (SetHandle i h) (bump (bound i (Some h) (unbind_handle i s))).

Lemma tree_act_Ok root a s u s' : tree_act root a s = (Ok u, s') → tree_step root s a s'.
Proof.
  destruct a as [canon n h|canon p n h|i|i st|i h]; simpl.
  - rewrite insert_root_run. destruct (_ ≫= _) as [n'|] eqn:Hrun; [|done]. intros [= _ <-]. steps. injection Hrun as ->.
    b2p. destruct x1. constructor; [done| |done]. by apply eq_None_not_Some.
  - rewrite insert_child_run. destruct (_ ≫= _) as [n'|] eqn:Hrun; [|done]. intros [= _ <-]. steps. injection Hrun as ->.
    b2p. destruct x1. constructor; [done| |done]. by apply dec_stable.
  - unfold mbind, M_bind. rewrite remove_run. destruct (nodes s !! i) as [n|] eqn:Hn; [|done]. case_bool_decide; [|done].
    intros [= _ <-]. by constructor.
  - rewrite set_status_run. case_bool_decide; [|done]. intros [= _ <-]. by constructor.
  - rewrite set_handle_run. case_bool_decide as Hn; [done|].
    assert (in_tree s i) as Hi by by apply not_eq_None_Some.
    destruct (String.eqb_spec (handle_of s i) h) as [<-|Hne]; [intros [= _ <-]; by constructor|].
    destruct (_ ≫= _) as [[]|] eqn:Hrun; [|done]. intros [= _ <-]. apply bind_Ok in Hrun as ([] & Hv & Hh%guard_err_Ok). b2p.
    constructor; try done. by apply eq_None_not_Some.
Qed.

Lemma root_fits_Ok node h s :
  root_fits node h s = Ok tt →
  (∀ i n, nodes s !! i = Some n → AgentNode.kind n ≠ AgentKind.Root) ∧ nodes s !! AgentNode.id node = None ∧
  Z.of_nat (size (nodes s)) < MAX_AGENTS_PER_STORE ∧
  bindable (AgentNode.id node) (default (AgentNode.id node) h) s = Ok tt.
Proof.
  unfold root_fits. intros Hrun. steps. b2p. split_and!; [|by apply eq_None_not_Some|lia|done].
  intros i n Hn Hk. apply not_true_iff_false in H. apply H. unfold any_value. apply existsb_exists. exists n. split; [|by case_bool_decide].
  apply list_elem_of_In, list_elem_of_fmap. exists (i, n). split; [done|]. by apply elem_of_map_to_list.
Qed.

Lemma child_fits_Ok p node h s :
  child_fits p node h s = Ok tt →
  (∃ pn, nodes s !! p = Some pn ∧ AgentNode.kind pn ≠ AgentKind.Sub ∧
    AgentNode.status pn ≠ AgentStatus.Terminated ∧ AgentNode.status pn ≠ AgentStatus.Failed) ∧
  nodes s !! AgentNode.id node = None ∧
  (∀ i n, nodes s !! i = Some n → AgentNode.workspace_path n ≠ AgentNode.workspace_path node) ∧
  Z.of_nat (size (nodes s)) < MAX_AGENTS_PER_STORE ∧
  bindable (AgentNode.id node) (default (AgentNode.id node) h) s = Ok tt.
Proof.
  unfold child_fits. intros Hrun. steps. b2p. split_and!; [|by apply eq_None_not_Some| |lia|done].
  - exists x. split_and!; try done; set_solver.
  - intros i n Hn Hw. match goal with H : any_value _ _ = false |- _ => apply not_true_iff_false in H; apply H end.
    unfold any_value. apply existsb_exists. exists n. split; [|by case_bool_decide].
    apply list_elem_of_In, list_elem_of_fmap. exists (i, n). split; [done|]. by apply elem_of_map_to_list.
Qed.

Lemma ok_new root : tree_ok root tree_new.
Proof.
  split; simpl; [apply forest_new|..|done|unfold MAX_AGENTS_PER_STORE; rewrite map_size_empty; lia|unfold U64_MAX; lia].
  split; [done| |done]. intros h i. unfold in_tree. simpl. split; [done|by intros [[] _]].
Qed.

Lemma unbind_handle_run root i s :
  tree_ok root s → in_tree s i →
  unbind_handle i s = set_by_handle (delete (handle_of s i)) (set_handles (delete i) s).
Proof.
  intros Hok Hi. unfold unbind_handle. rewrite bool_decide_eq_true_2; [done|]. by apply (named_lookup _ _ _ _ (ok_named _ _ Hok)).
Qed.

Lemma tree_step_ok root s a s' : tree_ok root s → tree_step root s a s' → tree_ok root s'.
Proof.
  intros Hok [canon n n' h Hadm Hp Hfit|canon p n n' h Hadm Hp Hfit|i n Hi Hleaf|i st Hi|i Hi|i h Hi Hne Hv Hfree].
  - apply admit_node_Ok in Hadm as (Hnode & Hid & Hpar & _). apply root_fits_Ok in Hfit as (_ & ? & ? & ?). simpl in *.
    apply with_node_ok; rewrite ?Hpar; try done.
  - apply admit_node_Ok in Hadm as (Hnode & Hid & Hpar & _). apply child_fits_Ok in Hfit as ((pn & ? & ? & _) & ? & _ & ? & ?).
    simpl in *. apply with_node_ok; rewrite ?Hpar; try done. intros q [= <-]. by exists pn.
  - by apply without_node_ok.
  - apply ok_bump. destruct Hok as [Hf Hn Hnodes Hsize Hrev]. split; simpl; [|..|done].
    + by apply forest_alter.
    + eapply named_proper; [|exact Hn]. intros j. unfold in_tree. simpl. by rewrite lookup_alter_is_Some.
    + intros j m [(-> & k & Hk & ->)|[_ Hm]]%lookup_alter_Some; [|by eapply Hnodes]. destruct (Hnodes j k Hk). by split.
    + by rewrite <- (size_dom (D := gset string)), dom_alter_L, size_dom.
  - done.
  - apply ok_bump. rewrite (unbind_handle_run root) by done. destruct Hok as [Hf Hn Hnodes Hsize Hrev].
    split; simpl; [done| |done..]. eapply named_proper; [|eapply named_bind]; [| |  |exact Hv|].
    2: { apply (named_unbind (in_tree s)); [exact Hn|exact Hi]. }
    + intros j. unfold in_tree. simpl. destruct (decide (j = i)); naive_solver.
    + intros [_ []]. done.
    + by rewrite lookup_delete_None, Hfree; right.
Qed.

Lemma tree_run_ok root acts s : tree_ok root s → tree_ok root (tree_run root acts s).
Proof.
  revert s. induction acts as [|a acts IH]; intros s Hok; [done|]. simpl. apply IH.
  destruct (tree_act root a s) as [[u|e] s'] eqn:Hrun; simpl.
  - eapply tree_step_ok; [done|]. by eapply tree_act_Ok.
  - by apply tree_act_Err in Hrun as ->.
Qed.

Lemma tree_reach_ok root acts : tree_ok root (tree_run root acts tree_new).
Proof. apply tree_run_ok, ok_new. Qed.

(** ** The forest as a relation *)

Lemma parent_rel_fun s c p q : parent_rel s c p → parent_rel s c q → p = q.
Proof. intros (n & Hn & Hp) (m & Hm & Hq). congruence. Qed.

Lemma parent_rel_in_tree s c p : forest (nodes s) (children_by_parent s) → parent_rel s c p → in_tree s c ∧ in_tree s p.
Proof. intros Hf (n & Hn & Hp). destruct (forest_parents _ _ Hf c n p Hn Hp) as (pn & ? & _). split; [by exists n|by exists pn]. Qed.

(** A height for every agent, below that of its parent. *)
Lemma forest_rank s :
  forest (nodes s) (children_by_parent s) →
  ∃ rank : string → nat, (∀ c p, parent_rel s c p → (rank c < rank p)%nat) ∧
    (∀ i, (rank i ≤ size (nodes s))%nat) ∧ (∀ i, in_tree s i → (0 < rank i)%nat).
Proof.
  intros Hf. destruct (forest_order _ _ Hf) as (order & Hnd & Hin & Hord).
  exists (λ i, match list_find (i =.) order with Some (k, _) => length order - k | None => 0 end)%nat.
  assert (length order = size (nodes s)) as Hlen.
  { rewrite <- (size_dom (D := gset string)), <- (size_list_to_set (C := gset string) order) by done. f_equal.
    apply leibniz_equiv. intros i. by rewrite elem_of_list_to_set, elem_of_dom. }
  assert (∀ k1 i k2, order = k1 ++ i :: k2 → list_find (i =.) order = Some (length k1, i)) as Hfind.
  { intros k1 i k2 Heq. apply list_find_Some. rewrite Heq. split_and!; [by apply list_lookup_middle|done|].
    intros j y Hj Hlt <-. rewrite Heq in Hnd. apply NoDup_app in Hnd as (_ & Hnd & _). rewrite lookup_app_l in Hj by done.
    apply (Hnd i); [by eapply list_elem_of_lookup_2|left]. }
  split_and!.
  - intros c p Hcp. pose proof (parent_rel_in_tree s c p Hf Hcp) as [Hc Hp].
    assert (c ∈ order) as (k1 & k2 & Heq)%list_elem_of_split by by apply Hin.
    destruct Hcp as (n & Hn & Hnp). pose proof (Hord k1 c k2 n p Heq Hn Hnp) as (j1 & j2 & ->)%list_elem_of_split.
    rewrite (Hfind _ _ _ Heq). rewrite <- app_assoc in Heq. rewrite (Hfind _ _ _ Heq). rewrite Heq, !length_app. simpl. lia.
  - intros i. destruct (list_find _ _) as [[k ?]|]; [|lia]. lia.
  - intros i Hi. assert (i ∈ order) as (k1 & k2 & Heq)%list_elem_of_split by by apply Hin.
    rewrite (Hfind _ _ _ Heq), Heq, length_app. simpl. lia.
Qed.

Lemma forest_acyclic s a : forest (nodes s) (children_by_parent s) → ¬ tc (parent_rel s) a a.
Proof.
  intros (rank & Hrank & _)%forest_rank Htc. assert (∀ x y, tc (parent_rel s) x y → (rank x < rank y)%nat) as Hlt.
  { induction 1 as [x y Hxy|x y z Hxy _ IH]; [by apply Hrank|]. specialize (Hrank x y Hxy). lia. }
  specialize (Hlt a a Htc). lia.
Qed.

(** Two ancestors of one agent are one above the other. *)
Lemma ancestors_chain s c a b : rtc (parent_rel s) c a → rtc (parent_rel s) c b → rtc (parent_rel s) a b ∨ rtc (parent_rel s) b a.
Proof.
  intros Ha. revert b. induction Ha as [c|c p a Hcp Ha IH]; intros b Hb; [by left|].
  inversion Hb as [|? q ? Hcq Hqb]; subst; [right; by eapply rtc_l|]. rewrite (parent_rel_fun s c q p) in Hqb by done. by apply IH.
Qed.

Lemma parent_rel_kids s p l c :
  forest (nodes s) (children_by_parent s) → children_by_parent s !! p = Some l → c ∈ l ↔ parent_rel s c p.
Proof. intros Hf Hl. apply (forest_kids _ _ Hf p l Hl). Qed.

Lemma kids_default s p c :
  forest (nodes s) (children_by_parent s) → c ∈ default [] (children_by_parent s !! p) ↔ parent_rel s c p.
Proof.
  intros Hf. destruct (children_by_parent s !! p) as [l|] eqn:Hl; [by apply parent_rel_kids|]. simpl.
  split; [by intros ?%elem_of_nil|]. intros Hc. destruct (parent_rel_in_tree s c p Hf Hc) as [_ Hp].
  apply (forest_dom _ _ Hf) in Hp as [l Hl']. congruence.
Qed.
