(* ===== verification/AgentSnapshot.v ===== *)
(** * The snapshot of the agent tree

    The snapshot of a reachable store always exists, lists every agent once
    with its parent before it, and agrees with the store on every question a
    reader can ask. *)
From S2P Require Import Prelude RustStr Projection AgentTree AgentTreeFacts.
Import AgentTreeInner.
Open Scope string_scope.
Open Scope list_scope.
Open Scope Z_scope.

Lemma sort_children_Permutation l : sort_children l ≡ₚ l.
Proof. apply merge_sort_Permutation. Qed.

Lemma elem_sort_children c l : c ∈ sort_children l ↔ c ∈ l.
Proof. by rewrite sort_children_Permutation. Qed.

Lemma NoDup_sort_children l : NoDup (sort_children l) ↔ NoDup l.
Proof. by rewrite sort_children_Permutation. Qed.

#[export] Hint Rewrite elem_sort_children NoDup_sort_children : rust.

(** ** The walk *)

Section preorder_facts.
Context (s : AgentTreeInner.t) (Hf : forest (nodes s) (children_by_parent s)).
Context (rank : string → nat) (Hrank : ∀ c p, parent_rel s c p → (rank c < rank p)%nat).

Abbreviation ids := (fmap AgentNode.id).
Abbreviation walk := (push_preorder (nodes s) (sort_children <$> children_by_parent s)).

(** [l] lists the agents at or below one of [from], parents first. *)
Record lists_below (from : list string) (l : list AgentNode.t) : Prop := {
  lb_NoDup : NoDup (ids l);
  lb_nodes n : n ∈ l → nodes s !! AgentNode.id n = Some n;
  lb_mem i : i ∈ ids l ↔ in_tree s i ∧ ∃ f, f ∈ from ∧ rtc (parent_rel s) i f;
  lb_first k1 n k2 p : l = k1 ++ n :: k2 → AgentNode.parent n = Some p → AgentNode.id n ∈ from ∨ p ∈ ids k1
}.

Lemma below_siblings i a b : a ≠ b → (∀ p, parent_rel s a p ↔ parent_rel s b p) →
  rtc (parent_rel s) i a → rtc (parent_rel s) i b → False.
Proof.
  intros Hne Hsame Ha Hb. destruct (ancestors_chain s i a b Ha Hb) as [Hab|Hba].
  - inversion Hab as [|? p ? Hap Hpb]; subst; [done|]. apply (forest_acyclic s b Hf).
    apply tc_rtc_r with p; [by apply tc_once, Hsame|done].
  - inversion Hba as [|? p ? Hbp Hpa]; subst; [done|]. apply (forest_acyclic s a Hf).
    apply tc_rtc_r with p; [by apply tc_once, Hsame|done].
Qed.

(** A list of agents, none at or below another, is walked one after the other. *)
Lemma for_out_spec (f : string → list AgentNode.t → option (list AgentNode.t)) from out :
  NoDup from →
  (∀ a b i, a ∈ from → b ∈ from → a ≠ b → rtc (parent_rel s) i a → rtc (parent_rel s) i b → False) →
  (∀ a out, a ∈ from → ∃ l, f a out = Some (out ++ l) ∧ lists_below [a] l) →
  ∃ l, for_out f from out = Some (out ++ l) ∧ lists_below from l.
Proof.
  revert out. induction from as [|a from IH]; intros out Hnd Hapart Hf1; simpl.
  { exists []. rewrite app_nil_r. split; [done|]. split; [constructor|by intros n ?%elem_of_nil| |by intros []].
    intros i. simpl. rewrite elem_of_nil. split; [done|]. intros (_ & f0 & ?%elem_of_nil & _). done. }
  apply NoDup_cons in Hnd as [Ha Hnd]. destruct (Hf1 a out) as (la & -> & [Hnd1 Hn1 Hm1 Hp1]); [by left|]. simpl.
  destruct (IH (out ++ la)) as (l & -> & [Hnd2 Hn2 Hm2 Hp2]); [done| |by intros b o Hb; apply Hf1; right|].
  { intros b c i Hb Hc. apply Hapart; by right. }
  exists (la ++ l). rewrite app_assoc. split; [done|]. split.
  - rewrite fmap_app. apply NoDup_app. split_and!; [done| |done]. intros i Hi Hi2.
    apply Hm1 in Hi as (_ & f1 & ->%list_elem_of_singleton & Hr1). apply Hm2 in Hi2 as (_ & f2 & Hin2 & Hr2).
    apply (Hapart a f2 i); [by left|by right|by intros ->|done|done].
  - intros n [Hn|Hn]%elem_of_app; [by apply Hn1|by apply Hn2].
  - intros i. rewrite fmap_app, elem_of_app, Hm1, Hm2. split.
    + intros [(Hi & f1 & ->%list_elem_of_singleton & Hr)|(Hi & f2 & Hin & Hr)]; (split; [done|]); eexists; (split; [|exact Hr]); [left|by right].
    + intros (Hi & f1 & [->|Hin]%elem_of_cons & Hr); [left; split; [done|]; exists a; split; [by apply list_elem_of_singleton|done]|].
      right. split; [done|]. by exists f1.
  - intros k1 n k2 p Heq Hp. apply app_eq_inv in Heq as [(k & -> & Heq)|(k & -> & Heq)].
    + destruct k as [|n' k].
      * simpl in Heq. destruct (Hp2 [] n k2 p) as [?|?%elem_of_nil]; [by rewrite <- Heq|done|by left; right|done].
      * injection Heq as <- ->. destruct (Hp1 k1 n k p) as [->%list_elem_of_singleton|?]; [done|done|by left; left|by right].
    + destruct (Hp2 k n k2 p Heq Hp) as [?|?]; [by left; right|]. right. rewrite fmap_app. apply elem_of_app. by right.
Qed.

Lemma push_preorder_spec fuel : ∀ i out,
  in_tree s i → (rank i < fuel)%nat → ∃ l, walk fuel i out = Some (out ++ l) ∧ lists_below [i] l.
Proof.
  induction fuel as [|fuel IH]; intros i out Hi Hfuel; [lia|]. simpl. destruct Hi as [n Hn]. rewrite Hn.
  assert (in_tree s i) as Hi by by exists n.
  apply (forest_dom _ _ Hf) in Hi as [kids Hkids]. rewrite lookup_fmap, Hkids. simpl.
  assert (∀ c, c ∈ sort_children (sort_children kids) ↔ parent_rel s c i) as Hin.
  { intros c. autorewrite with rust. by apply parent_rel_kids. }
  pose proof (forest_ids _ _ Hf i n Hn) as Hid.
  destruct (for_out_spec (walk fuel) (sort_children (sort_children kids)) (out ++ [n])) as (l & -> & [Hnd Hl Hm Hp]).
  { autorewrite with rust. apply (forest_kids _ _ Hf i kids Hkids). }
  { intros a b j Ha%Hin Hb%Hin Hne. apply below_siblings; [done|].
    intros p. split; intros Hp; [by rewrite <- (parent_rel_fun s a i p)|by rewrite <- (parent_rel_fun s b i p)]. }
  { intros a o Ha%Hin. apply IH; [by apply (parent_rel_in_tree s a i Hf)|]. specialize (Hrank a i Ha). lia. }
  exists (n :: l). rewrite <- app_assoc. split; [done|].
  assert (i ∉ ids l) as Hfresh.
  { intros (_ & c & Hc%Hin & Hr)%Hm. apply (forest_acyclic s i Hf). apply tc_rtc_l with c; [done|by apply tc_once]. }
  split.
  - rewrite fmap_cons, Hid. by apply NoDup_cons.
  - intros m [->|Hm']%elem_of_cons; [by rewrite Hid|by apply Hl].
  - intros j. rewrite fmap_cons, elem_of_cons, Hid, Hm. setoid_rewrite list_elem_of_singleton. split.
    + intros [->|(Hj & c & Hc%Hin & Hr)]; [split; [by exists n|]; by exists i|]. split; [done|]. exists i. split; [done|].
      by eapply rtc_r.
    + intros (Hj & f & -> & Hr). destruct (decide (j = i)) as [|Hne]; [by left|right]. split; [done|].
      apply rtc_inv_r in Hr as [?|(c & Hr & Hc)]; [done|]. exists c. split; [by apply Hin|done].
  - intros k1 m k2 p Heq Hpm. destruct k1 as [|m' k1]; simpl in Heq; injection Heq as <- Heq.
    + left. rewrite Hid. by apply list_elem_of_singleton.
    + right. rewrite fmap_cons, Hid. destruct (Hp k1 m k2 p Heq Hpm) as [Hc%Hin|?]; [|by right].
      destruct Hc as (m' & Hm' & Hpi). assert (m ∈ l) as Hml by (rewrite Heq; set_solver). apply Hl in Hml.
      assert (p = i) as -> by congruence. left.
Qed.
End preorder_facts.

(** Every agent is at or below one that has no parent. *)
Lemma forest_top s i :
  forest (nodes s) (children_by_parent s) → in_tree s i →
  ∃ r n, rtc (parent_rel s) i r ∧ nodes s !! r = Some n ∧ AgentNode.parent n = None.
Proof.
  intros Hf. destruct (forest_rank s Hf) as (rank & Hrank & Hmax & _).
  remember (size (nodes s) - rank i)%nat as k eqn:Hk. revert i Hk.
  induction (lt_wf k) as [k _ IH]; intros i -> [n Hn]. destruct (AgentNode.parent n) as [p|] eqn:Hp; [|by exists i, n].
  assert (parent_rel s i p) as Hip by by exists n. specialize (Hrank i p Hip). specialize (Hmax p).
  destruct (IH (size (nodes s) - rank p)%nat) with p as (r & m & Hr & ? & ?); [lia|done|by apply (parent_rel_in_tree s i p Hf)|].
  exists r, m. split_and!; [|done..]. by eapply rtc_l.
Qed.

(** What a snapshot promises its readers. *)
Record snapshot_of (s : AgentTreeInner.t) (d : AgentTreeSnapshotData.t) : Prop := {
  so_NoDup : NoDup (AgentNode.id <$> AgentTreeSnapshotData.nodes d);
  so_nodes n : n ∈ AgentTreeSnapshotData.nodes d ↔ nodes s !! AgentNode.id n = Some n;
  so_first k1 n k2 p : AgentTreeSnapshotData.nodes d = k1 ++ n :: k2 → AgentNode.parent n = Some p →
    p ∈ AgentNode.id <$> k1;
  so_parents : AgentTreeSnapshotData.parent_of d = AgentNode.parent <$> nodes s;
  so_children : AgentTreeSnapshotData.children_of d = sort_children <$> children_by_parent s;
  so_handles : AgentTreeSnapshotData.handles d = handles s;
  so_peers : AgentTreeSnapshotData.peer_slug_map d =
    build_peer_slug_map (nodes s) (sort_children <$> children_by_parent s) (AgentNode.parent <$> nodes s);
  so_revision : AgentTreeSnapshotData.revision d = revision s
}.

Lemma NoDup_tops (ml : list (string * option string)) :
  NoDup ml.*1 → NoDup (omap (λ '(id, p), match p with None => Some id | Some _ => None end) ml).
Proof.
  induction ml as [|[j [q|]] ml IH]; intros Hkeys; [constructor|..]; apply NoDup_cons in Hkeys as [Hj Hkeys]; simpl.
  - by apply IH.
  - constructor; [|by apply IH]. intros ((j' & [q|]) & Hj' & Heq)%list_elem_of_omap; [done|]. injection Heq as ->.
    apply Hj, list_elem_of_fmap. by exists (j, None).
Qed.

Lemma snapshot_spec root s : tree_ok root s → ∃ d, snapshot s = Some d ∧ snapshot_of s d.
Proof.
  intros Hok. pose proof (ok_forest _ _ Hok) as Hf. destruct (forest_rank s Hf) as (rank & Hrank & Hmax & _).
  unfold snapshot, build_preorder_nodes. set (tops := omap _ _).
  assert (∀ i, i ∈ tops ↔ ∃ n, nodes s !! i = Some n ∧ AgentNode.parent n = None) as Htops.
  { intros i. unfold tops. rewrite list_elem_of_omap. split.
    - intros ((j & [q|]) & Hj & Heq); [done|]. injection Heq as ->. apply elem_of_map_to_list in Hj.
      rewrite lookup_fmap in Hj. apply fmap_Some in Hj as (n & ? & ?). by exists n.
    - intros (n & Hn & Hp). exists (i, None). split; [|done]. apply elem_of_map_to_list. by rewrite lookup_fmap, Hn, <- Hp. }
  destruct (for_out_spec s (push_preorder (nodes s) (sort_children <$> children_by_parent s) (S (size (nodes s))))
    (sort_children tops) []) as (l & -> & [Hnd Hl Hm Hp]).
  - autorewrite with rust. unfold tops. assert (NoDup ((map_to_list (AgentNode.parent <$> nodes s)).*1)) as Hkeys by apply NoDup_fst_map_to_list.
    by apply NoDup_tops.
  - intros a b i Ha Hb Hne. autorewrite with rust in *. rewrite Htops in *. apply (below_siblings s Hf); [done|].
    destruct Ha as (na & Ha & Hpa), Hb as (nb & Hb & Hpb). intros p. split; intros (m & Hm & Hmp); congruence.
  - intros a out Ha. autorewrite with rust in Ha. apply Htops in Ha as (n & Hn & _).
    apply (push_preorder_spec s Hf rank Hrank); [by exists n|]. specialize (Hmax a). lia.
  - eexists. split; [done|]. split; simpl; try done.
    + intros n. split; [apply Hl|]. intros Hn.
      assert (AgentNode.id n ∈ AgentNode.id <$> l) as (m & Hmid & Hml)%list_elem_of_fmap.
      { apply Hm. split; [by exists n|]. destruct (forest_top s (AgentNode.id n) Hf) as (r & m & Hr & Hrm & Hpm); [by exists n|].
        exists r. split; [|done]. autorewrite with rust. apply Htops. by exists m. }
      assert (m = n) as <-; [|done]. pose proof (Hl m Hml) as Hm'. congruence.
    + intros k1 n k2 p Heq Hnp. destruct (Hp k1 n k2 p Heq Hnp) as [Hin|?]; [|done].
      autorewrite with rust in Hin. apply Htops in Hin as (m & Hm' & Hmp). assert (n ∈ l) as Hnl by (rewrite Heq; set_solver).
      apply Hl in Hnl. congruence.
Qed.
