(* ===== verification/AgentTreeProps.v ===== *)
(** * Properties of the agent tree

    The theorems about the store of live agents and its readers, and about the
    two other components that walk the tree: the cascade of a run over the
    descendants of its agent. *)
From S2P Require Import Prelude RustStr Projection AgentTree AgentTreeFacts AgentSnapshot.
From S2P Require RunManager RunTree RunData.
Import AgentTreeInner.
Open Scope string_scope.
Open Scope list_scope.
Open Scope Z_scope.

(** ** The snapshot *)

(** The snapshot of a reachable store exists: the recursion over the
    children ends.  It lists each agent once, after its parent; its two maps
    have the agents as keys and are inverse to each other; children are sorted. *)
Theorem snapshot_exact root acts :
  let s := tree_run root acts tree_new in
  ∃ d, snapshot s = Some d ∧
    NoDup (AgentNode.id <$> AgentTreeSnapshotData.nodes d) ∧
    (∀ n, n ∈ AgentTreeSnapshotData.nodes d ↔ nodes s !! AgentNode.id n = Some n) ∧
    (∀ k1 n k2 p, AgentTreeSnapshotData.nodes d = k1 ++ n :: k2 → AgentNode.parent n = Some p → p ∈ AgentNode.id <$> k1) ∧
    (∀ i, is_Some (AgentTreeSnapshotData.parent_of d !! i) ↔ is_Some (nodes s !! i)) ∧
    (∀ i, is_Some (AgentTreeSnapshotData.children_of d !! i) ↔ is_Some (nodes s !! i)) ∧
    (∀ p l, AgentTreeSnapshotData.children_of d !! p = Some l →
       NoDup l ∧ StronglySorted str_le l ∧
       ∀ c, c ∈ l ↔ AgentTreeSnapshotData.parent_of d !! c = Some (Some p)).
Proof.
  intros s. assert (tree_ok root s) as Hok by apply tree_reach_ok. clearbody s. pose proof (ok_forest _ _ Hok) as Hf.
  destruct (snapshot_spec root s Hok) as (d & Hd & [Hnd Hn Hfirst Hp Hc _ _ _]). exists d.
  rewrite Hp, Hc. split_and!; [done..| | |].
  - intros i. by rewrite lookup_fmap, fmap_is_Some.
  - intros i. rewrite lookup_fmap, fmap_is_Some. apply (forest_dom _ _ Hf).
  - intros p l (kids & <- & Hkids)%lookup_fmap_Some. autorewrite with rust. split_and!.
    + apply (forest_kids _ _ Hf p kids Hkids).
    + apply (StronglySorted_merge_sort str_le).
    + intros c. autorewrite with rust. rewrite (parent_rel_kids s p kids c Hf Hkids), lookup_fmap, fmap_Some.
      split; [intros (n & ? & ?); by exists n|]. intros (n & ? & ?). by exists n.
Qed.

(** ** The two readers *)

Lemma find_node_id s d i :
  snapshot_of s d → find_node (λ n, String.eqb (AgentNode.id n) i) d =
    match nodes s !! i with Some n => if String.eqb (AgentNode.id n) i then Some n else None | None => None end.
Proof.
  intros Hso. unfold find_node. destruct (List.find _ _) as [n|] eqn:Hfind.
  - apply List.find_some in Hfind as [Hin%list_elem_of_In Hid]. apply (so_nodes _ _ Hso) in Hin. b2p. subst.
    by rewrite Hin, String.eqb_refl.
  - destruct (nodes s !! i) as [n|] eqn:Hn; [|done]. destruct (String.eqb_spec (AgentNode.id n) i) as [<-|]; [|done].
    apply (so_nodes _ _ Hso), list_elem_of_In in Hn. pose proof (List.find_none _ _ Hfind n Hn) as Hno.
    simpl in Hno. by rewrite String.eqb_refl in Hno.
Qed.

Lemma snapshot_lookup root s d i :
  tree_ok root s → snapshot_of s d → find_node (λ n, String.eqb (AgentNode.id n) i) d = nodes s !! i.
Proof.
  intros Hok Hso. rewrite (find_node_id s) by done. destruct (nodes s !! i) as [n|] eqn:Hn; [|done].
  by rewrite (forest_ids _ _ (ok_forest _ _ Hok) i n Hn), String.eqb_refl.
Qed.

Lemma find_existsb {A} (p : A → bool) l : existsb p l = bool_decide (is_Some (List.find p l)).
Proof.
  induction l as [|x l IH]; simpl; [done|]. by destruct (p x).
Qed.

(** The handle registry and the search through the snapshot find the same agent. *)
Lemma snapshot_by_handle root s d h :
  tree_ok root s → snapshot_of s d →
  AgentNode.id <$> find_node (λ n, String.eqb (AgentTreeSnapshotData.handle_of d (AgentNode.id n)) h) d = by_handle s !! h.
Proof.
  intros Hok Hso. assert (∀ i, AgentTreeSnapshotData.handle_of d i = default i (handles s !! i)) as Hh.
  { intros i. unfold AgentTreeSnapshotData.handle_of. by rewrite (so_handles _ _ Hso). }
  unfold find_node. destruct (List.find _ _) as [n|] eqn:Hfind; simpl.
  - apply List.find_some in Hfind as [Hin%list_elem_of_In Hid]. apply (so_nodes _ _ Hso) in Hin. b2p. rewrite Hh in Hid. symmetry.
    apply (named_iff _ _ _ (ok_named _ _ Hok)). split; [by exists n|done].
  - symmetry. apply eq_None_not_Some. intros [i Hi]. apply (named_iff _ _ _ (ok_named _ _ Hok)) in Hi as [[n Hn] Hi].
    pose proof (forest_ids _ _ (ok_forest _ _ Hok) i n Hn) as Hid.
    assert (n ∈ AgentTreeSnapshotData.nodes d) as Hin by (apply (so_nodes _ _ Hso); by rewrite Hid).
    apply list_elem_of_In in Hin. apply (List.find_none _ _ Hfind) in Hin. simpl in Hin. rewrite Hid, Hh, Hi in Hin.
    by rewrite String.eqb_refl in Hin.
Qed.

Lemma when_valid_Proper {A} (R : relation A) a (none x y : A) : R none none → R x y → R (when_valid a none x) (when_valid a none y).
Proof. unfold when_valid. by case_match. Qed.

#[export] Instance other_than_Permutation a : Proper ((≡ₚ) ==> (≡ₚ)) (other_than a).
Proof.
  unfold other_than. induction 1; simpl; [done|..]; repeat case_match; try done; [by constructor..|by etrans].
Qed.

(** A reader over the snapshot answers as a reader over the store it was
    taken of: the same parents, kinds, capabilities, handles and agents, and
    the same children and siblings up to their order. *)
Theorem snapshot_reader_agrees root acts :
  let s := tree_run root acts tree_new in
  ∃ d, snapshot s = Some d ∧ ∀ a,
    reader_parent_of d a = reader_parent_of s a ∧
    reader_agent_exists d a = reader_agent_exists s a ∧
    reader_agent_kind d a = reader_agent_kind s a ∧
    reader_capabilities d a = reader_capabilities s a ∧
    reader_handle_of d a = reader_handle_of s a ∧
    reader_id_by_handle d a = reader_id_by_handle s a ∧
    reader_children_of d a ≡ₚ reader_children_of s a ∧
    reader_siblings_of d a ≡ₚ reader_siblings_of s a.
Proof.
  intros s. assert (tree_ok root s) as Hok by apply tree_reach_ok. clearbody s.
  destruct (snapshot_spec root s Hok) as (d & Hd & Hso). exists d. split; [done|]. intros a.
  pose proof (snapshot_lookup root s d a Hok Hso) as Hnode. 
  pose proof (so_parents _ _ Hso) as Hp. pose proof (so_children _ _ Hso) as Hc. pose proof (so_handles _ _ Hso) as Hh.
  assert (∀ q, default [] (AgentTreeSnapshotData.children_of d !! q) ≡ₚ default [] (children_by_parent s !! q)) as Hkids.
  { intros q. rewrite Hc, lookup_fmap. destruct (children_by_parent s !! q); [apply sort_children_Permutation|done]. }
  assert (mjoin (AgentTreeSnapshotData.parent_of d !! a) = (n ← nodes s !! a; AgentNode.parent n)) as Hpar.
  { rewrite Hp, lookup_fmap. by destruct (nodes s !! a). }
  cbn [reader_parent_of reader_agent_exists reader_agent_kind reader_capabilities reader_handle_of reader_id_by_handle
       reader_children_of reader_siblings_of snapshot_reader live_reader].
  rewrite Hnode, Hpar. split_and!; try done.
  - f_equal. rewrite Hp, lookup_fmap. case_bool_decide; case_bool_decide; rewrite ?fmap_is_Some in *; tauto.
  - unfold handle, contains, AgentTreeSnapshotData.handle_of, handle_of. rewrite Hh, find_existsb.
    change (List.find _ _) with (find_node (λ n, String.eqb (AgentNode.id n) a) d). by rewrite Hnode.
  - by apply (snapshot_by_handle root).
  - by apply when_valid_Proper.
  - apply when_valid_Proper; [done|]. destruct (nodes s !! a ≫= _) as [q|]; [|done]. specialize (Hkids q).
    rewrite Hc, lookup_fmap in *. destruct (children_by_parent s !! q) as [l|]; [|done]. simpl in *.
    by rewrite Hkids.
Qed.

(** ** The walk of a run's cascade *)

(** What the cascade of the run manager reads of a snapshot. *)
Definition run_tree (d : AgentTreeSnapshotData.t) : RunManager.AgentTree :=
  RunManager.mkTree (AgentNode.id <$> AgentTreeSnapshotData.nodes d) (AgentTreeSnapshotData.children_of d).

Lemma run_tree_child root s d a c :
  tree_ok root s → snapshot_of s d → RunTree.child (RunTree.kids (run_tree d)) a c ↔ parent_rel s c a.
Proof.
  intros Hok Hso. unfold RunTree.child, RunTree.kids. simpl. rewrite (so_children _ _ Hso), lookup_fmap.
  rewrite <- (kids_default s a c (ok_forest _ _ Hok)). destruct (children_by_parent s !! a); [apply elem_sort_children|done].
Qed.

Lemma rtc_child root s d a x :
  tree_ok root s → snapshot_of s d → rtc (RunTree.child (RunTree.kids (run_tree d))) a x ↔ rtc (parent_rel s) x a.
Proof.
  intros Hok Hso. split.
  - induction 1 as [|a b x Hab _ IH]; [reflexivity|]. eapply rtc_r; [exact IH|]. by apply (run_tree_child root s d).
  - induction 1 as [|x y a Hxy _ IH]; [reflexivity|]. eapply rtc_r; [exact IH|]. by apply (run_tree_child root s d).
Qed.

(** C21: on the snapshot of a reachable store the cascade of a run never meets
    a cycle: whatever agent it starts from, it lists each agent below it
    exactly once, every agent after all those below it. *)
Theorem cascade_walk_answers root acts a :
  let s := tree_run root acts tree_new in
  ∃ d l, snapshot s = Some d ∧ RunManager.post_order_descendant_agents (run_tree d) a = Ok l ∧
    NoDup l ∧ (∀ x, x ∈ l ↔ tc (parent_rel s) x a) ∧
    (∀ k1 x k2 c, l = k1 ++ x :: k2 → parent_rel s c x → c ∈ k1).
Proof.
  intros s. assert (tree_ok root s) as Hok by apply tree_reach_ok. clearbody s.
  destruct (snapshot_spec root s Hok) as (d & Hd & Hso). pose proof (ok_forest _ _ Hok) as Hf.
  destruct (forest_rank s Hf) as (rank & Hrank & Hmax & _).
  destruct (RunTree.post_order_total (run_tree d) a rank) as (l & Hl).
  { intros x c _ Hxc. apply Hrank. by apply (run_tree_child root s d). }
  { simpl. rewrite length_fmap. trans (size (nodes s)); [apply Hmax|].
    assert (size (nodes s) = length (AgentTreeSnapshotData.nodes d)) as ->; [|lia].
    rewrite <- (size_dom (D := gset string)), <- (length_fmap AgentNode.id), <- (size_list_to_set (C := gset string)) by apply Hso.
    f_equal. apply leibniz_equiv. intros i. rewrite elem_of_dom, elem_of_list_to_set, list_elem_of_fmap. split.
    - intros [n Hn]. exists n. rewrite (so_nodes _ _ Hso). by rewrite (forest_ids _ _ Hf i n Hn).
    - intros (n & -> & Hn%(so_nodes _ _ Hso)). by exists n. }
  exists d, l. split_and!; [done..| | |]; apply RunTree.post_order_spec in Hl as (Hnd & Hmem & Hord & Hacyc).
  - done.
  - intros x. rewrite Hmem, (rtc_child root s d) by done. split.
    + intros [Hne Hr]. inversion Hr; subst; [done|]. by eapply tc_rtc_r; [apply tc_once|].
    + intros Htc. split; [|by apply tc_rtc]. intros ->. by apply (forest_acyclic s a Hf).
  - intros k1 x k2 c Heq Hc. eapply Hord; [exact Heq|]. by apply (run_tree_child root s d).
Qed.

(** ** Handles *)

Lemma handle_Some root s i h : tree_ok root s → handle i s = Some h ↔ by_handle s !! h = Some i.
Proof.
  intros Hok. rewrite (named_iff _ _ _ (ok_named _ _ Hok)). unfold handle, contains, handle_of, in_tree.
  case_bool_decide; naive_solver.
Qed.

(** C32: renaming.  A rename is refused, and changes nothing, exactly when the
    agent does not exist or the new name is malformed or another agent's.
    Otherwise the new name leads to the agent and back, the old one to nobody,
    and every other name and every node is as before. *)
Theorem set_handle_exact root acts i h :
  let s := tree_run root acts tree_new in
  (∀ e s', set_handle i h s = (Err e, s') →
     s' = s ∧ (get_node i s = None ∨ is_ok (validate_agent_id h) = false ∨ ∃ j, j ≠ i ∧ handle j s = Some h)) ∧
  (∀ s', set_handle i h s = (Ok tt, s') →
     is_Some (get_node i s) ∧ is_ok (validate_agent_id h) = true ∧ (∀ j, handle j s = Some h → j = i) ∧
     handle i s' = Some h ∧ node_by_handle h s' = get_node i s ∧
     (∀ old, handle i s = Some old → old ≠ h → node_by_handle old s' = None) ∧
     (∀ j, j ≠ i → handle j s' = handle j s) ∧ nodes s' = nodes s).
Proof.
  intros s. assert (tree_ok root s) as Hok by apply tree_reach_ok. clearbody s.
  pose proof (ok_named _ _ Hok) as Hn. split.
  - intros e s' Hrun. pose proof (tree_act_Err root (SetHandle i h) s e s' Hrun) as ->. split; [done|].
    rewrite set_handle_run in Hrun. case_bool_decide; [by left|]. right.
    destruct (String.eqb_spec (handle_of s i) h) as [|Hne]; [done|].
    destruct (validate_agent_id h) as [[]|]; [|by left]. right. simpl in Hrun.
    case_bool_decide as Ho; [|done]. destruct Ho as [j Hj]. exists j. split; [|by apply (handle_Some root)].
    intros ->. apply (named_iff _ _ _ Hn) in Hj as [_ Hj]. by apply Hne.
  - intros s' Hrun. pose proof (tree_act_Ok root (SetHandle i h) s tt s' Hrun) as Hstep.
    pose proof (tree_step_ok root s _ s' Hok Hstep) as Hok'. inversion Hstep as [| | | |? Hi Ha Hh|? ? Hi Hne Hv Hfree]; subst.
    + assert (handle i s' = Some (handle_of s' i)) as Hhi.
      { unfold handle, contains. by rewrite bool_decide_eq_true_2. }
      pose proof Hhi as Hbh. apply (handle_Some root) in Hbh; [|done].
      split_and!; try done.
      * by rewrite (named_valid _ _ _ Hn _ _ Hbh).
      * intros j Hj. apply (handle_Some root) in Hj; [|done]. congruence.
      * unfold node_by_handle. by rewrite Hbh.
      * intros old Hold Hne. rewrite Hhi in Hold. by injection Hold as <-.
    + rewrite (unbind_handle_run root) in * by done.
      assert (∀ k, by_handle (bump (bound i (Some h) (set_by_handle (delete (handle_of s i)) (set_handles (delete i) s)))) !! k =
        if decide (k = h) then Some i else if decide (k = handle_of s i) then None else by_handle s !! k) as Hby.
      { intros k. simpl. destruct (decide (k = h)) as [->|]; [by rewrite lookup_insert_eq|]. rewrite lookup_insert_ne by done.
        destruct (decide (k = handle_of s i)) as [->|]; [apply lookup_delete_eq|by rewrite lookup_delete_ne]. }
      split_and!; [done|by rewrite Hv| | | | | |done].
      * intros j Hj. apply (handle_Some root) in Hj; [|done]. congruence.
      * apply (handle_Some root); [done|]. by rewrite Hby, decide_True.
      * unfold node_by_handle. by rewrite Hby, decide_True.
      * intros old Hold Hneq. assert (old = handle_of s i) as ->.
        { unfold handle, contains in Hold. case_bool_decide; congruence. }
        unfold node_by_handle. by rewrite Hby, decide_False, decide_True.
      * intros j Hj. unfold handle, contains, handle_of. simpl.
        assert (∀ m : gmap string string, (if String.eqb h i then delete i else <[i:=h]>) m !! j = m !! j) as Hm.
        { intros m. case_match; [by rewrite lookup_delete_ne|by rewrite lookup_insert_ne]. }
        by rewrite Hm, lookup_delete_ne.
Qed.

(** ** The shape of the tree *)

(** The callers' discipline: the root is inserted as [Root], all others as
    [Child] or [Sub]. *)
Definition kinded (a : tree_action) : bool :=
  match a with
  | InsertRoot _ node _ => bool_decide (AgentNode.kind node = AgentKind.Root)
  | InsertChild _ _ node _ => bool_decide (AgentNode.kind node ≠ AgentKind.Root)
  | _ => true
  end.

(** At most one agent has no parent, it alone is a [Root], and no two agents
    share a workspace. *)
Record single (s : AgentTreeInner.t) : Prop := {
  single_kind i n : nodes s !! i = Some n → AgentNode.kind n = AgentKind.Root ↔ AgentNode.parent n = None;
  single_root i j n m : nodes s !! i = Some n → nodes s !! j = Some m →
    AgentNode.parent n = None → AgentNode.parent m = None → i = j;
  single_path i j n m : nodes s !! i = Some n → nodes s !! j = Some m →
    AgentNode.workspace_path n = AgentNode.workspace_path m → i = j
}.

Lemma single_sub s s' :
  single s →
  (∀ i n', nodes s' !! i = Some n' → ∃ n, nodes s !! i = Some n ∧ AgentNode.kind n' = AgentNode.kind n ∧
     AgentNode.parent n' = AgentNode.parent n ∧ AgentNode.workspace_path n' = AgentNode.workspace_path n) →
  single s'.
Proof.
  intros [Hk Hr Hp] Hsub. split.
  - intros i n' Hi. destruct (Hsub i n' Hi) as (n & Hn & -> & -> & _). by eapply Hk.
  - intros i j n' m' Hi Hj. destruct (Hsub i n' Hi) as (n & Hn & _ & -> & _), (Hsub j m' Hj) as (m & Hm & _ & -> & _).
    by apply Hr.
  - intros i j n' m' Hi Hj. destruct (Hsub i n' Hi) as (n & Hn & _ & _ & ->), (Hsub j m' Hj) as (m & Hm & _ & _ & ->).
    by apply Hp.
Qed.

Lemma single_step root s a s' : tree_ok root s → kinded a = true → tree_step root s a s' → single s → single s'.
Proof.
  intros Hok Hkd Hstep Hs.
  destruct Hstep as [canon n n' h Hadm Hp Hfit|canon p n n' h Hadm Hp Hfit|i n Hi Hleaf|i st Hi|i Hi|i h Hi Hne Hv Hfree]; simpl in Hkd; b2p.
  - apply admit_node_Ok in Hadm as (_ & Hid & Hpar & Hkind & _). apply root_fits_Ok in Hfit as (Hnone & Hfresh & _ & _). simpl in *.
    assert (∀ i m, nodes s !! i = Some m → False) as Hempty.
    { intros i m Hm. destruct (forest_top s i (ok_forest _ _ Hok)) as (r & k & _ & Hr & Hrp); [by exists m|].
      apply (Hnone r k Hr), (single_kind _ Hs r k Hr), Hrp. }
    split; simpl.
    + intros i m [[<- <-]|[_ Hm]]%lookup_insert_Some; [by rewrite Hkind, Hpar|by apply Hempty in Hm].
    + intros i j m k [[<- <-]|[_ Hm]]%lookup_insert_Some [[<- <-]|[_ Hk]]%lookup_insert_Some; try done; by edestruct Hempty.
    + intros i j m k [[<- <-]|[_ Hm]]%lookup_insert_Some [[<- <-]|[_ Hk]]%lookup_insert_Some; try done; by edestruct Hempty.
  - apply admit_node_Ok in Hadm as (_ & Hid & Hpar & Hkind & _).
    apply child_fits_Ok in Hfit as (_ & Hfresh & Hpath & _ & _). simpl in *.
    split; simpl.
    + intros i m [[<- <-]|[_ Hm]]%lookup_insert_Some; [|by eapply (single_kind _ Hs)]. rewrite Hkind, Hpar. done.
    + intros i j m k [[<- <-]|[_ Hm]]%lookup_insert_Some [[<- <-]|[_ Hk]]%lookup_insert_Some; try congruence. by apply (single_root _ Hs).
    + intros i j m k [[<- <-]|[_ Hm]]%lookup_insert_Some [[<- <-]|[_ Hk]]%lookup_insert_Some Heq; try done.
      * by destruct (Hpath j k Hk).
      * by destruct (Hpath i m Hm).
      * by eapply (single_path _ Hs).
  - eapply single_sub; [exact Hs|]. simpl. unfold unbind_handle. case_bool_decide; simpl; intros j m [_ Hm]%lookup_delete_Some; by exists m.
  - eapply single_sub; [exact Hs|]. simpl. intros j m [(-> & k & Hk & ->)|[_ Hm]]%lookup_alter_Some; [by exists k|by exists m].
  - done.
  - eapply single_sub; [exact Hs|]. simpl. unfold unbind_handle. case_bool_decide; simpl; intros j m Hm; by exists m.
Qed.

Lemma single_run root acts s : tree_ok root s → forallb kinded acts = true → single s → single (tree_run root acts s).
Proof.
  revert s. induction acts as [|a acts IH]; intros s Hok Hkd Hs; [done|]. simpl in Hkd. b2p. simpl.
  assert (tree_ok root (tree_act root a s).2) by apply (tree_run_ok root [a] s Hok).
  apply IH; [done..|]. destruct (tree_act root a s) as [[u|e] s'] eqn:Hrun; simpl.
  - eapply single_step; [exact Hok|done| |done]. by eapply tree_act_Ok.
  - by apply tree_act_Err in Hrun as ->.
Qed.

(** C22: the shape of every reachable tree.  Parents exist and are never
    [Sub] agents, no agent is its own ancestor, there are at most 1024 agents
    with valid ids under the workspace root, and handles name them one to one.
    When only the root is inserted as [Root], every agent descends from the
    one agent that is a [Root] and no two agents share a workspace. *)
Theorem agent_tree_well_formed root acts :
  let s := tree_run root acts tree_new in
  (∀ c p, parent_rel s c p → ∃ n, nodes s !! p = Some n ∧ AgentNode.kind n ≠ AgentKind.Sub) ∧
  (∀ a, ¬ tc (parent_rel s) a a) ∧
  tree_len s ≤ 1024 ∧
  (∀ i n, nodes s !! i = Some n →
     AgentNode.id n = i ∧ validate_agent_id i = Ok tt ∧ size_of (AgentNode.capabilities n) ≤ 64 ∧
     path_starts_with root (AgentNode.workspace_path n) = true ∧
     size_of (normal_names (AgentNode.workspace_path n)) ≤ 32 ∧
     ∃ h, handle i s = Some h ∧ node_by_handle h s = Some n) ∧
  (∀ i j h, handle i s = Some h → handle j s = Some h → i = j) ∧
  (forallb kinded acts = true →
     ∀ r n, nodes s !! r = Some n → AgentNode.kind n = AgentKind.Root →
     ∀ i m, nodes s !! i = Some m →
       rtc (parent_rel s) i r ∧
       ∀ j k, nodes s !! j = Some k → AgentNode.workspace_path k = AgentNode.workspace_path m → i = j).
Proof.
  intros s. assert (tree_ok root s) as Hok by apply tree_reach_ok. pose proof Hok as [Hf Hn Hnodes Hsize _].
  split_and!; [| |exact Hsize| | |].
  - intros c p (n & Hc & Hp). by apply (forest_parents _ _ Hf c n p).
  - intros a. by apply forest_acyclic.
  - intros i n Hi. pose proof (forest_ids _ _ Hf i n Hi) as Hid. destruct (Hnodes i n Hi) as [Hv Hcap Hdepth _ Hroot].
    rewrite Hid in Hv. split_and!; try done. exists (handle_of s i). split.
    + unfold handle, contains. by rewrite bool_decide_eq_true_2.
    + unfold node_by_handle, handle_of. pose proof (named_lookup _ _ _ i Hn) as Hl. by rewrite Hl by by exists n.
  - intros i j h Hi Hj. apply (handle_Some root) in Hi, Hj; try done. congruence.
  - intros Hkd. assert (single s) as Hs.
    { apply single_run; [apply ok_new|done|]. split; by intros. }
    intros r n Hr Hk i m Hi. apply (single_kind _ Hs r n Hr) in Hk. split.
    + destruct (forest_top s i Hf) as (r' & n' & Htop & Hr' & Hp'); [by exists m|].
      by rewrite (single_root _ Hs r r' n n').
    + intros j k Hj Hw. by apply (single_path _ Hs i j m k).
Qed.
