(* ===== verification/Terminate.v ===== *)
(** * Terminating an agent

    Models [crates/capabilities/cap-lifecycle/src/terminate.rs]: the
    controller that freezes a subtree of the live tree from the top, takes a
    snapshot and tears every agent down, children first, through the hooks it
    is wired to.  Each access to the tree and each call of a hook is atomic;
    before any of them other callers may have taken their turn: [others]
    lists what they do at each such point. *)
From S2P Require Import Prelude RustStr Projection AgentTree AgentTreeFacts.
Open Scope string_scope.
Open Scope list_scope.
Open Scope Z_scope.

(** Without the text of the messages. *)
Module LifecycleError.
Inductive t :=
| NotFound
| PermissionDenied
| IoFailure
| InvalidTarget
| RollbackGate
| CascadePartial.
#[global] Instance eq_dec : EqDecision t.
Proof. solve_decision. Defined.
End LifecycleError.

(** What the controller asks of its hooks and of the tree, in order; of an
    archiver's answer it goes on by whether it is [Ok]. *)
Module Call.
Inductive t :=
| AbortLoop (agent : string)
| CancelRun (agent : string)
| FlushMailbox (agent : string)
| RevokeForAgent (agent : string)
| ArchiveSubMemory (sub : string) (sub_workspace parent_workspace : PathBuf) (ok : bool)
| RemoveSubWorkspace (workspace_path : PathBuf)
| RemoveNode (agent : string)
| NotifyParentCrash (parent child reason : string).
End Call.

Section terminate.
Context {H : Type}.

(** The traits [GrantCascadeRevoke], [MailboxCascade], [RunCascade],
    [WorkspaceCleanup], [MemoryArchiver] and [LoopCascade], over the state [H]
    they act on; the last two may be missing. *)
Record Hooks := mkHooks {
  revoke_for_agent : string → M H LifecycleError.t unit;
  flush_mailbox : string → M H LifecycleError.t unit;
  notify_parent_crash : string → string → string → M H LifecycleError.t unit;
  cancel_run : string → M H LifecycleError.t unit;
  remove_sub_workspace : PathBuf → M H LifecycleError.t unit;
  archive_sub_memory : option (string → PathBuf → PathBuf → M H LifecycleError.t unit);
  abort_loop : option (string → H → H)
}.

(** One act of another caller. *)
Inductive other := InTree (a : tree_action) | Outside (f : H → H).

Record World := mkWorld {
  tree : AgentTreeInner.t;
  outside : H;
  others : list (list other);
  calls : list Call.t
}.

(** [None] in place of an error: the loop did not end within its fuel. *)
Abbreviation TM := (M World (option LifecycleError.t)).

Context (workspace_root : PathBuf) (hooks : Hooks).

(** ** Turns *)

Definition perform (o : other) (w : World) : World :=
  match o with
  | InTree a => mkWorld (tree_act workspace_root a (tree w)).2 (outside w) (others w) (calls w)
  | Outside f => mkWorld (tree w) (f (outside w)) (others w) (calls w)
  end.

(** The other callers' turn. *)
Definition turn (w : World) : World :=
  let w := foldl (flip perform) w (default [] (head (others w))) in
  mkWorld (tree w) (outside w) (tl (others w)) (calls w).

(** One atomic access to the tree. *)
Definition on_tree {E A} (sec : TreeM A) : M World E (result SpawnError.t A) := λ w,
  let w := turn w in
  let (r, s) := sec (tree w) in
  (Ok r, mkWorld s (outside w) (others w) (calls w)).

Definition read_tree {E A} (f : AgentTreeInner.t → A) : M World E A := λ w, let w := turn w in (Ok (f (tree w)), w).

(** One call of a hook, noted with what [c] makes of its answer. *)
Definition call_noted (c : result LifecycleError.t unit → Call.t) (f : M H LifecycleError.t unit)
    : TM (result LifecycleError.t unit) := λ w,
  let w := turn w in
  let (r, h) := f (outside w) in
  (Ok r, mkWorld (tree w) h (others w) (calls w ++ [c r])).

Definition call (c : Call.t) : M H LifecycleError.t unit → TM (result LifecycleError.t unit) := call_noted (λ _, c).

Definition note (c : Call.t) : TM unit := modify (λ w, mkWorld (tree w) (outside w) (others w) (calls w ++ [c])).

(** [hook()?]. *)
Definition call_or_fail (c : Call.t) (f : M H LifecycleError.t unit) : TM unit :=
  r ← call c f;
  match r with Ok _ => mret tt | Err e => throw (Some e) end.

Definition refuse_if (b : bool) (e : LifecycleError.t) : TM unit := fail_if b (Some e).

(** [None] is a loop that has not ended. *)
Definition returned {A} (o : option A) : TM A := lift (ok_or o None).

Definition take_snapshot : TM AgentTreeSnapshotData.t :=
  o ← read_tree snapshot;
  returned o.

(** ** Terminating *)

(** [while let Some((node, expanded)) = stack.pop()], the top of the stack first. *)
Fixpoint post_order (fuel : nat) (children_of : gmap string (list string)) (stack : list (string * bool)) (out : list string)
    : option (list string) :=
  match fuel with
  | O => None
  | S fuel =>
      match stack with
      | [] => Some out
      | (node, true) :: stack => post_order fuel children_of stack (out ++ [node])
      | (node, false) :: stack =>
          let stack := (node, true) :: stack in
          post_order fuel children_of
            (match children_of !! node with
             | Some kids => foldl (λ stack k, (k, false) :: stack) stack kids
             | None => stack
             end) out
      end
  end.

(** The freeze: [while let Some(id) = stack.pop()]. *)
Fixpoint freeze (fuel : nat) (stack : list string) : TM unit :=
  match fuel with
  | O => throw None
  | S fuel =>
      match stack with
      | [] => mret tt
      | id :: stack =>
          r ← on_tree (set_status id AgentStatus.Terminated);
          match r with
          | Err _ => freeze fuel stack
          | Ok _ =>
              children ← read_tree (λ s, reader_children_of s id);
              freeze fuel (foldl (λ stack c, c :: stack) stack children)
          end
      end
  end.

(** The end of a [Sub]: its memory is archived, then its workspace removed;
    a failed archive keeps the workspace. *)
Definition remove_sub (snap : AgentTreeSnapshotData.t) (node : AgentNode.t) : TM unit :=
  let id := AgentNode.id node in
  archive_ok ← (match archive_sub_memory hooks with
    | None => mret true
    | Some archiver =>
        match (pid ← AgentNode.parent node; AgentNode.workspace_path <$> find_node (λ n, String.eqb (AgentNode.id n) pid) snap) with
        | Some parent_ws =>
            r ← call_noted (λ r, Call.ArchiveSubMemory id (AgentNode.workspace_path node) parent_ws (is_ok r))
                  (archiver id (AgentNode.workspace_path node) parent_ws);
            mret (is_ok r)
        | None => mret false
        end
    end);
  if archive_ok : bool
  then call_or_fail (Call.RemoveSubWorkspace (AgentNode.workspace_path node)) (remove_sub_workspace hooks (AgentNode.workspace_path node))
  else mret tt.

(** One round of the cascade. *)
Definition teardown (snap : AgentTreeSnapshotData.t) (id : string) : TM unit :=
  let node := find_node (λ n, String.eqb (AgentNode.id n) id) snap in
  _ ← (match abort_loop hooks with
       | Some abort => _ ← call (Call.AbortLoop id) (modify (abort id)); mret tt
       | None => mret tt
       end);
  _ ← call_or_fail (Call.CancelRun id) (cancel_run hooks id);
  _ ← call_or_fail (Call.FlushMailbox id) (flush_mailbox hooks id);
  _ ← call_or_fail (Call.RevokeForAgent id) (revoke_for_agent hooks id);
  _ ← (match node with
       | Some n => if bool_decide (AgentNode.kind n = AgentKind.Sub) then remove_sub snap n else mret tt
       | None => mret tt
       end);
  r ← on_tree (remove id);
  match r with
  | Ok _ => note (Call.RemoveNode id)
  | Err _ => throw (Some LifecycleError.CascadePartial)
  end.

Definition terminate_child (fuel : nat) (caller_id child_id : string) : TM unit :=
  _ ← refuse_if (negb (is_ok (validate_agent_id caller_id))) LifecycleError.PermissionDenied;
  _ ← refuse_if (negb (is_ok (validate_agent_id child_id))) LifecycleError.NotFound;
  snap ← take_snapshot;
  _ ← refuse_if (bool_decide (AgentTreeSnapshotData.parent_of snap !! child_id = None)) LifecycleError.NotFound;
  _ ← refuse_if (bool_decide (mjoin (AgentTreeSnapshotData.parent_of snap !! child_id) ≠ Some caller_id))
        LifecycleError.PermissionDenied;
  _ ← freeze fuel [child_id];
  snap ← take_snapshot;
  removal_order ← returned (post_order fuel (AgentTreeSnapshotData.children_of snap) [(child_id, false)] []);
  for_each (teardown snap) removal_order.

Definition terminate_agent (fuel : nat) (caller_id agent_id : string) : TM unit :=
  _ ← refuse_if (negb (is_ok (validate_agent_id agent_id))) LifecycleError.NotFound;
  snap ← take_snapshot;
  match find_node (λ n, String.eqb (AgentNode.id n) agent_id) snap with
  | None => throw (Some LifecycleError.NotFound)
  | Some node =>
      _ ← refuse_if (bool_decide (AgentNode.kind node = AgentKind.Root)) LifecycleError.PermissionDenied;
      match mjoin (AgentTreeSnapshotData.parent_of snap !! agent_id) with
      | None => throw (Some LifecycleError.PermissionDenied)
      | Some parent =>
          _ ← refuse_if (negb (String.eqb parent caller_id)) LifecycleError.PermissionDenied;
          terminate_child fuel parent agent_id
      end
  end.

Definition handle_crash (crashed_agent_id reason : string) : TM unit :=
  _ ← refuse_if (negb (is_ok (validate_agent_id crashed_agent_id))) LifecycleError.NotFound;
  r ← on_tree (set_status crashed_agent_id AgentStatus.Failed);
  match r with
  | Err _ => throw (Some LifecycleError.NotFound)
  | Ok _ =>
      snap ← take_snapshot;
      match mjoin (AgentTreeSnapshotData.parent_of snap !! crashed_agent_id) with
      | None => mret tt
      | Some parent =>
          call_or_fail (Call.NotifyParentCrash parent crashed_agent_id reason)
            (notify_parent_crash hooks parent crashed_agent_id reason)
      end
  end.
End terminate.

Arguments Hooks : clear implicits.
Arguments other : clear implicits.
Arguments World : clear implicits.
