(* ===== verification/TerminateProps.v ===== *)
(** * Properties of the terminate cascade

    While the controller freezes, tears down and removes a subtree, other
    callers may go on spawning agents.  The freeze makes the subtree final, so
    the cascade reaches every agent in it and always ends. *)
From S2P Require Import Prelude RustStr Projection AgentTree AgentTreeFacts AgentSnapshot AgentTreeProps Terminate.
Import AgentTreeInner.
Open Scope string_scope.
Open Scope list_scope.
Open Scope Z_scope.

(** ** Growth *)

Definition frozen_status (st : AgentStatus.t) : Prop := st = AgentStatus.Terminated ∨ st = AgentStatus.Failed.

(** No child can be inserted under [x]. *)
Definition frozen (s : AgentTreeInner.t) (x : string) : Prop :=
  ∃ n, nodes s !! x = Some n ∧ frozen_status (AgentNode.status n).

(** What of an agent no caller changes. *)
Definition same_agent (n n' : AgentNode.t) : Prop :=
  AgentNode.parent n' = AgentNode.parent n ∧ AgentNode.kind n' = AgentNode.kind n
  ∧ AgentNode.workspace_path n' = AgentNode.workspace_path n.

(** What the callers that run beside a termination do to the tree: agents
    stay where they are, frozen ones stay frozen and get no new children, and
    nobody takes the id of the agent being terminated. *)
Record grows (child : string) (s s' : AgentTreeInner.t) : Prop := {
  gr_node i n : nodes s !! i = Some n → ∃ n', nodes s' !! i = Some n' ∧
    AgentNode.parent n' = AgentNode.parent n ∧ (frozen_status (AgentNode.status n) → frozen_status (AgentNode.status n'));
  gr_same i n : nodes s !! i = Some n → ∃ n', nodes s' !! i = Some n' ∧ same_agent n n';
  gr_new c p : parent_rel s' c p → in_tree s c ∨ ¬ frozen s p;
  gr_child : in_tree s' child → in_tree s child
}.

#[export] Instance grows_PreOrder child : PreOrder (grows child).
Proof.
  split.
  - intros s. split; [by eauto|by intros i n Hi; exists n| |done]. intros c p (n & Hn & _). left. by exists n.
  - intros s1 s2 s3 [Hn1 Hs1 Hp1 Hc1] [Hn2 Hs2 Hp2 Hc2]. split; [| | |by auto].
    + intros i n Hi. destruct (Hn1 i n Hi) as (n2 & Hi2 & Hpar2 & Hfr2). destruct (Hn2 i n2 Hi2) as (n3 & Hi3 & Hpar3 & Hfr3).
      exists n3. split_and!; [done|congruence|auto].
    + intros i n Hi. destruct (Hs1 i n Hi) as (n2 & Hi2 & ? & ? & ?). destruct (Hs2 i n2 Hi2) as (n3 & Hi3 & ? & ? & ?).
      exists n3. unfold same_agent. split_and!; congruence.
    + intros c p Hcp. destruct (Hp2 c p Hcp) as [Hc|Hfr].
      * destruct Hc as [n2 Hc]. destruct Hcp as (n3 & Hc3 & Hpar3). destruct (Hn2 c n2 Hc) as (n3' & Hc3' & Hpar & _).
        apply Hp1. exists n2. split; [done|]. congruence.
      * right. intros (n & Hn & Hf). apply Hfr. destruct (Hn1 p n Hn) as (n2 & ? & _ & ?). exists n2. auto.
Qed.

Section grows_facts.
Context (child : string) (s s' : AgentTreeInner.t) (Hg : grows child s s').

Lemma grows_in_tree x : in_tree s x → in_tree s' x.
Proof using Hg. intros [n Hn]. destruct (gr_node _ _ _ Hg x n Hn) as (n' & ? & _). by exists n'. Qed.

Lemma grows_parent c p : parent_rel s c p → parent_rel s' c p.
Proof using Hg. intros (n & Hn & Hp). destruct (gr_node _ _ _ Hg c n Hn) as (n' & ? & ? & _). exists n'. split; [done|congruence]. Qed.

Lemma grows_parent_old c p : in_tree s c → parent_rel s' c p → parent_rel s c p.
Proof using Hg.
  intros [n Hn] (n' & Hn' & Hp). destruct (gr_node _ _ _ Hg c n Hn) as (n2 & ? & ? & _). exists n. split; [done|congruence].
Qed.

Lemma grows_frozen x : frozen s x → frozen s' x.
Proof using Hg. intros (n & Hn & Hf). destruct (gr_node _ _ _ Hg x n Hn) as (n' & ? & _ & ?). exists n'. auto. Qed.

(** A frozen agent has its final children. *)
Lemma grows_kids x c : frozen s x → parent_rel s' c x ↔ parent_rel s c x.
Proof using Hg.
  intros Hf. split; [|apply grows_parent]. intros Hc. apply grows_parent_old; [|done].
  by destruct (gr_new _ _ _ Hg c x Hc).
Qed.

Lemma grows_below x y : rtc (parent_rel s) x y → rtc (parent_rel s') x y.
Proof using Hg. intros Hr. eapply rtc_subrel; [|exact Hr]. intros c p. apply grows_parent. Qed.
End grows_facts.

(** ** The other callers *)

(** A property of the calls made so far and of the state the hooks act on. *)
Abbreviation LogProp H := (list Call.t → H → Prop).

(** Spawning, crashing and renaming in the tree, and outside of it anything
    that keeps [I]. *)
Definition peaceful {H} (I : LogProp H) (child : string) (o : other H) : Prop :=
  match o with
  | InTree (InsertRoot _ n _) | InTree (InsertChild _ _ n _) => AgentNode.id n ≠ child
  | InTree (Remove _) => False
  | InTree (SetStatus _ st) => frozen_status st
  | InTree (SetHandle _ _) => True
  | Outside f => ∀ cs h, I cs h → I cs (f h)
  end.

Lemma grows_with_node child push node h s :
  nodes s !! AgentNode.id node = None → AgentNode.id node ≠ child →
  (∀ p, AgentNode.parent node = Some p → ¬ frozen s p) → grows child s (with_node push node h s).
Proof.
  intros Hfresh Hne Hp. split; simpl.
  - intros i n Hi. exists n. split_and!; [|done..]. rewrite lookup_insert_ne; [done|]. intros <-. congruence.
  - intros i n Hi. exists n. split_and!; [|done..]. rewrite lookup_insert_ne; [done|]. intros <-. congruence.
  - intros c p (n & Hn & Hcp). simpl in Hn. apply lookup_insert_Some in Hn as [[<- <-]|[_ Hn]]; [right; by apply Hp|left; by exists n].
  - unfold in_tree. simpl. by rewrite lookup_insert_ne.
Qed.

Lemma grows_status child s i st : frozen_status st → grows child s (bump (set_nodes (alter (AgentNode.set_status st) i) s)).
Proof.
  intros Hst. split; simpl.
  - intros j n Hj. destruct (decide (j = i)) as [->|].
    + exists (AgentNode.set_status st n). by rewrite lookup_alter_eq, Hj.
    + exists n. by rewrite lookup_alter_ne.
  - intros j n Hj. destruct (decide (j = i)) as [->|].
    + exists (AgentNode.set_status st n). by rewrite lookup_alter_eq, Hj.
    + exists n. by rewrite lookup_alter_ne.
  - intros c p (n & Hn & _). simpl in Hn. left. unfold in_tree.
    apply lookup_alter_Some in Hn as [(-> & m & Hm & _)|[_ Hn]]; [by exists m|by exists n].
  - unfold in_tree. simpl. by rewrite lookup_alter_is_Some.
Qed.

Lemma grows_same_nodes child s s' : nodes s' = nodes s → grows child s s'.
Proof.
  intros Heq. split; unfold parent_rel, frozen, in_tree; rewrite Heq; [by eauto|by intros i n Hi; exists n| |done]. intros c p (n & Hn & _). left. by exists n.
Qed.

Lemma tree_step_grows {H} (I : LogProp H) child root s a s' :
  peaceful I child (InTree a) → tree_step root s a s' → grows child s s'.
Proof.
  intros Hpc Hstep. revert Hpc.
  destruct Hstep as [canon n n' h Hadm Hp Hfit|canon p n n' h Hadm Hp Hfit|i n Hi Hleaf|i st Hi|i Hi|i h Hi Hne Hv Hfree]; intros Hpc; simpl in Hpc.
  - apply admit_node_Ok in Hadm as (_ & Hid & Hpar & _). apply root_fits_Ok in Hfit as (_ & Hfresh & _). simpl in *.
    apply grows_with_node; [done|congruence|]. by rewrite Hpar.
  - apply admit_node_Ok in Hadm as (_ & Hid & Hpar & _). apply child_fits_Ok in Hfit as ((pn & Hpn & _ & Hst & Hsf) & Hfresh & _).
    simpl in *. apply grows_with_node; [done|congruence|]. intros q Hq. rewrite Hpar in Hq. injection Hq as <-.
    intros (m & Hm & Hf). destruct Hf; congruence.
  - done.
  - by apply grows_status.
  - reflexivity.
  - apply grows_same_nodes. simpl. unfold unbind_handle. by case_bool_decide.
Qed.

Section turns.
Context {H : Type} (child : string) (root : PathBuf) (I : LogProp H).
Implicit Types w : World H.

(** From one moment of a termination to a later one. *)
Record later w w' : Prop := {
  lt_grows : grows child (tree w) (tree w');
  lt_ok : tree_ok root (tree w) → tree_ok root (tree w');
  lt_peace : Forall (Forall (peaceful I child)) (others w) → Forall (Forall (peaceful I child)) (others w');
  lt_log : I (calls w) (outside w) → I (calls w') (outside w')
}.

#[export] Instance later_PreOrder : PreOrder later.
Proof. split; [split; [reflexivity|done..]|]. intros w1 w2 w3 [] []. split; [by etrans|auto..]. Qed.

Lemma perform_later o w : peaceful I child o → later w (perform root o w).
Proof.
  intros Hpc. destruct o as [a|f]; simpl; [|split; simpl; [reflexivity|done|done|by apply Hpc]].
  destruct (tree_act root a (tree w)) as [[u|e] s'] eqn:Hrun; simpl.
  - apply tree_act_Ok in Hrun. split; simpl; [by eapply (tree_step_grows I)| |done..]. intros. by eapply tree_step_ok.
  - apply tree_act_Err in Hrun as ->. split; [reflexivity|done..].
Qed.

Lemma turn_spec w :
  Forall (Forall (peaceful I child)) (others w) → later w (turn root w) ∧ calls (turn root w) = calls w.
Proof.
  intros Hpc. unfold turn. set (os := default [] (head (others w))).
  assert (Forall (peaceful I child) os) as Hos by (unfold os; destruct Hpc; simpl; [constructor|done]).
  assert (Forall (Forall (peaceful I child)) (tl (others w))) as Htl by (destruct Hpc; simpl; [constructor|done]).
  assert (∀ w1, Forall (peaceful I child) os → later w1 (foldl (flip (perform root)) w1 os) ∧
    calls (foldl (flip (perform root)) w1 os) = calls w1) as Hall.
  { clearbody os. clear Hos. induction os as [|o os IH]; intros w1 Hf; simpl; [done|].
    apply Forall_cons in Hf as [Ho Hf]. destruct (IH (perform root o w1) Hf) as [IH1 IH2]. split.
    - etrans; [by apply perform_later|done].
    - rewrite IH2. by destruct o. }
  destruct (Hall w Hos) as [[Hg Hok _ HI] Hc]. split; [split|]; simpl; auto.
  assert (∀ w1, others (foldl (flip (perform root)) w1 os) = others w1) as Ho.
  { clear. induction os as [|o os IH]; intros w1; simpl; [done|]. rewrite IH. by destruct o. }
  by rewrite Ho.
Qed.
End turns.

(** ** The freeze *)

Lemma push_all {A} (l k : list A) : foldl (λ stack c, c :: stack) k l = rev l ++ k.
Proof. revert k. induction l as [|x l IH]; intros k; simpl; [done|]. by rewrite IH, <- app_assoc. Qed.

(** [popped] is done with: frozen, its children known.  [stack] is to come. *)
Record freezing (child : string) (s : AgentTreeInner.t) (popped stack : list string) : Prop := {
  fz_in x : x ∈ popped ++ stack → in_tree s x ∧ rtc (parent_rel s) x child;
  fz_NoDup : NoDup (popped ++ stack);
  fz_child : child ∈ popped ++ stack;
  fz_frozen x : x ∈ popped → frozen s x;
  fz_closed x c : x ∈ popped → parent_rel s c x → c ∈ popped ++ stack;
  fz_parent c p : c ∈ popped ++ stack → c ≠ child → parent_rel s c p → p ∈ popped
}.

Lemma freezing_grows child s s' popped stack :
  grows child s s' → freezing child s popped stack → freezing child s' popped stack.
Proof.
  intros Hg [Hin Hnd Hchild Hfr Hclosed Hpar]. split; [|done..| | |].
  - intros x Hx. destruct (Hin x Hx) as [Ht Hr]. split; [by eapply grows_in_tree|by eapply grows_below].
  - intros x Hx. eapply grows_frozen; [done|by apply Hfr].
  - intros x c Hx Hc. apply (Hclosed x); [done|]. by apply (grows_kids child s s' Hg); [apply Hfr|].
  - intros c p Hc Hne Hp. apply (Hpar c); [done..|]. apply (grows_parent_old child s s' Hg); [|done]. by apply Hin.
Qed.

Lemma freezing_push child s popped id stack cs :
  forest (nodes s) (children_by_parent s) → freezing child s popped (id :: stack) → frozen s id →
  NoDup cs → (∀ c, c ∈ cs ↔ parent_rel s c id) → freezing child s (popped ++ [id]) (rev cs ++ stack).
Proof.
  intros Hf [Hin Hnd Hchild Hfr Hclosed Hpar] Hid Hcs Hmem.
  assert (∀ x, x ∈ (popped ++ [id]) ++ rev cs ++ stack ↔ x ∈ popped ++ id :: stack ∨ x ∈ cs) as Helem.
  { intros x. rewrite <- (Permutation_rev cs), !elem_of_app, list_elem_of_singleton, elem_of_cons. tauto. }
  assert (∀ c, c ∈ cs → c ∉ popped ++ id :: stack) as Hfresh.
  { intros c Hc%Hmem Hold. assert (id ∈ popped ++ id :: stack) as Hidin by set_solver.
    destruct (decide (c = child)) as [->|Hne].
    - apply (forest_acyclic s child Hf). apply tc_rtc_r with id; [by apply tc_once|]. by apply Hin.
    - apply (Hpar c id Hold Hne) in Hc. apply NoDup_app in Hnd as (_ & Hnd & _). apply (Hnd id Hc). left. }
  split.
  - intros x [Hx|Hx]%Helem; [by apply Hin|]. apply Hmem in Hx. split; [by apply (parent_rel_in_tree s x id Hf)|].
    eapply rtc_l; [exact Hx|]. apply Hin. set_solver.
  - assert (popped ++ id :: stack ≡ₚ (popped ++ [id]) ++ stack) as Hperm by by rewrite <- app_assoc.
    assert ((popped ++ [id]) ++ rev cs ++ stack ≡ₚ cs ++ popped ++ id :: stack) as ->.
    { rewrite Hperm, <- (Permutation_rev cs), (app_assoc cs), (Permutation_app_comm cs (popped ++ [id])). by rewrite <- (app_assoc (popped ++ [id])). }
    apply NoDup_app. split_and!; [done|exact Hfresh|done].
  - apply Helem. by left.
  - intros x [Hx| ->%list_elem_of_singleton]%elem_of_app; [by apply Hfr|done].
  - intros x c [Hx| ->%list_elem_of_singleton]%elem_of_app Hc; apply Helem; [left; by eapply Hclosed|right; by apply Hmem].
  - intros c p [Hc|Hc]%Helem Hne Hp; [apply elem_of_app; left; by eapply Hpar|]. apply Hmem in Hc.
    rewrite (parent_rel_fun s c p id) by done. set_solver.
Qed.

Lemma NoDup_in_tree s (l : list string) : NoDup l → (∀ x, x ∈ l → in_tree s x) → (length l ≤ size (nodes s))%nat.
Proof.
  intros Hnd Hin. rewrite <- (size_dom (D := gset string)), <- (size_list_to_set (C := gset string) l) by done.
  apply subseteq_size. intros x Hx%elem_of_list_to_set. apply elem_of_dom. by apply Hin.
Qed.

(** ** Running the controller's steps *)

Section running.
Context {H : Type} (child : string) (root : PathBuf) (I : LogProp H).
Implicit Types w : World H.

(** Callers beside the controller are peaceful, and the tree well formed. *)
Record calm w : Prop := {
  cm_peace : Forall (Forall (peaceful I child)) (others w);
  cm_ok : tree_ok root (tree w);
  cm_log : I (calls w) (outside w)
}.

Lemma later_calm w w' : later child root I w w' → calm w → calm w'.
Proof. intros [_ Hok Hpc HI] []. split; auto. Qed.

Lemma calm_turn w : calm w → later child root I w (turn root w) ∧ calm (turn root w) ∧ calls (turn root w) = calls w.
Proof.
  intros Hc. destruct (turn_spec child root I w) as [Hl Hcalls]; [apply Hc|]. split_and!; [done| |done]. by eapply later_calm.
Qed.

Lemma bind_step {A B} (m : M (World H) (option LifecycleError.t) A) (k : A → M (World H) (option LifecycleError.t) B) w a w' :
  m w = (Ok a, w') → (m ≫= k) w = k a w'.
Proof. intros Hm. unfold mbind, M_bind. by rewrite Hm. Qed.

Lemma read_tree_run {A} (f : AgentTreeInner.t → A) w :
  calm w → ∃ w', read_tree (E := option LifecycleError.t) root f w = (Ok (f (tree w')), w') ∧ later child root I w w' ∧ calm w' ∧ calls w' = calls w.
Proof. intros Hc. exists (turn root w). destruct (calm_turn w Hc) as (? & ? & ?). done. Qed.

Lemma on_tree_run w :
  calm w → ∃ w1, later child root I w w1 ∧ calm w1 ∧ calls w1 = calls w ∧
    ∀ A (sec : TreeM A), on_tree (E := option LifecycleError.t) root sec w =
      let (r, s) := sec (tree w1) in (Ok r, mkWorld s (outside w1) (others w1) (calls w1)).
Proof. intros Hc. exists (turn root w). destruct (calm_turn w Hc) as (? & ? & ?). done. Qed.

(** Freezing an agent that is there. *)
Lemma freeze_one w id :
  calm w → in_tree (tree w) id →
  ∃ w', on_tree (E := option LifecycleError.t) root (set_status id AgentStatus.Terminated) w = (Ok (Ok tt), w') ∧
    later child root I w w' ∧ calm w' ∧ calls w' = calls w ∧ frozen (tree w') id.
Proof.
  intros Hc Hid. destruct (on_tree_run w Hc) as (w1 & Hl & Hc' & Hcalls & Hrun).
  assert (in_tree (tree w1) id) as Hid1 by (eapply grows_in_tree; [apply Hl|done]).
  rewrite Hrun, set_status_run, bool_decide_eq_true_2 by done. eexists. split; [reflexivity|].
  assert (grows child (tree w1) (bump (set_nodes (alter (AgentNode.set_status AgentStatus.Terminated) id) (tree w1)))) as Hg.
  { apply grows_status. by left. }
  assert (tree_ok root (bump (set_nodes (alter (AgentNode.set_status AgentStatus.Terminated) id) (tree w1)))) as Hok.
  { eapply (tree_step_ok root (tree w1)); [apply Hc'|]. by apply step_status. }
  split_and!.
  - etrans; [exact Hl|]. split; simpl; auto.
  - split; [apply Hc'|exact Hok|apply Hc'].
  - exact Hcalls.
  - destruct Hid1 as [n Hn]. exists (AgentNode.set_status AgentStatus.Terminated n). simpl.
    rewrite lookup_alter_eq, Hn. split; [done|by left].
Qed.

Lemma kids_of w id :
  calm w → in_tree (tree w) id →
  NoDup (reader_children_of (tree w) id) ∧ ∀ c, c ∈ reader_children_of (tree w) id ↔ parent_rel (tree w) c id.
Proof.
  intros [_ Hok _] [n Hn]. pose proof (ok_forest _ _ Hok) as Hf.
  assert (validate_agent_id id = Ok tt) as Hv.
  { rewrite <- (forest_ids _ _ Hf id n Hn). apply (node_id root), (ok_nodes _ _ Hok id n Hn). }
  simpl. unfold when_valid. rewrite Hv. simpl. split; [|intros c; by apply kids_default].
  destruct (children_by_parent (tree w) !! id) as [l|] eqn:Hl; simpl; [|constructor]. apply (forest_kids _ _ Hf id l Hl).
Qed.

Lemma freeze_spec fuel : ∀ popped stack w,
  calm w → freezing child (tree w) popped stack → (Z.to_nat MAX_AGENTS_PER_STORE < fuel + length popped)%nat →
  ∃ w' popped', freeze root fuel stack w = (Ok tt, w') ∧ later child root I w w' ∧ calm w' ∧ calls w' = calls w ∧
    freezing child (tree w') popped' [].
Proof.
  induction fuel as [|fuel IH]; intros popped stack w Hc Hfz Hfuel.
  { exfalso. assert (length popped ≤ size (nodes (tree w)))%nat as Hle.
    { destruct Hfz as [Hin Hnd _ _ _ _]. apply NoDup_in_tree; [by apply NoDup_app in Hnd as [? _]|].
      intros x Hx. apply Hin. set_solver. }
    pose proof (ok_size _ _ (cm_ok _ Hc)). lia. }
  destruct stack as [|id stack]; simpl; [exists w, popped; split_and!; try done; reflexivity|].
  destruct (freeze_one w id Hc) as (w1 & Hrun1 & Hl1 & Hc1 & Hcalls1 & Hfr1).
  { apply (fz_in _ _ _ _ Hfz). set_solver. }
  erewrite bind_step by exact Hrun1. cbn beta iota.
  destruct (read_tree_run (λ s, reader_children_of s id) w1 Hc1) as (w2 & Hrun2 & Hl2 & Hc2 & Hcalls2).
  erewrite bind_step by exact Hrun2. rewrite push_all.
  assert (frozen (tree w2) id) as Hfr2 by (eapply grows_frozen; [apply Hl2|done]).
  destruct (kids_of w2 id Hc2) as [Hnd Hmem]; [destruct Hfr2 as (n & ? & _); by exists n|].
  destruct (IH (popped ++ [id]) (rev (reader_children_of (tree w2) id) ++ stack) w2 Hc2) as (w3 & popped' & Hrun3 & Hl3 & Hc3 & Hcalls3 & Hfz3).
  - apply freezing_push; [apply Hc2| |done..]. eapply freezing_grows; [apply Hl2|]. eapply freezing_grows; [apply Hl1|done].
  - rewrite length_app. simpl. lia.
  - exists w3, popped'. split_and!; [done| |done|congruence|done]. etrans; [exact Hl1|]. by etrans.
Qed.

Lemma take_snapshot_run w :
  calm w → ∃ d w', take_snapshot root w = (Ok d, w') ∧ later child root I w w' ∧ calm w' ∧ calls w' = calls w ∧
    snapshot_of (tree w') d.
Proof.
  intros Hc. destruct (read_tree_run snapshot w Hc) as (w1 & Hrun & Hl & Hc1 & Hcalls).
  destruct (snapshot_spec root (tree w1) (cm_ok _ Hc1)) as (d & Hd & Hso). exists d, w1. split_and!; try done.
  unfold take_snapshot. erewrite bind_step by exact Hrun. unfold returned, lift. by rewrite Hd.
Qed.
End running.

(** ** The order of removal *)

Section post_order_facts.
Context (s : AgentTreeInner.t) (Hf : forest (nodes s) (children_by_parent s)).
Context (rank : string → nat) (Hrank : ∀ c p, parent_rel s c p → (rank c < rank p)%nat).

Abbreviation walk fuel := (post_order fuel (sort_children <$> children_by_parent s)).

(** [l] lists the agents at or below one of [from], children first. *)
Record lists_up (from : list string) (l : list string) : Prop := {
  lu_NoDup : NoDup l;
  lu_mem i : i ∈ l ↔ ∃ f, f ∈ from ∧ rtc (parent_rel s) i f;
  lu_first k1 x k2 c : l = k1 ++ x :: k2 → parent_rel s c x → c ∈ k1
}.

Lemma post_order_list (from : list string) :
  NoDup from →
  (∀ a b i, a ∈ from → b ∈ from → a ≠ b → rtc (parent_rel s) i a → rtc (parent_rel s) i b → False) →
  (∀ a, a ∈ from → ∃ l, lists_up [a] l ∧
     ∀ fuel stack out, walk (2 * length l + fuel)%nat ((a, false) :: stack) out = walk fuel stack (out ++ l)) →
  ∃ l, lists_up from l ∧
    ∀ fuel stack out, walk (2 * length l + fuel)%nat (((λ a, (a, false)) <$> from) ++ stack) out = walk fuel stack (out ++ l).
Proof.
  induction from as [|a from IH]; intros Hnd Hapart Hf1.
  { exists []. split; [|intros fuel stack out; by rewrite app_nil_r]. split; [constructor| |by intros []].
    intros i. rewrite elem_of_nil. split; [done|]. intros (f0 & ?%elem_of_nil & _). done. }
  apply NoDup_cons in Hnd as [Ha Hnd]. destruct (Hf1 a) as (la & [Hnd1 Hm1 Hp1] & Hrun1); [by left|].
  destruct IH as (l & [Hnd2 Hm2 Hp2] & Hrun2); [done| |by intros b Hb; apply Hf1; right|].
  { intros b c i Hb Hc. apply Hapart; by right. }
  exists (la ++ l). split; [split|].
  - apply NoDup_app. split_and!; [done| |done]. intros i Hi Hi2.
    apply Hm1 in Hi as (f1 & ->%list_elem_of_singleton & Hr1). apply Hm2 in Hi2 as (f2 & Hin2 & Hr2).
    apply (Hapart a f2 i); [by left|by right|by intros ->|done|done].
  - intros i. rewrite elem_of_app, Hm1, Hm2. setoid_rewrite list_elem_of_singleton. setoid_rewrite elem_of_cons. naive_solver.
  - intros k1 x k2 c Heq Hc. apply app_eq_inv in Heq as [(k & -> & Heq)|(k & -> & Heq)].
    + destruct k as [|x' k]; simpl in Heq.
      * exfalso. by apply (not_elem_of_nil c), (Hp2 [] x k2); [rewrite <- Heq|].
      * injection Heq as <- ->. by apply (Hp1 k1 x k).
    + apply elem_of_app. right. by apply (Hp2 k x k2).
  - intros fuel stack out. rewrite length_app, fmap_cons. simpl app.
    replace (2 * (length la + length l) + fuel)%nat with (2 * length la + (2 * length l + fuel))%nat by lia.
    by rewrite Hrun1, Hrun2, app_assoc.
Qed.

Lemma push_pairs (l : list string) stack :
  foldl (λ stack k, (k, false) :: stack) stack l = ((λ a, (a, false)) <$> rev l) ++ stack.
Proof.
  revert stack. induction l as [|x l IH]; intros stack; simpl; [done|]. by rewrite IH, fmap_app, <- app_assoc.
Qed.

Lemma post_order_one k : ∀ a, (rank a < k)%nat →
  ∃ l, lists_up [a] l ∧ ∀ fuel stack out, walk (2 * length l + fuel)%nat ((a, false) :: stack) out = walk fuel stack (out ++ l).
Proof.
  induction k as [|k IH]; intros a Hk; [lia|].
  set (kids := default [] ((sort_children <$> children_by_parent s) !! a)).
  assert (∀ c, c ∈ rev kids ↔ parent_rel s c a) as Hkids.
  { intros c. rewrite <- (Permutation_rev kids). unfold kids. rewrite lookup_fmap, <- (kids_default s a c Hf).
    destruct (children_by_parent s !! a); [apply elem_sort_children|done]. }
  assert (NoDup (rev kids)) as Hnd.
  { rewrite <- (Permutation_rev kids). unfold kids. rewrite lookup_fmap. destruct (children_by_parent s !! a) as [l|] eqn:Hl; [|constructor].
    simpl. autorewrite with rust. apply (forest_kids _ _ Hf a l Hl). }
  destruct (post_order_list (rev kids) Hnd) as (l & [Hndl Hm Hp] & Hrun).
  { intros b c i Hb%Hkids Hc%Hkids Hne. apply (below_siblings s Hf); [done|].
    intros p. split; intros Hbp; [by rewrite <- (parent_rel_fun s b a p)|by rewrite <- (parent_rel_fun s c a p)]. }
  { intros b Hb%Hkids. apply IH. specialize (Hrank b a Hb). lia. }
  assert (a ∉ l) as Hfresh.
  { intros (c & Hc%Hkids & Hr)%Hm. apply (forest_acyclic s a Hf). apply tc_rtc_l with c; [done|by apply tc_once]. }
  exists (l ++ [a]). split; [split|].
  - apply NoDup_app. split_and!; [done| |apply NoDup_singleton]. by intros x Hx ->%list_elem_of_singleton.
  - intros i. rewrite elem_of_app, Hm. setoid_rewrite list_elem_of_singleton. split.
    + intros [(c & Hc%Hkids & Hr)| ->]; exists a; (split; [done|]); [by eapply rtc_r|done].
    + intros (f & -> & Hr). apply rtc_inv_r in Hr as [->|(c & Hr & Hc)]; [by right|left]. exists c. split; [by apply Hkids|done].
  - intros k1 x k2 c Heq Hc. destruct (decide (k2 = [])) as [->|Hne].
    + apply app_inj_tail in Heq as [<- <-]. apply Hm. exists c. split; [by apply Hkids|reflexivity].
    + destruct k2 as [|b k2 _] using rev_ind; [done|]. rewrite app_comm_cons, app_assoc in Heq.
      apply app_inj_tail in Heq as [Heq _]. by eapply Hp.
  - intros fuel stack out. rewrite length_app. simpl length.
    replace (2 * (length l + 1) + fuel)%nat with (S (2 * length l + S fuel))%nat by lia. cbn [post_order].
    replace (match (sort_children <$> children_by_parent s) !! a with
             | Some kids => foldl (λ stack k, (k, false) :: stack) ((a, true) :: stack) kids
             | None => (a, true) :: stack
             end) with (((λ a, (a, false)) <$> rev kids) ++ (a, true) :: stack).
    + rewrite Hrun. simpl. by rewrite <- app_assoc.
    + unfold kids. destruct ((sort_children <$> children_by_parent s) !! a); [by rewrite push_pairs|done].
Qed.
End post_order_facts.

(** ** The cascade *)

(** Whenever [I] holds, a hook succeeds and [I] holds with the call added;
    archiving may fail. *)
Record hooks_keep {H} (I : LogProp H) (hooks : Hooks H) : Prop := {
  hk_revoke a cs h : I cs h → (revoke_for_agent hooks a h).1 = Ok tt ∧
    I (cs ++ [Call.RevokeForAgent a]) (revoke_for_agent hooks a h).2;
  hk_flush a cs h : I cs h → (flush_mailbox hooks a h).1 = Ok tt ∧ I (cs ++ [Call.FlushMailbox a]) (flush_mailbox hooks a h).2;
  hk_cancel a cs h : I cs h → (cancel_run hooks a h).1 = Ok tt ∧ I (cs ++ [Call.CancelRun a]) (cancel_run hooks a h).2;
  hk_workspace p cs h : I cs h → (remove_sub_workspace hooks p h).1 = Ok tt ∧
    I (cs ++ [Call.RemoveSubWorkspace p]) (remove_sub_workspace hooks p h).2;
  hk_archive archiver a p q cs h : archive_sub_memory hooks = Some archiver → I cs h →
    I (cs ++ [Call.ArchiveSubMemory a p q (is_ok (archiver a p q h).1)]) (archiver a p q h).2;
  hk_abort abort a cs h : abort_loop hooks = Some abort → I cs h → I (cs ++ [Call.AbortLoop a]) (abort a h);
  hk_node a cs h : I cs h → I (cs ++ [Call.RemoveNode a]) h
}.

(** What the workspace of an agent gets that is a sub agent: it is removed,
    where there is an archiver only once its memory has been archived. *)
Definition sub_calls {H} (hooks : Hooks H) (N : gmap string AgentNode.t) (n : AgentNode.t) (l : list Call.t) : Prop :=
  if bool_decide (AgentNode.kind n = AgentKind.Sub) then
    match archive_sub_memory hooks with
    | None => l = [Call.RemoveSubWorkspace (AgentNode.workspace_path n)]
    | Some _ => ∃ pid p ok, AgentNode.parent n = Some pid ∧ N !! pid = Some p ∧
        l = Call.ArchiveSubMemory (AgentNode.id n) (AgentNode.workspace_path n) (AgentNode.workspace_path p) ok
            :: (if ok : bool then [Call.RemoveSubWorkspace (AgentNode.workspace_path n)] else [])
    end
  else l = [].

(** All that is called for an agent, in the documented order. *)
Definition agent_calls {H} (hooks : Hooks H) (N : gmap string AgentNode.t) (id : string) (l : list Call.t) : Prop :=
  ∃ n sub, N !! id = Some n ∧ sub_calls hooks N n sub ∧
    l = (match abort_loop hooks with Some _ => [Call.AbortLoop id] | None => [] end)
        ++ [Call.CancelRun id; Call.FlushMailbox id; Call.RevokeForAgent id] ++ sub ++ [Call.RemoveNode id].

Lemma agent_calls_core {H} (hooks : Hooks H) N id l c :
  agent_calls hooks N id l → c ∈ [Call.CancelRun id; Call.FlushMailbox id; Call.RevokeForAgent id; Call.RemoveNode id] → c ∈ l.
Proof.
  intros (n & sub & _ & _ & ->) Hc. rewrite !elem_of_app. apply elem_of_cons in Hc as [->|Hc]; [set_solver|].
  apply elem_of_cons in Hc as [->|Hc]; [set_solver|]. apply elem_of_cons in Hc as [->|Hc]; [set_solver|]. auto.
Qed.

Lemma nodes_without id n s : nodes (without_node id n s) = delete id (nodes s).
Proof. unfold without_node. simpl. unfold unbind_handle. by case_bool_decide. Qed.

Section cascade.
Context (child : string) (s1 : AgentTreeInner.t) (order : list string).

(** Between two rounds: [rem] is still there, frozen, with no children
    outside [rem]; every agent outside [order] is still there. *)
Record remaining (rem : list string) (s : AgentTreeInner.t) : Prop := {
  rm_frozen x : x ∈ rem → frozen s x;
  rm_kids x c : x ∈ rem → parent_rel s c x → c ∈ rem ∧ parent_rel s1 c x;
  rm_child : in_tree s child → child ∈ rem;
  rm_others x : in_tree s1 x → x ∉ order → in_tree s x
}.

Lemma remaining_grows rem s s' : grows child s s' → remaining rem s → remaining rem s'.
Proof using Type.
  intros Hg [Hfr Hk Hc Ho]. split.
  - intros x Hx. eapply grows_frozen; [done|by apply Hfr].
  - intros x c Hx Hcx. apply Hk; [done|]. by apply (grows_kids child s s' Hg); [apply Hfr|].
  - intros Hin. by apply Hc, (gr_child _ _ _ Hg).
  - intros x Hx Hno. eapply grows_in_tree; [done|]. by apply Ho.
Qed.

Lemma remaining_remove id rem n s :
  NoDup (id :: rem) → id ∈ order → remaining (id :: rem) s → remaining rem (without_node id n s).
Proof using Type.
  intros [Hid _]%NoDup_cons Hord [Hfr Hk Hc Ho].
  assert (∀ x, in_tree (without_node id n s) x ↔ x ≠ id ∧ in_tree s x) as Hin.
  { intros x. unfold in_tree. rewrite nodes_without, lookup_delete_is_Some. naive_solver. }
  split.
  - intros x Hx. destruct (Hfr x) as (m & Hm & Hf); [by right|]. exists m. rewrite nodes_without, lookup_delete_ne; [done|].
    intros <-. done.
  - intros x c Hx (m & Hm & Hp). rewrite nodes_without in Hm. apply lookup_delete_Some in Hm as [Hne Hm].
    destruct (Hk x c) as [[->|?]%elem_of_cons ?]; [by right|by exists m|done|done].
  - intros [Hne Hin']%Hin. apply Hc in Hin' as [->|?]%elem_of_cons; done.
  - intros x Hx Hno. apply Hin. split; [by intros ->|by apply Ho].
Qed.

(** Its children torn down, an agent is a leaf. *)
Lemma remaining_leaf s id rem k1 :
  forest (nodes s) (children_by_parent s) → lists_up s1 [child] order → order = k1 ++ id :: rem →
  remaining (id :: rem) s → default [] (children_by_parent s !! id) = [].
Proof using Type.
  intros Hf [Hnd _ Hfirst] Heq [_ Hk _ _]. apply elem_of_nil_inv. intros c Hc. apply kids_default in Hc; [|done].
  destruct (Hk id c) as [Hrem Hc1]; [by left|done|]. apply (Hfirst k1 id rem c Heq) in Hc1.
  rewrite Heq in Hnd. apply NoDup_app in Hnd as (_ & Hnd & _). by apply (Hnd c).
Qed.

Context {H : Type} (root : PathBuf) (I : LogProp H) (hooks : Hooks H) (Hhooks : hooks_keep I hooks).
Context (Hok1 : tree_ok root s1) (snap : AgentTreeSnapshotData.t) (Hsnap : snapshot_of s1 snap).
Implicit Types w : World H.

(** A step that changes the tree only by growth and makes the calls [l]. *)
Definition makes (l : list Call.t) w w' : Prop :=
  later child root I w w' ∧ calm child root I w' ∧ calls w' = calls w ++ l.

Lemma makes_nil w : calm child root I w → makes [] w w.
Proof using Type. intros Hc. split_and!; [reflexivity|done|by rewrite app_nil_r]. Qed.

Lemma makes_trans l1 l2 w w1 w2 : makes l1 w w1 → makes l2 w1 w2 → makes (l1 ++ l2) w w2.
Proof using Type. intros (H1 & _ & E1) (H2 & H3 & E2). split_and!; [by etrans|done|by rewrite E2, E1, app_assoc]. Qed.

Lemma call_run w c f :
  calm child root I w → (∀ cs h, I cs h → I (cs ++ [c (f h).1]) (f h).2) →
  ∃ cs h w', call_noted root c f w = (Ok (f h).1, w') ∧ I cs h ∧ makes [c (f h).1] w w'.
Proof using Type.
  intros Hc HI. destruct (calm_turn child root I w Hc) as (Hl & Hc1 & Hcalls). unfold call_noted. set (w1 := turn root w) in *.
  set (w' := mkWorld (tree w1) (f (outside w1)).2 (others w1) (calls w1 ++ [c (f (outside w1)).1])).
  assert (later child root I w w') as Hl'.
  { etrans; [exact Hl|]. split; simpl; [reflexivity|done|done|apply HI]. }
  exists (calls w1), (outside w1), w'. split_and!; [unfold w'; by destruct (f (outside w1))|apply Hc1|].
  split_and!; [done|by eapply later_calm|]. unfold w'. cbn [calls]. by rewrite Hcalls.
Qed.

Lemma call_ok w c f :
  calm child root I w → (∀ cs h, I cs h → (f h).1 = Ok tt ∧ I (cs ++ [c]) (f h).2) →
  ∃ w', call_or_fail root c f w = (Ok tt, w') ∧ makes [c] w w'.
Proof using Type.
  intros Hc Hf. destruct (call_run w (λ _, c) f Hc) as (cs & h & w1 & Hrun & Hcs & Hm); [by intros; apply Hf|].
  exists w1. split; [|done]. unfold call_or_fail, call. erewrite bind_step by exact Hrun. by rewrite (proj1 (Hf cs h Hcs)).
Qed.

Lemma remove_sub_run n pid w :
  calm child root I w → AgentNode.parent n = Some pid → in_tree s1 pid → AgentNode.kind n = AgentKind.Sub →
  ∃ w' l, remove_sub root hooks snap n w = (Ok tt, w') ∧ makes l w w' ∧ sub_calls hooks (nodes s1) n l.
Proof using Hhooks Hok1 Hsnap.
  intros Hc Hpar [p Hp] Hkind. unfold remove_sub, sub_calls. rewrite bool_decide_eq_true_2 by done.
  assert (∀ (ok : bool) w0, calm child root I w0 → ∃ w', (if ok
      then call_or_fail root (Call.RemoveSubWorkspace (AgentNode.workspace_path n)) (remove_sub_workspace hooks (AgentNode.workspace_path n))
      else mret tt) w0 = (Ok tt, w') ∧ makes (if ok then [Call.RemoveSubWorkspace (AgentNode.workspace_path n)] else []) w0 w') as Hend.
  { intros [|] w0 Hc0; [|exists w0; split; [done|by apply makes_nil]]. apply call_ok; [done|]. by intros; apply (hk_workspace _ _ Hhooks). }
  destruct (archive_sub_memory hooks) as [archiver|] eqn:Harchive.
  2: { destruct (Hend true w Hc) as (w' & Hrun & Hm). exists w'. eexists. split_and!; [|exact Hm|done].
       by erewrite bind_step by reflexivity. }
  rewrite Hpar. simpl.
  rewrite (snapshot_lookup root s1 snap pid Hok1 Hsnap), Hp. simpl.
  destruct (call_run w (λ r, Call.ArchiveSubMemory (AgentNode.id n) (AgentNode.workspace_path n) (AgentNode.workspace_path p) (is_ok r))
    (archiver (AgentNode.id n) (AgentNode.workspace_path n) (AgentNode.workspace_path p)) Hc) as (cs & h & w1 & Hrun & _ & Hm1).
  { intros. by eapply hk_archive. }
  erewrite bind_step by (erewrite bind_step by exact Hrun; reflexivity).
  destruct (Hend (is_ok (archiver (AgentNode.id n) (AgentNode.workspace_path n) (AgentNode.workspace_path p) h).1) w1) as (w' & Hrun' & Hm'); [apply Hm1|].
  exists w'. eexists. split_and!; [done|by eapply makes_trans|]. by eexists pid, p, _.
Qed.

Lemma remove_run_leaf w id rem k1 :
  calm child root I w → lists_up s1 [child] order → order = k1 ++ id :: rem → remaining (id :: rem) (tree w) →
  ∃ n w', on_tree (E := option LifecycleError.t) root (remove id) w = (Ok (Ok n), w') ∧ calm child root I w' ∧ calls w' = calls w ∧ remaining rem (tree w').
Proof using Hhooks Hok1 Hsnap.
  intros Hc Hup Heq Hrem. destruct (on_tree_run child root I w Hc) as (w1 & Hl & Hc1 & Hcalls & Hrun).
  pose proof (remaining_grows _ _ _ (lt_grows _ _ _ _ _ Hl) Hrem) as Hrem1.
  pose proof (remaining_leaf _ _ _ _ (ok_forest _ _ (cm_ok _ _ _ _ Hc1)) Hup Heq Hrem1) as Hleaf.
  destruct (rm_frozen _ _ Hrem1 id) as (n & Hn & _); [by left|].
  exists n, (mkWorld (without_node id n (tree w1)) (outside w1) (others w1) (calls w1)). split_and!.
  - by rewrite Hrun, remove_run, Hn, bool_decide_eq_true_2.
  - split; [apply Hc1| |apply Hc1]. apply without_node_ok; [apply Hc1|done..].
  - done.
  - apply remaining_remove; [|rewrite Heq; set_solver|done]. destruct Hup as [Hnd _ _]. rewrite Heq in Hnd.
    by apply NoDup_app in Hnd as (_ & _ & ?).
Qed.

Lemma teardown_run w id pid rem k1 :
  calm child root I w → lists_up s1 [child] order → order = k1 ++ id :: rem → remaining (id :: rem) (tree w) → parent_rel s1 id pid →
  ∃ w' l, teardown root hooks snap id w = (Ok tt, w') ∧ calm child root I w' ∧ remaining rem (tree w') ∧
    calls w' = calls w ++ l ∧ agent_calls hooks (nodes s1) id l.
Proof using Hhooks Hok1 Hsnap.
  intros Hc Hup Heq Hrem Hpid. destruct (parent_rel_in_tree s1 id pid (ok_forest _ _ Hok1) Hpid) as [_ Hpin].
  destruct Hpid as (n & Hn & Hpar). unfold teardown. rewrite (snapshot_lookup root s1 snap id Hok1 Hsnap), Hn.
  assert (∃ w1, (match abort_loop hooks with
    | Some abort => _ ← call root (Call.AbortLoop id) (modify (abort id)); mret tt
    | None => mret tt end) w = (Ok tt, w1) ∧ makes (match abort_loop hooks with Some _ => [Call.AbortLoop id] | None => [] end) w w1)
    as (w1 & Hrun1 & Hm1).
  { destruct (abort_loop hooks) as [abort|] eqn:Habort; [|exists w; split; [done|by apply makes_nil]].
    destruct (call_run w (λ _, Call.AbortLoop id) (modify (abort id)) Hc) as (cs & h & w1 & Hrun & _ & Hm);
      [intros cs h Hcs; apply (hk_abort _ _ Hhooks abort id cs h Habort Hcs)|].
    exists w1. split; [|done]. unfold call. by erewrite bind_step by exact Hrun. }
  erewrite bind_step by exact Hrun1.
  destruct (call_ok w1 (Call.CancelRun id) (cancel_run hooks id)) as (w2 & Hrun2 & Hm2); [apply Hm1|by intros; apply (hk_cancel _ _ Hhooks)|].
  erewrite bind_step by exact Hrun2.
  destruct (call_ok w2 (Call.FlushMailbox id) (flush_mailbox hooks id)) as (w3 & Hrun3 & Hm3); [apply Hm2|by intros; apply (hk_flush _ _ Hhooks)|].
  erewrite bind_step by exact Hrun3.
  destruct (call_ok w3 (Call.RevokeForAgent id) (revoke_for_agent hooks id)) as (w4 & Hrun4 & Hm4); [apply Hm3|by intros; apply (hk_revoke _ _ Hhooks)|].
  erewrite bind_step by exact Hrun4.
  assert (∃ w5 sub, (if bool_decide (AgentNode.kind n = AgentKind.Sub) then remove_sub root hooks snap n else mret tt) w4 = (Ok tt, w5)
    ∧ makes sub w4 w5 ∧ sub_calls hooks (nodes s1) n sub) as (w5 & sub & Hrun5 & Hm5 & Hsub).
  { case_bool_decide as Hk; [apply (remove_sub_run n pid); [apply Hm4|done..]|].
    exists w4, []. split_and!; [done|by apply makes_nil, Hm4|]. unfold sub_calls. by rewrite bool_decide_eq_false_2. }
  erewrite bind_step by exact Hrun5.
  pose proof (makes_trans _ _ _ _ _ Hm1 (makes_trans _ _ _ _ _ Hm2 (makes_trans _ _ _ _ _ Hm3 (makes_trans _ _ _ _ _ Hm4 Hm5)))) as (Hl & Hc5 & Hcalls5).
  destruct (remove_run_leaf w5 id rem k1 Hc5 Hup Heq) as (n6 & w6 & Hrun6 & Hc6 & Hcalls6 & Hrem6).
  { eapply remaining_grows; [apply Hl|done]. }
  erewrite bind_step by exact Hrun6.
  exists (mkWorld (tree w6) (outside w6) (others w6) (calls w6 ++ [Call.RemoveNode id])). eexists.
  split_and!; [done| |exact Hrem6| |].
  { destruct Hc6. split; [done..|]. by apply (hk_node _ _ Hhooks). }
  - simpl. by rewrite Hcalls6, Hcalls5, <- !app_assoc.
  - exists n, sub. by split_and!.
Qed.

Lemma cascade_run rem : ∀ w k1,
  calm child root I w → lists_up s1 [child] order → order = k1 ++ rem → remaining rem (tree w) → (∀ x, x ∈ rem → ∃ p, parent_rel s1 x p) →
  ∃ w' ls, for_each (teardown root hooks snap) rem w = (Ok tt, w') ∧ calm child root I w' ∧ remaining [] (tree w') ∧
    calls w' = calls w ++ concat ls ∧ Forall2 (agent_calls hooks (nodes s1)) rem ls.
Proof using Hhooks Hok1 Hsnap.
  induction rem as [|id rem IH]; intros w k1 Hc Hup Heq Hrem Hin.
  { exists w, []. split_and!; [done..|by rewrite app_nil_r|done]. }
  destruct (Hin id) as [pid Hpid]; [left|].
  destruct (teardown_run w id pid rem k1 Hc Hup Heq Hrem Hpid) as (w1 & l & Hrun1 & Hc1 & Hrem1 & Hcalls1 & Hl).
  destruct (IH w1 (k1 ++ [id]) Hc1 Hup) as (w2 & ls & Hrun2 & Hc2 & Hrem2 & Hcalls2 & Hls);
    [by rewrite <- app_assoc|done|by intros x Hx; apply Hin; right|].
  exists w2, (l :: ls). split_and!; [|done..|by simpl; rewrite Hcalls2, Hcalls1, <- app_assoc|by constructor].
  simpl. by erewrite bind_step by exact Hrun1.
Qed.
End cascade.

(** ** The theorem *)

Lemma freezing_start root child s : tree_ok root s → in_tree s child → freezing child s [] [child].
Proof.
  intros Hok Hin. split; simpl.
  - intros x ->%list_elem_of_singleton. split; [done|reflexivity].
  - apply NoDup_singleton.
  - by apply list_elem_of_singleton.
  - by intros x ?%elem_of_nil.
  - by intros x c ?%elem_of_nil.
  - by intros c p ->%list_elem_of_singleton.
Qed.

(** Everything at or below the child has been popped when the stack is empty. *)
Lemma freezing_end child s popped x : freezing child s popped [] → rtc (parent_rel s) x child → x ∈ popped.
Proof.
  intros [Hin Hnd Hchild Hfr Hclosed _] Hr. rewrite app_nil_r in *. induction Hr as [|x y z Hxy _ IH]; [done|].
  by apply (Hclosed y); [apply IH|].
Qed.

Lemma below_old child s s' x :
  forest (nodes s) (children_by_parent s) → grows child s s' → in_tree s x →
  rtc (parent_rel s') x child → rtc (parent_rel s) x child.
Proof.
  intros Hf Hg Hin Hr. revert Hin Hg. induction Hr as [|x y z Hxy _ IH]; intros Hin Hg; [reflexivity|].
  pose proof (grows_parent_old _ _ _ Hg x y Hin Hxy) as Hold. eapply rtc_l; [exact Hold|]. apply IH; [|done].
  by apply (parent_rel_in_tree s x y Hf).
Qed.

(** Fuel for every tree the store can hold: each loop takes at most two steps
    for each of its [MAX_AGENTS_PER_STORE] agents. *)
Definition cascade_fuel : nat := 2049.

Lemma valid_in_tree root s x : tree_ok root s → in_tree s x → validate_agent_id x = Ok tt.
Proof.
  intros Hok [n Hn]. rewrite <- (forest_ids _ _ (ok_forest _ _ Hok) x n Hn). apply (node_id root), (ok_nodes _ _ Hok x n Hn).
Qed.

Lemma elem_lists_up s child order x : lists_up s [child] order → x ∈ order ↔ rtc (parent_rel s) x child.
Proof.
  intros [_ Hmem _]. rewrite Hmem. split; [by intros (f & ->%list_elem_of_singleton & ?)|]. intros Hr. exists child.
  split; [by apply list_elem_of_singleton|done].
Qed.

(** The loop that orders the removal, on a frozen subtree. *)
Lemma removal_order_run root s child popped :
  tree_ok root s → freezing child s popped [] →
  ∃ order, post_order cascade_fuel (sort_children <$> children_by_parent s) [(child, false)] [] = Some order ∧
    lists_up s [child] order ∧ remaining child s order order s.
Proof.
  intros Hok Hfz. pose proof (ok_forest _ _ Hok) as Hf. destruct (forest_rank s Hf) as (rank & Hrank & _).
  destruct (post_order_one s Hf rank Hrank (S (rank child)) child) as (order & Hup & Hwalk); [lia|].
  assert (∀ x, x ∈ order → x ∈ popped) as Hpop.
  { intros x Hx. eapply freezing_end; [exact Hfz|]. by apply (elem_lists_up s child order). }
  exists order. split_and!; [|done|].
  - assert (length order ≤ size (nodes s))%nat as Hlen.
    { apply NoDup_in_tree; [apply Hup|]. intros x Hx. apply (fz_in _ _ _ _ Hfz). rewrite app_nil_r. by apply Hpop. }
    pose proof (ok_size _ _ Hok) as Hsize. unfold MAX_AGENTS_PER_STORE in Hsize.
    replace cascade_fuel with (2 * length order + S (cascade_fuel - 1 - 2 * length order))%nat by (unfold cascade_fuel; lia).
    by rewrite Hwalk.
  - split; [| | |done].
    + intros x Hx. by eapply fz_frozen, Hpop.
    + intros x c Hx Hcx. split; [|done]. rewrite (elem_lists_up s child order) in * by done. by eapply rtc_l.
    + intros _. by apply (elem_lists_up s child order).
Qed.

(** Up to the cascade: the subtree frozen, its agents in order. *)
Lemma terminate_start {H} root (I : LogProp H) (hooks : Hooks H) (w0 : World H) caller child :
  calm child root I w0 → parent_rel (tree w0) child caller →
  ∃ d w order, terminate_child root hooks cascade_fuel caller child w0 = for_each (teardown root hooks d) order w ∧
    later child root I w0 w ∧ calm child root I w ∧ calls w = calls w0 ∧
    lists_up (tree w) [child] order ∧ remaining child (tree w) order order (tree w) ∧ snapshot_of (tree w) d.
Proof.
  intros Hc0 Hparent. pose proof (ok_forest _ _ (cm_ok _ _ _ _ Hc0)) as Hf.
  destruct (parent_rel_in_tree _ child caller Hf Hparent) as [Hchild Hcaller].
  destruct (take_snapshot_run child root I w0 Hc0) as (d1 & w1 & Hsnap1 & Hl1 & Hc1 & Hcalls1 & Hso1).
  destruct (freeze_spec child root I cascade_fuel [] [child] w1 Hc1) as (w2 & popped & Hrun2 & Hl2 & Hc2 & Hcalls2 & Hfz2).
  { apply (freezing_start root); [apply Hc1|]. eapply grows_in_tree; [apply Hl1|done]. }
  { unfold cascade_fuel, MAX_AGENTS_PER_STORE. lia. }
  destruct (take_snapshot_run child root I w2 Hc2) as (d3 & w3 & Hsnap3 & Hl3 & Hc3 & Hcalls3 & Hso3).
  destruct (removal_order_run root (tree w3) child popped) as (order & Hwalk & Hup & Hrem); [apply Hc3| |].
  { eapply freezing_grows; [apply Hl3|done]. }
  exists d3, w3, order. split_and!; [|etrans; [exact Hl1|]; by etrans|done|congruence|done..].
  unfold terminate_child, refuse_if, fail_if.
  rewrite (valid_in_tree root _ caller (cm_ok _ _ _ _ Hc0) Hcaller), (valid_in_tree root _ child (cm_ok _ _ _ _ Hc0) Hchild).
  erewrite bind_step by reflexivity. erewrite bind_step by reflexivity.
  erewrite bind_step by exact Hsnap1. rewrite (so_parents _ _ Hso1), lookup_fmap.
  destruct (grows_parent _ _ _ (lt_grows _ _ _ _ _ Hl1) child caller Hparent) as (n & Hn & Hnp). rewrite Hn.
  change (AgentNode.parent <$> Some n) with (Some (AgentNode.parent n)). rewrite Hnp.
  rewrite (bool_decide_eq_false_2 (Some _ = None)), (bool_decide_eq_false_2 (mjoin (Some (Some caller)) ≠ _)); [|by intros []|done].
  erewrite bind_step by reflexivity. erewrite bind_step by reflexivity.
  erewrite bind_step by exact Hrun2. erewrite bind_step by exact Hsnap3. rewrite (so_children _ _ Hso3), Hwalk.
  by erewrite bind_step by reflexivity.
Qed.

Lemma terminate_run {H} root acts (I : LogProp H) (hooks : Hooks H) h os caller child :
  let s := tree_run root acts tree_new in
  hooks_keep I hooks → I [] h → Forall (Forall (peaceful I child)) os → parent_rel s child caller →
  ∃ w order N ls, terminate_child root hooks cascade_fuel caller child (mkWorld s h os []) = (Ok tt, w) ∧
    calls w = concat ls ∧ Forall2 (agent_calls hooks N) order ls ∧
    (∀ x n, nodes s !! x = Some n → ∃ n', N !! x = Some n' ∧ same_agent n n') ∧
    I (calls w) (outside w) ∧ NoDup order ∧
    (∀ x, rtc (parent_rel s) x child → x ∈ order) ∧
    (∀ x, x ∈ order → in_tree s x → rtc (parent_rel s) x child) ∧
    (∀ k1 x k2 c, order = k1 ++ x :: k2 → parent_rel s c x → c ∈ k1) ∧
    ¬ in_tree (tree w) child ∧
    (∀ x, in_tree s x → ¬ rtc (parent_rel s) x child → in_tree (tree w) x).
Proof.
  intros s Hhooks HI Hos Hparent. assert (tree_ok root s) as Hok by apply tree_reach_ok. clearbody s.
  pose proof (ok_forest _ _ Hok) as Hf.
  destruct (terminate_start root I hooks (mkWorld s h os []) caller child) as (d & w & order & -> & Hl & Hc & Hcalls & Hup & Hrem & Hso);
    [done..|].
  pose proof (lt_grows _ _ _ _ _ Hl) as Hg. cbn [tree] in Hg.
  destruct (cascade_run child (tree w) order root I hooks Hhooks (cm_ok _ _ _ _ Hc) d Hso order w [])
    as (w' & ls & Hrun & Hc' & Hrem' & Hcalls' & Hls); [exact Hc|exact Hup|reflexivity|exact Hrem| |].
  { intros x Hx%(elem_lists_up _ _ _ _ Hup). apply rtc_inv in Hx as [->|(p & Hp & _)]; [|by exists p].
    exists caller. by eapply grows_parent. }
  exists w', order, (nodes (tree w)), ls. split_and!; [exact Hrun|by rewrite Hcalls', Hcalls|exact Hls|apply (gr_same _ _ _ Hg)|apply Hc'|apply Hup|..].
  - intros x Hx. apply (elem_lists_up _ _ _ _ Hup). by eapply grows_below.
  - intros x Hx Hx0. apply (elem_lists_up _ _ _ _ Hup) in Hx. by apply (below_old child s (tree w)).
  - intros k1 x k2 c Heq Hx. eapply (lu_first _ _ _ Hup); [exact Heq|]. by eapply grows_parent.
  - intros Hgone. by apply (rm_child _ _ _ _ _ Hrem'), elem_of_nil in Hgone.
  - intros x Hx Hno. apply (rm_others _ _ _ _ _ Hrem'); [by eapply grows_in_tree|].
    rewrite (elem_lists_up _ _ _ _ Hup). intros Hxo. by apply Hno, (below_old child s (tree w)).
Qed.

(** C19: terminating while others spawn.  From any reachable tree, whatever
    agents other callers insert, crash or rename at any moment in between, and
    when [I] is enough for the hooks to succeed and is kept by everyone (the
    archiver may fail), the parent's [terminate_child] returns and [I] holds.
    Agent by agent of the subtree, each once and children first, it has made
    exactly the documented calls in their order: its loop aborted, its run
    cancelled, its mailbox flushed, its grants revoked, the memory of a sub
    agent archived to its parent's workspace and its own workspace removed only
    when that succeeded, its node removed.  These are all the agents of the
    subtree there at the start, and none that was elsewhere.  At the end the
    child is gone and every other agent is still there. *)
Theorem terminate_child_completes {H} root acts (I : LogProp H) (hooks : Hooks H) h os caller child :
  let s := tree_run root acts tree_new in
  hooks_keep I hooks → I [] h → Forall (Forall (peaceful I child)) os → parent_rel s child caller →
  ∃ w order N ls, terminate_child root hooks cascade_fuel caller child (mkWorld s h os []) = (Ok tt, w) ∧
    calls w = concat ls ∧ Forall2 (agent_calls hooks N) order ls ∧
    (∀ x n, nodes s !! x = Some n → ∃ n', N !! x = Some n' ∧ same_agent n n') ∧
    I (calls w) (outside w) ∧ NoDup order ∧
    (∀ x, rtc (parent_rel s) x child → x ∈ order) ∧
    (∀ x, x ∈ order → in_tree s x → rtc (parent_rel s) x child) ∧
    (∀ k1 x k2 c, order = k1 ++ x :: k2 → parent_rel s c x → c ∈ k1) ∧
    ¬ in_tree (tree w) child ∧
    (∀ x, in_tree s x → ¬ rtc (parent_rel s) x child → in_tree (tree w) x).
Proof. apply terminate_run. Qed.

(** A root with a child, its child and a sub agent; while the child is
    terminated another agent is spawned under its child, and the sub agent crashes. *)
Definition sample_node (id : string) (kind : AgentKind.t) (parent : option string) : AgentNode.t :=
  AgentNode.mk id kind parent [Component.RootDir; Component.Normal "w"; Component.Normal id] [] None AgentStatus.Active.

Definition sample_path : PathBuf := [Component.RootDir; Component.Normal "w"].

Definition sample_acts : list tree_action :=
  [InsertRoot Some (sample_node "root" AgentKind.Root None) (Some "boss");
   InsertChild Some "root" (sample_node "a" AgentKind.Child (Some "root")) None;
   InsertChild Some "a" (sample_node "b" AgentKind.Child (Some "a")) None;
   InsertChild Some "a" (sample_node "s" AgentKind.Sub (Some "a")) None;
   InsertChild Some "root" (sample_node "other" AgentKind.Child (Some "root")) None].

Definition sample_hooks : Hooks unit :=
  mkHooks (λ _, mret tt) (λ _, mret tt) (λ _ _ _, mret tt) (λ _, mret tt) (λ _, mret tt) (Some (λ _ _ _, mret tt)) (Some (λ _, id)).

Definition sample_others : list (list (other unit)) :=
  [[]; [InTree (InsertChild Some "b" (sample_node "late" AgentKind.Child (Some "b")) None)]; [];
   [InTree (SetStatus "s" AgentStatus.Failed); InTree (InsertChild Some "a" (sample_node "later" AgentKind.Child (Some "a")) None)]].

Lemma terminate_child_completes_witness :
  parent_rel (tree_run sample_path sample_acts tree_new) "a" "root" ∧
  ∃ w order N ls, terminate_child sample_path sample_hooks cascade_fuel "root" "a"
      (mkWorld (tree_run sample_path sample_acts tree_new) tt sample_others []) = (Ok tt, w) ∧
    calls w = concat ls ∧ Forall2 (agent_calls sample_hooks N) order ls ∧ "s" ∈ order ∧
    ¬ in_tree (tree w) "a" ∧ in_tree (tree w) "other".
Proof.
  assert (parent_rel (tree_run sample_path sample_acts tree_new) "a" "root") as Hp.
  { eexists. split; [vm_compute; reflexivity|reflexivity]. }
  split; [exact Hp|].
  destruct (terminate_child_completes sample_path sample_acts (λ _ _, True) sample_hooks tt sample_others "root" "a")
    as (w & order & N & ls & Hrun & Hcalls & Hls & _ & _ & _ & Hall & _ & _ & Hgone & Hothers).
  - split; trivial; intros; split; trivial.
  - trivial.
  - repeat constructor; discriminate.
  - exact Hp.
  - exists w, order, N, ls. split_and!; [exact Hrun|exact Hcalls|exact Hls| |exact Hgone|].
    + apply Hall, rtc_once. eexists. split; [vm_compute; reflexivity|reflexivity].
    + apply Hothers; [eexists; vm_compute; reflexivity|].
      intros Hr. apply rtc_inv in Hr as [|(p & (n & Hn & Hpn) & Hr)]; [discriminate|].
      vm_compute in Hn. injection Hn as <-. simpl in Hpn. injection Hpn as <-.
      apply rtc_inv in Hr as [|(p & (n & Hn & Hpn) & _)]; [discriminate|]. vm_compute in Hn. injection Hn as <-. discriminate.
Defined.
