(* ===== verification/Deadlock.v ===== *)
(** * Deadlocks of awaiting agents

    Models [crates/messaging/reply-tracker/src/deadlock.rs]: an agent that
    awaits the reply of itself or of an ancestor is refused.  The bounded walk
    over a snapshot of the agent tree finds exactly those. *)
From S2P Require Import Prelude RustStr AgentTree AgentTreeFacts AgentSnapshot.
Open Scope string_scope.
Open Scope list_scope.
Open Scope Z_scope.

(** ** Definitions *)

Definition max_hops (snapshot : AgentTreeSnapshotData.t) : nat :=
  length (AgentTreeSnapshotData.nodes snapshot) `max` size (AgentTreeSnapshotData.parent_of snapshot).

(** [for _ in 0..max_hops] of [forms_cycle]. *)
Fixpoint forms_cycle_loop (hops : nat) (parent_of : gmap string (option string)) (target_bare current : string) : bool :=
  match hops with
  | O => false
  | S hops =>
      match parent_of !! current with
      | None | Some None => false
      | Some (Some parent) =>
          if String.eqb parent target_bare then true else forms_cycle_loop hops parent_of target_bare parent
      end
  end.

Definition forms_cycle (snapshot : AgentTreeSnapshotData.t) (caller_bare target_bare : string) : bool :=
  if String.eqb target_bare caller_bare then true
  else forms_cycle_loop (max_hops snapshot) (AgentTreeSnapshotData.parent_of snapshot) target_bare caller_bare.

(** [for _ in 0..max_hops] of [cycle_path]. *)
Fixpoint cycle_path_loop (hops : nat) (parent_of : gmap string (option string)) (target_bare current : string)
    (path : list string) : list string :=
  match hops with
  | O => path
  | S hops =>
      match parent_of !! current with
      | None | Some None => path
      | Some (Some parent) =>
          let path := path ++ [parent] in
          if String.eqb parent target_bare then path else cycle_path_loop hops parent_of target_bare parent path
      end
  end.

Definition cycle_path (snapshot : AgentTreeSnapshotData.t) (caller_bare target_bare : string) : list string :=
  let path := [caller_bare] in
  if String.eqb target_bare caller_bare then path
  else cycle_path_loop (max_hops snapshot) (AgentTreeSnapshotData.parent_of snapshot) target_bare caller_bare path.

(** ** The walk *)

(** [l] goes from parent to parent. *)
Fixpoint upward (s : AgentTreeInner.t) (c : string) (l : list string) : Prop :=
  match l with [] => True | p :: l => parent_rel s c p ∧ upward s p l end.

Section walk.
Context (s : AgentTreeInner.t) (d : AgentTreeSnapshotData.t) (Hso : snapshot_of s d).

Lemma snapshot_parent c p : AgentTreeSnapshotData.parent_of d !! c = Some (Some p) ↔ parent_rel s c p.
Proof using Hso.
  rewrite (so_parents _ _ Hso), lookup_fmap, fmap_Some. unfold parent_rel. naive_solver.
Qed.

Lemma forms_cycle_loop_sound hops target c :
  forms_cycle_loop hops (AgentTreeSnapshotData.parent_of d) target c = true → tc (parent_rel s) c target.
Proof using Hso.
  revert c. induction hops as [|hops IH]; intros c; [done|]. simpl.
  destruct (AgentTreeSnapshotData.parent_of d !! c) as [[p|]|] eqn:Hp; [|done..]. apply snapshot_parent in Hp.
  destruct (String.eqb_spec p target) as [<-|]; [by intros _; apply tc_once|]. intros Hrun. eapply tc_l; [exact Hp|by apply IH].
Qed.

Lemma forms_cycle_loop_complete (rank : string → nat) hops target c :
  (∀ c p, parent_rel s c p → (rank c < rank p)%nat) → (rank target ≤ rank c + hops)%nat →
  tc (parent_rel s) c target →
  forms_cycle_loop hops (AgentTreeSnapshotData.parent_of d) target c = true ∧
  ∀ path, ∃ l, cycle_path_loop hops (AgentTreeSnapshotData.parent_of d) target c path = path ++ l ++ [target] ∧ upward s c (l ++ [target]).
Proof using Hso.
  intros Hrank. revert c. induction hops as [|hops IH]; intros c Hle Htc; simpl.
  { assert (∀ x y, tc (parent_rel s) x y → (rank x < rank y)%nat) as Hlt.
    { induction 1 as [x y Hxy|x y z Hxy _ IH]; [by apply Hrank|]. specialize (Hrank x y Hxy). lia. }
    specialize (Hlt c target Htc). lia. }
  inversion Htc as [? ? Hct|? p ? Hcp Hpt]; subst.
  - apply snapshot_parent in Hct as Hp. rewrite Hp, String.eqb_refl. split; [done|]. intros path. by exists [].
  - apply snapshot_parent in Hcp as Hp. rewrite Hp. destruct (String.eqb_spec p target) as [->|Hne].
    + split; [done|]. intros path. by exists [].
    + specialize (Hrank c p Hcp). destruct (IH p) as [Hrun Hpath]; [lia|done|]. split; [done|]. intros path.
      destruct (Hpath (path ++ [p])) as (l & -> & Hup). exists (p :: l). by rewrite <- app_assoc.
Qed.
End walk.

(** An agent is refused to await exactly itself and its ancestors,
    on the snapshot of any reachable tree; the reported path then goes from
    the agent to the awaited one, from parent to parent. *)
Theorem forms_cycle_exact root acts caller target :
  let s := tree_run root acts tree_new in
  ∃ d, snapshot s = Some d ∧
    (forms_cycle d caller target = true ↔ rtc (parent_rel s) caller target) ∧
    (forms_cycle d caller target = true →
       ∃ l, cycle_path d caller target = caller :: l ∧ upward s caller l ∧ last (caller :: l) = Some target).
Proof.
  intros s. assert (tree_ok root s) as Hok by apply tree_reach_ok. clearbody s.
  destruct (snapshot_spec root s Hok) as (d & Hd & Hso). exists d. split; [done|].
  destruct (forest_rank s (ok_forest _ _ Hok)) as (rank & Hrank & Hmax & _).
  unfold forms_cycle, cycle_path. destruct (String.eqb_spec target caller) as [->|Hne].
  { split; [done|]. intros _. by exists []. }
  assert (rank target ≤ rank caller + max_hops d)%nat as Hhops.
  { unfold max_hops. rewrite (so_parents _ _ Hso), map_size_fmap. specialize (Hmax target). lia. }
  pose proof (forms_cycle_loop_complete s d Hso rank (max_hops d) target caller Hrank Hhops) as Hcomplete.
  assert (forms_cycle_loop (max_hops d) (AgentTreeSnapshotData.parent_of d) target caller = true ↔ tc (parent_rel s) caller target) as Hiff.
  { split; [by apply forms_cycle_loop_sound|]. by intros [? _]%Hcomplete. }
  rewrite Hiff. split.
  - split; [apply tc_rtc|]. intros Hr. inversion Hr; subst; [done|]. by eapply tc_rtc_r; [apply tc_once|].
  - intros [_ Hpath]%Hcomplete. destruct (Hpath [caller]) as (l & -> & Hup). exists (l ++ [target]).
    split_and!; [done..|]. by rewrite app_comm_cons, last_snoc.
Qed.
