(* ===== verification/RunSealed.v ===== *)
(** * Ending every run of an agent

    [cancel_all_runs_for_agent] of [crates/run-manager/src/run.rs], the last
    thing the runs of a terminated agent see: it blocks the agent first, so
    its scan ends, and no run of the agent is ever live again.  The same
    argument, that a blocked agent gets no new run, completes the theorem on
    the descendant cascade of [RunCascade]. *)
From S2P Require Import Prelude RustStr RunData RunStore RunManager RunOps RunFacts RunKeeps RunProps RunTree RunSpec RunCascade.
Open Scope string_scope.
Open Scope list_scope.
Open Scope Z_scope.

(** ** Who creates runs *)

(** No run appears, no agent is unblocked. *)
Definition still (m m' : RunManager) : Prop :=
  (∀ rid, is_Some (get rid (store m')) → is_Some (get rid (store m))) ∧ terminated_agents m ⊆ terminated_agents m'.

#[export] Instance still_preorder : PreOrder still.
Proof. split; [by split|]. intros m1 m2 m3 [Hr1 Ht1] [Hr2 Ht2]. split; [by auto|set_solver]. Qed.

Lemma still_refl m : still m m.
Proof. reflexivity. Qed.

Lemma keeps_still_modify f : (∀ m, still m (f m)) → keeps still (modify f : Sec unit).
Proof. intros Hf m. apply Hf. Qed.

Lemma still_same m m' : store m' = store m → terminated_agents m' = terminated_agents m → still m m'.
Proof. unfold still. by intros -> ->. Qed.

Lemma still_write f m : (∀ rid, is_Some (get rid (f (store m))) → is_Some (get rid (store m))) → still m (set_store f m).
Proof. done. Qed.

Lemma keeps_still_write id f : keeps still (write_run id f).
Proof.
  apply keeps_still_modify. intros m. apply still_write. intros rid. unfold get, update. simpl. by rewrite lookup_alter_is_Some.
Qed.

Lemma keeps_still_settle id r f : keeps still (settle_run id r f).
Proof.
  apply keeps_still_modify. intros m. apply still_write. intros rid. unfold get, update, drop_live_by_task. simpl.
  by rewrite lookup_alter_is_Some.
Qed.

Ltac still_step :=
  lazymatch goal with
  | |- keeps still (write_run _ _) => apply keeps_still_write
  | |- keeps still (settle_run _ _ _) => apply keeps_still_settle
  | |- keeps still (run_of _) => unfold run_of
  | |- keeps still (modify _) => apply keeps_still_modify; intros ?; by apply still_same
  | |- _ => tree_step
  end.
Ltac still := repeat still_step.

(** An action that creates no run. *)
Definition creates (a : action) : bool := match a with Ensure _ _ _ _ _ _ => true | _ => false end.

Section sealed.
Context `{RunYaml, DirOrder, RunOrder}.

Lemma keeps_still_apply {A} (sec : Sec A) m : keeps still sec → still m (sec m).2.
Proof. intros Hk. apply Hk. Qed.

Lemma still_persist run : keeps still (persist_section run).
Proof. intros m. unfold persist_section. destruct (persister m); [|by apply still_refl]. by destruct (persist run s). Qed.

Lemma still_check tracker id tokens cost m : still m (budget_check tracker id tokens cost m).2.
Proof.
  unfold budget_check. section.
  repeat (case_match; simplify_eq/=; try apply still_refl; try apply keeps_still_write; try apply keeps_still_settle).
Qed.

Lemma still_perform a m : creates a = false → still m (perform a m).
Proof.
  intros Hs. unfold perform. destruct (possible a m); [|reflexivity]. destruct a; cbn [act]; try discriminate Hs.
  all: try (apply (@keeps_still_apply)).
  - unfold round_section, settle_round. still.
  - unfold complete_run_section. still.
  - unfold fail_run_section. still.
  - unfold force_cancel_section. still.
  - unfold cancel_descendant_section. still.
  - unfold pause_suspended_section. still.
  - unfold arm_pause_section. still.
  - unfold cancel_suspended_section. still.
  - unfold cancel_paused_section. still.
  - unfold arm_cancel_section. still.
  - unfold suspend_run_section. still.
  - unfold resume_run_section, invalid_state. still.
  - unfold resume_if_suspended_section. still.
  - unfold interrupt_section. still.
  - apply still_check.
  - unfold commit_section. still.
  - unfold block_agent_section. apply keeps_still_modify. intros m0. split; simpl; [done|set_solver].
  - unfold add_agents. still.
  - unfold drop_agents. still.
  - unfold persist_now. still. apply still_persist.
  - unfold emit. still.
  - unfold close_section. still.
  - by apply still_same.
Qed.

(** ** A blocked agent gets no more live runs *)

Definition live_run_of (agent rid : string) (m : RunManager) : Prop :=
  ∃ r, get rid (store m) = Some r ∧ is_live r = true ∧ Run.controller_agent r = agent.

(** Once blocked, the agent stays blocked and its live runs only get fewer. *)
Definition seals (agent : string) (m m' : RunManager) : Prop :=
  store_ok (store m) → agent ∈ terminated_agents m →
  store_ok (store m') ∧ agent ∈ terminated_agents m' ∧ ∀ rid, live_run_of agent rid m' → live_run_of agent rid m.

#[export] Instance seals_preorder agent : PreOrder (seals agent).
Proof.
  split; [by intros m|]. intros m1 m2 m3 H12 H23 Hok Hin. destruct (H12 Hok Hin) as (Hok2 & Hin2 & Hl2).
  destruct (H23 Hok2 Hin2) as (Hok3 & Hin3 & Hl3). split_and!; auto.
Qed.

(** A run that is live later was live before, if it was there. *)
Lemma live_back agent rid m m' r :
  advances (store m) (store m') → get rid (store m) = Some r → live_run_of agent rid m' → live_run_of agent rid m.
Proof.
  intros Ha Hr (r' & Hr' & Hl & Hag). destruct (Ha rid r Hr) as (r2 & Hr2 & Hadv). unfold get in Hr'. rewrite Hr2 in Hr'.
  injection Hr' as ->. exists r. split_and!; [done| |by rewrite <- (ra_agent _ _ Hadv)].
  destruct (is_live r) eqn:Hlr; [done|]. by rewrite (ra_final _ _ Hadv Hlr), Hlr in Hl.
Qed.

Lemma still_seals agent m m' : mgood m m' → still m m' → seals agent m m'.
Proof.
  intros Hg [Hdom Ht] Hok Hin. destruct (Hg Hok) as [Hok' Ha]. split_and!; [done|by apply Ht|].
  intros rid Hl. pose proof Hl as (r' & Hr' & _). destruct (Hdom rid) as [r Hr]; [by exists r'|]. by eapply live_back.
Qed.

(** While an agent is blocked, none of its runs comes alive. *)
Lemma perform_blocked agent a m rid :
  store_ok (store m) → creation_blocked agent m = true → live_run_of agent rid (perform a m) → live_run_of agent rid m.
Proof.
  intros Hok Hb Hl. destruct (perform_good a m Hok) as [_ Ha].
  destruct (get rid (store m)) as [r|] eqn:Hr; [by eapply live_back|]. exfalso.
  destruct (creates a) eqn:Hc.
  - unfold perform in *. destruct (possible a m); [|destruct Hl as (? & ? & _); congruence].
    destruct a as [now new_id strict task agent' cfg| | | | | | | | | | | | | | | | | | | | | | |]; try discriminate Hc.
    cbn [act] in Hl. rewrite ensure_section_cases in Hl. destruct Hl as (r' & Hr' & _ & Hag).
    destruct (creation_blocked agent' m) eqn:Hb'; [cbn [snd] in Hr'; congruence|].
    destruct (find_live_by_task task (store m)); [destruct (strict && _); cbn [snd] in Hr'; congruence|].
    destruct (MAX_RUNS_PER_STORE <=? _); [cbn [snd] in Hr'; congruence|]. cbn [snd] in Hr'.
    unfold get, set_store, insert in Hr', Hr. cbn in Hr'.
    apply lookup_insert_Some in Hr' as [[_ <-]|[_ Hr']]; [|congruence]. cbn in Hag. congruence.
  - destruct (still_perform a m Hc) as [Hdom _]. destruct (Hdom rid) as [r Hr'']; [|congruence].
    destruct Hl as (r' & Hr' & _). by exists r'.
Qed.

Lemma perform_seals agent a m : seals agent m (perform a m).
Proof.
  intros Hok Hin. destruct (perform_good a m Hok) as [Hok' _]. split_and!; [done| |].
  - destruct (creates a) eqn:Hc; [|by apply still_perform]. unfold perform. destruct (possible a m); [|done].
    destruct a; try discriminate Hc. cbn [act]. rewrite ensure_section_cases. repeat case_match; done.
  - intros rid. apply perform_blocked; [done|]. unfold creation_blocked. by rewrite bool_decide_eq_true_2.
Qed.

(** *** Under a guard *)

Lemma none_live_run_of agents m : none_live agents m ↔ ∀ agent rid, agent ∈ agents → ¬ live_run_of agent rid m.
Proof.
  split.
  - intros Hn agent rid Ha (r & Hr & Hl & <-). by rewrite (Hn rid r Hr Ha) in Hl.
  - intros Hn rid r Hr Ha. destruct (is_live r) eqn:Hl; [|done]. destruct (Hn _ rid Ha). by exists r.
Qed.

Lemma guard_blocks agent held oth acts m :
  (∀ agent, blocks m agent = mine held agent + oth agent) → guarded oth acts → agent ∈ held → creation_blocked agent m = true.
Proof.
  intros Hb Hg Ha. pose proof (guarded_nonneg _ _ agent Hg). specialize (Hb agent). unfold mine in Hb.
  rewrite bool_decide_eq_true_2 in Hb by done. unfold creation_blocked, blocks in *. apply orb_true_iff. right. lia.
Qed.

(** The others' turn, while the operation holds the guards of [held]. *)
Lemma guarded_turn agents held acts rest : ∀ m oth,
  store_ok (store m) → (∀ agent, blocks m agent = mine held agent + oth agent) → guarded oth (acts ++ rest) →
  agents ⊆ held → none_live agents m → none_live agents (perform_all acts m).
Proof.
  unfold perform_all. induction acts as [|a acts IH]; intros m oth Hok Hb Hg Hsub Hn; simpl; [done|].
  apply (IH (perform a m) (λ agent, oth agent + guard_delta agent a)).
  - by apply perform_good.
  - intros agent. pose proof (guarded_nonneg _ _ agent (guarded_cons _ _ _ Hg)) as Hnn. simpl in Hnn.
    rewrite blocks_perform; rewrite Hb; pose proof (mine_nonneg held agent); lia.
  - by apply guarded_cons.
  - done.
  - rewrite none_live_run_of in *. intros agent rid Ha Hl. apply (Hn agent rid Ha).
    eapply perform_blocked; [done| |done]. eapply guard_blocks; [done..|by apply Hsub].
Qed.

Lemma perform_all_seals agent acts : ∀ m, seals agent m (perform_all acts m).
Proof.
  unfold perform_all. induction acts as [|a acts IH]; intros m; simpl; [reflexivity|]. etrans; [apply perform_seals|apply IH].
Qed.

(** *** Through an operation *)

Definition wseals (agent : string) (w w' : World) : Prop := seals agent (manager w) (manager w').

#[export] Instance wseals_preorder agent : PreOrder (wseals agent).
Proof. split; [intros w; unfold wseals; reflexivity|]. intros w1 w2 w3 H12 H23. unfold wseals in *. by etrans. Qed.

Lemma atomically_seals {A} agent (sec : Sec A) : keeps (seals agent) sec → keeps (wseals agent) (atomically sec).
Proof.
  intros Hsec w. unfold atomically. set (m := perform_all _ _). destruct (sec m) as [r m'] eqn:Hm. unfold wseals. simpl.
  trans m; [apply perform_all_seals|]. pose proof (Hsec m) as Hk. by rewrite Hm in Hk.
Qed.

Lemma attempt_seals {A} agent (op : RM A) : keeps (wseals agent) op → keeps (wseals agent) (attempt op).
Proof. intros Hop w. unfold attempt. specialize (Hop w). by destruct (op w). Qed.

Lemma sec_seals {A} agent (sec : Sec A) : keeps mgood sec → keeps still sec → keeps (seals agent) sec.
Proof. intros Hg Hs m. apply still_seals; [apply Hg|apply Hs]. Qed.

Lemma seals_persist_and_emit agent id e : keeps (wseals agent) (persist_and_emit id e).
Proof.
  unfold persist_and_emit, persist_snapshot_best_effort, persist_best_effort.
  repeat (keeps_step || apply attempt_seals || apply atomically_seals || apply sec_seals).
  all: try apply keeps_get; try apply keeps_persist_section; try apply keeps_emit_event; try apply still_persist.
  - intros m. reflexivity.
  - unfold emit. still.
Qed.

Lemma persist_and_emit_Ok id e w : ∃ w', persist_and_emit id e w = (Ok tt, w').
Proof.
  unfold persist_and_emit. rewrite bind_run.
  assert (∃ w1, persist_snapshot_best_effort id w = (Ok tt, w1)) as [w1 ->].
  { unfold persist_snapshot_best_effort. rewrite bind_run. unfold atomically at 1. cbn.
    repeat case_match; try (eexists; reflexivity).
    unfold persist_best_effort. rewrite bind_run. unfold attempt. by destruct (atomically _ _); eexists. }
  unfold atomically. cbn. by eexists.
Qed.

Lemma seals_force_cancel agent now id reason : keeps (wseals agent) (force_cancel_run_by_id_sync now id reason).
Proof.
  unfold force_cancel_run_by_id_sync. apply (keeps_bind _).
  - apply atomically_seals, sec_seals; [intros m; apply force_cancel_good|]. unfold force_cancel_section. still.
  - intros [e|]; [|apply (keeps_ret _)]. apply (keeps_bind _); [apply seals_persist_and_emit|]. intros _. apply (keeps_ret _).
Qed.

Lemma seals_read agent : keeps (wseals agent) (atomically (get_state : Sec RunManager)).
Proof. apply atomically_seals. intros m. reflexivity. Qed.

(** The cancels of one agent unblock and revive nobody's runs. *)
Lemma seals_cancel_all a now agent reason : keeps (wseals a) (cancel_all_runs_for_agent now agent reason).
Proof.
  unfold cancel_all_runs_for_agent. apply (keeps_bind _).
  { apply atomically_seals, sec_seals; [apply keeps_block|]. unfold block_agent_section. apply keeps_still_modify.
    intros m. split; simpl; [done|set_solver]. }
  intros _. generalize (S DESCENDANT_CASCADE_SCAN_LIMIT), (truncate_reason reason). intros n r.
  assert (∀ ids, keeps (wseals a) (force_cancel_all now ids r)) as Hids.
  { intros ids. induction ids; simpl; [apply (keeps_ret _)|]. apply (keeps_bind _); [apply seals_force_cancel|done]. }
  induction n as [|n IH]; simpl; (apply (keeps_bind _); [apply seals_read|]); intros m; case_match.
  - apply (keeps_ret _).
  - apply (keeps_lift _ (Err _)).
  - apply (keeps_ret _).
  - apply (keeps_bind _); [apply (Hids (_ :: _))|done].
Qed.

(** Cancelling one run ends it, whatever the others do. *)
Lemma force_cancel_seals agent now id reason w :
  store_ok (store (manager w)) → agent ∈ terminated_agents (manager w) →
  ∃ b w', force_cancel_run_by_id_sync now id reason w = (Ok b, w') ∧ wseals agent w w' ∧ ¬ live_run_of agent id (manager w').
Proof.
  intros Hok Hin. unfold force_cancel_run_by_id_sync. rewrite bind_run.
  assert (keeps (wseals agent) (atomically (force_cancel_section now id reason))) as Hk.
  { apply atomically_seals, sec_seals; [intros m; apply force_cancel_good|]. unfold force_cancel_section. still. }
  specialize (Hk w).
  assert (∃ e w1, atomically (force_cancel_section now id reason) w = (Ok e, w1) ∧ ¬ live_run_of agent id (manager w1)) as (e & w1 & Hrun & Hdead).
  { unfold atomically. set (m := perform_all _ _). unfold force_cancel_section. section.
    destruct (get id (store m)) as [r|] eqn:Hr; [destruct (is_terminal (Run.status r)) eqn:Ht|]; eexists _, _; (split; [reflexivity|]); cbn.
    - intros (r' & Hr' & Hl & _). rewrite Hr in Hr'. injection Hr' as <-. unfold is_terminal, is_live in *. by rewrite Hl in Ht.
    - intros (r' & Hr' & Hl & _). unfold get, update, drop_live_by_task in Hr', Hr. cbn in Hr'. rewrite lookup_alter_eq, Hr in Hr'.
      by injection Hr' as <-.
    - intros (r' & Hr' & _). congruence. }
  rewrite Hrun in *. cbn [snd] in Hk. destruct e as [e|]; [|by exists false, w1].
  destruct (persist_and_emit_Ok id e w1) as [w2 Hrun2]. rewrite bind_run, Hrun2.
  pose proof (seals_persist_and_emit agent id e w1) as Hk2. rewrite Hrun2 in Hk2. cbn [snd] in Hk2.
  exists true, w2. split_and!; [done|by etrans|]. destruct (Hk Hok Hin) as (Hok1 & Hin1 & _).
  destruct (Hk2 Hok1 Hin1) as (_ & _ & Hl). intros Hlive. by apply Hdead, Hl.
Qed.

Lemma force_cancel_all_seals agent now reason ids : ∀ w,
  store_ok (store (manager w)) → agent ∈ terminated_agents (manager w) →
  ∃ w', force_cancel_all now ids reason w = (Ok tt, w') ∧ wseals agent w w' ∧
    ∀ id, id ∈ ids → ¬ live_run_of agent id (manager w').
Proof.
  induction ids as [|id ids IH]; intros w Hok Hin; simpl.
  { exists w. split_and!; [done|by unfold wseals|]. by intros id ?%elem_of_nil. }
  destruct (force_cancel_seals agent now id reason w Hok Hin) as (b & w1 & Hrun1 & Hs1 & Hdead1).
  destruct (Hs1 Hok Hin) as (Hok1 & Hin1 & _). destruct (IH w1 Hok1 Hin1) as (w2 & Hrun2 & Hs2 & Hdead2).
  rewrite bind_run, Hrun1. exists w2. split_and!; [done|by etrans|].
  intros i [->|Hi]%elem_of_cons; [|by apply Hdead2]. destruct (Hs2 Hok1 Hin1) as (_ & _ & Hl). intros Hlive. by apply Hdead1, Hl.
Qed.
End sealed.

Section cascade.
Context `{RunYaml, DirOrder} `{RunOrderLaws}.

(** C18: a cascade that succeeds is complete, and so far final.  However other
    callers' sections fall between its own (nobody rewires the tree meanwhile,
    and other cascades drop no guards but those they took), when the cascade
    below a run answers [Ok], every run that was stored when it began and
    belongs to a descendant of the run's agent has ended, and at the moment it
    answers no descendant has any live run, those created meanwhile included. *)
Theorem cascade_ends_descendants w now id reason w' tree root :
  reachable (manager w) → calm w → guarded (blocks (manager w)) (concat (others w)) →
  agent_tree (manager w) = Some tree → get id (store (manager w)) = Some root →
  cascade_descendants_for_run now id reason w = (Ok tt, w') →
  ∃ agents, post_order_descendant_agents tree (Run.controller_agent root) = Ok agents ∧
    (∀ rid r, get rid (store (manager w)) = Some r → Run.controller_agent r ∈ agents →
      ∃ r', get rid (store (manager w')) = Some r' ∧ is_live r' = false) ∧
    (∀ rid r, get rid (store (manager w')) = Some r → Run.controller_agent r ∈ agents → is_live r = false).
Proof.
  intros Hreach Hcalm Hguard Htree Hroot Hrun. unfold cascade_descendants_for_run in Hrun.
  apply M_bind_Ok in Hrun as ([answer held] & w1 & Hr1 & Hrun). apply M_bind_Ok in Hrun as (? & w2 & Hr2 & Hrun).
  apply lift_Ok in Hrun as [-> <-].
  assert (after w w) as Hw by (split; [by apply reachable_ok|reflexivity|done|done]).
  assert (shielded [] w) as Hs by (exists (blocks (manager w)); split; [|done]; intros agent; unfold mine; by rewrite bool_decide_eq_false_2 by apply not_elem_of_nil).
  destruct (post_order_descendant_agents tree (Run.controller_agent root)) as [agents|e] eqn:Hpost.
  2: { exfalso. by eapply (scans_refused _ now id reason tree root e). }
  destruct (scans_done _ now id reason tree root agents _ _ w _ _ _ Hr1 Hw Hs Htree Hroot Hpost ltac:(done)) as (Hw1 & Hs1 & Hsub & Hnone).
  exists agents. split; [done|].
  assert (none_live agents (manager w2)) as Hn2.
  { destruct Hs1 as (oth & Hb & Hg). unfold atomically in Hr2. cbn in Hr2. injection Hr2 as _ <-. intros rid r.
    assert (guarded oth (default [] (head (others w1)) ++ concat (tl (others w1)))) as Hg' by (by destruct (others w1)).
    exact (guarded_turn agents held _ _ (manager w1) oth (af_ok _ _ Hw1) Hb Hg' Hsub Hnone rid r). }
  split; [|exact Hn2]. change (ended_since agents w w2). apply none_live_ended; [|exact Hn2].
  eapply (after_step (atomically (drop_agents held))); [|apply calm_section; intros m; reflexivity|exact Hr2|exact Hw1].
  apply atomically_keeps, keeps_drop_agents.
Qed.
End cascade.


(** ** The operation *)

Section cancel_all.
Context `{RunYaml, DirOrder} `{RunOrderLaws}.

(** After a blocked agent's scan, only what the scan listed can be live. *)
Lemma scan_run agent w :
  store_ok (store (manager w)) → agent ∈ terminated_agents (manager w) →
  ∃ m w1, atomically get_state w = (Ok m, w1) ∧ wseals agent w w1 ∧ manager w1 = m ∧
    ∀ rid, live_run_of agent rid m ↔ rid ∈ live_run_ids_for_agent_in_store (store m) agent.
Proof.
  intros Hok Hin. assert (keeps (wseals agent) (atomically (get_state : Sec RunManager))) as Hk.
  { apply atomically_seals. intros m. reflexivity. }
  specialize (Hk w). unfold atomically in *. cbn in *. eexists _, _. split; [reflexivity|]. split_and!; [exact Hk|done|].
  intros rid. rewrite elem_live_ids_of by apply (Hk Hok Hin). done.
Qed.

Lemma cancel_all_run agent now reason w :
  store_ok (store (manager w)) →
  ∃ w', cancel_all_runs_for_agent now agent reason w = (Ok tt, w') ∧
    store_ok (store (manager w')) ∧ agent ∈ terminated_agents (manager w') ∧
    ∀ rid, ¬ live_run_of agent rid (manager w').
Proof.
  intros Hok. unfold cancel_all_runs_for_agent. rewrite bind_run.
  assert (∃ w1, atomically (block_agent_section agent) w = (Ok tt, w1) ∧ store_ok (store (manager w1)) ∧
    agent ∈ terminated_agents (manager w1)) as (w1 & -> & Hok1 & Hin1).
  { pose proof (atomically_keeps _ (keeps_block agent) w Hok) as [Hok1 _]. unfold atomically in *. cbn in *.
    eexists. split_and!; [reflexivity|exact Hok1|]. cbn. set_solver. }
  generalize (truncate_reason reason). intros r. cbn [cancel_scans]. rewrite bind_run.
  destruct (scan_run agent w1 Hok1 Hin1) as (m & w2 & -> & Hs2 & <- & Hscan2).
  destruct (Hs2 Hok1 Hin1) as (Hok2 & Hin2 & _).
  destruct (live_run_ids_for_agent_in_store (store (manager w2)) agent) as [|i ids] eqn:Hids.
  { exists w2. split_and!; [done..|]. intros rid Hl. apply Hscan2 in Hl. by apply elem_of_nil in Hl. }
  rewrite bind_run. destruct (force_cancel_all_seals agent now r (i :: ids) w2 Hok2 Hin2) as (w3 & -> & Hs3 & Hdead).
  destruct (Hs3 Hok2 Hin2) as (Hok3 & Hin3 & Hl3).
  assert (∀ rid, ¬ live_run_of agent rid (manager w3)) as Hnone3.
  { intros rid Hl. apply (Hdead rid); [|done]. by apply Hscan2, Hl3. }
  destruct (scan_run agent w3 Hok3 Hin3) as (m & w4 & Hrun4 & Hs4 & <- & Hscan4).
  destruct (Hs4 Hok3 Hin3) as (Hok4 & Hin4 & Hl4).
  assert (live_run_ids_for_agent_in_store (store (manager w4)) agent = []) as Hnil.
  { apply elem_of_nil_inv. intros rid Hrid. by apply (Hnone3 rid), Hl4, Hscan4. }
  exists w4. split_and!; [|done..|by intros rid Hl; apply (Hnone3 rid), Hl4].
  assert (∃ n, DESCENDANT_CASCADE_SCAN_LIMIT = n) as [n ->] by eauto.
  destruct n; simpl; by rewrite bind_run, Hrun4, Hnil.
Qed.

(** C20: ending an agent's runs.  From any reachable manager, whatever
    sections of other callers fall in between, [cancel_all_runs_for_agent]
    succeeds, and no run of the agent is live then or ever after. *)
Theorem cancel_all_final now agent reason w acts :
  reachable (manager w) →
  ∃ w', cancel_all_runs_for_agent now agent reason w = (Ok tt, w') ∧
    ∀ rid r, get rid (store (perform_all acts (manager w'))) = Some r → Run.controller_agent r = agent → is_live r = false.
Proof.
  intros Hreach. destruct (cancel_all_run agent now reason w) as (w' & Hrun & Hok & Hin & Hnone); [by apply reachable_ok|].
  exists w'. split; [done|]. intros rid r Hr Ha. destruct (is_live r) eqn:Hl; [|done]. destruct (Hnone rid).
  destruct (perform_all_seals agent acts (manager w') Hok Hin) as (_ & _ & Hback). apply Hback. by exists r.
Qed.
End cancel_all.

(** ** The witness *)

#[local] Existing Instances no_yaml run_order_model run_order_model_laws sample_dir_order.

(** While the helper's runs are cancelled, a caller asks for another one. *)
Definition raced_cancel_all : World :=
  mkWorld sample_family [[]; [Ensure 8 "r9" false "task-9" "helper" sample_config]; [Suspend 8 "r2" "session-3"]].

Lemma cancel_all_final_witness :
  reachable (manager raced_cancel_all) ∧
  ∃ w', cancel_all_runs_for_agent 9 "helper" "stop" raced_cancel_all = (Ok tt, w') ∧
    ∀ r, get "r2" (store (perform (Ensure 10 "r10" false "task-10" "helper" sample_config) (manager w'))) = Some r →
      Run.controller_agent r = "helper" → is_live r = false.
Proof.
  split; [exact sample_family_reachable|].
  destruct (cancel_all_final 9 "helper" "stop" raced_cancel_all [Ensure 10 "r10" false "task-10" "helper" sample_config]
    sample_family_reachable) as (w' & Hrun & Hfinal).
  exists w'. split; [exact Hrun|]. intros r. exact (Hfinal "r2" r).
Defined.

Lemma cascade_ends_descendants_witness :
  ∃ r, get "r2" (store (manager (cascade_descendants_for_run 9 "r1" "stop" raced_cascade).2)) = Some r ∧ is_live r = false.
Proof.
  assert (calm raced_cascade) as Hcalm by (repeat constructor).
  assert (guarded (blocks sample_family) (concat (others raced_cascade))) as Hguard.
  { apply guarded_none; [repeat constructor|]. intros agent. unfold blocks. change (scoped_block_counts sample_family) with (∅ : gmap string Z).
    rewrite lookup_empty. discriminate. }
  assert (get "r1" (store sample_family) = Some (sample_run_of "r1" sample_family)) as Hr1 by by vm_compute.
  assert (get "r2" (store sample_family) = Some (sample_run_of "r2" sample_family)) as Hr2 by by vm_compute.
  assert (Run.controller_agent (sample_run_of "r1" sample_family) = "lead") as Ho1 by by vm_compute.
  assert (Run.controller_agent (sample_run_of "r2" sample_family) = "helper") as Ho2 by by vm_compute.
  assert (post_order_descendant_agents sample_lineage "lead" = Ok ["helper"]) as Hp by by vm_compute.
  assert ((cascade_descendants_for_run 9 "r1" "stop" raced_cascade).1 = Ok tt) as Hok by by vm_compute.
  destruct (cascade_descendants_for_run 9 "r1" "stop" raced_cascade) as [r w'] eqn:Hrun. cbn [fst snd] in Hok |- *.
  rewrite Hok in Hrun.
  destruct (cascade_ends_descendants raced_cascade 9 "r1" "stop" w' sample_lineage _ sample_family_reachable Hcalm Hguard eq_refl Hr1 Hrun)
    as (agents & Hpost & Hend & _).
  rewrite Ho1, Hp in Hpost. injection Hpost as <-. destruct (Hend "r2" _ Hr2) as (r' & Hr' & Hl).
  - rewrite Ho2. by left.
  - exists r'. split; [exact Hr'|exact Hl].
Defined.
