(* ===== verification/CascadeAdapters.v ===== *)
(** * The terminate cascade on its production backends

    Models [GrantRevokeCascade] and [RunManagerCascade] of
    [crates/capabilities/cap-lifecycle/src/cascade_adapters.rs], which wire the
    terminate controller to the grant store and to the run manager, and joins
    the three components: a terminated agent is left with nothing. *)
From S2P Require Import Prelude RustStr GrantData Subset AgentTree AgentTreeFacts Terminate TerminateProps.
From S2P Require GrantStore StoreFacts StoreProps Revocation RunData RunStore RunManager RunOps RunFacts RunProps RunSealed.
Open Scope string_scope.
Open Scope list_scope.
Open Scope Z_scope.

(** What the production hooks act on; [rest] is the mailboxes and files. *)
Record Backends (X : Type) := mkBackends {
  run_manager : RunOps.World;
  grant_store : GrantStore.GrantStore;
  rest : X
}.
Arguments mkBackends {X}.
Arguments run_manager {X}.
Arguments grant_store {X}.
Arguments rest {X}.

Section adapters.
Context `{Chrono, Codec, GrantStore.HashOrder}.
Context `{RunStore.RunYaml, RunStore.DirOrder, RunStore.RunOrder}.
Context {X : Type}.

(** [GrantRevokeCascade::revoke_for_agent]. *)
Definition grant_revoke_for_agent (agent_id : string) : M (Backends X) LifecycleError.t unit := λ b,
  let (r, s) := GrantStore.revoke_by_grantee agent_id (grant_store b) in
  (match r with Ok _ => Ok tt | Err _ => Err LifecycleError.CascadePartial end, mkBackends (run_manager b) s (rest b)).

(** [RunManagerCascade::cancel_run]: an error is logged, never returned. *)
Definition run_cancel_run (now : Z) (agent_id : string) : M (Backends X) LifecycleError.t unit := λ b,
  let (_, w) := RunOps.cancel_all_runs_for_agent now agent_id "terminate-cascade" (run_manager b) in
  (Ok tt, mkBackends w (grant_store b) (rest b)).

(** An operation on the mailboxes or the files. *)
Definition on_rest (f : M X LifecycleError.t unit) : M (Backends X) LifecycleError.t unit := λ b,
  let (r, x) := f (rest b) in (r, mkBackends (run_manager b) (grant_store b) x).

(** The controller as it is wired; the mailbox and file hooks are parameters. *)
Definition production_hooks (now : Z) (flush : string → M X LifecycleError.t unit)
    (notify : string → string → string → M X LifecycleError.t unit) (cleanup : PathBuf → M X LifecycleError.t unit)
    (archiver : string → PathBuf → PathBuf → M X LifecycleError.t unit) (abort : string → X → X) : Hooks (Backends X) :=
  mkHooks grant_revoke_for_agent (λ a, on_rest (flush a)) (λ p c r, on_rest (notify p c r)) (run_cancel_run now)
    (λ p, on_rest (cleanup p)) (Some (λ a p q, on_rest (archiver a p q)))
    (Some (λ a b, mkBackends (run_manager b) (grant_store b) (abort a (rest b)))).

(** A section of the run manager taken by another caller. *)
Definition run_section (a : RunOps.action) (b : Backends X) : Backends X :=
  mkBackends (RunOps.mkWorld (RunOps.perform a (RunOps.manager (run_manager b))) (RunOps.others (run_manager b)))
    (grant_store b) (rest b).
End adapters.

(** ** What is over stays over *)

Definition no_active_grant (a : string) (s : GrantStore.GrantStore) : Prop :=
  ∀ id g, GrantStore.grants s !! id = Some g → Grant.grantee g = a → Grant.is_active g = false.

Definition no_live_run (a : string) (m : RunManager.RunManager) : Prop :=
  ∀ id r, RunStore.get id (RunManager.store m) = Some r → RunData.Run.controller_agent r = a → RunData.is_live r = false.

Lemma no_live_run_alt a m : no_live_run a m ↔ ∀ id, ¬ RunSealed.live_run_of a id m.
Proof.
  split.
  - intros Hno id (r & Hr & Hl & Ha). specialize (Hno id r Hr Ha). congruence.
  - intros Hno id r Hr Ha. destruct (RunData.is_live r) eqn:Hl; [|done]. destruct (Hno id). by exists r.
Qed.

(** Both backends are sound, and whoever was cancelled or revoked has nothing. *)
Record settled {X} (cs : list Call.t) (b : Backends X) : Prop := {
  st_store : RunFacts.store_ok (RunManager.store (RunOps.manager (run_manager b)));
  st_healthy : StoreFacts.healthy (grant_store b);
  st_wf : StoreFacts.wf (grant_store b);
  st_runs a : Call.CancelRun a ∈ cs →
    a ∈ RunManager.terminated_agents (RunOps.manager (run_manager b)) ∧ no_live_run a (RunOps.manager (run_manager b));
  st_grants a : Call.RevokeForAgent a ∈ cs → no_active_grant a (grant_store b)
}.

(** A call that is neither a cancel nor a revocation asks for nothing new. *)
Lemma settled_more {X} cs c (b b' : Backends X) :
  run_manager b' = run_manager b → grant_store b' = grant_store b →
  (∀ a, c ≠ Call.CancelRun a) → (∀ a, c ≠ Call.RevokeForAgent a) → settled cs b → settled (cs ++ [c]) b'.
Proof.
  intros Hr Hg Hc1 Hc2 []. split; rewrite ?Hr, ?Hg; [done..| |]; intros a [?|Heq%list_elem_of_singleton]%elem_of_app;
    [auto|by destruct (Hc1 a)|auto|by destruct (Hc2 a)].
Qed.

(** [seals] says it for the runs. *)
Lemma seals_no_live a m m' :
  RunSealed.seals a m m' → RunFacts.store_ok (RunManager.store m) →
  a ∈ RunManager.terminated_agents m ∧ no_live_run a m → a ∈ RunManager.terminated_agents m' ∧ no_live_run a m'.
Proof.
  intros Hs Hok [Hin Hno]. destruct (Hs Hok Hin) as (_ & Hin' & Hback). split; [done|].
  rewrite no_live_run_alt in *. intros id Hl. by apply (Hno id), Hback.
Qed.

Section settle.
Context `{Chrono, Codec, GrantStore.HashOrder, !GrantStore.HashOrderLaws}.
Context `{RunStore.RunYaml, RunStore.DirOrder, RunStore.RunOrder, !RunStore.RunOrderLaws}.
Context {X : Type}.

Lemma cancel_settles now a cs (b : Backends X) :
  settled cs b → (run_cancel_run now a b).1 = Ok tt ∧ settled (cs ++ [Call.CancelRun a]) (run_cancel_run now a b).2.
Proof.
  intros [Hok Hh Hw Hr Hg]. unfold run_cancel_run.
  destruct (RunSealed.cancel_all_run a now "terminate-cascade" (run_manager b) Hok) as (w' & Hrun & Hok' & Hin & Hno).
  assert (∀ a', RunSealed.wseals a' (run_manager b) w') as Hseals.
  { intros a'. pose proof (RunSealed.seals_cancel_all a' now a "terminate-cascade" (run_manager b)) as Hk. by rewrite Hrun in Hk. }
  rewrite Hrun. split; [done|]. split; simpl; [done..| |].
  - intros a' [Ha'|Ha'%list_elem_of_singleton]%elem_of_app.
    + eapply seals_no_live; [apply Hseals|done|by apply Hr].
    + injection Ha' as ->. split; [done|]. by apply no_live_run_alt.
  - intros a' [Ha'|Ha'%list_elem_of_singleton]%elem_of_app; [by apply Hg|done].
Qed.

Lemma revoke_run a s :
  StoreFacts.healthy s → StoreFacts.wf s →
  ∃ out s', GrantStore.revoke_by_grantee a s = (Ok out, s') ∧ StoreFacts.healthy s' ∧ StoreFacts.wf s' ∧
    no_active_grant a s' ∧ ∀ a', no_active_grant a' s → no_active_grant a' s'.
Proof.
  intros Hh Hw. set (ids := match GrantStore.by_grantee s !! a with Some set => GrantStore.iter_ids set | None => [] end).
  destruct (Revocation.sweep_run ("grantee-terminate:" +:+ a) ids s Hh) as (out & s' & Hrun & Hh' & Hg & _).
  assert (GrantStore.revoke_by_grantee a s = (Ok out, s')) as Hrev by exact Hrun.
  assert (StoreFacts.status_step s s') as Hstep.
  { pose proof (StoreFacts.keeps_revoke_by_grantee a s) as Hk. by rewrite Hrev in Hk. }
  exists out, s'. split_and!; [done..|by eapply StoreFacts.status_step_wf| |].
  - intros id g' Hg' Ha. eapply (Revocation.flip_all_inactive ids); [|by rewrite <- Hg].
    destruct (StoreFacts.status_step_lookup s s' id g' Hstep Hg') as (g & Hgs & Hev). apply StoreFacts.g_evolves_fields in Hev as (_ & Hgr & _).
    assert (id ∈ StoreFacts.ids_of a (GrantStore.by_grantee s)) as Hin.
    { apply (StoreFacts.wf_grantee s Hw). exists g. split; [done|congruence]. }
    unfold StoreFacts.ids_of, ids in *. destruct (GrantStore.by_grantee s !! a) as [set|]; simpl in *; [|set_solver].
    by rewrite GrantStore.iter_ids_perm, elem_of_elements.
  - intros a' Hno id g' Hg' Ha. destruct (StoreFacts.status_step_lookup s s' id g' Hstep Hg') as (g & Hgs & Hev).
    assert (Grant.is_active g = false) as Hi.
    { apply (Hno id g Hgs). apply StoreFacts.g_evolves_fields in Hev as (_ & Hgr & _). congruence. }
    by rewrite (proj2 Hev Hi).
Qed.

Lemma revoke_settles a cs (b : Backends X) :
  settled cs b →
  (grant_revoke_for_agent a b).1 = Ok tt ∧ settled (cs ++ [Call.RevokeForAgent a]) (grant_revoke_for_agent a b).2.
Proof.
  intros [Hok Hh Hw Hr Hg]. unfold grant_revoke_for_agent.
  destruct (revoke_run a (grant_store b) Hh Hw) as (out & s' & -> & Hh' & Hw' & Hno & Hkeep). split; [done|].
  split; simpl; [done..| |]; intros a' [Ha'|Ha'%list_elem_of_singleton]%elem_of_app; [by apply Hr|done|auto|].
  by injection Ha' as ->.
Qed.

Lemma section_settles act cs (b : Backends X) : settled cs b → settled cs (run_section act b).
Proof.
  intros [Hok Hh Hw Hr Hg]. split; simpl; [|done..| |done].
  - apply (RunFacts.perform_good act (RunOps.manager (run_manager b)) Hok).
  - intros a Ha. eapply seals_no_live; [apply RunSealed.perform_seals|done|by apply Hr].
Qed.

(** The mailbox and file hooks may do anything to their own state; the flush
    and the clean-up succeed. *)
Lemma production_keeps now (flush : string → M X LifecycleError.t unit) notify cleanup archiver abort :
  (∀ a x, (flush a x).1 = Ok tt) → (∀ p x, (cleanup p x).1 = Ok tt) →
  hooks_keep settled (production_hooks now flush notify cleanup archiver abort).
Proof.
  intros Hflush Hclean.
  assert (∀ c f cs (b : Backends X), (∀ a, c ≠ Call.CancelRun a) → (∀ a, c ≠ Call.RevokeForAgent a) → settled cs b →
    settled (cs ++ [c]) (on_rest f b).2) as Hrest.
  { intros c f cs b Hc1 Hc2 Hs. apply (settled_more cs c b); [..|done|done|done]; unfold on_rest; by destruct (f (rest b)). }
  assert (∀ f (b : Backends X), (on_rest f b).1 = (f (rest b)).1) as Hres.
  { intros f b. unfold on_rest. by destruct (f (rest b)). }
  split; simpl.
  - intros a cs b. apply revoke_settles.
  - intros a cs b Hs. rewrite Hres. split; [apply Hflush|by apply Hrest].
  - intros a cs b. apply cancel_settles.
  - intros p cs b Hs. rewrite Hres. split; [apply Hclean|by apply Hrest].
  - intros f a p q cs b [= <-] Hs. by apply Hrest.
  - intros f a cs b [= <-] Hs. by apply (settled_more cs _ b).
  - intros a cs b Hs. by apply (settled_more cs _ b).
Qed.
End settle.

(** ** A terminated agent is left with nothing *)

(** Another caller's act: on the tree, or a section of the run manager. *)
Inductive beside := TreeAct (a : tree_action) | RunAct (a : RunOps.action).

Definition other_of `{RunStore.RunYaml, RunStore.DirOrder, RunStore.RunOrder} {X} (o : beside) : other (Backends X) :=
  match o with TreeAct a => InTree a | RunAct a => Outside (run_section a) end.

(** Spawning, crashing and renaming; nobody takes the child's id. *)
Definition harmless (child : string) (o : beside) : Prop :=
  match o with
  | TreeAct (InsertRoot _ n _) | TreeAct (InsertChild _ _ n _) => AgentNode.id n ≠ child
  | TreeAct (Remove _) => False
  | TreeAct (SetStatus _ st) => st = AgentStatus.Terminated ∨ st = AgentStatus.Failed
  | TreeAct (SetHandle _ _) | RunAct _ => True
  end.

(** C3: the terminate cascade as it is wired.  From reachable states of the
    agent tree, the run manager and the grant store, with a working database,
    while others spawn agents and use the run manager, the parent's
    [terminate_child] returns.  Then the child is gone, and every agent that
    was at or below it has no live run and no active grant. *)
Theorem terminated_hold_nothing `{Chrono, Codec, GrantStore.HashOrder, V : SubsetValidator, !GrantStore.HashOrderLaws,
    !SubsetValidatorLaws} `{RunStore.RunYaml, RunStore.DirOrder, RunStore.RunOrder, !RunStore.RunOrderLaws} {X}
    root acts m g x os caller child now (flush : string → M X LifecycleError.t unit) notify cleanup archiver abort :
  let s := tree_run root acts tree_new in
  RunProps.reachable m → StoreProps.reachable g → StoreFacts.healthy g →
  (∀ a y, (flush a y).1 = Ok tt) → (∀ p y, (cleanup p y).1 = Ok tt) →
  Forall (Forall (harmless child)) os → parent_rel s child caller →
  ∃ w, terminate_child root (production_hooks now flush notify cleanup archiver abort) cascade_fuel caller child
      (mkWorld s (mkBackends (RunOps.mkWorld m []) g x) (map (map other_of) os) []) = (Ok tt, w) ∧
    ¬ in_tree (tree w) child ∧
    ∀ a, rtc (parent_rel s) a child →
      (∀ id r, RunStore.get id (RunManager.store (RunOps.manager (run_manager (outside w)))) = Some r →
         RunData.Run.controller_agent r = a → RunData.is_live r = false) ∧
      (∀ id gr, GrantStore.grants (grant_store (outside w)) !! id = Some gr → Grant.grantee gr = a → Grant.is_active gr = false).
Proof.
  intros s Hm Hg Hh Hflush Hclean Hos Hparent.
  destruct (terminate_run root acts settled (production_hooks now flush notify cleanup archiver abort)
    (mkBackends (RunOps.mkWorld m []) g x) (map (map other_of) os) caller child)
    as (w & order & N & ls & Hrun & Hcalls & Hls & _ & Hlog & _ & Hall & _ & _ & Hgone & _).
  - by apply production_keeps.
  - split; simpl; [by apply RunProps.reachable_ok|done|by apply StoreProps.reachable_sound|..]; intros a; by intros ?%elem_of_nil.
  - clear Hparent. induction Hos as [|o os Ho _ IH]; simpl; constructor; [|exact IH]. clear IH.
    induction Ho as [|[a|a] o Ha _ IH]; simpl; constructor; try exact IH.
    + by destruct a.
    + intros cs b. apply section_settles.
  - exact Hparent.
  - exists w. split_and!; [exact Hrun|exact Hgone|]. intros a Ha. apply Hall in Ha.
    apply list_elem_of_lookup in Ha as [i Hi]. destruct (Forall2_lookup_l _ _ _ _ _ Hls Hi) as (l & Hli & Hl).
    assert (∀ c, c ∈ l → c ∈ calls w) as Hin.
    { intros c Hc. rewrite Hcalls. apply list_elem_of_In, in_concat. exists l. split; apply list_elem_of_In; [|done].
      by eapply list_elem_of_lookup_2. }
    split; [apply (st_runs _ _ Hlog a)|apply (st_grants _ _ Hlog a)]; apply Hin, (agent_calls_core _ _ _ _ _ Hl); set_solver.
Qed.

(** ** The witness *)

#[local] Existing Instances chrono_model codec_model GrantStore.hash_order_model GrantStore.hash_order_model_laws
  SubsetValidatorImpl RunProps.no_yaml RunStore.run_order_model RunStore.run_order_model_laws RunProps.sample_dir_order.

(** The kid holds grants, has delegated one to its own kid, and runs a task. *)
Definition sample_lineage_acts : list tree_action :=
  [InsertRoot Some (sample_node "root" AgentKind.Root None) None;
   InsertChild Some "root" (sample_node "kid" AgentKind.Child (Some "root")) None;
   InsertChild Some "kid" (sample_node "grandkid" AgentKind.Sub (Some "kid")) None].

Definition sample_run_acts : list RunOps.action :=
  [RunOps.Ensure 1 "r1" false "task-1" "kid" RunProps.sample_config;
   RunOps.Ensure 1 "r2" false "task-2" "grandkid" RunProps.sample_config].

Definition sample_managed : RunManager.RunManager := RunOps.perform_all sample_run_acts RunManager.manager_new.

(** Mailboxes and files that take everything. *)
Definition idle : M unit LifecycleError.t unit := mret tt.

(** Meanwhile another child is spawned and another run is asked for. *)
Definition sample_beside : list (list beside) :=
  [[]; [TreeAct (InsertChild Some "kid" (sample_node "late" AgentKind.Child (Some "kid")) None)]; []; [];
   [RunAct (RunOps.Ensure 2 "r3" false "task-3" "kid" RunProps.sample_config)]].

Lemma terminated_hold_nothing_witness :
  parent_rel (tree_run sample_path sample_lineage_acts tree_new) "kid" "root" ∧
  ∃ w, terminate_child sample_path
      (production_hooks 5 (λ _, idle) (λ _ _ _, idle) (λ _, idle) (λ _ _ _, idle) (λ _, id))
      cascade_fuel "root" "kid"
      (mkWorld (tree_run sample_path sample_lineage_acts tree_new)
         (mkBackends (RunOps.mkWorld sample_managed []) StoreProps.sample_store tt) (map (map other_of) sample_beside) []) = (Ok tt, w) ∧
    ¬ in_tree (tree w) "kid" ∧
    (∀ r, RunStore.get "r2" (RunManager.store (RunOps.manager (run_manager (outside w)))) = Some r →
       RunData.Run.controller_agent r = "grandkid" → RunData.is_live r = false) ∧
    (∀ gr, GrantStore.grants (grant_store (outside w)) !! "uuid-2" = Some gr → Grant.grantee gr = "grandkid" →
       Grant.is_active gr = false).
Proof.
  assert (parent_rel (tree_run sample_path sample_lineage_acts tree_new) "kid" "root") as Hp.
  { eexists. split; [vm_compute; reflexivity|reflexivity]. }
  split; [exact Hp|].
  destruct (terminated_hold_nothing sample_path sample_lineage_acts sample_managed StoreProps.sample_store tt sample_beside
    "root" "kid" 5 (λ _, idle) (λ _ _ _, idle) (λ _, idle) (λ _ _ _, idle) (λ _, id))
    as (w & Hrun & Hgone & Hall).
  - apply RunProps.reachable_all. by apply RunProps.reach_start.
  - exact StoreProps.sample_reachable.
  - exact StoreProps.sample_healthy.
  - done.
  - done.
  - repeat constructor; done.
  - exact Hp.
  - exists w. split; [exact Hrun|]. split; [exact Hgone|].
    destruct (Hall "grandkid") as [Hr Hg].
    + apply rtc_once. eexists. split; [vm_compute; reflexivity|reflexivity].
    + split; [intros r; apply Hr|intros gr; apply Hg].
Defined.
