(* ===== verification/Decomposition.v ===== *)
(** * Task decomposition

    Models [crates/capabilities/cap-lifecycle/src/decomposition.rs]: an agent
    breaks a task into subtasks that depend on each other, resubmits the plan
    as the work goes on, and reports on single subtasks.  The state of a task
    is one YAML document below the workspace of the agent.

    The file system is a map from the directory of a task to the text of its
    document; a call of it may fail.  The text format is the class
    [DecompositionYaml].  Of the errors only the data they carry is kept. *)
From S2P Require Import Prelude RustStr AgentTree.
Open Scope string_scope.
Open Scope list_scope.
Open Scope Z_scope.

Module DecompositionError.
Inductive t :=
| TaskNotFound (task_id : string)
| SubtaskNotFound (id : string)
| DuplicateTitle (title : string)
| DuplicateExistingId (id : string)
| DependencyCycle
| UnresolvedDependency (title : string)
| PermissionDenied
| ParseError
| IoFailure
| InvalidConfig.
#[global] Instance eq_dec : EqDecision t.
Proof. solve_decision. Defined.
End DecompositionError.

Definition MAX_DECOMPOSITION_SUBTASKS : Z := 256.
Definition MAX_DECOMPOSITION_DOC_BYTES : Z := 1024 * 1024.
Definition MAX_SUBTASK_TITLE_BYTES : Z := 256.
Definition MAX_SUBTASK_PROMPT_BYTES : Z := 16 * 1024.
Definition MAX_TASK_ID_BYTES : Z := 128.
Definition MAX_ASSIGNEE_BYTES : Z := 128.

(** ** Plans and documents *)

Module DelegationTarget.
Record t := mk { assignee : string; template_ref : option string; prompt : string }.
#[global] Instance eq_dec : EqDecision t.
Proof. solve_decision. Defined.
End DelegationTarget.

Module DecompositionStrategy.
Inductive t := SelfExecute | Decompose | DelegateSingle (target : DelegationTarget.t).
#[global] Instance eq_dec : EqDecision t.
Proof. solve_decision. Defined.
End DecompositionStrategy.

Module SubtaskSpec.
Record t := mk {
  existing_id : option string;
  title : string;
  assignee : string;
  template_ref : option string;
  prompt : string;
  depends_on : list string
}.
End SubtaskSpec.

Module DecompositionPlan.
Record t := mk { goal : string; strategy : DecompositionStrategy.t; subtasks : list SubtaskSpec.t }.
End DecompositionPlan.

Module SubtaskStatus.
Inductive t := Pending | InProgress | Completed | Failed | Skipped.
#[global] Instance eq_dec : EqDecision t.
Proof. solve_decision. Defined.
End SubtaskStatus.

Module SubtaskState.
Record t := mk {
  subtask_id : string;
  title : string;
  assignee : string;
  depends_on : list string;
  status : SubtaskStatus.t;
  outcome : option string;
  orphaned : bool
}.
#[global] Instance eq_dec : EqDecision t.
Proof. solve_decision. Defined.

Definition set_orphaned (s : t) : t :=
  mk (subtask_id s) (title s) (assignee s) (depends_on s) (status s) (outcome s) true.
Definition report (st : SubtaskStatus.t) (out : option string) (s : t) : t :=
  mk (subtask_id s) (title s) (assignee s) (depends_on s) st out (orphaned s).
End SubtaskState.

Module DecompositionState.
Record t := mk { goal : string; strategy : DecompositionStrategy.t; subtasks : list SubtaskState.t }.
#[global] Instance eq_dec : EqDecision t.
Proof. solve_decision. Defined.
End DecompositionState.

(** [SubtaskIdMapping]: a title and its subtask id. *)
Abbreviation SubtaskIdMapping := (string * string)%type (only parsing).

(** serde_yml on documents. *)
Class DecompositionYaml := {
  to_string : DecompositionState.t → option string;
  from_slice : string → option DecompositionState.t
}.

(** A written document reads back. *)
Class DecompositionYamlLaws `{DecompositionYaml} : Prop :=
  from_to st text : to_string st = Some text → from_slice text = Some st.

(** ** Checks *)

Definition validate_task_id (task_id : string) : result DecompositionError.t unit :=
  _ ← guard_err (String.eqb task_id "" || (MAX_TASK_ID_BYTES <? len task_id)) DecompositionError.InvalidConfig;
  _ ← guard_err (negb (all_bytes (λ b, is_ascii_alphanumeric b || Ascii.eqb b "-" || Ascii.eqb b "_") task_id))
        DecompositionError.InvalidConfig;
  guard_err (contains_str ".." task_id) DecompositionError.InvalidConfig.

Definition is_valid_subtask_id `{Uuid} (id : string) : bool :=
  match strip_prefix "st-" id with
  | Some rest => (len rest =? 36) && default false (parse_str rest)
  | None => false
  end.

Definition validate_strategy (s : DecompositionStrategy.t) : result DecompositionError.t unit :=
  match s with
  | DecompositionStrategy.DelegateSingle t =>
      _ ← guard_err (String.eqb (DelegationTarget.assignee t) "" || (MAX_ASSIGNEE_BYTES <? len (DelegationTarget.assignee t)))
            DecompositionError.InvalidConfig;
      guard_err (MAX_SUBTASK_PROMPT_BYTES <? len (DelegationTarget.prompt t)) DecompositionError.InvalidConfig
  | _ => Ok tt
  end.

(** The fields of one subtask. *)
Definition validate_subtask (st : SubtaskSpec.t) : result DecompositionError.t unit :=
  _ ← guard_err (String.eqb (SubtaskSpec.title st) "" || (MAX_SUBTASK_TITLE_BYTES <? len (SubtaskSpec.title st)))
        DecompositionError.InvalidConfig;
  _ ← guard_err (String.eqb (SubtaskSpec.assignee st) "" || (MAX_ASSIGNEE_BYTES <? len (SubtaskSpec.assignee st)))
        DecompositionError.InvalidConfig;
  _ ← guard_err (MAX_SUBTASK_PROMPT_BYTES <? len (SubtaskSpec.prompt st)) DecompositionError.InvalidConfig;
  guard_err (MAX_DECOMPOSITION_SUBTASKS <? size_of (SubtaskSpec.depends_on st)) DecompositionError.InvalidConfig.

(** The loop over the plan, with the titles and the existing ids seen so far. *)
Fixpoint validate_subtasks `{Uuid} (seen_titles seen_existing : gset string) (l : list SubtaskSpec.t)
    : result DecompositionError.t unit :=
  match l with
  | [] => Ok tt
  | st :: l =>
      _ ← validate_subtask st;
      _ ← (match SubtaskSpec.existing_id st with
           | Some eid =>
               _ ← guard_err (negb (is_valid_subtask_id eid)) DecompositionError.InvalidConfig;
               guard_err (bool_decide (eid ∈ seen_existing)) (DecompositionError.DuplicateExistingId eid)
           | None => Ok tt
           end);
      _ ← guard_err (bool_decide (SubtaskSpec.title st ∈ seen_titles)) (DecompositionError.DuplicateTitle (SubtaskSpec.title st));
      validate_subtasks ({[SubtaskSpec.title st]} ∪ seen_titles)
        (match SubtaskSpec.existing_id st with Some eid => {[eid]} ∪ seen_existing | None => seen_existing end) l
  end.

(** ** Cycles *)

Module Color.
Inductive t := White | Gray | Black.
#[global] Instance eq_dec : EqDecision t.
Proof. solve_decision. Defined.
End Color.

(** [iter().map(key_value).collect::<HashMap<_, _>>()]: the last value of a key stays. *)
Definition collect_map {A B} (f : A → string * B) (l : list A) : gmap string B :=
  foldl (λ m a, <[(f a).1 := (f a).2]> m) ∅ l.

(** [while let Some(&(node, idx)) = stack.last()], the top of the stack first;
    [None] when the fuel runs out. *)
Fixpoint dfs (fuel : nat) (adj : gmap string (list string)) (color : gmap string Color.t) (stack : list (string * nat))
    : option (result DecompositionError.t (gmap string Color.t)) :=
  match fuel with
  | O => None
  | S fuel =>
      match stack with
      | [] => Some (Ok color)
      | (node, idx) :: stack =>
          match deps ← adj !! node; deps !! idx with
          | Some next =>
              let stack := (node, S idx) :: stack in
              match color !! next with
              | Some Color.Gray => Some (Err DecompositionError.DependencyCycle)
              | Some Color.White => dfs fuel adj (<[next := Color.Gray]> color) ((next, O) :: stack)
              | _ => dfs fuel adj color stack
              end
          | None => dfs fuel adj (alter (λ _, Color.Black) node color) stack
          end
      end
  end.

(** [for s in states]. *)
Fixpoint dfs_all (fuel : nat) (adj : gmap string (list string)) (color : gmap string Color.t) (ids : list string)
    : option (result DecompositionError.t unit) :=
  match ids with
  | [] => Some (Ok tt)
  | id :: ids =>
      if bool_decide (color !! id ≠ Some Color.White) then dfs_all fuel adj color ids
      else
        match dfs fuel adj (alter (λ _, Color.Gray) id color) [(id, O)] with
        | None => None
        | Some (Err e) => Some (Err e)
        | Some (Ok color) => dfs_all fuel adj color ids
        end
  end.

Definition adjacency (states : list SubtaskState.t) : gmap string (list string) :=
  collect_map (λ s, (SubtaskState.subtask_id s, SubtaskState.depends_on s)) states.

(** Each turn of the loop leaves an agent or passes an edge. *)
Definition cycle_fuel (states : list SubtaskState.t) : nat :=
  S (sum_list_with (λ s, S (length (SubtaskState.depends_on s))) states).

Definition detect_cycle (states : list SubtaskState.t) : option (result DecompositionError.t unit) :=
  dfs_all (cycle_fuel states) (adjacency states)
    (collect_map (λ s, (SubtaskState.subtask_id s, Color.White)) states)
    (SubtaskState.subtask_id <$> states).

(** ** The store *)

#[export] Instance component_countable : Countable Component.t :=
  inj_countable'
    (λ c, match c with
          | Component.RootDir => inl 0%nat | Component.CurDir => inl 1%nat | Component.ParentDir => inl 2%nat
          | Component.Normal s => inr s end)
    (λ x, match x with
          | inl 0%nat => Component.RootDir | inl 1%nat => Component.CurDir | inl _ => Component.ParentDir
          | inr s => Component.Normal s end)
    ltac:(intros []; reflexivity).

(** [docs] are the documents by directory, [faults] which of the coming calls
    of the file system fail, [drawn] how many UUIDs were drawn. *)
Record World := mkWorld {
  tree : AgentTreeInner.t;
  docs : gmap PathBuf string;
  faults : list bool;
  drawn : nat
}.

Section store.
Context `{Uuid, DecompositionYaml}.

Abbreviation DM := (M World DecompositionError.t).

Definition task_dir (caller_id task_id : string) : DM PathBuf :=
  _ ← fail_if (negb (is_ok (validate_agent_id caller_id))) DecompositionError.PermissionDenied;
  _ ← lift (validate_task_id task_id);
  w ← get_state;
  node ← lift (ok_or (get_node caller_id (tree w)) DecompositionError.PermissionDenied);
  mret (AgentNode.workspace_path node ++ (Component.Normal <$> [".agent"; "tasks"; "active"; task_id])).

(** A call of the file system. *)
Definition fs_call : DM unit := λ w,
  (guard_err (default false (head (faults w))) DecompositionError.IoFailure,
   mkWorld (tree w) (docs w) (tl (faults w)) (drawn w)).

Definition read_state (dir : PathBuf) : DM (option DecompositionState.t) :=
  _ ← fs_call;
  w ← get_state;
  match docs w !! dir with
  | None => mret None
  | Some bytes =>
      st ← lift (ok_or (from_slice bytes) DecompositionError.ParseError);
      mret (Some st)
  end.

(** The link checks, [create_dir_all], the write and the rename. *)
Definition write_state (dir : PathBuf) (state : DecompositionState.t) : DM unit :=
  yaml ← lift (ok_or (to_string state) DecompositionError.ParseError);
  _ ← fail_if (MAX_DECOMPOSITION_DOC_BYTES <? len yaml) DecompositionError.InvalidConfig;
  _ ← fs_call;
  _ ← fs_call;
  _ ← fs_call;
  _ ← fs_call;
  _ ← fs_call;
  modify (λ w, mkWorld (tree w) (<[dir := yaml]> (docs w)) (faults w) (drawn w)).

(** [format!("st-{}", sub_uuid_v4())]. *)
Definition fresh_subtask_id : DM string := λ w,
  (Ok ("st-" +:+ sub_uuid_v4 (drawn w)), mkWorld (tree w) (docs w) (faults w) (S (drawn w))).

(** The ids of the subtasks, in the order of the plan. *)
Fixpoint assign_ids (prior_id_set : gset string) (l : list SubtaskSpec.t) : DM (list (string * SubtaskSpec.t)) :=
  match l with
  | [] => mret []
  | st :: l =>
      id ← (match SubtaskSpec.existing_id st with
            | Some eid =>
                _ ← fail_if (negb (bool_decide (eid ∈ prior_id_set))) (DecompositionError.SubtaskNotFound eid);
                mret eid
            | None => fresh_subtask_id
            end);
      rest ← assign_ids prior_id_set l;
      mret ((id, st) :: rest)
  end.

Definition find_subtask (id : string) (l : list SubtaskState.t) : option SubtaskState.t :=
  List.find (λ s, String.eqb (SubtaskState.subtask_id s) id) l.

(** One subtask of the new document. *)
Definition resolve_subtask (title_to_id : gmap string string) (prior : list SubtaskState.t) (p : string * SubtaskSpec.t)
    : result DecompositionError.t SubtaskState.t :=
  let (id, st) := p in
  dep_ids ← try_map (λ dep_title, ok_or (title_to_id !! dep_title) (DecompositionError.UnresolvedDependency dep_title))
    (SubtaskSpec.depends_on st);
  let '(status, outcome) :=
    match find_subtask id prior with
    | Some s => (SubtaskState.status s, SubtaskState.outcome s)
    | None => (SubtaskStatus.Pending, None)
    end in
  Ok (SubtaskState.mk id (SubtaskSpec.title st) (SubtaskSpec.assignee st) dep_ids status outcome false).

(** The subtasks the new plan drops but whose work must leave a trace. *)
Definition orphans (new_id_set : gset string) (prior : list SubtaskState.t) : list SubtaskState.t :=
  SubtaskState.set_orphaned <$>
    List.filter (λ s, negb (bool_decide (SubtaskState.subtask_id s ∈ new_id_set))
      && bool_decide (SubtaskState.status s ∈ [SubtaskStatus.Completed; SubtaskStatus.InProgress])) prior.

(** The [Option] and the error of [detect_cycle] together. *)
Definition acyclic_or_err (states : list SubtaskState.t) : result DecompositionError.t unit :=
  default (Err DecompositionError.DependencyCycle) (detect_cycle states).

Definition submit (caller_id task_id : string) (plan : DecompositionPlan.t) : DM (list SubtaskIdMapping) :=
  dir ← task_dir caller_id task_id;
  _ ← fail_if (MAX_DECOMPOSITION_SUBTASKS <? size_of (DecompositionPlan.subtasks plan)) DecompositionError.InvalidConfig;
  _ ← lift (validate_strategy (DecompositionPlan.strategy plan));
  _ ← lift (validate_subtasks ∅ ∅ (DecompositionPlan.subtasks plan));
  prior ← read_state dir;
  let prior := default [] (DecompositionState.subtasks <$> prior) in
  assigned ← assign_ids (list_to_set (SubtaskState.subtask_id <$> prior)) (DecompositionPlan.subtasks plan);
  let title_to_id := collect_map (λ '(id, st), (SubtaskSpec.title st, id)) assigned in
  new_states ← lift (try_map (resolve_subtask title_to_id prior) assigned);
  _ ← lift (acyclic_or_err new_states);
  let new_id_set := list_to_set (SubtaskState.subtask_id <$> new_states) in
  let state := DecompositionState.mk (DecompositionPlan.goal plan) (DecompositionPlan.strategy plan)
    (new_states ++ orphans new_id_set prior) in
  _ ← write_state dir state;
  mret ((λ s, (SubtaskState.title s, SubtaskState.subtask_id s)) <$>
    List.filter (λ s, negb (SubtaskState.orphaned s)) (DecompositionState.subtasks state)).

(** [iter_mut().find(..)] and the two assignments. *)
Fixpoint report_first (id : string) (status : SubtaskStatus.t) (outcome : option string) (l : list SubtaskState.t)
    : list SubtaskState.t :=
  match l with
  | [] => []
  | s :: l =>
      if String.eqb (SubtaskState.subtask_id s) id then SubtaskState.report status outcome s :: l
      else s :: report_first id status outcome l
  end.

(** Up to the document in memory. *)
Definition load_for_update (caller_id task_id : string) : DM (PathBuf * DecompositionState.t) :=
  dir ← task_dir caller_id task_id;
  state ← read_state dir;
  state ← lift (ok_or state (DecompositionError.TaskNotFound task_id));
  mret (dir, state).

(** From the document in memory on. *)
Definition store_update (subtask_id : string) (status : SubtaskStatus.t) (outcome : option string)
    (loaded : PathBuf * DecompositionState.t) : DM SubtaskStatus.t :=
  let (dir, state) := loaded in
  st ← lift (ok_or (find_subtask subtask_id (DecompositionState.subtasks state))
         (DecompositionError.SubtaskNotFound subtask_id));
  let old_status := SubtaskState.status st in
  _ ← write_state dir (DecompositionState.mk (DecompositionState.goal state) (DecompositionState.strategy state)
         (report_first subtask_id status outcome (DecompositionState.subtasks state)));
  mret old_status.

Definition update_subtask_status (caller_id task_id subtask_id : string) (status : SubtaskStatus.t) (outcome : option string)
    : DM SubtaskStatus.t :=
  loaded ← load_for_update caller_id task_id;
  store_update subtask_id status outcome loaded.

Definition get (caller_id task_id : string) : DM (option DecompositionState.t) :=
  dir ← task_dir caller_id task_id;
  read_state dir.
End store.
