(* ===== verification/DecompositionCycle.v ===== *)
(** * The search for dependency cycles

    The depth-first search of [Decomposition.detect_cycle] always ends within
    its fuel and refuses exactly the plans whose dependencies form a cycle. *)
From S2P Require Import Prelude RustStr AgentTree Decomposition.
Open Scope string_scope.
Open Scope list_scope.
Open Scope nat_scope.

(** ** Sums *)

Lemma sum_list_with_update {A} `{EqDecision A} (f g : A → nat) l x :
  NoDup l → x ∈ l → (∀ y, y ≠ x → f y = g y) → sum_list_with f l + g x = sum_list_with g l + f x.
Proof.
  intros Hnd Hin Hfg. induction Hnd as [|y l Hy Hnd IH]; [by apply elem_of_nil in Hin|]. simpl.
  apply elem_of_cons in Hin as [->|Hin].
  - enough (sum_list_with f l = sum_list_with g l) by lia. clear -Hy Hfg.
    induction l as [|z l IH]; [done|]. apply not_elem_of_cons in Hy as [Hne Hy]. simpl. rewrite (IH Hy), (Hfg z); done.
  - rewrite (Hfg y) by (intros ->; done). specialize (IH Hin). lia.
Qed.

Lemma sum_list_with_ext {A} (f g : A → nat) l : (∀ x, x ∈ l → f x = g x) → sum_list_with f l = sum_list_with g l.
Proof.
  induction l as [|x l IH]; intros Hfg; [done|]. simpl. rewrite (Hfg x) by left. rewrite IH; [done|].
  intros y Hy. apply Hfg. by right.
Qed.

Definition node_weight (deps : list string) : nat := S (length deps).

Definition map_weight (m : gmap string (list string)) : nat := sum_list_with (λ kv, node_weight kv.2) (map_to_list m).

Lemma map_weight_insert_None m k v : m !! k = None → map_weight (<[k := v]> m) = node_weight v + map_weight m.
Proof. intros Hk. unfold map_weight. by rewrite map_to_list_insert. Qed.

Lemma map_weight_insert_le m k v : map_weight (<[k := v]> m) ≤ node_weight v + map_weight m.
Proof.
  rewrite <- insert_delete_eq, map_weight_insert_None by apply lookup_delete_eq.
  destruct (m !! k) as [v'|] eqn:Hk.
  - rewrite <- (insert_delete_id m k v' Hk) at 2. rewrite map_weight_insert_None by apply lookup_delete_eq. lia.
  - rewrite delete_id by done. lia.
Qed.

(** ** Collecting a map *)

Lemma collect_map_snoc {A B} (f : A → string * B) l a :
  collect_map f (l ++ [a]) = <[(f a).1 := (f a).2]> (collect_map f l).
Proof. unfold collect_map. by rewrite foldl_app. Qed.

Lemma collect_map_dom {A B} (f : A → string * B) l k :
  is_Some (collect_map f l !! k) ↔ k ∈ (λ a, (f a).1) <$> l.
Proof.
  induction l as [|a l IH] using rev_ind; [unfold collect_map; simpl; rewrite lookup_empty, elem_of_nil; split; [by intros []|done]|].
  rewrite collect_map_snoc, fmap_app, elem_of_app, <- IH. simpl. rewrite list_elem_of_singleton.
  destruct (decide (k = (f a).1)) as [->|Hne].
  - rewrite lookup_insert_eq. split; [by right|by intros _; eexists].
  - rewrite lookup_insert_ne by done. naive_solver.
Qed.

Lemma collect_map_lookup {A B} (f : A → string * B) l a :
  NoDup ((λ a, (f a).1) <$> l) → a ∈ l → collect_map f l !! (f a).1 = Some (f a).2.
Proof.
  induction l as [|b l IH] using rev_ind; [by intros _ ?%elem_of_nil|].
  rewrite fmap_app, NoDup_app, collect_map_snoc. intros (Hnd & Hb & _) [Ha| ->%list_elem_of_singleton]%elem_of_app.
  - rewrite lookup_insert_ne; [by apply IH|]. intros Heq. apply (Hb (f a).1); [apply list_elem_of_fmap; by exists a|].
    rewrite <- Heq. left.
  - by rewrite lookup_insert_eq.
Qed.

Lemma collect_map_lookup_inv {A B} (f : A → string * B) l k v :
  collect_map f l !! k = Some v → ∃ a, a ∈ l ∧ f a = (k, v).
Proof.
  induction l as [|a l IH] using rev_ind; [done|]. rewrite collect_map_snoc.
  destruct (decide ((f a).1 = k)) as [<-|Hne].
  - rewrite lookup_insert_eq. intros [= <-]. exists a. split; [set_solver|by destruct (f a)].
  - rewrite lookup_insert_ne by done. intros (b & Hb & ?)%IH. exists b. split; [set_solver|done].
Qed.

(** ** The search *)

Section search.
Context (adj : gmap string (list string)).

Definition edge (a b : string) : Prop := ∃ deps, adj !! a = Some deps ∧ b ∈ deps ∧ is_Some (adj !! b).

Definition dep_at (a : string) (j : nat) : option string := deps ← adj !! a; deps !! j.

Lemma edge_dep_at a b : edge a b ↔ (∃ j, dep_at a j = Some b) ∧ is_Some (adj !! b).
Proof.
  unfold edge, dep_at. setoid_rewrite bind_Some. setoid_rewrite list_elem_of_lookup. naive_solver.
Qed.

(** In the order of finishing, latest first, edges point to earlier nodes. *)
Definition finished (fin : list string) : Prop := ∀ l1 k l2 d, fin = l1 ++ k :: l2 → edge k d → d ∈ l2.

Lemma finished_tc fin k d : finished fin → tc edge k d → ∀ l1 l2, fin = l1 ++ k :: l2 → d ∈ l2.
Proof.
  intros Hf. induction 1 as [k d Hkd|k x d Hkx _ IH]; intros l1 l2 Heq; [by eapply Hf|].
  assert (x ∈ l2) as (l3 & l4 & ->)%list_elem_of_split by by eapply Hf.
  enough (d ∈ l4) by set_solver. apply (IH (l1 ++ k :: l3)). by rewrite Heq, <- app_assoc.
Qed.

Lemma finished_acyclic fin k : NoDup fin → finished fin → k ∈ fin → ¬ tc edge k k.
Proof.
  intros Hnd Hf (l1 & l2 & Heq)%list_elem_of_split Htc. assert (k ∈ l2) as Hin by by eapply finished_tc.
  rewrite Heq in Hnd. apply NoDup_app in Hnd as (_ & _ & [? _]%NoDup_cons). done.
Qed.

(** The stack goes from dependency to dependent; of a node on it, the
    dependencies already passed are finished, or just above it. *)
Fixpoint on_path (fin : list string) (above : option string) (stack : list (string * nat)) : Prop :=
  match stack with
  | [] => True
  | (n, i) :: stack =>
      (∀ j d, j < i → dep_at n j = Some d → is_Some (adj !! d) → d ∈ fin ∨ above = Some d) ∧
      (∀ a, above = Some a → edge n a) ∧
      on_path fin (Some n) stack
  end.

Record search (fin : list string) (color : gmap string Color.t) (stack : list (string * nat)) : Prop := {
  s_dom k : is_Some (color !! k) ↔ is_Some (adj !! k);
  s_black k : color !! k = Some Color.Black ↔ k ∈ fin;
  s_gray k : color !! k = Some Color.Gray ↔ k ∈ stack.*1;
  s_nodup : NoDup stack.*1;
  s_fin : NoDup fin;
  s_finished : finished fin;
  s_path : on_path fin None stack
}.

Lemma on_path_reach fin above stack n : on_path fin above stack → n ∈ stack.*1 → ∀ a, above = Some a → tc edge n a.
Proof.
  revert above. induction stack as [|[m i] stack IH]; intros above Hp Hn a Ha; [by apply elem_of_nil in Hn|].
  simpl in Hp. destruct Hp as (_ & Hma & Hp). specialize (Hma a Ha). simpl in Hn. apply elem_of_cons in Hn as [->|Hn].
  - by apply tc_once.
  - eapply tc_r; [by eapply IH|done].
Qed.

Lemma on_path_more fin fin' above above' stack :
  (∀ k, k ∈ fin → k ∈ fin') → (∀ d, above = Some d → d ∈ fin' ∨ above' = Some d) → (∀ a, above' = Some a → above = Some a) →
  on_path fin above stack → on_path fin' above' stack.
Proof.
  destruct stack as [|[n i] stack]; [done|]. intros Hfin Hab Hab' (Hd & He & Hp). split_and!.
  - intros j d Hj Hdj Hk. destruct (Hd j d Hj Hdj Hk); [left; auto|auto].
  - auto.
  - clear -Hfin Hp. revert Hp. generalize (Some n). induction stack as [|[m k] stack IH]; intros above; [done|].
    intros (Hd & He & Hp). split_and!; [|done|by apply IH]. intros j d Hj Hdj Hk. destruct (Hd j d Hj Hdj Hk); auto.
Qed.

(** *** Fuel *)

Definition keys : list string := (map_to_list adj).*1.
Definition degree (k : string) : nat := length (default [] (adj !! k)).
Definition white_weight (color : gmap string Color.t) : nat :=
  sum_list_with (λ k, if bool_decide (color !! k = Some Color.White) then S (degree k) else 0) keys.
Definition stack_weight (stack : list (string * nat)) : nat := sum_list_with (λ '(k, i), S (degree k - i)) stack.

Lemma elem_of_keys k : k ∈ keys ↔ is_Some (adj !! k).
Proof.
  unfold keys. rewrite list_elem_of_fmap. split.
  - intros ([k' v] & -> & Hkv%elem_of_map_to_list). by exists v.
  - intros [v Hv]. exists (k, v). split; [done|]. by apply elem_of_map_to_list.
Qed.

Lemma white_weight_blacken color k c :
  color !! k = Some Color.White → is_Some (adj !! k) → c ≠ Color.White →
  white_weight (<[k := c]> color) + S (degree k) = white_weight color.
Proof.
  intros Hk Hin Hc. unfold white_weight.
  pose proof (sum_list_with_update
    (λ x, if bool_decide (<[k := c]> color !! x = Some Color.White) then S (degree x) else 0)
    (λ x, if bool_decide (color !! x = Some Color.White) then S (degree x) else 0) keys k) as Hsum. simpl in Hsum.
  rewrite lookup_insert_eq, Hk, (bool_decide_eq_false_2 (Some c = _)), bool_decide_eq_true_2 in Hsum by congruence.
  rewrite Hsum; [lia|apply NoDup_fst_map_to_list|by apply elem_of_keys|].
  intros y Hy. by rewrite lookup_insert_ne.
Qed.

Lemma white_weight_same color k c c' :
  color !! k = Some c → c ≠ Color.White → c' ≠ Color.White → white_weight (<[k := c']> color) = white_weight color.
Proof.
  intros Hk Hc Hc'. apply sum_list_with_ext. intros x _. destruct (decide (x = k)) as [->|Hne].
  - rewrite lookup_insert_eq, Hk, !bool_decide_eq_false_2 by congruence. done.
  - by rewrite lookup_insert_ne.
Qed.

(** *** One turn *)

Lemma search_enter fin color stack0 stack k :
  search fin color stack0 → stack.*1 = stack0.*1 → color !! k = Some Color.White → on_path fin (Some k) stack →
  search fin (<[k := Color.Gray]> color) ((k, 0) :: stack).
Proof.
  intros [] Hstack Hk Hp. rewrite <- Hstack in *. split.
  - intros x. rewrite <- s_dom0. destruct (decide (x = k)) as [->|]; [rewrite lookup_insert_eq, Hk; split; by eexists|].
    by rewrite lookup_insert_ne.
  - intros x. rewrite <- s_black0. destruct (decide (x = k)) as [->|]; [by rewrite lookup_insert_eq, Hk|].
    by rewrite lookup_insert_ne.
  - intros x. simpl. rewrite elem_of_cons, <- s_gray0. destruct (decide (x = k)) as [->|].
    + rewrite lookup_insert_eq. naive_solver.
    + rewrite lookup_insert_ne by done. naive_solver.
  - simpl. apply NoDup_cons. split; [|done]. rewrite <- s_gray0. congruence.
  - done.
  - done.
  - simpl. split_and!; [lia|done|done].
Qed.

Lemma search_pass fin color n i stack next :
  search fin color ((n, i) :: stack) → dep_at n i = Some next → (is_Some (adj !! next) → next ∈ fin) →
  search fin color ((n, S i) :: stack).
Proof.
  intros [] Hi Hnext. split; try done. simpl in *. destruct s_path0 as (Hd & He & Hp). split_and!; [|done..].
  intros j d Hj Hdj Hk. destruct (decide (j = i)) as [->|]; [|apply (Hd j); [lia|done..]].
  left. assert (d = next) as -> by congruence. auto.
Qed.

Lemma search_leave fin color n i stack :
  search fin color ((n, i) :: stack) → dep_at n i = None →
  search (n :: fin) (alter (λ _, Color.Black) n color) stack.
Proof.
  intros [] Hi. simpl in *. apply NoDup_cons in s_nodup0 as [Hn Hnd]. destruct s_path0 as (Hd & He & Hp).
  assert (color !! n = Some Color.Gray) as Hgray by (apply s_gray0; left).
  assert (n ∉ fin) as Hfresh by (rewrite <- s_black0; congruence). split.
  - intros x. rewrite <- s_dom0. destruct (decide (x = n)) as [->|]; [rewrite lookup_alter_eq, Hgray; split; by eexists|].
    by rewrite lookup_alter_ne.
  - intros x. rewrite elem_of_cons, <- s_black0. destruct (decide (x = n)) as [->|].
    + rewrite lookup_alter_eq, Hgray. naive_solver.
    + rewrite lookup_alter_ne by done. naive_solver.
  - intros x. destruct (decide (x = n)) as [->|].
    + rewrite lookup_alter_eq, Hgray. naive_solver.
    + rewrite lookup_alter_ne by done. rewrite s_gray0, elem_of_cons. naive_solver.
  - done.
  - by apply NoDup_cons.
  - intros l1 k l2 d Heq Hkd. destruct l1 as [|k' l1]; injection Heq as -> Heq; [|by eapply s_finished0].
    subst l2. apply edge_dep_at in Hkd as [[j Hj] Hk]. destruct (Hd j d) as [?|?]; [|done..].
    destruct (decide (j < i)); [done|]. assert (dep_at k j = None); [|congruence].
    revert Hi. unfold dep_at. destruct (adj !! k) as [deps|]; [|done]. simpl. rewrite !lookup_ge_None. lia.
  - eapply on_path_more; [| | |exact Hp]; [by right| |done]. intros d [= <-]. left. left.
Qed.

(** *** The loop *)

Lemma dfs_spec fuel : ∀ fin color stack,
  search fin color stack → white_weight color + stack_weight stack < fuel →
  (∃ fin' color', dfs fuel adj color stack = Some (Ok color') ∧ search fin' color' [] ∧
     (∀ k, k ∈ fin ∨ k ∈ stack.*1 → k ∈ fin') ∧ white_weight color' ≤ white_weight color) ∨
  (dfs fuel adj color stack = Some (Err DecompositionError.DependencyCycle) ∧ ∃ k, tc edge k k).
Proof.
  induction fuel as [|fuel IH]; intros fin color stack Hs Hfuel; [lia|]. destruct stack as [|[n i] stack].
  { left. exists fin, color. split_and!; [done..| |done]. intros k [?|?%elem_of_nil]; done. }
  assert (color !! n = Some Color.Gray) as Hgray by (apply (s_gray _ _ _ Hs); left).
  destruct (s_path _ _ _ Hs) as (Hd & _ & Hp). simpl in Hfuel |- *. destruct (dep_at n i) as [next|] eqn:Hi.
  - assert (S (degree n - S i) = degree n - i) as Hdeg.
    { revert Hi. unfold dep_at, degree. destruct (adj !! n) as [deps|]; [|done]. simpl. intros Hlt%lookup_lt_Some. lia. }
    assert (is_Some (adj !! next) → edge n next) as Hedge by (intros ?; apply edge_dep_at; split; [by exists i|done]).
    pose proof Hi as Hrun. unfold dep_at in Hrun. rewrite Hrun. destruct (color !! next) as [[]|] eqn:Hc.
    + assert (is_Some (adj !! next)) as Hk by (apply (s_dom _ _ _ Hs); by eexists). specialize (Hedge Hk).
      destruct (IH fin (<[next := Color.Gray]> color) ((next, 0) :: (n, S i) :: stack))
        as [(fin' & color' & -> & Hs' & Hin & Hw)|?]; [|..|by right].
      * eapply search_enter; [exact Hs|done|done|]. simpl. split_and!; [|by intros a [= <-]|done].
        intros j d Hj Hdj Hkd. destruct (decide (j = i)) as [->|]; [right; congruence|].
        destruct (Hd j d) as [?|?]; [lia|done|done|by left|done].
      * pose proof (white_weight_blacken color next Color.Gray Hc Hk ltac:(done)). simpl. rewrite Nat.sub_0_r. lia.
      * left. exists fin', color'. split_and!; [done..| |].
        -- intros k [?|Hk']; apply Hin; [by left|]. simpl in *. right. set_solver.
        -- pose proof (white_weight_blacken color next Color.Gray Hc Hk ltac:(done)). lia.
    + right. split; [done|]. exists next. assert (next ∈ ((n, i) :: stack).*1) as Hin by by apply (s_gray _ _ _ Hs).
      assert (is_Some (adj !! next)) as Hk by (apply (s_dom _ _ _ Hs); by eexists). specialize (Hedge Hk).
      simpl in Hin. apply elem_of_cons in Hin as [->|Hin]; [by apply tc_once|].
      eapply tc_r; [by eapply on_path_reach|done].
    + destruct (IH fin color ((n, S i) :: stack)) as [(fin' & color' & -> & Hs' & Hin & Hw)|?]; [| |by left; eauto 10|by right].
      * eapply search_pass; [done..|]. intros _. by apply (s_black _ _ _ Hs).
      * simpl. lia.
    + destruct (IH fin color ((n, S i) :: stack)) as [(fin' & color' & -> & Hs' & Hin & Hw)|?]; [| |by left; eauto 10|by right].
      * eapply search_pass; [done..|]. intros Hk%(s_dom _ _ _ Hs). rewrite Hc in Hk. by destruct Hk.
      * simpl. lia.
  - pose proof Hi as Hrun. unfold dep_at in Hrun. rewrite Hrun.
    assert (white_weight (alter (λ _, Color.Black) n color) = white_weight color) as Hw.
    { assert (alter (λ _, Color.Black) n color = <[n := Color.Black]> color) as ->.
      { apply map_eq. intros x. destruct (decide (x = n)) as [->|]; [by rewrite lookup_alter_eq, lookup_insert_eq, Hgray|].
        by rewrite lookup_alter_ne, lookup_insert_ne. }
      by eapply white_weight_same. }
    destruct (IH (n :: fin) (alter (λ _, Color.Black) n color) stack) as [(fin' & color' & -> & Hs' & Hin & Hw')|?]; [..|by right].
    + by eapply search_leave.
    + rewrite Hw. lia.
    + left. exists fin', color'. split_and!; [done..| |lia]. intros k Hk. apply Hin. simpl in Hk. set_solver.
Qed.

Lemma dfs_all_spec fuel ids : ∀ fin color,
  search fin color [] → white_weight color < fuel → (∀ k, k ∈ ids → is_Some (adj !! k)) →
  (dfs_all fuel adj color ids = Some (Ok tt) ∧
     ∃ fin', NoDup fin' ∧ finished fin' ∧ (∀ k, k ∈ fin ∨ k ∈ ids → k ∈ fin')) ∨
  (dfs_all fuel adj color ids = Some (Err DecompositionError.DependencyCycle) ∧ ∃ k, tc edge k k).
Proof.
  induction ids as [|id ids IH]; intros fin color Hs Hfuel Hids; simpl.
  { left. split; [done|]. exists fin. split_and!; [apply Hs..|]. intros k [?|?%elem_of_nil]; done. }
  assert (is_Some (adj !! id)) as Hid by (apply Hids; left). assert (∀ k, k ∈ ids → is_Some (adj !! k)) as Hids'.
  { intros k Hk. apply Hids. by right. }
  case_bool_decide as Hc.
  - destruct (IH fin color Hs Hfuel Hids') as [(-> & fin' & ? & ? & Hin)|?]; [left|by right]. split; [done|].
    exists fin'. split_and!; [done..|]. intros k [?|[->|?]%elem_of_cons]; [auto| |auto]. apply Hin. left.
    apply (s_black _ _ _ Hs). apply (s_dom _ _ _ Hs) in Hid as [c Hid]. rewrite Hid in *. destruct c; [done| |done].
    apply (s_gray _ _ _ Hs) in Hid. by apply elem_of_nil in Hid.
  - pose proof (white_weight_blacken color id Color.Gray Hc Hid ltac:(done)) as Hw.
    assert (alter (λ _, Color.Gray) id color = <[id := Color.Gray]> color) as ->.
    { apply map_eq. intros x. destruct (decide (x = id)) as [->|]; [by rewrite lookup_alter_eq, lookup_insert_eq, Hc|].
      by rewrite lookup_alter_ne, lookup_insert_ne. }
    destruct (dfs_spec fuel fin (<[id := Color.Gray]> color) [(id, 0)]) as [(fin' & color' & -> & Hs' & Hin & Hw')|[-> ?]].
    + by eapply search_enter.
    + simpl. rewrite Nat.sub_0_r. lia.
    + destruct (IH fin' color' Hs') as [(-> & fin2 & ? & ? & Hin2)|?]; [lia|done|left|by right]. split; [done|].
      exists fin2. split_and!; [done..|]. intros k [?|[->|?]%elem_of_cons]; apply Hin2; [left; auto|left|by right].
      apply Hin. right. simpl. left.
    + by right.
Qed.
End search.

(** ** The refused plans *)

Section detect.
Context (states : list SubtaskState.t).

Abbreviation ids := (SubtaskState.subtask_id <$> states).

(** [a] depends on [b], a subtask of the plan. *)
Definition depends (a b : string) : Prop :=
  ∃ s, s ∈ states ∧ SubtaskState.subtask_id s = a ∧ b ∈ SubtaskState.depends_on s ∧ b ∈ ids.

Lemma adjacency_dom k : is_Some (adjacency states !! k) ↔ k ∈ ids.
Proof. apply collect_map_dom. Qed.

Lemma edge_depends : NoDup ids → ∀ a b, edge (adjacency states) a b ↔ depends a b.
Proof.
  intros Hnd a b. unfold edge, depends. setoid_rewrite adjacency_dom. split.
  - intros (deps & (s & Hs & Heq)%collect_map_lookup_inv & Hb & Hin). injection Heq as <- <-. by exists s.
  - intros (s & Hs & <- & Hb & Hin). exists (SubtaskState.depends_on s). split_and!; [|done..].
    by apply (collect_map_lookup (λ s, (SubtaskState.subtask_id s, SubtaskState.depends_on s))).
Qed.

Lemma start_white k : collect_map (λ s, (SubtaskState.subtask_id s, Color.White)) states !! k = Some Color.White ↔ k ∈ ids.
Proof.
  split.
  - intros Hk. apply (collect_map_dom (λ s, (SubtaskState.subtask_id s, Color.White))). by eexists.
  - intros [c Hc]%(collect_map_dom (λ s, (SubtaskState.subtask_id s, Color.White))). rewrite Hc.
    by apply collect_map_lookup_inv in Hc as (s & _ & [= _ <-]).
Qed.

Lemma start_colors k c : collect_map (λ s, (SubtaskState.subtask_id s, Color.White)) states !! k = Some c → c = Color.White.
Proof. by intros (s & _ & [= _ <-])%collect_map_lookup_inv. Qed.

Lemma cycle_fuel_enough :
  white_weight (adjacency states) (collect_map (λ s, (SubtaskState.subtask_id s, Color.White)) states) < cycle_fuel states.
Proof.
  unfold cycle_fuel. apply Nat.lt_succ_r. trans (map_weight (adjacency states)).
  - unfold white_weight, keys, map_weight, degree. generalize (collect_map (λ s, (SubtaskState.subtask_id s, Color.White)) states).
    intros color. assert (∀ kv, kv ∈ map_to_list (adjacency states) → adjacency states !! kv.1 = Some kv.2) as Hl.
    { intros [k v] Hkv. by apply elem_of_map_to_list in Hkv. }
    induction (map_to_list (adjacency states)) as [|kv l IH]; [done|]. rewrite fmap_cons. cbn [sum_list_with].
    rewrite (Hl kv) by left. assert (∀ kv, kv ∈ l → adjacency states !! kv.1 = Some kv.2) as Hl' by (intros ? ?; apply Hl; by right).
    specialize (IH Hl'). unfold node_weight in *. cbn [default id]. case_bool_decide; lia.
  - unfold adjacency. induction states as [|s l IH] using rev_ind; [done|]. rewrite collect_map_snoc, sum_list_with_app. simpl.
    etrans; [apply map_weight_insert_le|]. unfold node_weight at 1. lia.
Qed.

Lemma detect_cycle_run :
  (detect_cycle states = Some (Ok tt) ∧ ∀ k, ¬ tc (edge (adjacency states)) k k) ∨
  (detect_cycle states = Some (Err DecompositionError.DependencyCycle) ∧ ∃ k, tc (edge (adjacency states)) k k).
Proof.
  unfold detect_cycle. destruct (dfs_all_spec (adjacency states) (cycle_fuel states) ids []
    (collect_map (λ s, (SubtaskState.subtask_id s, Color.White)) states)) as [(-> & fin & Hnd & Hfin & Hin)|?]; [|..|by right].
  - split.
    + intros k. rewrite adjacency_dom. apply (collect_map_dom (λ s, (SubtaskState.subtask_id s, Color.White))).
    + intros k. split; [by intros ?%start_colors|by intros ?%elem_of_nil].
    + intros k. split; [by intros ?%start_colors|by intros ?%elem_of_nil].
    + constructor.
    + constructor.
    + by intros [] ? ? ? ?.
    + done.
  - apply cycle_fuel_enough.
  - intros k. by rewrite adjacency_dom.
  - left. split; [done|]. intros k Htc. apply (finished_acyclic _ _ k Hnd Hfin); [|done]. apply Hin. right.
    apply adjacency_dom. inversion Htc as [? ? (deps & Ha & _)|? ? ? (deps & Ha & _)]; subst; by eexists.
Qed.
End detect.

(** C31: a decomposition whose subtasks have distinct ids is refused with a
    cycle error exactly when some subtask depends on itself, directly or
    through others; the search always ends within its fuel. *)
Theorem detect_cycle_exact states :
  NoDup (SubtaskState.subtask_id <$> states) →
  (detect_cycle states = Some (Ok tt) ∧ ∀ k, ¬ tc (depends states) k k) ∨
  (detect_cycle states = Some (Err DecompositionError.DependencyCycle) ∧ ∃ k, tc (depends states) k k).
Proof.
  intros Hnd. assert (∀ a b, tc (edge (adjacency states)) a b ↔ tc (depends states) a b) as Htc.
  { intros a b. split; induction 1 as [? ? Hab|? ? ? Hab _ IH]; [|eapply tc_l|..|eapply tc_l]; try exact IH;
      try apply tc_once; by apply (edge_depends states Hnd). }
  setoid_rewrite <- Htc. apply detect_cycle_run.
Qed.

Definition sample_subtask (id : string) (deps : list string) : SubtaskState.t :=
  SubtaskState.mk id id "agent" deps SubtaskStatus.Pending None false.

Definition sample_ring : list SubtaskState.t :=
  [sample_subtask "a" ["b"]; sample_subtask "b" ["d"; "c"]; sample_subtask "c" ["a"]; sample_subtask "d" []].

Lemma detect_cycle_exact_witness :
  (detect_cycle sample_ring = Some (Ok tt) ∧ ∀ k, ¬ tc (depends sample_ring) k k) ∨
  (detect_cycle sample_ring = Some (Err DecompositionError.DependencyCycle) ∧ ∃ k, tc (depends sample_ring) k k).
Proof. apply (detect_cycle_exact sample_ring). apply (bool_decide_unpack _). vm_compute. exact I. Defined.

Example ring_refused : detect_cycle sample_ring = Some (Err DecompositionError.DependencyCycle).
Proof. vm_compute. reflexivity. Qed.
