(* ===== verification/DecompositionProps.v ===== *)
(** * What a submitted plan becomes

    A submission either leaves the document of the task alone or replaces it
    by the merge of the plan with the prior document.  Every document written
    by submissions and reports is a well-formed plan. *)
From S2P Require Import Prelude RustStr AgentTree Decomposition DecompositionCycle.
Open Scope string_scope.
Open Scope list_scope.
Open Scope Z_scope.

(** ** The checks *)

Section checks.
Context `{Uuid}.

Lemma validate_subtasks_Ok l : ∀ seen_titles seen_existing,
  validate_subtasks seen_titles seen_existing l = Ok tt →
  NoDup (SubtaskSpec.title <$> l) ∧ (∀ t, t ∈ SubtaskSpec.title <$> l → t ∉ seen_titles) ∧
  NoDup (omap SubtaskSpec.existing_id l) ∧ (∀ e, e ∈ omap SubtaskSpec.existing_id l → e ∉ seen_existing).
Proof.
  induction l as [|st l IH]; intros titles existing Hok.
  { simpl. split_and!; [constructor|by intros ? ?%elem_of_nil|constructor|by intros ? ?%elem_of_nil]. }
  cbn [validate_subtasks] in Hok. apply bind_unit_Ok in Hok as [_ Hok]. apply bind_unit_Ok in Hok as [He Hok].
  apply bind_unit_Ok in Hok as [Ht Hok]. apply guard_err_Ok, bool_decide_eq_false in Ht.
  destruct (IH _ _ Hok) as (Hnt & Hft & Hne & Hfe). rewrite fmap_cons. cbn [omap list_omap].
  split_and!.
  - apply NoDup_cons. split; [|done]. intros Hin. apply (Hft _ Hin). set_solver.
  - intros t [->|Hin]%elem_of_cons; [done|]. specialize (Hft _ Hin). set_solver.
  - destruct (SubtaskSpec.existing_id st) as [eid|]; [|done]. apply NoDup_cons. split; [|done]. intros Hin.
    apply (Hfe _ Hin). set_solver.
  - destruct (SubtaskSpec.existing_id st) as [eid|]; [|done]. apply bind_unit_Ok in He as [_ He].
    apply guard_err_Ok, bool_decide_eq_false in He. intros e [->|Hin]%elem_of_cons; [done|]. specialize (Hfe _ Hin). set_solver.
Qed.

(** An id that one of the first [n] draws gave. *)
Definition minted (n : nat) (id : string) : Prop := ∃ m, (m < n)%nat ∧ id = "st-" +:+ sub_uuid_v4 m.

Lemma minted_more n n' id : (n ≤ n')%nat → minted n id → minted n' id.
Proof. intros Hle (m & ? & ?). exists m. split; [lia|done]. Qed.

Lemma minted_S `{!UuidLaws} n : ¬ minted n ("st-" +:+ sub_uuid_v4 n).
Proof.
  intros (m & Hm & Heq). apply (inj (String.append "st-")) in Heq. apply sub_uuid_v4_inj in Heq. lia.
Qed.
End checks.

(** ** Runs *)

Section runs.
Context `{Uuid, DecompositionYaml}.

(** The file system may fail and ids may be drawn; documents stay. *)
Definition same_docs (w w' : World) : Prop := docs w' = docs w ∧ tree w' = tree w ∧ (drawn w ≤ drawn w')%nat.

#[export] Instance same_docs_preorder : PreOrder same_docs.
Proof.
  split; [by split|]. intros w1 w2 w3 (Hd & Ht & ?) (Hd' & Ht' & ?). split_and!; [by rewrite Hd'|by rewrite Ht'|lia].
Qed.

Lemma keeps_fs_call : keeps same_docs fs_call.
Proof. intros w. unfold fs_call. split_and!; simpl; [done..|lia]. Qed.

Lemma keeps_fresh : keeps same_docs fresh_subtask_id.
Proof. intros w. unfold fresh_subtask_id. split_and!; simpl; [done..|lia]. Qed.

#[local] Hint Resolve keeps_fs_call keeps_fresh same_docs_preorder : keeps.

Lemma keeps_task_dir caller task : keeps same_docs (task_dir caller task).
Proof. unfold task_dir. keeps. Qed.

Lemma keeps_read_state dir : keeps same_docs (read_state dir).
Proof. unfold read_state. keeps. Qed.

Lemma keeps_assign_ids prior l : keeps same_docs (assign_ids prior l).
Proof. induction l as [|st l IH]; simpl; keeps. Qed.

#[local] Hint Resolve keeps_task_dir keeps_read_state keeps_assign_ids : keeps.

(** A failing run has written nothing. *)
Definition failsafe {A} (m : M World DecompositionError.t A) : Prop := ∀ w e w', m w = (Err e, w') → same_docs w w'.

Lemma failsafe_keeps {A} (m : M World DecompositionError.t A) : keeps same_docs m → failsafe m.
Proof. intros Hm w e w' Hrun. specialize (Hm w). by rewrite Hrun in Hm. Qed.

Lemma failsafe_bind {A B} (m : M World DecompositionError.t A) (k : A → M World DecompositionError.t B) :
  keeps same_docs m → (∀ a, failsafe (k a)) → failsafe (m ≫= k).
Proof.
  intros Hm Hk w e w' [Hrun|(a & w1 & Hrun & Hrun')]%M_bind_Err; [by eapply failsafe_keeps|].
  specialize (Hm w). rewrite Hrun in Hm. etrans; [exact Hm|by eapply Hk].
Qed.

Lemma failsafe_ret {A B} (m : M World DecompositionError.t A) (f : A → B) : failsafe m → failsafe (m ≫= λ a, mret (f a)).
Proof. intros Hm w e w' [Hrun|(a & w1 & _ & ?)]%M_bind_Err; [by eapply Hm|done]. Qed.

Lemma failsafe_write dir st : failsafe (write_state dir st).
Proof.
  unfold write_state. repeat (apply failsafe_bind; [keeps|intros ?]). by intros w e w' ?.
Qed.

Lemma failsafe_submit caller task plan : failsafe (submit caller task plan).
Proof.
  unfold submit. do 8 (apply failsafe_bind; [keeps|intros ?]). apply failsafe_ret, failsafe_write.
Qed.

Lemma failsafe_update caller task id st out : failsafe (update_subtask_status caller task id st out).
Proof.
  unfold update_subtask_status, load_for_update, store_update. apply failsafe_bind; [keeps|]. intros [dir state].
  apply failsafe_bind; [keeps|]. intros s. apply failsafe_ret, failsafe_write.
Qed.

(** *** Successful runs *)

Lemma fs_call_Ok w u w' : fs_call w = (Ok u, w') → docs w' = docs w ∧ tree w' = tree w ∧ drawn w' = drawn w.
Proof. unfold fs_call. by intros [= _ <-]. Qed.

Lemma task_dir_Ok caller task w dir w' :
  task_dir caller task w = (Ok dir, w') →
  w' = w ∧ ∃ node, get_node caller (tree w) = Some node ∧
    dir = AgentNode.workspace_path node ++ (Component.Normal <$> [".agent"; "tasks"; "active"; task]).
Proof.
  unfold task_dir. intros (? & ? & [_ <-]%lift_Ok & Hrun)%M_bind_Ok.
  apply M_bind_Ok in Hrun as (? & ? & [_ <-]%lift_Ok & Hrun). apply M_bind_Ok in Hrun as (? & ? & [= <- <-] & Hrun).
  apply M_bind_Ok in Hrun as (node & ? & [Hn%ok_or_Ok <-]%lift_Ok & [= <- <-]). split; [done|]. by exists node.
Qed.

(** The subtasks of the document in a directory. *)
Definition stored (w : World) (dir : PathBuf) : option DecompositionState.t := text ← docs w !! dir; from_slice text.

Lemma read_state_Ok dir w o w' :
  read_state dir w = (Ok o, w') →
  docs w' = docs w ∧ tree w' = tree w ∧ drawn w' = drawn w ∧ o = stored w dir ∧ (is_Some (docs w !! dir) → is_Some o).
Proof.
  unfold read_state, stored. intros (? & w1 & (Hd & Ht & Hdr)%fs_call_Ok & Hrun)%M_bind_Ok.
  apply M_bind_Ok in Hrun as (? & ? & [= <- <-] & Hrun). rewrite <- Hd. destruct (docs w1 !! dir) as [text|]; simpl.
  - apply M_bind_Ok in Hrun as (st & ? & [Hst%ok_or_Ok <-]%lift_Ok & [= <- <-]). split_and!; [done..|by rewrite Hst|by eexists].
  - injection Hrun as <- <-. split_and!; [done..|by intros []].
Qed.

Lemma write_state_Ok dir st w u w' :
  write_state dir st w = (Ok u, w') →
  ∃ text, to_string st = Some text ∧ docs w' = <[dir := text]> (docs w) ∧ tree w' = tree w ∧ drawn w' = drawn w.
Proof.
  unfold write_state. intros (text & ? & [Htext%ok_or_Ok <-]%lift_Ok & Hrun)%M_bind_Ok. exists text. split; [done|].
  apply M_bind_Ok in Hrun as (? & ? & [_ <-]%lift_Ok & Hrun).
  do 5 (apply M_bind_Ok in Hrun as (? & ? & (<- & <- & <-)%fs_call_Ok & Hrun)). by injection Hrun as _ <-.
Qed.
(** *** Ids *)

(** How a subtask of a plan got its id. *)
Definition assigned_id (prior : gset string) (lo hi : nat) (p : string * SubtaskSpec.t) : Prop :=
  (SubtaskSpec.existing_id p.2 = Some p.1 ∧ p.1 ∈ prior) ∨
  (SubtaskSpec.existing_id p.2 = None ∧ ∃ m, (lo ≤ m < hi)%nat ∧ p.1 = "st-" +:+ sub_uuid_v4 m).

Lemma assign_ids_Ok prior l : ∀ w assigned w',
  assign_ids prior l w = (Ok assigned, w') →
  assigned.*2 = l ∧ docs w' = docs w ∧ tree w' = tree w ∧ (drawn w ≤ drawn w')%nat ∧
  Forall (assigned_id prior (drawn w) (drawn w')) assigned.
Proof.
  induction l as [|st l IH]; intros w assigned w' Hrun; cbn [assign_ids] in Hrun.
  { injection Hrun as <- <-. split_and!; [done..|lia|constructor]. }
  apply M_bind_Ok in Hrun as (id & w1 & Hid & Hrun). apply M_bind_Ok in Hrun as (rest & ? & (Hrest & Hd & Ht & Hle & Hall)%IH & [= <- <-]).
  assert (docs w1 = docs w ∧ tree w1 = tree w ∧ (drawn w ≤ drawn w1)%nat ∧ assigned_id prior (drawn w) (drawn w1) (id, st)) as (Hd1 & Ht1 & Hle1 & Hhd).
  { unfold assigned_id. simpl. destruct (SubtaskSpec.existing_id st) as [eid|].
    - apply M_bind_Ok in Hid as (? & ? & [Hin <-]%lift_Ok & [= <- <-]). apply guard_err_Ok in Hin. b2p.
      split_and!; [done..|]. left. by split.
    - injection Hid as <- <-. simpl. split_and!; [done..|lia|]. right. split; [done|]. exists (drawn w). split; [lia|done]. }
  rewrite fmap_cons, Hrest, Hd, Hd1, Ht, Ht1. split_and!; [done..|lia|]. constructor.
  - destruct Hhd as [?|(? & m & ? & ?)]; [by left|]. right. split; [done|]. exists m. split; [lia|done].
  - eapply Forall_impl; [exact Hall|]. intros p [?|(? & m & ? & ?)]; [by left|]. right. split; [done|]. exists m. split; [lia|done].
Qed.

Lemma assigned_minted prior lo hi p :
  (lo ≤ hi)%nat → (∀ id, id ∈ prior → minted lo id) → assigned_id prior lo hi p → minted hi p.1.
Proof.
  intros Hle Hprior [[_ ?%Hprior]|(_ & m & ? & ?)]; [by eapply minted_more|]. exists m. split; [lia|done].
Qed.

Lemma assigned_NoDup `{!UuidLaws} prior l : ∀ w assigned w' n,
  assign_ids prior l w = (Ok assigned, w') → (n ≤ drawn w)%nat → (∀ id, id ∈ prior → minted n id) →
  NoDup (omap SubtaskSpec.existing_id l) → NoDup assigned.*1.
Proof.
  induction l as [|st l IH]; intros w assigned w' n Hrun Hn Hprior Hex; cbn [assign_ids] in Hrun.
  { injection Hrun as <- <-. constructor. }
  apply M_bind_Ok in Hrun as (id & w1 & Hid & Hrun). apply M_bind_Ok in Hrun as (rest & ? & Hrest & [= <- <-]).
  pose proof (assign_ids_Ok _ _ _ _ _ Hrest) as (Hl & _ & _ & _ & Hall). rewrite fmap_cons. cbn [omap list_omap] in Hex. simpl.
  destruct (SubtaskSpec.existing_id st) as [eid|] eqn:Heid.
  - apply NoDup_cons in Hex as [Hfresh Hex].
    apply M_bind_Ok in Hid as (? & ? & [Hin <-]%lift_Ok & [= <- <-]). apply guard_err_Ok in Hin. b2p.
    apply NoDup_cons. split; [|by eapply IH]. intros ([i s] & -> & Hi)%list_elem_of_fmap. simpl in *.
    pose proof (proj1 (Forall_forall _ _) Hall _ Hi) as [[He _]|(_ & m & Hm & Heq)]; simpl in *.
    + apply Hfresh. apply list_elem_of_omap. exists s. split; [|done]. rewrite <- Hl. apply list_elem_of_fmap. by exists (i, s).
    + subst i. apply (minted_S m). apply minted_more with n; [lia|]. auto.
  - injection Hid as <- <-. simpl in *. apply NoDup_cons. split; [|eapply (IH _ _ _ n); [exact Hrest|simpl; lia|done|done]].
    intros ([i s] & Hi' & Hi)%list_elem_of_fmap. simpl in *. subst i.
    pose proof (proj1 (Forall_forall _ _) Hall _ Hi) as [[_ Hin]|(_ & m & Hm & Heq)]; simpl in *.
    + apply (minted_S (drawn w)). apply minted_more with n; [lia|]. auto.
    + apply (inj (String.append "st-")), sub_uuid_v4_inj in Heq. lia.
Qed.

(** *** The merge *)

(** What becomes of one subtask of the plan. *)
Record carried (old : list SubtaskState.t) (receipt : list (string * string)) (spec : SubtaskSpec.t) (s : SubtaskState.t) : Prop := {
  ca_title : SubtaskState.title s = SubtaskSpec.title spec;
  ca_assignee : SubtaskState.assignee s = SubtaskSpec.assignee spec;
  ca_current : SubtaskState.orphaned s = false;
  ca_deps : Forall2 (λ t d, (t, d) ∈ receipt) (SubtaskSpec.depends_on spec) (SubtaskState.depends_on s);
  ca_id : match SubtaskSpec.existing_id spec with
          | Some id => SubtaskState.subtask_id s = id ∧ id ∈ SubtaskState.subtask_id <$> old
          | None => SubtaskState.subtask_id s ∉ SubtaskState.subtask_id <$> old
          end;
  ca_work : match find_subtask (SubtaskState.subtask_id s) old with
            | Some o => SubtaskState.status s = SubtaskState.status o ∧ SubtaskState.outcome s = SubtaskState.outcome o
            | None => SubtaskState.status s = SubtaskStatus.Pending ∧ SubtaskState.outcome s = None
            end
}.

Definition receipt_of (current : list SubtaskState.t) : list (string * string) :=
  (λ s, (SubtaskState.title s, SubtaskState.subtask_id s)) <$> current.

Definition subtasks_of (o : option DecompositionState.t) : list SubtaskState.t := default [] (DecompositionState.subtasks <$> o).

(** What a subtask that is dropped must have to stay as an orphan. *)
Definition traced (new_ids : list string) (s : SubtaskState.t) : bool :=
  negb (bool_decide (SubtaskState.subtask_id s ∈ new_ids))
  && bool_decide (SubtaskState.status s ∈ [SubtaskStatus.Completed; SubtaskStatus.InProgress]).

(** The document a submission writes. *)
Record merged (plan : DecompositionPlan.t) (old : list SubtaskState.t) (receipt : list (string * string))
    (current : list SubtaskState.t) (st : DecompositionState.t) : Prop := {
  me_goal : DecompositionState.goal st = DecompositionPlan.goal plan;
  me_strategy : DecompositionState.strategy st = DecompositionPlan.strategy plan;
  me_subtasks : DecompositionState.subtasks st =
    current ++ (SubtaskState.set_orphaned <$> List.filter (traced (SubtaskState.subtask_id <$> current)) old);
  me_receipt : receipt = receipt_of current;
  me_carried : Forall2 (carried old receipt) (DecompositionPlan.subtasks plan) current;
  me_titles : NoDup (SubtaskState.title <$> current);
  me_ids : NoDup (SubtaskState.subtask_id <$> current);
  me_acyclic : ∀ k, ¬ tc (depends current) k k
}.
Lemma resolve_Ok m old p s :
  resolve_subtask m old p = Ok s →
  SubtaskState.subtask_id s = p.1 ∧ SubtaskState.title s = SubtaskSpec.title p.2 ∧
  SubtaskState.assignee s = SubtaskSpec.assignee p.2 ∧ SubtaskState.orphaned s = false ∧
  Forall2 (λ t d, m !! t = Some d) (SubtaskSpec.depends_on p.2) (SubtaskState.depends_on s) ∧
  match find_subtask (SubtaskState.subtask_id s) old with
  | Some o => SubtaskState.status s = SubtaskState.status o ∧ SubtaskState.outcome s = SubtaskState.outcome o
  | None => SubtaskState.status s = SubtaskStatus.Pending ∧ SubtaskState.outcome s = None
  end.
Proof.
  destruct p as [id st]. unfold resolve_subtask. intros (deps & Hdeps%try_map_Ok & Hs)%bind_Ok.
  assert (Forall2 (λ t d, m !! t = Some d) (SubtaskSpec.depends_on st) deps) as Hd.
  { eapply Forall2_impl; [exact Hdeps|]. by intros t d ?%ok_or_Ok. }
  destruct (find_subtask id old) as [o|] eqn:Ho; injection Hs as <-; simpl; rewrite Ho; by split_and!.
Qed.

(** The new subtasks, with their receipt. *)
Lemma resolve_all_Ok old assigned current :
  NoDup (SubtaskSpec.title <$> assigned.*2) →
  try_map (resolve_subtask (collect_map (λ '(id, st), (SubtaskSpec.title st, id)) assigned) old) assigned = Ok current →
  SubtaskState.subtask_id <$> current = assigned.*1 ∧ SubtaskState.title <$> current = SubtaskSpec.title <$> assigned.*2 ∧
  ∀ lo hi, Forall (assigned_id (list_to_set (SubtaskState.subtask_id <$> old)) lo hi) assigned →
    (∀ id, id ∈ SubtaskState.subtask_id <$> old → ¬ ∃ m, (lo ≤ m < hi)%nat ∧ id = "st-" +:+ sub_uuid_v4 m) →
    Forall2 (carried old (receipt_of current)) assigned.*2 current.
Proof.
  intros Hnd Hall%try_map_Ok.
  assert (SubtaskState.subtask_id <$> current = assigned.*1 ∧ SubtaskState.title <$> current = SubtaskSpec.title <$> assigned.*2) as [Hids Htitles].
  { clear Hnd. revert Hall. generalize (collect_map (λ '(id, st), (SubtaskSpec.title st, id)) assigned). intros m.
    induction 1 as [|p s assigned current (Hid & Ht & _)%resolve_Ok _ [IH1 IH2]]; [done|].
    rewrite !fmap_cons. split; by f_equal. }
  split_and!; [done..|]. intros lo hi Hids' Hfresh.
  assert (∀ t d, collect_map (λ '(id, st), (SubtaskSpec.title st, id)) assigned !! t = Some d → (t, d) ∈ receipt_of current) as Hreceipt.
  { intros t d ([id st] & Hin & [= <- <-])%collect_map_lookup_inv. apply list_elem_of_lookup in Hin as [i Hi].
    destruct (Forall2_lookup_l _ _ _ _ _ Hall Hi) as (s & Hs & (Hid & Ht & _)%resolve_Ok). apply list_elem_of_fmap.
    exists s. split; [by rewrite Hid, Ht|]. by apply list_elem_of_lookup_2 with i. }
  revert Hall Hids'. generalize (collect_map (λ '(id, st), (SubtaskSpec.title st, id)) assigned) Hreceipt. clear -Hfresh.
  generalize (receipt_of current). intros receipt m Hreceipt.
  induction 1 as [|p s assigned current (Hid & Ht & Ha & Ho & Hd & Hw)%resolve_Ok _ IH]; intros Hall; [constructor|].
  inversion Hall as [|? ? Hp Hall']; subst. rewrite fmap_cons. constructor; [|by apply IH]. split; [done..| | |done].
  - eapply Forall2_impl; [exact Hd|]. apply Hreceipt.
  - destruct Hp as [[-> Hin]|[-> Hm]]; [split; [done|by apply elem_of_list_to_set in Hin]|].
    rewrite Hid. intros Hin. by destruct (Hfresh _ Hin).
Qed.

Lemma acyclic_or_err_Ok states : acyclic_or_err states = Ok tt → ∀ k, ¬ tc (edge (adjacency states)) k k.
Proof. unfold acyclic_or_err. by destruct (detect_cycle_run states) as [[-> ?]|[-> _]]. Qed.

Lemma orphans_spec (current old : list SubtaskState.t) :
  orphans (list_to_set (SubtaskState.subtask_id <$> current)) old =
  SubtaskState.set_orphaned <$> List.filter (traced (SubtaskState.subtask_id <$> current)) old.
Proof.
  unfold orphans, traced. f_equal. apply filter_ext. intros s. f_equal. f_equal. apply bool_decide_ext.
  by rewrite elem_of_list_to_set.
Qed.

Lemma current_only current l :
  Forall (λ s, SubtaskState.orphaned s = false) current →
  List.filter (λ s, negb (SubtaskState.orphaned s)) (current ++ (SubtaskState.set_orphaned <$> l)) = current.
Proof.
  intros Hc. rewrite List.filter_app. replace (List.filter _ (_ <$> l)) with ([] : list SubtaskState.t).
  - rewrite app_nil_r. induction Hc as [|s current Hs _ IH]; [done|]. simpl. by rewrite Hs, IH.
  - induction l as [|s l IH]; [done|]. by rewrite fmap_cons.
Qed.

Lemma submit_Ok `{!UuidLaws} caller task plan w receipt w' :
  (∀ dir id, id ∈ SubtaskState.subtask_id <$> subtasks_of (stored w dir) → minted (drawn w) id) →
  submit caller task plan w = (Ok receipt, w') →
  ∃ node dir text current st,
    get_node caller (tree w) = Some node ∧
    dir = AgentNode.workspace_path node ++ (Component.Normal <$> [".agent"; "tasks"; "active"; task]) ∧
    (is_Some (docs w !! dir) → is_Some (stored w dir)) ∧
    to_string st = Some text ∧ docs w' = <[dir := text]> (docs w) ∧ tree w' = tree w ∧ (drawn w ≤ drawn w')%nat ∧
    merged plan (subtasks_of (stored w dir)) receipt current st ∧
    Forall (minted (drawn w')) (SubtaskState.subtask_id <$> current).
Proof.
  intros Hminted. unfold submit. intros (dir & ? & (-> & node & Hnode & Hdir)%task_dir_Ok & Hrun)%M_bind_Ok.
  apply M_bind_Ok in Hrun as (? & ? & [_ <-]%lift_Ok & Hrun). apply M_bind_Ok in Hrun as (? & ? & [_ <-]%lift_Ok & Hrun).
  apply M_bind_Ok in Hrun as ([] & ? & [(Htitles & _ & Hex & _)%validate_subtasks_Ok <-]%lift_Ok & Hrun).
  apply M_bind_Ok in Hrun as (o & w1 & (Hd1 & Ht1 & Hdr1 & -> & Hread)%read_state_Ok & Hrun).
  change (default [] (DecompositionState.subtasks <$> stored w dir)) with (subtasks_of (stored w dir)) in Hrun.
  assert (∀ id, id ∈ SubtaskState.subtask_id <$> subtasks_of (stored w dir) → minted (drawn w) id) as Hold by apply Hminted.
  set (old := subtasks_of (stored w dir)) in *.
  apply M_bind_Ok in Hrun as (assigned & w2 & Hassign & Hrun).
  destruct (assign_ids_Ok _ _ _ _ _ Hassign) as (Hspecs & Hd2 & Ht2 & Hdr2 & Hids).
  apply M_bind_Ok in Hrun as (current & ? & [Hres <-]%lift_Ok & Hrun). rewrite <- Hspecs in Htitles.
  destruct (resolve_all_Ok _ _ _ Htitles Hres) as (Hcids & Hctitles & Hcarried).
  apply M_bind_Ok in Hrun as ([] & ? & [Hac <-]%lift_Ok & Hrun).
  pose proof (acyclic_or_err_Ok _ Hac) as Hacyclic.
  apply M_bind_Ok in Hrun as (? & w3 & (text & Htext & Hd3 & Ht3 & Hdr3)%write_state_Ok & [= <- <-]).
  rewrite orphans_spec in Htext |- *. cbn [DecompositionState.subtasks].
  assert (∀ id, id ∈ (list_to_set (SubtaskState.subtask_id <$> old) : gset string) → minted (drawn w) id) as Hold'.
  { intros id Hin. apply Hold. by apply elem_of_list_to_set in Hin. }
  assert (NoDup (SubtaskState.subtask_id <$> current)) as Hnd.
  { rewrite Hcids. eapply (assigned_NoDup _ _ _ _ _ (drawn w)); [exact Hassign|lia|exact Hold'|done]. }
  specialize (Hcarried (drawn w1) (drawn w2) Hids). rewrite Hspecs in Hcarried.
  assert (Forall2 (carried old (receipt_of current)) (DecompositionPlan.subtasks plan) current) as Hcar.
  { apply Hcarried. intros id Hin (m & Hm & ->). apply (minted_S m). apply minted_more with (drawn w); [lia|auto]. }
  rewrite current_only by (eapply Forall2_Forall_r; [exact Hcar|apply Forall_forall; by intros ? _ ? []]).
  exists node, dir, text, current. eexists. split_and!; [done|done|done|exact Htext|by rewrite Hd3, Hd2, Hd1|
    by rewrite Ht3, Ht2, Ht1|lia| |].
  - split; [done..|by rewrite Hctitles|done|]. intros k Htc. apply (Hacyclic k). revert Htc.
    generalize k at 1 3. intros k'. induction 1 as [? ? Hab|? ? ? Hab _ IH]; [|eapply tc_l; [|exact IH]];
      try apply tc_once; by apply (edge_depends current Hnd).
  - rewrite Hcids. apply Forall_fmap. eapply Forall_impl; [exact Hids|]. intros p Hp. rewrite Hdr3.
    eapply assigned_minted; [exact Hdr2| |exact Hp]. intros id Hin. rewrite Hdr1. auto.
Qed.
Lemma update_Ok caller task id st out w old_status w' :
  update_subtask_status caller task id st out w = (Ok old_status, w') →
  ∃ node dir text state s,
    get_node caller (tree w) = Some node ∧
    dir = AgentNode.workspace_path node ++ (Component.Normal <$> [".agent"; "tasks"; "active"; task]) ∧
    stored w dir = Some state ∧ find_subtask id (DecompositionState.subtasks state) = Some s ∧
    old_status = SubtaskState.status s ∧
    to_string (DecompositionState.mk (DecompositionState.goal state) (DecompositionState.strategy state)
      (report_first id st out (DecompositionState.subtasks state))) = Some text ∧
    docs w' = <[dir := text]> (docs w) ∧ tree w' = tree w ∧ drawn w' = drawn w.
Proof.
  unfold update_subtask_status, load_for_update. intros ([dir state] & w2 & Hload & Hrun)%M_bind_Ok.
  apply M_bind_Ok in Hload as (? & ? & (-> & node & Hnode & Hdir)%task_dir_Ok & Hload).
  apply M_bind_Ok in Hload as (o & w1 & (Hd1 & Ht1 & Hdr1 & -> & _)%read_state_Ok & Hload).
  apply M_bind_Ok in Hload as (? & ? & [Hst%ok_or_Ok <-]%lift_Ok & [= -> -> <-]). unfold store_update in Hrun.
  apply M_bind_Ok in Hrun as (s & ? & [Hs%ok_or_Ok <-]%lift_Ok & Hrun).
  apply M_bind_Ok in Hrun as (? & w3 & (text & Htext & Hd3 & Ht3 & Hdr3)%write_state_Ok & [= <- <-]).
  exists node, dir, text, state, s. split_and!; congruence.
Qed.
End runs.

(** ** Well-formed documents *)

(** The subtasks of the latest plan. *)
Definition current_of (l : list SubtaskState.t) : list SubtaskState.t := List.filter (λ s, negb (SubtaskState.orphaned s)) l.

(** Two subtasks that differ in what was reported only. *)
Definition same_shape (s s' : SubtaskState.t) : Prop :=
  SubtaskState.subtask_id s = SubtaskState.subtask_id s' ∧ SubtaskState.title s = SubtaskState.title s' ∧
  SubtaskState.depends_on s = SubtaskState.depends_on s' ∧ SubtaskState.orphaned s = SubtaskState.orphaned s'.

Lemma report_first_shape id st out l : Forall2 same_shape l (report_first id st out l).
Proof.
  induction l as [|s l IH]; simpl; [constructor|]. destruct (String.eqb _ _); constructor; [by split_and! | |by split_and!|done].
  apply Forall_Forall2_diag, Forall_forall. by intros s' _; split_and!.
Qed.

Lemma shape_current l l' : Forall2 same_shape l l' → Forall2 same_shape (current_of l) (current_of l').
Proof.
  induction 1 as [|s s' l l' Hs _ IH]; [constructor|]. simpl. rewrite (proj2 (proj2 (proj2 Hs))).
  destruct (SubtaskState.orphaned s'); simpl; [exact IH|constructor; [exact Hs|exact IH]].
Qed.

Lemma shape_ids l l' : Forall2 same_shape l l' → SubtaskState.subtask_id <$> l = SubtaskState.subtask_id <$> l'.
Proof. induction 1 as [|s s' l l' [Hs _] _ IH]; [done|]. rewrite !fmap_cons. by f_equal. Qed.

Lemma shape_titles l l' : Forall2 same_shape l l' → SubtaskState.title <$> l = SubtaskState.title <$> l'.
Proof. induction 1 as [|s s' l l' (_ & Hs & _) _ IH]; [done|]. rewrite !fmap_cons. by f_equal. Qed.

Lemma shape_depends l l' a b : Forall2 same_shape l l' → depends l' a b → depends l a b.
Proof.
  intros Hl (s' & [i Hi]%list_elem_of_lookup & Ha & Hb & Hin).
  destruct (Forall2_lookup_r _ _ _ _ _ Hl Hi) as (s & Hs & Hid & _ & Hd & _).
  exists s. rewrite (shape_ids l l' Hl), Hid, Hd. split_and!; [by apply list_elem_of_lookup_2 with i|done..].
Qed.

(** A document that submissions and reports may leave. *)
Record plan_ok `{Uuid} (n : nat) (l : list SubtaskState.t) : Prop := {
  po_ids : NoDup (SubtaskState.subtask_id <$> l);
  po_minted : Forall (minted n) (SubtaskState.subtask_id <$> l);
  po_titles : NoDup (SubtaskState.title <$> current_of l);
  po_deps s d : s ∈ current_of l → d ∈ SubtaskState.depends_on s → d ∈ SubtaskState.subtask_id <$> current_of l;
  po_acyclic k : ¬ tc (depends (current_of l)) k k
}.

Section invariant.
Context `{Uuid, DecompositionYaml}.

Lemma plan_ok_shape n l l' : Forall2 same_shape l l' → plan_ok n l → plan_ok n l'.
Proof.
  intros Hl [Hids Hm Ht Hd Ha]. pose proof (shape_current l l' Hl) as Hc. split.
  - by rewrite <- (shape_ids l l').
  - by rewrite <- (shape_ids l l').
  - by rewrite <- (shape_titles _ _ Hc).
  - intros s' d [i Hi]%list_elem_of_lookup Hdep. destruct (Forall2_lookup_r _ _ _ _ _ Hc Hi) as (s & Hs & _ & _ & Heq & _).
    rewrite <- (shape_ids _ _ Hc). apply (Hd s); [by apply list_elem_of_lookup_2 with i|by rewrite Heq].
  - intros k Htc. apply (Ha k). revert Htc. generalize k at 1 3. intros k'.
    induction 1 as [? ? Hab|? ? ? Hab _ IH]; [|eapply tc_l; [|exact IH]]; try apply tc_once; by apply (shape_depends _ _ _ _ Hc).
Qed.

Lemma plan_ok_more n n' l : (n ≤ n')%nat → plan_ok n l → plan_ok n' l.
Proof.
  intros Hle [? Hm ? ? ?]. split; [done| |done..]. eapply Forall_impl; [exact Hm|]. intros id. by apply minted_more.
Qed.

Lemma Forall2_in_r {A B} (P : A → B → Prop) l k y : Forall2 P l k → y ∈ k → ∃ x, x ∈ l ∧ P x y.
Proof.
  intros Hall [i Hi]%list_elem_of_lookup. destruct (Forall2_lookup_r _ _ _ _ _ Hall Hi) as (x & Hx & ?).
  exists x. split; [by apply list_elem_of_lookup_2 with i|done].
Qed.

Lemma merged_current plan old receipt current st :
  merged plan old receipt current st → current_of (DecompositionState.subtasks st) = current.
Proof.
  intros []. unfold current_of. rewrite me_subtasks0. apply current_only. eapply Forall2_Forall_r; [done|].
  apply Forall_forall. by intros ? _ ? [].
Qed.

Lemma merged_ok n plan old receipt current st :
  merged plan old receipt current st → Forall (minted n) (SubtaskState.subtask_id <$> current) → plan_ok n old →
  plan_ok n (DecompositionState.subtasks st).
Proof.
  intros Hm Hminted Hold. pose proof (merged_current _ _ _ _ _ Hm) as Hc. destruct Hm. destruct Hold as [Hnd Hmo _ _ _].
  assert (SubtaskState.subtask_id <$> DecompositionState.subtasks st =
    (SubtaskState.subtask_id <$> current) ++
    (SubtaskState.subtask_id <$> List.filter (traced (SubtaskState.subtask_id <$> current)) old)) as Hids.
  { rewrite me_subtasks0, fmap_app. f_equal. by rewrite <- list_fmap_compose. }
  assert (∀ s, s ∈ List.filter (traced (SubtaskState.subtask_id <$> current)) old →
    s ∈ old ∧ SubtaskState.subtask_id s ∉ SubtaskState.subtask_id <$> current) as Hin.
  { intros s Hs%list_elem_of_In. apply filter_In in Hs as [Hs Ht]. unfold traced in Ht. b2p. split; [by apply list_elem_of_In|done]. }
  split; rewrite ?Hc, ?Hids; [| |done| |done].
  - apply NoDup_app. split_and!; [done| |].
    + intros id Hid (s & -> & Hs)%list_elem_of_fmap. by apply Hin in Hs as [_ ?].
    + clear -Hnd. induction old as [|s old IH]; [constructor|]. rewrite fmap_cons, NoDup_cons in Hnd. destruct Hnd as [Hs Hnd].
      specialize (IH Hnd). simpl. destruct (traced _ s); [|done]. rewrite fmap_cons. apply NoDup_cons. split; [|done].
      intros (s' & Heq & [Hs' _]%list_elem_of_In%filter_In)%list_elem_of_fmap. apply Hs, list_elem_of_fmap.
      exists s'. split; [done|by apply list_elem_of_In].
  - apply Forall_app. split; [done|]. apply Forall_forall. intros id (s & -> & Hs)%list_elem_of_fmap.
    apply (proj1 (Forall_forall _ _) Hmo), list_elem_of_fmap. exists s. split; [done|by apply Hin].
  - intros s d Hs Hd. destruct (Forall2_in_r _ _ _ s me_carried0 Hs) as (spec & _ & []).
    destruct (Forall2_in_r _ _ _ d ca_deps0 Hd) as (t & _ & Ht). rewrite me_receipt0 in Ht.
    apply list_elem_of_fmap in Ht as (s' & [= -> ->] & Hs'). apply list_elem_of_fmap. by exists s'.
Qed.

(** The worlds reached from one without documents: by calls, and while the
    tree changes and others draw UUIDs. *)
Inductive reachable : World → Prop :=
| reach_start t fs n : reachable (mkWorld t ∅ fs n)
| reach_other w t fs n : reachable w → (drawn w ≤ n)%nat → reachable (mkWorld t (docs w) fs n)
| reach_submit w caller task plan : reachable w → reachable (submit caller task plan w).2
| reach_update w caller task id st out : reachable w → reachable (update_subtask_status caller task id st out w).2
| reach_get w caller task : reachable w → reachable (get caller task w).2.

Definition world_ok (w : World) : Prop :=
  ∀ dir text, docs w !! dir = Some text →
    ∃ st, from_slice text = Some st ∧ plan_ok (drawn w) (DecompositionState.subtasks st).

Lemma plan_ok_nil n : plan_ok n [].
Proof.
  split; try constructor; [by intros ? ? ?%elem_of_nil|]. intros k Htc.
  by inversion Htc as [? ? (? & ?%elem_of_nil & _)|? ? ? (? & ?%elem_of_nil & _)].
Qed.

Lemma world_ok_stored w dir : world_ok w → plan_ok (drawn w) (subtasks_of (stored w dir)).
Proof.
  intros Hw. unfold stored. destruct (docs w !! dir) as [text|] eqn:Hd; [|apply plan_ok_nil].
  destruct (Hw dir text Hd) as (st & Hst & ?). simpl. by rewrite Hst.
Qed.

Lemma world_ok_same w w' : same_docs w w' → world_ok w → world_ok w'.
Proof.
  intros (Hd & _ & Hle) Hw dir text. rewrite Hd. intros (st & ? & ?)%Hw. exists st. split; [done|]. by eapply plan_ok_more.
Qed.

Lemma world_ok_insert `{!DecompositionYamlLaws} w w' dir text st :
  docs w' = <[dir := text]> (docs w) → (drawn w ≤ drawn w')%nat → to_string st = Some text →
  plan_ok (drawn w') (DecompositionState.subtasks st) → world_ok w → world_ok w'.
Proof.
  intros Hd Hle Htext Hst Hw dir' text'. rewrite Hd. destruct (decide (dir' = dir)) as [->|Hne].
  - rewrite lookup_insert_eq. intros [= <-]. exists st. split; [by apply from_to|done].
  - rewrite lookup_insert_ne by done. intros (st' & ? & ?)%Hw. exists st'. split; [done|]. by eapply plan_ok_more.
Qed.

Lemma documents_ok `{!UuidLaws, !DecompositionYamlLaws} w : reachable w → world_ok w.
Proof.
  induction 1 as [t fs n|w t fs n _ IH Hle|w caller task plan _ IH|w caller task id st out _ IH|w caller task _ IH].
  - by intros dir text.
  - intros dir text (st & ? & ?)%IH. exists st. split; [done|]. by eapply plan_ok_more.
  - destruct (submit caller task plan w) as [[receipt|e] w'] eqn:Hrun; simpl.
    + apply submit_Ok in Hrun as (node & dir & text & current & st & _ & _ & _ & Htext & Hd & _ & Hle & Hm & Hminted).
      * eapply world_ok_insert; [exact Hd|done|exact Htext| |done]. eapply merged_ok; [exact Hm|done|].
        eapply plan_ok_more; [exact Hle|]. by apply world_ok_stored.
      * intros dir id Hid. by apply (proj1 (Forall_forall _ _) (po_minted _ _ (world_ok_stored w dir IH))).
    + eapply world_ok_same; [by eapply failsafe_submit|done].
  - destruct (update_subtask_status caller task id st out w) as [[old|e] w'] eqn:Hrun; simpl.
    + apply update_Ok in Hrun as (node & dir & text & state & s & _ & _ & Hst & _ & _ & Htext & Hd & _ & Hdr).
      eapply world_ok_insert; [exact Hd|lia|exact Htext| |done]. rewrite Hdr. eapply plan_ok_shape; [apply report_first_shape|].
      pose proof (world_ok_stored w dir IH) as Hp. by rewrite Hst in Hp.
    + eapply world_ok_same; [by eapply failsafe_update|done].
  - eapply world_ok_same; [|exact IH]. unfold get. apply keeps_bind; [apply _|apply keeps_task_dir|intros ?; apply keeps_read_state].
Qed.
End invariant.
