(* ===== verification/DecompositionResults.v ===== *)
(** * Task documents, as callers see them

    What a submission does to the document of its task, and what every
    document reached by calls looks like.  The witnesses run on a concrete
    text format. *)
From S2P Require Import Prelude RustStr AgentTree AgentTreeFacts Decomposition DecompositionCycle DecompositionProps.
From S2P Require TerminateProps.
From stdpp Require Import pretty.
Open Scope string_scope.
Open Scope list_scope.
Open Scope Z_scope.

(** C29: a submission that fails leaves every document as it was.  One that
    succeeds replaces the document of its task by the merge of the plan with
    the prior one: each subtask of the plan, in order, with the id it claims
    or a new one, its dependencies resolved and without cycles, and the status
    and outcome last reported under its id; then, marked as orphans, the
    dropped subtasks that were completed or in progress.  The receipt lists
    the ids of the plan. *)
Theorem submit_exact `{Uuid, DecompositionYaml, !UuidLaws, !DecompositionYamlLaws} w caller task plan :
  reachable w →
  match submit caller task plan w with
  | (Err _, w') => docs w' = docs w
  | (Ok receipt, w') =>
      ∃ node dir text current st,
        get_node caller (tree w) = Some node ∧
        dir = AgentNode.workspace_path node ++ (Component.Normal <$> [".agent"; "tasks"; "active"; task]) ∧
        docs w' = <[dir := text]> (docs w) ∧ from_slice text = Some st ∧
        merged plan (subtasks_of (stored w dir)) receipt current st
  end.
Proof.
  intros Hw%documents_ok. destruct (submit caller task plan w) as [[receipt|e] w'] eqn:Hrun; [|by apply failsafe_submit in Hrun as []].
  apply submit_Ok in Hrun as (node & dir & text & current & st & Hn & Hdir & _ & Htext & Hd & _ & _ & Hm & _).
  - exists node, dir, text, current, st. split_and!; [done..|by apply from_to|done].
  - intros dir id. by apply Forall_forall, (po_minted _ _ (world_ok_stored w dir Hw)).
Qed.

(** C30: every document reached by submissions and reports, whatever the
    file system fails, reads back to subtasks with distinct ids.  Those of the
    latest plan have distinct titles, depend on each other only, and their
    dependencies have no cycle. *)
Theorem plans_well_formed `{Uuid, DecompositionYaml, !UuidLaws, !DecompositionYamlLaws} w dir text :
  reachable w → docs w !! dir = Some text →
  ∃ st, from_slice text = Some st ∧
    let all := DecompositionState.subtasks st in
    let current := List.filter (λ s, negb (SubtaskState.orphaned s)) all in
    NoDup (SubtaskState.subtask_id <$> all) ∧ NoDup (SubtaskState.title <$> current) ∧
    (∀ s d, s ∈ current → d ∈ SubtaskState.depends_on s → d ∈ SubtaskState.subtask_id <$> current) ∧
    (∀ id, ¬ tc (depends current) id id).
Proof.
  intros Hw%documents_ok Htext. destruct (Hw dir text Htext) as (st & Hst & []). exists st. by split_and!.
Qed.

(** ** A concrete text format *)

#[local] Instance target_countable : Countable DelegationTarget.t.
Proof.
  refine (inj_countable' (λ t, (DelegationTarget.assignee t, DelegationTarget.template_ref t, DelegationTarget.prompt t))
    (λ '(a, r, p), DelegationTarget.mk a r p) _). by intros [].
Defined.

#[local] Instance strategy_countable : Countable DecompositionStrategy.t.
Proof.
  refine (inj_countable'
    (λ s, match s with DecompositionStrategy.SelfExecute => inl true | DecompositionStrategy.Decompose => inl false
          | DecompositionStrategy.DelegateSingle t => inr t end)
    (λ x, match x with inl true => DecompositionStrategy.SelfExecute | inl false => DecompositionStrategy.Decompose
          | inr t => DecompositionStrategy.DelegateSingle t end) _). by intros [].
Defined.

#[local] Instance status_countable : Countable SubtaskStatus.t.
Proof.
  refine (inj_countable'
    (λ s, match s with SubtaskStatus.Pending => None | SubtaskStatus.InProgress => Some (true, true)
          | SubtaskStatus.Completed => Some (true, false) | SubtaskStatus.Failed => Some (false, true)
          | SubtaskStatus.Skipped => Some (false, false) end)
    (λ x, match x with None => SubtaskStatus.Pending | Some (true, true) => SubtaskStatus.InProgress
          | Some (true, false) => SubtaskStatus.Completed | Some (false, true) => SubtaskStatus.Failed
          | Some (false, false) => SubtaskStatus.Skipped end) _). by intros [].
Defined.

#[local] Instance subtask_countable : Countable SubtaskState.t.
Proof.
  refine (inj_countable'
    (λ s, (SubtaskState.subtask_id s, SubtaskState.title s, SubtaskState.assignee s, SubtaskState.depends_on s,
           SubtaskState.status s, SubtaskState.outcome s, SubtaskState.orphaned s))
    (λ '(i, t, a, d, s, o, b), SubtaskState.mk i t a d s o b) _). by intros [].
Defined.

#[local] Instance state_countable : Countable DecompositionState.t.
Proof.
  refine (inj_countable' (λ s, (DecompositionState.goal s, DecompositionState.strategy s, DecompositionState.subtasks s))
    (λ '(g, s, l), DecompositionState.mk g s l) _). by intros [].
Defined.

(** The digits of a positive number in binary. *)
Fixpoint bits_of (p : positive) : string :=
  match p with xH => "1" | xO p => String "0" (bits_of p) | xI p => String "+" (bits_of p) end.

Fixpoint of_bits (s : string) : option positive :=
  match s with
  | "" => None
  | String c s =>
      if Ascii.eqb c "1" then Some xH
      else if Ascii.eqb c "0" then xO <$> of_bits s else xI <$> of_bits s
  end.

Lemma of_bits_of p : of_bits (bits_of p) = Some p.
Proof. induction p as [p IH|p IH|]; simpl; rewrite ?IH; done. Qed.

#[local] Instance sample_yaml : DecompositionYaml := {|
  to_string st := Some (bits_of (encode st));
  from_slice text := p ← of_bits text; decode p
|}.

#[local] Instance sample_yaml_laws : DecompositionYamlLaws.
Proof. intros st text [= <-]. simpl. rewrite of_bits_of. simpl. apply decode_encode. Qed.

Definition uuid_prefix : string := "00000000-0000-4000-8000-00000000000".

#[local] Instance sample_uuid : Uuid := {|
  sub_uuid_v4 n := uuid_prefix +:+ pretty n;
  parse_str s := if len s =? 36 then Some true else None
|}.

#[local] Instance sample_uuid_laws : UuidLaws.
Proof. intros n m Heq. by apply (inj (String.append uuid_prefix)), (inj pretty) in Heq. Qed.

(** ** The witnesses *)

Definition sample_spec (existing : option string) (title : string) (deps : list string) : SubtaskSpec.t :=
  SubtaskSpec.mk existing title "kid" None "do it" deps.

(** A first plan of two subtasks, and a second that keeps one of them. *)
Definition first_plan : DecompositionPlan.t :=
  DecompositionPlan.mk "ship" DecompositionStrategy.Decompose [sample_spec None "build" []; sample_spec None "test" ["build"]].
Definition build_id : string := "st-00000000-0000-4000-8000-000000000000".
Definition test_id : string := "st-00000000-0000-4000-8000-000000000001".
Definition second_plan : DecompositionPlan.t :=
  DecompositionPlan.mk "ship" DecompositionStrategy.Decompose
    [sample_spec None "review" ["retest"]; sample_spec (Some test_id) "retest" []].

Definition sample_start : World :=
  mkWorld (tree_run TerminateProps.sample_path TerminateProps.sample_acts tree_new) ∅ [] 0.

Definition sample_submitted : World := (submit "root" "t1" first_plan sample_start).2.
Definition sample_reported : World :=
  (update_subtask_status "root" "t1" build_id SubtaskStatus.Completed (Some "ok") sample_submitted).2.
Definition sample_dir : PathBuf :=
  TerminateProps.sample_path ++ (Component.Normal <$> ["root"; ".agent"; "tasks"; "active"; "t1"]).

Lemma sample_reported_reachable : reachable sample_reported.
Proof. apply reach_update, reach_submit, reach_start. Qed.

Lemma submit_exact_witness :
  is_ok (submit "root" "t1" second_plan sample_reported).1 = true ∧
  match submit "root" "t1" second_plan sample_reported with
  | (Err _, w') => docs w' = docs sample_reported
  | (Ok receipt, w') =>
      ∃ node dir text current st,
        get_node "root" (tree sample_reported) = Some node ∧
        dir = AgentNode.workspace_path node ++ (Component.Normal <$> [".agent"; "tasks"; "active"; "t1"]) ∧
        docs w' = <[dir := text]> (docs sample_reported) ∧ from_slice text = Some st ∧
        merged second_plan (subtasks_of (stored sample_reported dir)) receipt current st
  end.
Proof. split; [vm_compute; reflexivity|]. apply submit_exact, sample_reported_reachable. Defined.

Lemma plans_well_formed_witness :
  ∃ text, docs (submit "root" "t1" second_plan sample_reported).2 !! sample_dir = Some text ∧
    ∃ st, from_slice text = Some st ∧
      NoDup (SubtaskState.title <$> List.filter (λ s, negb (SubtaskState.orphaned s)) (DecompositionState.subtasks st)).
Proof.
  assert (is_Some (docs (submit "root" "t1" second_plan sample_reported).2 !! sample_dir)) as [text Htext].
  { apply (bool_decide_eq_true_1 _). vm_compute. reflexivity. }
  exists text. split; [exact Htext|].
  destruct (plans_well_formed (submit "root" "t1" second_plan sample_reported).2 sample_dir text) as (st & Hst & _ & Ht & _).
  - apply reach_submit, sample_reported_reachable.
  - exact Htext.
  - exists st. split; [exact Hst|exact Ht].
Defined.

(** The second plan kept what was reported of the subtask it dropped. *)
Example dropped_work_stays :
  (λ s, (SubtaskState.subtask_id s, SubtaskState.status s, SubtaskState.orphaned s)) <$>
    subtasks_of (stored (submit "root" "t1" second_plan sample_reported).2 sample_dir) =
  [("st-00000000-0000-4000-8000-000000000002", SubtaskStatus.Pending, false);
   (test_id, SubtaskStatus.Pending, false); (build_id, SubtaskStatus.Completed, true)].
Proof. vm_compute. reflexivity. Qed.

(** Nothing holds the document between the read and the write of a report:
    two reports on different subtasks, both told to have succeeded, and the
    first is gone. *)
Example concurrent_report_is_lost :
  let both : M World DecompositionError.t (SubtaskStatus.t * SubtaskStatus.t) :=
    first ← load_for_update "root" "t1";
    second ← load_for_update "root" "t1";
    old1 ← store_update build_id SubtaskStatus.Completed None first;
    old2 ← store_update test_id SubtaskStatus.Failed None second;
    mret (old1, old2) in
  (both sample_submitted).1 = Ok (SubtaskStatus.Pending, SubtaskStatus.Pending) ∧
  SubtaskState.status <$> subtasks_of (stored (both sample_submitted).2 sample_dir) =
    [SubtaskStatus.Pending; SubtaskStatus.Failed].
Proof. split; vm_compute; reflexivity. Qed.
