(* ===== verification/Spawn.v ===== *)
(** * Spawning agents

    Models [crates/capabilities/cap-lifecycle/src/spawn.rs] with
    [resolve_under_parent] of [workspace.rs] and [CapGrantSubsetAdapter] of
    [cap_grant_adapter.rs]: a parent spawns a child or a sub agent with at
    most its own capabilities, in a workspace below its own.

    The work on the file system is done by the operations of [Workspaces],
    over a state of their own.  As in [Terminate], each access to the tree and
    each of these operations is atomic, and before it other callers may have
    taken their turn. *)
From S2P Require Import Prelude RustStr GrantData Projection AgentTree AgentTreeFacts Terminate.
From Stdlib Require Strings.Byte.
Open Scope string_scope.
Open Scope list_scope.
Open Scope Z_scope.

(** Without the text of the messages. *)
Module TemplateError.
Inductive t := NotFound | InvalidContent | PathTraversal | MaterializationFailure.
End TemplateError.

Definition map_template_err (e : TemplateError.t) : SpawnError.t :=
  match e with
  | TemplateError.NotFound => SpawnError.InvalidConfig
  | TemplateError.InvalidContent => SpawnError.InvalidConfig
  | TemplateError.PathTraversal => SpawnError.PathTraversal
  | TemplateError.MaterializationFailure => SpawnError.WorkspaceIoFailure
  end.

Definition MAX_CAPABILITIES : Z := 64.
Definition MAX_CHILD_BINARY : Z := 32 * 1024 * 1024.
Definition WASM_MAGIC : list Byte.byte := [Byte.x00; Byte.x61; Byte.x73; Byte.x6d].

(** ** Paths *)

(** [Path::join] of a relative path: a [.] adds nothing. *)
Definition path_join (p rel : PathBuf) : PathBuf :=
  p ++ List.filter (λ c, negb (bool_decide (c = Component.CurDir))) rel.

(** The loop over the components, with the depth so far. *)
Fixpoint walk_relative (depth : Z) (l : PathBuf) : result SpawnError.t unit :=
  match l with
  | [] => Ok tt
  | Component.ParentDir :: _ => Err SpawnError.PathTraversal
  | Component.CurDir :: l => walk_relative depth l
  | Component.Normal s :: l =>
      _ ← guard_err (is_workspace_hidden_name s) SpawnError.PathTraversal;
      _ ← guard_err (MAX_PATH_DEPTH <? depth + 1) SpawnError.PathTraversal;
      walk_relative (depth + 1) l
  | Component.RootDir :: _ => Err SpawnError.PathTraversal
  end.

Definition resolve_under_parent (parent_workspace child_workspace_path workspace_root : PathBuf) : result SpawnError.t PathBuf :=
  _ ← guard_err (bool_decide (child_workspace_path = [])) SpawnError.InvalidConfig;
  _ ← guard_err (is_absolute child_workspace_path) SpawnError.PathTraversal;
  _ ← walk_relative 0 child_workspace_path;
  let candidate := path_join parent_workspace child_workspace_path in
  _ ← guard_err (negb (path_starts_with parent_workspace candidate)) SpawnError.PathTraversal;
  _ ← guard_err (negb (path_starts_with workspace_root candidate)) SpawnError.PathTraversal;
  Ok candidate.

(** The components [spawn_child] keeps for itself. *)
Definition reserved_component (c : Component.t) : bool :=
  match c with
  | Component.Normal s => eq_ignore_ascii_case s ".sub" || eq_ignore_ascii_case s ".agent"
  | _ => false
  end.

(** ** Requests *)

Module SpawnChildConfig.
Record t := mk {
  parent_id : string;
  child_id : string;
  handle : option string;
  child_workspace_path : PathBuf;
  capabilities : list Capability.t;
  template_ref : option string;
  binary : option (list Byte.byte)
}.
End SpawnChildConfig.

Module SpawnSubConfig.
Record t := mk {
  parent_id : string;
  capabilities : list Capability.t;
  template_ref : option string
}.
End SpawnSubConfig.

(** ** The gate *)

(** [CapGrantSubsetAdapter::check]; [now] is the clock the projection reads. *)
Definition cap_grant_check (now : Z) (parent child : list Capability.t) : result SpawnError.t unit :=
  match validate_capability_subset now parent child with
  | Ok _ => Ok tt
  | Err _ => Err SpawnError.SubsetViolation
  end.

Section spawn.
Context {H : Type}.

(** What spawning asks of the file system, of the template resolver (none
    may be configured) and of the observer (likewise); [canonicalize] is what
    [Path::canonicalize] answers. *)
Record Workspaces := mkWorkspaces {
  target_exists : PathBuf → H → bool;
  init_child_workspace : PathBuf → AgentKind.t → M H SpawnError.t unit;
  rollback_target_dir : PathBuf → bool → H → H;
  apply_template : option (string → PathBuf → AgentKind.t → M H TemplateError.t unit);
  write_behavior : PathBuf → list Byte.byte → M H SpawnError.t unit;
  persist_agent_id : PathBuf → string → M H unit unit;
  canonicalize : H → PathBuf → option PathBuf;
  on_child_spawned : option (string → string → PathBuf → H → H)
}.

Context `{Uuid} (workspace_root : PathBuf) (ws : Workspaces).
Context (subset_gate : list Capability.t → list Capability.t → result SpawnError.t unit).

Abbreviation SM := (M (World H) SpawnError.t).

(** ** Turns *)

(** One operation outside the tree. *)
Definition on_fs {E A} (f : M H E A) : SM (result E A) := λ w,
  let w := turn workspace_root w in
  let (r, h) := f (outside w) in
  (Ok r, mkWorld (tree w) h (others w) (calls w)).

Definition rollback (target_dir : PathBuf) (target_pre_existed : bool) : SM unit :=
  _ ← on_fs (modify (rollback_target_dir ws target_dir target_pre_existed) : M H SpawnError.t unit);
  mret tt.

(** [target_dir.exists()]. *)
Definition exists_now (target_dir : PathBuf) : SM bool := λ w,
  let w := turn workspace_root w in (Ok (target_exists ws target_dir (outside w)), w).

(** [if let Err(e) = f() { rollback; return Err(..) }]. *)
Definition or_rollback {E} (target_dir : PathBuf) (target_pre_existed : bool) (err : E → SpawnError.t) (f : M H E unit) : SM unit :=
  r ← on_fs f;
  match r with
  | Ok _ => mret tt
  | Err e => _ ← rollback target_dir target_pre_existed; throw (err e)
  end.

(** [f()?], where [f] cleans up after itself. *)
Definition fs_or_fail (f : M H SpawnError.t unit) : SM unit :=
  r ← on_fs f;
  lift r.

(** ** The steps *)

Definition apply_template_if_configured (target_dir : PathBuf) (target_pre_existed : bool) (template_ref : option string)
    (kind : AgentKind.t) : SM unit :=
  match template_ref, apply_template ws with
  | None, _ => mret tt
  | Some _, None => _ ← rollback target_dir target_pre_existed; throw SpawnError.InvalidConfig
  | Some name, Some apply => or_rollback target_dir target_pre_existed map_template_err (apply name target_dir kind)
  end.

Definition materialize_child_behavior (target_dir : PathBuf) (bytes : list Byte.byte) (target_pre_existed : bool) : SM unit :=
  if bool_decide (bytes = []) then mret tt
  else if MAX_CHILD_BINARY <? size_of bytes
  then _ ← rollback target_dir target_pre_existed; throw SpawnError.InvalidConfig
  else if (size_of bytes <? 8) || negb (forallb (λ '(a, b), Byte.eqb a b) (combine (take 4 bytes) WASM_MAGIC))
  then _ ← rollback target_dir target_pre_existed; throw SpawnError.InvalidConfig
  else or_rollback target_dir target_pre_existed id (write_behavior ws target_dir bytes).

(** [insert_child_with_handle]: the path is canonicalized before the lock is taken. *)
Definition insert_spawned (target_dir : PathBuf) (target_pre_existed : bool) (parent_id : string) (node : AgentNode.t)
    (handle : option string) : SM unit :=
  r ← (λ w, let w := turn workspace_root w in
       let (r, s) := insert_child_with_handle workspace_root (canonicalize ws (outside w)) parent_id node handle (tree w) in
       (Ok r, mkWorld s (outside w) (others w) (calls w))) : SM (result SpawnError.t unit);
  match r with
  | Ok _ => mret tt
  | Err _ => _ ← rollback target_dir target_pre_existed; throw SpawnError.TreeStateInvalid
  end.

Definition find_parent (parent_id : string) : SM AgentNode.t :=
  node ← read_tree workspace_root (get_node parent_id);
  lift (ok_or node SpawnError.ParentNotFound).

Definition room_for_one : SM unit :=
  n ← read_tree workspace_root tree_len;
  fail_if (MAX_AGENTS_PER_STORE <=? n) SpawnError.TreeStateInvalid.

(** ** Spawning a child *)

Definition spawn_child (cfg : SpawnChildConfig.t) : SM string :=
  let parent_id := SpawnChildConfig.parent_id cfg in
  let child_id := SpawnChildConfig.child_id cfg in
  _ ← lift (validate_agent_id parent_id);
  known ← read_tree workspace_root (contains parent_id);
  _ ← fail_if (negb known) SpawnError.ParentNotFound;
  _ ← lift (validate_agent_id child_id);
  _ ← lift (match parse_str child_id with None => validate_new_agent_id child_id | Some _ => Ok tt end);
  taken ← read_tree workspace_root (contains child_id);
  _ ← fail_if taken SpawnError.AlreadyExists;
  _ ← (match SpawnChildConfig.handle cfg with
       | Some handle =>
           _ ← lift (validate_new_agent_id handle);
           owner ← read_tree workspace_root (node_by_handle handle);
           fail_if (bool_decide (is_Some owner)) SpawnError.AlreadyExists
       | None => mret tt
       end);
  _ ← fail_if (MAX_CAPABILITIES <? size_of (SpawnChildConfig.capabilities cfg)) SpawnError.InvalidConfig;
  parent ← find_parent parent_id;
  _ ← fail_if (bool_decide (AgentNode.kind parent = AgentKind.Sub)) SpawnError.InvalidConfig;
  _ ← fail_if (existsb reserved_component (SpawnChildConfig.child_workspace_path cfg)) SpawnError.PathTraversal;
  _ ← lift (subset_gate (AgentNode.capabilities parent) (SpawnChildConfig.capabilities cfg));
  _ ← room_for_one;
  target_dir ← lift (resolve_under_parent (AgentNode.workspace_path parent) (SpawnChildConfig.child_workspace_path cfg) workspace_root);
  target_pre_existed ← exists_now target_dir;
  _ ← fs_or_fail (init_child_workspace ws target_dir AgentKind.Child);
  _ ← apply_template_if_configured target_dir target_pre_existed (SpawnChildConfig.template_ref cfg) AgentKind.Child;
  _ ← (match SpawnChildConfig.binary cfg with
       | Some bytes => materialize_child_behavior target_dir bytes target_pre_existed
       | None => mret tt
       end);
  let node := AgentNode.mk child_id AgentKind.Child (Some parent_id) target_dir (SpawnChildConfig.capabilities cfg)
    (SpawnChildConfig.template_ref cfg) AgentStatus.Active in
  _ ← or_rollback target_dir target_pre_existed (λ _, SpawnError.WorkspaceIoFailure) (persist_agent_id ws target_dir child_id);
  _ ← insert_spawned target_dir target_pre_existed parent_id node (SpawnChildConfig.handle cfg);
  _ ← (match on_child_spawned ws with
       | Some observer => _ ← on_fs (modify (observer parent_id child_id target_dir) : M H SpawnError.t unit); mret tt
       | None => mret tt
       end);
  mret child_id.

(** ** Spawning a sub agent *)

(** [for _ in 0..MAX_UUID_ATTEMPTS]: the first draw that names nobody, or the last. *)
Fixpoint draw_sub_id (attempts : nat) (draws : nat) : SM string :=
  let id := sub_uuid_v4 draws in
  taken ← read_tree workspace_root (contains id);
  match attempts with
  | S (S _ as attempts) => if taken : bool then draw_sub_id attempts (S draws) else mret id
  | _ => mret id
  end.

Definition MAX_UUID_ATTEMPTS : nat := 4.

(** [draws] is how many UUIDs were drawn before. *)
Definition spawn_sub (draws : nat) (cfg : SpawnSubConfig.t) : SM string :=
  let parent_id := SpawnSubConfig.parent_id cfg in
  _ ← lift (validate_agent_id parent_id);
  known ← read_tree workspace_root (contains parent_id);
  _ ← fail_if (negb known) SpawnError.ParentNotFound;
  parent ← find_parent parent_id;
  _ ← fail_if (bool_decide (AgentNode.kind parent = AgentKind.Sub)) SpawnError.InvalidConfig;
  _ ← fail_if (MAX_CAPABILITIES <? size_of (SpawnSubConfig.capabilities cfg)) SpawnError.InvalidConfig;
  _ ← lift (subset_gate (AgentNode.capabilities parent) (SpawnSubConfig.capabilities cfg));
  _ ← room_for_one;
  sub_id ← draw_sub_id MAX_UUID_ATTEMPTS draws;
  taken ← read_tree workspace_root (contains sub_id);
  _ ← fail_if taken SpawnError.AlreadyExists;
  sub_target ← lift (resolve_under_parent (AgentNode.workspace_path parent) [Component.Normal ".sub"; Component.Normal sub_id] workspace_root);
  sub_target_pre_existed ← exists_now sub_target;
  _ ← fs_or_fail (init_child_workspace ws sub_target AgentKind.Sub);
  _ ← apply_template_if_configured sub_target sub_target_pre_existed (SpawnSubConfig.template_ref cfg) AgentKind.Sub;
  let node := AgentNode.mk sub_id AgentKind.Sub (Some parent_id) sub_target (SpawnSubConfig.capabilities cfg)
    (SpawnSubConfig.template_ref cfg) AgentStatus.Active in
  _ ← insert_spawned sub_target sub_target_pre_existed parent_id node None;
  mret sub_id.
End spawn.

Arguments Workspaces : clear implicits.
