(* ===== verification/SpawnProps.v ===== *)
(** * What a spawned agent may hold

    A spawner only ever inserts agents whose capabilities and workspace lie
    within those of their parent, however its steps interleave with those of
    other spawners; so every agent lies within each of its ancestors. *)
From S2P Require Import Prelude RustStr GrantData Projection AgentTree AgentTreeFacts Terminate Spawn.
From stdpp Require Import pretty.
Import AgentTreeInner.
Open Scope string_scope.
Open Scope list_scope.
Open Scope Z_scope.

(** ** Paths *)

Lemma path_starts_with_app p q : path_starts_with p (p ++ q) = true.
Proof. induction p as [|c p IH]; [done|]. simpl. by rewrite bool_decide_eq_true_2. Qed.

Lemma path_starts_with_spec p q : path_starts_with p q = true ↔ ∃ r, q = p ++ r.
Proof.
  split; [|by intros [r ->]; apply path_starts_with_app]. revert q. induction p as [|c p IH]; intros [|d q]; simpl; try done.
  - by exists [].
  - intros _. by exists (d :: q).
  - intros Hrun. b2p. subst. destruct (IH q) as [r ->]; [done|]. by exists r.
Qed.

Lemma resolve_under_parent_Ok parent rel root target :
  resolve_under_parent parent rel root = Ok target → target = path_join parent rel.
Proof. unfold resolve_under_parent. intros Hrun. steps. by injection Hrun as <-. Qed.

(** ** Profiles *)

(** What an id stands for: the capabilities and the workspace of its agent. *)
Abbreviation Profile := (list Capability.t * PathBuf)%type.

Definition profile_of (n : AgentNode.t) : Profile := (AgentNode.capabilities n, AgentNode.workspace_path n).

(** [linkless] says that the paths of the profiles are canonical; what is said
    of workspaces holds then. *)
Section profiles.
Context (root : PathBuf) (prof : string → Profile) (linkless : Prop).

(** An agent of profile [d] may be spawned by one of profile [a]. *)
Definition within (a d : Profile) : Prop :=
  (∃ now, validate_capability_subset now a.1 d.1 = Ok tt) ∧ (linkless → path_starts_with a.2 d.2 = true).

(** The capabilities and the workspace are those of the profile. *)
Definition of_profile (caps : list Capability.t) (p : PathBuf) (d : Profile) : Prop := caps = d.1 ∧ (linkless → p = d.2).

Lemma within_trans a b c : within a b → within b c → within a c.
Proof.
  intros [[t1 H1] Hp1] [[t2 H2] Hp2]. split.
  - exists t1. by eapply capability_subset_trans.
  - intros Hl. specialize (Hp1 Hl). specialize (Hp2 Hl). apply path_starts_with_spec in Hp1 as [r1 Hr1], Hp2 as [r2 Hr2]. apply path_starts_with_spec.
    exists (r1 ++ r2). by rewrite Hr2, Hr1, <- app_assoc.
Qed.

(** An insertion that keeps to the profiles.  That there are profiles at all
    says that no id is used for two agents. *)
Definition vetted (a : tree_action) : Prop :=
  match a with
  | InsertRoot canon n _ =>
      ∀ p, canon (AgentNode.workspace_path n) = Some p → of_profile (AgentNode.capabilities n) p (prof (AgentNode.id n))
  | InsertChild canon q n _ =>
      ∀ p, canon (AgentNode.workspace_path n) = Some p →
        of_profile (AgentNode.capabilities n) p (prof (AgentNode.id n)) ∧ within (prof q) (prof (AgentNode.id n))
  | _ => True
  end.

Record sound (s : AgentTreeInner.t) : Prop := {
  so_tree : tree_ok root s;
  so_prof i n : nodes s !! i = Some n → of_profile (AgentNode.capabilities n) (AgentNode.workspace_path n) (prof i);
  so_within c p : parent_rel s c p → within (prof p) (prof c)
}.

Lemma sound_new : sound tree_new.
Proof.
  split; [apply ok_new|..].
  - intros i n Hn. simpl in Hn. by rewrite lookup_empty in Hn.
  - intros c p (n & Hn & _). simpl in Hn. by rewrite lookup_empty in Hn.
Qed.

Lemma sound_insert push node h s s' :
  sound s → tree_ok root s' → s' = with_node push node h s →
  of_profile (AgentNode.capabilities node) (AgentNode.workspace_path node) (prof (AgentNode.id node)) →
  (∀ p, AgentNode.parent node = Some p → within (prof p) (prof (AgentNode.id node))) → sound s'.
Proof.
  intros [_ Hp Hw] Hok -> Hnode Hparent. split; [done|..]; simpl.
  - intros i n [[<- <-]|[_ Hn]]%lookup_insert_Some; [done|by apply Hp].
  - intros c p (n & Hn & Hnp). simpl in Hn. apply lookup_insert_Some in Hn as [[<- <-]|[_ Hn]]; [by apply Hparent|].
    apply Hw. by exists n.
Qed.

Lemma sound_fewer s s' :
  sound s → tree_ok root s' →
  (∀ i n', nodes s' !! i = Some n' → ∃ n, nodes s !! i = Some n ∧ profile_of n' = profile_of n ∧ AgentNode.parent n' = AgentNode.parent n) →
  sound s'.
Proof.
  intros [_ Hp Hw] Hok Hold. split; [done|..].
  - intros i n' (n & Hn & [= -> ->] & _)%Hold. by apply Hp.
  - intros c p (n' & (n & Hn & _ & Heq)%Hold & Hpar). apply Hw. exists n. split; [done|congruence].
Qed.

Lemma admit_node_canon canon node node' :
  admit_node root canon node = Ok node' →
  ∃ p, canon (AgentNode.workspace_path node) = Some p ∧ node' = AgentNode.set_workspace_path p node.
Proof.
  unfold admit_node, canonicalize_workspace_path. intros Hrun. steps. injection Hrun as <-. by eexists.
Qed.

Lemma vetted_step s a s' : sound s → vetted a → tree_step root s a s' → sound s'.
Proof.
  intros Hs Hv Hstep. pose proof (tree_step_ok root s a s' (so_tree _ Hs) Hstep) as Hok.
  destruct Hstep as [canon n n' h Hadm Hp Hfit|canon q n n' h Hadm Hp Hfit|i n Hi Hleaf|i st Hi|i Hi|i h Hi Hne Hvalid Hfree]; simpl in Hv.
  - destruct (admit_node_canon _ _ _ Hadm) as (p & Hc & ->). simpl in Hc. specialize (Hv p Hc).
    eapply sound_insert; [done..| |]; simpl; [exact Hv|done].
  - destruct (admit_node_canon _ _ _ Hadm) as (p & Hc & ->). simpl in Hc. destruct (Hv p Hc) as [Hv1 Hv2].
    eapply sound_insert; [done..| |]; simpl; [exact Hv1|by intros ? [= <-]].
  - eapply sound_fewer; [done..|]. intros j m Hj. exists m. split_and!; [|done..].
    assert (nodes (without_node i n s) = delete i (nodes s)) as Heq by (unfold without_node, unbind_handle; by case_bool_decide).
    rewrite Heq in Hj. by apply lookup_delete_Some in Hj as [_ ?].
  - eapply sound_fewer; [done..|]. intros j m Hj. simpl in Hj.
    apply lookup_alter_Some in Hj as [(-> & k & Hk & ->)|[_ Hj]]; [by exists k|by exists m].
  - done.
  - eapply sound_fewer; [done..|]. intros j m Hj. exists m. split_and!; [|done..].
    simpl in Hj. unfold unbind_handle in Hj. by case_bool_decide.
Qed.

Lemma vetted_act s a : sound s → vetted a → sound (tree_act root a s).2.
Proof.
  intros Hs Hv. destruct (tree_act root a s) as [[u|e] s'] eqn:Hrun; simpl.
  - eapply vetted_step; [done..|]. by eapply tree_act_Ok.
  - by apply tree_act_Err in Hrun as ->.
Qed.

Lemma sound_run acts s : sound s → Forall vetted acts → sound (tree_run root acts s).
Proof.
  intros Hs Hv. revert s Hs. induction Hv as [|a acts Ha _ IH]; intros s Hs; [done|]. simpl. by apply IH, vetted_act.
Qed.

(** Every agent lies within each of its ancestors. *)
Lemma sound_ancestors s d a : sound s → tc (parent_rel s) d a → within (prof a) (prof d).
Proof.
  intros Hs. induction 1 as [d a Hda|d x a Hdx _ IH]; [by apply so_within with s|].
  eapply within_trans; [exact IH|by apply so_within with s].
Qed.

(** ** The other callers *)

Section running.
Context {H : Type} `{Uuid} (ws : Workspaces H).

Definition civil_other (o : other H) : Prop := match o with InTree a => vetted a | Outside _ => True end.

Definition civil (w : World H) : Prop := Forall (Forall civil_other) (others w) ∧ sound (tree w).

Lemma civil_turn w : civil w → civil (turn root w).
Proof.
  intros [Ho Hs]. unfold turn.
  assert (∀ (os : list (other H)) w, Forall civil_other os → sound (tree w) → sound (tree (foldl (flip (perform root)) w os))) as Hall.
  { induction os as [|o os IH]; intros w' Hos Hw; [done|]. inversion Hos; subst. simpl. apply IH; [done|].
    destruct o as [a|f]; simpl; [by apply vetted_act|done]. }
  assert (∀ (os : list (other H)) w, others (foldl (flip (perform root)) w os) = others w) as Hothers.
  { induction os as [|o os IH]; intros w'; [done|]. simpl. rewrite IH. by destruct o. }
  split; simpl.
  - rewrite Hothers. destruct Ho; simpl; [constructor|done].
  - apply Hall; [|done]. destruct Ho; simpl; [constructor|done].
Qed.

(** What a spawner promises: from a civil world to a civil world. *)
Definition keeps_civil (w w' : World H) : Prop := civil w → civil w'.

#[export] Instance keeps_civil_preorder : PreOrder keeps_civil.
Proof. split; [intros w Hw; exact Hw|]. intros w1 w2 w3. unfold keeps_civil. auto. Qed.

Abbreviation SM := (M (World H) SpawnError.t).

(** The second step may rely on what the first one answered. *)
Lemma keeps_bind_post {A B} (m : SM A) (k : A → SM B) (Q : A → Prop) :
  keeps keeps_civil m → (∀ w a w', civil w → m w = (Ok a, w') → Q a) → (∀ a, Q a → keeps keeps_civil (k a)) →
  keeps keeps_civil (m ≫= k).
Proof.
  intros Hm HQ Hk w Hw. specialize (Hm w Hw). unfold mbind, M_bind. destruct (m w) as [[a|e] w1] eqn:Hrun; [|done].
  apply Hk; [by eapply HQ|done].
Qed.

Lemma keeps_lift_post {A B} (r : result SpawnError.t A) (k : A → SM B) :
  (∀ a, r = Ok a → keeps keeps_civil (k a)) → keeps keeps_civil (lift r ≫= k).
Proof.
  intros Hk. apply (keeps_bind_post (lift r) k (λ a, r = Ok a)); [apply keeps_lift; apply _| |done].
  by intros w a w' _ [? _]%lift_Ok.
Qed.

Lemma keeps_read_tree {A} (f : AgentTreeInner.t → A) : keeps keeps_civil (read_tree (E := SpawnError.t) root f).
Proof. intros w Hw. by apply civil_turn. Qed.

Lemma keeps_on_fs {E A} (f : M H E A) : keeps keeps_civil (on_fs root f).
Proof. intros w Hw. unfold on_fs. apply civil_turn in Hw as []. by destruct (f _). Qed.

Lemma keeps_exists_now target : keeps keeps_civil (exists_now root ws target).
Proof. intros w Hw. by apply civil_turn. Qed.

Lemma keeps_throw {A} e : keeps keeps_civil (throw e : SM A).
Proof. intros w Hw. exact Hw. Qed.

#[local] Hint Resolve keeps_civil_preorder keeps_read_tree keeps_on_fs keeps_exists_now keeps_throw : keeps.

Lemma keeps_rollback target pre : keeps keeps_civil (rollback root ws target pre).
Proof. unfold rollback. keeps. Qed.
#[local] Hint Resolve keeps_rollback : keeps.

Lemma keeps_or_rollback {E} target pre (err : E → SpawnError.t) f : keeps keeps_civil (or_rollback root ws target pre err f).
Proof. unfold or_rollback. keeps. Qed.
#[local] Hint Resolve keeps_or_rollback : keeps.

Lemma keeps_fs_or_fail f : keeps keeps_civil (fs_or_fail (H := H) root f).
Proof. unfold fs_or_fail. keeps. Qed.

Lemma keeps_template target pre t k : keeps keeps_civil (apply_template_if_configured root ws target pre t k).
Proof. unfold apply_template_if_configured. keeps. Qed.

Lemma keeps_materialize target bytes pre : keeps keeps_civil (materialize_child_behavior root ws target bytes pre).
Proof. unfold materialize_child_behavior. repeat (case_match; [keeps|]). keeps. Qed.

Lemma keeps_room : keeps keeps_civil (room_for_one (H := H) root).
Proof. unfold room_for_one. keeps. Qed.

Lemma keeps_draw attempts : ∀ draws, keeps keeps_civil (draw_sub_id (H := H) root attempts draws).
Proof. induction attempts as [|attempts IH]; intros draws; simpl; keeps. Qed.

Lemma keeps_find_parent p : keeps keeps_civil (find_parent (H := H) root p).
Proof. unfold find_parent. keeps. Qed.

#[local] Hint Resolve keeps_fs_or_fail keeps_template keeps_materialize keeps_room keeps_draw keeps_find_parent : keeps.

(** The parent that was read has its profile. *)
Lemma find_parent_post p w n w' : civil w → find_parent root p w = (Ok n, w') →
  of_profile (AgentNode.capabilities n) (AgentNode.workspace_path n) (prof p).
Proof.
  intros [_ Hs]%civil_turn. unfold find_parent. intros (o & ? & [= <- <-] & [Hn%ok_or_Ok _]%lift_Ok)%M_bind_Ok.
  by apply (so_prof _ Hs).
Qed.

(** The insertion of a spawner is one it may make. *)
Lemma keeps_insert target pre parent node h :
  (∀ fs p, canonicalize ws fs (AgentNode.workspace_path node) = Some p →
     of_profile (AgentNode.capabilities node) p (prof (AgentNode.id node)) ∧ within (prof parent) (prof (AgentNode.id node))) →
  keeps keeps_civil (insert_spawned root ws target pre parent node h).
Proof.
  intros Hnode. unfold insert_spawned. apply (keeps_bind _); [|intros r; keeps]. intros w Hw. apply civil_turn in Hw as [Ho Hs].
  pose proof (vetted_act (tree (turn root w)) (InsertChild (canonicalize ws (outside (turn root w))) parent node h) Hs (Hnode _)) as Hs'.
  simpl in Hs' |- *. destruct (insert_child_with_handle _ _ _ _ _ _) as [r s']. by split.
Qed.

(** ** Spawning *)

Context (Hcanon : linkless → ∀ fs id q, canonicalize ws fs (prof id).2 = Some q → q = (prof id).2) (now : Z).

(** What the gate and the path rules have checked. *)
Lemma checked_within parent pid caps rel target :
  of_profile (AgentNode.capabilities parent) (AgentNode.workspace_path parent) (prof pid) → cap_grant_check now (AgentNode.capabilities parent) caps = Ok tt →
  resolve_under_parent (AgentNode.workspace_path parent) rel root = Ok target →
  (linkless → target = path_join (prof pid).2 rel) ∧ within (prof pid) (caps, path_join (prof pid).2 rel).
Proof using.
  intros [Hcaps Hpath] Hgate ->%resolve_under_parent_Ok. split; [by intros ->%Hpath|].
  split; simpl; [|intros _; apply path_starts_with_app]. rewrite <- Hcaps. exists now. unfold cap_grant_check in Hgate. by destruct (validate_capability_subset _ _ _) as [[]|].
Qed.

(** The parent, as it was read, satisfies the checks that follow. *)
Lemma keeps_with_parent {B} pid (k : AgentNode.t → SM B) :
  (∀ n, of_profile (AgentNode.capabilities n) (AgentNode.workspace_path n) (prof pid) → keeps keeps_civil (k n)) → keeps keeps_civil (find_parent root pid ≫= k).
Proof using.
  intros Hk. eapply keeps_bind_post; [keeps| |exact Hk]. intros w n w'. apply find_parent_post.
Qed.

(** The workspace that is stored is the profile's. *)
Lemma canonical_target fs id caps target path q :
  prof id = (caps, path) → (linkless → target = path) → canonicalize ws fs target = Some q → of_profile caps q (caps, path).
Proof using Hcanon.
  intros Hprof Ht Hq. split; [done|]. intros Hl. rewrite (Ht Hl) in Hq. pose proof (Hcanon Hl fs id q) as Hc.
  rewrite Hprof in Hc. by apply Hc.
Qed.

Lemma keeps_spawn_child cfg :
  prof (SpawnChildConfig.child_id cfg) =
    (SpawnChildConfig.capabilities cfg,
     path_join (prof (SpawnChildConfig.parent_id cfg)).2 (SpawnChildConfig.child_workspace_path cfg)) →
  keeps keeps_civil (spawn_child root ws (cap_grant_check now) cfg).
Proof using Hcanon.
  intros Hprof. unfold spawn_child. do 9 (apply (keeps_bind _); [keeps|intros ?]).
  apply keeps_with_parent. intros n Hn. do 2 (apply (keeps_bind _); [keeps|intros ?]).
  apply keeps_lift_post. intros [] Hgate. apply (keeps_bind _); [keeps|intros ?].
  apply keeps_lift_post. intros target Htarget. destruct (checked_within _ _ _ _ _ Hn Hgate Htarget) as [Hpath Hwithin].
  do 5 (apply (keeps_bind _); [keeps|intros ?]). apply (keeps_bind _); [|intros ?; keeps].
  apply keeps_insert. intros fs p Hp. simpl in *. rewrite Hprof. split; [|done]. by apply (canonical_target fs _ _ target _ _ Hprof).
Qed.

Lemma draw_sub_id_drawn attempts : ∀ draws w id w',
  draw_sub_id (H := H) root attempts draws w = (Ok id, w') →
  ∃ k, (k < attempts `max` 1)%nat ∧ id = sub_uuid_v4 (draws + k).
Proof using.
  induction attempts as [|attempts IH]; intros draws w id w' (b & w1 & _ & Hrun)%M_bind_Ok.
  - injection Hrun as <- _. exists 0%nat. split; [lia|]. by rewrite Nat.add_0_r.
  - destruct attempts as [|attempts]; [injection Hrun as <- _; exists 0%nat; split; [lia|by rewrite Nat.add_0_r]|].
    destruct b; [|injection Hrun as <- _; exists 0%nat; split; [lia|by rewrite Nat.add_0_r]].
    apply IH in Hrun as (k & Hk & ->). exists (S k). split; [lia|]. f_equal. lia.
Qed.

Lemma keeps_spawn_sub draws cfg :
  (∀ k, (k < MAX_UUID_ATTEMPTS)%nat → prof (sub_uuid_v4 (draws + k)) =
    (SpawnSubConfig.capabilities cfg,
     path_join (prof (SpawnSubConfig.parent_id cfg)).2 [Component.Normal ".sub"; Component.Normal (sub_uuid_v4 (draws + k))])) →
  keeps keeps_civil (spawn_sub root ws (cap_grant_check now) draws cfg).
Proof using Hcanon.
  intros Hprof. unfold spawn_sub. do 3 (apply (keeps_bind _); [keeps|intros ?]).
  apply keeps_with_parent. intros n Hn. do 2 (apply (keeps_bind _); [keeps|intros ?]).
  apply keeps_lift_post. intros [] Hgate. apply (keeps_bind _); [keeps|intros ?].
  eapply keeps_bind_post; [keeps|intros w id w' _; apply draw_sub_id_drawn|]. intros id (k & Hk & ->).
  do 2 (apply (keeps_bind _); [keeps|intros ?]).
  apply keeps_lift_post. intros target Htarget. destruct (checked_within _ _ _ _ _ Hn Hgate Htarget) as [Hpath Hwithin].
  do 3 (apply (keeps_bind _); [keeps|intros ?]). apply (keeps_bind _); [|intros ?; keeps].
  apply keeps_insert. intros fs p Hp. simpl in *. rewrite (Hprof k Hk). split; [|done].
  by apply (canonical_target fs _ _ target _ _ (Hprof k Hk)).
Qed.
End running.
End profiles.

(** ** Sequences of spawns *)

Inductive request := SpawnChild (cfg : SpawnChildConfig.t) | SpawnSub (draws : nat) (cfg : SpawnSubConfig.t).

(** Its new agent has the profile of its id. *)
Definition fits `{Uuid} (prof : string → Profile) (r : request) : Prop :=
  match r with
  | SpawnChild cfg =>
      prof (SpawnChildConfig.child_id cfg) =
        (SpawnChildConfig.capabilities cfg,
         path_join (prof (SpawnChildConfig.parent_id cfg)).2 (SpawnChildConfig.child_workspace_path cfg))
  | SpawnSub draws cfg =>
      ∀ k, (k < MAX_UUID_ATTEMPTS)%nat → prof (sub_uuid_v4 (draws + k)) =
        (SpawnSubConfig.capabilities cfg,
         path_join (prof (SpawnSubConfig.parent_id cfg)).2 [Component.Normal ".sub"; Component.Normal (sub_uuid_v4 (draws + k))])
  end.

Section serve.
Context {H : Type} `{Uuid} (root : PathBuf) (ws : Workspaces H).

(** One request at time [now], with what others do at each point of it. *)
Definition serve (s : AgentTreeInner.t) (h : H) (now : Z) (r : request) (os : list (list (other H))) : AgentTreeInner.t * H :=
  let w := mkWorld s h os [] in
  let w := match r with
           | SpawnChild cfg => (spawn_child root ws (cap_grant_check now) cfg w).2
           | SpawnSub draws cfg => (spawn_sub root ws (cap_grant_check now) draws cfg w).2
           end in
  (tree w, outside w).

Fixpoint serve_all (s : AgentTreeInner.t) (h : H) (l : list (Z * request * list (list (other H)))) : AgentTreeInner.t * H :=
  match l with
  | [] => (s, h)
  | (now, r, os) :: l => let (s, h) := serve s h now r os in serve_all s h l
  end.

(** The workspaces of the profiles are free of links: [Path::canonicalize]
    answers the path itself, if it answers. *)
Definition no_links (prof : string → Profile) : Prop :=
  ∀ fs id q, canonicalize ws fs (prof id).2 = Some q → q = (prof id).2.

Lemma serve_all_sound prof s h l :
  sound root prof (no_links prof) s →
  Forall (λ '(_, r, os), fits prof r ∧ Forall (Forall (civil_other prof (no_links prof))) os) l →
  sound root prof (no_links prof) (serve_all s h l).1.
Proof.
  intros Hs Hl. revert s h Hs. induction Hl as [|[[now r] os] l [Hr Hos] _ IH]; intros s h Hs; [done|]. simpl. apply IH.
  destruct r as [cfg|draws cfg]; simpl in *.
  - by apply (keeps_spawn_child root prof (no_links prof) ws (λ Hl, Hl) now cfg Hr (mkWorld s h os [])).
  - by apply (keeps_spawn_sub root prof (no_links prof) ws (λ Hl, Hl) now draws cfg Hr (mkWorld s h os [])).
Qed.
End serve.

(** C4: spawning attenuates, as long as no id is given to an agent with another
    profile (capabilities and workspace) than the one it had before; without
    that, [reused_parent_id_amplifies].  Agents are spawned one after the other,
    others taking any step in between that keeps to the profiles and inserts
    within the parent's, such as spawning agents of their own.  Then every
    agent's capabilities pass the subset check of the grant component against
    those of each of its ancestors, whatever [Path::canonicalize] answers; and if
    there are no links on the agents' workspaces, so that it answers those paths
    themselves, each agent's workspace lies below those of its ancestors. *)
Theorem spawned_within_ancestors {H} `{Uuid} root (ws : Workspaces H) prof acts h l d a nd na :
  Forall (vetted prof (no_links ws prof)) acts →
  Forall (λ '(_, r, os), fits prof r ∧ Forall (Forall (civil_other prof (no_links ws prof))) os) l →
  let s := (serve_all root ws (tree_run root acts tree_new) h l).1 in
  nodes s !! d = Some nd → nodes s !! a = Some na → tc (parent_rel s) d a →
  (∃ now, validate_capability_subset now (AgentNode.capabilities na) (AgentNode.capabilities nd) = Ok tt) ∧
  (no_links ws prof → path_starts_with (AgentNode.workspace_path na) (AgentNode.workspace_path nd) = true).
Proof.
  intros Hacts Hl s Hd Ha Htc.
  assert (sound root prof (no_links ws prof) s) as Hs by (apply serve_all_sound; [|done]; apply sound_run; [apply sound_new|done]).
  destruct (sound_ancestors _ _ _ s d a Hs Htc) as [Hcaps Hpath].
  destruct (so_prof _ _ _ _ Hs d nd Hd) as [-> Hpd], (so_prof _ _ _ _ Hs a na Ha) as [-> Hpa].
  split; [exact Hcaps|]. intros Hn. rewrite (Hpd Hn), (Hpa Hn). by apply Hpath.
Qed.

(** ** The witness *)

(** A file system without links that does whatever it is asked. *)
Definition plain_files : Workspaces unit :=
  mkWorkspaces (λ _ _, false) (λ _ _, mret tt) (λ _ _ h, h) None (λ _ _, mret tt) (λ _ _, mret tt) (λ _ p, Some p) None.

#[local] Instance sample_uuid : Uuid := {| sub_uuid_v4 n := "uuid-" +:+ pretty n; parse_str _ := None |}.

Definition sample_tools (ids : list string) : list Capability.t :=
  [Capability.mk "tools" (Value.Object [("ids", Value.Array (Value.String <$> ids))])].

Definition sample_root : PathBuf := [Component.RootDir; Component.Normal "w"].

Definition sample_profile (id : string) : Profile :=
  if String.eqb id "root" then (sample_tools ["a"; "b"; "c"], sample_root)
  else if String.eqb id "kid" then (sample_tools ["a"; "b"], sample_root ++ [Component.Normal "kid"])
  else if String.eqb id "peer" then (sample_tools ["c"], sample_root ++ [Component.Normal "peer"])
  else (sample_tools ["a"], sample_root ++ [Component.Normal "kid"; Component.Normal ".sub"; Component.Normal id]).

Definition sample_agent (id : string) (kind : AgentKind.t) (parent : option string) : AgentNode.t :=
  AgentNode.mk id kind parent (sample_profile id).2 (sample_profile id).1 None AgentStatus.Active.

Definition sample_bootstrap : list tree_action := [InsertRoot Some (sample_agent "root" AgentKind.Root None) None].

(** The root spawns the kid while another spawner inserts its peer; then the
    kid spawns a sub agent. *)
Definition sample_requests : list (Z * request * list (list (other unit))) :=
  [(1, SpawnChild (SpawnChildConfig.mk "root" "kid" None [Component.Normal "kid"] (sample_tools ["a"; "b"]) None None),
    [[]; []; [InTree (InsertChild Some "root" (sample_agent "peer" AgentKind.Child (Some "root")) None)]]);
   (2, SpawnSub 0 (SpawnSubConfig.mk "kid" (sample_tools ["a"]) None), [[InTree (SetStatus "peer" AgentStatus.Failed)]])].

Definition sample_family : AgentTreeInner.t := (serve_all sample_root plain_files (tree_run sample_root sample_bootstrap tree_new) tt sample_requests).1.

Lemma spawned_within_ancestors_witness :
  is_Some (nodes sample_family !! "peer") ∧
  (∃ now, validate_capability_subset now (sample_tools ["a"; "b"; "c"]) (sample_tools ["a"]) = Ok tt) ∧
  path_starts_with sample_root (sample_root ++ [Component.Normal "kid"; Component.Normal ".sub"; Component.Normal "uuid-0"]) = true.
Proof.
  split; [vm_compute; by eexists|].
  destruct (spawned_within_ancestors sample_root plain_files sample_profile sample_bootstrap tt sample_requests "uuid-0" "root"
    (sample_agent "uuid-0" AgentKind.Sub (Some "kid")) (sample_agent "root" AgentKind.Root None)) as [Hcaps Hpath].
  - apply Forall_cons. split; [by intros p [= <-]|by apply Forall_nil].
  - repeat (apply Forall_cons; split); [| |by apply Forall_nil]; (split; [done|]);
      repeat (apply Forall_cons; split); try by apply Forall_nil.
    + intros p [= <-]. split; [done|]. split; [|done]. exists 0. vm_compute. reflexivity.
    + done.
  - vm_compute. reflexivity.
  - vm_compute. reflexivity.
  - eapply tc_l with "kid"; [|apply tc_once]; eexists; (split; [vm_compute; reflexivity|reflexivity]).
  - split; [exact Hcaps|]. apply Hpath. by intros fs id q [= <-].
Defined.

(** ** Without unique ids *)

(** While a child is spawned, its parent is removed and another agent is
    spawned under the parent's id.  The insertion looks at the id, the kind
    and the status of the parent again, but not at its capabilities. *)
Definition sample_reuse : list (list (other unit)) :=
  [[]; []; []; []; []; []; [];
   [InTree (Remove "kid");
    InTree (InsertChild Some "root"
      (AgentNode.mk "kid" AgentKind.Child (Some "root") (sample_root ++ [Component.Normal "new"]) [] None AgentStatus.Active) None)]].

Example reused_parent_id_amplifies :
  let s := (serve_all sample_root plain_files (tree_run sample_root sample_bootstrap tree_new) tt
    [(1, SpawnChild (SpawnChildConfig.mk "root" "kid" None [Component.Normal "kid"] (sample_tools ["a"; "b"]) None None), []);
     (2, SpawnChild (SpawnChildConfig.mk "kid" "grandkid" None [Component.Normal "g"] (sample_tools ["a"]) None None), sample_reuse)]).1 in
  (AgentNode.capabilities <$> nodes s !! "kid") = Some [] ∧
  (AgentNode.parent <$> nodes s !! "grandkid") = Some (Some "kid") ∧
  (AgentNode.capabilities <$> nodes s !! "grandkid") = Some (sample_tools ["a"]) ∧
  is_ok (validate_capability_subset 3 [] (sample_tools ["a"])) = false.
Proof. vm_compute. split_and!; reflexivity. Qed.
