(* ===== verification/AwaitData.v ===== *)
(** * The data of await sessions

    Models the types of [crates/shared-types/src/await_session.rs] and, of
    [crates/messaging]: the id grammar ([src/id_validation.rs]), the errors
    ([reply-tracker/src/error.rs]), the session record ([session.rs]), detached
    losers ([detach.rs]), the depth walk ([session_context.rs]) and the events
    ([events.rs]).  A payload is its list of bytes, an instant a count of
    milliseconds. *)
From S2P Require Import Prelude RustStr.
Open Scope string_scope.
Open Scope list_scope.
Open Scope Z_scope.

(** ** Ids *)

Definition MAX_ID_BYTES : Z := 256.
Definition MAX_OPAQUE_ID_BYTES : Z := 256.

Definition one_of (l : list ascii) (c : ascii) : bool := existsb (Ascii.eqb c) l.

Definition is_safe_id (s : string) : bool :=
  if String.eqb s "" || (MAX_ID_BYTES <? len s) then false
  else if String.eqb s "system" then true
  else
    match (match strip_prefix "agent:" s with Some b => Some b | None => strip_prefix "user:" s end) with
    | None => false
    | Some body =>
        if String.eqb body "" then false
        else all_bytes (λ b, is_ascii_alphanumeric b || one_of ["_"; "-"]%char b) body
    end.

Definition is_safe_opaque_id (s : string) : bool :=
  if String.eqb s "" || (MAX_OPAQUE_ID_BYTES <? len s) then false
  else all_bytes (λ b, is_ascii_alphanumeric b || one_of ["_"; "-"; "."]%char b) s.

Definition bare_agent_name (id : string) : string := default id (strip_prefix "agent:" id).

(** [char::is_ascii_control]. *)
Definition is_ascii_control (ch : string) : bool :=
  let u := code_point ch in between 0 31 u || (u =? 127).

Definition MAX_REASON_LEN : nat := 256.

Definition sanitize_for_error (s : string) : string :=
  of_chars (take MAX_REASON_LEN (filter (λ ch, is_ascii_control ch = false) (chars s))).

(** ** Requests, replies, results *)

Module AwaitMode.
Inductive t := AllOf | AnyOf.
#[global] Instance eq_dec : EqDecision t.
Proof. solve_decision. Defined.
End AwaitMode.

Definition await_mode_kebab (mode : AwaitMode.t) : string :=
  match mode with AwaitMode.AllOf => "all-of" | AwaitMode.AnyOf => "any-of" end.

Module TimeoutPolicy.
Inductive t := ReturnPartial | Fail.
#[global] Instance eq_dec : EqDecision t.
Proof. solve_decision. Defined.
End TimeoutPolicy.

Module AwaitOptions.
Record t := mk {
  mode : AwaitMode.t;
  idle_timeout_secs : option Z;
  on_idle_timeout : TimeoutPolicy.t;
  keep_losers : bool
}.
#[global] Instance eq_dec : EqDecision t.
Proof. solve_decision. Defined.
End AwaitOptions.

Module MessageContext.
Record t := mk {
  task_id : option string;
  run_id : option string;
  execution_id : option string;
  trace_id : option string;
  in_reply_to : option string;
  correlation_id : option string
}.
#[global] Instance eq_dec : EqDecision t.
Proof. solve_decision. Defined.
End MessageContext.

Module AgentAwaitRequest.
Record t := mk {
  target : string;
  payload : list Z;
  correlation_id : string;
  context : option MessageContext.t
}.
#[global] Instance eq_dec : EqDecision t.
Proof. solve_decision. Defined.
End AgentAwaitRequest.

Module ComponentAwaitRequest.
Record t := mk { component_id : string; correlation_id : string }.
#[global] Instance eq_dec : EqDecision t.
Proof. solve_decision. Defined.
End ComponentAwaitRequest.

Module AwaitRequest.
Inductive t := AgentRequest (r : AgentAwaitRequest.t) | ComponentFinished (r : ComponentAwaitRequest.t).
#[global] Instance eq_dec : EqDecision t.
Proof. solve_decision. Defined.
End AwaitRequest.

(** The source a reply to a request must name. *)
Definition request_source (req : AwaitRequest.t) : string :=
  match req with
  | AwaitRequest.AgentRequest r => AgentAwaitRequest.target r
  | AwaitRequest.ComponentFinished r => "component:" +:+ ComponentAwaitRequest.component_id r
  end.

Definition await_request_task_id (req : AwaitRequest.t) : option string :=
  match req with
  | AwaitRequest.AgentRequest r => AgentAwaitRequest.context r ≫= MessageContext.task_id
  | AwaitRequest.ComponentFinished _ => None
  end.

Module AwaitSessionStatus.
Inductive t := Completed | PartialTimeout | FailedTimeout | Cancelled | FailedDispatch.
#[global] Instance eq_dec : EqDecision t.
Proof. solve_decision. Defined.
End AwaitSessionStatus.

Module ReplyStatus.
Inductive t := Completed | TimedOut | Cancelled | Failed (reason : string).
#[global] Instance eq_dec : EqDecision t.
Proof. solve_decision. Defined.
End ReplyStatus.

Module ReplyResult.
Record t := mk {
  slot : Z;
  source : string;
  payload : list Z;
  status : ReplyStatus.t;
  received_at : Z;
  task_id : option string
}.
#[global] Instance eq_dec : EqDecision t.
Proof. solve_decision. Defined.
End ReplyResult.

Definition set_task_id (task_id : option string) (r : ReplyResult.t) : ReplyResult.t :=
  ReplyResult.mk (ReplyResult.slot r) (ReplyResult.source r) (ReplyResult.payload r) (ReplyResult.status r)
    (ReplyResult.received_at r) task_id.

Module AwaitResult.
Record t := mk {
  session_id : string;
  mode : AwaitMode.t;
  replies : list ReplyResult.t;
  status : AwaitSessionStatus.t;
  ended_at : Z
}.
#[global] Instance eq_dec : EqDecision t.
Proof. solve_decision. Defined.
End AwaitResult.

(** ** Errors *)

Module OrchestrationError.
Inductive t :=
| CapabilityDenied (s : string)
| InvalidTarget (s : string)
| DeadlockDetected (s : string)
| SessionLimitExceeded (s : string)
| SessionClosed (s : string)
| IdleTimeoutExceeded (s : string)
| NotFound (s : string)
| InvalidRequest (s : string)
| Downstream (s : string).
#[global] Instance eq_dec : EqDecision t.
Proof. solve_decision. Defined.
End OrchestrationError.

Module MsgError.
Inductive t :=
| InvalidTarget (s : string)
| MailboxFull
| CircuitBreakerOpen (s : string)
| CapabilityDenied (s : string)
| InvalidPayload (s : string).
#[global] Instance eq_dec : EqDecision t.
Proof. solve_decision. Defined.
End MsgError.

Module AdmissionError.
Inductive t :=
| CapabilityDenied (s : string)
| SessionLimitExceeded (s : string)
| DeadlockAll (s : string)
| InvalidRequest (s : string).
End AdmissionError.

Module DispatchSlotError.
Inductive t :=
| InvalidTarget (s : string)
| MailboxFull (s : string)
| CircuitBreakerOpen (s : string)
| CapabilityDenied (s : string)
| InvalidPayload (s : string)
| Deadlock (s : string).
#[global] Instance eq_dec : EqDecision t.
Proof. solve_decision. Defined.
End DispatchSlotError.

Definition classify_admission (err : AdmissionError.t) : OrchestrationError.t :=
  match err with
  | AdmissionError.CapabilityDenied s => OrchestrationError.CapabilityDenied s
  | AdmissionError.SessionLimitExceeded s => OrchestrationError.SessionLimitExceeded s
  | AdmissionError.DeadlockAll s => OrchestrationError.DeadlockDetected s
  | AdmissionError.InvalidRequest s => OrchestrationError.InvalidRequest s
  end.

Definition classify_dispatch (err : MsgError.t) (target_id : string) : DispatchSlotError.t :=
  match err with
  | MsgError.InvalidTarget s => DispatchSlotError.InvalidTarget s
  | MsgError.MailboxFull => DispatchSlotError.MailboxFull target_id
  | MsgError.CircuitBreakerOpen s => DispatchSlotError.CircuitBreakerOpen s
  | MsgError.CapabilityDenied s => DispatchSlotError.CapabilityDenied s
  | MsgError.InvalidPayload s => DispatchSlotError.InvalidPayload s
  end.

Definition format_per_slot_reason (err : DispatchSlotError.t) : string :=
  let (kind, id) :=
    match err with
    | DispatchSlotError.InvalidTarget id => ("invalid-target", id)
    | DispatchSlotError.MailboxFull id => ("mailbox-full", id)
    | DispatchSlotError.CircuitBreakerOpen id => ("circuit-breaker-open", id)
    | DispatchSlotError.CapabilityDenied id => ("capability-denied", id)
    | DispatchSlotError.InvalidPayload id => ("invalid-payload", id)
    | DispatchSlotError.Deadlock id => ("deadlock", id)
    end in
  let sanitized :=
    of_chars (take (MAX_REASON_LEN - (String.length kind + 1)) (filter (λ ch, is_ascii_control ch = false) (chars id))) in
  kind +:+ ":" +:+ sanitized.

(** ** The session *)

Module SessionStatus.
Inductive t := Open | Completed | TimedOut | Cancelled.
#[global] Instance eq_dec : EqDecision t.
Proof. solve_decision. Defined.
End SessionStatus.

Module RecordReplyError.
Inductive t := OutOfBounds | AlreadyRecorded.
#[global] Instance eq_dec : EqDecision t.
Proof. solve_decision. Defined.
End RecordReplyError.

Module AwaitSession.
Record t := mk {
  id : string;
  parent_session : option string;
  agent_id : string;
  caller_run_id : option string;
  options : AwaitOptions.t;
  expected : list AwaitRequest.t;
  received : list (option ReplyResult.t);
  status : SessionStatus.t;
  created_at : Z;
  last_activity : Z
}.
#[global] Instance eq_dec : EqDecision t.
Proof. solve_decision. Defined.

(** [AwaitSession::new], at [now]. *)
Definition new (id agent_id : string) (options : AwaitOptions.t) (expected : list AwaitRequest.t) (now : Z) : t :=
  mk id None agent_id None options expected (replicate (length expected) None) SessionStatus.Open now now.

Definition set_parent_session (p : option string) (s : t) : t :=
  mk (id s) p (agent_id s) (caller_run_id s) (options s) (expected s) (received s) (status s) (created_at s) (last_activity s).
Definition set_caller_run_id (r : option string) (s : t) : t :=
  mk (id s) (parent_session s) (agent_id s) r (options s) (expected s) (received s) (status s) (created_at s) (last_activity s).
Definition set_received (rs : list (option ReplyResult.t)) (s : t) : t :=
  mk (id s) (parent_session s) (agent_id s) (caller_run_id s) (options s) (expected s) rs (status s) (created_at s) (last_activity s).
Definition set_status (st : SessionStatus.t) (s : t) : t :=
  mk (id s) (parent_session s) (agent_id s) (caller_run_id s) (options s) (expected s) (received s) st (created_at s) (last_activity s).
Definition set_last_activity (now : Z) (s : t) : t :=
  mk (id s) (parent_session s) (agent_id s) (caller_run_id s) (options s) (expected s) (received s) (status s) (created_at s) now.

Definition record_reply (slot : Z) (reply : ReplyResult.t) (s : t) : result RecordReplyError.t t :=
  let idx := Z.to_nat slot in
  match received s !! idx with
  | None => Err RecordReplyError.OutOfBounds
  | Some (Some _) => Err RecordReplyError.AlreadyRecorded
  | Some None => Ok (set_received (<[idx := Some reply]> (received s)) s)
  end.

Definition is_completed (r : option ReplyResult.t) : bool :=
  match r with Some rr => bool_decide (ReplyResult.status rr = ReplyStatus.Completed) | None => false end.

Definition is_complete (s : t) : bool :=
  match AwaitOptions.mode (options s) with
  | AwaitMode.AllOf => forallb (λ r, bool_decide (is_Some r)) (received s)
  | AwaitMode.AnyOf => existsb is_completed (received s)
  end.
End AwaitSession.

(** [materialize_detached_loser]. *)
Definition materialize_detached_loser (req : option AwaitRequest.t) (slot now : Z) : ReplyResult.t :=
  let (source, task_id) :=
    match req with
    | Some req => (request_source req, await_request_task_id req)
    | None => ("", None)
    end in
  ReplyResult.mk slot source [] ReplyStatus.Cancelled now task_id.

Definition snapshot_replies (s : AwaitSession.t) (now : Z) : list ReplyResult.t :=
  match AwaitOptions.mode (AwaitSession.options s), AwaitOptions.keep_losers (AwaitSession.options s) with
  | AwaitMode.AnyOf, false =>
      filter (λ rr, ReplyResult.status rr = ReplyStatus.Completed) (omap id (AwaitSession.received s))
  | AwaitMode.AnyOf, true =>
      imap (λ idx slot,
        match slot with
        | Some rr => rr
        | None => materialize_detached_loser (AwaitSession.expected s !! idx) (Z.of_nat idx) now
        end) (AwaitSession.received s)
  | AwaitMode.AllOf, _ => omap id (AwaitSession.received s)
  end.

Definition snapshot_replies_all (s : AwaitSession.t) : list ReplyResult.t := omap id (AwaitSession.received s).

(** The reply that stands for a slot nobody answered in time. *)
Definition timed_out_reply (s : AwaitSession.t) (now : Z) (idx : nat) : ReplyResult.t :=
  let target_source :=
    match AwaitSession.expected s !! idx with Some req => request_source req | None => "" end in
  ReplyResult.mk (Z.of_nat idx) target_source [] ReplyStatus.TimedOut now None.

Definition fill_unresolved_as_timed_out (now : Z) (s : AwaitSession.t) : AwaitSession.t :=
  let received := imap (λ idx slot, Some (default (timed_out_reply s now idx) slot)) (AwaitSession.received s) in
  AwaitSession.set_status SessionStatus.TimedOut (AwaitSession.set_received received s).

Definition projected_status (s : AwaitSession.t) : AwaitSessionStatus.t :=
  match AwaitSession.status s with
  | SessionStatus.Open | SessionStatus.Completed => AwaitSessionStatus.Completed
  | SessionStatus.TimedOut => AwaitSessionStatus.PartialTimeout
  | SessionStatus.Cancelled => AwaitSessionStatus.Cancelled
  end.

(** ** Nesting *)

(** [for _ in 0..max_hops] of [compute_depth_in_map]. *)
Fixpoint depth_loop {T} (hops : nat) (map : gmap string (AwaitSession.t * T)) (current : string) (depth : Z) : Z :=
  match hops with
  | O => depth
  | S hops =>
      match map !! current with
      | Some (session, _) =>
          match AwaitSession.parent_session session with
          | Some p => depth_loop hops map p (sat_add_u32 depth 1)
          | None => depth
          end
      | None => depth
      end
  end.

Definition compute_depth_in_map {T} (map : gmap string (AwaitSession.t * T)) (sid : string) : Z :=
  depth_loop (size map + 1) map sid 1.

(** ** Events *)

(** An event's agent, run and payload; its id and timestamp are fresh. *)
Module AwaitEvent.
Inductive t :=
| AwaitProgress (agent : string) (run_id : option string) (session_id target : string) (progress : option string)
| DeadlockRejected (requester : string) (run_id : option string) (targets cycle : list string)
| AwaitIdleTimeout (agent : string) (run_id : option string) (session_id target : string) (idle_seconds : Z)
| AwaitStarted (agent : string) (run_id : option string) (session_id mode : string) (targets : Z)
| AwaitSatisfied (agent : string) (run_id : option string) (session_id mode : string) (replies : Z)
| AwaitSessionClosed (agent : string) (run_id : option string) (session_id reason : string)
| ReplyLate (source : string) (run_id : option string) (session_id : string) (slot : Z).
#[global] Instance eq_dec : EqDecision t.
Proof. solve_decision. Defined.
End AwaitEvent.
