(* ===== verification/AwaitManager.v ===== *)
(** * The manager of await sessions

    Models [crates/messaging/reply-tracker/src/manager.rs] with [dispatch.rs],
    [idle.rs] and [component_resolution.rs]: the four shared tables, what each
    call does between two acquisitions of a lock, and a step function that
    interleaves any number of calls and idle monitors.  A [oneshot] is named by
    the call of [start] that waits on it. *)
From S2P Require Import Prelude RustStr AgentTree Deadlock AwaitData.
Open Scope string_scope.
Open Scope list_scope.
Open Scope Z_scope.

(** ** Configuration *)

Definition MAX_FANOUT : Z := 32.
Definition MAX_IDLE_TIMEOUT_SECS_CAP : Z := 3600.
Definition MAX_SESSIONS_GLOBAL : Z := 1024.
Definition MAX_PAYLOAD_BYTES : Z := 64 * 1024.
Definition IDLE_TICK_SECS : Z := 5.

Module CapabilityConfig.
Record t := mk {
  targets : option (list string);
  max_fanout : option Z;
  max_inflight : option Z;
  max_idle_timeout_secs : option Z;
  max_depth : option Z
}.
End CapabilityConfig.

(** [event_emitter] and [turn_mailbox_dispatch] say whether the port is
    installed; what the injected ports answer is in [Answers] and the calls. *)
Module ManagerOptions.
Record t := mk {
  max_inflight : Z;
  idle_timeout_default_sec : Z;
  cap_check : string → bool;
  capability : CapabilityConfig.t;
  event_emitter : bool;
  turn_mailbox_dispatch : bool
}.

Definition default : t :=
  mk 3 600 (λ _, true) (CapabilityConfig.mk None None None None None) false false.
End ManagerOptions.

(** ** Messages and turns *)

(** A message of kind [Agent] without an origin. *)
Module Message.
Record t := mk {
  id : string;
  from : string;
  to : string;
  payload : list Z;
  context : option MessageContext.t;
  timestamp : Z
}.
End Message.

(** A spec whose completion owner is the await session. *)
Module QueuedTurnSpec.
Record t := mk {
  turn_id : string;
  expected_agent : string;
  parent_agent : string;
  session_id : string;
  slot : Z;
  original_task_id : option string;
  original_run_id : option string;
  original_reply_to : option string
}.
End QueuedTurnSpec.

Module TurnMailboxDelivery.
Record t := mk { target : string; message : Message.t; spec : QueuedTurnSpec.t }.
End TurnMailboxDelivery.

(** What the manager sees of a batch: an outcome per delivery and the turns
    that were registered. *)
Module PreparedTurnBatch.
Record t := mk { outcomes : list (result MsgError.t unit); registered_turns : list string }.
End PreparedTurnBatch.

(** ** Calls *)

(** A call of [start_with_run_inner], with the snapshot the agent tree gives it
    and the id bridge as it is then. *)
Module StartCall.
Record t := mk {
  session_id_override : option string;
  caller : string;
  caller_run_id : option string;
  requests : list AwaitRequest.t;
  options : AwaitOptions.t;
  agent_tree : option AgentTreeSnapshotData.t;
  id_bridge : string → option (string * string)
}.
End StartCall.

Module ExactReplyRoute.
Record t := mk { parent_agent : string; session_id : string; slot : Z }.
End ExactReplyRoute.

Inductive call :=
| Start (q : StartCall.t)
| OnReply (session_id : string) (slot : Z) (reply : ReplyResult.t)
| HandleSend (source target : string) (payload : list Z) (context : option MessageContext.t)
    (id_bridge : string → option (string * string))
| RouteClaimedReply (route : ExactReplyRoute.t) (payload : list Z)
| OnRunCompleted (task_id : string)
| Close (session_id reason : string)
| HeartbeatForTarget (caller_agent_id : string).

(** ** What a call can be in the middle of *)

(** The slots the deadlock gate rejected, with target and cycle. *)
Notation Hits := (list (nat * (string * list string)))%type.

(** Who called [on_reply]. *)
Inductive Origin := Direct | BySend (source : string) | ByComponent | ByClaim.

(** What a finished call returned. *)
Inductive Final :=
| Returned (r : result OrchestrationError.t AwaitResult.t)
| Answered (r : result OrchestrationError.t unit)
| Sent (r : result MsgError.t unit)
| Resolved (session_id : option string)
| Touched (session_ids : list string)
| Exited.

Inductive Cleanup := Evict | Detach | Decrement | Resolve.
#[export] Instance Cleanup_eq_dec : EqDecision Cleanup.
Proof. solve_decision. Defined.

(** A call that has taken a session out of the table: it owns the sender and
    still has [todo] to do. *)
Module Owner.
Record t := mk {
  session : AwaitSession.t;
  tx : nat;
  todo : list Cleanup;
  event : option AwaitEvent.t;
  outcome : result OrchestrationError.t AwaitResult.t;
  back : Final
}.
End Owner.

Inductive Pc :=
(* start *)
| Admit (q : StartCall.t)                                          (* before the read of the number of sessions *)
| Lookup (q : StartCall.t) (hits : Hits)                           (* before the read of the parent *)
| Count (q : StartCall.t) (hits : Hits) (session : AwaitSession.t) (* before [per_caller_count] *)
| Insert (q : StartCall.t) (hits : Hits) (session : AwaitSession.t) (* before the insertion *)
| Watch (q : StartCall.t) (hits : Hits) (sid : string)             (* before [liveness] *)
| Dispatch (q : StartCall.t) (hits : Hits) (sid : string) (results : list (result DispatchSlotError.t unit))
| EarlyResolve (sid : string) (r : AwaitResult.t)                  (* complete after dispatch: before the removal *)
| AllFailed (sid : string) (mode : AwaitMode.t) (now : Z)          (* nothing dispatched: before the removal *)
| Park (sid : string)                                              (* at [rx.await] *)
(* on_reply and its callers *)
| Reply (sid : string) (slot : Z) (reply : ReplyResult.t) (origin : Origin)
| Route (source target : string) (payload : list Z) (context : option MessageContext.t)
    (id_bridge : string → option (string * string))
| Deliver (target : string) (msg : Message.t)
| ClaimedRoute (route : ExactReplyRoute.t) (payload : list Z)
| Component (component_id : string)
(* close, heartbeat, idle monitor *)
| Closing (sid reason : string)
| Beat (needle : string)
| Beating (needle : string) (sids touched : list string)
| Monitor (sid : string) (idle_timeout_secs wake : Z)
| Claimed (sid : string) (idle_timeout_secs : Z)
| Owning (o : Owner.t)
| Fin (f : Final).

(** ** The shared state *)

Module LivenessRec.
Record t := mk { last_activity : Z; idle_timeout_secs : Z }.
End LivenessRec.

(** A session with its sender. *)
Notation SessionEntry := (AwaitSession.t * nat)%type.

(** A [oneshot] that is no longer open: the sender was dropped or used. *)
Inductive Wire := Dropped | Filled (r : result OrchestrationError.t AwaitResult.t).

(** What was done outside the manager. *)
Inductive Note :=
| Emitted (e : AwaitEvent.t)
| Delivered (target : string) (msg : Message.t)
| Prepared (deliveries : list TurnMailboxDelivery.t)
| DetachedTurns (session_id : string)
| Parked (tid : nat).

(** A call is named by a number, a monitor by its session. *)
Notation Tid := (nat + string)%type.

Record Tracker := mkTracker {
  sessions : gmap string SessionEntry;
  per_caller_count : gmap string Z;
  liveness : gmap string LivenessRec.t;
  turn_batches : gmap string PreparedTurnBatch.t;
  wires : gmap nat Wire;
  tasks : gmap Tid Pc;
  clock : Z;
  notes : list Note;
  (** history: the ids drawn so far, by which call and how many before it; the
      calls that were counted and not yet taken off the count, and for whom *)
  drawn : gmap string (nat * nat);
  charged : gmap nat string;
  (** and the session each call put into the table *)
  opened : gmap nat AwaitSession.t
}.

Definition set_sessions x s := mkTracker x (per_caller_count s) (liveness s) (turn_batches s) (wires s) (tasks s) (clock s) (notes s) (drawn s) (charged s) (opened s).
Definition set_per_caller_count x s := mkTracker (sessions s) x (liveness s) (turn_batches s) (wires s) (tasks s) (clock s) (notes s) (drawn s) (charged s) (opened s).
Definition set_liveness x s := mkTracker (sessions s) (per_caller_count s) x (turn_batches s) (wires s) (tasks s) (clock s) (notes s) (drawn s) (charged s) (opened s).
Definition set_turn_batches x s := mkTracker (sessions s) (per_caller_count s) (liveness s) x (wires s) (tasks s) (clock s) (notes s) (drawn s) (charged s) (opened s).
Definition set_wires x s := mkTracker (sessions s) (per_caller_count s) (liveness s) (turn_batches s) x (tasks s) (clock s) (notes s) (drawn s) (charged s) (opened s).
Definition set_task k pc s := mkTracker (sessions s) (per_caller_count s) (liveness s) (turn_batches s) (wires s) (<[k := pc]> (tasks s)) (clock s) (notes s) (drawn s) (charged s) (opened s).
Definition set_clock x s := mkTracker (sessions s) (per_caller_count s) (liveness s) (turn_batches s) (wires s) (tasks s) x (notes s) (drawn s) (charged s) (opened s).
Definition note n s := mkTracker (sessions s) (per_caller_count s) (liveness s) (turn_batches s) (wires s) (tasks s) (clock s) (notes s ++ [n]) (drawn s) (charged s) (opened s).
Definition draw sid tid s := mkTracker (sessions s) (per_caller_count s) (liveness s) (turn_batches s) (wires s) (tasks s) (clock s) (notes s) (<[sid := (tid, size (drawn s))]> (drawn s)) (charged s) (opened s).
Definition set_charged x s := mkTracker (sessions s) (per_caller_count s) (liveness s) (turn_batches s) (wires s) (tasks s) (clock s) (notes s) (drawn s) x (opened s).
Definition set_opened x s := mkTracker (sessions s) (per_caller_count s) (liveness s) (turn_batches s) (wires s) (tasks s) (clock s) (notes s) (drawn s) (charged s) x.

Definition tracker_new (now : Z) : Tracker := mkTracker ∅ ∅ ∅ ∅ ∅ ∅ now [] ∅ ∅ ∅.

(** What the environment answers during a step: the id that is drawn if one is,
    and the ports. *)
Module Answers.
Record t := mk {
  new_id : string;
  current_session : option string;            (* [SessionContextProvider::current_session] *)
  deliver : result MsgError.t unit;           (* [MailboxDispatcher::deliver] *)
  prepare_turn_batch : PreparedTurnBatch.t;
  publish_prepared : result MsgError.t unit;
  mark_recorded_and_settle : result string unit  (* the claim's settlement, with [error.code()] *)
}.
End Answers.

(** The order in which a [HashMap] of sessions is iterated. *)
Class SessionOrder := iter_sessions : gmap string SessionEntry → list (string * SessionEntry).
Class SessionOrderLaws `{SessionOrder} : Prop := iter_sessions_perm m : iter_sessions m ≡ₚ map_to_list m.
Definition session_order_model : SessionOrder := map_to_list.
Lemma session_order_model_laws : @SessionOrderLaws session_order_model.
Proof. intros m. reflexivity. Qed.

(** ** Shared bookkeeping *)

(** [decrement_caller_count]. *)
Definition decrement_caller_count (caller : string) (counts : gmap string Z) : gmap string Z :=
  match counts !! caller with
  | Some n => if n <=? 1 then delete caller counts else <[caller := n - 1]> counts
  | None => counts
  end.

Definition evict_liveness (sid : string) (s : Tracker) : Tracker := set_liveness (delete sid (liveness s)) s.

Definition reset_liveness (sid : string) (s : Tracker) : Tracker :=
  set_liveness (alter (λ rec, LivenessRec.mk (clock s) (LivenessRec.idle_timeout_secs rec)) sid (liveness s)) s.

(** ** Admission *)

(** The checks of one request, at its index. *)
Definition check_request (idx : nat) (req : AwaitRequest.t) : result AdmissionError.t unit :=
  let slot := "slot " +:+ z_to_string (Z.of_nat idx) in
  match req with
  | AwaitRequest.AgentRequest r =>
      _ ← guard_err (MAX_PAYLOAD_BYTES <? size_of (AgentAwaitRequest.payload r))
            (AdmissionError.InvalidRequest (slot +:+ " payload.len() > MAX_PAYLOAD_BYTES (65536)"));
      guard_err (negb (is_safe_opaque_id (AgentAwaitRequest.correlation_id r)))
        (AdmissionError.InvalidRequest (slot +:+ " correlation_id is not a safe opaque id"))
  | AwaitRequest.ComponentFinished r =>
      _ ← guard_err (negb (is_safe_opaque_id (ComponentAwaitRequest.component_id r)))
            (AdmissionError.InvalidRequest (slot +:+ " component_id is not a safe opaque id"));
      guard_err (negb (is_safe_opaque_id (ComponentAwaitRequest.correlation_id r)))
        (AdmissionError.InvalidRequest (slot +:+ " correlation_id is not a safe opaque id"))
  end.

Fixpoint check_requests (idx : nat) (reqs : list AwaitRequest.t) : result AdmissionError.t unit :=
  match reqs with
  | [] => Ok tt
  | req :: reqs => _ ← check_request idx req; check_requests (S idx) reqs
  end.

(** A target that names an agent: what [try_route_reply] and the deadlock gate
    look at. *)
Definition agent_target (target : string) : bool := is_safe_id target && starts_with "agent:" target.

(** [for req in &requests] with the set [seen_targets]. *)
Fixpoint check_targets (seen : gset string) (reqs : list AwaitRequest.t) : result AdmissionError.t unit :=
  match reqs with
  | [] => Ok tt
  | AwaitRequest.AgentRequest r :: reqs =>
      let target := AgentAwaitRequest.target r in
      if agent_target target then
        let bare := bare_agent_name target in
        _ ← guard_err (bool_decide (bare ∈ seen))
              (AdmissionError.InvalidRequest
                 ("single-pending-target constraint: duplicate await target 'agent:" +:+ bare +:+
                  "' - a send reply has no correlation-id to disambiguate two pending slots for the same agent"));
        check_targets ({[bare]} ∪ seen) reqs
      else check_targets seen reqs
  | AwaitRequest.ComponentFinished _ :: reqs => check_targets seen reqs
  end.

(** [for req in &requests] against the allowlist. *)
Fixpoint check_allowlist (allow : list string) (reqs : list AwaitRequest.t) : result AdmissionError.t unit :=
  match reqs with
  | [] => Ok tt
  | AwaitRequest.AgentRequest r :: reqs =>
      let target := AgentAwaitRequest.target r in
      _ ← guard_err (is_safe_id target && negb (bool_decide (bare_agent_name target ∈ allow)))
            (AdmissionError.CapabilityDenied ("target " +:+ target +:+ " not in capability allowlist"));
      check_allowlist allow reqs
  | AwaitRequest.ComponentFinished _ :: reqs => check_allowlist allow reqs
  end.

(** The loop of the deadlock gate: the number of agent targets, and those that
    close a cycle. *)
Fixpoint scan_deadlocks (snapshot : AgentTreeSnapshotData.t) (caller : string) (slot_idx : nat)
    (reqs : list AwaitRequest.t) : nat * Hits :=
  match reqs with
  | [] => (O, [])
  | req :: reqs =>
      let (n, hits) := scan_deadlocks snapshot caller (S slot_idx) reqs in
      match req with
      | AwaitRequest.AgentRequest r =>
          let target := AgentAwaitRequest.target r in
          if agent_target target then
            let bare := bare_agent_name target in
            (S n, if forms_cycle snapshot caller bare
                  then (slot_idx, (target, cycle_path snapshot caller bare)) :: hits else hits)
          else (n, hits)
      | AwaitRequest.ComponentFinished _ => (n, hits)
      end
  end.

Definition deadlock_slots (hits : Hits) : list nat := hits.*1.

Section manager.
Context (o : ManagerOptions.t).
Let cap : CapabilityConfig.t := ManagerOptions.capability o.

(** The capability gate: allowlist, fan-out, idle timeout. *)
Definition check_capability (q : StartCall.t) : result AdmissionError.t unit :=
  let reqs := StartCall.requests q in
  _ ← match CapabilityConfig.targets cap with Some allow => check_allowlist allow reqs | None => Ok tt end;
  _ ← match CapabilityConfig.max_fanout cap with
      | Some m => guard_err (m <? size_of reqs)
          (AdmissionError.InvalidRequest ("requests.len() (" +:+ z_to_string (size_of reqs) +:+ ") > capability max_fanout ("
             +:+ z_to_string m +:+ ")"))
      | None => Ok tt
      end;
  match CapabilityConfig.max_idle_timeout_secs cap, AwaitOptions.idle_timeout_secs (StartCall.options q) with
  | Some m, Some secs =>
      guard_err (m <? secs) (AdmissionError.InvalidRequest "capability:max-idle-timeout-exceeded")
  | _, _ => Ok tt
  end.

(** [start_with_run_inner] before it takes a lock. *)
Definition check_start (q : StartCall.t) : result AdmissionError.t Hits :=
  let reqs := StartCall.requests q in
  _ ← guard_err (negb (is_safe_id ("agent:" +:+ StartCall.caller q)))
        (AdmissionError.InvalidRequest "caller is not a safe agent id body");
  _ ← guard_err (bool_decide (reqs = [])) (AdmissionError.InvalidRequest "empty requests");
  _ ← guard_err (MAX_FANOUT <? size_of reqs) (AdmissionError.InvalidRequest "requests.len() > MAX_FANOUT (32)");
  _ ← check_requests 0 reqs;
  _ ← check_targets ∅ reqs;
  _ ← match AwaitOptions.idle_timeout_secs (StartCall.options q) with
      | Some secs => guard_err (MAX_IDLE_TIMEOUT_SECS_CAP <? secs)
          (AdmissionError.InvalidRequest "idle_timeout_secs > MAX_IDLE_TIMEOUT_SECS_CAP (3600)")
      | None => Ok tt
      end;
  _ ← guard_err (negb (ManagerOptions.cap_check o (StartCall.caller q)))
        (AdmissionError.CapabilityDenied (StartCall.caller q));
  _ ← check_capability q;
  match StartCall.agent_tree q with
  | Some snapshot =>
      let (agent_slot_count, hits) := scan_deadlocks snapshot (StartCall.caller q) 0 reqs in
      _ ← guard_err ((0 <? agent_slot_count)%nat && (length hits =? agent_slot_count)%nat)
            (AdmissionError.DeadlockAll "all targets would create an AwaitSession cycle");
      Ok hits
  | None => Ok []
  end.

(** The parent a new session gets, and its depth. *)
Definition resolve_parent (q : StartCall.t) (current_session : option string) (ss : gmap string SessionEntry)
    : option string * Z :=
  let raw_parent := match StartCall.caller_run_id q with Some _ => current_session | None => None end in
  match raw_parent with
  | Some p =>
      match ss !! p with
      | Some (s, _) =>
          if String.eqb (AwaitSession.agent_id s) (StartCall.caller q)
          then (Some p, sat_add_u32 (compute_depth_in_map ss p) 1) else (None, 1)
      | None => (None, 1)
      end
  | None => (None, 1)
  end.

(** From the read of the parent to the new session; an error is the early
    return. *)
Definition prepare_session (q : StartCall.t) (sid : string) (current_session : option string) (now : Z)
    (ss : gmap string SessionEntry) : result AdmissionError.t AwaitSession.t :=
  _ ← match StartCall.caller_run_id q with
      | Some run_id => guard_err (negb (is_safe_opaque_id run_id))
          (AdmissionError.InvalidRequest "caller_run_id is not a safe opaque id")
      | None => Ok tt
      end;
  let (parent_session, prospective_depth) := resolve_parent q current_session ss in
  _ ← match CapabilityConfig.max_depth cap with
      | Some max_d => guard_err (max_d <? prospective_depth)
          (AdmissionError.CapabilityDenied "capability:max-depth-exceeded")
      | None => Ok tt
      end;
  _ ← guard_err (negb (is_safe_id ("agent:" +:+ sid)))
        (AdmissionError.InvalidRequest "session_id_factory produced a non-safe id");
  Ok (AwaitSession.set_caller_run_id (StartCall.caller_run_id q)
        (AwaitSession.set_parent_session parent_session
           (AwaitSession.new sid (StartCall.caller q) (StartCall.options q) (StartCall.requests q) now))).

Definition effective_max_inflight : Z := default (ManagerOptions.max_inflight o) (CapabilityConfig.max_inflight cap).

Definition effective_idle_timeout (options : AwaitOptions.t) : Z :=
  let secs := default (ManagerOptions.idle_timeout_default_sec o) (AwaitOptions.idle_timeout_secs options) in
  match CapabilityConfig.max_idle_timeout_secs cap with Some cap_max => Z.min secs cap_max | None => secs end.

(** The parent is looked at again under the write lock. *)
Definition still_parent (caller : string) (ss : gmap string SessionEntry) (session : AwaitSession.t) : AwaitSession.t :=
  match AwaitSession.parent_session session with
  | Some p =>
      match ss !! p with
      | Some (s, _) =>
          if String.eqb (AwaitSession.agent_id s) caller then session else AwaitSession.set_parent_session None session
      | None => AwaitSession.set_parent_session None session
      end
  | None => session
  end.

(** ** Dispatch *)

Definition canonical_sender (id_bridge : string → option (string * string)) (source : string) : string :=
  match id_bridge source with
  | Some (_, mailbox) => mailbox
  | None => if starts_with "agent:" source || String.eqb source "system" then source else "agent:" +:+ source
  end.

Definition canonical_turn_target (id_bridge : string → option (string * string)) (target : string) : option string :=
  match id_bridge target with
  | Some (_, mailbox) => Some mailbox
  | None => if starts_with "agent:" target then Some target else None
  end.

Definition slot_turn_id (sid : string) (slot : nat) : string :=
  "session:" +:+ sid +:+ ":slot:" +:+ z_to_string (Z.of_nat slot).

(** The context a slot's message carries. *)
Definition slot_context (sid : string) (slot : nat) (r : AgentAwaitRequest.t) : MessageContext.t :=
  let from f := AgentAwaitRequest.context r ≫= f in
  MessageContext.mk (from MessageContext.task_id) (from MessageContext.run_id) (from MessageContext.execution_id)
    (from MessageContext.trace_id) (Some (slot_turn_id sid slot)) (Some (AgentAwaitRequest.correlation_id r)).

Definition slot_message (caller sid : string) (slot : nat) (r : AgentAwaitRequest.t) (now : Z) : Message.t :=
  Message.mk (slot_turn_id sid slot) ("agent:" +:+ caller) (AgentAwaitRequest.target r) (AgentAwaitRequest.payload r)
    (Some (slot_context sid slot r)) now.

(** One slot of [dispatch_slots]: its result, and what was delivered. *)
Definition dispatch_slot (q : StartCall.t) (hits : Hits) (sid : string) (slot : nat) (req : AwaitRequest.t)
    (deliver : result MsgError.t unit) (now : Z) : result DispatchSlotError.t unit * list Note :=
  match req with
  | AwaitRequest.ComponentFinished _ => (Ok tt, [])
  | AwaitRequest.AgentRequest r =>
      let target := AgentAwaitRequest.target r in
      if bool_decide (slot ∈ deadlock_slots hits) then (Err (DispatchSlotError.Deadlock target), [])
      else if negb (is_safe_id target) then (Err (DispatchSlotError.InvalidTarget target), [])
      else
        (match deliver with Ok _ => Ok tt | Err e => Err (classify_dispatch e target) end,
         [Delivered target (slot_message (StartCall.caller q) sid slot r now)])
  end.

Definition turn_state_conflict : result DispatchSlotError.t unit :=
  Err (DispatchSlotError.CapabilityDenied "turn-state-conflict").

(** What the first loop of [dispatch_protected_slots] makes of a slot: a result,
    or a delivery. *)
Definition plan_slot (q : StartCall.t) (hits : Hits) (sid : string) (now : Z) (slot : nat) (req : AwaitRequest.t)
    : result DispatchSlotError.t unit + TurnMailboxDelivery.t :=
  match req with
  | AwaitRequest.ComponentFinished _ => inl (Ok tt)
  | AwaitRequest.AgentRequest r =>
      let target := AgentAwaitRequest.target r in
      if bool_decide (slot ∈ deadlock_slots hits) then inl (Err (DispatchSlotError.Deadlock target))
      else if negb (is_safe_id target) then inl (Err (DispatchSlotError.InvalidTarget target))
      else
        match canonical_turn_target (StartCall.id_bridge q) target with
        | None => inl (Err (DispatchSlotError.InvalidTarget target))
        | Some canonical_target =>
            let parent_agent := canonical_sender (StartCall.id_bridge q) (StartCall.caller q) in
            let context := slot_context sid slot r in
            inr (TurnMailboxDelivery.mk canonical_target
                   (Message.mk (slot_turn_id sid slot) parent_agent canonical_target (AgentAwaitRequest.payload r)
                      (Some context) now)
                   (QueuedTurnSpec.mk (slot_turn_id sid slot) canonical_target parent_agent sid (Z.of_nat slot)
                      (MessageContext.task_id context) (MessageContext.run_id context) (Some parent_agent)))
        end
  end.

(** The slots that are delivered take the batch's outcomes in order; a slot
    without one is a conflict. *)
Fixpoint take_outcomes (reqs : list AwaitRequest.t)
    (plan : list (result DispatchSlotError.t unit + TurnMailboxDelivery.t)) (outcomes : list (result MsgError.t unit))
    : list (result DispatchSlotError.t unit) :=
  match plan with
  | [] => []
  | inl r :: plan => r :: take_outcomes (tail reqs) plan outcomes
  | inr _ :: plan =>
      match outcomes with
      | [] => turn_state_conflict :: take_outcomes (tail reqs) plan []
      | outcome :: outcomes =>
          match outcome with
          | Ok _ => Ok tt
          | Err e => Err (classify_dispatch e (match head reqs with
                                               | Some (AwaitRequest.AgentRequest r) => AgentAwaitRequest.target r
                                               | _ => "component" end))
          end :: take_outcomes (tail reqs) plan outcomes
      end
  end.

(** A failure of the whole batch replaces the successes of its slots. *)
Definition fail_batch (reqs : list AwaitRequest.t)
    (plan : list (result DispatchSlotError.t unit + TurnMailboxDelivery.t)) (why : string → DispatchSlotError.t)
    (results : list (result DispatchSlotError.t unit)) : list (result DispatchSlotError.t unit) :=
  imap (λ slot r,
    match plan !! slot, r with
    | Some (inr _), Ok _ =>
        Err (why (match reqs !! slot with
                  | Some (AwaitRequest.AgentRequest r) => AgentAwaitRequest.target r
                  | _ => "component" end))
    | _, _ => r
    end) results.

(** [dispatch_protected_slots]: the results and the batches, with what was
    handed to the port. *)
Definition dispatch_protected_slots (q : StartCall.t) (hits : Hits) (sid : string) (a : Answers.t) (now : Z)
    (batches : gmap string PreparedTurnBatch.t)
    : list (result DispatchSlotError.t unit) * gmap string PreparedTurnBatch.t * list Note :=
  let reqs := StartCall.requests q in
  let plan := imap (plan_slot q hits sid now) reqs in
  let deliveries := omap (λ p, match p with inr d => Some d | inl _ => None end) plan in
  if bool_decide (deliveries = []) then (take_outcomes reqs plan [], batches, [])
  else
    let batch := Answers.prepare_turn_batch a in
    let results := take_outcomes reqs plan (PreparedTurnBatch.outcomes batch) in
    let sent := [Prepared deliveries] in
    if bool_decide (PreparedTurnBatch.registered_turns batch = []) then (results, batches, sent)
    else if bool_decide (is_Some (batches !! sid)) then
      (fail_batch reqs plan (λ _, DispatchSlotError.CapabilityDenied "turn-state-conflict") results, batches, sent)
    else
      match Answers.publish_prepared a with
      | Ok _ => (results, <[sid := batch]> batches, sent)
      | Err e => (fail_batch reqs plan (classify_dispatch e) results, batches, sent)
      end.

(** The reply recorded for a slot that could not be dispatched. *)
Definition dispatch_failure (slot : nat) (req : AwaitRequest.t) (e : DispatchSlotError.t) (now : Z) : ReplyResult.t :=
  ReplyResult.mk (Z.of_nat slot) (request_source req) [] (ReplyStatus.Failed (format_per_slot_reason e)) now None.

(** [for (slot_idx, r) in slot_results.iter().enumerate()]. *)
Fixpoint record_failures (now : Z) (slot : nat) (reqs : list AwaitRequest.t)
    (results : list (result DispatchSlotError.t unit)) (session : AwaitSession.t) : AwaitSession.t :=
  match reqs, results with
  | req :: reqs, Err e :: results =>
      record_failures now (S slot) reqs results
        (match AwaitSession.record_reply (Z.of_nat slot) (dispatch_failure slot req e now) session with
         | Ok session => session
         | Err _ => session
         end)
  | _ :: reqs, Ok _ :: results => record_failures now (S slot) reqs results session
  | _, _ => session
  end.
End manager.

(** ** Replies *)

(** What [on_reply] does while it holds [sessions]. *)
Inductive Replied :=
| Late                                                    (* no such session *)
| Refused (e : OrchestrationError.t)
| Unsettled (session : AwaitSession.t) (e : OrchestrationError.t) (* recorded, but the claim did not settle *)
| Kept (session : AwaitSession.t)
| Complete (session : AwaitSession.t) (tx : nat).

(** The checks of a reply against the request of its slot. *)
Definition check_reply (session : AwaitSession.t) (slot : Z) (reply : ReplyResult.t) : result OrchestrationError.t unit :=
  _ ← guard_err (negb (ReplyResult.slot reply =? slot))
        (OrchestrationError.InvalidRequest ("reply.slot (" +:+ z_to_string (ReplyResult.slot reply) +:+
           ") does not match function slot parameter (" +:+ z_to_string slot +:+ ")"));
  match AwaitSession.expected session !! Z.to_nat slot with
  | None => Ok tt
  | Some req =>
      _ ← guard_err (negb (String.eqb (ReplyResult.source reply) (request_source req)))
            (OrchestrationError.InvalidRequest ("reply.source '" +:+ sanitize_for_error (ReplyResult.source reply) +:+
               "' does not match expected '" +:+ sanitize_for_error (request_source req) +:+ "' for slot " +:+ z_to_string slot));
      match req with
      | AwaitRequest.ComponentFinished _ =>
          guard_err (negb (bool_decide (ReplyResult.payload reply = [])))
            (OrchestrationError.InvalidRequest ("ComponentFinished slot " +:+ z_to_string slot +:+
               " must be status-only (empty payload); got " +:+ z_to_string (size_of (ReplyResult.payload reply)) +:+ " bytes"))
      | AwaitRequest.AgentRequest _ => Ok tt
      end
  end.

(** The reply as it is recorded: the task id is the request's. *)
Definition attributed (session : AwaitSession.t) (slot : Z) (reply : ReplyResult.t) : ReplyResult.t :=
  set_task_id (AwaitSession.expected session !! Z.to_nat slot ≫= await_request_task_id) reply.

Definition record_error (sid : string) (slot : Z) (e : RecordReplyError.t) : OrchestrationError.t :=
  OrchestrationError.InvalidRequest ("slot " +:+ z_to_string slot +:+
    match e with
    | RecordReplyError.OutOfBounds => " out of bounds for session " +:+ sid
    | RecordReplyError.AlreadyRecorded => " already has a recorded reply for session " +:+ sid +:+ " (overwrite forbidden)"
    end).

(** [settled] is the claim's answer, when the reply comes with a claim. *)
Definition reply_section (sid : string) (slot : Z) (reply : ReplyResult.t) (settled : option (result string unit))
    (now : Z) (ss : gmap string SessionEntry) : Replied :=
  match ss !! sid with
  | None => Late
  | Some (session, tx) =>
      match check_reply session slot reply with
      | Err e => Refused e
      | Ok _ =>
          match AwaitSession.record_reply slot (attributed session slot reply) session with
          | Err e => Refused (record_error sid slot e)
          | Ok session =>
              match settled with
              | Some (Err code) => Unsettled session (OrchestrationError.Downstream code)
              | _ =>
                  let session := AwaitSession.set_last_activity now session in
                  if AwaitSession.is_complete session then Complete session tx else Kept session
              end
          end
      end
  end.

(** A session's [Completed] result and event. *)
Definition completed_result (session : AwaitSession.t) (now : Z) : AwaitResult.t :=
  AwaitResult.mk (AwaitSession.id session) (AwaitOptions.mode (AwaitSession.options session)) (snapshot_replies session now)
    AwaitSessionStatus.Completed now.

Definition satisfied_event (session : AwaitSession.t) (r : AwaitResult.t) : AwaitEvent.t :=
  AwaitEvent.AwaitSatisfied (AwaitSession.agent_id session) (AwaitSession.caller_run_id session) (AwaitResult.session_id r)
    (await_mode_kebab (AwaitResult.mode r)) (size_of (AwaitResult.replies r)).

(** The owner of a session a reply completed. *)
Definition complete_owner (session : AwaitSession.t) (tx : nat) (now : Z) (back : Final) : Owner.t :=
  let r := completed_result session now in
  Owner.mk session tx [Detach; Decrement; Resolve] (Some (satisfied_event session r)) (Ok r) back.

(** What the caller of [on_reply] makes of its answer. *)
Definition reply_final (sid : string) (origin : Origin) (r : result OrchestrationError.t unit) : Final :=
  match origin with
  | Direct | ByClaim => Answered r
  | BySend _ => Sent (Ok tt)
  | ByComponent => Resolved (match r with Ok _ => Some sid | Err _ => None end)
  end.

(** ** Routing *)

(** A candidate slot: creation instant, slot, session, source. *)
Notation Candidate := (Z * nat * string * string)%type.

Section order.
Context `{SessionOrder}.

(** A slot that waits for [source]. *)
Definition slot_matches (source_bare : string) (session : AwaitSession.t) (i : nat) (req : AwaitRequest.t) : bool :=
  match req with
  | AwaitRequest.AgentRequest a =>
      starts_with "agent:" (AgentAwaitRequest.target a)
      && String.eqb (bare_agent_name (AgentAwaitRequest.target a)) source_bare
      && bool_decide (AwaitSession.received session !! i = Some None)
  | AwaitRequest.ComponentFinished _ => false
  end.

(** [key < (bt, bs)]. *)
Definition is_better (created_at : Z) (i : nat) (best : option Candidate) : bool :=
  match best with
  | Some (bt, bs, _, _) => (created_at <? bt) || ((created_at =? bt) && (i <? bs)%nat)
  | None => true
  end.

(** The inner loop of [try_route_reply]. *)
Fixpoint route_slots (source_bare sid : string) (session : AwaitSession.t) (i : nat) (reqs : list AwaitRequest.t)
    (best : option Candidate) : option Candidate :=
  match reqs with
  | [] => best
  | req :: reqs =>
      route_slots source_bare sid session (S i) reqs
        (if slot_matches source_bare session i req && is_better (AwaitSession.created_at session) i best
         then Some (AwaitSession.created_at session, i, sid, request_source req) else best)
  end.

(** The sessions [try_route_reply] looks into. *)
Definition open_for (owner : string) (session : AwaitSession.t) : bool :=
  bool_decide (AwaitSession.status session = SessionStatus.Open) && String.eqb (AwaitSession.agent_id session) owner.

Definition find_route (owner source : string) (ss : gmap string SessionEntry) : option Candidate :=
  foldl (λ best '(sid, (session, _)),
    if open_for owner session
    then route_slots (bare_agent_name source) sid session 0 (AwaitSession.expected session) best else best)
    None (iter_sessions ss).

(** The slot [resolve_component_finished] finds in a session. *)
Fixpoint component_slot (component_id : string) (session : AwaitSession.t) (idx : nat) (reqs : list AwaitRequest.t)
    : option nat :=
  match reqs with
  | [] => None
  | AwaitRequest.ComponentFinished c :: reqs =>
      if String.eqb (ComponentAwaitRequest.component_id c) component_id
         && negb (match AwaitSession.received session !! idx with Some (Some _) => true | _ => false end)
      then Some idx else component_slot component_id session (S idx) reqs
  | AwaitRequest.AgentRequest _ :: reqs => component_slot component_id session (S idx) reqs
  end.

(** ['outer: for (sid, (session, _)) in sessions.iter()]. *)
Fixpoint find_component (component_id : string) (entries : list (string * SessionEntry)) : option (string * nat) :=
  match entries with
  | [] => None
  | (sid, (session, _)) :: entries =>
      if bool_decide (AwaitSession.status session = SessionStatus.Open) then
        match component_slot component_id session 0 (AwaitSession.expected session) with
        | Some idx => Some (sid, idx)
        | None => find_component component_id entries
        end
      else find_component component_id entries
  end.

(** The sessions that await [needle]. *)
Definition awaits (needle : string) (session : AwaitSession.t) : bool :=
  bool_decide (AwaitSession.status session = SessionStatus.Open)
  && existsb (λ req, match req with
                     | AwaitRequest.AgentRequest a => String.eqb (AgentAwaitRequest.target a) needle
                     | AwaitRequest.ComponentFinished _ => false
                     end) (AwaitSession.expected session).

Definition matching_sessions (needle : string) (ss : gmap string SessionEntry) : list string :=
  omap (λ '(sid, (session, _)), if awaits needle session then Some sid else None) (iter_sessions ss).

(** ** Steps *)

Context (o : ManagerOptions.t).

Definition emit (e : AwaitEvent.t) (s : Tracker) : Tracker :=
  if ManagerOptions.event_emitter o then note (Emitted e) s else s.

(** [start] reaches [rx.await]: [on_park] fires. *)
Definition park (tid : nat) (sid : string) (s : Tracker) : Tracker := set_task (inl tid) (Park sid) (note (Parked tid) s).

(** The cleanup of the owner of a removed session, one action at a time. *)
Definition own (k : Tid) (w : Owner.t) (s : Tracker) : option Tracker :=
  let sid := AwaitSession.id (Owner.session w) in
  let next todo := Owning (Owner.mk (Owner.session w) (Owner.tx w) todo (Owner.event w) (Owner.outcome w) (Owner.back w)) in
  match Owner.todo w with
  | [] => None
  | Evict :: todo => Some (set_task k (next todo) (evict_liveness sid s))
  | Detach :: todo =>
      let s' := set_turn_batches (delete sid (turn_batches s)) s in
      Some (set_task k (next todo)
        (if ManagerOptions.turn_mailbox_dispatch o
         then match turn_batches s !! sid with Some _ => note (DetachedTurns sid) s' | None => s end
         else s))
  | Decrement :: todo =>
      Some (set_task k (next todo)
        (set_charged (delete (Owner.tx w) (charged s))
          (set_per_caller_count (decrement_caller_count (AwaitSession.agent_id (Owner.session w)) (per_caller_count s)) s)))
  | Resolve :: _ =>
      let s := match Owner.event w with Some e => emit e s | None => s end in
      Some (set_task k (Fin (Owner.back w)) (set_wires (<[Owner.tx w := Filled (Owner.outcome w)]> (wires s)) s))
  end.

(** One locked section of [start_with_run_inner]. *)
Definition start_step (tid : nat) (pc : Pc) (a : Answers.t) (s : Tracker) : option Tracker :=
  let go pc s := Some (set_task (inl tid) pc s) in
  let refuse e := go (Fin (Returned (Err (classify_admission e)))) s in
  match pc with
  | Admit q =>
      match check_start o q with
      | Err e => refuse e
      | Ok hits =>
          if MAX_SESSIONS_GLOBAL <=? Z.of_nat (size (sessions s))
          then refuse (AdmissionError.SessionLimitExceeded "global cap 1024 reached")
          else go (Lookup q hits) s
      end
  | Lookup q hits =>
      let sid := default (Answers.new_id a) (StartCall.session_id_override q) in
      match drawn s !! sid with
      | Some _ => None
      | None =>
          match prepare_session o q sid (Answers.current_session a) (clock s) (sessions s) with
          | Err e => refuse e
          | Ok session => go (Count q hits session) (draw sid tid s)
          end
      end
  | Count q hits session =>
      let caller := StartCall.caller q in
      let cur := default 0 (per_caller_count s !! caller) in
      if effective_max_inflight o <=? cur then refuse (AdmissionError.SessionLimitExceeded caller)
      else go (Insert q hits session)
             (set_charged (<[tid := caller]> (charged s))
               (set_per_caller_count (<[caller := cur + 1]> (per_caller_count s)) s))
  | Insert q hits session =>
      let sid := AwaitSession.id session in
      let dropped := match sessions s !! sid with Some (_, tx) => <[tx := Dropped]> (wires s) | None => wires s end in
      let session := still_parent (StartCall.caller q) (sessions s) session in
      go (Watch q hits sid)
        (set_opened (<[tid := session]> (opened s))
          (set_wires dropped (set_sessions (<[sid := (session, tid)]> (sessions s)) s)))
  | Watch q hits sid =>
      let idle := effective_idle_timeout o (StartCall.options q) in
      let s := set_liveness (<[sid := LivenessRec.mk (clock s) idle]> (liveness s)) s in
      let s := set_task (inr sid) (Monitor sid idle (clock s + IDLE_TICK_SECS * 1000)) s in
      let s := match hits with
               | (_, (_, cycle)) :: _ =>
                   emit (AwaitEvent.DeadlockRejected (StartCall.caller q) (StartCall.caller_run_id q)
                           ((λ h, fst (snd h)) <$> hits) cycle) s
               | [] => s
               end in
      go (Dispatch q hits sid [])
        (emit (AwaitEvent.AwaitStarted (StartCall.caller q) (StartCall.caller_run_id q) sid
                 (await_mode_kebab (AwaitOptions.mode (StartCall.options q))) (size_of (StartCall.requests q))) s)
  | Dispatch q hits sid results =>
      let reqs := StartCall.requests q in
      match reqs !! length results with
      | Some req =>
          if ManagerOptions.turn_mailbox_dispatch o then
            match dispatch_protected_slots q hits sid a (clock s) (turn_batches s) with
            | (results, batches, sent) => go (Dispatch q hits sid results) (foldr note (set_turn_batches batches s) sent)
            end
          else
            match dispatch_slot q hits sid (length results) req (Answers.deliver a) (clock s) with
            | (r, sent) => go (Dispatch q hits sid (results ++ [r])) (foldr note s sent)
            end
      | None =>
          match sessions s !! sid with
          | None => Some (park tid sid s)
          | Some (session, tx) =>
              let session := record_failures (clock s) 0 reqs results session in
              let s := set_sessions (<[sid := (session, tx)]> (sessions s)) s in
              if forallb (λ r, negb (is_ok r)) results then go (AllFailed sid (AwaitOptions.mode (StartCall.options q)) (clock s)) s
              else if AwaitSession.is_complete session then go (EarlyResolve sid (completed_result session (clock s))) s
              else Some (park tid sid s)
          end
      end
  | EarlyResolve sid r =>
      match sessions s !! sid with
      | None => Some (park tid sid s)
      | Some (session, tx) =>
          go (Owning (Owner.mk session tx [Detach; Evict; Decrement; Resolve] (Some (satisfied_event session r)) (Ok r)
                        (Returned (Ok r))))
            (set_sessions (delete sid (sessions s)) s)
      end
  | AllFailed sid mode now =>
      match sessions s !! sid with
      | None => Some (park tid sid s)
      | Some (session, tx) =>
          let r := AwaitResult.mk sid mode (snapshot_replies_all session) AwaitSessionStatus.FailedDispatch now in
          go (Owning (Owner.mk session tx [Detach; Evict; Decrement; Resolve] None (Ok r) (Returned (Ok r))))
            (set_sessions (delete sid (sessions s)) s)
      end
  | Park sid =>
      match wires s !! tid with
      | Some (Filled r) => go (Fin (Returned r)) s
      | Some Dropped => go (Fin (Returned (Err (OrchestrationError.SessionClosed "oneshot dropped")))) s
      | None => None
      end
  | _ => None
  end.

(** [on_reply], as the task [k]. *)
Definition reply_step (k : Tid) (sid : string) (slot : Z) (reply : ReplyResult.t) (origin : Origin) (a : Answers.t)
    (s : Tracker) : Tracker :=
  let fin r s := set_task k (Fin (reply_final sid origin r)) s in
  let keep session := match sessions s !! sid with
                      | Some (_, tx) => set_sessions (<[sid := (session, tx)]> (sessions s)) s
                      | None => s
                      end in
  match reply_section sid slot reply (match origin with ByClaim => Some (Answers.mark_recorded_and_settle a) | _ => None end)
          (clock s) (sessions s) with
  | Late =>
      fin (Err (OrchestrationError.NotFound sid))
        (emit (AwaitEvent.ReplyLate (sanitize_for_error (ReplyResult.source reply)) None sid slot) s)
  | Refused e => fin (Err e) s
  | Unsettled session e => fin (Err e) (keep session)
  | Kept session => fin (Ok tt) (reset_liveness sid (keep session))
  | Complete session tx =>
      set_task k (Owning (complete_owner session tx (clock s) (reply_final sid origin (Ok tt))))
        (evict_liveness sid (set_sessions (delete sid (sessions s)) s))
  end.

(** The outcome of [resolve_idle], by the session's policy. *)
Definition idle_owner (session : AwaitSession.t) (tx : nat) (idle_timeout_secs now : Z) : Owner.t :=
  let todo := [Detach; Evict; Decrement; Resolve] in
  match AwaitOptions.on_idle_timeout (AwaitSession.options session) with
  | TimeoutPolicy.Fail =>
      Owner.mk session tx todo None (Err (OrchestrationError.IdleTimeoutExceeded "idle-timeout")) Exited
  | TimeoutPolicy.ReturnPartial =>
      let session := fill_unresolved_as_timed_out now session in
      let replies := snapshot_replies_all session in
      let target :=
        default (AwaitSession.agent_id session)
          (ReplyResult.source <$> head (filter (λ r, ReplyResult.status r = ReplyStatus.TimedOut) replies)) in
      Owner.mk session tx todo
        (Some (AwaitEvent.AwaitIdleTimeout (AwaitSession.agent_id session) (AwaitSession.caller_run_id session)
                 (AwaitSession.id session) target idle_timeout_secs))
        (Ok (AwaitResult.mk (AwaitSession.id session) (AwaitOptions.mode (AwaitSession.options session)) replies
               AwaitSessionStatus.PartialTimeout now)) Exited
  end.

(** One locked section of the other calls. *)
Definition other_step (k : Tid) (pc : Pc) (a : Answers.t) (s : Tracker) : option Tracker :=
  let go pc s := Some (set_task k pc s) in
  match pc with
  | Reply sid slot reply origin => Some (reply_step k sid slot reply origin a s)
  | Route source target payload context id_bridge =>
      match find_route (bare_agent_name target) source (sessions s) with
      | Some (_, slot, sid, expected_target) =>
          go (Reply sid (Z.of_nat slot)
                (ReplyResult.mk (Z.of_nat slot) expected_target payload ReplyStatus.Completed (clock s) None) (BySend source)) s
      | None =>
          go (Deliver target (Message.mk ("send:" +:+ Answers.new_id a) (canonical_sender id_bridge source) target payload
                                context (clock s))) s
      end
  | Deliver target msg => go (Fin (Sent (Answers.deliver a))) (note (Delivered target msg) s)
  | ClaimedRoute route payload =>
      let sid := ExactReplyRoute.session_id route in
      let slot := ExactReplyRoute.slot route in
      match sessions s !! sid with
      | None => go (Fin (Answered (Err (OrchestrationError.NotFound sid)))) s
      | Some (session, _) =>
          match AwaitSession.expected session !! Z.to_nat slot with
          | Some (AwaitRequest.AgentRequest r) =>
              go (Reply sid slot
                    (ReplyResult.mk slot (AgentAwaitRequest.target r) payload ReplyStatus.Completed (clock s) None) ByClaim) s
          | _ => go (Fin (Answered (Err (OrchestrationError.InvalidRequest
                   "claimed reply route is not an agent-request slot")))) s
          end
      end
  | Component component_id =>
      match find_component component_id (iter_sessions (sessions s)) with
      | Some (sid, slot) =>
          go (Reply sid (Z.of_nat slot)
                (ReplyResult.mk (Z.of_nat slot) ("component:" +:+ component_id) [] ReplyStatus.Completed (clock s) None)
                ByComponent) s
      | None => go (Fin (Resolved None)) s
      end
  | Closing sid reason =>
      match sessions s !! sid with
      | None => go (Fin (Answered (Err (OrchestrationError.NotFound sid)))) s
      | Some (session, tx) =>
          go (Owning (Owner.mk session tx [Evict; Detach; Decrement; Resolve]
                (Some (AwaitEvent.AwaitSessionClosed (AwaitSession.agent_id session) (AwaitSession.caller_run_id session) sid reason))
                (Err (OrchestrationError.SessionClosed reason)) (Answered (Ok tt))))
            (set_sessions (delete sid (sessions s)) s)
      end
  | Beat needle =>
      let matching := matching_sessions needle (sessions s) in go (Beating needle matching matching) s
  | Beating needle sids touched =>
      match sids with
      | [] => go (Fin (Touched touched)) s
      | sid :: sids => go (Beating needle sids touched) (reset_liveness sid s)
      end
  | Monitor sid idle wake =>
      if clock s <? wake then None
      else
        match liveness s !! sid with
        | None => go (Fin Exited) s
        | Some rec =>
            if clock s - LivenessRec.last_activity rec <? LivenessRec.idle_timeout_secs rec * 1000
            then go (Monitor sid idle (clock s + IDLE_TICK_SECS * 1000)) s
            else go (Claimed sid idle) (evict_liveness sid s)
        end
  | Claimed sid idle =>
      match sessions s !! sid with
      | None => go (Fin Exited) (evict_liveness sid s)
      | Some (session, tx) =>
          go (Owning (idle_owner session tx idle (clock s))) (set_sessions (delete sid (sessions s)) s)
      end
  | Owning w => own k w s
  | _ => None
  end.

(** The beginning of a call. *)
Definition begin (c : call) : Pc :=
  match c with
  | Start q => Admit q
  | OnReply sid slot reply => Reply sid slot reply Direct
  | HandleSend source target payload context id_bridge =>
      if is_safe_id target then Route source target payload context id_bridge
      else Fin (Sent (Err (MsgError.InvalidTarget "target is not a safe agent id")))
  | RouteClaimedReply route payload => ClaimedRoute route payload
  | OnRunCompleted task_id => if contains_char ":" task_id then Fin (Resolved None) else Component task_id
  | Close sid reason => Closing sid reason
  | HeartbeatForTarget agent => Beat (if starts_with "agent:" agent then agent else "agent:" +:+ agent)
  end.

(** The [u32] arguments of a call are in range. *)
Definition typed (c : call) : bool :=
  match c with
  | OnReply _ slot reply => between 0 U32_MAX slot && between 0 U32_MAX (ReplyResult.slot reply)
  | RouteClaimedReply route _ => between 0 U32_MAX (ExactReplyRoute.slot route)
  | _ => true
  end.

Inductive act :=
| Pass (ms : Z)
| Call (tid : nat) (c : call)
| Step (k : Tid) (a : Answers.t).

Definition step (act : act) (s : Tracker) : option Tracker :=
  match act with
  | Pass ms => if 0 <=? ms then Some (set_clock (clock s + ms) s) else None
  | Call tid c =>
      match tasks s !! inl tid with
      | None => if typed c then Some (set_task (inl tid) (begin c) s) else None
      | Some _ => None
      end
  | Step k a =>
      pc ← tasks s !! k;
      match k, pc with
      | inl tid, (Admit _ | Lookup _ _ | Count _ _ _ | Insert _ _ _ | Watch _ _ _ | Dispatch _ _ _ _ | EarlyResolve _ _
                  | AllFailed _ _ _ | Park _) => start_step tid pc a s
      | _, _ => other_step k pc a s
      end
  end.

(** The states schedules lead to. *)
Inductive reachable (now : Z) : Tracker → Prop :=
| reach_start : reachable now (tracker_new now)
| reach_step act s s' : reachable now s → step act s = Some s' → reachable now s'.

(** A schedule, for evaluation. *)
Fixpoint run_schedule (acts : list act) (s : Tracker) : option Tracker :=
  match acts with
  | [] => Some s
  | act :: acts => s' ← step act s; run_schedule acts s'
  end.

Lemma tracker_schedule_reachable now acts : ∀ s s', reachable now s → run_schedule acts s = Some s' → reachable now s'.
Proof.
  induction acts as [|act acts IH]; intros s s' Hs; simpl; [by intros [= <-]|].
  intros (s1 & Ha & Hrun)%bind_Some. eapply IH; [|exact Hrun]. by eapply reach_step.
Qed.
End order.
