(* ===== verification/AwaitDemo.v ===== *)
(** * A run of the session manager

    The concrete schedule the theorems about await sessions are tried on. *)
From S2P Require Import Prelude RustStr AgentTree AwaitData AwaitManager.
Open Scope string_scope.
Open Scope list_scope.
Open Scope Z_scope.

#[export] Existing Instance session_order_model.

Definition demo_options : ManagerOptions.t := ManagerOptions.default.

Definition demo_request (target : string) : AwaitRequest.t :=
  AwaitRequest.AgentRequest (AgentAwaitRequest.mk target [104; 105] "c-1" None).

(** Agent [a] asks [b] and [c] and wants both. *)
Definition demo_call : StartCall.t :=
  StartCall.mk None "a" None [demo_request "agent:b"; demo_request "agent:c"]
    (AwaitOptions.mk AwaitMode.AllOf (Some 60) TimeoutPolicy.ReturnPartial false) None (λ _, None).

(** The ports accept; the id drawn is [id]. *)
Definition demo_answers (id : string) : Answers.t :=
  Answers.mk id None (Ok tt) (PreparedTurnBatch.mk [] []) (Ok tt) (Ok tt).

Definition demo_steps (k : nat + string) (n : nat) : list act := replicate n (Step k (demo_answers "s1")).

(** The start runs until it parks. *)
Definition demo_open : list act := Call 0 (Start demo_call) :: demo_steps (inl 0%nat) 8.

(** Both replies arrive, and the start receives its answer. *)
Definition demo_replies : list act :=
  [Pass 1000; Call 1 (HandleSend "agent:b" "agent:a" [1] None (λ _, None))] ++ demo_steps (inl 1%nat) 2 ++
  [Call 2 (HandleSend "agent:c" "agent:a" [2] None (λ _, None))] ++ demo_steps (inl 2%nat) 5 ++ demo_steps (inl 0%nat) 1.

Definition demo_run (acts : list act) : Tracker :=
  default (tracker_new 0) (run_schedule demo_options acts (tracker_new 0)).

Lemma demo_reachable acts : is_Some (run_schedule demo_options acts (tracker_new 0)) → reachable demo_options 0 (demo_run acts).
Proof.
  intros [s Hs]. unfold demo_run. rewrite Hs. eapply tracker_schedule_reachable; [apply reach_start|exact Hs].
Qed.

(** Evaluates a step or a schedule of the demonstration. *)
Ltac demo := vm_compute; first [reflexivity | eexists; reflexivity].
