(* ===== verification/AwaitRoute.v ===== *)
(** * Which slot a reply goes to

    [try_route_reply] gives a message to the oldest session of its target that
    has a slot waiting for the sender, and there to the first such slot,
    whatever the order the table is iterated in. *)
From S2P Require Import Prelude RustStr AgentTree AwaitData AwaitManager AwaitDemo.
Open Scope string_scope.
Open Scope list_scope.
Open Scope Z_scope.

(** A slot [try_route_reply] can choose. *)
Definition candidate_slot (owner source : string) (ss : gmap string SessionEntry) (c : Candidate) : Prop :=
  let '(created_at, i, sid, target) := c in
  ∃ se tx req, ss !! sid = Some (se, tx) ∧ open_for owner se = true ∧ AwaitSession.expected se !! i = Some req ∧
    slot_matches (bare_agent_name source) se i req = true ∧
    created_at = AwaitSession.created_at se ∧ target = request_source req.

(** [(b.0, b.1) <= (c.0, c.1)]. *)
Definition no_later (b c : Candidate) : Prop :=
  b.1.1.1 < c.1.1.1 ∨ b.1.1.1 = c.1.1.1 ∧ (b.1.1.2 ≤ c.1.1.2)%nat.

(** [best] is a first one of [C]. *)
Definition best_of (C : Candidate → Prop) (best : option Candidate) : Prop :=
  match best with Some b => C b ∧ ∀ c, C c → no_later b c | None => ∀ c, ¬ C c end.

Lemma best_of_iff (C C' : Candidate → Prop) best : (∀ c, C c ↔ C' c) → best_of C best → best_of C' best.
Proof. intros HC. destruct best as [b|]; simpl; [intros [Hb Hle]|intros Hno]; [split|]; naive_solver. Qed.

(** One more candidate. *)
Lemma best_of_add C best created_at i sid target :
  best_of C best →
  best_of (λ c, C c ∨ c = (created_at, i, sid, target))
    (if is_better created_at i best then Some (created_at, i, sid, target) else best).
Proof.
  intros Hbest. destruct best as [[[[bt bs] bsid] btg]|]; simpl in *.
  - destruct Hbest as [Hb Hle]. case_match eqn:Hcmp; simpl.
    + rewrite orb_true_iff, andb_true_iff, Z.ltb_lt, Z.eqb_eq, Nat.ltb_lt in Hcmp.
      split; [by right|]. intros c [Hc| ->]; [|right; done]. specialize (Hle c Hc). unfold no_later in *. simpl in *. lia.
    + rewrite orb_false_iff, andb_false_iff, Z.ltb_ge, Z.eqb_neq, Nat.ltb_ge in Hcmp.
      split; [by left|]. intros c [Hc| ->]; [by apply Hle|]. unfold no_later. simpl. lia.
  - split; [by right|]. intros c [Hc| ->]; [by destruct (Hbest c)|by right].
Qed.

Definition slots_from (source_bare sid : string) (se : AwaitSession.t) (i : nat) (reqs : list AwaitRequest.t) (c : Candidate) : Prop :=
  ∃ j req, reqs !! j = Some req ∧ slot_matches source_bare se (i + j) req = true ∧
    c = (AwaitSession.created_at se, (i + j)%nat, sid, request_source req).

Lemma route_slots_best source_bare sid se reqs : ∀ i C best,
  best_of C best →
  best_of (λ c, C c ∨ slots_from source_bare sid se i reqs c) (route_slots source_bare sid se i reqs best).
Proof.
  induction reqs as [|req reqs IH]; intros i C best Hbest; simpl.
  - revert Hbest. apply best_of_iff. intros c. split; [by left|]. by intros [?|(j & ? & ? & _)].
  - set (C' c := C c ∨ slot_matches source_bare se i req = true ∧ c = (AwaitSession.created_at se, i, sid, request_source req)).
    apply (best_of_iff (λ c, C' c ∨ slots_from source_bare sid se (S i) reqs c)).
    + intros c. unfold C', slots_from. split.
      * intros [[?|[Hm ->]]|(j & r & Hj & Hm & ->)]; [by left|right..].
        -- exists 0%nat, req. by rewrite Nat.add_0_r.
        -- exists (S j), r. by rewrite Nat.add_succ_r.
      * intros [?|([|j] & r & Hj & Hm & ->)]; [by left; left|left; right|right]; simpl in Hj.
        -- simplify_eq. by rewrite Nat.add_0_r in *.
        -- exists j, r. by rewrite Nat.add_succ_r in *.
    + apply IH. destruct (slot_matches source_bare se i req); simpl.
      * eapply best_of_iff; [|by apply best_of_add]. unfold C'. naive_solver.
      * revert Hbest. apply best_of_iff. unfold C'. naive_solver.
Qed.

Section route.
Context `{SessionOrderLaws}.

(** C15: a routed reply goes to the first slot of the oldest open session of its
    target that waits for its sender, and to none only when there is none. *)
Theorem find_route_oldest owner source ss :
  best_of (candidate_slot owner source ss) (find_route owner source ss).
Proof.
  set (entry_slots (e : string * SessionEntry) c :=
    open_for owner e.2.1 = true ∧ slots_from (bare_agent_name source) e.1 e.2.1 0 (AwaitSession.expected e.2.1) c).
  assert (∀ l C best, best_of C best → best_of (λ c, C c ∨ ∃ e, e ∈ l ∧ entry_slots e c)
    (foldl (λ best '(sid, (session, _)),
       if open_for owner session
       then route_slots (bare_agent_name source) sid session 0 (AwaitSession.expected session) best else best) best l)) as Hfold.
  { induction l as [|[sid [se tx]] l IH]; intros C best Hbest; simpl.
    - revert Hbest. apply best_of_iff. intros c. split; [by left|]. intros [?|(e & He & _)]; [done|by apply not_elem_of_nil in He].
    - apply (best_of_iff (λ c, (C c ∨ entry_slots (sid, (se, tx)) c) ∨ ∃ e, e ∈ l ∧ entry_slots e c)).
      { intros c. setoid_rewrite elem_of_cons. naive_solver. }
      apply IH. unfold entry_slots. simpl. destruct (open_for owner se).
      + eapply best_of_iff; [|by apply route_slots_best]. naive_solver.
      + revert Hbest. apply best_of_iff. naive_solver. }
  unfold find_route. eapply best_of_iff; [|apply (Hfold _ (λ _, False) None); by intros ? []].
  intros [[[created i] sid] target]. unfold candidate_slot. split.
  - intros [[]|([sid' [se tx]] & He & Hopen & j & req & Hj & Hm & Heq)]. rewrite iter_sessions_perm in He.
    apply elem_of_map_to_list in He. simpl in *. injection Heq as -> -> -> ->. by exists se, tx, req.
  - intros (se & tx & req & Hss & Hopen & Hreq & Hm & -> & ->). right. exists (sid, (se, tx)).
    split; [rewrite iter_sessions_perm; by apply elem_of_map_to_list|]. split; [done|]. by exists i, req.
Qed.
End route.

(** Both calls await [agent:b]; the reply goes to the older one. *)
Lemma find_route_oldest_witness :
  let s := demo_run (demo_open ++ [Pass 10; Call 7 (Start (StartCall.mk None "a" None [demo_request "agent:b"]
    (AwaitOptions.mk AwaitMode.AnyOf None TimeoutPolicy.Fail true) None (λ _, None)))]
    ++ replicate 7 (Step (inl 7%nat) (demo_answers "s2"))) in
  find_route "a" "agent:b" (sessions s) = Some (0, 0%nat, "s1", "agent:b") ∧
  best_of (candidate_slot "a" "agent:b" (sessions s)) (find_route "a" "agent:b" (sessions s)).
Proof.
  split; [vm_compute; reflexivity|].
  apply (@find_route_oldest session_order_model session_order_model_laws).
Defined.
