(* ===== verification/AwaitLife.v ===== *)
(** * The life of an await session

    The abstract specification of [AwaitManager]: each call of [start] is in one
    [Stage], which says where the sender of its session is.  [tracks] relates a
    state of the manager to the stages; [AwaitFacts] shows that every step of
    the manager moves the stages by [stage_step]. *)
From S2P Require Import Prelude RustStr AwaitData AwaitManager.
Open Scope string_scope.
Open Scope list_scope.
Open Scope Z_scope.

(** ** Stages *)

Definition Outcome : Type := result OrchestrationError.t AwaitResult.t.

Inductive Stage :=
| Fresh                                            (* no id drawn *)
| Held (sid caller : string) (counted : bool)      (* the call holds the sender *)
| Open (sid caller : string)                       (* the table does *)
| Owned (k : Tid) (sid caller : string) (todo : list Cleanup) (outcome : Outcome) (back : Final)
| Posted (sid : string) (r : Outcome)             (* sent, not received yet *)
| Ended (sid : option string) (sent : bool) (r : Outcome).

(** One step of a call's life. *)
Inductive stage_step (t : nat) : Stage → Stage → Prop :=
| st_refuse r : stage_step t Fresh (Ended None false r)
| st_draw sid c : stage_step t Fresh (Held sid c false)
| st_full sid c : stage_step t (Held sid c false) (Ended (Some sid) false (Err (OrchestrationError.SessionLimitExceeded c)))
| st_count sid c : stage_step t (Held sid c false) (Held sid c true)
| st_open sid c : stage_step t (Held sid c true) (Open sid c)
| st_take k sid c todo outcome back : stage_step t (Open sid c) (Owned k sid c todo outcome back)
| st_clean k sid c x todo outcome back :
    stage_step t (Owned k sid c (x :: todo) outcome back) (Owned k sid c todo outcome back)
| st_answer k sid c outcome back :
    k ≠ inl t → stage_step t (Owned k sid c [Resolve] outcome back) (Posted sid outcome)
| st_answer_self sid c outcome back :
    stage_step t (Owned (inl t) sid c [Resolve] outcome back) (Ended (Some sid) true outcome)
| st_receive sid r : stage_step t (Posted sid r) (Ended (Some sid) true r).

Definition stage_sid (st : Stage) : option string :=
  match st with
  | Fresh => None
  | Held sid _ _ | Open sid _ | Owned _ sid _ _ _ _ | Posted sid _ => Some sid
  | Ended sid _ _ => sid
  end.

Definition stage_table (st : Stage) : option (string * string) :=
  match st with Open sid c => Some (sid, c) | _ => None end.

Definition stage_answer (st : Stage) : option Outcome :=
  match st with Posted _ r | Ended _ true r => Some r | _ => None end.

(** Whom the call counts for. *)
Definition stage_counted (st : Stage) : option string :=
  match st with
  | Held _ c true | Open _ c => Some c
  | Owned _ _ c todo _ _ => if decide (Decrement ∈ todo) then Some c else None
  | _ => None
  end.

(** ** What a task shows of it *)

Inductive View :=
| Idle
| ViewFresh
| ViewHeld (sid caller : string) (counted : bool)
| Waits (sid : string)
| Owns (tx : nat) (sid caller : string) (todo : list Cleanup) (outcome : Outcome) (back : Final)
| ViewEnded (r : Outcome).

Definition view (pc : Pc) : View :=
  match pc with
  | Admit _ | Lookup _ _ => ViewFresh
  | Count q _ session => ViewHeld (AwaitSession.id session) (AwaitSession.agent_id session) false
  | Insert q _ session => ViewHeld (AwaitSession.id session) (AwaitSession.agent_id session) true
  | Watch _ _ sid | Dispatch _ _ sid _ | EarlyResolve sid _ | AllFailed sid _ _ | Park sid => Waits sid
  | Owning w =>
      Owns (Owner.tx w) (AwaitSession.id (Owner.session w)) (AwaitSession.agent_id (Owner.session w)) (Owner.todo w)
        (Owner.outcome w) (Owner.back w)
  | Fin (Returned r) => ViewEnded r
  | _ => Idle
  end.

(** What call [t] itself is doing at a stage. *)
Definition stage_view (t : nat) (st : Stage) : View :=
  match st with
  | Fresh => ViewFresh
  | Held sid c b => ViewHeld sid c b
  | Open sid _ | Posted sid _ => Waits sid
  | Owned k sid c todo outcome back => if decide (k = inl t) then Owns t sid c todo outcome back else Waits sid
  | Ended _ _ r => ViewEnded r
  end.

(** The task that owns the sender, and what it shows. *)
Definition stage_owner (t : nat) (st : Stage) : option (Tid * View) :=
  match st with Owned k sid c todo outcome back => Some (k, Owns t sid c todo outcome back) | _ => None end.

(** The manager's part of a state. *)
Record Life := mkLife {
  table : gmap string (nat * string);
  answers : gmap nat Wire;
  by_call : gmap string nat;
  counted : gmap nat string;
  views : gmap Tid View
}.

Definition life_of (s : Tracker) : Life :=
  mkLife ((λ e : SessionEntry, (snd e, AwaitSession.agent_id (fst e))) <$> sessions s) (wires s) (fst <$> drawn s) (charged s)
    (view <$> tasks s).

(** An owner's cleanup ends with the answer and does nothing twice; the owner
    is the call itself or one that returns something else. *)
Definition stage_wf (t : nat) (st : Stage) : Prop :=
  match st with
  | Owned k _ _ todo outcome back =>
      NoDup todo ∧ last todo = Some Resolve ∧
      (k = inl t ∧ back = Returned outcome ∨ k ≠ inl t ∧ view (Fin back) = Idle)
  | _ => True
  end.

(** Views of tasks that are no call of [start]. *)
Definition foreign (t : nat) (v : View) : Prop :=
  match v with Idle => True | Owns tx _ _ _ _ _ => tx ≠ t | _ => False end.

Record tracks (a : Life) (L : gmap nat Stage) : Prop := {
  tr_table sid t c : table a !! sid = Some (t, c) ↔ L !! t ≫= stage_table = Some (sid, c);
  tr_answer t : answers a !! t = Filled <$> (L !! t ≫= stage_answer);
  tr_by sid t : by_call a !! sid = Some t ↔ L !! t ≫= stage_sid = Some sid;
  tr_counted t : counted a !! t = L !! t ≫= stage_counted;
  tr_owner k t sid c todo outcome back :
    views a !! k = Some (Owns t sid c todo outcome back) ↔
    L !! t ≫= stage_owner t = Some (k, Owns t sid c todo outcome back);
  tr_view t st : L !! t = Some st → views a !! inl t = Some (stage_view t st);
  tr_foreign t v : L !! t = None → views a !! inl t = Some v → foreign t v;
  tr_wf t st : L !! t = Some st → stage_wf t st
}.

Lemma tracks_new now : tracks (life_of (tracker_new now)) ∅.
Proof. split; intros *; cbn; rewrite ?fmap_empty, ?lookup_empty; naive_solver. Qed.

Section tracks.
Context (a : Life) (L : gmap nat Stage) (Ha : tracks a L).

Lemma tracks_sid t1 t2 st1 st2 sid :
  L !! t1 = Some st1 → L !! t2 = Some st2 → stage_sid st1 = Some sid → stage_sid st2 = Some sid → t1 = t2.
Proof using Ha.
  intros H1 H2 Hs1 Hs2. assert (by_call a !! sid = Some t1) as Hb1 by (apply (tr_by _ _ Ha); by rewrite H1).
  assert (by_call a !! sid = Some t2) as Hb2 by (apply (tr_by _ _ Ha); by rewrite H2). congruence.
Qed.

Lemma stage_table_sid st sid c : stage_table st = Some (sid, c) → stage_sid st = Some sid.
Proof. by destruct st; simpl; intros; simplify_eq. Qed.

(** A call's stage follows from what it shows. *)
Lemma tracks_fresh t : views a !! inl t = Some ViewFresh → L !! t = Some Fresh.
Proof using Ha.
  intros Hv. destruct (L !! t) as [st|] eqn:Hl; [|by destruct (tr_foreign _ _ Ha t _ Hl Hv)].
  pose proof (tr_view _ _ Ha t st Hl) as Hv'. destruct st; simpl in Hv'; try case_decide; naive_solver.
Qed.

Lemma tracks_held t sid c b : views a !! inl t = Some (ViewHeld sid c b) → L !! t = Some (Held sid c b).
Proof using Ha.
  intros Hv. destruct (L !! t) as [st|] eqn:Hl; [|by destruct (tr_foreign _ _ Ha t _ Hl Hv)].
  pose proof (tr_view _ _ Ha t st Hl) as Hv'. destruct st; simpl in Hv'; try case_decide; naive_solver.
Qed.

Lemma tracks_table sid t c : table a !! sid = Some (t, c) → L !! t = Some (Open sid c).
Proof using Ha.
  intros Ht. apply (tr_table _ _ Ha) in Ht. destruct (L !! t) as [st|]; [|done]. simpl in Ht.
  destruct st; simpl in Ht; naive_solver.
Qed.

Lemma tracks_waits t sid :
  views a !! inl t = Some (Waits sid) →
  by_call a !! sid = Some t ∧ ∃ st, L !! t = Some st ∧ stage_sid st = Some sid ∧ stage_view t st = Waits sid.
Proof using Ha.
  intros Hv. destruct (L !! t) as [st|] eqn:Hl; [|by destruct (tr_foreign _ _ Ha t _ Hl Hv)].
  pose proof (tr_view _ _ Ha t st Hl) as Hv'. rewrite Hv in Hv'. injection Hv' as Hv'.
  assert (stage_sid st = Some sid) as Hsid by (destruct st; simpl in *; try case_decide; congruence).
  split; [apply (tr_by _ _ Ha); by rewrite Hl|]. by exists st.
Qed.

Lemma tracks_owner k t sid c todo outcome back :
  views a !! k = Some (Owns t sid c todo outcome back) → L !! t = Some (Owned k sid c todo outcome back).
Proof using Ha.
  intros Hv. apply (tr_owner _ _ Ha) in Hv. destruct (L !! t) as [st|]; [|done]. destruct st; simpl in Hv; naive_solver.
Qed.
End tracks.

(** ** How the parts move together *)

Section moves.
Context (a : Life) (L : gmap nat Stage) (Ha : tracks a L).

Lemma tracks_idle k : views a !! k = None ∨ views a !! k = Some Idle → tracks (mkLife (table a) (answers a) (by_call a) (counted a) (<[k := Idle]> (views a))) L.
Proof using Ha.
  intros Hk. split; simpl; intros *; [apply Ha|apply Ha|apply Ha|apply Ha| | | |apply Ha].
  - destruct (decide (k0 = k)) as [->|?]; [|rewrite lookup_insert_ne by done; apply Ha].
    rewrite lookup_insert_eq, <- (tr_owner _ _ Ha). destruct Hk as [-> | ->]; done.
  - intros Hl. pose proof (tr_view _ _ Ha t st Hl) as Hv. destruct (decide (k = inl t)) as [->|?].
    + exfalso. destruct st; simpl in Hv; try case_decide; destruct Hk; congruence.
    + by rewrite lookup_insert_ne.
  - intros Hl. destruct (decide (k = inl t)) as [->|?]; [rewrite lookup_insert_eq; by intros [= <-]|].
    rewrite lookup_insert_ne by done. by apply Ha.
Qed.

(** Call [t] goes from stage [st] to [st'], if [a'] differs from [a] in what
    shows of [t] only. *)
Lemma tracks_move a' t st st' :
  L !! t = Some st → stage_wf t st' →
  (∀ sid u c, table a' !! sid = Some (u, c) ↔
     if decide (u = t) then stage_table st' = Some (sid, c) else table a !! sid = Some (u, c)) →
  (∀ u, answers a' !! u = if decide (u = t) then Filled <$> stage_answer st' else answers a !! u) →
  (∀ sid u, by_call a' !! sid = Some u ↔
     if decide (u = t) then stage_sid st' = Some sid else by_call a !! sid = Some u) →
  (∀ u, counted a' !! u = if decide (u = t) then stage_counted st' else counted a !! u) →
  views a' !! inl t = Some (stage_view t st') →
  (∀ k v, stage_owner t st' = Some (k, v) →
     views a' !! k = Some v ∧ (k = inl t ∨ views a !! k = Some Idle ∨ fst <$> stage_owner t st = Some k)) →
  (∀ k, k ≠ inl t → fst <$> stage_owner t st' ≠ Some k →
     views a' !! k = if decide (fst <$> stage_owner t st = Some k) then Some Idle else views a !! k) →
  tracks a' (<[t := st']> L).
Proof using Ha.
  intros Hl Hwf Htable Hanswer Hby Hcounted Hview Howner Hviews.
  assert (∀ k v, stage_owner t st = Some (k, v) → views a !! k = Some v) as Hold.
  { intros k v Ho. destruct st; simplify_eq/=. by apply (tr_owner _ _ Ha); rewrite Hl. }
  set (of_t v := match v with Idle => True | Owns tx _ _ _ _ _ => tx = t | _ => False end).
  assert (∀ st k v, stage_owner t st = Some (k, v) → of_t v) as Howns by (by intros [] ? ? [= <- <-]).
  assert (∀ k, k ≠ inl t → views a' !! k = views a !! k ∨
    ∃ v v', views a !! k = Some v ∧ views a' !! k = Some v' ∧ of_t v ∧ of_t v') as Hother.
  { intros k Hk. destruct (decide (fst <$> stage_owner t st' = Some k)) as [[[k' v'] [Hv' ->]]%fmap_Some|Hn]; simpl in *.
    - right. destruct (Howner _ _ Hv') as [Hv [?|[Hi|[[k'' v] [Ho ->]]%fmap_Some]]]; [done|exists Idle, v'; split_and!; [done..|by eapply Howns]|].
      simpl in *. exists v, v'. split_and!; [by apply Hold|done|by eapply Howns..].
    - rewrite (Hviews k Hk Hn). case_decide as Ho; [right|by left].
      apply fmap_Some in Ho as ([k' v] & Ho & ->). exists v, Idle. simpl in *. split_and!; [by apply Hold|done|by eapply Howns|done]. }
  split.
  - intros sid u c. rewrite Htable. case_decide; [subst; by rewrite lookup_insert_eq|rewrite lookup_insert_ne by done; apply Ha].
  - intros u. rewrite Hanswer. case_decide; [subst; by rewrite lookup_insert_eq|rewrite lookup_insert_ne by done; apply Ha].
  - intros sid u. rewrite Hby. case_decide; [subst; by rewrite lookup_insert_eq|rewrite lookup_insert_ne by done; apply Ha].
  - intros u. rewrite Hcounted. case_decide; [subst; by rewrite lookup_insert_eq|rewrite lookup_insert_ne by done; apply Ha].
  - intros k u sid c todo outcome back. destruct (decide (u = t)) as [->|Hne].
    + rewrite lookup_insert_eq. simpl. split; [|by intros [? _]%Howner].
      intros Hv. destruct (decide (k = inl t)) as [->|Hk].
      { rewrite Hview in Hv. destruct st'; simplify_eq/=. case_decide; by simplify_eq/=. }
      destruct (decide (fst <$> stage_owner t st' = Some k)) as [[[k' v'] [Hv' ->]]%fmap_Some|Hn]; simpl in *.
      { destruct (Howner _ _ Hv') as [Hv'' _]. congruence. }
      rewrite Hviews in Hv by done. case_decide as Ho; [done|]. apply (tr_owner _ _ Ha) in Hv. rewrite Hl in Hv. simpl in Hv.
      by rewrite Hv in Ho.
    + rewrite lookup_insert_ne, <- (tr_owner _ _ Ha) by done. destruct (decide (k = inl t)) as [->|Hk].
      { rewrite Hview, (tr_view _ _ Ha _ _ Hl). split; intros [= Hv]; [destruct st'|destruct st]; simplify_eq/=;
          case_decide; by simplify_eq/=. }
      destruct (Hother k Hk) as [->|(v & v' & -> & -> & Hv & Hv')]; [done|].
      split; intros [= ->]; simpl in *; congruence.
  - intros u stu Hu. destruct (decide (u = t)) as [->|Hne]; [rewrite lookup_insert_eq in Hu; by simplify_eq|].
    rewrite lookup_insert_ne in Hu by done. pose proof (tr_view _ _ Ha u stu Hu) as Hv.
    destruct (Hother (inl u)) as [->|(v & v' & Hv1 & _ & Hv2 & _)]; [by intros [= ?]|done|exfalso].
    rewrite Hv in Hv1. injection Hv1 as <-. destruct stu; simpl in Hv2; try done. by case_decide.
  - intros u v Hu Hv. destruct (decide (u = t)) as [->|Hne]; [by rewrite lookup_insert_eq in Hu|].
    rewrite lookup_insert_ne in Hu by done. destruct (Hother (inl u)) as [He|(v1 & v' & _ & Hv1 & _ & Hv2)]; [by intros [= ?]| |].
    { rewrite He in Hv. by apply (tr_foreign _ _ Ha). }
    rewrite Hv in Hv1. injection Hv1 as <-. destruct v; simpl in *; congruence.
  - intros u stu Hu. destruct (decide (u = t)) as [->|Hne]; [rewrite lookup_insert_eq in Hu; by simplify_eq|].
    rewrite lookup_insert_ne in Hu by done. by apply (tr_wf _ _ Ha).
Qed.

(** A call of [start] begins. *)
Lemma tracks_call t : views a !! inl t = None →
  tracks (mkLife (table a) (answers a) (by_call a) (counted a) (<[inl t := ViewFresh]> (views a))) (<[t := Fresh]> L).
Proof using Ha.
  intros Hv. assert (L !! t = None) as Hl.
  { destruct (L !! t) as [st|] eqn:Hl; [|done]. rewrite (tr_view _ _ Ha t st Hl) in Hv. done. }
  assert (∀ {A} (f : Stage → option A) u, f Fresh = None → <[t := Fresh]> L !! u ≫= f = L !! u ≫= f) as Hsame.
  { intros A f u Hf. destruct (decide (u = t)) as [->|?]; [by rewrite lookup_insert_eq, Hl|by rewrite lookup_insert_ne]. }
  split; simpl; intros *.
  - rewrite Hsame by done. apply Ha.
  - rewrite Hsame by done. apply Ha.
  - rewrite Hsame by done. apply Ha.
  - rewrite Hsame by done. apply Ha.
  - rewrite Hsame by done. destruct (decide (k = inl t)) as [->|?]; [|rewrite lookup_insert_ne by done; apply Ha].
    rewrite lookup_insert_eq, <- (tr_owner _ _ Ha), Hv. done.
  - rewrite lookup_insert_Some. intros [[-> <-]|[Hne Hu]]; [by rewrite lookup_insert_eq|].
    rewrite lookup_insert_ne by congruence. by apply Ha.
  - rewrite lookup_insert_None. intros [Hu Hne]. rewrite lookup_insert_ne by congruence. by apply Ha.
  - rewrite lookup_insert_Some. intros [[-> <-]|[Hne Hu]]; [done|]. by apply (tr_wf _ _ Ha).
Qed.

(** Discharge the frame conditions of [tracks_move], with the stage of the call. *)
Ltac frame Hl :=
  simpl; intros *; rewrite ?lookup_insert, ?lookup_delete; repeat case_decide; simplify_eq/=;
  rewrite ?(tr_answer _ _ Ha), ?(tr_table _ _ Ha), ?(tr_by _ _ Ha), ?(tr_counted _ _ Ha), ?Hl; simpl;
  repeat case_decide; simplify_eq/=; try done; try solve [intuition congruence].

Lemma tracks_refuse t r : views a !! inl t = Some ViewFresh →
  tracks (mkLife (table a) (answers a) (by_call a) (counted a) (<[inl t := ViewEnded r]> (views a))) (<[t := Ended None false r]> L).
Proof using Ha. intros Hl%(tracks_fresh _ _ Ha). by apply (tracks_move _ t Fresh); frame Hl. Qed.

Lemma tracks_table_at t sid st u d : L !! t = Some st → stage_sid st = Some sid → u ≠ t → L !! u ≫= stage_table ≠ Some (sid, d).
Proof using Ha.
  intros Hl Hsid Hne Hu. destruct (L !! u) as [st'|] eqn:Hl'; [|done]. simpl in Hu. apply stage_table_sid in Hu.
  destruct Hne. by eapply tracks_sid.
Qed.

Lemma tracks_draw t sid c : views a !! inl t = Some ViewFresh → by_call a !! sid = None →
  tracks (mkLife (table a) (answers a) (<[sid := t]> (by_call a)) (counted a) (<[inl t := ViewHeld sid c false]> (views a)))
    (<[t := Held sid c false]> L).
Proof using Ha.
  intros Hl%(tracks_fresh _ _ Ha) Hsid. apply (tracks_move _ t Fresh); frame Hl.
  rewrite <- (tr_by _ _ Ha), Hsid. naive_solver.
Qed.

Lemma tracks_full t sid c : views a !! inl t = Some (ViewHeld sid c false) →
  let r := Err (OrchestrationError.SessionLimitExceeded c) in
  tracks (mkLife (table a) (answers a) (by_call a) (counted a) (<[inl t := ViewEnded r]> (views a))) (<[t := Ended (Some sid) false r]> L).
Proof using Ha. intros Hl%(tracks_held _ _ Ha) r. apply (tracks_move _ t (Held sid c false)); frame Hl. Qed.

Lemma tracks_count t sid c : views a !! inl t = Some (ViewHeld sid c false) →
  tracks (mkLife (table a) (answers a) (by_call a) (<[t := c]> (counted a)) (<[inl t := ViewHeld sid c true]> (views a)))
    (<[t := Held sid c true]> L).
Proof using Ha. intros Hl%(tracks_held _ _ Ha). apply (tracks_move _ t (Held sid c false)); frame Hl. Qed.

Lemma tracks_open t sid c : views a !! inl t = Some (ViewHeld sid c true) →
  tracks (mkLife (<[sid := (t, c)]> (table a)) (answers a) (by_call a) (counted a) (<[inl t := Waits sid]> (views a)))
    (<[t := Open sid c]> L).
Proof using Ha.
  intros Hl%(tracks_held _ _ Ha). apply (tracks_move _ t (Held sid c true)); frame Hl.
  pose proof (tracks_table_at _ _ _ u c0 Hl eq_refl). naive_solver.
Qed.

Lemma tracks_take k t sid c todo outcome back :
  table a !! sid = Some (t, c) → NoDup todo → last todo = Some Resolve → Decrement ∈ todo →
  (k = inl t ∧ back = Returned outcome ∨ views a !! k = Some Idle ∧ view (Fin back) = Idle) →
  tracks (mkLife (delete sid (table a)) (answers a) (by_call a) (counted a)
            (<[k := Owns t sid c todo outcome back]> (views a))) (<[t := Owned k sid c todo outcome back]> L).
Proof using Ha.
  intros Hl%(tracks_table _ _ Ha) Hnd Hlast Hdec Hk. pose proof (tr_view _ _ Ha _ _ Hl) as Hv.
  apply (tracks_move _ t (Open sid c)); frame Hl.
  pose proof (tracks_table_at _ _ _ u c0 Hl eq_refl). naive_solver.
Qed.

Lemma tracks_clean k sid c tx x todo outcome back :
  views a !! k = Some (Owns tx sid c (x :: todo) outcome back) → x ≠ Resolve →
  tracks (mkLife (table a) (answers a) (by_call a) (if decide (x = Decrement) then delete tx (counted a) else counted a)
            (<[k := Owns tx sid c todo outcome back]> (views a))) (<[tx := Owned k sid c todo outcome back]> L).
Proof using Ha.
  intros Hl%(tracks_owner _ _ Ha) Hx.
  pose proof (tr_wf _ _ Ha _ _ Hl) as ([Hhd Hnd]%NoDup_cons & Hlast & Hback).
  assert (last todo = Some Resolve) as Hlast' by (destruct todo; [simpl in Hlast; congruence|by rewrite last_cons_cons in Hlast]).
  pose proof (tr_view _ _ Ha _ _ Hl) as Hv. simpl in Hv.
  apply (tracks_move _ tx (Owned k sid c (x :: todo) outcome back)); frame Hl.
  all: rewrite ?lookup_delete_eq, ?lookup_delete_ne, ?(tr_counted _ _ Ha) by done; try done; try set_solver.
  all: rewrite decide_False in Hv by done; done.
Qed.

Lemma tracks_answer k sid c tx todo outcome back :
  views a !! k = Some (Owns tx sid c (Resolve :: todo) outcome back) →
  tracks (mkLife (table a) (<[tx := Filled outcome]> (answers a)) (by_call a) (counted a) (<[k := view (Fin back)]> (views a)))
    (<[tx := if decide (k = inl tx) then Ended (Some sid) true outcome else Posted sid outcome]> L).
Proof using Ha.
  intros Hl%(tracks_owner _ _ Ha).
  pose proof (tr_wf _ _ Ha _ _ Hl) as ([Hhd Hnd]%NoDup_cons & Hlast & Hback).
  assert (todo = []) as ->.
  { destruct todo as [|y todo]; [done|]. rewrite last_cons_cons in Hlast. by destruct Hhd; apply last_Some_elem_of. }
  pose proof (tr_view _ _ Ha _ _ Hl) as Hv. simpl in Hv.
  destruct (decide (k = inl tx)) as [->|Hk].
  - destruct Hback as [[_ ->]|[? _]]; [|done]. simpl view.
    apply (tracks_move _ tx (Owned (inl tx) sid c [Resolve] outcome (Returned outcome))); frame Hl; set_solver.
  - destruct Hback as [[? _]|[_ ->]]; [done|].
    apply (tracks_move _ tx (Owned k sid c [Resolve] outcome back)); frame Hl; set_solver.
Qed.

Lemma tracks_posted t sid r :
  views a !! inl t = Some (Waits sid) → answers a !! t = Some (Filled r) → L !! t = Some (Posted sid r).
Proof using Ha.
  intros Hv Hr. destruct (L !! t) as [st|] eqn:Hl; [|by destruct (tr_foreign _ _ Ha t _ Hl Hv)].
  pose proof (tr_view _ _ Ha t st Hl) as Hv'. rewrite (tr_answer _ _ Ha), Hl in Hr.
  f_equal. destruct st as [| | | | |? [] ?]; simpl in *; repeat case_decide; congruence.
Qed.

Lemma tracks_receive t sid r :
  views a !! inl t = Some (Waits sid) → answers a !! t = Some (Filled r) →
  tracks (mkLife (table a) (answers a) (by_call a) (counted a) (<[inl t := ViewEnded r]> (views a)))
    (<[t := Ended (Some sid) true r]> L).
Proof using Ha. intros Hv Hr. pose proof (tracks_posted t sid r Hv Hr) as Hl. apply (tracks_move _ t (Posted sid r)); frame Hl. Qed.
End moves.
