(* ===== verification/AwaitEffects.v ===== *)
(** * The steps of the session manager, by effect

    The step function of [AwaitManager] presented as a relation with one rule
    per effect on the shared tables: what is read, what is written, where the
    task goes.  Invariants are proved by cases on it. *)
From S2P Require Import Prelude RustStr AgentTree AwaitData AwaitManager.
Open Scope string_scope.
Open Scope list_scope.
Open Scope Z_scope.

Section effects.
Context `{SessionOrder} (o : ManagerOptions.t).

(** A step that changes no shared table but batches and notes. *)
Inductive quiet (s : Tracker) : Tid → Pc → Pc → Prop :=
| quiet_refused t q e : quiet s (inl t) (Admit q) (Fin (Returned (Err e)))
| quiet_admitted t q hits : check_start o q = Ok hits → quiet s (inl t) (Admit q) (Lookup q hits)
| quiet_not_prepared t q hits e : quiet s (inl t) (Lookup q hits) (Fin (Returned (Err e)))
| quiet_full t q hits session :
    quiet s (inl t) (Count q hits session)
      (Fin (Returned (Err (OrchestrationError.SessionLimitExceeded (StartCall.caller q)))))
| quiet_dispatch t q hits sid results results' :
    (length results < length (StartCall.requests q))%nat → (length results < length results')%nat →
    quiet s (inl t) (Dispatch q hits sid results) (Dispatch q hits sid results')
| quiet_gone t q hits sid results :
    sessions s !! sid = None → (length (StartCall.requests q) ≤ length results)%nat →
    quiet s (inl t) (Dispatch q hits sid results) (Park sid)
| quiet_early t sid r : sessions s !! sid = None → quiet s (inl t) (EarlyResolve sid r) (Park sid)
| quiet_failed t sid mode now : sessions s !! sid = None → quiet s (inl t) (AllFailed sid mode now) (Park sid)
| quiet_received t sid r : wires s !! t = Some (Filled r) → quiet s (inl t) (Park sid) (Fin (Returned r))
| quiet_dropped t sid :
    wires s !! t = Some Dropped →
    quiet s (inl t) (Park sid) (Fin (Returned (Err (OrchestrationError.SessionClosed "oneshot dropped"))))
| quiet_late k sid slot reply origin e :
    sessions s !! sid = None → quiet s k (Reply sid slot reply origin) (Fin (reply_final sid origin (Err e)))
| quiet_rejected k sid slot reply origin e :
    quiet s k (Reply sid slot reply origin) (Fin (reply_final sid origin (Err e)))
| quiet_routed k source target payload context bridge created slot sid expected_target :
    find_route (bare_agent_name target) source (sessions s) = Some (created, slot, sid, expected_target) →
    quiet s k (Route source target payload context bridge)
      (Reply sid (Z.of_nat slot)
         (ReplyResult.mk (Z.of_nat slot) expected_target payload ReplyStatus.Completed (clock s) None) (BySend source))
| quiet_unrouted k source target payload context bridge msg :
    quiet s k (Route source target payload context bridge) (Deliver target msg)
| quiet_delivered k target msg r : quiet s k (Deliver target msg) (Fin (Sent r))
| quiet_claimed k route payload reply :
    quiet s k (ClaimedRoute route payload)
      (Reply (ExactReplyRoute.session_id route) (ExactReplyRoute.slot route) reply ByClaim)
| quiet_unclaimed k route payload e : quiet s k (ClaimedRoute route payload) (Fin (Answered (Err e)))
| quiet_component k component_id sid slot reply :
    quiet s k (Component component_id) (Reply sid (Z.of_nat slot) reply ByComponent)
| quiet_no_component k component_id : quiet s k (Component component_id) (Fin (Resolved None))
| quiet_not_found k sid reason e : quiet s k (Closing sid reason) (Fin (Answered (Err e)))
| quiet_beat k needle : quiet s k (Beat needle) (Beating needle (matching_sessions needle (sessions s)) (matching_sessions needle (sessions s)))
| quiet_beaten k needle touched : quiet s k (Beating needle [] touched) (Fin (Touched touched))
| quiet_evicted k sid idle wake :
    wake ≤ clock s → liveness s !! sid = None → quiet s k (Monitor sid idle wake) (Fin Exited)
| quiet_tick k sid idle wake rec :
    wake ≤ clock s → liveness s !! sid = Some rec →
    clock s - LivenessRec.last_activity rec < LivenessRec.idle_timeout_secs rec * 1000 →
    quiet s k (Monitor sid idle wake) (Monitor sid idle (clock s + IDLE_TICK_SECS * 1000)).

(** A session [se] changes in place to the last argument. *)
Inductive updates (s : Tracker) (sid : string) (se : AwaitSession.t) : Tid → Pc → Pc → AwaitSession.t → Prop :=
| up_all_failed t q hits results :
    (length (StartCall.requests q) ≤ length results)%nat →
    forallb (λ r, negb (is_ok r)) results = true →
    updates s sid se (inl t) (Dispatch q hits sid results)
      (AllFailed sid (AwaitOptions.mode (StartCall.options q)) (clock s))
      (record_failures (clock s) 0 (StartCall.requests q) results se)
| up_early t q hits results :
    (length (StartCall.requests q) ≤ length results)%nat →
    let se' := record_failures (clock s) 0 (StartCall.requests q) results se in
    AwaitSession.is_complete se' = true →
    updates s sid se (inl t) (Dispatch q hits sid results) (EarlyResolve sid (completed_result se' (clock s))) se'
| up_park t q hits results :
    (length (StartCall.requests q) ≤ length results)%nat →
    updates s sid se (inl t) (Dispatch q hits sid results) (Park sid)
      (record_failures (clock s) 0 (StartCall.requests q) results se)
| up_reply k slot reply origin se1 r now :
    check_reply se slot reply = Ok tt →
    AwaitSession.record_reply slot (attributed se slot reply) se = Ok se1 →
    updates s sid se k (Reply sid slot reply origin) (Fin (reply_final sid origin r)) (AwaitSession.set_last_activity now se1).

(** A session [se] with sender [tx] is taken out of the table by [w]. *)
Inductive takes (s : Tracker) (sid : string) (se : AwaitSession.t) (tx : nat) : Tid → Pc → Owner.t → Prop :=
| take_reply k slot reply origin se1 :
    check_reply se slot reply = Ok tt →
    AwaitSession.record_reply slot (attributed se slot reply) se = Ok se1 →
    let se' := AwaitSession.set_last_activity (clock s) se1 in
    AwaitSession.is_complete se' = true →
    takes s sid se tx k (Reply sid slot reply origin) (complete_owner se' tx (clock s) (reply_final sid origin (Ok tt)))
| take_early t r :
    takes s sid se tx (inl t) (EarlyResolve sid r)
      (Owner.mk se tx [Detach; Evict; Decrement; Resolve] (Some (satisfied_event se r)) (Ok r) (Returned (Ok r)))
| take_failed t mode now :
    let r := AwaitResult.mk sid mode (snapshot_replies_all se) AwaitSessionStatus.FailedDispatch now in
    takes s sid se tx (inl t) (AllFailed sid mode now)
      (Owner.mk se tx [Detach; Evict; Decrement; Resolve] None (Ok r) (Returned (Ok r)))
| take_close k reason e :
    takes s sid se tx k (Closing sid reason)
      (Owner.mk se tx [Evict; Detach; Decrement; Resolve] (Some e) (Err (OrchestrationError.SessionClosed reason))
         (Answered (Ok tt)))
| take_idle k idle : takes s sid se tx k (Claimed sid idle) (idle_owner se tx idle (clock s)).

Definition with_todo (w : Owner.t) (todo : list Cleanup) : Owner.t :=
  Owner.mk (Owner.session w) (Owner.tx w) todo (Owner.event w) (Owner.outcome w) (Owner.back w).

Inductive effect (s : Tracker) : Tracker → Prop :=
| eff_pass ms : 0 ≤ ms → effect s (set_clock (clock s + ms) s)
| eff_call t c : tasks s !! inl t = None → typed c = true → effect s (set_task (inl t) (begin c) s)
| eff_quiet k pc pc' tb ns :
    tasks s !! k = Some pc → quiet s k pc pc' →
    effect s (mkTracker (sessions s) (per_caller_count s) (liveness s) tb (wires s) (<[k := pc']> (tasks s)) (clock s) ns
                (drawn s) (charged s) (opened s))
| eff_draw t q hits sid current session :
    tasks s !! inl t = Some (Lookup q hits) → drawn s !! sid = None →
    prepare_session o q sid current (clock s) (sessions s) = Ok session →
    effect s (set_task (inl t) (Count q hits session) (draw sid t s))
| eff_count t q hits session :
    tasks s !! inl t = Some (Count q hits session) →
    default 0 (per_caller_count s !! StartCall.caller q) < effective_max_inflight o →
    effect s (set_task (inl t) (Insert q hits session)
      (set_charged (<[t := StartCall.caller q]> (charged s))
        (set_per_caller_count
           (<[StartCall.caller q := default 0 (per_caller_count s !! StartCall.caller q) + 1]> (per_caller_count s)) s)))
| eff_insert t q hits session ws :
    tasks s !! inl t = Some (Insert q hits session) →
    (sessions s !! AwaitSession.id session = None → ws = wires s) →
    let sid := AwaitSession.id session in
    let session := still_parent (StartCall.caller q) (sessions s) session in
    effect s (set_task (inl t) (Watch q hits sid)
      (set_opened (<[t := session]> (opened s))
        (set_wires ws (set_sessions (<[sid := (session, t)]> (sessions s)) s))))
| eff_watch t q hits sid ns :
    tasks s !! inl t = Some (Watch q hits sid) →
    let idle := effective_idle_timeout o (StartCall.options q) in
    effect s (mkTracker (sessions s) (per_caller_count s) (<[sid := LivenessRec.mk (clock s) idle]> (liveness s))
                (turn_batches s) (wires s)
                (<[inl t := Dispatch q hits sid []]> (<[inr sid := Monitor sid idle (clock s + IDLE_TICK_SECS * 1000)]> (tasks s)))
                (clock s) ns (drawn s) (charged s) (opened s))
| eff_update k pc pc' sid se tx se' lv :
    tasks s !! k = Some pc → sessions s !! sid = Some (se, tx) → updates s sid se k pc pc' se' →
    lv = liveness s ∨ lv = liveness (reset_liveness sid s) →
    ∀ ns, effect s (mkTracker (<[sid := (se', tx)]> (sessions s)) (per_caller_count s) lv (turn_batches s) (wires s)
                (<[k := pc']> (tasks s)) (clock s) ns (drawn s) (charged s) (opened s))
| eff_take k pc sid se tx w lv :
    tasks s !! k = Some pc → sessions s !! sid = Some (se, tx) → takes s sid se tx k pc w →
    lv = liveness s ∨ lv = delete sid (liveness s) →
    effect s (mkTracker (delete sid (sessions s)) (per_caller_count s) lv (turn_batches s) (wires s)
                (<[k := Owning w]> (tasks s)) (clock s) (notes s) (drawn s) (charged s) (opened s))
| eff_clean k w x todo tb ns :
    tasks s !! k = Some (Owning w) → Owner.todo w = x :: todo → x ≠ Resolve →
    effect s (mkTracker (sessions s)
                (if decide (x = Decrement)
                 then decrement_caller_count (AwaitSession.agent_id (Owner.session w)) (per_caller_count s)
                 else per_caller_count s)
                (if decide (x = Evict) then delete (AwaitSession.id (Owner.session w)) (liveness s) else liveness s)
                tb (wires s) (<[k := Owning (with_todo w todo)]> (tasks s)) (clock s) ns (drawn s)
                (if decide (x = Decrement) then delete (Owner.tx w) (charged s) else charged s) (opened s))
| eff_answer k w todo :
    tasks s !! k = Some (Owning w) → Owner.todo w = Resolve :: todo →
    ∀ ns, effect s (mkTracker (sessions s) (per_caller_count s) (liveness s) (turn_batches s)
                (<[Owner.tx w := Filled (Owner.outcome w)]> (wires s)) (<[k := Fin (Owner.back w)]> (tasks s)) (clock s) ns
                (drawn s) (charged s) (opened s))
| eff_reset k needle sid sids touched :
    tasks s !! k = Some (Beating needle (sid :: sids) touched) →
    effect s (set_task k (Beating needle sids touched) (reset_liveness sid s))
| eff_claim k sid idle wake rec :
    tasks s !! k = Some (Monitor sid idle wake) → wake ≤ clock s → liveness s !! sid = Some rec →
    LivenessRec.idle_timeout_secs rec * 1000 ≤ clock s - LivenessRec.last_activity rec →
    effect s (set_task k (Claimed sid idle) (evict_liveness sid s))
| eff_missed k sid idle :
    tasks s !! k = Some (Claimed sid idle) → sessions s !! sid = None →
    effect s (set_task k (Fin Exited) (evict_liveness sid s)).

(** ** The step function has these effects *)

(** [emit] adds at most a note. *)
Lemma emit_notes e s : ∃ ns, emit o e s = mkTracker (sessions s) (per_caller_count s) (liveness s) (turn_batches s) (wires s)
  (tasks s) (clock s) ns (drawn s) (charged s) (opened s).
Proof. unfold emit. case_match; [by eexists|]. exists (notes s). by destruct s. Qed.

Lemma foldr_note_notes l s : ∃ ns, foldr note s l = mkTracker (sessions s) (per_caller_count s) (liveness s)
  (turn_batches s) (wires s) (tasks s) (clock s) ns (drawn s) (charged s) (opened s).
Proof.
  induction l as [|n l (ns & IH)]; simpl; [exists (notes s); by destruct s|]. rewrite IH. by eexists.
Qed.


(** A quiet step, whatever it notes. *)
Lemma quiet_effect s k pc pc' : tasks s !! k = Some pc → quiet s k pc pc' → effect s (set_task k pc' s).
Proof. intros Hk Hq. destruct s. by apply (eff_quiet _ k pc pc'). Qed.

Lemma park_effect s t pc sid : tasks s !! inl t = Some pc → quiet s (inl t) pc (Park sid) → effect s (park t sid s).
Proof. intros Hk Hq. unfold park, set_task, note. simpl. by apply (eff_quiet _ _ pc (Park sid)). Qed.

Lemma take_outcomes_length plan : ∀ reqs outcomes, length (take_outcomes reqs plan outcomes) = length plan.
Proof. induction plan as [|[r|d] plan IH]; intros reqs [|x outcomes]; simpl; by rewrite ?IH. Qed.

Lemma protected_length q hits sid a now tb :
  length (dispatch_protected_slots q hits sid a now tb).1.1 = length (StartCall.requests q).
Proof.
  unfold dispatch_protected_slots, fail_batch.
  repeat case_match; simpl; by rewrite ?length_imap, take_outcomes_length, length_imap.
Qed.

Lemma start_step_effect t pc a s s' :
  tasks s !! inl t = Some pc → start_step o t pc a s = Some s' → effect s s'.
Proof.
  intros Hk Hs. destruct pc as [q|q hits|q hits se|q hits se|q hits sid|q hits sid results|sid r|sid mode now|sid| | | | | | | | | | | |];
    simpl in Hs; try discriminate.
  - destruct (check_start o q) as [hits|e] eqn:Hq; [|by simplify_eq; apply (quiet_effect _ _ _ _ Hk); constructor].
    case_match; simplify_eq; apply (quiet_effect _ _ _ _ Hk); by constructor.
  - case_match eqn:Hd; [done|]. destruct (prepare_session _ _ _ _ _ _) as [se|e] eqn:Hp; simplify_eq.
    + by eapply eff_draw.
    + apply (quiet_effect _ _ _ _ Hk); constructor.
  - case_match; simplify_eq; [apply (quiet_effect _ _ _ _ Hk); constructor|]. apply eff_count; [done|]. lia.
  - simplify_eq. eapply eff_insert; [done|]. intros Hn. repeat case_match; congruence.
  - simplify_eq. match goal with |- context [emit o ?e ?s1] => destruct (emit_notes e s1) as [ns ->] end.
    destruct hits as [|[? [? ?]] hits]; simpl.
    + by apply (eff_watch s t q [] sid ns).
    + match goal with |- context [emit o ?e ?s1] => destruct (emit_notes e s1) as [ns' ->] end. match goal with |- context [Dispatch q ?h sid []] => exact (eff_watch s t q h sid ns Hk) end.
  - destruct (StartCall.requests q !! length results) as [req|] eqn:Hr.
    + apply lookup_lt_Some in Hr as Hlt. case_match eqn:Ht.
      * destruct (dispatch_protected_slots _ _ _ _ _ _) as [[rs tb] sent] eqn:Hdp. simplify_eq.
        destruct (foldr_note_notes sent (set_turn_batches tb s)) as [ns ->]. simpl. unfold set_task. simpl.
        eapply eff_quiet; [done|]. constructor; [done|]. apply (f_equal (λ x, length x.1.1)) in Hdp. simpl in Hdp. rewrite protected_length in Hdp. lia.
      * destruct (dispatch_slot _ _ _ _ _ _ _) as [r sent] eqn:Hds. simplify_eq.
        destruct (foldr_note_notes sent s) as [ns ->]. unfold set_task. simpl.
        eapply eff_quiet; [done|]. constructor; [done|]. rewrite length_app. simpl. lia.
    + apply lookup_ge_None in Hr. destruct (sessions s !! sid) as [[se tx]|] eqn:Hse.
      * repeat case_match; simplify_eq; unfold park, set_task, note; simpl.
        -- eapply (eff_update s (inl t)); [done|done| |by left]. by constructor.
        -- eapply (eff_update s (inl t)); [done|done| |by left]. by constructor.
        -- eapply (eff_update s (inl t)); [done|done| |by left]. by constructor.
      * simplify_eq. apply (park_effect _ _ _ _ Hk). by constructor.
  - destruct (sessions s !! sid) as [[se tx]|] eqn:Hse; simplify_eq.
    + eapply (eff_take s (inl t)); [done|done| |by left]. constructor.
    + apply (park_effect _ _ _ _ Hk). by constructor.
  - destruct (sessions s !! sid) as [[se tx]|] eqn:Hse; simplify_eq.
    + eapply (eff_take s (inl t)); [done|done| |by left]. constructor.
    + apply (park_effect _ _ _ _ Hk). by constructor.
  - destruct (wires s !! t) as [[|r]|] eqn:Hw; simplify_eq; apply (quiet_effect _ _ _ _ Hk); by constructor.
Qed.

Lemma with_last_activity se : AwaitSession.set_last_activity (AwaitSession.last_activity se) se = se.
Proof. by destruct se. Qed.

Lemma reply_step_effect k sid slot reply origin a s :
  tasks s !! k = Some (Reply sid slot reply origin) → effect s (reply_step o k sid slot reply origin a s).
Proof.
  intros Hk. unfold reply_step, reply_section. destruct (sessions s !! sid) as [[se tx]|] eqn:Hse.
  2:{ match goal with |- context [emit o ?e ?s1] => destruct (emit_notes e s1) as [ns ->] end.
      unfold set_task. simpl. eapply eff_quiet; [done|by constructor]. }
  destruct (check_reply se slot reply) as [[]|e] eqn:Hc; [|apply (quiet_effect _ _ _ _ Hk), quiet_rejected].
  destruct (AwaitSession.record_reply slot (attributed se slot reply) se) as [se1|e] eqn:Hr;
    [|apply (quiet_effect _ _ _ _ Hk), quiet_rejected].
  assert (∀ (now : Z) r lv, lv = liveness s ∨ lv = liveness (reset_liveness sid s) →
    effect s (mkTracker (<[sid := (AwaitSession.set_last_activity now se1, tx)]> (sessions s)) (per_caller_count s) lv
      (turn_batches s) (wires s) (<[k := Fin (reply_final sid origin r)]> (tasks s)) (clock s) (notes s) (drawn s) (charged s) (opened s)))
    as Hup.
  { intros now r lv Hlv. eapply (eff_update s k); [done|done| |done]. by econstructor. }
  assert (effect s (set_task k (Owning (complete_owner (AwaitSession.set_last_activity (clock s) se1) tx (clock s)
      (reply_final sid origin (Ok tt)))) (evict_liveness sid (set_sessions (delete sid (sessions s)) s))) ∨
    AwaitSession.is_complete (AwaitSession.set_last_activity (clock s) se1) = false) as Hcomplete.
  { destruct (AwaitSession.is_complete _) eqn:Hcomp; [left|by right].
    eapply (eff_take s k); [done|done| |by right]. by econstructor. }
  assert (∀ e, effect s (set_task k (Fin (reply_final sid origin (Err e))) (set_sessions (<[sid := (se1, tx)]> (sessions s)) s)))
    as Hunsettled.
  { intros e. rewrite <- (with_last_activity se1) at 1. apply (Hup _ (Err e)). by left. }
  assert (effect s (set_task k (Fin (reply_final sid origin (Ok tt))) (reset_liveness sid
    (set_sessions (<[sid := (AwaitSession.set_last_activity (clock s) se1, tx)]> (sessions s)) s)))) as Hkept.
  { apply (Hup _ (Ok tt)). by right. }
  repeat case_match; simplify_eq; try apply Hunsettled; try exact Hkept;
    destruct Hcomplete as [Hcomplete|Hcomplete]; try exact Hcomplete; congruence.
Qed.

Lemma own_effect k w s s' : tasks s !! k = Some (Owning w) → own o k w s = Some s' → effect s s'.
Proof.
  intros Hk. unfold own. destruct (Owner.todo w) as [|x todo] eqn:Ht; [done|].
  destruct x; intros Hs; simplify_eq.
  - by apply (eff_clean s k w Evict todo (turn_batches s) (notes s)).
  - assert (∀ tb ns, effect s (mkTracker (sessions s) (per_caller_count s) (liveness s) tb (wires s)
      (<[k := Owning (with_todo w todo)]> (tasks s)) (clock s) ns (drawn s) (charged s) (opened s))) as Hd.
    { intros tb ns. by apply (eff_clean s k w Detach todo tb ns). }
    repeat case_match; destruct s; apply Hd.
  - by apply (eff_clean s k w Decrement todo (turn_batches s) (notes s)).
  - destruct (Owner.event w) as [e|].
    + destruct (emit_notes e s) as [ns ->]. by apply (eff_answer s k w todo).
    + by apply (eff_answer s k w todo).
Qed.

Lemma other_step_effect k pc a s s' :
  tasks s !! k = Some pc → other_step o k pc a s = Some s' → effect s s'.
Proof.
  intros Hk Hs. destruct pc; simpl in Hs; try discriminate.
  - simplify_eq. by apply reply_step_effect.
  - destruct (find_route _ _ _) as [[[[created slot] sid] target']|] eqn:Hr; simplify_eq;
      apply (quiet_effect _ _ _ _ Hk); by econstructor.
  - simplify_eq. eapply (eff_quiet s k); [done|by constructor].
  - destruct (sessions s !! _) as [[se tx]|]; simplify_eq; [|apply (quiet_effect _ _ _ _ Hk); constructor].
    repeat case_match; simplify_eq; apply (quiet_effect _ _ _ _ Hk); constructor.
  - destruct (find_component _ _) as [[sid slot]|]; simplify_eq; apply (quiet_effect _ _ _ _ Hk); constructor.
  - destruct (sessions s !! sid) as [[se tx]|] eqn:Hse; simplify_eq; [|apply (quiet_effect _ _ _ _ Hk); constructor].
    eapply (eff_take s k); [done|done| |by left]. constructor.
  - simplify_eq. apply (quiet_effect _ _ _ _ Hk). constructor.
  - destruct sids as [|sid sids]; simplify_eq; [apply (quiet_effect _ _ _ _ Hk); constructor|by apply eff_reset].
  - case_match eqn:Hw; [done|]. apply Z.ltb_ge in Hw.
    destruct (liveness s !! sid) as [rec|] eqn:Hl; [|simplify_eq; apply (quiet_effect _ _ _ _ Hk); by constructor].
    case_match eqn:He; simplify_eq.
    + apply (quiet_effect _ _ _ _ Hk). apply (quiet_tick _ _ _ _ _ rec); [done|done|]. by apply Z.ltb_lt in He.
    + apply Z.ltb_ge in He. by eapply eff_claim.
  - destruct (sessions s !! sid) as [[se tx]|] eqn:Hse; simplify_eq; [|by eapply eff_missed].
    eapply (eff_take s k); [done|done| |by left]. constructor.
  - by eapply own_effect.
Qed.

(** Every step has an effect. *)
Lemma step_effect act s s' : step o act s = Some s' → effect s s'.
Proof.
  destruct act as [ms|t c|k a]; simpl.
  - case_match eqn:Hms; intros; simplify_eq. apply eff_pass. lia.
  - repeat case_match; intros; simplify_eq. by apply eff_call.
  - intros (pc & Hk & Hs)%bind_Some.
    destruct k as [t|sid]; [|exact (other_step_effect (inr sid) pc a s s' Hk Hs)].
    destruct pc; first [exact (start_step_effect t _ a s s' Hk Hs) | exact (other_step_effect (inl t) _ a s s' Hk Hs)].
Qed.

(** Rule induction on reachable states, over effects. *)
Lemma reachable_ind_effect (now : Z) (P : Tracker → Prop) :
  P (tracker_new now) → (∀ s s', reachable o now s → P s → effect s s' → P s') → ∀ s, reachable o now s → P s.
Proof. intros H0 Hstep s. induction 1 as [|act s s' Hr IH Hs]; [done|]. by eapply Hstep, step_effect. Qed.
End effects.
