(* ===== verification/AwaitReplies.v ===== *)
(** * The replies of a session

    What [AwaitSession]'s slots hold, and what the results built from them say:
    each reply names its slot and the source of that slot's request, in the
    order of the slots. *)
From S2P Require Import Prelude RustStr AgentTree AwaitData AwaitManager.
Open Scope string_scope.
Open Scope list_scope.
Open Scope Z_scope.

(** ** Well-formed slots *)

(** A reply that belongs in slot [i] of these requests. *)
Definition belongs (expected : list AwaitRequest.t) (i : nat) (r : ReplyResult.t) : Prop :=
  ReplyResult.slot r = Z.of_nat i ∧ ∃ req, expected !! i = Some req ∧ ReplyResult.source r = request_source req.

Record session_wf (se : AwaitSession.t) : Prop := {
  sw_length : length (AwaitSession.received se) = length (AwaitSession.expected se);
  sw_slot i r : AwaitSession.received se !! i = Some (Some r) → belongs (AwaitSession.expected se) i r
}.

(** The parts of a session no reply changes. *)
Record same_request (se se' : AwaitSession.t) : Prop := {
  sr_id : AwaitSession.id se' = AwaitSession.id se;
  sr_parent : AwaitSession.parent_session se' = AwaitSession.parent_session se;
  sr_agent : AwaitSession.agent_id se' = AwaitSession.agent_id se;
  sr_options : AwaitSession.options se' = AwaitSession.options se;
  sr_expected : AwaitSession.expected se' = AwaitSession.expected se
}.

#[export] Instance same_request_pre : PreOrder same_request.
Proof. split; [by split|]. intros x y z [] []. split; congruence. Qed.

(** A reply in a slot stays there. *)
Definition keeps_slots (se se' : AwaitSession.t) : Prop :=
  ∀ i r, AwaitSession.received se !! i = Some (Some r) → AwaitSession.received se' !! i = Some (Some r).

#[export] Instance keeps_slots_pre : PreOrder keeps_slots.
Proof. split; [by intros ???|]. intros x y z H1 H2 i r Hi. by apply H2, H1. Qed.

(** What [record_reply] does when it accepts. *)
Lemma record_reply_Ok slot r se se' :
  AwaitSession.record_reply slot r se = Ok se' →
  let i := Z.to_nat slot in
  AwaitSession.received se !! i = Some None ∧ se' = AwaitSession.set_received (<[i := Some r]> (AwaitSession.received se)) se.
Proof. unfold AwaitSession.record_reply. repeat case_match; naive_solver. Qed.

Lemma set_received_wf se i r :
  session_wf se → belongs (AwaitSession.expected se) i r →
  session_wf (AwaitSession.set_received (<[i := Some r]> (AwaitSession.received se)) se).
Proof.
  intros [Hl Hs] Hr. split; simpl; [by rewrite length_insert|].
  intros j r' [(-> & [= ->] & _)|[_ Hj]]%list_lookup_insert_Some; [done|by apply Hs].
Qed.

Lemma set_received_keeps se i r :
  AwaitSession.received se !! i = Some None →
  keeps_slots se (AwaitSession.set_received (<[i := Some r]> (AwaitSession.received se)) se).
Proof.
  intros Hi j r' Hj. simpl. rewrite list_lookup_insert_ne; [done|]. intros ->. by rewrite Hi in Hj.
Qed.

(** [on_reply]'s checks and the record it then makes. *)
Lemma reply_recorded se slot reply se' :
  session_wf se → 0 ≤ slot → check_reply se slot reply = Ok tt →
  AwaitSession.record_reply slot (attributed se slot reply) se = Ok se' →
  session_wf se' ∧ same_request se se' ∧ keeps_slots se se' ∧ AwaitSession.status se' = AwaitSession.status se ∧
  AwaitSession.received se' !! Z.to_nat slot = Some (Some (attributed se slot reply)).
Proof.
  intros Hwf Hslot Hc [Hi ->]%record_reply_Ok.
  assert (belongs (AwaitSession.expected se) (Z.to_nat slot) (attributed se slot reply)) as Hb.
  { unfold check_reply in Hc. apply bind_unit_Ok in Hc as [Hs Hc]. apply guard_err_Ok in Hs. b2p.
    apply lookup_lt_Some in Hi as Hlt. rewrite (sw_length _ Hwf) in Hlt. apply lookup_lt_is_Some in Hlt as [req Hreq].
    rewrite Hreq in Hc. apply bind_unit_Ok in Hc as [Hsrc _]. apply guard_err_Ok in Hsrc. b2p.
    split; [simpl; lia|]. by exists req. }
  split_and!; [by apply set_received_wf|by split|by apply set_received_keeps|done|].
  simpl. apply list_lookup_insert_eq. by apply lookup_lt_Some in Hi.
Qed.

(** ** Recording what could not be dispatched *)

Lemma record_failures_spec now reqs : ∀ slot results se,
  session_wf se → drop slot (AwaitSession.expected se) = reqs →
  let se' := record_failures now slot reqs results se in
  session_wf se' ∧ same_request se se' ∧ keeps_slots se se' ∧ AwaitSession.status se' = AwaitSession.status se ∧
  (forallb (λ r, negb (is_ok r)) results = true → (length reqs ≤ length results)%nat →
   ∀ i, (slot ≤ i < length (AwaitSession.expected se))%nat → ∃ r, AwaitSession.received se' !! i = Some (Some r)).
Proof.
  induction reqs as [|req reqs IH]; intros slot results se Hwf Hd.
  { simpl. split_and!; [done..|]. intros _ _ i Hi. apply (f_equal length) in Hd. rewrite length_drop in Hd. simpl in Hd. lia. }
  assert (AwaitSession.expected se !! slot = Some req) as Hreq.
  { rewrite <- (Nat.add_0_r slot), <- lookup_drop, Hd. done. }
  assert (drop (S slot) (AwaitSession.expected se) = reqs) as Hd'.
  { rewrite <- Nat.add_1_r, <- drop_drop, Hd. done. }
  destruct results as [|[|e] results]; simpl.
  - split_and!; [done..|]. intros _ Hlen. simpl in Hlen. lia.
  - destruct (IH (S slot) results se Hwf Hd') as (H1 & H2 & H3 & H4 & _). by split_and!.
  - set (r := dispatch_failure slot req e now).
    assert (belongs (AwaitSession.expected se) slot r) as Hb by (split; [done|by exists req]).
    destruct (AwaitSession.record_reply (Z.of_nat slot) r se) as [se1|err] eqn:Hrec.
    + apply record_reply_Ok in Hrec as [Hnone ->]. rewrite Nat2Z.id in *.
      edestruct (IH (S slot) results) as (H1 & H2 & H3 & H4 & H5); [by apply set_received_wf|exact Hd'|].
      split_and!; [done|by etrans; [|exact H2]; split|by etrans; [apply set_received_keeps|]|done|].
      intros Hall Hlen i Hi. simpl in Hlen. destruct (decide (i = slot)) as [->|]; [|apply H5; simpl; [done|lia..]].
      exists r. apply H3. simpl. apply list_lookup_insert_eq. by apply lookup_lt_Some in Hnone.
    + edestruct (IH (S slot) results se) as (H1 & H2 & H3 & H4 & H5); [done..|].
      split_and!; [done..|]. intros Hall Hlen i Hi. simpl in Hlen.
      destruct (decide (i = slot)) as [->|]; [|apply H5; simpl; [done|lia..]].
      unfold AwaitSession.record_reply in Hrec. rewrite Nat2Z.id in Hrec.
      destruct (AwaitSession.received se !! slot) as [[r'|]|] eqn:Hr'; simplify_eq; [exists r'; by apply H3|].
      apply lookup_ge_None in Hr'. rewrite (sw_length _ Hwf) in Hr'. lia.
Qed.

(** ** Results *)

(** The slots of a list of replies. *)
Definition slots_of (rs : list ReplyResult.t) : list Z := ReplyResult.slot <$> rs.

(** The replies are those of some slots, in their order, each from the source
    its request names. *)
Definition replies_ok (expected : list AwaitRequest.t) (rs : list ReplyResult.t) : Prop :=
  slots_of rs `sublist_of` (Z.of_nat <$> seq 0 (length expected)) ∧
  ∀ r, r ∈ rs → ∃ i, belongs expected i r.

(** Every slot has its reply. *)
Definition replies_full (expected : list AwaitRequest.t) (rs : list ReplyResult.t) : Prop :=
  slots_of rs = Z.of_nat <$> seq 0 (length expected).

Lemma recorded_slots rs : ∀ k,
  (∀ i r, rs !! i = Some (Some r) → ReplyResult.slot r = Z.of_nat (k + i)) →
  slots_of (omap id rs) `sublist_of` (Z.of_nat <$> seq k (length rs)) ∧
  (Forall is_Some rs → slots_of (omap id rs) = Z.of_nat <$> seq k (length rs)).
Proof.
  induction rs as [|[r|] rs IH]; intros k Hk; [done|..].
  - destruct (IH (S k)) as [IH1 IH2]; [intros i r' Hi; rewrite (Hk (S i) r' Hi); lia|].
    assert (ReplyResult.slot r = Z.of_nat k) as Hr by (rewrite (Hk 0%nat r eq_refl); f_equal; lia).
    cbn. rewrite Hr. split; [by apply sublist_skip|]. intros [_ Hall]%Forall_cons. by rewrite <- IH2.
  - destruct (IH (S k)) as [IH1 IH2]; [intros i r' Hi; rewrite (Hk (S i) r' Hi); lia|].
    cbn. split; [by apply sublist_cons|]. intros [[? ?] _]%Forall_cons. done.
Qed.

Lemma elem_omap_id {A} (l : list (option A)) x : x ∈ omap id l ↔ ∃ i : nat, l !! i = Some (Some x).
Proof.
  rewrite list_elem_of_omap. split.
  - intros (o & (i & Hi)%list_elem_of_lookup & Ho). exists i. simpl in Ho. by subst.
  - intros (i & Hi). exists (Some x). split; [by eapply list_elem_of_lookup_2|done].
Qed.

(** [snapshot_replies_all] *)
Lemma snapshot_all_ok se :
  session_wf se → replies_ok (AwaitSession.expected se) (snapshot_replies_all se) ∧
  (Forall is_Some (AwaitSession.received se) → replies_full (AwaitSession.expected se) (snapshot_replies_all se)).
Proof.
  intros Hwf. destruct (recorded_slots (AwaitSession.received se) 0) as [H1 H2].
  { intros i r Hi. by destruct (sw_slot _ Hwf i r Hi). }
  rewrite (sw_length _ Hwf) in H1, H2. split; [|exact H2]. split; [exact H1|].
  intros r (i & Hi)%elem_omap_id. exists i. by apply Hwf.
Qed.

Lemma replies_full_ok expected rs :
  replies_full expected rs → (∀ r, r ∈ rs → ∃ i, belongs expected i r) → replies_ok expected rs.
Proof. intros Hf Hr. split; [by rewrite Hf|done]. Qed.

(** Filling the slots that are still empty, by index. *)
Lemma imap_fill_ok expected (f : nat → ReplyResult.t) rs :
  length rs = length expected →
  (∀ i r, rs !! i = Some (Some r) → belongs expected i r) →
  (∀ i, (i < length expected)%nat → belongs expected i (f i)) →
  let rs' := imap (λ i (o : option ReplyResult.t), default (f i) o) rs in
  replies_ok expected rs' ∧ replies_full expected rs'.
Proof.
  intros Hl Hr Hf rs'.
  assert (∀ i r, rs' !! i = Some r → belongs expected i r) as Hb.
  { intros i r. unfold rs'. rewrite list_lookup_imap. intros (o & Ho & ->)%fmap_Some.
    apply lookup_lt_Some in Ho as Hlt. rewrite Hl in Hlt. destruct o as [r|]; [by apply Hr|by apply Hf]. }
  assert (replies_full expected rs') as Hfull.
  { apply list_eq. intros i. unfold slots_of. rewrite !list_lookup_fmap. destruct (rs' !! i) as [r|] eqn:Hi; simpl.
    - apply lookup_lt_Some in Hi as Hlt. unfold rs' in Hlt. rewrite length_imap, Hl in Hlt.
      rewrite lookup_seq_lt by done. simpl. by destruct (Hb i r Hi) as [-> _].
    - apply lookup_ge_None in Hi. unfold rs' in Hi. rewrite length_imap, Hl in Hi. by rewrite lookup_seq_ge. }
  split; [|done]. apply replies_full_ok; [done|]. intros r (i & Hi)%list_elem_of_lookup. exists i. by apply Hb.
Qed.

Lemma detached_belongs expected i now : (i < length expected)%nat →
  belongs expected i (materialize_detached_loser (expected !! i) (Z.of_nat i) now).
Proof. intros [req Hreq]%lookup_lt_is_Some. rewrite Hreq. split; [done|by exists req]. Qed.

(** A complete session that wants every reply has every reply. *)
Lemma complete_all se :
  AwaitSession.is_complete se = true → AwaitOptions.mode (AwaitSession.options se) = AwaitMode.AllOf →
  Forall is_Some (AwaitSession.received se).
Proof.
  unfold AwaitSession.is_complete. intros Hc Hm. rewrite Hm in Hc. apply Forall_forall. intros r Hr.
  rewrite forallb_forall in Hc. apply (bool_decide_eq_true_1 (is_Some r)). by apply Hc, list_elem_of_In.
Qed.

(** [snapshot_replies] of a complete session. *)
Lemma snapshot_ok se now :
  session_wf se → AwaitSession.is_complete se = true →
  let rs := snapshot_replies se now in
  replies_ok (AwaitSession.expected se) rs ∧
  match AwaitOptions.mode (AwaitSession.options se) with
  | AwaitMode.AllOf => replies_full (AwaitSession.expected se) rs
  | AwaitMode.AnyOf =>
      (∃ r, r ∈ rs ∧ ReplyResult.status r = ReplyStatus.Completed) ∧
      (AwaitOptions.keep_losers (AwaitSession.options se) = true → replies_full (AwaitSession.expected se) rs)
  end.
Proof.
  intros Hwf Hc rs. pose proof (complete_all se Hc) as Hall. unfold rs, snapshot_replies, AwaitSession.is_complete in *.
  destruct (snapshot_all_ok se Hwf) as [[Hsub Hbel] Hfull]. unfold snapshot_replies_all in *.
  destruct (AwaitOptions.mode (AwaitSession.options se)).
  - split; [done|]. by apply Hfull, Hall.
  - apply existsb_exists in Hc as (o & Ho%list_elem_of_In & Hcomp).
    destruct o as [w|]; [|done]. apply bool_decide_eq_true in Hcomp. apply list_elem_of_lookup in Ho as (i & Hi).
    destruct (AwaitOptions.keep_losers (AwaitSession.options se)).
    + destruct (imap_fill_ok (AwaitSession.expected se)
        (λ i, materialize_detached_loser (AwaitSession.expected se !! i) (Z.of_nat i) now) (AwaitSession.received se))
        as [H1 H2]; [apply Hwf..|intros j Hj; by apply detached_belongs|].
      assert (imap (λ i (o : option ReplyResult.t), default (materialize_detached_loser (AwaitSession.expected se !! i) (Z.of_nat i) now) o)
        (AwaitSession.received se) = imap (λ idx slot, match slot with Some rr => rr | None =>
        materialize_detached_loser (AwaitSession.expected se !! idx) (Z.of_nat idx) now end) (AwaitSession.received se)) as Heq
        by (apply imap_ext; by intros ? []).
      rewrite Heq in H1, H2. split; [done|]. split; [|done]. exists w. split; [|done].
      apply list_elem_of_lookup. exists i. by rewrite list_lookup_imap, Hi.
    + split; [|split; [|done]].
      * split; [|by intros r [_ Hr]%list_elem_of_filter; apply Hbel].
        etrans; [|exact Hsub]. apply fmap_sublist, sublist_filter.
      * exists w. split; [|done]. apply list_elem_of_filter. split; [done|]. apply elem_omap_id. by exists i.
Qed.

(** [fill_unresolved_as_timed_out] fills every slot. *)
Lemma fill_ok now se :
  session_wf se →
  let se' := fill_unresolved_as_timed_out now se in
  same_request se se' ∧ keeps_slots se se' ∧
  replies_ok (AwaitSession.expected se) (snapshot_replies_all se') ∧
  replies_full (AwaitSession.expected se) (snapshot_replies_all se').
Proof.
  intros Hwf se'. split; [by split|]. split.
  { intros i r Hi. unfold se'. simpl. rewrite list_lookup_imap, Hi. done. }
  assert (∀ i, (i < length (AwaitSession.expected se))%nat → belongs (AwaitSession.expected se) i (timed_out_reply se now i)) as Hb.
  { intros i [req Hreq]%lookup_lt_is_Some. unfold timed_out_reply. rewrite Hreq. split; [done|by exists req]. }
  destruct (imap_fill_ok (AwaitSession.expected se) (timed_out_reply se now) (AwaitSession.received se)) as [H1 H2];
    [apply Hwf..|exact Hb|].
  assert (∀ (f : nat → ReplyResult.t) rs, omap id (imap (λ i o, Some (default (f i) o)) rs) = imap (λ i (o : option _), default (f i) o) rs) as Heq.
  { intros f rs. revert f. induction rs as [|x rs IH]; intros f; [done|]. cbn. f_equal. apply (IH (f ∘ S)). }
  unfold snapshot_replies_all, se', fill_unresolved_as_timed_out. simpl. by rewrite Heq.
Qed.

(** ** Answers *)

(** What a result says of the session as it was opened. *)
Record result_ok (se : AwaitSession.t) (res : AwaitResult.t) : Prop := {
  ro_id : AwaitResult.session_id res = AwaitSession.id se;
  ro_mode : AwaitResult.mode res = AwaitOptions.mode (AwaitSession.options se);
  ro_replies : replies_ok (AwaitSession.expected se) (AwaitResult.replies res);
  ro_status :
    match AwaitResult.status res with
    | AwaitSessionStatus.Completed =>
        match AwaitResult.mode res with
        | AwaitMode.AllOf => replies_full (AwaitSession.expected se) (AwaitResult.replies res)
        | AwaitMode.AnyOf =>
            (∃ r, r ∈ AwaitResult.replies res ∧ ReplyResult.status r = ReplyStatus.Completed) ∧
            (AwaitOptions.keep_losers (AwaitSession.options se) = true →
             replies_full (AwaitSession.expected se) (AwaitResult.replies res))
        end
    | AwaitSessionStatus.PartialTimeout =>
        AwaitOptions.on_idle_timeout (AwaitSession.options se) = TimeoutPolicy.ReturnPartial ∧
        replies_full (AwaitSession.expected se) (AwaitResult.replies res)
    | AwaitSessionStatus.FailedDispatch => replies_full (AwaitSession.expected se) (AwaitResult.replies res)
    | AwaitSessionStatus.FailedTimeout | AwaitSessionStatus.Cancelled => False
    end
}.

(** The answers a session's [oneshot] can carry. *)
Definition outcome_ok (se : AwaitSession.t) (r : result OrchestrationError.t AwaitResult.t) : Prop :=
  match r with
  | Ok res => result_ok se res
  | Err (OrchestrationError.SessionClosed _) => True
  | Err (OrchestrationError.IdleTimeoutExceeded _) =>
      AwaitOptions.on_idle_timeout (AwaitSession.options se) = TimeoutPolicy.Fail
  | Err _ => False
  end.

Lemma result_ok_same se se' res : same_request se se' → result_ok se' res → result_ok se res.
Proof. intros Hs []. split; rewrite <- ?(sr_id _ _ Hs), <- ?(sr_options _ _ Hs), <- ?(sr_expected _ _ Hs); done. Qed.

Lemma completed_result_ok se now :
  session_wf se → AwaitSession.is_complete se = true → result_ok se (completed_result se now).
Proof.
  intros Hwf Hc. destruct (snapshot_ok se now Hwf Hc) as [H1 H2]. by split.
Qed.

(** The owner of an idle session. *)
Lemma idle_owner_spec se tx idle now :
  session_wf se →
  let w := idle_owner se tx idle now in
  same_request se (Owner.session w) ∧ keeps_slots se (Owner.session w) ∧ outcome_ok se (Owner.outcome w) ∧
  Owner.tx w = tx ∧ Owner.todo w = [Detach; Evict; Decrement; Resolve] ∧ Owner.back w = Exited.
Proof.
  intros Hwf. destruct (fill_ok now se Hwf) as (H1 & H2 & H3 & H4). unfold idle_owner.
  destruct (AwaitOptions.on_idle_timeout (AwaitSession.options se)) eqn:Hp; simpl; split_and!; try done.
Qed.
