(* ===== verification/AwaitFacts.v ===== *)
(** * The invariant of the session manager

    [sane]: every session in the table, every owner and every answer belongs to
    the session its call opened.  With [AwaitLife.tracks] it is kept by every
    effect, and every effect moves the stages of the calls by at most one
    [stage_step]: the manager refines [AwaitLife]. *)
From S2P Require Import Prelude RustStr AgentTree AwaitData AwaitManager AwaitLife AwaitEffects AwaitReplies.
Open Scope string_scope.
Open Scope list_scope.
Open Scope Z_scope.

(** ** What each place in the code knows *)

(** A session as [start] builds it. *)
Record fresh_session (q : StartCall.t) (se : AwaitSession.t) : Prop := {
  fs_agent : AwaitSession.agent_id se = StartCall.caller q;
  fs_options : AwaitSession.options se = StartCall.options q;
  fs_expected : AwaitSession.expected se = StartCall.requests q;
  fs_received : AwaitSession.received se = replicate (length (StartCall.requests q)) None;
  fs_status : AwaitSession.status se = SessionStatus.Open
}.

(** The session call [t] opened. *)
Definition has_opened (s : Tracker) (t : nat) (P : AwaitSession.t → Prop) : Prop := ∃ se0, opened s !! t = Some se0 ∧ P se0.

Definition owner_sane (s : Tracker) (w : Owner.t) : Prop :=
  has_opened s (Owner.tx w) (λ se0, same_request se0 (Owner.session w) ∧ outcome_ok se0 (Owner.outcome w)).

Definition pc_sane (s : Tracker) (k : Tid) (pc : Pc) : Prop :=
  match k with
  | inl t =>
      match pc with
      | Admit _ | Lookup _ _ => opened s !! t = None
      | Count q _ se | Insert q _ se => opened s !! t = None ∧ fresh_session q se
      | Watch q _ sid | Dispatch q _ sid _ =>
          has_opened s t (λ se0, AwaitSession.id se0 = sid ∧ AwaitSession.expected se0 = StartCall.requests q ∧
                                 AwaitSession.options se0 = StartCall.options q)
      | EarlyResolve sid r =>
          has_opened s t (λ se0, AwaitSession.id se0 = sid ∧ result_ok se0 r) ∧
          ∀ se, sessions s !! sid = Some (se, t) → AwaitOptions.mode (AwaitSession.options se) = AwaitMode.AllOf →
            Forall is_Some (AwaitSession.received se)
      | AllFailed sid mode _ =>
          has_opened s t (λ se0, AwaitSession.id se0 = sid ∧ mode = AwaitOptions.mode (AwaitSession.options se0)) ∧
          ∀ se, sessions s !! sid = Some (se, t) → Forall is_Some (AwaitSession.received se)
      | Park sid => has_opened s t (λ se0, AwaitSession.id se0 = sid)
      | Reply _ slot _ _ => 0 ≤ slot
      | ClaimedRoute route _ => 0 ≤ ExactReplyRoute.slot route
      | Owning w => owner_sane s w
      | Monitor _ _ _ | Claimed _ _ => False
      | _ => True
      end
  | inr sid =>
      match pc with
      | Monitor sid' _ _ | Claimed sid' _ => sid' = sid
      | Owning w => owner_sane s w ∧ AwaitSession.id (Owner.session w) = sid ∧ Owner.back w = Exited
      | Fin Exited => True
      | _ => False
      end
  end.

(** A start whose monitor runs. *)
Definition watched (pc : Pc) : Prop :=
  match pc with
  | Dispatch _ _ _ _ | EarlyResolve _ _ | AllFailed _ _ _ | Park _ | Owning _ | Fin (Returned _) => True
  | _ => False
  end.

Record sane (s : Tracker) : Prop := {
  sn_session sid se t :
    sessions s !! sid = Some (se, t) →
    AwaitSession.id se = sid ∧ session_wf se ∧ AwaitSession.status se = SessionStatus.Open ∧
    has_opened s t (λ se0, same_request se0 se);
  sn_task k pc : tasks s !! k = Some pc → pc_sane s k pc;
  sn_wire t r : wires s !! t = Some (Filled r) → has_opened s t (λ se0, outcome_ok se0 r);
  sn_opened t : is_Some (opened s !! t) → is_Some (tasks s !! inl t);
  sn_monitor sid : is_Some (tasks s !! inr sid) →
    ∃ t n pc, drawn s !! sid = Some (t, n) ∧ tasks s !! inl t = Some pc ∧ watched pc
}.

Lemma sane_new now : sane (tracker_new now).
Proof. split; intros *; cbn; rewrite ?lookup_empty; try done; intros [? ?]; done. Qed.

(** ** Frames *)

Lemma has_opened_mono s s' t (P Q : AwaitSession.t → Prop) :
  opened s ⊆ opened s' → (∀ se, P se → Q se) → has_opened s t P → has_opened s' t Q.
Proof. intros Hsub HPQ (se & Hse & HP). exists se. split; [by eapply lookup_weaken|by apply HPQ]. Qed.

(** A start about to take its own session out. *)
Definition before_take (sid : string) (pc : Pc) : Prop :=
  match pc with EarlyResolve sid' _ | AllFailed sid' _ _ => sid' = sid | _ => False end.

(** What [pc_sane] needs to survive a step of another task. *)
Lemma pc_sane_frame s s' k pc :
  opened s ⊆ opened s' →
  (∀ t, k = inl t → opened s !! t = None → opened s' !! t = None) →
  (∀ sid t se, k = inl t → before_take sid pc → sessions s' !! sid = Some (se, t) →
     ∃ se', sessions s !! sid = Some (se', t) ∧ AwaitSession.options se' = AwaitSession.options se ∧
       (Forall is_Some (AwaitSession.received se') → Forall is_Some (AwaitSession.received se))) →
  pc_sane s k pc → pc_sane s' k pc.
Proof.
  intros Hsub Hnone Hsess. destruct k as [t|sid]; destruct pc; simpl; unfold owner_sane; try done;
    try (by apply Hnone); try (intros Ho; eapply has_opened_mono; [exact Hsub| |exact Ho]; done).
  - intros [? ?]. split; [by apply Hnone|done].
  - intros [? ?]. split; [by apply Hnone|done].
  - intros [Ho Hall]. split; [eapply has_opened_mono; [exact Hsub| |exact Ho]; done|]. intros se Hse Hm.
    destruct (Hsess sid t se eq_refl eq_refl Hse) as (se' & Hse' & Hopt & Himp). apply Himp, Hall; [done|by rewrite Hopt].
  - intros [Ho Hall]. split; [eapply has_opened_mono; [exact Hsub| |exact Ho]; done|]. intros se Hse.
    destruct (Hsess sid t se eq_refl eq_refl Hse) as (se' & Hse' & _ & Himp). by apply Himp, Hall.
  - intros (Ho & ? & ?). split; [eapply has_opened_mono; [exact Hsub| |exact Ho]; done|done].
Qed.

Lemma keeps_slots_full se se' :
  length (AwaitSession.received se') = length (AwaitSession.received se) → keeps_slots se se' →
  Forall is_Some (AwaitSession.received se) → Forall is_Some (AwaitSession.received se').
Proof.
  intros Hl Hk. rewrite !Forall_lookup. intros Hall i o Hi. apply lookup_lt_Some in Hi as Hlt. rewrite Hl in Hlt.
  apply lookup_lt_is_Some in Hlt as [x Hx]. destruct (Hall i x Hx) as [r ->]. apply Hk in Hx. rewrite Hx in Hi. by simplify_eq.
Qed.

Lemma prepare_session_spec o q sid cur now ss se :
  prepare_session o q sid cur now ss = Ok se → fresh_session q se ∧ AwaitSession.id se = sid.
Proof.
  unfold prepare_session. rewrite bind_unit_Ok. intros [_ H].
  destruct (resolve_parent q cur ss) as [p d]. rewrite !bind_unit_Ok in H. destruct H as (_ & _ & [= <-]). done.
Qed.

Lemma still_parent_same caller ss se :
  let se' := still_parent caller ss se in
  AwaitSession.id se' = AwaitSession.id se ∧ AwaitSession.agent_id se' = AwaitSession.agent_id se ∧
  AwaitSession.options se' = AwaitSession.options se ∧ AwaitSession.expected se' = AwaitSession.expected se ∧
  AwaitSession.received se' = AwaitSession.received se ∧ AwaitSession.status se' = AwaitSession.status se.
Proof. unfold still_parent. by repeat case_match. Qed.

Lemma fresh_session_wf q se : fresh_session q se → session_wf se.
Proof.
  intros []. split; rewrite fs_received0; [by rewrite length_replicate, fs_expected0|].
  intros i r [? _]%lookup_replicate. done.
Qed.

Section facts.
Context `{SessionOrder} (o : ManagerOptions.t).

(** An update keeps the session's request and what its slots hold. *)
Lemma updates_spec s sid se tx k pc pc' se' :
  sane s → tasks s !! k = Some pc → sessions s !! sid = Some (se, tx) → updates s sid se k pc pc' se' →
  (∀ t, k = inl t → view pc = Waits sid → t = tx) →
  session_wf se' ∧ same_request se se' ∧ keeps_slots se se' ∧ AwaitSession.status se' = AwaitSession.status se ∧
  pc_sane (mkTracker (<[sid := (se', tx)]> (sessions s)) (per_caller_count s) (liveness s) (turn_batches s) (wires s)
    (<[k := pc']> (tasks s)) (clock s) (notes s) (drawn s) (charged s) (opened s)) k pc' ∧ view pc' = view pc.
Proof.
  intros Hs Hk Hse Hup Htx. destruct (sn_session _ Hs sid se tx Hse) as (Hid & Hwf & Hopen & se0 & Hse0 & Hsame).
  pose proof (sn_task _ Hs k pc Hk) as Hpc.
  destruct Hup as [t q hits results Hlen Hfail|t q hits results Hlen se' Hc|t q hits results Hlen|k slot reply origin se1 r now Hc Hr].
  all: try (specialize (Htx t eq_refl eq_refl) as <-; destruct Hpc as (se0' & Hse0' & Hid0 & Hexp & Hopt); simplify_eq;
    destruct (record_failures_spec (clock s) (StartCall.requests q) 0 results se) as (H1 & H2 & H3 & H4 & H5);
      [done|by rewrite (sr_expected _ _ Hsame), Hexp|]; split_and!; try done; simpl).
  - split; [exists se0; split; [done|]; split; [done|by rewrite Hopt]|]. rewrite lookup_insert_eq. intros se1 [= <-].
    apply Forall_lookup. intros i x Hi. apply lookup_lt_Some in Hi as Hlt.
    rewrite (sw_length _ H1), (sr_expected _ _ H2) in Hlt.
    destruct (H5 Hfail Hlen i) as [r Hr]; [lia|]. rewrite Hr in Hi. by simplify_eq.
  - split.
    + exists se0. split; [done|]. split; [done|]. apply (result_ok_same se0 se'); [by etrans|]. by apply completed_result_ok.
    + rewrite lookup_insert_eq. intros se1 [= <-] Hall. by apply complete_all.
  - by exists se0.
  - assert (0 ≤ slot) as Hslot by (destruct k; done).
    destruct (reply_recorded se slot reply se1) as (H1 & H2 & H3 & H4 & _); [done..|].
    split_and!; [by destruct H1; split|by destruct H2; split|done..| |by destruct origin].
    destruct k; [by destruct origin|done].
Qed.

(** What a taken session's owner knows. *)
Record takes_sound (se0 se : AwaitSession.t) (tx : nat) (k : Tid) (pc : Pc) (w : Owner.t) : Prop := {
  ts_tx : Owner.tx w = tx;
  ts_todo : NoDup (Owner.todo w) ∧ last (Owner.todo w) = Some Resolve ∧ Decrement ∈ Owner.todo w;
  ts_same : same_request se (Owner.session w);
  ts_slots : keeps_slots se (Owner.session w);
  ts_outcome : outcome_ok se0 (Owner.outcome w);
  ts_back : k = inl tx ∧ Owner.back w = Returned (Owner.outcome w) ∨ view pc = Idle ∧ view (Fin (Owner.back w)) = Idle;
  ts_monitor : match k with inr _ => Owner.back w = Exited | inl _ => True end
}.

Lemma takes_spec s sid se tx k pc w :
  sane s → tasks s !! k = Some pc → sessions s !! sid = Some (se, tx) → takes s sid se tx k pc w →
  (∀ t, k = inl t → view pc = Waits sid → t = tx) →
  ∃ se0, opened s !! tx = Some se0 ∧ same_request se0 se ∧ takes_sound se0 se tx k pc w.
Proof.
  intros Hs Hk Hse Ht Htx. destruct (sn_session _ Hs sid se tx Hse) as (Hid & Hwf & Hopen & se0 & Hse0 & Hsame).
  pose proof (sn_task _ Hs k pc Hk) as Hpc. exists se0. split; [done|]. split; [done|].
  assert (∀ a b c, [a; b; Decrement; Resolve] = c → a ≠ b → a ∉ [Decrement; Resolve] → b ∉ [Decrement; Resolve] →
    NoDup c ∧ last c = Some Resolve ∧ Decrement ∈ c) as Htodo.
  { intros a b c <- Hab Ha Hb. split; [|split; [done|set_solver]]. repeat constructor; set_solver. }
  destruct Ht as [k slot reply origin se1 Hc Hr se' Hcomp|t r|t mode now r|k reason e|k idle].
  - assert (0 ≤ slot) as Hslot by (destruct k; done).
    destruct (reply_recorded se slot reply se1) as (H1 & H2 & H3 & H4 & _); [done..|].
    assert (session_wf se') as Hwf' by (by destruct H1; split).
    split; simpl; [done| |by destruct H2; split|done| | |].
    + split_and!; [repeat constructor; set_solver|done|set_solver].
    + apply (result_ok_same se0 se'); [etrans; [exact Hsame|by destruct H2; split]|]. by apply completed_result_ok.
    + right. by destruct origin.
    + by destruct k.
  - specialize (Htx t eq_refl eq_refl) as <-. destruct Hpc as [(se0' & Hse0' & Hid0 & Hr) _]. simplify_eq.
    split; simpl; [done|by apply (Htodo Detach Evict); [|set_solver..]|done..|by left|done].
  - specialize (Htx t eq_refl eq_refl) as <-. destruct Hpc as ((se0' & Hse0' & Hid0 & Hm) & Hall). simplify_eq.
    destruct (snapshot_all_ok se Hwf) as [Hok Hfull]. rewrite (sr_expected _ _ Hsame) in Hok, Hfull.
    split; simpl; [done|by apply (Htodo Detach Evict); [|set_solver..]|done..| |by left|done].
    split; simpl; [done..|by apply Hfull, Hall].
  - split; simpl; [done|by apply (Htodo Evict Detach); [|set_solver..]|done..|by right|by destruct k].
  - destruct (idle_owner_spec se tx idle (clock s) Hwf) as (H1 & H2 & H3 & H4 & H5 & H6).
    split; [done| |done|done| | |].
    + rewrite H5. by apply (Htodo Detach Evict); [|set_solver..].
    + destruct (Owner.outcome _) as [res|e]; [by eapply result_ok_same|]. destruct e; try done. simpl in *.
      by rewrite <- (sr_options _ _ Hsame).
    + right. by rewrite H6.
    + by destruct k.
Qed.

(** ** The refinement *)

(** At most one call moves, by one step of its life. *)
Definition stages_move (L L' : gmap nat Stage) : Prop :=
  L' = L ∨ (∃ t, L !! t = None ∧ L' = <[t := Fresh]> L) ∨
  ∃ t st st', L !! t = Some st ∧ stage_step t st st' ∧ L' = <[t := st']> L.

(** A task's move, on the views. *)
Lemma life_of_task s k pc :
  life_of (set_task k pc s) =
  mkLife (table (life_of s)) (answers (life_of s)) (by_call (life_of s)) (counted (life_of s)) (<[k := view pc]> (views (life_of s))).
Proof. unfold life_of. simpl. by rewrite fmap_insert. Qed.

Lemma view_at s k pc : tasks s !! k = Some pc → views (life_of s) !! k = Some (view pc).
Proof. intros Hk. simpl. by rewrite lookup_fmap, Hk. Qed.

Lemma tracks_stay a L k v : views a !! k = Some v → tracks a L →
  tracks (mkLife (table a) (answers a) (by_call a) (counted a) (<[k := v]> (views a))) L.
Proof. intros Hk Ha. rewrite insert_id by done. by destruct a. Qed.

Lemma quiet_simulates s L k pc pc' :
  sane s → tracks (life_of s) L → tasks s !! k = Some pc → quiet o s k pc pc' →
  ∃ L', tracks (life_of (set_task k pc' s)) L' ∧ stages_move L L'.
Proof.
  intros Hs Ha Hk Hq. rewrite life_of_task. apply view_at in Hk as Hv.
  assert (view pc' = view pc → ∃ L', tracks (mkLife (table (life_of s)) (answers (life_of s)) (by_call (life_of s))
    (counted (life_of s)) (<[k := view pc']> (views (life_of s)))) L' ∧ stages_move L L') as Hstay.
  { intros He. exists L. split; [|by left]. apply tracks_stay; [by rewrite He|done]. }
  destruct Hq; try (apply Hstay; by try destruct origin); simpl view in *.
  - exists (<[t := Ended None false (Err e)]> L). split; [by apply tracks_refuse|].
    right. right. exists t, Fresh, (Ended None false (Err e)). split_and!; [by eapply tracks_fresh|constructor|done].
  - exists (<[t := Ended None false (Err e)]> L). split; [by apply tracks_refuse|].
    right. right. exists t, Fresh, (Ended None false (Err e)). split_and!; [by eapply tracks_fresh|constructor|done].
  - destruct (sn_task _ Hs _ _ Hk) as [_ Hf]. rewrite <- (fs_agent _ _ Hf).
    eexists. split; [by eapply tracks_full|].
    right. right. exists t. do 2 eexists. split_and!; [by eapply tracks_held|apply st_full|done].
  - exists (<[t := Ended (Some sid) true r]> L). split; [by apply tracks_receive|].
    right. right. exists t, (Posted sid r), (Ended (Some sid) true r). split_and!; [|constructor|done].
    by eapply tracks_posted.
  - exfalso. pose proof (tr_answer _ _ Ha t) as Hw. simpl in Hw. rewrite H0 in Hw.
    destruct (L !! t) as [st|]; [|done]. simpl in Hw. by destruct (stage_answer st).
Qed.

(** A call that waits for [sid] is the one whose sender is in the table. *)
Lemma waits_sender s L t sid se tx :
  tracks (life_of s) L → views (life_of s) !! inl t = Some (Waits sid) → sessions s !! sid = Some (se, tx) → t = tx.
Proof.
  intros Ha Hv Hse. assert (table (life_of s) !! sid = Some (tx, AwaitSession.agent_id se)) as Ht by (simpl; by rewrite lookup_fmap, Hse).
  apply (tracks_table _ _ Ha) in Ht as Hl. destruct (L !! t) as [st|] eqn:Hlt; [|by destruct (tr_foreign _ _ Ha t _ Hlt Hv)].
  pose proof (tr_view _ _ Ha t st Hlt) as Hv'. eapply (tracks_sid _ _ Ha); [exact Hlt|exact Hl| |done].
  rewrite Hv in Hv'. destruct st; simpl in *; try case_decide; by simplify_eq.
Qed.

(** A session goes into the table under an id nobody else uses, so its sender
    replaces none. *)
Lemma insert_absent s L t q hits se :
  tracks (life_of s) L → tasks s !! inl t = Some (Insert q hits se) → sessions s !! AwaitSession.id se = None.
Proof.
  intros Ha Hk. apply view_at in Hk as Hv. simpl view in Hv. pose proof (tracks_held _ _ Ha _ _ _ _ Hv) as Hl.
  destruct (sessions s !! AwaitSession.id se) as [[se' t']|] eqn:Hse; [exfalso|done].
  assert (table (life_of s) !! AwaitSession.id se = Some (t', AwaitSession.agent_id se')) as Ht by (simpl; by rewrite lookup_fmap, Hse).
  apply (tracks_table _ _ Ha) in Ht. assert (t = t') as -> by (by eapply (tracks_sid _ _ Ha); [exact Hl|exact Ht|..]).
  congruence.
Qed.

Lemma insert_wires s L t q hits se ws :
  tracks (life_of s) L → tasks s !! inl t = Some (Insert q hits se) →
  (sessions s !! AwaitSession.id se = None → ws = wires s) → ws = wires s.
Proof. intros Ha Hk Hws. apply Hws. by eapply insert_absent. Qed.

(** A monitor runs only for a call that has got past [spawn_idle_task]. *)
Lemma no_monitor s L t sid pc st :
  sane s → tracks (life_of s) L → tasks s !! inl t = Some pc → L !! t = Some st → stage_sid st = Some sid →
  (watched pc → False) → tasks s !! inr sid = None.
Proof.
  intros Hs Ha Hk Hl Hsid Hw. destruct (tasks s !! inr sid) as [pcm|] eqn:Hm; [exfalso|done].
  destruct (sn_monitor _ Hs sid) as (t' & n & pc' & Hd & Hpc' & Hw'); [by eexists|].
  assert (by_call (life_of s) !! sid = Some t') as Hb by (simpl; by rewrite lookup_fmap, Hd).
  assert (by_call (life_of s) !! sid = Some t) as Hb' by (apply (tr_by _ _ Ha); by rewrite Hl).
  simplify_eq. by apply Hw.
Qed.

Lemma effect_simulates s s' L :
  sane s → tracks (life_of s) L → effect o s s' → ∃ L', tracks (life_of s') L' ∧ stages_move L L'.
Proof.
  intros Hs Ha He. destruct He as [ms Hms|t c Ht Htyped|k pc pc' tb ns Hk Hq|t q hits sid cur se Hk Hd Hp|t q hits se Hk Hc
    |t q hits se ws Hk Hws|t q hits sid ns Hk|k pc pc' sid se tx se' lv Hk Hse Hup Hlv ns|k pc sid se tx w lv Hk Hse Htk Hlv
    |k w x todo tb ns Hk Htodo Hx|k w todo Hk Htodo ns|k needle sid sids touched Hk|k sid idle wake rec Hk Hwake Hrec Hidle
    |k sid idle Hk Hse].
  - exists L. split; [exact Ha|by left].
  - rewrite life_of_task. assert (views (life_of s) !! inl t = None) as Hv by (simpl; by rewrite lookup_fmap, Ht).
    destruct c as [q| | | | | |]; simpl.
    1:{ exists (<[t := Fresh]> L). split; [by apply (tracks_call (life_of s))|]. right. left. exists t. split; [|done].
        destruct (L !! t) as [st|] eqn:Hl; [|done]. rewrite (tr_view _ _ Ha t st Hl) in Hv. done. }
    all: repeat case_match; exists L; (split; [|by left]); simpl view; (apply (tracks_idle (life_of s)); [done|by left]).
  - by destruct (quiet_simulates s L k pc pc' Hs Ha Hk Hq) as (L' & HL' & Hm); exists L'.
  - apply view_at in Hk as Hv. destruct (prepare_session_spec _ _ _ _ _ _ _ Hp) as [Hf Hid].
    exists (<[t := Held sid (AwaitSession.agent_id se) false]> L). split.
    + rewrite life_of_task. unfold life_of. simpl. rewrite fmap_insert, Hid. simpl.
      apply (tracks_draw (life_of s)); [done|done|]. simpl. by rewrite lookup_fmap, Hd.
    + right. right. exists t, Fresh, (Held sid (AwaitSession.agent_id se) false).
      split_and!; [by eapply tracks_fresh|constructor|done].
  - apply view_at in Hk as Hv. destruct (sn_task _ Hs _ _ Hk) as [_ Hf].
    exists (<[t := Held (AwaitSession.id se) (AwaitSession.agent_id se) true]> L). split.
    + rewrite life_of_task. rewrite <- (fs_agent _ _ Hf). by apply (tracks_count (life_of s)).
    + right. right. exists t. do 2 eexists. split_and!; [by eapply tracks_held|constructor|done].
  - apply view_at in Hk as Hv. simpl view in Hv. pose proof (tracks_held _ _ Ha _ _ _ _ Hv) as Hl.
    destruct (still_parent_same (StartCall.caller q) (sessions s) se) as (Hid & Hagent & _).
    assert (ws = wires s) as -> by (by eapply insert_wires).
    eexists. split; [|right; right; exists t; do 2 eexists; split_and!; [exact Hl|apply st_open|done]].
    rewrite life_of_task. unfold life_of. simpl. rewrite fmap_insert. simpl. subst session. rewrite Hagent. by apply (tracks_open (life_of s)).
  - apply view_at in Hk as Hv. simpl view in Hv. exists L. split; [|by left].
    unfold life_of. simpl. rewrite !fmap_insert. simpl view.
    set (a1 := mkLife (table (life_of s)) (answers (life_of s)) (by_call (life_of s)) (counted (life_of s))
      (<[inr sid := Idle]> (views (life_of s)))).
    assert (tracks a1 L) as Ha1.
    { apply tracks_idle; [done|left]. destruct (tracks_waits _ _ Ha t sid Hv) as (_ & st & Hl & Hsid & _).
      simpl. rewrite lookup_fmap. rewrite (no_monitor s L t sid _ st Hs Ha Hk Hl Hsid); [done|by intros []]. }
    apply (tracks_stay a1); [|done]. simpl. by rewrite lookup_insert_ne.
  - apply view_at in Hk as Hv. exists L. split; [|by left].
    destruct (updates_spec s sid se tx k pc pc' se' Hs Hk Hse Hup) as (_ & Hsame & _ & _ & _ & Hview).
    { intros t -> Hw. rewrite Hw in Hv. by eapply waits_sender. }
    unfold life_of. simpl. rewrite !fmap_insert. simpl. rewrite Hview, (sr_agent _ _ Hsame).
    rewrite (insert_id ((λ e : SessionEntry, (e.2, AwaitSession.agent_id e.1)) <$> sessions s)) by (by rewrite lookup_fmap, Hse).
    by apply (tracks_stay (life_of s)).
  - apply view_at in Hk as Hv.
    destruct (takes_spec s sid se tx k pc w Hs Hk Hse Htk) as (se0 & _ & _ & Hw).
    { intros t -> Hw. rewrite Hw in Hv. by eapply waits_sender. }
    assert (table (life_of s) !! sid = Some (tx, AwaitSession.agent_id se)) as Ht by (simpl; by rewrite lookup_fmap, Hse).
    destruct (sn_session _ Hs _ _ _ Hse) as (Hid & _). destruct (ts_todo _ _ _ _ _ _ Hw) as (Hnd & Hlast & Hdec).
    eexists. split; [|right; right; exists tx; do 2 eexists; split_and!; [by eapply tracks_table|apply st_take|done]].
    unfold life_of. simpl. rewrite fmap_insert, fmap_delete. simpl.
    rewrite (ts_tx _ _ _ _ _ _ Hw), (sr_id _ _ (ts_same _ _ _ _ _ _ Hw)), (sr_agent _ _ (ts_same _ _ _ _ _ _ Hw)), Hid.
    apply (tracks_take (life_of s)); [done..|]. destruct (ts_back _ _ _ _ _ _ Hw) as [?|[Hi ?]]; [by left|right].
    by rewrite Hv, Hi.
  - apply view_at in Hk as Hv. simpl view in Hv. rewrite Htodo in Hv. pose proof (tracks_owner _ _ Ha _ _ _ _ _ _ _ Hv) as Hl.
    eexists. split; [|right; right; eexists _, _, _; split_and!; [exact Hl|apply st_clean|done]].
    unfold life_of. simpl. rewrite fmap_insert. by eapply (tracks_clean (life_of s)).
  - apply view_at in Hk as Hv. simpl view in Hv. rewrite Htodo in Hv. pose proof (tracks_owner _ _ Ha _ _ _ _ _ _ _ Hv) as Hl.
    destruct (tr_wf _ _ Ha _ _ Hl) as ([Hhd Hnd]%NoDup_cons & Hlast & _).
    assert (todo = []) as ->.
    { destruct todo as [|y todo]; [done|]. rewrite last_cons_cons in Hlast. by destruct Hhd; apply last_Some_elem_of. }
    eexists. split; [|right; right; eexists _, _, _; split_and!; [exact Hl| |reflexivity]].
    + unfold life_of. simpl. rewrite fmap_insert. by eapply (tracks_answer (life_of s)).
    + case_decide as Hkk; [subst k; apply st_answer_self|by apply st_answer].
  - rewrite life_of_task. exists L. split; [|by left]. apply tracks_stay; [|done]. by apply view_at in Hk.
  - rewrite life_of_task. exists L. split; [|by left]. apply tracks_stay; [|done]. by apply view_at in Hk.
  - rewrite life_of_task. exists L. split; [|by left]. apply tracks_stay; [|done]. by apply view_at in Hk.
Qed.

(** ** The invariant is kept *)

(** A session of the table as [sane] wants it. *)
Definition session_sane (s : Tracker) (sid : string) (se : AwaitSession.t) (t : nat) : Prop :=
  AwaitSession.id se = sid ∧ session_wf se ∧ AwaitSession.status se = SessionStatus.Open ∧
  has_opened s t (λ se0, same_request se0 se).

Lemma session_sane_mono s s' sid se t : opened s ⊆ opened s' → session_sane s sid se t → session_sane s' sid se t.
Proof. intros Hsub (? & ? & ? & Ho). split_and!; try done. eapply has_opened_mono; [exact Hsub| |exact Ho]; done. Qed.

(** One task moves. *)
Lemma sane_move s s' k pc' :
  sane s → tasks s' = <[k := pc']> (tasks s) → drawn s ⊆ drawn s' → opened s ⊆ opened s' →
  (∀ t, k ≠ inl t → opened s' !! t = opened s !! t) →
  pc_sane s' k pc' →
  (∀ sid se t, sessions s' !! sid = Some (se, t) → session_sane s' sid se t ∧
     (k ≠ inl t → ∃ se', sessions s !! sid = Some (se', t) ∧ AwaitSession.options se' = AwaitSession.options se ∧
        (Forall is_Some (AwaitSession.received se') → Forall is_Some (AwaitSession.received se)))) →
  (∀ t r, wires s' !! t = Some (Filled r) → wires s !! t = Some (Filled r) ∨ has_opened s' t (λ se0, outcome_ok se0 r)) →
  (∀ sid, k = inr sid → is_Some (tasks s !! inr sid) ∨
     ∃ t n pc, drawn s' !! sid = Some (t, n) ∧ tasks s !! inl t = Some pc ∧ watched pc) →
  (∀ t pc sid n, k = inl t → tasks s !! inl t = Some pc → drawn s' !! sid = Some (t, n) → watched pc → watched pc') →
  sane s'.
Proof.
  intros Hs Htasks Hdrawn Hopened Hsame Hpc Hsess Hwires Hmon Hwatched.
  assert (∀ sid, (∃ t n pc, drawn s' !! sid = Some (t, n) ∧ tasks s !! inl t = Some pc ∧ watched pc) →
    ∃ t n pc, drawn s' !! sid = Some (t, n) ∧ tasks s' !! inl t = Some pc ∧ watched pc) as Hlater.
  { intros sid (t & n & pc & Hd & Ht & Hw). rewrite Htasks. destruct (decide (k = inl t)) as [->|Hk].
    - exists t, n, pc'. rewrite lookup_insert_eq. split_and!; [done..|by eapply Hwatched].
    - exists t, n, pc. by rewrite lookup_insert_ne. }
  split.
  - intros sid se t Hse. by apply Hsess.
  - intros k' pc. rewrite Htasks. intros [[<- <-]|[Hne Hk']]%lookup_insert_Some; [done|].
    apply (pc_sane_frame s); [done| | |by apply (sn_task _ Hs)].
    + intros t -> Ho. by rewrite Hsame.
    + intros sid t se -> _ Hse. by apply (Hsess sid se t Hse).
  - intros t r [Hr|Hr]%Hwires; [|exact Hr]. eapply has_opened_mono; [exact Hopened| |exact (sn_wire _ Hs t r Hr)]. done.
  - intros t Ht. rewrite Htasks. destruct (decide (k = inl t)) as [->|Hk]; [by rewrite lookup_insert_eq|].
    rewrite lookup_insert_ne by done. apply (sn_opened _ Hs). by rewrite <- Hsame.
  - intros sid Hsid. apply Hlater. rewrite Htasks in Hsid.
    assert (is_Some (tasks s !! inr sid) → ∃ t n pc, drawn s' !! sid = Some (t, n) ∧ tasks s !! inl t = Some pc ∧ watched pc) as Hold.
    { intros (t & n & pc & Hd & Ht)%(sn_monitor _ Hs). exists t, n, pc. split; [by eapply lookup_weaken|done]. }
    destruct (decide (k = inr sid)) as [->|Hk]; [by destruct (Hmon sid eq_refl) as [?|?]; [apply Hold|]|].
    rewrite lookup_insert_ne in Hsid by done. by apply Hold.
Qed.

(** A move that leaves the sessions, the answers and what was opened. *)
Lemma sane_quiet_move s s' k pc pc' :
  sane s → tasks s !! k = Some pc → tasks s' = <[k := pc']> (tasks s) → sessions s' = sessions s → wires s' = wires s →
  drawn s ⊆ drawn s' → opened s' = opened s → pc_sane s' k pc' → (watched pc → watched pc') → sane s'.
Proof.
  intros Hs Hk Ht Hse Hw Hd Ho Hpc Hwatch. apply (sane_move s s' k pc'); try done; rewrite ?Ho; try done.
  - intros sid se t Hin. rewrite Hse in Hin. split; [|by exists se].
    apply (session_sane_mono s s'); [by rewrite Ho|exact (sn_session _ Hs sid se t Hin)].
  - intros t r Hr. rewrite Hw in Hr. by left.
  - intros sid ->. left. by eexists.
  - intros t pc1 sid n -> Hk1 _. rewrite Hk in Hk1. by simplify_eq.
Qed.

Lemma quiet_pc_sane s s' k pc pc' :
  sane s → tasks s !! k = Some pc → opened s' = opened s → quiet o s k pc pc' →
  pc_sane s' k pc' ∧ (watched pc → watched pc').
Proof.
  intros Hs Hk Ho Hq. pose proof (sn_task _ Hs k pc Hk) as Hpc. unfold pc_sane, has_opened in *.
  destruct Hq; try destruct k as [t|sid']; simpl in *; rewrite ?Ho; try done; try (by destruct origin); try lia.
  all: split; [|done]; try lia.
  - destruct Hpc as (se0 & ? & ? & _). by exists se0.
  - destruct Hpc as ((se0 & ? & ? & _) & _). by exists se0.
  - destruct Hpc as ((se0 & ? & ? & _) & _). by exists se0.
Qed.

Lemma effect_opened s s' : sane s → effect o s s' → opened s ⊆ opened s' ∧ drawn s ⊆ drawn s'.
Proof.
  intros Hs He. destruct He; simpl; try done; split; try done.
  - apply insert_subseteq. done.
  - apply insert_subseteq. apply (sn_task _ Hs (inl t) _ ltac:(eassumption)).
Qed.

Lemma begin_sane s t c : opened s !! t = None → typed c = true → pc_sane s (inl t) (begin c).
Proof. intros Ho Ht. destruct c; simpl in *; repeat case_match; simpl; try done; unfold between in Ht; lia. Qed.

(** A step that only moves a task and changes no session. *)
Lemma sane_same s s' k pc pc' :
  sane s → tasks s !! k = Some pc → tasks s' = <[k := pc']> (tasks s) → sessions s' = sessions s → wires s' = wires s →
  drawn s' = drawn s → opened s' = opened s → pc_sane s' k pc' → (watched pc → watched pc') → sane s'.
Proof. intros Hs Hk Ht Hse Hw Hd Ho Hpc Hwa. eapply sane_quiet_move; try done. by rewrite Hd. Qed.

(** A watched owner that drew the id waits for its own answer. *)
Lemma answer_watched s L t w todo sid n :
  tracks (life_of s) L → tasks s !! inl t = Some (Owning w) → Owner.todo w = Resolve :: todo →
  drawn s !! sid = Some (t, n) → Owner.back w = Returned (Owner.outcome w).
Proof.
  intros Ha Hk Htodo Hd. apply view_at in Hk as Hv. simpl view in Hv.
  assert (by_call (life_of s) !! sid = Some t) as Hb%(tr_by _ _ Ha) by (simpl; by rewrite lookup_fmap, Hd).
  destruct (L !! t) as [st|] eqn:Hl; [|done]. pose proof (tr_view _ _ Ha t st Hl) as Hv'. rewrite Hv in Hv'.
  pose proof (tr_wf _ _ Ha t st Hl) as Hwf. destruct st; simpl in Hv', Hwf; try discriminate.
  destruct Hwf as (_ & _ & [[Hkk Hback]|[Hkk _]]); case_decide; simplify_eq. done.
Qed.

Lemma effect_sane s s' L : sane s → tracks (life_of s) L → effect o s s' → sane s'.
Proof.
  intros Hs Ha He. pose proof (effect_opened _ _ Hs He) as [Hopened Hdrawn].
  destruct He as [ms Hms|t c Ht Htyped|k pc pc' tb ns Hk Hq|t q hits sid cur se Hk Hd Hp|t q hits se Hk Hc
    |t q hits se ws Hk Hws|t q hits sid ns Hk idle|k pc pc' sid se tx se' lv Hk Hse Hup Hlv ns|k pc sid se tx w lv Hk Hse Htk Hlv
    |k w x todo tb ns Hk Htodo Hx|k w todo Hk Htodo ns|k needle sid sids touched Hk|k sid idle wake rec Hk Hwake Hrec Hidle
    |k sid idle Hk Hse].
  - by destruct Hs.
  - assert (opened s !! t = None) as Hno.
    { destruct (opened s !! t) eqn:Ho; [|done]. destruct (sn_opened _ Hs t) as [? ?]; [by eexists|congruence]. }
    apply (sane_move s _ (inl t) (begin c)); try done.
    + by apply begin_sane.
    + intros sid se t' Hin. split; [exact (sn_session _ Hs sid se t' Hin)|by exists se].
    + intros t' r Hr. by left.
    + intros t' pc sid n [= ->] Hpc. congruence.
  - destruct (quiet_pc_sane s (mkTracker (sessions s) (per_caller_count s) (liveness s) tb (wires s) (<[k := pc']> (tasks s))
      (clock s) ns (drawn s) (charged s) (opened s)) k pc pc' Hs Hk eq_refl Hq) as [H1 H2].
    by apply (sane_same s _ k pc pc').
  - destruct (prepare_session_spec _ _ _ _ _ _ _ Hp) as [Hf Hid].
    apply (sane_quiet_move s _ (inl t) (Lookup q hits) (Count q hits se)); try done.
    split; [exact (sn_task _ Hs _ _ Hk)|done].
  - apply (sane_same s _ (inl t) (Count q hits se) (Insert q hits se)); try done. exact (sn_task _ Hs _ _ Hk).
  - destruct (sn_task _ Hs _ _ Hk) as [Hno Hf]. 
    destruct (still_parent_same (StartCall.caller q) (sessions s) se) as (Hid & Hagent & Hopt & Hexp & Hrec & Hst).
    assert (ws = wires s) as -> by (by eapply insert_wires).
    fold session in Hid, Hagent, Hopt, Hexp, Hrec, Hst. clearbody session.
    assert (fresh_session q session) as Hf' by (destruct Hf; split; congruence).
    apply (sane_move s _ (inl t) (Watch q hits sid)); try done.
    + intros t' Hne. simpl. rewrite lookup_insert_ne; congruence.
    + exists session. simpl. rewrite lookup_insert_eq. split_and!; [done..|by destruct Hf'|by destruct Hf'].
    + intros sid' se' t' Hin. simpl in Hin. apply lookup_insert_Some in Hin as [[<- [= <- <-]]|[Hne Hin]]; (split; [|try done]).
      * split_and!; [done|by eapply fresh_session_wf|by destruct Hf'|]. exists session. simpl. by rewrite lookup_insert_eq.
      * exact (session_sane_mono s _ sid' se' t' Hopened (sn_session _ Hs sid' se' t' Hin)).
      * intros _. by exists se'.
    + intros t' r Hr. by left.
    + intros t' pc sid' n [= ->] Hpc _. rewrite Hk in Hpc. by simplify_eq.
  - set (s1 := mkTracker (sessions s) (per_caller_count s) (<[sid := LivenessRec.mk (clock s) idle]> (liveness s))
      (turn_batches s) (wires s) (<[inl t := Dispatch q hits sid []]> (tasks s)) (clock s) ns (drawn s) (charged s) (opened s)).
    assert (sane s1) as Hs1.
    { apply (sane_quiet_move s s1 (inl t) (Watch q hits sid) (Dispatch q hits sid [])); try done. exact (sn_task _ Hs _ _ Hk). }
    apply (sane_move s1 _ (inr sid) (Monitor sid idle (clock s + IDLE_TICK_SECS * 1000))); try done.
    + simpl. by apply insert_insert_ne.
    + intros sid' se' t' Hin. split; [exact (sn_session _ Hs1 sid' se' t' Hin)|by exists se'].
    + intros t' r Hr. by left.
    + intros sid' [= <-]. right. apply view_at in Hk as Hv. destruct (tracks_waits _ _ Ha t sid Hv) as [Hb _]. simpl in Hb.
      rewrite lookup_fmap in Hb. destruct (drawn s !! sid) as [[t' n]|] eqn:Hd; [|done]. simplify_eq/=.
      exists t, n, (Dispatch q hits sid []). by rewrite lookup_insert_eq.
  - apply view_at in Hk as Hv.
    destruct (updates_spec s sid se tx k pc pc' se' Hs Hk Hse Hup) as (Hwf & Hsame & Hkeep & Hst & Hpc & Hview).
    { intros t -> Hw. rewrite Hw in Hv. by eapply waits_sender. }
    destruct (sn_session _ Hs sid se tx Hse) as (Hid & Hwf0 & Hop & se0 & Hse0 & Hsame0).
    apply (sane_move s _ k pc'); try done.
    + intros sid' se1 t' Hin. simpl in Hin. apply lookup_insert_Some in Hin as [[<- [= <- <-]]|[Hne Hin]].
      * split; [split_and!; [by rewrite (sr_id _ _ Hsame)|done|by rewrite Hst|]|].
        -- exists se0. split; [done|]. by etrans.
        -- intros _. exists se. split; [done|]. split; [by rewrite (sr_options _ _ Hsame)|]. apply keeps_slots_full; [|done].
           by rewrite (sw_length _ Hwf), (sw_length _ Hwf0), (sr_expected _ _ Hsame).
      * split; [exact (sn_session _ Hs sid' se1 t' Hin)|by exists se1].
    + intros t' r Hr. by left.
    + intros sid' ->. left. by eexists.
    + intros t' pc1 sid' n -> Hpc1 _. rewrite Hk in Hpc1. simplify_eq. by destruct Hup.
  - apply view_at in Hk as Hv.
    destruct (takes_spec s sid se tx k pc w Hs Hk Hse Htk) as (se0 & Hse0 & Hsame & Hw).
    { intros t -> Hw. rewrite Hw in Hv. by eapply waits_sender. }
    apply (sane_move s _ k (Owning w)); try done.
    + assert (owner_sane s w) as Hown.
      { exists se0. rewrite (ts_tx _ _ _ _ _ _ Hw). split; [done|]. split; [|by apply Hw]. etrans; [exact Hsame|apply Hw]. }
      destruct k as [t|sid']; [exact Hown|]. split; [exact Hown|]. split; [|exact (ts_monitor _ _ _ _ _ _ Hw)].
      rewrite (sr_id _ _ (ts_same _ _ _ _ _ _ Hw)). destruct (sn_session _ Hs sid se tx Hse) as (-> & _).
      pose proof (sn_task _ Hs _ _ Hk) as Hpc. inversion Htk; subst; by try destruct origin.
    + intros sid' se' t' Hin. simpl in Hin. apply lookup_delete_Some in Hin as [Hne Hin]. split; [exact (sn_session _ Hs sid' se' t' Hin)|by exists se'].
    + intros t' r Hr. by left.
    + intros sid' ->. left. by eexists.
  - apply (sane_same s _ k (Owning w) (Owning (with_todo w todo))); try done.
    pose proof (sn_task _ Hs _ _ Hk) as Hpc. destruct k; exact Hpc.
  - pose proof (sn_task _ Hs _ _ Hk) as Hpc.
    assert (owner_sane s w) as Hown by (destruct k; [exact Hpc|by destruct Hpc]).
    apply (sane_move s _ k (Fin (Owner.back w))); try done.
    + destruct k; simpl; [by destruct (Owner.back w)|]. destruct Hpc as (_ & _ & ->). done.
    + intros sid' se' t' Hin. split; [exact (sn_session _ Hs sid' se' t' Hin)|by exists se'].
    + intros t' r Hr. simpl in Hr. apply lookup_insert_Some in Hr as [[<- [= <-]]|[Hne Hr]]; [right|by left].
      destruct Hown as (se0 & Hse0 & _ & Ho). by exists se0.
    + intros sid' ->. left. by eexists.
    + intros t' pc1 sid' n -> Hpc1 Hd _. by rewrite (answer_watched s L t' w todo sid' n Ha Hk Htodo Hd).
  - apply (sane_same s _ k (Beating needle (sid :: sids) touched) (Beating needle sids touched)); try done. 
    pose proof (sn_task _ Hs _ _ Hk). by destruct k.
  - apply (sane_same s _ k (Monitor sid idle wake) (Claimed sid idle)); try done.
    pose proof (sn_task _ Hs _ _ Hk). by destruct k.
  - apply (sane_same s _ k (Claimed sid idle) (Fin Exited)); try done.
    pose proof (sn_task _ Hs _ _ Hk). by destruct k.
Qed.

(** Reachable states are sane and follow the life of their calls. *)
Lemma reachable_tracks now s : reachable o now s → sane s ∧ ∃ L, tracks (life_of s) L.
Proof.
  revert s. apply reachable_ind_effect; [split; [apply sane_new|exists ∅; apply tracks_new]|].
  intros s s' _ [Hs [L Ha]] He. split; [by eapply effect_sane|].
  destruct (effect_simulates s s' L Hs Ha He) as (L' & HL' & _). by exists L'.
Qed.
End facts.
