(* ===== verification/AwaitLive.v ===== *)
(** * Waiting calls return

    While a session is open its monitor runs and its liveness record is there
    ([guarded]); so a call that waits on it can be brought to return by its own
    steps, those of the owner of its sender and those of the monitor, once no
    reply or heartbeat arrives for the idle timeout. *)
From S2P Require Import Prelude RustStr AgentTree AwaitData AwaitManager AwaitLife AwaitEffects AwaitReplies AwaitFacts AwaitDemo.
Open Scope string_scope.
Open Scope list_scope.
Open Scope Z_scope.

(** A start past [spawn_idle_task] that still waits on [sid]. *)
Definition dispatched (sid : string) (pc : Pc) : Prop :=
  match pc with
  | Dispatch _ _ sid' _ | EarlyResolve sid' _ | AllFailed sid' _ _ | Park sid' => sid' = sid
  | _ => False
  end.

(** A monitor that has not given up. *)
Definition on_guard (sid : string) (pc : Pc) : Prop :=
  match pc with Monitor sid' _ _ | Claimed sid' _ => sid' = sid | _ => False end.

Definition fresh_record (s : Tracker) (sid : string) (idle : Z) : Prop :=
  ∃ rec, liveness s !! sid = Some rec ∧ LivenessRec.last_activity rec ≤ clock s ∧ LivenessRec.idle_timeout_secs rec = idle.

Section live.
Context `{SessionOrder} (o : ManagerOptions.t).

(** The timeout a session's monitor is given. *)
Definition idle_of (s : Tracker) (sid : string) (idle : Z) : Prop :=
  ∀ se t, sessions s !! sid = Some (se, t) → idle = effective_idle_timeout o (AwaitSession.options se).

Record guarded (s : Tracker) : Prop := {
  gd_monitor t sid pc se :
    tasks s !! inl t = Some pc → dispatched sid pc → sessions s !! sid = Some (se, t) →
    ∃ pcm, tasks s !! inr sid = Some pcm ∧ on_guard sid pcm;
  gd_wake sid idle wake :
    tasks s !! inr sid = Some (Monitor sid idle wake) →
    wake ≤ clock s + IDLE_TICK_SECS * 1000 ∧ idle_of s sid idle ∧
    (is_Some (sessions s !! sid) → fresh_record s sid idle)
}.

Lemma guarded_new now : guarded (tracker_new now).
Proof. split; intros *; cbn; by rewrite lookup_empty. Qed.

(** One task moves and no session is opened. *)
Lemma guarded_move s s' k pc' :
  guarded s → tasks s' = <[k := pc']> (tasks s) → clock s' = clock s →
  (∀ sid se t, sessions s' !! sid = Some (se, t) →
     ∃ se0, sessions s !! sid = Some (se0, t) ∧ AwaitSession.options se0 = AwaitSession.options se) →
  (∀ t sid, k = inl t → dispatched sid pc' → ∃ pc, tasks s !! inl t = Some pc ∧ dispatched sid pc) →
  (∀ sid pc, k = inr sid → is_Some (sessions s' !! sid) → tasks s !! inr sid = Some pc → on_guard sid pc → on_guard sid pc') →
  (∀ sid idle, k ≠ inr sid → is_Some (sessions s' !! sid) → fresh_record s sid idle → fresh_record s' sid idle) →
  (∀ sid idle wake, k = inr sid → pc' = Monitor sid idle wake →
     wake ≤ clock s' + IDLE_TICK_SECS * 1000 ∧ idle_of s' sid idle ∧
     (is_Some (sessions s' !! sid) → fresh_record s' sid idle)) →
  guarded s'.
Proof.
  intros Hg Ht Hclock Hsess Hd Hon Hrec Hwake. split.
  - intros t sid pc se Hpc Hdis Hse. destruct (Hsess sid se t Hse) as (se0 & Hse0 & _).
    assert (∃ pc0, tasks s !! inl t = Some pc0 ∧ dispatched sid pc0) as (pc0 & Hpc0 & Hdis0).
    { rewrite Ht in Hpc. apply lookup_insert_Some in Hpc as [[-> ->]|[_ Hpc]]; [by apply Hd|by exists pc]. }
    destruct (gd_monitor _ Hg t sid pc0 se0 Hpc0 Hdis0 Hse0) as (pcm & Hpcm & Hg'). rewrite Ht.
    destruct (decide (k = inr sid)) as [->|Hne]; [|rewrite lookup_insert_ne by done; by exists pcm].
    rewrite lookup_insert_eq. exists pc'. split; [done|]. by eapply Hon; [..|exact Hpcm|].
  - intros sid idle wake Hm. rewrite Ht in Hm. apply lookup_insert_Some in Hm as [[-> ->]|[Hne Hm]]; [by apply Hwake|].
    rewrite Hclock. destruct (gd_wake _ Hg sid idle wake Hm) as (H1 & H2 & H3). split_and!; [done|..].
    + intros se t (se0 & Hse0 & <-)%Hsess. by eapply H2.
    + intros Hs. apply Hrec; [done..|]. apply H3. destruct Hs as [[se t] (se0 & Hse0 & _)%Hsess]. by eexists.
Qed.

Lemma fresh_record_same s s' sid idle :
  clock s' = clock s → liveness s' !! sid = liveness s !! sid → fresh_record s sid idle → fresh_record s' sid idle.
Proof. intros Hc Hl (rec & Hrec). exists rec. by rewrite Hc, Hl. Qed.

Lemma fresh_record_reset s s' k sid idle :
  clock s' = clock s → liveness s' = liveness (reset_liveness k s) → fresh_record s sid idle → fresh_record s' sid idle.
Proof.
  intros Hc Hl (rec & Hrec & Hlast & Hidle). unfold fresh_record. rewrite Hc, Hl. simpl.
  destruct (decide (k = sid)) as [->|Hne].
  - rewrite lookup_alter_eq, Hrec. eexists. split; [done|]. simpl. by split.
  - rewrite lookup_alter_ne by done. by exists rec.
Qed.

Lemma effect_guarded s s' L :
  sane s → tracks (life_of s) L → effect o s s' → guarded s → guarded s'.
Proof.
  intros Hs Ha He Hg. destruct He as [ms Hms|t c Ht Htyped|k pc pc' tb ns Hk Hq|t q hits sid cur se Hk Hd Hp|t q hits se Hk Hc
    |t q hits se ws Hk Hws|t q hits sid ns Hk idle|k pc pc' sid se tx se' lv Hk Hse Hup Hlv ns|k pc sid se tx w lv Hk Hse Htk Hlv
    |k w x todo tb ns Hk Htodo Hx|k w todo Hk Htodo ns|k needle sid sids touched Hk|k sid idle wake rec Hk Hwake Hrec Hidle
    |k sid idle Hk Hse].
  - split; [apply Hg|]. intros sid idle wake Hm. destruct (gd_wake _ Hg sid idle wake Hm) as (H1 & H2 & H3). simpl.
    split_and!; [lia|exact H2|]. intros (rec & ? & ? & ?)%H3. exists rec. split_and!; [done|simpl; lia|done].
  - apply (guarded_move s _ (inl t) (begin c)); try done; [by eauto|].
    intros t' sid [= ->]. by destruct c; simpl; repeat case_match.
  - apply (guarded_move s _ k pc'); try done; [by eauto|..].
    + intros t sid -> Hdis. exists pc. split; [done|]. inversion Hq; subst; try done; by destruct origin.
    + intros sid pc0 -> Hse Hk0 Hon. rewrite Hk in Hk0. simplify_eq. inversion Hq; subst; try done; simplify_eq/=.
      destruct (gd_wake _ Hg _ _ _ Hk) as (_ & _ & H2). destruct (H2 Hse) as (rec & Hrec & _). congruence.
    + intros sid idle wake -> ->. inversion Hq; subst. simpl. split; [lia|]. destruct (gd_wake _ Hg _ _ _ Hk) as [_ H2]. exact H2.
  - apply (guarded_move s _ (inl t) (Count q hits se)); try done; by eauto.
  - apply (guarded_move s _ (inl t) (Insert q hits se)); try done; by eauto.
  - apply view_at in Hk as Hv. simpl view in Hv. pose proof (tracks_held _ _ Ha _ _ _ _ Hv) as Hl. fold sid in Hl.
    pose proof (no_monitor s L t sid _ _ Hs Ha Hk Hl eq_refl (λ x, x)) as Hnom.
    clearbody session. split; simpl.
    + intros t' sid' pc se' Hpc Hdis Hse. apply lookup_insert_Some in Hpc as [[[= <-] <-]|[Hne Hpc]]; [done|].
      apply lookup_insert_Some in Hse as [[<- [= <- <-]]|[Hne' Hse]]; [congruence|]. rewrite lookup_insert_ne by done.
      by eapply (gd_monitor _ Hg).
    + intros sid' idle wake Hm. rewrite lookup_insert_ne in Hm by done. destruct (gd_wake _ Hg sid' idle wake Hm) as (H1 & H2 & H3).
      assert (sid ≠ sid') as Hne by (intros <-; congruence).
      split_and!; [done|unfold idle_of; simpl; by rewrite lookup_insert_ne|by rewrite lookup_insert_ne].
  - split; simpl.
    + intros t' sid' pc se' Hpc Hdis Hse. destruct (decide (sid = sid')) as [<-|Hne].
      * exists (Monitor sid idle (clock s + IDLE_TICK_SECS * 1000)). rewrite lookup_insert_ne, lookup_insert_eq by done. done.
      * rewrite !lookup_insert_ne by congruence. apply lookup_insert_Some in Hpc as [[[= <-] <-]|[Hne' Hpc]]; [done|].
        rewrite lookup_insert_ne in Hpc by done. by eapply (gd_monitor _ Hg).
    + intros sid' idle' wake Hm. rewrite lookup_insert_ne in Hm by done. unfold fresh_record. simpl.
      apply lookup_insert_Some in Hm as [[[= <-] [= <- <-]]|[Hne Hm]].
      * split_and!; [lia|..].
        -- intros se t'. simpl. intros Hse. apply view_at in Hk as Hv. pose proof (waits_sender _ _ _ _ _ _ Ha Hv Hse) as <-.
           destruct (sn_session _ Hs _ _ _ Hse) as (_ & _ & _ & se0 & Hse0 & Hsame).
           destruct (sn_task _ Hs _ _ Hk) as (se1 & Hse1 & _ & _ & Hopt). simplify_eq.
           by rewrite (sr_options _ _ Hsame), Hopt.
        -- intros _. rewrite lookup_insert_eq. eexists. split; [done|]. simpl. split; [lia|done].
      * rewrite lookup_insert_ne by congruence. by apply (gd_wake _ Hg).
  - apply view_at in Hk as Hv.
    destruct (updates_spec s sid se tx k pc pc' se' Hs Hk Hse Hup) as (_ & Hsame & _).
    { intros t -> Hw. rewrite Hw in Hv. by eapply waits_sender. }
    apply (guarded_move s _ k pc'); try done; simpl.
    + intros sid' se1 t Hin. apply lookup_insert_Some in Hin as [[<- [= <- <-]]|[Hne Hin]]; [|by eexists].
      exists se. by rewrite (sr_options _ _ Hsame).
    + intros t sid' -> Hdis. exists pc. split; [done|]. inversion Hup; subst; try done; by destruct origin.
    + intros sid' pc0 -> _ Hk0 Hon. rewrite Hk in Hk0. simplify_eq. by inversion Hup; subst.
    + intros sid' idle _ _ Hrec. destruct Hlv as [-> | ->]; [by apply (fresh_record_same s)|by apply (fresh_record_reset s _ sid)].
    + intros sid' idle wake -> ->. inversion Hup; subst; by destruct origin.
  - apply (guarded_move s _ k (Owning w)); try done; simpl.
    + intros sid' se1 t Hin. apply lookup_delete_Some in Hin as [Hne Hin]. by eexists.
    + intros sid' pc0 -> Hse' Hk0 Hon. rewrite Hk in Hk0. simplify_eq. exfalso.
      assert (sid' = sid) as -> by (inversion Htk; subst; try done; by simpl in Hon).
      rewrite lookup_delete_eq in Hse'. by destruct Hse'.
    + intros sid' idle Hne Hse'. assert (sid ≠ sid') as Hne'.
      { intros <-. rewrite lookup_delete_eq in Hse'. by destruct Hse'. }
      destruct Hlv as [-> | ->]; apply fresh_record_same; try done. by apply lookup_delete_ne.
  - apply view_at in Hk as Hv. simpl view in Hv. pose proof (tracks_owner _ _ Ha _ _ _ _ _ _ _ Hv) as Hl.
    apply (guarded_move s _ k (Owning (with_todo w todo))); try done; simpl; [by eauto|..].
    + intros sid pc0 -> _ Hk0 Hon. rewrite Hk in Hk0. by simplify_eq.
    + intros sid idle _ [[se t] Hse]. apply fresh_record_same; [done|]. simpl. case_decide; [|done].
      apply lookup_delete_ne. intros <-.
      assert (table (life_of s) !! AwaitSession.id (Owner.session w) = Some (t, AwaitSession.agent_id se)) as Ht
        by (simpl; by rewrite lookup_fmap, Hse).
      apply (tracks_table _ _ Ha) in Ht. assert (Owner.tx w = t) as <- by (by eapply (tracks_sid _ _ Ha)). congruence.
  - apply (guarded_move s _ k (Fin (Owner.back w))); try done; simpl; [by eauto|..].
    intros sid pc0 -> _ Hk0 Hon. rewrite Hk in Hk0. by simplify_eq.
  - apply (guarded_move s _ k (Beating needle sids touched)); try done; simpl; [by eauto|..].
    + intros sid' pc0 -> _ Hk0 Hon. rewrite Hk in Hk0. by simplify_eq.
    + intros sid' idle _ _. by eapply fresh_record_reset.
  - apply (guarded_move s _ k (Claimed sid idle)); try done; simpl; [by eauto|..].
    + intros sid' pc0 -> _ Hk0 Hon. rewrite Hk in Hk0. by simplify_eq.
    + intros sid' idle' Hne _. apply fresh_record_same; [done|]. simpl. apply lookup_delete_ne. intros ->.
      apply Hne. pose proof (sn_task _ Hs _ _ Hk) as Hpc. destruct k; simpl in Hpc; [done|by subst].
  - apply (guarded_move s _ k (Fin Exited)); try done; simpl; [by eauto|..].
    + intros sid' pc0 -> [[se t] Hse'] Hk0 Hon. rewrite Hk in Hk0. simplify_eq/=.
    + intros sid' idle' Hne [[se t] Hse']. apply fresh_record_same; [done|]. simpl. apply lookup_delete_ne. intros <-. congruence.
Qed.

Lemma reachable_guarded now s : reachable o now s → guarded s.
Proof.
  intros Hr0. pattern s. revert s Hr0. apply reachable_ind_effect; [apply guarded_new|].
  intros s s' Hr IH He. destruct (reachable_tracks o now s Hr) as [Hs [L Ha]]. by eapply effect_guarded.
Qed.

(** ** Progress *)

Definition passive (a : act) : Prop := match a with Call _ _ => False | _ => True end.

(** How long a schedule takes. *)
Fixpoint elapsed (acts : list act) : Z :=
  match acts with [] => 0 | Pass ms :: acts => ms + elapsed acts | _ :: acts => elapsed acts end.

(** Without another call, [t] returns within [d] milliseconds. *)
Definition can_return (s : Tracker) (t : nat) (d : Z) : Prop :=
  ∃ acts s' r, Forall passive acts ∧ elapsed acts ≤ d ∧ run_schedule o acts s = Some s' ∧
    tasks s' !! inl t = Some (Fin (Returned r)).

Lemma can_return_step s s1 t d k a : step o (Step k a) s = Some s1 → can_return s1 t d → can_return s t d.
Proof.
  intros Hs (acts & s' & r & Hp & He & Hr & Ht). exists (Step k a :: acts), s', r. split_and!; [by constructor|done| |done].
  cbn [run_schedule]. by rewrite Hs.
Qed.

Lemma can_return_pass s t d ms : 0 ≤ ms → can_return (set_clock (clock s + ms) s) t d → can_return s t (d + ms).
Proof.
  intros Hms (acts & s' & r & Hp & He & Hr & Ht). exists (Pass ms :: acts), s', r.
  split_and!; [by constructor|simpl; lia| |done]. cbn [run_schedule step]. by rewrite (proj2 (Z.leb_le 0 ms) Hms).
Qed.

(** A start that waits for its answer, or sends it itself. *)
Definition waiting (sid : string) (pc : Pc) : Prop :=
  view pc = Waits sid ∨ ∃ w, pc = Owning w ∧ Owner.back w = Returned (Owner.outcome w).

(** How many steps of its own it is from parking or returning, at most. *)
Definition rank (pc : Pc) : nat :=
  match pc with
  | Watch q _ _ => 7 + length (StartCall.requests q)
  | Dispatch q _ _ results => 6 + (length (StartCall.requests q) - length results)
  | EarlyResolve _ _ | AllFailed _ _ _ => 5
  | Owning w => length (Owner.todo w)
  | _ => 0
  end.

(** An owner always has a step. *)
Lemma owner_progress s L k w a : tracks (life_of s) L → tasks s !! k = Some (Owning w) →
  ∃ x todo s1, Owner.todo w = x :: todo ∧ step o (Step k a) s = Some s1 ∧
    tasks s1 !! k = Some (if decide (x = Resolve) then Fin (Owner.back w) else Owning (with_todo w todo)) ∧
    (∀ k', k' ≠ k → tasks s1 !! k' = tasks s !! k') ∧
    (x = Resolve → wires s1 !! Owner.tx w = Some (Filled (Owner.outcome w))).
Proof.
  intros Ha Hk. apply view_at in Hk as Hv. simpl view in Hv. pose proof (tracks_owner _ _ Ha _ _ _ _ _ _ _ Hv) as Hl.
  destruct (tr_wf _ _ Ha _ _ Hl) as (_ & Hlast & _).
  assert (step o (Step k a) s = own o k w s) as Hstep by (simpl; rewrite Hk; by destruct k).
  rewrite Hstep. unfold own. destruct (Owner.todo w) as [|x todo]; [done|]. exists x, todo.
  destruct x; eexists; (split_and!; [done|reflexivity|..]); simpl; try done; try (by rewrite lookup_insert_eq).
  all: try (intros k' Hne; rewrite lookup_insert_ne by done; by repeat case_match).
  - destruct (Owner.event w) as [e|]; [destruct (emit_notes o e s) as [ns ->]|]; simpl.
    all: intros k' Hne; by rewrite lookup_insert_ne.
Qed.

(** The program points of a start that waits for its answer. *)
Definition before_park (sid : string) (pc : Pc) : Prop :=
  match pc with
  | Watch _ _ sid' | Dispatch _ _ sid' _ | EarlyResolve sid' _ | AllFailed sid' _ _ => sid' = sid
  | _ => False
  end.

Lemma view_waits pc sid : view pc = Waits sid → pc = Park sid ∨ before_park sid pc.
Proof. destruct pc as [| | | | | | | | | | | | | | | | | | | |f]; try destruct f; simpl; intros Hv; simplify_eq; eauto. Qed.

(** One step of a waiting start that is not parked. *)
Lemma own_progress s L t sid pc a :
  sane s → tracks (life_of s) L → tasks s !! inl t = Some pc → waiting sid pc → pc ≠ Park sid →
  ∃ s1 pc1, step o (Step (inl t) a) s = Some s1 ∧ tasks s1 !! inl t = Some pc1 ∧
    (waiting sid pc1 ∧ (rank pc1 < rank pc)%nat ∨ ∃ r, pc1 = Fin (Returned r)).
Proof.
  intros Hs Ha Hk [Hv|(w & -> & Hback)] Hpark.
  2:{ destruct (owner_progress s L (inl t) w a Ha Hk) as (x & todo & s1 & Htodo & Hstep & Ht & _).
      exists s1. eexists. split_and!; [exact Hstep|exact Ht|]. case_decide; [right; rewrite Hback; by eexists|left].
      split; [right; by eexists|]. simpl. rewrite Htodo. simpl. lia. }
  destruct (view_waits pc sid Hv) as [Hparked|Hpc]; [done|]. destruct pc; try done; simpl in Hpc; subst; cbn [step]; rewrite Hk; cbn [mbind option_bind start_step];
    try congruence.
  - do 2 eexists. split_and!; [reflexivity|by apply lookup_insert_eq|]. left. split; [by left|]. simpl. lia.
  - destruct (StartCall.requests q !! length results) as [req|] eqn:Hreq.
    + apply lookup_lt_Some in Hreq as Hlt. case_match.
      * destruct (dispatch_protected_slots _ _ _ _ _ _) as [[rs tb] sent] eqn:Hd.
        pose proof (protected_length q hits sid a (clock s) (turn_batches s)) as Hlen. rewrite Hd in Hlen. simpl in Hlen.
        do 2 eexists. split_and!; [reflexivity|by apply lookup_insert_eq|]. left. split; [by left|]. simpl. lia.
      * destruct (dispatch_slot _ _ _ _ _ _ _) as [r sent].
        do 2 eexists. split_and!; [reflexivity|by apply lookup_insert_eq|]. left. split; [by left|]. simpl. rewrite length_app. simpl. lia.
    + destruct (sessions s !! sid) as [[se tx]|]; repeat case_match; do 2 eexists;
        (split_and!; [reflexivity|by apply lookup_insert_eq|]); left; (split; [by left|]); simpl; lia.
  - destruct (sessions s !! sid) as [[se tx]|]; do 2 eexists; (split_and!; [reflexivity|by apply lookup_insert_eq|]); left;
      (split; [|simpl; lia]); [right; by eexists|by left].
  - destruct (sessions s !! sid) as [[se tx]|]; do 2 eexists; (split_and!; [reflexivity|by apply lookup_insert_eq|]); left;
      (split; [|simpl; lia]); [right; by eexists|by left].
Qed.

(** It gets to the point where it parks, or returns. *)
Lemma own_to_park now t sid se0 d (a : Answers.t) :
  0 ≤ d →
  (∀ s, reachable o now s → opened s !! t = Some se0 → tasks s !! inl t = Some (Park sid) → can_return s t d) →
  ∀ n s pc, reachable o now s → opened s !! t = Some se0 → tasks s !! inl t = Some pc → waiting sid pc → (rank pc < n)%nat → can_return s t d.
Proof.
  intros Hd Hpark. induction n as [|n IH]; intros s pc Hr Hop Hk Hw Hn; [lia|].
  assert (pc = Park sid ∨ pc ≠ Park sid) as [->|Hne].
  { destruct Hw as [Hv|(w & -> & _)]; [|by right]. destruct (view_waits pc sid Hv) as [->|Hpc]; [by left|right]. by intros ->. }
  { by apply Hpark. }
  destruct (reachable_tracks o now s Hr) as [Hs [L Ha]].
  destruct (own_progress s L t sid pc a Hs Ha Hk Hw) as (s1 & pc1 & Hstep & Hk1 & Hcase); [done|].
  eapply can_return_step; [exact Hstep|]. destruct Hcase as [[Hw1 Hlt]|[r ->]].
  - apply (IH s1 pc1); [by eapply reach_step| |done|done|lia].
    apply step_effect in Hstep. by eapply lookup_weaken; [|eapply effect_opened].
  - exists [], s1, r. split_and!; [done|simpl; lia|done|done].
Qed.

Lemma park_posted s t sid r d (a : Answers.t) :
  0 ≤ d → tasks s !! inl t = Some (Park sid) → wires s !! t = Some (Filled r) → can_return s t d.
Proof.
  intros Hd Hk Hw. eapply (can_return_step _ _ _ _ (inl t) a).
  { cbn [step]. rewrite Hk. cbn [mbind option_bind start_step]. by rewrite Hw. }
  exists [], (set_task (inl t) (Fin (Returned r)) s), r. split_and!; [done|simpl; lia|done|by apply lookup_insert_eq].
Qed.

Lemma park_owned now t sid k d (a : Answers.t) :
  0 ≤ d → k ≠ inl t → ∀ n s w, reachable o now s → tasks s !! inl t = Some (Park sid) →
  tasks s !! k = Some (Owning w) → Owner.tx w = t → (length (Owner.todo w) < n)%nat → can_return s t d.
Proof.
  intros Hd Hkt. induction n as [|n IH]; intros s w Hr Ht Hk Htx Hn; [lia|].
  destruct (reachable_tracks o now s Hr) as [Hs [L Ha]].
  destruct (owner_progress s L k w a Ha Hk) as (x & todo & s1 & Htodo & Hstep & Hk1 & Hother & Hw).
  eapply can_return_step; [exact Hstep|]. assert (tasks s1 !! inl t = Some (Park sid)) as Ht1 by (by rewrite Hother by done).
  case_decide as Hx.
  - eapply park_posted; [done|done|exact Ht1|]. rewrite <- Htx. by apply Hw.
  - apply (IH s1 (with_todo w todo)); [by eapply reach_step|done|done|done|]. rewrite Htodo in Hn. simpl in *. lia.
Qed.

Lemma claimed_returns now s t sid idle se d (a : Answers.t) :
  0 ≤ d → reachable o now s → tasks s !! inl t = Some (Park sid) → sessions s !! sid = Some (se, t) →
  tasks s !! inr sid = Some (Claimed sid idle) → can_return s t d.
Proof.
  intros Hd Hr Ht Hse Hm.
  assert (step o (Step (inr sid) a) s = Some (set_task (inr sid) (Owning (idle_owner se t idle (clock s)))
    (set_sessions (delete sid (sessions s)) s))) as Hstep by (cbn; rewrite Hm; cbn; by rewrite Hse).
  eapply can_return_step; [exact Hstep|].
  destruct (idle_owner_spec se t idle (clock s)) as (_ & _ & _ & Htx & _).
  { destruct (reachable_tracks o now s Hr) as [Hs _]. by destruct (sn_session _ Hs _ _ _ Hse) as (_ & ? & _). }
  eapply (park_owned now t sid (inr sid) d a Hd); [done|by eapply reach_step|simpl; by rewrite lookup_insert_ne| |exact Htx|];
    [by apply lookup_insert_eq|]. apply Nat.lt_succ_diag_r.
Qed.

(** The time a session's monitor takes once nothing resets it. *)
Definition patience (se : AwaitSession.t) : Z :=
  Z.max (IDLE_TICK_SECS * 1000) (effective_idle_timeout o (AwaitSession.options se) * 1000).

Lemma patience_pos se : 0 ≤ patience se.
Proof. unfold patience, IDLE_TICK_SECS. lia. Qed.

Lemma open_returns now s t sid se (a : Answers.t) :
  reachable o now s → tasks s !! inl t = Some (Park sid) → sessions s !! sid = Some (se, t) → can_return s t (patience se).
Proof.
  intros Hr Ht Hse. pose proof (reachable_guarded now s Hr) as Hg. pose proof (patience_pos se) as Hpos.
  destruct (gd_monitor _ Hg t sid _ se Ht eq_refl Hse) as (pcm & Hm & Hon).
  destruct pcm; try done; simpl in Hon; subst sid0; [|by eapply claimed_returns].
  destruct (gd_wake _ Hg _ _ _ Hm) as (Hwake & Hidle & Hrec). rewrite (Hidle se t Hse) in *.
  destruct (Hrec ltac:(by eexists)) as (rec & Hlive & Hlast & Htimeout).
  rewrite <- (Z.add_0_l (patience se)). apply can_return_pass; [done|].
  set (s1 := set_clock (clock s + patience se) s).
  assert (reachable o now s1) as Hr1.
  { apply (reach_step o now (Pass (patience se)) s); [done|]. cbn. by rewrite (proj2 (Z.leb_le _ _) Hpos). }
  assert (step o (Step (inr sid) a) s1 = Some (set_task (inr sid) (Claimed sid (effective_idle_timeout o (AwaitSession.options se)))
    (evict_liveness sid s1))) as Hstep.
  { cbn. rewrite Hm. cbn. unfold patience in *. rewrite (proj2 (Z.ltb_ge _ _)) by lia. rewrite Hlive.
    by rewrite (proj2 (Z.ltb_ge _ _)) by (rewrite Htimeout; lia). }
  eapply can_return_step; [exact Hstep|]. eapply (claimed_returns now _ _ _ _ _ _ a); [lia|by eapply reach_step|..].
  - simpl. by rewrite lookup_insert_ne.
  - exact Hse.
  - by apply lookup_insert_eq.
Qed.

Lemma park_returns now s t sid se0 (a : Answers.t) :
  reachable o now s → opened s !! t = Some se0 → tasks s !! inl t = Some (Park sid) → can_return s t (patience se0).
Proof.
  intros Hr Hop Ht. pose proof (patience_pos se0) as Hpos. destruct (reachable_tracks o now s Hr) as [Hs [L Ha]].
  apply view_at in Ht as Hv. destruct (tracks_waits _ _ Ha t sid Hv) as (_ & st & Hl & Hsid & Hst).
  destruct st as [|sid' c b|sid' c|k sid' c todo outcome back|sid' r|]; try discriminate Hst; simpl in Hsid; simplify_eq.
  - assert (table (life_of s) !! sid = Some (t, c)) as Htab by (apply (tr_table _ _ Ha); by rewrite Hl).
    simpl in Htab. rewrite lookup_fmap in Htab. destruct (sessions s !! sid) as [[se t']|] eqn:Hse; [|done]. simplify_eq/=.
    destruct (sn_session _ Hs _ _ _ Hse) as (_ & _ & _ & se1 & Hse1 & Hsame). simplify_eq.
    unfold patience. rewrite <- (sr_options _ _ Hsame). by eapply open_returns.
  - simpl in Hst. case_decide as Hk; [done|].
    assert (views (life_of s) !! k = Some (Owns t sid c todo outcome back)) as Hvk by (apply (tr_owner _ _ Ha); by rewrite Hl).
    simpl in Hvk. rewrite lookup_fmap in Hvk. destruct (tasks s !! k) as [pc|] eqn:Hpc; [|done]. injection Hvk as Hvk.
    destruct pc as [| | | | | | | | | | | | | | | | | | |w|f]; try done; [|by destruct f]. injection Hvk as Htx _ _ _ _ _.
    eapply (park_owned now t sid k _ a); [done|done|done|done|exact Hpc|done|]. apply Nat.lt_succ_diag_r.
  - eapply park_posted; [done|done|exact Ht|]. pose proof (tr_answer _ _ Ha t) as Hw. rewrite Hl in Hw. exact Hw.
Qed.

(** A waiting start has opened its session. *)
Lemma waiting_opened s L t sid pc :
  sane s → tracks (life_of s) L → tasks s !! inl t = Some pc → waiting sid pc → ∃ se0, opened s !! t = Some se0.
Proof.
  intros Hs Ha Hk Hw. pose proof (sn_task _ Hs _ _ Hk) as Hpc. destruct Hw as [Hv|(w & -> & Hback)].
  - destruct (view_waits pc sid Hv) as [->|Hb]; [destruct Hpc as (se0 & ? & _); by exists se0|].
    destruct pc; try done; simpl in Hpc; [| |destruct Hpc as [Hpc _]|destruct Hpc as [Hpc _]]; destruct Hpc as (se0 & ? & _); by exists se0.
  - apply view_at in Hk. simpl view in Hk. pose proof (tracks_owner _ _ Ha _ _ _ _ _ _ _ Hk) as Hl.
    destruct (tr_wf _ _ Ha _ _ Hl) as (_ & _ & [[[= ->] _]|[_ Hb]]); [|by rewrite Hback in Hb].
    destruct Hpc as (se0 & ? & _). by exists se0.
Qed.

(** C7: wherever its call stands, a start whose session was opened can be
    brought to return without another call and within the patience of its
    session: no interleaving leaves it hanging. *)
Theorem waiting_start_returns now s t sid pc :
  reachable o now s → tasks s !! inl t = Some pc → waiting sid pc →
  ∃ se0, opened s !! t = Some se0 ∧ can_return s t (patience se0).
Proof.
  intros Hr Hk Hw. destruct (reachable_tracks o now s Hr) as [Hs [L Ha]].
  destruct (waiting_opened s L t sid pc Hs Ha Hk Hw) as [se0 Hse0]. exists se0. split; [done|].
  set (a := Answers.mk "" None (Ok tt) (PreparedTurnBatch.mk [] []) (Ok tt) (Ok tt)).
  eapply (own_to_park now t sid se0 (patience se0) a); [apply patience_pos| |done|done|done|done|apply Nat.lt_succ_diag_r].
  intros s' Hr' Hop Hp. by apply (park_returns now s' t sid se0 a).
Qed.
End live.

(** The start of the demonstration returns although nobody replies. *)
Lemma waiting_start_returns_witness :
  ∃ se0, opened (demo_run demo_open) !! 0%nat = Some se0 ∧ can_return demo_options (demo_run demo_open) 0 (patience demo_options se0).
Proof.
  apply (waiting_start_returns demo_options 0 (demo_run demo_open) 0%nat "s1" (Park "s1")).
  - apply demo_reachable. demo.
  - demo.
  - left. reflexivity.
Defined.
