(* ===== verification/AwaitProps.v ===== *)
(** * What callers of the session manager can rely on

    From [AwaitFacts]: the manager refines the life of its sessions; a call gets
    the one answer its session was given, and that answer is about the requests
    it asked; what a caller has open stays within its cap; a call that waits
    can always be brought to return. *)
From S2P Require Import Prelude RustStr AgentTree AwaitData AwaitManager AwaitLife AwaitEffects AwaitReplies AwaitFacts AwaitDemo AwaitLive.
Open Scope string_scope.
Open Scope list_scope.
Open Scope Z_scope.

Section props.
Context `{SessionOrder} (o : ManagerOptions.t).

(** ** Answers *)

(** Nothing overwrites an answer. *)
Lemma effect_wires s s' L : tracks (life_of s) L → effect o s s' → wires s ⊆ wires s'.
Proof.
  intros Ha He. destruct He as [| | | | |t q hits se ws Hk Hws| | | | |k w todo Hk Htodo| | |]; simpl; try done.
  - by rewrite (insert_wires s L t q hits se ws Ha Hk Hws).
  - apply insert_subseteq. apply view_at in Hk as Hv. simpl view in Hv. rewrite Htodo in Hv.
    pose proof (tr_answer _ _ Ha (Owner.tx w)) as Hw. by rewrite (tracks_owner _ _ Ha _ _ _ _ _ _ _ Hv) in Hw.
Qed.

(** A sender is never dropped. *)
Lemma tracks_not_dropped s L t : tracks (life_of s) L → wires s !! t ≠ Some Dropped.
Proof. intros Ha Hw. pose proof (tr_answer _ _ Ha t) as Ht. simpl in Ht. rewrite Hw in Ht. destruct (L !! t) as [st|]; simpl in Ht; [by destruct (stage_answer st)|done]. Qed.

(** What a call returns is in its [oneshot], unless no session was opened. *)
Lemma effect_returned s s' L t r :
  sane s → tracks (life_of s) L → effect o s s' → tasks s' !! inl t = Some (Fin (Returned r)) →
  tasks s !! inl t = Some (Fin (Returned r)) ∨
  opened s' !! t = None ∧ (∃ e, r = Err e) ∨ wires s' !! t = Some (Filled r).
Proof.
  intros Hs Ha He. destruct He as [ms Hms|t' c Ht Htyped|k pc pc' tb ns Hk Hq|t' q hits sid cur se Hk Hd Hp|t' q hits se Hk Hc
    |t' q hits se ws Hk Hws|t' q hits sid ns Hk idle|k pc pc' sid se tx se' lv Hk Hse Hup Hlv ns|k pc sid se tx w lv Hk Hse Htk Hlv
    |k w x todo tb ns Hk Htodo Hx|k w todo Hk Htodo ns|k needle sid sids touched Hk|k sid idle wake rec Hk Hwake Hrec Hidle
    |k sid idle Hk Hse]; simpl; intros Hr; try (by left);
    try (apply lookup_insert_Some in Hr as [[[= ->] Hr]|[Hne Hr]]; [|by left]; try done).
  - by destruct c; simpl in Hr; repeat case_match.
  - pose proof (sn_task _ Hs _ _ Hk) as Hpc. right.
    inversion Hq; subst; try done; simplify_eq/=; try (by destruct origin); try (left; split; [done|by eexists]).
    + left. split; [by destruct Hpc|by eexists].
    + by right.
    + by destruct (tracks_not_dropped s L t Ha).
  - apply lookup_insert_Some in Hr as [[_ [=]]|[Hne Hr]]. rewrite lookup_insert_ne in Hr by done. by left.
  - inversion Hup; subst; try done. by destruct origin.
  - pose proof (view_at _ _ _ Hk) as Hv. simpl view in Hv. pose proof (tracks_owner _ _ Ha _ _ _ _ _ _ _ Hv) as Hl.
    destruct (tr_wf _ _ Ha _ _ Hl) as (_ & _ & [[[= <-] Hb]|[_ Hb]]); injection Hr as Hr; [|by rewrite Hr in Hb].
    right. right. rewrite Hb in Hr. injection Hr as ->. by rewrite lookup_insert_eq.
Qed.

(** What holds of every reachable state and is needed of its calls. *)
Lemma reachable_returned now s : reachable o now s → ∀ t r, tasks s !! inl t = Some (Fin (Returned r)) →
  opened s !! t = None ∧ (∃ e, r = Err e) ∨ wires s !! t = Some (Filled r).
Proof.
  intros Hr0. pattern s. revert s Hr0. apply reachable_ind_effect; [done|]. intros s s' Hr IH He t r Ht.
  destruct (reachable_tracks o now s Hr) as [Hs [L Ha]].
  destruct (effect_returned s s' L t r Hs Ha He Ht) as [Hold|]; [|done].
  destruct (IH t r Hold) as [[Ho He']|Hw]; [left; split; [|done]|right; exact (lookup_weaken _ _ _ _ Hw (effect_wires _ _ _ Ha He))].
  destruct He as [| | | | |t' q hits se ws Hk Hws| | | | | | | |]; try done. simpl.
  rewrite lookup_insert_ne; [done|]. intros ->. congruence.
Qed.

(** The call a start is for. *)
Definition pc_call (pc : Pc) : option StartCall.t :=
  match pc with
  | Admit q | Lookup q _ | Count q _ _ | Insert q _ _ | Watch q _ _ | Dispatch q _ _ _ => Some q
  | _ => None
  end.

(** Call [t] is [q]: what it runs, and what it opened. *)
Definition call_is (s : Tracker) (t : nat) (q : StartCall.t) : Prop :=
  ∃ pc, tasks s !! inl t = Some pc ∧ (∀ q', pc_call pc = Some q' → q' = q) ∧
        (∀ se0, opened s !! t = Some se0 → fresh_session q se0).

Lemma call_is_move s s' k pc' t q :
  tasks s' = <[k := pc']> (tasks s) → opened s' = opened s →
  (∀ pc q', k = inl t → tasks s !! inl t = Some pc → pc_call pc' = Some q' → pc_call pc = Some q') →
  call_is s t q → call_is s' t q.
Proof.
  intros Ht Ho Hq (pc & Hpc & Hcall & Hop). unfold call_is. rewrite Ht, Ho. destruct (decide (k = inl t)) as [->|Hne].
  - exists pc'. rewrite lookup_insert_eq. split_and!; [done| |done]. intros q' Hq'. by eapply Hcall, Hq.
  - exists pc. by rewrite lookup_insert_ne.
Qed.

Lemma effect_call s s' t q : sane s → effect o s s' → call_is s t q → call_is s' t q.
Proof.
  intros Hs He Hc. destruct He as [ms Hms|t' c Ht Htyped|k pc pc' tb ns Hk Hq|t' q' hits sid cur se Hk Hd Hp|t' q' hits se Hk Hcap
    |t' q' hits se ws Hk Hws|t' q' hits sid ns Hk idle|k pc pc' sid se tx se' lv Hk Hse Hup Hlv ns|k pc sid se tx w lv Hk Hse Htk Hlv
    |k w x todo tb ns Hk Htodo Hx|k w todo Hk Htodo ns|k needle sid sids touched Hk|k sid idle wake rec Hk Hwake Hrec Hidle
    |k sid idle Hk Hse]; try (eapply call_is_move; [reflexivity..| |exact Hc];
      intros pc0 q0 Hk0 Hpc0 Hq0; by simplify_eq/=).
  - exact Hc.
  - eapply call_is_move; [reflexivity..| |exact Hc]. intros pc0 q0 -> Hpc0 Hq0. rewrite Hk in Hpc0. simplify_eq.
    inversion Hq; subst; try done; by destruct origin.
  - destruct Hc as (pc & Hpc & Hcall & Hop). destruct (sn_task _ Hs _ _ Hk) as [Hno Hf].
    destruct (still_parent_same (StartCall.caller q') (sessions s) se) as (_ & Hagent & Hopt & Hexp & Hrec & Hst).
    fold session in Hagent, Hopt, Hexp, Hrec, Hst. clearbody session. unfold call_is. simpl.
    destruct (decide (t' = t)) as [->|Hne].
    + simplify_eq. specialize (Hcall q' eq_refl) as ->. exists (Watch q hits sid). rewrite !lookup_insert_eq.
      split_and!; [done|by intros q' [= <-]|]. intros se0 [= <-]. destruct Hf; split; congruence.
    + exists pc. rewrite !lookup_insert_ne by congruence. done.
  - apply (call_is_move (set_task (inr sid) (Monitor sid idle (clock s + IDLE_TICK_SECS * 1000)) s) _ (inl t')
      (Dispatch q' hits sid [])); [done|done| |by eapply call_is_move].
    intros pc0 q0 [= ->] Hpc0 Hq0. simpl in Hpc0. rewrite lookup_insert_ne in Hpc0 by done. by simplify_eq/=.
  - eapply call_is_move; [reflexivity..| |exact Hc]. intros pc0 q0 -> Hpc0 Hq0. rewrite Hk in Hpc0. simplify_eq.
    inversion Hup; subst; try done; by destruct origin.
Qed.

(** A schedule with the call of [q] makes [t] that call. *)
Lemma schedule_call acts t q : ∀ s s', sane s → (∃ L, tracks (life_of s) L) →
  run_schedule o acts s = Some s' → Call t (Start q) ∈ acts → call_is s' t q.
Proof.
  assert (∀ acts s s', sane s → (∃ L, tracks (life_of s) L) → run_schedule o acts s = Some s' → call_is s t q → call_is s' t q) as Hlater.
  { induction acts0 as [|act acts0 IH]; intros s s' Hs [L Ha]; simpl; [by intros [= <-]|].
    intros (s1 & Hact & Hrun)%bind_Some Hc. apply step_effect in Hact.
    destruct (effect_simulates o s s1 L Hs Ha Hact) as (L' & HL' & _).
    apply (IH s1 s'); [by eapply effect_sane|by exists L'|done|by eapply effect_call]. }
  induction acts as [|act acts IH]; intros s s' Hs [L Ha]; simpl; [by intros _ ?%not_elem_of_nil|].
  intros (s1 & Hact & Hrun)%bind_Some Hin. pose proof (step_effect o _ _ _ Hact) as He.
  destruct (effect_simulates o s s1 L Hs Ha He) as (L' & HL' & _).
  assert (sane s1) as Hs1 by (by eapply effect_sane). apply elem_of_cons in Hin as [<-|Hin]; [|by apply (IH s1 s'); [done|exists L'|..]].
  apply (Hlater acts s1 s'); [done|by exists L'|done|]. simpl in Hact. case_match eqn:Ht; simplify_eq.
  exists (Admit q). simpl. rewrite lookup_insert_eq. split_and!; [done|by intros q' [= <-]|]. intros se0 Ho.
  destruct (sn_opened _ Hs t) as [? ?]; [by eexists|congruence].
Qed.

(** ** The properties *)

(** C8: the manager refines the life of its sessions: a reachable state has
    stages for its calls, and whatever step follows, the stages follow by at
    most one [stage_step] of one call. *)
Theorem manager_refines_life now s : reachable o now s →
  (∃ L, tracks (life_of s) L) ∧
  ∀ L act s', tracks (life_of s) L → step o act s = Some s' → ∃ L', tracks (life_of s') L' ∧ stages_move L L'.
Proof.
  intros Hr. destruct (reachable_tracks o now s Hr) as [Hs HL]. split; [done|].
  intros L act s' Ha Hstep. eapply effect_simulates; [done..|]. by eapply step_effect.
Qed.

(** C6: an answer, once sent, stays; no sender is dropped; and a start returns
    what was sent to it, whatever the rest of the schedule. *)
Theorem answered_once now s acts s' t r : reachable o now s → run_schedule o acts s = Some s' →
  wires s' !! t ≠ Some Dropped ∧
  (wires s !! t = Some (Filled r) → wires s' !! t = Some (Filled r) ∧
     ∀ r', tasks s' !! inl t = Some (Fin (Returned r')) → r' = r).
Proof.
  intros Hr Hrun. pose proof (tracker_schedule_reachable o now acts s s' Hr Hrun) as Hr'.
  destruct (reachable_tracks o now s' Hr') as [_ [L' Ha']]. split; [by eapply tracks_not_dropped|]. intros Hw.
  assert (wires s' !! t = Some (Filled r)) as Hw'.
  { apply (lookup_weaken _ _ _ _ Hw). clear Hw Hr' Ha' L'. revert s Hr Hrun. induction acts as [|act acts IH]; intros s Hr; simpl.
    - by intros [= <-].
    - intros (s1 & Hact & Hrun)%bind_Some. destruct (reachable_tracks o now s Hr) as [_ [L Ha]]. etrans.
      + eapply effect_wires; [exact Ha|by eapply step_effect].
      + apply IH; [by eapply reach_step|done]. }
  split; [done|]. intros r' Ht. destruct (reachable_returned now s' Hr' t r' Ht) as [[Hno _]|Hw2]; [|by simplify_eq].
  destruct (reachable_tracks o now s' Hr') as [Hs' _]. destruct (sn_wire _ Hs' t r Hw') as (se0 & Hse0 & _). congruence.
Qed.

(** What a start returns is about its own requests: it returns an error and
    opened no session, or its session was made of the call's requests and
    options and the answer is one such a session may give ([outcome_ok]): the
    replies of some slots in order, each from the source its request names, all
    of them when the mode or the end of the session says so. *)
Theorem start_returns_its_answer now acts s t q r :
  run_schedule o acts (tracker_new now) = Some s → Call t (Start q) ∈ acts →
  tasks s !! inl t = Some (Fin (Returned r)) →
  (opened s !! t = None ∧ ∃ e, r = Err e) ∨
  ∃ se0, opened s !! t = Some se0 ∧ fresh_session q se0 ∧ outcome_ok se0 r.
Proof.
  intros Hrun Hin Ht. assert (reachable o now s) as Hr by (eapply tracker_schedule_reachable; [apply reach_start|done]).
  destruct (schedule_call acts t q (tracker_new now) s) as (pc & _ & _ & Hop);
    [apply sane_new|exists ∅; apply tracks_new|done|done|].
  destruct (reachable_tracks o now s Hr) as [Hs _].
  destruct (reachable_returned now s Hr t r Ht) as [?|Hw]; [by left|right].
  destruct (sn_wire _ Hs t r Hw) as (se0 & Hse0 & Hok). exists se0. split_and!; [done|by apply Hop|done].
Qed.

(** ** The count of a caller *)

(** A map with a key of its own in another for each entry is no larger. *)
Lemma size_le_by {K A K' B} `{Countable K, Countable K'} (m : gmap K A) (m' : gmap K' B) (f : K → A → K') :
  (∀ k a, m !! k = Some a → is_Some (m' !! f k a)) →
  (∀ k1 a1 k2 a2, m !! k1 = Some a1 → m !! k2 = Some a2 → f k1 a1 = f k2 a2 → k1 = k2) →
  (size m ≤ size m')%nat.
Proof.
  intros Hin Hinj. rewrite <- !length_map_to_list.
  rewrite <- (length_fmap (uncurry f) (map_to_list m)), <- (length_fmap fst (map_to_list m')).
  apply submseteq_length, NoDup_submseteq.
  - apply NoDup_fmap_2_strong; [|apply NoDup_map_to_list].
    intros [k1 a1] [k2 a2] Hk1%elem_of_map_to_list Hk2%elem_of_map_to_list Hf. simpl in Hf.
    assert (k1 = k2) as -> by (by eapply Hinj). by simplify_eq.
  - intros x ([k a] & -> & Hka%elem_of_map_to_list)%list_elem_of_fmap.
    destruct (Hin k a Hka) as [b Hb]. apply list_elem_of_fmap. exists (f k a, b). split; [done|by apply elem_of_map_to_list].
Qed.

(** The calls counted for [c]. *)
Definition charged_for (c : string) (s : Tracker) : gmap nat string := filter (λ e, e.2 = c) (charged s).

(** The sessions [c] has in the table. *)
Definition open_of (c : string) (s : Tracker) : gmap string SessionEntry :=
  filter (λ e, AwaitSession.agent_id e.2.1 = c) (sessions s).

Definition count_of (c : string) (s : Tracker) : Z := default 0 (per_caller_count s !! c).

Lemma count_decrement c c' m :
  0 < default 0 (m !! c) →
  default 0 (decrement_caller_count c m !! c') = default 0 (m !! c') - (if decide (c = c') then 1 else 0).
Proof.
  unfold decrement_caller_count. destruct (m !! c) as [n|] eqn:Hn; simpl; [|lia]. intros Hpos.
  case_match eqn:Hle; case_decide as Hc; subst; rewrite ?lookup_delete_eq, ?lookup_insert_eq, ?Hn; simpl; try lia;
    rewrite ?lookup_delete_ne, ?lookup_insert_ne by done; lia.
Qed.

Lemma size_charge c c' t (m : gmap nat string) : m !! t = None →
  size (filter (λ e, e.2 = c) (<[t := c']> m)) = (size (filter (λ e : nat * string, e.2 = c) m) + if decide (c' = c) then 1 else 0)%nat.
Proof.
  intros Ht. case_decide as Hc.
  - rewrite map_filter_insert_True by done. rewrite map_size_insert_None; [lia|]. apply map_lookup_filter_None. by left.
  - rewrite map_filter_insert_False by done. rewrite delete_id by done. lia.
Qed.

Lemma size_uncharge c c' t (m : gmap nat string) : m !! t = Some c' →
  size (filter (λ e : nat * string, e.2 = c) m) = (size (filter (λ e, e.2 = c) (delete t m)) + if decide (c' = c) then 1 else 0)%nat.
Proof.
  intros Ht. rewrite <- (insert_delete_id m t c' Ht) at 1. apply size_charge. apply lookup_delete_eq.
Qed.

(** The count is the number of calls counted, and within the cap. *)
Definition counts_exact (s : Tracker) : Prop :=
  ∀ c, count_of c s = Z.of_nat (size (charged_for c s)) ∧ count_of c s ≤ Z.max 0 (effective_max_inflight o).

Lemma effect_counts s s' L : tracks (life_of s) L → effect o s s' → counts_exact s → counts_exact s'.
Proof.
  intros Ha He Hc. destruct He as [|t call Ht Htyped| | |t q hits se Hk Hcap| | | | |k w x todo tb ns Hk Htodo Hx| | | |];
    intros c; destruct (Hc c) as [Hc1 Hc2]; unfold count_of, charged_for in *; simpl; try done.
  - apply view_at in Hk. simpl view in Hk. apply (tracks_held _ _ Ha) in Hk.
    assert (charged s !! t = None) as Hno by (pose proof (tr_counted _ _ Ha t) as Ht; by rewrite Hk in Ht).
    rewrite size_charge by done. destruct (decide (StartCall.caller q = c)) as [<-|Hne].
    + rewrite lookup_insert_eq. simpl. lia.
    + rewrite lookup_insert_ne by done. lia.
  - apply view_at in Hk. simpl view in Hk. rewrite Htodo in Hk. pose proof (tracks_owner _ _ Ha _ _ _ _ _ _ _ Hk) as Hl.
    case_decide as Hd; [subst x|done]. pose proof (tr_counted _ _ Ha (Owner.tx w)) as Ht. rewrite Hl in Ht.
    cbn -[decide] in Ht. rewrite decide_True in Ht by set_solver. pose proof (size_uncharge c _ _ _ Ht) as Hsize.
    rewrite count_decrement; [case_decide; lia|].
    destruct (Hc (AwaitSession.agent_id (Owner.session w))) as [Hpos _].
    pose proof (size_uncharge (AwaitSession.agent_id (Owner.session w)) _ _ _ Ht) as Hself.
    rewrite decide_True in Hself by done. unfold count_of, charged_for in Hpos. lia.
Qed.

Lemma reachable_counts now s : reachable o now s → counts_exact s.
Proof.
  intros Hr0. pattern s. revert s Hr0. apply reachable_ind_effect.
  - intros c. unfold count_of, charged_for. simpl. rewrite map_filter_empty, map_size_empty, lookup_empty. simpl. lia.
  - intros s s' Hr IH He. destruct (reachable_tracks o now s Hr) as [_ [L Ha]]. by eapply effect_counts.
Qed.

(** C14: a caller's count is the number of its calls between being counted and
    being taken off again; its sessions are among them, within the cap. *)
Theorem caller_within_inflight now s c : reachable o now s →
  count_of c s = Z.of_nat (size (charged_for c s)) ∧
  Z.of_nat (size (open_of c s)) ≤ count_of c s ≤ Z.max 0 (effective_max_inflight o).
Proof.
  intros Hr. destruct (reachable_counts now s Hr c) as [Hc1 Hc2]. split_and!; [done| |done].
  destruct (reachable_tracks o now s Hr) as [_ [L Ha]].
  assert (∀ sid e, open_of c s !! sid = Some e → L !! e.2 = Some (Open sid c)) as Hopen.
  { intros sid [se t] [Hse Hag]%map_lookup_filter_Some. simpl in *. apply (tracks_table _ _ Ha). simpl.
    by rewrite lookup_fmap, Hse, <- Hag. }
  rewrite Hc1. apply inj_le, (size_le_by _ _ (λ _ e, e.2)).
  - intros sid e He%Hopen. exists c. apply map_lookup_filter_Some. split; [|done].
    pose proof (tr_counted _ _ Ha e.2) as Ht. by rewrite He in Ht.
  - intros sid1 e1 sid2 e2 He1%Hopen He2%Hopen Heq. rewrite Heq in He1. congruence.
Qed.

(** ** Recorded replies *)

(** The session is [sid] with the policy [policy]; [closed] holds of the reasons
    it may be closed for, [expired] if a monitor may claim it. *)
Section kept.
Context (sid : string) (policy : TimeoutPolicy.t) (closed : string → Prop) (expired : Prop).

(** An answer that has [r] among its replies, or is the error of a close or of a
    claim of the monitor. *)
Definition reports (r : ReplyResult.t) (out : result OrchestrationError.t AwaitResult.t) : Prop :=
  match out with
  | Ok res => r ∈ AwaitResult.replies res
  | Err e =>
      (∃ reason, e = OrchestrationError.SessionClosed reason ∧ closed reason) ∨
      (e = OrchestrationError.IdleTimeoutExceeded "idle-timeout" ∧ policy = TimeoutPolicy.Fail ∧ expired)
  end.

(** The tasks that may take the session to answer an error. *)
Definition enders (s : Tracker) : Prop :=
  (∀ k reason, tasks s !! k = Some (Closing sid reason) → closed reason) ∧
  (∀ k idle, tasks s !! k = Some (Claimed sid idle) → expired).

(** Where a recorded reply of call [t] is: in its slot, with the owner of the
    sender, or in the answer. *)
Inductive kept_reply (s : Tracker) (t i : nat) (r : ReplyResult.t) : Prop :=
| kept_slot se :
    sessions s !! sid = Some (se, t) → AwaitSession.received se !! i = Some (Some r) →
    (∀ res, tasks s !! inl t = Some (EarlyResolve sid res) → r ∈ AwaitResult.replies res) → kept_reply s t i r
| kept_owner k w :
    tasks s !! k = Some (Owning w) → Owner.tx w = t → reports r (Owner.outcome w) → kept_reply s t i r
| kept_answer out : wires s !! t = Some (Filled out) → reports r out → kept_reply s t i r.

Lemma snapshot_has se now i r :
  AwaitOptions.mode (AwaitSession.options se) = AwaitMode.AllOf → AwaitSession.received se !! i = Some (Some r) →
  r ∈ snapshot_replies se now.
Proof. intros Hm Hr. unfold snapshot_replies. rewrite Hm. apply elem_omap_id. by exists i. Qed.

Lemma snapshot_all_has se i r : AwaitSession.received se !! i = Some (Some r) → r ∈ snapshot_replies_all se.
Proof. intros Hr. apply elem_omap_id. by exists i. Qed.

Lemma idle_reports se tx idle now i r :
  AwaitOptions.on_idle_timeout (AwaitSession.options se) = policy → expired →
  AwaitSession.received se !! i = Some (Some r) → reports r (Owner.outcome (idle_owner se tx idle now)).
Proof.
  intros Hp He Hr. unfold idle_owner. case_match; [|by right]. apply (snapshot_all_has _ i).
  simpl. by rewrite list_lookup_imap, Hr.
Qed.

(** A step of another task, or one to no early answer. *)
Lemma kept_frame s s' k pc' t i r :
  tasks s' = <[k := pc']> (tasks s) → wires s ⊆ wires s' →
  (∀ se, sessions s !! sid = Some (se, t) → AwaitSession.received se !! i = Some (Some r) →
     ∃ se', sessions s' !! sid = Some (se', t) ∧ AwaitSession.received se' !! i = Some (Some r)) →
  (∀ se res, k = inl t → pc' = EarlyResolve sid res → sessions s' !! sid = Some (se, t) →
     AwaitSession.received se !! i = Some (Some r) → r ∈ AwaitResult.replies res) →
  (∀ w, tasks s !! k = Some (Owning w) → Owner.tx w = t →
     (∃ todo, pc' = Owning (with_todo w todo)) ∨ wires s' !! t = Some (Filled (Owner.outcome w))) →
  kept_reply s t i r → kept_reply s' t i r.
Proof.
  intros Ht Hw Hsess Hpc Hown [se Hse Hr Hearly|k0 w Hk Htx Hout|out Hf Hout].
  - destruct (Hsess se Hse Hr) as (se' & Hse' & Hr'). apply (kept_slot _ _ _ _ se'); [done..|].
    intros res. rewrite Ht. intros [[-> ->]|[_ H1]]%lookup_insert_Some; [by eapply Hpc|by apply Hearly].
  - destruct (decide (k = k0)) as [->|Hne].
    + destruct (Hown w Hk Htx) as [[todo ->]|Hf]; [|by eapply kept_answer].
      apply (kept_owner _ _ _ _ k0 (with_todo w todo)); [by rewrite Ht, lookup_insert_eq|done..].
    + apply (kept_owner _ _ _ _ k0 w); [by rewrite Ht, lookup_insert_ne|done..].
  - apply (kept_answer _ _ _ _ out); [by eapply lookup_weaken|done].
Qed.

(** The owner of a taken session answers with what its slots held. *)
Lemma take_reports s se tx k pc w i r :
  sane s → enders s → tasks s !! k = Some pc → takes s sid se tx k pc w →
  AwaitOptions.on_idle_timeout (AwaitSession.options se) = policy →
  AwaitOptions.mode (AwaitSession.options se) = AwaitMode.AllOf →
  (∀ t res, k = inl t → pc = EarlyResolve sid res → r ∈ AwaitResult.replies res) →
  AwaitSession.received se !! i = Some (Some r) → reports r (Owner.outcome w).
Proof.
  intros Hs [Hclose Hidle] Hk Ht Hp Hm Hearly Hr.
  destruct Ht as [k slot reply origin se1 Hc Hrec se' Hcomp|t res|t mode now res|k reason e|k idle].
  - apply record_reply_Ok in Hrec as [Hnone ->]. apply (snapshot_has _ _ i); [done|].
    simpl. rewrite list_lookup_insert_ne; [done|]. intros <-. congruence.
  - by eapply Hearly.
  - by apply (snapshot_all_has _ i).
  - left. exists reason. split; [done|by eapply Hclose].
  - apply (idle_reports _ _ _ _ i); [done|by eapply Hidle|done].
Qed.

Lemma effect_kept s s' L t i r se0 :
  sane s → enders s → tracks (life_of s) L → effect o s s' → opened s !! t = Some se0 →
  AwaitOptions.on_idle_timeout (AwaitSession.options se0) = policy →
  AwaitOptions.mode (AwaitSession.options se0) = AwaitMode.AllOf → kept_reply s t i r → kept_reply s' t i r.
Proof.
  intros Hs Hend Ha He Hse0 Hp Hm Hkept. pose proof (effect_wires _ _ _ Ha He) as Hwires.
  assert (∀ sid se, sessions s !! sid = Some (se, t) → AwaitSession.options se = AwaitSession.options se0) as Hopt.
  { intros sid1 se Hse. destruct (sn_session _ Hs _ _ _ Hse) as (_ & _ & _ & se1 & Hse1 & Hsame). simplify_eq.
    by rewrite (sr_options _ _ Hsame). }
  destruct He as [ms Hms|t' c Ht Htyped|k pc pc' tb ns Hk Hq|t' q hits sid1 cur se Hk Hd Hprep|t' q hits se Hk Hcap
    |t' q hits se ws Hk Hws|t' q hits sid1 ns Hk idle|k pc pc' sid1 se tx se' lv Hk Hse Hup Hlv ns|k pc sid1 se tx w lv Hk Hse Htk Hlv
    |k w x todo tb ns Hk Htodo Hx|k w todo Hk Htodo ns|k needle sid1 sids touched Hk|k sid1 idle wake rec Hk Hwake Hrec Hidle
    |k sid1 idle Hk Hse];
    try (eapply (kept_frame s); [reflexivity|exact Hwires|by eauto|done| |exact Hkept]; intros w0 Hw0; congruence).
  - destruct Hkept; [by eapply kept_slot|by eapply kept_owner|by eapply kept_answer].
  - apply (kept_frame s _ (inl t') (begin c)); try done; [by eauto| |intros w0 Hw0; congruence].
    intros se res _ Hb. destruct c; simpl in Hb; by repeat case_match.
  - apply (kept_frame s _ k pc'); try done; [by eauto| |intros w0 Hw0; rewrite Hk in Hw0; simplify_eq; by inversion Hq].
    intros se res _ ->. by inversion Hq.
  - apply (kept_frame s _ (inl t') (Watch q hits (AwaitSession.id se))); try done; [|intros w0 Hw0; congruence].
    intros se' Hse Hr. exists se'. split; [|done]. simpl. rewrite lookup_insert_ne; [done|]. intros Heq.
    pose proof (insert_absent s L t' q hits se Ha Hk). subst sid0; congruence.
  - apply view_at in Hk as Hv. destruct (tracks_waits _ _ Ha t' sid1 Hv) as (_ & st & Hl & Hsid & _).
    pose proof (no_monitor s L t' sid1 _ st Hs Ha Hk Hl Hsid (λ x, x)) as Hno.
    apply (kept_frame (set_task (inr sid1) (Monitor sid1 idle (clock s + IDLE_TICK_SECS * 1000)) s) _ (inl t')
      (Dispatch q hits sid1 [])); try done; [by eauto|simpl; intros w0 Hw0; rewrite lookup_insert_ne in Hw0 by done; congruence|].
    apply (kept_frame s _ (inr sid1) (Monitor sid1 idle (clock s + IDLE_TICK_SECS * 1000))); try done; [by eauto|].
    intros w0 Hw0. congruence.
  - apply view_at in Hk as Hv.
    assert (∀ t, k = inl t → view pc = Waits sid1 → t = tx) as Htx.
    { intros t' -> Hw. rewrite Hw in Hv. by eapply waits_sender. }
    destruct (updates_spec s sid1 se tx k pc pc' se' Hs Hk Hse Hup Htx) as (_ & Hsame & Hkeep & _).
    apply (kept_frame s _ k pc'); try done; simpl.
    + intros se1 Hse1 Hr. destruct (decide (sid1 = sid)) as [->|Hne].
      * simplify_eq. exists se'. rewrite lookup_insert_eq. split; [done|by apply Hkeep].
      * exists se1. by rewrite lookup_insert_ne.
    + intros se1 res -> -> Hse1 Hr. inversion Hup; subst.
      rewrite lookup_insert_eq in Hse1. simplify_eq. apply (snapshot_has _ _ i); [|done].
      by rewrite (sr_options _ _ Hsame), (Hopt _ _ Hse).
    + intros w0 Hw0. rewrite Hk in Hw0. simplify_eq. by inversion Hup.
  - apply view_at in Hk as Hv.
    assert (∀ t, k = inl t → view pc = Waits sid1 → t = tx) as Htx.
    { intros t' -> Hw. rewrite Hw in Hv. by eapply waits_sender. }
    destruct (takes_spec s sid1 se tx k pc w Hs Hk Hse Htk Htx) as (se1 & _ & _ & Hw).
    destruct Hkept as [se' Hse' Hr Hearly|k0 w0 Hk0 Htx0 Hout|out Hf Hout].
    + destruct (decide (sid1 = sid)) as [->|Hne].
      * simplify_eq. apply (kept_owner _ _ _ _ k w); [by apply lookup_insert_eq|by apply Hw|].
        eapply take_reports; [done|done|exact Hk|exact Htk|by rewrite (Hopt _ _ Hse)..| |exact Hr].
        intros t' res -> ->. specialize (Htx t' eq_refl eq_refl) as ->. by apply Hearly.
      * apply (kept_slot _ _ _ _ se'); [by simpl; rewrite lookup_delete_ne|done|].
        intros res. simpl. intros [[_ H1]|[_ H1]]%lookup_insert_Some; [done|by apply Hearly].
    + apply (kept_owner _ _ _ _ k0 w0); [|done..]. simpl. rewrite lookup_insert_ne; [done|]. intros <-.
      rewrite Hk in Hk0. simplify_eq. by inversion Htk.
    + by eapply kept_answer.
  - apply (kept_frame s _ k (Owning (with_todo w todo))); try done; [by eauto|]. intros w0 Hw0 _. rewrite Hk in Hw0.
    simplify_eq. left. by exists todo.
  - apply (kept_frame s _ k (Fin (Owner.back w))); try done; [by eauto|]. intros w0 Hw0 <-. rewrite Hk in Hw0.
    simplify_eq. right. by apply lookup_insert_eq.
Qed.

(** [on_reply] answered [Ok], or will: it is completing the session. *)
Definition acknowledged (s : Tracker) (k : Tid) : Prop :=
  tasks s !! k = Some (Fin (Answered (Ok tt))) ∨ ∃ w, tasks s !! k = Some (Owning w).

Lemma acknowledged_kept s L k slot reply origin a s' se t :
  sane s → tracks (life_of s) L → tasks s !! k = Some (Reply sid slot reply origin) →
  step o (Step k a) s = Some s' → acknowledged s' k →
  sessions s !! sid = Some (se, t) → AwaitOptions.mode (AwaitSession.options se) = AwaitMode.AllOf →
  kept_reply s' t (Z.to_nat slot) (attributed se slot reply).
Proof.
  intros Hs Ha Hk Hstep Hack Hse Hm.
  assert (s' = reply_step o k sid slot reply origin a s) as ->.
  { cbn in Hstep. rewrite Hk in Hstep. cbn in Hstep. destruct k; by simplify_eq. }
  assert (∀ e s1, acknowledged (set_task k (Fin (reply_final sid origin (Err e))) s1) k → False) as Herr.
  { intros e s1 [Hf|[w Hw]]; simpl in *; rewrite lookup_insert_eq in *; [|done]. by destruct origin. }
  unfold reply_step, reply_section in *. rewrite Hse in *.
  destruct (check_reply se slot reply) as [[]|e] eqn:Hc; [|by apply Herr in Hack].
  destruct (AwaitSession.record_reply slot (attributed se slot reply) se) as [se1|e] eqn:Hr; [|by apply Herr in Hack].
  apply record_reply_Ok in Hr as [Hnone ->].
  set (se1 := AwaitSession.set_received (<[Z.to_nat slot := Some (attributed se slot reply)]> (AwaitSession.received se)) se) in *.
  assert (AwaitSession.received se1 !! Z.to_nat slot = Some (Some (attributed se slot reply))) as Hin.
  { apply list_lookup_insert_eq. by eapply lookup_lt_Some. }
  assert (k ≠ inl t) as Hkt.
  { intros ->. apply view_at in Hk.
    assert (table (life_of s) !! sid = Some (t, AwaitSession.agent_id se)) as Ht by (simpl; by rewrite lookup_fmap, Hse).
    pose proof (tr_view _ _ Ha _ _ (tracks_table _ _ Ha _ _ _ Ht)) as Hv. simpl in Hk, Hv. congruence. }
  assert (∀ pc lv, kept_reply (mkTracker (<[sid := (AwaitSession.set_last_activity (clock s) se1, t)]> (sessions s))
    (per_caller_count s) lv (turn_batches s) (wires s) (<[k := pc]> (tasks s)) (clock s) (notes s) (drawn s) (charged s) (opened s))
    t (Z.to_nat slot) (attributed se slot reply)) as Hkeep.
  { intros pc lv. apply (kept_slot _ _ _ _ (AwaitSession.set_last_activity (clock s) se1)); [by apply lookup_insert_eq|done|].
    intros res. simpl. rewrite lookup_insert_ne by done. intros Ht. exfalso.
    destruct (sn_task _ Hs _ _ Ht) as [_ Hall]. specialize (Hall se Hse Hm). rewrite Forall_lookup in Hall.
    by destruct (Hall _ _ Hnone). }
  set (settled := match origin with ByClaim => Some (Answers.mark_recorded_and_settle a) | _ => None end) in *.
  destruct settled as [[[]|e]|].
  2:{ by apply Herr in Hack. }
  all: destruct (AwaitSession.is_complete _) eqn:Hcomp; [|apply Hkeep; done].
  all: eapply (kept_owner _ _ _ _ k); [by apply lookup_insert_eq|done|]; by apply (snapshot_has _ _ (Z.to_nat slot)).
Qed.

Lemma schedule_kept now t i r se0 acts : ∀ s s', reachable o now s → run_schedule o acts s = Some s' →
  (∀ acts1 acts2 s1, acts = acts1 ++ acts2 → run_schedule o acts1 s = Some s1 → enders s1) →
  opened s !! t = Some se0 → AwaitOptions.on_idle_timeout (AwaitSession.options se0) = policy → AwaitOptions.mode (AwaitSession.options se0) = AwaitMode.AllOf →
  kept_reply s t i r → kept_reply s' t i r.
Proof.
  induction acts as [|act acts IH]; intros s s' Hr; cbn; [by intros [= <-]|].
  intros (s1 & Hact & Hrun)%bind_Some Hend Hop Hp Hm Hkept. destruct (reachable_tracks o now s Hr) as [Hs [L Ha]].
  pose proof (step_effect o _ _ _ Hact) as He.
  apply (IH s1 s'); [by eapply reach_step|done| | |done|done|eapply effect_kept; eauto; by apply (Hend [] (act :: acts))].
  { intros acts1 acts2 s2 -> Hrun2. apply (Hend (act :: acts1) acts2); [done|]. cbn. by rewrite Hact. }
  eapply lookup_weaken; [exact Hop|by eapply effect_opened].
Qed.

Lemma schedule_opened acts now t : ∀ s s', reachable o now s → run_schedule o acts s = Some s' →
  is_Some (opened s !! t) → is_Some (opened s' !! t).
Proof.
  induction acts as [|act acts IH]; intros s s' Hr; cbn; [by intros [= <-]|].
  intros (s1 & Hact & Hrun)%bind_Some [se0 Ho]. destruct (reachable_tracks o now s Hr) as [Hs _].
  apply (IH s1 s'); [by eapply reach_step|done|]. exists se0.
  eapply lookup_weaken; [exact Ho|]. eapply effect_opened; [done|by eapply step_effect].
Qed.

(** A call that has returned keeps a reply in its answer only. *)
Lemma kept_returned now s t i r out :
  reachable o now s → kept_reply s t i r → is_Some (opened s !! t) → tasks s !! inl t = Some (Fin (Returned out)) → reports r out.
Proof.
  intros Hr Hkept [se0 Ho] Ht. destruct (reachable_tracks o now s Hr) as [Hs [L Ha]].
  destruct (reachable_returned now s Hr t _ Ht) as [[? _]|Hw]; [congruence|].
  pose proof (tr_answer _ _ Ha t) as Hans. simpl in Hans. rewrite Hw in Hans.
  destruct Hkept as [se Hse Hrec _|k w Hk Htx Hout|out' Hf Hout].
  - assert (table (life_of s) !! sid = Some (t, AwaitSession.agent_id se)) as Htab by (simpl; by rewrite lookup_fmap, Hse).
    by rewrite (tracks_table _ _ Ha _ _ _ Htab) in Hans.
  - apply view_at in Hk. simpl view in Hk. rewrite Htx in Hk. by rewrite (tracks_owner _ _ Ha _ _ _ _ _ _ _ Hk) in Hans.
  - by simplify_eq.
Qed.
End kept.

(** On the way some task is at [pc]. *)
Definition passes (acts : list act) (s : Tracker) (pc : Pc) : Prop :=
  ∃ acts1 acts2 s' k, acts = acts1 ++ acts2 ∧ run_schedule o acts1 s = Some s' ∧ tasks s' !! k = Some pc.

(** C5: when [on_reply] acknowledges a reply to a session that wants every
    reply, whatever its start returns later, after any interleaving, is a result
    with that reply as it was recorded - or the error of a [close] of the
    session, with the reason of a close that was pending in the meantime, or,
    if the session's policy is [Fail], the idle timeout's, after the monitor
    claimed the session in the meantime.  No other error is possible. *)
Theorem acknowledged_reply_in_answer now s k sid slot reply origin a s1 se t acts s2 out :
  reachable o now s → tasks s !! k = Some (Reply sid slot reply origin) →
  sessions s !! sid = Some (se, t) → AwaitOptions.mode (AwaitSession.options se) = AwaitMode.AllOf →
  step o (Step k a) s = Some s1 → acknowledged s1 k →
  run_schedule o acts s1 = Some s2 → tasks s2 !! inl t = Some (Fin (Returned out)) →
  match out with
  | Ok res => attributed se slot reply ∈ AwaitResult.replies res
  | Err e =>
      (∃ reason, e = OrchestrationError.SessionClosed reason ∧ passes acts s1 (Closing sid reason)) ∨
      (e = OrchestrationError.IdleTimeoutExceeded "idle-timeout" ∧
       AwaitOptions.on_idle_timeout (AwaitSession.options se) = TimeoutPolicy.Fail ∧
       ∃ idle, passes acts s1 (Claimed sid idle))
  end.
Proof.
  intros Hr Hk Hse Hm Hstep Hack Hrun Ht. destruct (reachable_tracks o now s Hr) as [Hs [L Ha]].
  assert (reachable o now s1) as Hr1 by (by eapply reach_step).
  destruct (sn_session _ Hs _ _ _ Hse) as (_ & _ & _ & se0 & Hse0 & Hsame).
  assert (opened s1 !! t = Some se0) as Hse1.
  { eapply lookup_weaken; [exact Hse0|]. eapply effect_opened; [done|by eapply step_effect]. }
  eapply (kept_returned sid (AwaitOptions.on_idle_timeout (AwaitSession.options se))
    (λ reason, passes acts s1 (Closing sid reason)) (∃ idle, passes acts s1 (Claimed sid idle)) now s2 t (Z.to_nat slot));
    [by eapply tracker_schedule_reachable| |by eapply schedule_opened|exact Ht].
  eapply (schedule_kept _ _ _ _ now t _ _ se0 acts s1 s2); [done|done| |done|by rewrite (sr_options _ _ Hsame)
    |by rewrite <- (sr_options _ _ Hsame)|by eapply acknowledged_kept].
  intros acts1 acts2 s' -> Hrun'. split; intros; [|eexists]; by eexists acts1, acts2, s', _.
Qed.
End props.

(** ** On the demonstration *)

Lemma manager_refines_life_witness :
  (∃ L, tracks (life_of (demo_run demo_open)) L) ∧
  ∀ L act s', tracks (life_of (demo_run demo_open)) L → step demo_options act (demo_run demo_open) = Some s' →
    ∃ L', tracks (life_of s') L' ∧ stages_move L L'.
Proof. apply (manager_refines_life demo_options 0 (demo_run demo_open)). apply demo_reachable. demo. Defined.

(** The answer is sent after the replies and before the start's last step. *)
Definition demo_sent : list act := demo_open ++ take 10 demo_replies.

Lemma answered_once_witness :
  ∃ r, wires (demo_run demo_sent) !! 0%nat = Some (Filled r) ∧
       wires (demo_run (demo_open ++ demo_replies)) !! 0%nat = Some (Filled r).
Proof.
  destruct (wires (demo_run demo_sent) !! 0%nat) as [[|r]|] eqn:Hw; [vm_compute in Hw; discriminate| |vm_compute in Hw; discriminate].
  exists r. split; [reflexivity|].
  apply (answered_once demo_options 0 (demo_run demo_sent) (drop 10 demo_replies) (demo_run (demo_open ++ demo_replies)) 0%nat r);
    [apply demo_reachable; demo|demo|exact Hw].
Defined.

Definition demo_result (s : Tracker) : result OrchestrationError.t AwaitResult.t :=
  match tasks s !! (inl 0%nat : nat + string) with
  | Some (Fin (Returned r)) => r
  | _ => Err (OrchestrationError.NotFound "")
  end.

Lemma start_returns_its_answer_witness :
  ∃ se0, opened (demo_run (demo_open ++ demo_replies)) !! 0%nat = Some se0 ∧ fresh_session demo_call se0 ∧
         outcome_ok se0 (demo_result (demo_run (demo_open ++ demo_replies))).
Proof.
  destruct (start_returns_its_answer demo_options 0 (demo_open ++ demo_replies) (demo_run (demo_open ++ demo_replies)) 0%nat
    demo_call (demo_result (demo_run (demo_open ++ demo_replies)))) as [[Hno _]|Hyes]; [demo| |demo| |exact Hyes].
  - left.
  - exfalso. vm_compute in Hno. discriminate.
Defined.

Lemma caller_within_inflight_witness :
  Z.of_nat (size (open_of "a" (demo_run demo_open))) ≤ count_of "a" (demo_run demo_open) ≤ 3.
Proof.
  destruct (caller_within_inflight demo_options 0 (demo_run demo_open) "a") as [_ [H1 H2]]; [apply demo_reachable; demo|].
  split; [exact H1|exact H2].
Defined.

(** The second reply is acknowledged, and is in the answer. *)
Lemma acknowledged_reply_in_answer_witness :
  let reply := ReplyResult.mk 1 "agent:c" [2] ReplyStatus.Completed 1000 None in
  match demo_result (demo_run (demo_open ++ demo_replies)) with
  | Ok res => reply ∈ AwaitResult.replies res
  | Err _ => False
  end.
Proof.
  set (s := demo_run (demo_open ++ take 6 demo_replies)).
  destruct (demo_result (demo_run (demo_open ++ demo_replies))) as [res|e] eqn:Hres; [|vm_compute in Hres; discriminate].
  destruct (sessions s !! "s1") as [[se t]|] eqn:Hse; [|vm_compute in Hse; discriminate].
  assert (t = 0%nat) as -> by (vm_compute in Hse; congruence).
  assert (attributed se 1 (ReplyResult.mk 1 "agent:c" [2] ReplyStatus.Completed 1000 None) =
          ReplyResult.mk 1 "agent:c" [2] ReplyStatus.Completed 1000 None) as Hatt by (vm_compute in Hse; injection Hse as <-; reflexivity).
  rewrite <- Hatt.
  apply (acknowledged_reply_in_answer demo_options 0 s (inl 2%nat) "s1" 1
    (ReplyResult.mk 1 "agent:c" [2] ReplyStatus.Completed 1000 None) (BySend "agent:c") (demo_answers "s1")
    (demo_run (demo_open ++ take 7 demo_replies)) se 0%nat (drop 7 demo_replies) (demo_run (demo_open ++ demo_replies)) (Ok res)).
  - apply demo_reachable. demo.
  - demo.
  - exact Hse.
  - vm_compute in Hse. injection Hse as <-. reflexivity.
  - demo.
  - right. demo.
  - demo.
  - rewrite <- Hres. demo.
Defined.
