(* ===== verification/AwaitGaps.v ===== *)
(** * Where the session manager falls short

    Schedules on which it does less than its comments and its shape promise. *)
From S2P Require Import Prelude RustStr AgentTree AwaitData AwaitManager AwaitDemo.
Open Scope string_scope.
Open Scope list_scope.
Open Scope Z_scope.

(** ** A batch published for a session that is gone *)

Definition protected_options : ManagerOptions.t :=
  ManagerOptions.mk 3 600 (λ _, true) (CapabilityConfig.mk None None None None None) false true.

(** Both turns of the batch are registered. *)
Definition protected_answers : Answers.t :=
  Answers.mk "s1" None (Ok tt) (PreparedTurnBatch.mk [Ok tt; Ok tt] ["session:s1:slot:0"; "session:s1:slot:1"]) (Ok tt) (Ok tt).

Definition protected_steps (k : nat + string) (n : nat) : list act := replicate n (Step k protected_answers).

(** The session is closed between its insertion and its dispatch; the batch is
    published all the same.  Everybody finishes. *)
Definition closed_before_dispatch : list act :=
  Call 0 (Start demo_call) :: protected_steps (inl 0%nat) 5 ++
  Call 1 (Close "s1" "operator") :: protected_steps (inl 1%nat) 5 ++
  protected_steps (inl 0%nat) 3 ++ [Pass 5000] ++ protected_steps (inr "s1") 1.

Definition finished (pc : Pc) : bool := match pc with Fin _ => true | _ => false end.

Example published_batch_stays :
  match run_schedule protected_options closed_before_dispatch (tracker_new 0) with
  | Some s =>
      forallb (λ kpc, finished (snd kpc)) (map_to_list (tasks s)) = true ∧ sessions s !! "s1" = None ∧
      turn_batches s !! "s1" = Some (Answers.prepare_turn_batch protected_answers) ∧
      existsb (λ n, match n with DetachedTurns _ => true | _ => false end) (notes s) = false
  | None => False
  end.
Proof. vm_compute. split_and!; reflexivity. Qed.

(** ** A claim that does not settle *)

Definition one_request : StartCall.t :=
  StartCall.mk None "a" None [demo_request "agent:b"]
    (AwaitOptions.mk AwaitMode.AllOf (Some 60) TimeoutPolicy.Fail false) None (λ _, None).

Definition unsettled_answers : Answers.t :=
  Answers.mk "s1" None (Ok tt) (PreparedTurnBatch.mk [] []) (Ok tt) (Err "claim-conflict").

(** The reply is recorded before the claim is settled. *)
Definition unsettled_claim : list act :=
  Call 0 (Start one_request) :: demo_steps (inl 0%nat) 7 ++
  [Call 1 (RouteClaimedReply (ExactReplyRoute.mk "a" "s1" 0) [1]);
   Step (inl 1%nat) unsettled_answers; Step (inl 1%nat) unsettled_answers].

(** The session has every reply and nobody answers it. *)
Example unsettled_claim_leaves_complete :
  let s := demo_run unsettled_claim in
  tasks s !! (inl 1%nat : nat + string) = Some (Fin (Answered (Err (OrchestrationError.Downstream "claim-conflict")))) ∧
  AwaitSession.is_complete ∘ fst <$> sessions s !! "s1" = Some true ∧ wires s !! 0%nat = None ∧
  tasks s !! (inl 0%nat : nat + string) = Some (Park "s1").
Proof. vm_compute. split_and!; reflexivity. Qed.

(** When the timeout passes, the start gets an error although its reply is
    there. *)
Example unsettled_claim_times_out :
  tasks (demo_run (unsettled_claim ++ [Pass 65000] ++ demo_steps (inr "s1") 6 ++ demo_steps (inl 0%nat) 1)) !! (inl 0%nat : nat + string)
  = Some (Fin (Returned (Err (OrchestrationError.IdleTimeoutExceeded "idle-timeout")))).
Proof. vm_compute. reflexivity. Qed.

(** ** A liveness record without a session *)

Definition closed_before_watch : list act :=
  Call 0 (Start demo_call) :: demo_steps (inl 0%nat) 4 ++
  Call 1 (Close "s1" "operator") :: demo_steps (inl 1%nat) 5 ++ demo_steps (inl 0%nat) 1.

Example liveness_outlives_session :
  let s := demo_run closed_before_watch in
  tasks s !! (inl 1%nat : nat + string) = Some (Fin (Answered (Ok tt))) ∧ sessions s !! "s1" = None ∧
  liveness s !! "s1" = Some (LivenessRec.mk 0 60).
Proof. vm_compute. split_and!; reflexivity. Qed.
