(* ===== verification/MailboxData.v ===== *)
(** * The data of mailboxes

    Models the types a mailbox handles: messages ([crates/shared-types/src/
    mailbox.rs]), the spec and the facts of a protected turn
    ([turn_attribution.rs]), the entries of a queue and the checks on a message
    ([crates/messaging/src/mailbox.rs]).  A payload is its list of bytes, an
    instant a count of milliseconds, a sealed credential its bytes. *)
From S2P Require Import Prelude RustStr AwaitData.
Open Scope string_scope.
Open Scope list_scope.
Open Scope Z_scope.

(** ** Messages *)

Module MessageKind.
Inductive t := User | Agent | Control | Auto | System.
#[global] Instance eq_dec : EqDecision t.
Proof. solve_decision. Defined.
End MessageKind.

Module MessageOrigin.
Record t := mk {
  message_id : string;
  original_channel : string;
  original_sender : string;
  adapter_id : string;
  channel_metadata : gmap string string;
  received_at : Z;
  context : option MessageContext.t
}.
#[global] Instance eq_dec : EqDecision t.
Proof. solve_decision. Defined.
End MessageOrigin.

Module Message.
Record t := mk {
  id : string;
  kind : MessageKind.t;
  from : string;
  to : string;
  payload : list Z;
  context : option MessageContext.t;
  timestamp : Z;
  origin : option MessageOrigin.t
}.
#[global] Instance eq_dec : EqDecision t.
Proof. solve_decision. Defined.
End Message.

(** ** Bounds *)

Definition DEFAULT_CAPACITY : Z := 100.
Definition MAX_PAYLOAD_BYTES : Z := 1048576.
Definition MAX_METADATA_ENTRIES : Z := 32.
Definition MAX_METADATA_ENTRY_BYTES : Z := 256.
Definition MAX_TURN_RECOVERY_LATCHES : Z := 4096.

Definition too_large (s : option string) : bool := match s with Some v => MAX_ID_BYTES <? len v | None => false end.

Definition validate_message_context (ctx : MessageContext.t) : result MsgError.t unit :=
  guard_err
    (too_large (MessageContext.task_id ctx)
     || too_large (MessageContext.run_id ctx)
     || too_large (MessageContext.execution_id ctx)
     || too_large (MessageContext.trace_id ctx)
     || too_large (MessageContext.in_reply_to ctx)
     || too_large (MessageContext.correlation_id ctx))
    (MsgError.InvalidPayload "context_field_too_large").

Definition validate_context_opt (ctx : option MessageContext.t) : result MsgError.t unit :=
  match ctx with Some context => validate_message_context context | None => Ok tt end.

Definition metadata_entry_too_large (e : string * string) : bool :=
  (MAX_METADATA_ENTRY_BYTES <? len e.1) || (MAX_METADATA_ENTRY_BYTES <? len e.2).

Definition validate_origin (origin : MessageOrigin.t) : result MsgError.t unit :=
  _ ← guard_err (MAX_METADATA_ENTRIES <? Z.of_nat (size (MessageOrigin.channel_metadata origin)))
        (MsgError.InvalidPayload "metadata_oversize");
  _ ← guard_err
        ((MAX_ID_BYTES <? len (MessageOrigin.message_id origin))
         || (MAX_ID_BYTES <? len (MessageOrigin.original_channel origin))
         || (MAX_ID_BYTES <? len (MessageOrigin.original_sender origin))
         || (MAX_ID_BYTES <? len (MessageOrigin.adapter_id origin)))
        (MsgError.InvalidPayload "origin_header_too_large");
  _ ← guard_err (existsb metadata_entry_too_large (map_to_list (MessageOrigin.channel_metadata origin)))
        (MsgError.InvalidPayload "metadata_entry_too_large");
  validate_context_opt (MessageOrigin.context origin).

Definition validate_message (msg : Message.t) : result MsgError.t unit :=
  _ ← guard_err (MAX_PAYLOAD_BYTES <? size_of (Message.payload msg)) (MsgError.InvalidPayload "payload_too_large");
  _ ← guard_err
        ((MAX_ID_BYTES <? len (Message.id msg)) || (MAX_ID_BYTES <? len (Message.from msg))
         || (MAX_ID_BYTES <? len (Message.to msg)))
        (MsgError.InvalidPayload "header_too_large");
  _ ← match Message.origin msg with Some origin => validate_origin origin | None => Ok tt end;
  validate_context_opt (Message.context msg).

(** [matches!(msg.kind, MessageKind::User | MessageKind::Control)]. *)
Definition is_high (msg : Message.t) : bool :=
  match Message.kind msg with MessageKind.User | MessageKind.Control => true | _ => false end.

(** ** Protected turns *)

Module TurnCompletionOwner.
Inductive t := AwaitSession | ExecutionBoundary.
#[global] Instance eq_dec : EqDecision t.
Proof. solve_decision. Defined.
End TurnCompletionOwner.

Module QueuedTurnSpec.
Record t := mk {
  turn_id : string;
  expected_agent : string;
  parent_agent : string;
  session_id : string;
  slot : Z;
  completion_owner : TurnCompletionOwner.t;
  original_task_id : option string;
  original_run_id : option string;
  original_reply_to : option string
}.
End QueuedTurnSpec.

Definition valid_id (value : string) (max : Z) : bool :=
  negb (String.eqb value "") && (len value <=? max)
  && negb (existsb is_control (chars value)) && negb (existsb is_whitespace (chars value)).

Definition valid_optional_id (value : string) : bool :=
  (len value <=? 256) && negb (existsb is_control (chars value)).

Definition valid_session_id (value : string) : bool :=
  negb (String.eqb value "") && (len value <=? 64)
  && all_bytes (λ b, is_ascii_alphanumeric b || one_of ["_"; "-"]%char b) value.

Definition invalid_optional (value : option string) : bool :=
  match value with Some v => negb (valid_optional_id v) | None => false end.

(** [QueuedTurnSpec::validate]: [InvalidIdentity], whose code is [turn-invalid]. *)
Definition validate_spec (spec : QueuedTurnSpec.t) : result string unit :=
  guard_err
    (negb (valid_id (QueuedTurnSpec.turn_id spec) 256)
     || negb (valid_id (QueuedTurnSpec.expected_agent spec) 256)
     || negb (valid_id (QueuedTurnSpec.parent_agent spec) 256)
     || negb (valid_session_id (QueuedTurnSpec.session_id spec))
     || String.eqb (QueuedTurnSpec.expected_agent spec) (QueuedTurnSpec.parent_agent spec)
     || invalid_optional (QueuedTurnSpec.original_task_id spec)
     || invalid_optional (QueuedTurnSpec.original_run_id spec)
     || invalid_optional (QueuedTurnSpec.original_reply_to spec))
    "turn-invalid".

Module TurnMailboxError.
Inductive t := ReceiptRejected | TokenRejected | Replayed | StateConflict | Busy.
#[global] Instance eq_dec : EqDecision t.
Proof. solve_decision. Defined.
Definition code (e : t) : string :=
  match e with
  | ReceiptRejected => "turn-authority-rejected"
  | TokenRejected => "turn-authority-rejected"
  | Replayed => "turn-authority-replayed"
  | StateConflict => "turn-state-conflict"
  | Busy => "turn-busy"
  end.
End TurnMailboxError.

Definition map_turn_mailbox (error : TurnMailboxError.t) : MsgError.t := MsgError.CapabilityDenied (TurnMailboxError.code error).

(** A credential the turn authority has sealed, as its bytes. *)
Definition Credential : Type := string.

Module MailboxEntryFacts.
Record t := mk {
  turn_id : string;
  expected_agent : string;
  message_id : string;
  mailbox_incarnation : string;
  staged_entry_id : string
}.
#[global] Instance eq_dec : EqDecision t.
Proof. solve_decision. Defined.
End MailboxEntryFacts.

Module StagedTurnEntry.
Record t := mk {
  message : Message.t;
  facts : MailboxEntryFacts.t;
  admission : option Credential
}.
End StagedTurnEntry.

(** [dispatch_barrier] names the flag the entries of a batch share. *)
Module ProtectedTurnEntry.
Record t := mk {
  message : Message.t;
  facts : MailboxEntryFacts.t;
  admission : Credential;
  published : Credential;
  dispatch_barrier : nat;
  dispatch_barrier_lease_digest : string
}.
End ProtectedTurnEntry.

Module MailboxEntry.
Inductive t := Legacy (msg : Message.t) | Protected (entry : ProtectedTurnEntry.t).
End MailboxEntry.

Definition is_legacy (e : MailboxEntry.t) : bool :=
  match e with MailboxEntry.Legacy _ => true | MailboxEntry.Protected _ => false end.

(** [barriers] are the flags as they are now. *)
Definition is_dequeue_visible (barriers : nat → bool) (e : MailboxEntry.t) : bool :=
  match e with
  | MailboxEntry.Legacy _ => true
  | MailboxEntry.Protected entry => barriers (ProtectedTurnEntry.dispatch_barrier entry)
  end.

Module QueuePriority.
Inductive t := High | Normal.
#[global] Instance eq_dec : EqDecision t.
Proof. solve_decision. Defined.
End QueuePriority.

Definition priority_of (msg : Message.t) : QueuePriority.t := if is_high msg then QueuePriority.High else QueuePriority.Normal.

(** An entry taken out to be removed, with the place it goes back to
    ([ExactRemovalGuard] with its [ExactRemovalLocation]). *)
Module Guard.
Inductive t :=
| Staged (staged_entry_id : string) (entry : StagedTurnEntry.t)
| Queued (priority : QueuePriority.t) (index : nat) (entry : ProtectedTurnEntry.t).
End Guard.

Definition removal_facts (g : Guard.t) : MailboxEntryFacts.t * option Credential :=
  match g with
  | Guard.Staged _ entry => (StagedTurnEntry.facts entry, StagedTurnEntry.admission entry)
  | Guard.Queued _ _ entry => (ProtectedTurnEntry.facts entry, Some (ProtectedTurnEntry.admission entry))
  end.
