(* ===== verification/Mailbox.v ===== *)
(** * A mailbox under concurrent calls

    Models [Mailbox] and, for one mailbox, what [MailboxStore] does with it
    ([crates/messaging/src/mailbox.rs]).  A call is a sequence of sections, cut
    where a lock is released, an atomic flag is read or written, the notifier is
    used or the turn authority answers; [step] runs one section of one call, so
    a schedule interleaves any number of calls.  The turn authority's answers
    are those of the environment ([Answers]). *)
From S2P Require Import Prelude RustStr AwaitData MailboxData.
Open Scope string_scope.
Open Scope list_scope.
Open Scope Z_scope.

(** ** What the mailbox is built on *)

(** [tokio::sync::Notify], with a future per call that waits. *)
Class Notify := {
  notify : Type;
  notify_new : notify;
  notify_one : notify → notify;
  enable : nat → notify → notify;          (* [notified()] and [enable()] *)
  ready : nat → notify → bool;             (* the future is ready *)
  drop_notified : nat → notify → notify    (* the future is dropped, awaited or not *)
}.

(** [live n] are the futures enabled and not dropped.  When there is one,
    [notify_one] makes it ready. *)
Class NotifyLaws `{Notify} (live : notify → gset nat) : Prop := {
  live_new : live notify_new = ∅;
  live_notify_one n : live (notify_one n) = live n;
  live_enable t n : live (enable t n) = {[t]} ∪ live n;
  live_drop t n : live (drop_notified t n) = live n ∖ {[t]};
  notify_one_ready t n : live n = {[t]} → ready t (notify_one n) = true
}.

(** [uuid::Uuid::new_v4]: the [n]-th draw. *)
Class EntryIds := entry_id : nat → string.
Class EntryIdsLaws `{EntryIds} : Prop := entry_id_inj : Inj (=) (=) entry_id.

(** ** Calls *)

(** A batch's [dispatch_barrier] is named by a number.  [PrepareTurn] is
    [prepare_one_turn], [Publish] and [Release] are what [publish_prepared] does
    to an entry and to the batch, [Rollback] and [Detach] what
    [rollback_prepared] and [remove_detached_queued] do here. *)
Inductive call :=
| Deliver (msg : Message.t)
| Recv | RecvTurn | Poll | PollTurn
| Freeze | Unfreeze
| PrepareTurn (message : Message.t) (spec : QueuedTurnSpec.t)
| Publish (staged_entry_id : string) (barrier : nat) (digest : string)
| Release (barrier : nat)
| WakeTurnReader
| DiscardStaged (staged_entry_id : string)
| Rollback (staged_entry_id : string)
| Detach
| RecoverNeverAdmitted | RecoverDequeue | RecoverQueuedRemoval.

(** Which of the two receivers: [recv] and [poll] pass over protected entries. *)
Inductive Reader := LegacyReader | TurnReader.

(** The assertions of the code. *)
Inductive Assertion := RestoredOnce | LatchRoom.

(** What a finished call returned. *)
Inductive Final :=
| Delivered (r : result MsgError.t unit)
| Got (msg : Message.t)
| GotTurn (msg : Message.t) (facts : MailboxEntryFacts.t)
| GotError (e : TurnMailboxError.t)
| GotNone
| Prepared (r : result MsgError.t string)   (* the staged entry's id *)
| Published (r : result TurnMailboxError.t unit)
| Settled (r : result MsgError.t unit)
| Finished
| Panicked (a : Assertion).

(** A record of [never_admitted_recovery]: the facts, and whether a physical
    entry is expected; one of [queued_removal_recovery]: the guard, if any. *)
Definition NeverRecord : Type := bool * MailboxEntryFacts.t.
Definition QueuedRecord : Type := option Guard.t.

(** Who removes an entry, and what it does afterwards: [prepare_one_turn]
    cleans up and returns its error, a recovery goes on with its list. *)
Inductive NeverK := InPrepare (e : MsgError.t) | InRecovery (todo still : list NeverRecord).
Inductive DetachK := InDetach | InRetry (todo still : list QueuedRecord).
Inductive Job :=
| JNever (facts : MailboxEntryFacts.t) (k : NeverK)
| JRollback
| JDetach (k : DetachK).

Inductive Pc :=
(* deliver *)
| Delivering (msg : Message.t)                     (* before the three locks *)
| Notifying (f : Final)                            (* before [notify_one], its last act *)
(* receivers *)
| RecvEnable (k : Reader) | RecvFrozen (k : Reader) | RecvHigh (k : Reader) | RecvNormal (k : Reader)
| RecvAwait (k : Reader)
| PollFrozen (k : Reader) | PollHigh (k : Reader) | PollNormal (k : Reader)
| Completing (recv : bool) (p : QueuePriority.t) (index : nat) (entry : MailboxEntry.t)
| PuttingBack (recv : bool) (p : QueuePriority.t) (index : nat) (entry : ProtectedTurnEntry.t) (e : TurnMailboxError.t)
(* flags *)
| Freezing | Unfreezing | Releasing (barrier : nat)
(* prepare_one_turn *)
| Reserving (msg : Message.t) (spec : QueuedTurnSpec.t) (facts : MailboxEntryFacts.t)
| Staging (msg : Message.t) (spec : QueuedTurnSpec.t) (facts : MailboxEntryFacts.t)
| Sealing (facts : MailboxEntryFacts.t)
| Attaching (facts : MailboxEntryFacts.t) (admission : Credential)
| Confirming (facts : MailboxEntryFacts.t)
| NeverTake (facts : MailboxEntryFacts.t) (k : NeverK)
| NeverAbsent (facts : MailboxEntryFacts.t) (k : NeverK)
| NeverLatch (r : NeverRecord) (e : MsgError.t)
(* publish, discard *)
| Publishing (staged_entry_id : string) (barrier : nat) (digest : string)
| Discarding (staged_entry_id : string)
(* removals *)
| RollbackStaged (staged_entry_id : string)
| RollbackQueue (staged_entry_id : string) (p : QueuePriority.t)
| DetachScan (p : QueuePriority.t) (search_from : nat) (k : DetachK)
| Seal (g : Guard.t) (j : Job)                     (* before [seal_exact_removal] *)
| Settle (g : Guard.t) (j : Job)                   (* before the provider settles *)
| Restoring (g : Guard.t) (next : Pc)              (* the guard is dropped *)
| QueuedLatch (r : QueuedRecord)
(* recoveries *)
| NeverRecovery (todo still : list NeverRecord)
| DequeueRecovery
| QueuedRecovery (todo still : list QueuedRecord)
| Fin (f : Final).

(** Where an entry went that is no longer the mailbox's. *)
Inductive Exit := ToReader (tid : nat) | Discarded | Lost.

Section mailbox.
Context `{Notify, EntryIds}.

(** ** The state *)

(** One mailbox, with the part of the store's recovery lists that is about it.
    [turn_authority] tells whether there is one; [drawn] counts the ids drawn. *)
Record World := mkWorld {
  capacity : Z;
  queue : list MailboxEntry.t;
  high_priority : list MailboxEntry.t;
  staged : gmap string StagedTurnEntry.t;
  incarnation : string;
  turn_authority : bool;
  frozen : bool;
  notifier : notify;
  released : gset nat;                       (* the barriers that were released *)
  never_admitted_recovery : list NeverRecord;
  queued_removal_recovery : list QueuedRecord;
  dequeue_recovery : list ProtectedTurnEntry.t;
  drawn : nat;
  tasks : gmap nat Pc;
  (** history: the messages [deliver] accepted and those taken by a receiver,
      the turns staged and what became of those that left *)
  accepted : list (nat * QueuePriority.t * Message.t);
  received : list (nat * QueuePriority.t * Message.t);
  admitted : list string;
  gone : list (Exit * string)
}.

Definition set_queue p x s :=
  match p with
  | QueuePriority.High => mkWorld (capacity s) (queue s) x (staged s) (incarnation s) (turn_authority s) (frozen s) (notifier s) (released s) (never_admitted_recovery s) (queued_removal_recovery s) (dequeue_recovery s) (drawn s) (tasks s) (accepted s) (received s) (admitted s) (gone s)
  | QueuePriority.Normal => mkWorld (capacity s) x (high_priority s) (staged s) (incarnation s) (turn_authority s) (frozen s) (notifier s) (released s) (never_admitted_recovery s) (queued_removal_recovery s) (dequeue_recovery s) (drawn s) (tasks s) (accepted s) (received s) (admitted s) (gone s)
  end.
Definition set_staged x s := mkWorld (capacity s) (queue s) (high_priority s) x (incarnation s) (turn_authority s) (frozen s) (notifier s) (released s) (never_admitted_recovery s) (queued_removal_recovery s) (dequeue_recovery s) (drawn s) (tasks s) (accepted s) (received s) (admitted s) (gone s).
Definition set_frozen x s := mkWorld (capacity s) (queue s) (high_priority s) (staged s) (incarnation s) (turn_authority s) x (notifier s) (released s) (never_admitted_recovery s) (queued_removal_recovery s) (dequeue_recovery s) (drawn s) (tasks s) (accepted s) (received s) (admitted s) (gone s).
Definition set_notifier x s := mkWorld (capacity s) (queue s) (high_priority s) (staged s) (incarnation s) (turn_authority s) (frozen s) x (released s) (never_admitted_recovery s) (queued_removal_recovery s) (dequeue_recovery s) (drawn s) (tasks s) (accepted s) (received s) (admitted s) (gone s).
Definition release barrier s := mkWorld (capacity s) (queue s) (high_priority s) (staged s) (incarnation s) (turn_authority s) (frozen s) (notifier s) ({[barrier]} ∪ released s) (never_admitted_recovery s) (queued_removal_recovery s) (dequeue_recovery s) (drawn s) (tasks s) (accepted s) (received s) (admitted s) (gone s).
Definition set_never x s := mkWorld (capacity s) (queue s) (high_priority s) (staged s) (incarnation s) (turn_authority s) (frozen s) (notifier s) (released s) x (queued_removal_recovery s) (dequeue_recovery s) (drawn s) (tasks s) (accepted s) (received s) (admitted s) (gone s).
Definition set_queued x s := mkWorld (capacity s) (queue s) (high_priority s) (staged s) (incarnation s) (turn_authority s) (frozen s) (notifier s) (released s) (never_admitted_recovery s) x (dequeue_recovery s) (drawn s) (tasks s) (accepted s) (received s) (admitted s) (gone s).
Definition set_dequeue x s := mkWorld (capacity s) (queue s) (high_priority s) (staged s) (incarnation s) (turn_authority s) (frozen s) (notifier s) (released s) (never_admitted_recovery s) (queued_removal_recovery s) x (drawn s) (tasks s) (accepted s) (received s) (admitted s) (gone s).
Definition draw_one s := mkWorld (capacity s) (queue s) (high_priority s) (staged s) (incarnation s) (turn_authority s) (frozen s) (notifier s) (released s) (never_admitted_recovery s) (queued_removal_recovery s) (dequeue_recovery s) (S (drawn s)) (tasks s) (accepted s) (received s) (admitted s) (gone s).
Definition set_task t pc s := mkWorld (capacity s) (queue s) (high_priority s) (staged s) (incarnation s) (turn_authority s) (frozen s) (notifier s) (released s) (never_admitted_recovery s) (queued_removal_recovery s) (dequeue_recovery s) (drawn s) (<[t := pc]> (tasks s)) (accepted s) (received s) (admitted s) (gone s).
Definition log_accepted t p msg s := mkWorld (capacity s) (queue s) (high_priority s) (staged s) (incarnation s) (turn_authority s) (frozen s) (notifier s) (released s) (never_admitted_recovery s) (queued_removal_recovery s) (dequeue_recovery s) (drawn s) (tasks s) (accepted s ++ [(t, p, msg)]) (received s) (admitted s) (gone s).
Definition log_received t p msg s := mkWorld (capacity s) (queue s) (high_priority s) (staged s) (incarnation s) (turn_authority s) (frozen s) (notifier s) (released s) (never_admitted_recovery s) (queued_removal_recovery s) (dequeue_recovery s) (drawn s) (tasks s) (accepted s) (received s ++ [(t, p, msg)]) (admitted s) (gone s).
Definition log_admitted id s := mkWorld (capacity s) (queue s) (high_priority s) (staged s) (incarnation s) (turn_authority s) (frozen s) (notifier s) (released s) (never_admitted_recovery s) (queued_removal_recovery s) (dequeue_recovery s) (drawn s) (tasks s) (accepted s) (received s) (id :: admitted s) (gone s).
Definition log_gone x id s := mkWorld (capacity s) (queue s) (high_priority s) (staged s) (incarnation s) (turn_authority s) (frozen s) (notifier s) (released s) (never_admitted_recovery s) (queued_removal_recovery s) (dequeue_recovery s) (drawn s) (tasks s) (accepted s) (received s) (admitted s) ((x, id) :: gone s).

Definition mailbox_new (cap : Z) (incarnation : string) (authority : bool) : World :=
  mkWorld cap [] [] ∅ incarnation authority false notify_new ∅ [] [] [] 0 ∅ [] [] [] [].

Definition queue_of (p : QueuePriority.t) (s : World) : list MailboxEntry.t :=
  match p with QueuePriority.High => high_priority s | QueuePriority.Normal => queue s end.

(** [staged.len() + hp.len() + q.len()]. *)
Definition occupancy (s : World) : Z := Z.of_nat (size (staged s)) + size_of (high_priority s) + size_of (queue s).

(** [depth]: a queue whose lock is held counts as empty. *)
Definition depth (hp_held q_held : bool) (s : World) : Z :=
  (if hp_held then 0 else size_of (high_priority s)) + (if q_held then 0 else size_of (queue s)).

(** What the environment answers during a step. *)
Record Answers := mkAnswers {
  contended : bool;                                          (* a [try_lock] fails *)
  reserve_queued : result string unit;                       (* with [error.code()] *)
  seal_staged_admission : result TurnMailboxError.t (Credential * result TurnMailboxError.t Credential);
                                                             (* and [duplicate_for_mailbox_owner] of it *)
  confirm_mailbox_admission : result string unit;
  verify_publish : result TurnMailboxError.t Credential;
  prepare_visible_dequeue : result TurnMailboxError.t unit;
  record_dequeued : result TurnMailboxError.t unit;
  complete_dequeue_handoff : result TurnMailboxError.t unit;
  abandon_dequeuing : ProtectedTurnEntry.t → bool;           (* is Ok *)
  seal_exact_removal : result TurnMailboxError.t unit;
  settle_removal : result string unit                        (* [abort_non_admitted], [abort_confirmed_admission], [settle_removed_queued] *)
}.

(** ** Sections *)

Definition first_entry (k : Reader) (p : QueuePriority.t) (s : World) : option (nat * MailboxEntry.t) :=
  list_find (λ e, Is_true (match k with
                           | LegacyReader => is_legacy e
                           | TurnReader => is_dequeue_visible (λ b, bool_decide (b ∈ released s)) e
                           end)) (queue_of p s).

(** [queue.remove(index)]. *)
Definition remove_at (p : QueuePriority.t) (i : nat) (s : World) : World := set_queue p (delete i (queue_of p s)) s.

(** [queue.insert(index.min(queue.len()), entry)]. *)
Definition insert_at (p : QueuePriority.t) (i : nat) (e : MailboxEntry.t) (s : World) : World :=
  let q := queue_of p s in set_queue p (take i q ++ e :: drop i q) s.

Definition push_back (p : QueuePriority.t) (e : MailboxEntry.t) (s : World) : World := set_queue p (queue_of p s ++ [e]) s.

Definition wake (s : World) : World := set_notifier (notify_one (notifier s)) s.

(** A receiver returns; a [recv] drops its future. *)
Definition leave (t : nat) (recv : bool) (f : Final) (s : World) : World :=
  set_task t (Fin f) (if recv then set_notifier (drop_notified t (notifier s)) s else s).

(** Take the entry: [recv] and [poll] return its message, the others go on to
    [complete_taken]. *)
Definition take_entry (t : nat) (k : Reader) (recv : bool) (p : QueuePriority.t) (i : nat) (e : MailboxEntry.t) (s : World) : World :=
  let s := remove_at p i s in
  match e with
  | MailboxEntry.Legacy msg =>
      let s := log_received t p msg s in
      match k with
      | LegacyReader => leave t recv (Got msg) s
      | TurnReader => set_task t (Completing recv p i e) s
      end
  | MailboxEntry.Protected _ => set_task t (Completing recv p i e) s
  end.

(** [complete_protected], and what [complete_taken] does with its error. *)
Definition complete_protected (t : nat) (recv : bool) (p : QueuePriority.t) (i : nat) (entry : ProtectedTurnEntry.t)
    (a : Answers) (s : World) : World :=
  let id := MailboxEntryFacts.staged_entry_id (ProtectedTurnEntry.facts entry) in
  let restore e := set_task t (PuttingBack recv p i entry e) s in
  if negb (turn_authority s) then restore TurnMailboxError.StateConflict
  else match prepare_visible_dequeue a with
  | Err e => restore e
  | Ok _ =>
      match record_dequeued a with
      | Err e => restore e
      | Ok _ =>
          match complete_dequeue_handoff a with
          | Ok _ =>
              leave t recv (GotTurn (ProtectedTurnEntry.message entry) (ProtectedTurnEntry.facts entry))
                (log_gone (ToReader t) id s)
          | Err e =>
              if abandon_dequeuing a entry then leave t recv (GotError e) (log_gone Discarded id s)
              else if size_of (dequeue_recovery s) <? MAX_TURN_RECOVERY_LATCHES
              then leave t recv (GotError e) (set_dequeue (dequeue_recovery s ++ [entry]) s)
              else leave t recv (Panicked LatchRoom) (log_gone Lost id s)
          end
      end
  end.

Definition recv_step (t : nat) (pc : Pc) (a : Answers) (s : World) : option World :=
  match pc with
  | RecvEnable k => Some (set_task t (RecvFrozen k) (set_notifier (enable t (notifier s)) s))
  | RecvFrozen k => Some (set_task t (if frozen s then RecvAwait k else RecvHigh k) s)
  | RecvHigh k =>
      Some (match first_entry k QueuePriority.High s with
            | Some (i, e) => take_entry t k true QueuePriority.High i e s
            | None => set_task t (RecvNormal k) s
            end)
  | RecvNormal k =>
      Some (match first_entry k QueuePriority.Normal s with
            | Some (i, e) => take_entry t k true QueuePriority.Normal i e s
            | None => set_task t (RecvAwait k) s
            end)
  | RecvAwait k =>
      if ready t (notifier s) then Some (set_task t (RecvEnable k) (set_notifier (drop_notified t (notifier s)) s)) else None
  | PollFrozen k => Some (if frozen s then leave t false GotNone s else set_task t (PollHigh k) s)
  | PollHigh k =>
      Some (match (if contended a then None else first_entry k QueuePriority.High s) with
            | Some (i, e) => take_entry t k false QueuePriority.High i e s
            | None => set_task t (PollNormal k) s
            end)
  | PollNormal k =>
      Some (match (if contended a then None else first_entry k QueuePriority.Normal s) with
            | Some (i, e) => take_entry t k false QueuePriority.Normal i e s
            | None => leave t false GotNone s
            end)
  | Completing recv p i e =>
      Some (match e with
            | MailboxEntry.Legacy msg => leave t recv (Got msg) s
            | MailboxEntry.Protected entry => complete_protected t recv p i entry a s
            end)
  | PuttingBack recv p i entry e =>
      Some (leave t recv (GotError e) (wake (insert_at p i (MailboxEntry.Protected entry) s)))
  | _ => None
  end.

(** *** Staging and publishing *)

Definition facts_for (s : World) (msg : Message.t) (spec : QueuedTurnSpec.t) : MailboxEntryFacts.t :=
  MailboxEntryFacts.mk (QueuedTurnSpec.turn_id spec) (QueuedTurnSpec.expected_agent spec) (Message.id msg)
    (incarnation s) (entry_id (drawn s)).

(** [stage_reserved]. *)
Definition stage_reserved (msg : Message.t) (spec : QueuedTurnSpec.t) (facts : MailboxEntryFacts.t) (s : World)
  : result MsgError.t World :=
  _ ← validate_message msg;
  _ ← match validate_spec spec with Ok u => Ok u | Err code => Err (MsgError.CapabilityDenied code) end;
  _ ← guard_err (negb (String.eqb (Message.id msg) (QueuedTurnSpec.turn_id spec))
                 || negb (String.eqb (Message.to msg) (QueuedTurnSpec.expected_agent spec)))
        (MsgError.CapabilityDenied "turn-invalid");
  _ ← guard_err (capacity s <=? occupancy s) MsgError.MailboxFull;
  let id := MailboxEntryFacts.staged_entry_id facts in
  Ok (log_admitted id (set_staged (<[id := StagedTurnEntry.mk msg facts None]> (staged s)) s)).

(** [attach_admission]. *)
Definition attach_admission (id : string) (admission : Credential) (s : World) : result TurnMailboxError.t World :=
  entry ← ok_or (staged s !! id) TurnMailboxError.StateConflict;
  _ ← guard_err (bool_decide (is_Some (StagedTurnEntry.admission entry))) TurnMailboxError.Replayed;
  Ok (set_staged (<[id := StagedTurnEntry.mk (StagedTurnEntry.message entry) (StagedTurnEntry.facts entry) (Some admission)]> (staged s)) s).

(** [publish_staged]. *)
Definition publish_staged (id : string) (barrier : nat) (digest : string) (a : Answers) (s : World)
  : result TurnMailboxError.t World :=
  _ ← guard_err (negb (turn_authority s)) TurnMailboxError.StateConflict;
  entry ← ok_or (staged s !! id) TurnMailboxError.StateConflict;
  admission ← ok_or (StagedTurnEntry.admission entry) TurnMailboxError.StateConflict;
  published ← verify_publish a;
  let msg := StagedTurnEntry.message entry in
  Ok (push_back (priority_of msg)
        (MailboxEntry.Protected (ProtectedTurnEntry.mk msg (StagedTurnEntry.facts entry) admission published barrier digest))
        (set_staged (delete id (staged s)) s)).

(** [cleanup_never_or_latch] and [recover_turn_latches], after the cleanup of a
    turn that was never admitted. *)
Definition never_done (physical : bool) (facts : MailboxEntryFacts.t) (k : NeverK) (r : result MsgError.t unit) : Pc :=
  match k, r with
  | InPrepare e, Ok _ => Fin (Prepared (Err e))
  | InPrepare _, Err e => NeverLatch (physical, facts) e
  | InRecovery todo still, Ok _ => NeverRecovery todo still
  | InRecovery todo still, Err _ => NeverRecovery todo (still ++ [(physical, facts)])
  end.

Definition denied (code : string) : MsgError.t := MsgError.CapabilityDenied code.

Definition prepare_step (t : nat) (pc : Pc) (a : Answers) (s : World) : option World :=
  let go pc := Some (set_task t pc s) in
  match pc with
  | Reserving msg spec facts =>
      match reserve_queued a with
      | Err code => go (Fin (Prepared (Err (denied code))))
      | Ok _ => go (Staging msg spec facts)
      end
  | Staging msg spec facts =>
      match stage_reserved msg spec facts s with
      | Err e => go (NeverAbsent facts (InPrepare e))
      | Ok s' => Some (set_task t (Sealing facts) s')
      end
  | Sealing facts =>
      match seal_staged_admission a with
      | Err e => go (NeverTake facts (InPrepare (map_turn_mailbox e)))
      | Ok (_, Err e) => go (NeverTake facts (InPrepare (map_turn_mailbox e)))
      | Ok (_, Ok retained) => go (Attaching facts retained)
      end
  | Attaching facts retained =>
      match attach_admission (MailboxEntryFacts.staged_entry_id facts) retained s with
      | Err e => go (NeverTake facts (InPrepare (map_turn_mailbox e)))
      | Ok s' => Some (set_task t (Confirming facts) s')
      end
  | Confirming facts =>
      match confirm_mailbox_admission a with
      | Err code => go (NeverTake facts (InPrepare (denied code)))
      | Ok _ => go (Fin (Prepared (Ok (MailboxEntryFacts.staged_entry_id facts))))
      end
  (* [take_never_admitted_removal], up to the receipt *)
  | NeverTake facts k =>
      let id := MailboxEntryFacts.staged_entry_id facts in
      match staged s !! id with
      | None => go (never_done true facts k (Err (map_turn_mailbox TurnMailboxError.StateConflict)))
      | Some entry => Some (set_task t (Seal (Guard.Staged id entry) (JNever facts k)) (set_staged (delete id (staged s)) s))
      end
  (* [settle_absent_never_admitted] *)
  | NeverAbsent facts k =>
      go (never_done false facts k
            (match seal_exact_removal a with
             | Err e => Err (map_turn_mailbox e)
             | Ok _ => match settle_removal a with Err code => Err (denied code) | Ok u => Ok u end
             end))
  | NeverLatch r e =>
      if size_of (never_admitted_recovery s) <? MAX_TURN_RECOVERY_LATCHES
      then Some (set_task t (Fin (Prepared (Err e))) (set_never (never_admitted_recovery s ++ [r]) s))
      else go (Fin (Panicked LatchRoom))
  | NeverRecovery [] still => Some (set_task t (Fin Finished) (set_never (never_admitted_recovery s ++ still) s))
  | NeverRecovery ((true, facts) :: todo) still => go (NeverTake facts (InRecovery todo still))
  | NeverRecovery ((false, facts) :: todo) still => go (NeverAbsent facts (InRecovery todo still))
  | Publishing id barrier digest =>
      match publish_staged id barrier digest a s with
      | Err e => go (Fin (Published (Err e)))
      | Ok s' => Some (set_task t (Fin (Published (Ok tt))) s')
      end
  | Discarding id =>
      Some (set_task t (Fin Finished)
              (match staged s !! id with
               | Some _ => log_gone Discarded id (set_staged (delete id (staged s)) s)
               | None => s
               end))
  | _ => None
  end.

(** *** Removals *)

Definition is_protected_entry (e : MailboxEntry.t) : bool := negb (is_legacy e).

(** The entry a rollback looks for: the turn's own, still behind its barrier. *)
Definition held_back (id : string) (s : World) (e : MailboxEntry.t) : bool :=
  match e with
  | MailboxEntry.Protected entry =>
      String.eqb (MailboxEntryFacts.staged_entry_id (ProtectedTurnEntry.facts entry)) id
      && negb (bool_decide (ProtectedTurnEntry.dispatch_barrier entry ∈ released s))
  | MailboxEntry.Legacy _ => false
  end.

(** [queue.iter().enumerate().skip(from).find_map(protected)]. *)
Definition find_protected (from : nat) (q : list MailboxEntry.t) : option (nat * MailboxEntry.t) :=
  r ← list_find (λ e, Is_true (is_protected_entry e)) (drop from q);
  Some ((from + r.1)%nat, r.2).

(** Remove what was found, under a guard. *)
Definition guard_entry (t : nat) (p : QueuePriority.t) (i : nat) (e : MailboxEntry.t) (j : Job) (s : World) : option World :=
  match e with
  | MailboxEntry.Protected entry => Some (set_task t (Seal (Guard.Queued p i entry) j) (remove_at p i s))
  | MailboxEntry.Legacy _ => None
  end.

(** [remove_detached_queued] and [recover_turn_latches], when the scan ends
    without a guard. *)
Definition detach_missing (k : DetachK) (r : result MsgError.t unit) : Pc :=
  match k, r with
  | InDetach, Ok _ => QueuedLatch None
  | InDetach, Err e => Fin (Settled (Err e))
  | InRetry todo still, _ => QueuedRecovery todo (still ++ [None])
  end.

(** The receipt is refused. *)
Definition seal_failed (g : Guard.t) (j : Job) (e : TurnMailboxError.t) : Pc :=
  match j with
  | JNever facts k => never_done true facts k (Err (map_turn_mailbox e))
  | JRollback => Fin (Settled (Err (map_turn_mailbox e)))
  | JDetach k =>
      match g, e with
      | Guard.Queued p index _, (TurnMailboxError.TokenRejected | TurnMailboxError.ReceiptRejected) => DetachScan p (S index) k
      | _, _ => detach_missing k (Err (map_turn_mailbox e))
      end
  end.

(** What is checked of a guard before its receipt is asked for. *)
Definition unfit (g : Guard.t) (j : Job) : option TurnMailboxError.t :=
  match j, removal_facts g with
  | JNever facts _, (found, _) => if bool_decide (found = facts) then None else Some TurnMailboxError.ReceiptRejected
  | JRollback, (_, None) => Some TurnMailboxError.StateConflict
  | JDetach _, (_, None) => Some TurnMailboxError.StateConflict
  | _, _ => None
  end.

Definition guard_id (g : Guard.t) : string := MailboxEntryFacts.staged_entry_id (removal_facts g).1.

(** [ExactRemovalGuard::drop]. *)
Definition restore_guard (t : nat) (g : Guard.t) (next : Pc) (s : World) : World :=
  match g with
  | Guard.Staged id entry =>
      match staged s !! id with
      | Some _ => set_task t (Fin (Panicked RestoredOnce)) (log_gone Lost (guard_id g) s)
      | None => set_task t next (set_staged (<[id := entry]> (staged s)) s)
      end
  | Guard.Queued p i entry => set_task t next (wake (insert_at p i (MailboxEntry.Protected entry) s))
  end.

(** The settlement's answer: the guard is discarded, dropped or latched. *)
Definition settled (t : nat) (g : Guard.t) (j : Job) (r : result string unit) (s : World) : World :=
  let discard next := set_task t next (log_gone Discarded (guard_id g) s) in
  match j, r with
  | JNever facts k, Ok _ => discard (never_done true facts k (Ok tt))
  | JNever facts k, Err code => set_task t (Restoring g (never_done true facts k (Err (denied code)))) s
  | JRollback, Ok _ => discard (Fin (Settled (Ok tt)))
  | JRollback, Err code => set_task t (Restoring g (Fin (Settled (Err (denied code))))) s
  | JDetach InDetach, Ok _ => discard (Fin (Settled (Ok tt)))
  | JDetach InDetach, Err _ => set_task t (QueuedLatch (Some g)) s
  | JDetach (InRetry todo still), Ok _ => discard (QueuedRecovery todo still)
  | JDetach (InRetry todo still), Err _ => set_task t (QueuedRecovery todo (still ++ [Some g])) s
  end.

(** [pending.retain(|latched| abandon_dequeuing(&latched.receipt).is_err())]. *)
Definition abandon_latched (a : Answers) (s : World) (entry : ProtectedTurnEntry.t) : World :=
  if abandon_dequeuing a entry
  then log_gone Discarded (MailboxEntryFacts.staged_entry_id (ProtectedTurnEntry.facts entry)) s
  else set_dequeue (dequeue_recovery s ++ [entry]) s.

Definition recover_dequeue (a : Answers) (s : World) : World :=
  fold_left (abandon_latched a) (dequeue_recovery s) (set_dequeue [] s).

Definition removal_step (t : nat) (pc : Pc) (a : Answers) (s : World) : option World :=
  let go pc := Some (set_task t pc s) in
  match pc with
  (* [take_confirmed_removal] *)
  | RollbackStaged id =>
      match staged s !! id with
      | Some entry => Some (set_task t (Seal (Guard.Staged id entry) JRollback) (set_staged (delete id (staged s)) s))
      | None => go (RollbackQueue id QueuePriority.High)
      end
  | RollbackQueue id p =>
      match list_find (λ e, Is_true (held_back id s e)) (queue_of p s), p with
      | Some (i, e), _ => guard_entry t p i e JRollback s
      | None, QueuePriority.High => go (RollbackQueue id QueuePriority.Normal)
      | None, QueuePriority.Normal => go (Fin (Settled (Err (map_turn_mailbox TurnMailboxError.StateConflict))))
      end
  (* [take_queued_removal] *)
  | DetachScan p from k =>
      match find_protected from (queue_of p s), p with
      | Some (i, e), _ => guard_entry t p i e (JDetach k) s
      | None, QueuePriority.High => go (DetachScan QueuePriority.Normal 0 k)
      | None, QueuePriority.Normal => go (detach_missing k (Ok tt))
      end
  | Seal g j =>
      match unfit g j with
      | Some e => go (Restoring g (seal_failed g j e))
      | None =>
          match seal_exact_removal a with
          | Err e => go (Restoring g (seal_failed g j e))
          | Ok _ => go (Settle g j)
          end
      end
  | Settle g j => Some (settled t g j (settle_removal a) s)
  | Restoring g next => Some (restore_guard t g next s)
  | QueuedLatch r =>
      if size_of (queued_removal_recovery s) <? MAX_TURN_RECOVERY_LATCHES
      then Some (set_task t (Fin (Settled (Ok tt))) (set_queued (queued_removal_recovery s ++ [r]) s))
      else go (match r with
               | Some g => Restoring g (Fin (Panicked LatchRoom))
               | None => Fin (Panicked LatchRoom)
               end)
  | DequeueRecovery => Some (set_task t (Fin Finished) (recover_dequeue a s))
  | QueuedRecovery [] still => Some (set_task t (Fin Finished) (set_queued (queued_removal_recovery s ++ still) s))
  | QueuedRecovery (None :: todo) still => go (DetachScan QueuePriority.High 0 (InRetry todo still))
  | QueuedRecovery (Some g :: todo) still => go (Settle g (JDetach (InRetry todo still)))
  | _ => None
  end.

(** ** Steps *)

Definition begin (t : nat) (c : call) (s : World) : World :=
  let go pc := set_task t pc s in
  match c with
  | Deliver msg => go (match validate_message msg with Ok _ => Delivering msg | Err e => Fin (Delivered (Err e)) end)
  | Recv => go (RecvEnable LegacyReader)
  | RecvTurn => go (RecvEnable TurnReader)
  | Poll => go (PollFrozen LegacyReader)
  | PollTurn => go (PollFrozen TurnReader)
  | Freeze => go Freezing
  | Unfreeze => go Unfreezing
  | PrepareTurn msg spec =>
      if turn_authority s then set_task t (Reserving msg spec (facts_for s msg spec)) (draw_one s)
      else go (Fin (Prepared (Err (denied "turn-unavailable"))))
  | Publish id barrier digest => go (Publishing id barrier digest)
  | Release barrier => go (Releasing barrier)
  | WakeTurnReader => go (Notifying Finished)
  | DiscardStaged id => go (Discarding id)
  | Rollback id => go (if turn_authority s then RollbackStaged id else Fin (Settled (Err (denied "turn-unavailable"))))
  | Detach => go (if turn_authority s then DetachScan QueuePriority.High 0 InDetach else Fin (Settled (Err (denied "turn-unavailable"))))
  | RecoverNeverAdmitted =>
      if turn_authority s then set_task t (NeverRecovery (never_admitted_recovery s) []) (set_never [] s) else go (Fin Finished)
  | RecoverDequeue => go (if turn_authority s then DequeueRecovery else Fin Finished)
  | RecoverQueuedRemoval =>
      if turn_authority s then set_task t (QueuedRecovery (queued_removal_recovery s) []) (set_queued [] s) else go (Fin Finished)
  end.

Definition other_step (t : nat) (pc : Pc) (a : Answers) (s : World) : option World :=
  let go pc := Some (set_task t pc s) in
  match pc with
  | Delivering msg =>
      if capacity s <=? occupancy s then go (Fin (Delivered (Err MsgError.MailboxFull)))
      else
        let p := priority_of msg in
        Some (set_task t (Notifying (Delivered (Ok tt))) (log_accepted t p msg (push_back p (MailboxEntry.Legacy msg) s)))
  | Notifying f => Some (set_task t (Fin f) (wake s))
  | Freezing => Some (set_task t (Fin Finished) (set_frozen true s))
  | Unfreezing => Some (set_task t (Notifying Finished) (set_frozen false s))
  | Releasing barrier => Some (set_task t (Notifying Finished) (release barrier s))
  | _ => None
  end.

Definition advance (t : nat) (pc : Pc) (a : Answers) (s : World) : option World :=
  match pc with
  | Delivering _ | Notifying _ | Freezing | Unfreezing | Releasing _ => other_step t pc a s
  | RecvEnable _ | RecvFrozen _ | RecvHigh _ | RecvNormal _ | RecvAwait _ | PollFrozen _ | PollHigh _ | PollNormal _
  | Completing _ _ _ _ | PuttingBack _ _ _ _ _ => recv_step t pc a s
  | Reserving _ _ _ | Staging _ _ _ | Sealing _ | Attaching _ _ | Confirming _ | NeverTake _ _ | NeverAbsent _ _
  | NeverLatch _ _ | NeverRecovery _ _ | Publishing _ _ _ | Discarding _ => prepare_step t pc a s
  | RollbackStaged _ | RollbackQueue _ _ | DetachScan _ _ _ | Seal _ _ | Settle _ _ | Restoring _ _ | QueuedLatch _
  | DequeueRecovery | QueuedRecovery _ _ => removal_step t pc a s
  | Fin _ => None
  end.

Inductive act := Call (t : nat) (c : call) | Step (t : nat) (a : Answers).

Definition step (x : act) (s : World) : option World :=
  match x with
  | Call t c => match tasks s !! t with None => Some (begin t c s) | Some _ => None end
  | Step t a => pc ← tasks s !! t; advance t pc a s
  end.

(** The states schedules lead to along which [P] holds. *)
Inductive reachable (P : World → Prop) (s0 : World) : World → Prop :=
| reach_start : P s0 → reachable P s0 s0
| reach_step x s s' : reachable P s0 s → step x s = Some s' → P s' → reachable P s0 s'.

Fixpoint run_schedule (xs : list act) (s : World) : option World :=
  match xs with
  | [] => Some s
  | x :: xs => s' ← step x s; run_schedule xs s'
  end.

Lemma mailbox_schedule_reachable s0 xs : ∀ s s', reachable (λ _, True) s0 s → run_schedule xs s = Some s' → reachable (λ _, True) s0 s'.
Proof.
  induction xs as [|x xs IH]; intros s s' Hs; simpl; [by intros [= <-]|].
  intros (s1 & Ha & Hrun)%bind_Some. eapply IH; [|exact Hrun]. by eapply reach_step.
Qed.

(** A schedule along which a test holds. *)
Fixpoint run_where (p : World → bool) (xs : list act) (s : World) : option World :=
  match xs with
  | [] => Some s
  | x :: xs => s' ← step x s; if p s' then run_where p xs s' else None
  end.

Lemma run_where_reachable (P : World → Prop) p s0 xs : (∀ s, p s = true → P s) →
  ∀ s s', reachable P s0 s → run_where p xs s = Some s' → reachable P s0 s'.
Proof.
  intros HP. induction xs as [|x xs IH]; intros s s' Hs; simpl; [by intros [= <-]|].
  intros (s1 & Ha & Hrun)%bind_Some. destruct (p s1) eqn:Hp; [|done]. eapply IH; [|exact Hrun]. eapply reach_step; eauto.
Qed.

Lemma reachable_P P s0 s : reachable P s0 s → P s.
Proof. by destruct 1. Qed.

Lemma reachable_any P s0 s : reachable P s0 s → reachable (λ _, True) s0 s.
Proof. induction 1 as [|x s s' _ IH Hx _]; [by apply reach_start|]. by eapply reach_step. Qed.
End mailbox.
