(* ===== verification/MailboxDemo.v ===== *)
(** * A notifier, ids and schedules to try mailboxes on

    A concrete [Notify] that satisfies [NotifyLaws], ids that never repeat, and
    schedules on which the theorems on mailboxes are tried. *)
From stdpp Require Import pretty.
From S2P Require Import Prelude RustStr AwaitData MailboxData Mailbox.
Open Scope string_scope.
Open Scope list_scope.
Open Scope nat_scope.

(** ** A notifier *)

(** The stored permit, the futures that wait in line and those that are ready. *)
Record Line := mkLine { permit : bool; waiting : list nat; woken : gset nat }.

#[export] Instance notify_model : Notify := {|
  notify := Line;
  notify_new := mkLine false [] ∅;
  notify_one n :=
    match waiting n with
    | t :: ws => mkLine (permit n) ws ({[t]} ∪ woken n)
    | [] => mkLine true [] (woken n)
    end;
  enable t n :=
    if permit n then mkLine false (waiting n) ({[t]} ∪ woken n) else mkLine false (waiting n ++ [t]) (woken n);
  ready t n := bool_decide (t ∈ woken n);
  drop_notified t n := mkLine (permit n) (filter (λ u, u ≠ t) (waiting n)) (woken n ∖ {[t]})
|}.

Definition live_model (n : @notify notify_model) : gset nat := list_to_set (waiting n) ∪ woken n.

#[export] Instance notify_model_laws : NotifyLaws live_model.
Proof.
  split; unfold live_model; simpl.
  - done.
  - intros [p [|t ws] w]; simpl; set_solver.
  - intros t [[] ws w]; simpl; [set_solver|]. rewrite list_to_set_app_L. set_solver.
  - intros t [p ws w]. simpl. apply set_eq. intros u. rewrite elem_of_difference, !elem_of_union, !elem_of_list_to_set, list_elem_of_filter, elem_of_difference, elem_of_singleton. tauto.
  - intros t [p [|u ws] w]; simpl; intros Hl; apply bool_decide_eq_true_2.
    + assert (t ∈ ∅ ∪ w) as Ht by (rewrite Hl; by apply elem_of_singleton). set_solver.
    + assert (u ∈ ({[t]} : gset nat)) as ->%elem_of_singleton by (rewrite <- Hl; set_solver). set_solver.
Qed.

(** ** Ids *)

#[export] Instance entry_ids_model : EntryIds := λ n, pretty n.

#[export] Instance entry_ids_model_laws : EntryIdsLaws.
Proof. intros n m Hnm. by apply (inj pretty) in Hnm. Qed.

(** ** Schedules *)

Definition answers_ok : Answers :=
  mkAnswers false (Ok tt) (Ok ("sealed", Ok "kept")) (Ok tt) (Ok "published") (Ok tt) (Ok tt) (Ok tt) (λ _, true) (Ok tt) (Ok tt).

(** The authority refuses a dequeue. *)
Definition answers_busy : Answers :=
  mkAnswers false (Ok tt) (Ok ("sealed", Ok "kept")) (Ok tt) (Ok "published") (Err TurnMailboxError.Busy) (Ok tt) (Ok tt) (λ _, true) (Ok tt) (Ok tt).

Definition demo_message (id : string) (kind : MessageKind.t) : Message.t :=
  Message.mk id kind "agent:root" "agent:child" [104; 105]%Z None 0 None.

Definition demo_spec (id : string) : QueuedTurnSpec.t :=
  QueuedTurnSpec.mk id "agent:child" "agent:root" "sess_1" 0 TurnCompletionOwner.AwaitSession None None None.

Definition steps (n t : nat) : list act := replicate n (Step t answers_ok).

(** A receiver parks; two messages come, the second of high priority; the
    receiver is about to take that one. *)
Definition demo_messages : list act :=
  [Call 0 Recv] ++ steps 4 0
  ++ [Call 1 (Deliver (demo_message "m1" MessageKind.Agent))] ++ steps 2 1
  ++ [Call 2 (Deliver (demo_message "m2" MessageKind.User))] ++ steps 2 2.

(** The receiver goes on and returns the second, a poll returns the first. *)
Definition demo_received : list act := demo_messages ++ steps 4 0 ++ [Call 3 Poll] ++ steps 3 3.

(** A turn is staged, published, released and taken. *)
Definition demo_turn : list act :=
  [Call 0 (PrepareTurn (demo_message "turn-1" MessageKind.Agent) (demo_spec "turn-1"))] ++ steps 5 0
  ++ [Call 1 (Publish "0" 7 "digest")] ++ steps 1 1
  ++ [Call 2 (Release 7)] ++ steps 2 2
  ++ [Call 3 RecvTurn] ++ steps 4 3.

(** While it is out a message takes its place, and the turn is put back. *)
Definition demo_overfull : list act :=
  demo_turn ++ [Call 4 (Deliver (demo_message "m1" MessageKind.Agent))] ++ steps 2 4
  ++ [Step 3 answers_busy; Step 3 answers_ok].

Definition demo_mailbox (cap : Z) : World := mailbox_new cap "incarnation" true.
