(* ===== verification/MailboxFacts.v ===== *)
(** * What every step of a mailbox does

    Each entry is in one place: staged, in a queue, held by a call, latched for
    recovery, or gone.  [effect] presents a step by what it moves into and out of
    the mailbox ([move]); the invariants follow from it alone. *)
From S2P Require Import Prelude RustStr AwaitData MailboxData Mailbox.
Open Scope string_scope.
Open Scope list_scope.
Open Scope nat_scope.

(** ** Counting *)

(** How often [x] occurs. *)
Definition occ (x : string) (l : list string) : nat := count_occ string_dec l x.

Arguments occ : simpl never.

Lemma occ_nil x : occ x [] = 0.
Proof. reflexivity. Qed.

Lemma occ_cons x y l : occ x (y :: l) = (if decide (y = x) then 1 else 0) + occ x l.
Proof. unfold occ. simpl. by destruct (string_dec y x), (decide (y = x)). Qed.

Lemma occ_app x l k : occ x (l ++ k) = occ x l + occ x k.
Proof. unfold occ. apply count_occ_app. Qed.

Lemma occ_perm x l k : l ≡ₚ k → occ x l = occ x k.
Proof. intros Hp. by apply (Permutation_count_occ string_dec). Qed.

Lemma perm_occ l k : (∀ x, occ x l = occ x k) → l ≡ₚ k.
Proof. intros Hx. by apply (Permutation_count_occ string_dec). Qed.

Lemma occ_elem x l : x ∈ l ↔ 1 ≤ occ x l.
Proof. rewrite list_elem_of_In. unfold occ. rewrite (count_occ_In string_dec). lia. Qed.

Lemma nodup_occ l : NoDup l ↔ ∀ x, occ x l ≤ 1.
Proof. rewrite NoDup_ListNoDup. apply (NoDup_count_occ string_dec). Qed.

Create HintDb occ.
#[export] Hint Rewrite occ_nil occ_cons occ_app : occ.

(** What all the values of a map amount to. *)
Definition gather {A} (f : A → list string) (m : gmap nat A) : list string := concat (f <$> (map_to_list m).*2).

Lemma gather_insert_fresh {A} (f : A → list string) (m : gmap nat A) t a :
  m !! t = None → gather f (<[t := a]> m) ≡ₚ f a ++ gather f m.
Proof.
  intros Hm. unfold gather.
  assert ((f <$> (map_to_list (<[t := a]> m)).*2) ≡ₚ f a :: (f <$> (map_to_list m).*2)) as ->; [|done].
  by rewrite map_to_list_insert by done.
Qed.

Lemma gather_update {A} (f : A → list string) (m : gmap nat A) t a :
  gather f (<[t := a]> m) ++ default [] (f <$> m !! t) ≡ₚ f a ++ gather f m.
Proof.
  destruct (m !! t) as [b|] eqn:Hm; simpl; [|by rewrite app_nil_r, gather_insert_fresh].
  rewrite <- (insert_delete_id m t b Hm) at 2. rewrite <- (insert_delete_eq m t a).
  rewrite !gather_insert_fresh by apply lookup_delete_eq. rewrite <- app_assoc. f_equiv. apply Permutation_app_comm.
Qed.

Lemma elem_gather {A} (f : A → list string) (m : gmap nat A) x :
  x ∈ gather f m ↔ ∃ t a, m !! t = Some a ∧ x ∈ f a.
Proof.
  unfold gather. rewrite list_elem_of_In, in_concat. split.
  - intros (l & Hl & Hx). apply list_elem_of_In in Hl, Hx. apply list_elem_of_fmap in Hl as (a & -> & Ha).
    apply list_elem_of_fmap in Ha as ([t a'] & -> & Ht). apply elem_of_map_to_list in Ht. eauto.
  - intros (t & a & Ht & Hx). exists (f a). rewrite <- !list_elem_of_In. split; [|done].
    apply list_elem_of_fmap. exists a. split; [done|]. apply list_elem_of_fmap. exists (t, a). split; [done|].
    by apply elem_of_map_to_list.
Qed.

(** The keys of a map. *)
Definition keys {A} (m : gmap string A) : list string := (map_to_list m).*1.

Lemma occ_keys {A} (m : gmap string A) x : occ x (keys m) = if decide (is_Some (m !! x)) then 1 else 0.
Proof.
  pose proof (proj1 (nodup_occ (keys m)) (NoDup_fst_map_to_list m) x) as Hnd.
  assert (x ∈ keys m ↔ is_Some (m !! x)) as He.
  { unfold keys. rewrite list_elem_of_fmap. split.
    - intros ([k a] & -> & Hk). apply elem_of_map_to_list in Hk. by exists a.
    - intros [a Ha]. exists (x, a). split; [done|]. by apply elem_of_map_to_list. }
  rewrite occ_elem in He. case_decide as Hd; [apply He in Hd; lia|]. destruct (occ x (keys m)) eqn:Ho; [done|].
  exfalso. apply Hd, He. lia.
Qed.

Lemma keys_insert {A} (m : gmap string A) k a x : m !! k = None →
  occ x (keys (<[k := a]> m)) = (if decide (k = x) then 1 else 0) + occ x (keys m).
Proof.
  intros Hk. rewrite !occ_keys. destruct (decide (k = x)) as [<-|Hne].
  - rewrite lookup_insert_eq, Hk. rewrite decide_True by eauto. rewrite decide_False; [lia|]. by intros [? ?].
  - rewrite lookup_insert_ne by done. lia.
Qed.

Lemma keys_delete {A} (m : gmap string A) k a x : m !! k = Some a →
  occ x (keys (delete k m)) + (if decide (k = x) then 1 else 0) = occ x (keys m).
Proof.
  intros Hk. rewrite !occ_keys. destruct (decide (k = x)) as [<-|Hne].
  - rewrite lookup_delete_eq, Hk. rewrite decide_False by (by intros [? ?]). rewrite decide_True by eauto. lia.
  - rewrite lookup_delete_ne by done. lia.
Qed.

(** ** Where the entries are *)

Definition turn_id (entry : ProtectedTurnEntry.t) : string := MailboxEntryFacts.staged_entry_id (ProtectedTurnEntry.facts entry).

Definition entry_ids (l : list MailboxEntry.t) : list string :=
  omap (λ e, match e with MailboxEntry.Protected entry => Some (turn_id entry) | MailboxEntry.Legacy _ => None end) l.

Definition legacy (l : list MailboxEntry.t) : list Message.t :=
  omap (λ e, match e with MailboxEntry.Legacy msg => Some msg | MailboxEntry.Protected _ => None end) l.

Definition record_ids (l : list QueuedRecord) : list string := guard_id <$> omap id l.

Definition held_detach (k : DetachK) : list string :=
  match k with InDetach => [] | InRetry todo still => record_ids todo ++ record_ids still end.

Definition held_job (j : Job) : list string := match j with JDetach k => held_detach k | _ => [] end.

(** The turns a call holds. *)
Fixpoint held_pc (pc : Pc) : list string :=
  match pc with
  | Completing _ _ _ (MailboxEntry.Protected entry) => [turn_id entry]
  | PuttingBack _ _ _ entry _ => [turn_id entry]
  | DetachScan _ _ k => held_detach k
  | Seal g j | Settle g j => guard_id g :: held_job j
  | Restoring g next => guard_id g :: held_pc next
  | QueuedLatch r => record_ids [r]
  | QueuedRecovery todo still => record_ids todo ++ record_ids still
  | _ => []
  end.

(** What a call has done for good: a receiver took a message, a delivery was
    acknowledged. *)
Inductive Deed := Took (msg : Message.t) | Acknowledged.

Definition deed (pc : Pc) : option Deed :=
  match pc with
  | Completing _ _ _ (MailboxEntry.Legacy msg) | Notifying (Got msg) | Fin (Got msg) => Some (Took msg)
  | Notifying (Delivered (Ok _)) | Fin (Delivered (Ok _)) => Some Acknowledged
  | _ => None
  end.

(** The id a call has drawn and not staged under. *)
Definition pending_pc (pc : Pc) : list string :=
  match pc with
  | Reserving _ _ facts | Staging _ _ facts => [MailboxEntryFacts.staged_entry_id facts]
  | _ => []
  end.

Section facts.
Context `{Notify, EntryIds}.
Implicit Types s : World.

Definition held s : list string := gather held_pc (tasks s).
Definition pending s : list string := gather pending_pc (tasks s).
Definition latched s : list string := record_ids (queued_removal_recovery s) ++ (turn_id <$> dequeue_recovery s).
Definition departed s : list string := (gone s).*2.

(** Outside of the mailbox. *)
Definition outside s : list string := held s ++ latched s ++ departed s.

Definition inside s : list string := keys (staged s) ++ entry_ids (high_priority s) ++ entry_ids (queue s).

(** The turns that may come back. *)
Definition in_flight s : nat := length (held s) + length (record_ids (queued_removal_recovery s)).

(** ** Moves *)

Record View := mkView {
  v_staged : gmap string StagedTurnEntry.t;
  v_high : list MailboxEntry.t;
  v_normal : list MailboxEntry.t;
  v_accepted : list (nat * QueuePriority.t * Message.t);
  v_received : list (nat * QueuePriority.t * Message.t);
  v_admitted : list string
}.

Definition view s : View := mkView (staged s) (high_priority s) (queue s) (accepted s) (received s) (admitted s).

Definition v_queue (p : QueuePriority.t) (v : View) : list MailboxEntry.t :=
  match p with QueuePriority.High => v_high v | QueuePriority.Normal => v_normal v end.

Definition v_set (p : QueuePriority.t) (l : list MailboxEntry.t) (v : View) : View :=
  match p with
  | QueuePriority.High => mkView (v_staged v) l (v_normal v) (v_accepted v) (v_received v) (v_admitted v)
  | QueuePriority.Normal => mkView (v_staged v) (v_high v) l (v_accepted v) (v_received v) (v_admitted v)
  end.
Definition v_set_staged m (v : View) : View := mkView m (v_high v) (v_normal v) (v_accepted v) (v_received v) (v_admitted v).
Definition v_accept t p msg (v : View) : View := mkView (v_staged v) (v_high v) (v_normal v) (v_accepted v ++ [(t, p, msg)]) (v_received v) (v_admitted v).
Definition v_receive t p msg (v : View) : View := mkView (v_staged v) (v_high v) (v_normal v) (v_accepted v) (v_received v ++ [(t, p, msg)]) (v_admitted v).
Definition v_admit id (v : View) : View := mkView (v_staged v) (v_high v) (v_normal v) (v_accepted v) (v_received v) (id :: v_admitted v).

Definition v_size (v : View) : nat := size (v_staged v) + length (v_high v) + length (v_normal v).

(** What a step of call [t] moves: the ids that come in, the ids that go out,
    those that are admitted and what [t] does for good.  [room] says whether a
    place was free. *)
Inductive move (t : nat) (room : Prop) (v : View) : View → list string → list string → list string → option Deed → Prop :=
| m_none : move t room v v [] [] [] None
| m_accept p msg : room →
    move t room v (v_accept t p msg (v_set p (v_queue p v ++ [MailboxEntry.Legacy msg]) v)) [] [] [] (Some Acknowledged)
| m_receive p i msg :
    v_queue p v !! i = Some (MailboxEntry.Legacy msg) → legacy (take i (v_queue p v)) = [] →
    move t room v (v_receive t p msg (v_set p (delete i (v_queue p v)) v)) [] [] [] (Some (Took msg))
| m_take p i entry :
    v_queue p v !! i = Some (MailboxEntry.Protected entry) →
    move t room v (v_set p (delete i (v_queue p v)) v) [] [turn_id entry] [] None
| m_put p i entry :
    move t room v (v_set p (take i (v_queue p v) ++ MailboxEntry.Protected entry :: drop i (v_queue p v)) v)
      [turn_id entry] [] [] None
| m_admit entry : room →
    let id := MailboxEntryFacts.staged_entry_id (StagedTurnEntry.facts entry) in
    move t room v (v_admit id (v_set_staged (<[id := entry]> (v_staged v)) v)) [] [] [id] None
| m_attach id old entry :
    v_staged v !! id = Some old → StagedTurnEntry.facts entry = StagedTurnEntry.facts old →
    move t room v (v_set_staged (<[id := entry]> (v_staged v)) v) [] [] [] None
| m_publish p old entry :
    v_staged v !! turn_id entry = Some old →
    move t room v (v_set p (v_queue p v ++ [MailboxEntry.Protected entry]) (v_set_staged (delete (turn_id entry) (v_staged v)) v))
      [] [] [] None
| m_unstage id old :
    v_staged v !! id = Some old → move t room v (v_set_staged (delete id (v_staged v)) v) [] [id] [] None
| m_restage id entry :
    v_staged v !! id = None → MailboxEntryFacts.staged_entry_id (StagedTurnEntry.facts entry) = id →
    move t room v (v_set_staged (<[id := entry]> (v_staged v)) v) [id] [] [] None.

(** A guard on a staged entry names it; what is left to do after a guard is
    dropped is no receiver's and no producer's; and no restored entry was there. *)
Definition named_staged (id : string) (entry : StagedTurnEntry.t) : Prop :=
  MailboxEntryFacts.staged_entry_id (StagedTurnEntry.facts entry) = id.

Definition named_guard (g : Guard.t) : Prop := match g with Guard.Staged id entry => named_staged id entry | _ => True end.

Definition named_records (l : list QueuedRecord) : Prop := Forall (λ r, match r with Some g => named_guard g | None => True end) l.

Definition named_detach (k : DetachK) : Prop :=
  match k with InDetach => True | InRetry todo still => named_records todo ∧ named_records still end.

Definition named_job (j : Job) : Prop := match j with JDetach k => named_detach k | _ => True end.

Definition after_guard (pc : Pc) : Prop :=
  match pc with
  | Fin f => deed (Fin f) = None
  | NeverLatch _ _ | NeverRecovery _ _ | DetachScan _ _ _ | QueuedLatch _ | QueuedRecovery _ _ => True
  | _ => False
  end.

Fixpoint named_pc (pc : Pc) : Prop :=
  match pc with
  | DetachScan _ _ k => named_detach k
  | Seal g j | Settle g j => named_guard g ∧ named_job j
  | Restoring g next => named_guard g ∧ after_guard next ∧ named_pc next
  | QueuedLatch r => named_records [r]
  | QueuedRecovery todo still => named_records todo ∧ named_records still
  | Notifying (Panicked RestoredOnce) | Fin (Panicked RestoredOnce) => False
  | _ => True
  end.

Definition named s : Prop :=
  map_Forall named_staged (staged s) ∧ map_Forall (λ _, named_pc) (tasks s) ∧ named_records (queued_removal_recovery s).

(** What a step of call [t] does. *)
Definition effect (t : nat) s s' : Prop :=
  ∃ inn out adm got new,
    move t (occupancy s < capacity s)%Z (view s) (view s') inn out adm got
    ∧ (∀ x, occ x (outside s') + occ x inn = occ x (outside s) + occ x out)
    ∧ in_flight s' + length inn ≤ in_flight s + length out
    ∧ (∀ x, occ x (pending s') + occ x adm ≤ occ x (pending s) + occ x new)
    ∧ (new = [] ∧ drawn s' = drawn s ∨ new = [entry_id (drawn s)] ∧ drawn s' = S (drawn s))
    ∧ (adm = [] ∨ ∃ id, adm = [id] ∧ id ∈ pending s)
    ∧ capacity s' = capacity s
    ∧ (∃ pc', tasks s' = <[t := pc']> (tasks s) ∧ named_pc pc'
        ∧ deed pc' = (match got with Some d => Some d | None => tasks s !! t ≫= deed end)
        ∧ (is_Some got → tasks s !! t ≫= deed = None))
    ∧ named_records (queued_removal_recovery s').

(** ** The parts of a call *)

Lemma record_ids_app l k : record_ids (l ++ k) = record_ids l ++ record_ids k.
Proof. unfold record_ids. by rewrite omap_app, fmap_app. Qed.

Lemma named_records_app l k : named_records (l ++ k) ↔ named_records l ∧ named_records k.
Proof. apply Forall_app. Qed.

Lemma never_done_parts physical facts k r :
  let pc := never_done physical facts k r in
  held_pc pc = [] ∧ pending_pc pc = [] ∧ deed pc = None ∧ named_pc pc.
Proof. by destruct k, r. Qed.

Lemma detach_missing_parts k r :
  let pc := detach_missing k r in
  held_pc pc = held_detach k ∧ pending_pc pc = [] ∧ deed pc = None ∧ (named_detach k → named_pc pc).
Proof.
  destruct k as [|todo still]; [destruct r; (split_and!; [done..|intros _; repeat constructor])|].
  simpl. rewrite record_ids_app. simpl. rewrite app_nil_r. split_and!; [done..|]. intros [Ht Hs]. split; [done|].
  apply named_records_app. split; [done|]. by repeat constructor.
Qed.

Lemma seal_failed_parts g j e :
  let pc := seal_failed g j e in
  held_pc pc = held_job j ∧ pending_pc pc = [] ∧ deed pc = None ∧ (named_job j → named_pc pc).
Proof.
  destruct j as [facts k| |k]; simpl.
  - destruct (never_done_parts true facts k (Err (map_turn_mailbox e))) as (? & ? & ? & ?). done.
  - done.
  - destruct (detach_missing_parts k (Err (map_turn_mailbox e))) as (? & ? & ? & ?). by destruct g, e.
Qed.

Lemma after_guard_parts pc : after_guard pc → pending_pc pc = [] ∧ deed pc = None.
Proof. by destruct pc. Qed.

Lemma never_done_after physical facts k r : after_guard (never_done physical facts k r).
Proof. by destruct k, r. Qed.

Lemma seal_failed_after g j e : after_guard (seal_failed g j e).
Proof. destruct j as [facts k| |[]]; simpl; [apply never_done_after|done|by destruct g, e..]. Qed.

(** ** Every step is an effect *)

Lemma gather_task (f : Pc → list string) t pc s :
  gather f (tasks (set_task t pc s)) ++ default [] (f <$> tasks s !! t) ≡ₚ f pc ++ gather f (tasks s).
Proof. apply gather_update. Qed.

Lemma effect_intro t s s1 pc' old inn out adm got new :
  tasks s1 = tasks s → tasks s !! t = old →
  move t (occupancy s < capacity s)%Z (view s) (view s1) inn out adm got →
  (∀ x, occ x (held_pc pc') + occ x (latched s1) + occ x (departed s1) + occ x inn
        = occ x (default [] (held_pc <$> old)) + occ x (latched s) + occ x (departed s) + occ x out) →
  length (held_pc pc') + length (record_ids (queued_removal_recovery s1)) + length inn
    ≤ length (default [] (held_pc <$> old)) + length (record_ids (queued_removal_recovery s)) + length out →
  (∀ x, occ x (pending_pc pc') + occ x adm ≤ occ x (default [] (pending_pc <$> old)) + occ x new) →
  (new = [] ∧ drawn s1 = drawn s ∨ new = [entry_id (drawn s)] ∧ drawn s1 = S (drawn s)) →
  (adm = [] ∨ ∃ id, adm = [id] ∧ id ∈ default [] (pending_pc <$> old)) →
  capacity s1 = capacity s → named_pc pc' →
  deed pc' = (match got with Some d => Some d | None => old ≫= deed end) →
  (is_Some got → old ≫= deed = None) →
  named_records (queued_removal_recovery s1) →
  effect t s (set_task t pc' s1).
Proof.
  intros Ht Hold Hm Hocc Hlen Hpend Hnew Hadm Hcap Hnamed Hret Hgot Hq.
  exists inn, out, adm, got, new.
  pose proof (gather_task held_pc t pc' s1) as Hg. pose proof (gather_task pending_pc t pc' s1) as Hp.
  rewrite Ht, Hold in Hg, Hp. split; [exact Hm|]. split; [|split; [|split; [|split; [exact Hnew|split; [|split; [exact Hcap|split; [|exact Hq]]]]]]].
  - intros x. specialize (Hocc x). apply (occ_perm x) in Hg. autorewrite with occ in Hg.
    unfold outside. autorewrite with occ. change (latched (set_task t pc' s1)) with (latched s1).
    change (departed (set_task t pc' s1)) with (departed s1). unfold held. lia.
  - apply Permutation_length in Hg. rewrite !length_app in Hg. unfold in_flight, held.
    change (queued_removal_recovery (set_task t pc' s1)) with (queued_removal_recovery s1). lia.
  - intros x. specialize (Hpend x). apply (occ_perm x) in Hp. autorewrite with occ in Hp. unfold pending. lia.
  - destruct Hadm as [|(id & -> & Hid)]; [by left|]. right. exists id. split; [done|].
    unfold pending. apply elem_gather. destruct old as [pc|]; simpl in Hid; [|by apply not_elem_of_nil in Hid]. eauto.
  - exists pc'. simpl. rewrite Ht. by rewrite Hold.
Qed.

(** What a step leaves alone when it only changes flags, the notifier or the
    call's own position. *)
Definition quiet s s1 : Prop :=
  tasks s1 = tasks s ∧ view s1 = view s ∧ queued_removal_recovery s1 = queued_removal_recovery s
  ∧ dequeue_recovery s1 = dequeue_recovery s ∧ gone s1 = gone s ∧ drawn s1 = drawn s ∧ capacity s1 = capacity s.

Lemma effect_quiet t s s1 pc pc' :
  named s → tasks s !! t = Some pc → quiet s s1 →
  held_pc pc' = held_pc pc → (pending_pc pc' = [] ∨ pending_pc pc' = pending_pc pc) → deed pc' = deed pc →
  (named_pc pc → named_pc pc') → effect t s (set_task t pc' s1).
Proof.
  intros (_ & Hn & Hq) Ht (Htasks & Hview & Hqr & Hdr & Hgone & Hdrawn & Hcap) Hheld Hpend Hret Hnamed.
  eapply (effect_intro t s s1 pc' _ [] [] [] None []); [exact Htasks|exact Ht|rewrite Hview; apply m_none|..]; simpl.
  - intros x. rewrite Hheld. unfold latched, departed. by rewrite Hqr, Hdr, Hgone.
  - by rewrite Hheld, Hqr.
  - intros x. destruct Hpend as [-> | ->]; autorewrite with occ; lia.
  - by left.
  - by left.
  - done.
  - apply Hnamed. exact (map_Forall_lookup_1 _ _ _ _ Hn Ht).
  - done.
  - by intros [? ?].
  - by rewrite Hqr.
Qed.

(** A call begins. *)
Lemma effect_begin t c s : named s → tasks s !! t = None → effect t s (begin t c s).
Proof.
  intros (_ & _ & Hq) Ht.
  assert (∀ pc' s1, quiet s s1 → held_pc pc' = [] → pending_pc pc' = [] → deed pc' = None → named_pc pc' →
    effect t s (set_task t pc' s1)) as Hgo.
  { intros pc' s1 (Htasks & Hview & Hqr & Hdr & Hgone & Hdrawn & Hcap) Hheld Hpend Hret Hnamed.
    eapply (effect_intro t s s1 pc' None [] [] [] None []); try done.
    - rewrite Hview. apply m_none.
    - intros x. rewrite Hheld. simpl. unfold latched, departed. by rewrite Hqr, Hdr, Hgone.
    - rewrite Hheld, Hqr. simpl. lia.
    - intros x. by rewrite Hpend.
    - by left.
    - by left.
    - by rewrite Hqr. }
  destruct c; simpl; try (by apply Hgo); try (case_match; by apply Hgo).
  - destruct (turn_authority s); [|by apply Hgo].
    eapply (effect_intro t s (draw_one s) _ None [] [] [] None [entry_id (drawn s)]); try done.
    + apply m_none.
    + intros x. simpl. autorewrite with occ. lia.
    + by right.
    + by left.
  - destruct (turn_authority s); [|by apply Hgo].
    eapply (effect_intro t s (set_queued [] s) _ None [] [] [] None []); try done.
    + apply m_none.
    + intros x. unfold latched, departed. simpl. autorewrite with occ. lia.
    + simpl. rewrite app_nil_r. lia.
    + by left.
    + by left.
    + simpl. split; [done|]. by constructor.
    + by constructor.
Qed.

(** ** Receivers *)

Lemma view_remove_at p i s : view (remove_at p i s) = v_set p (delete i (v_queue p (view s))) (view s).
Proof. by destruct p. Qed.

Lemma view_insert_at p i e s :
  view (insert_at p i e s) = v_set p (take i (v_queue p (view s)) ++ e :: drop i (v_queue p (view s))) (view s).
Proof. by destruct p. Qed.

Lemma view_push_back p e s : view (push_back p e s) = v_set p (v_queue p (view s) ++ [e]) (view s).
Proof. by destruct p. Qed.

Lemma queue_of_view p s : queue_of p s = v_queue p (view s).
Proof. by destruct p. Qed.

(** The other fields. *)
Lemma set_queue_frame p l s :
  let s1 := set_queue p l s in
  tasks s1 = tasks s ∧ queued_removal_recovery s1 = queued_removal_recovery s ∧ dequeue_recovery s1 = dequeue_recovery s
  ∧ gone s1 = gone s ∧ drawn s1 = drawn s ∧ capacity s1 = capacity s.
Proof. by destruct p. Qed.

Lemma legacy_app l k : legacy (l ++ k) = legacy l ++ legacy k.
Proof. apply omap_app. Qed.

(** What a receiver finds is its first: no legacy message is before it. *)
Lemma first_entry_spec k p s i e :
  first_entry k p s = Some (i, e) → queue_of p s !! i = Some e ∧ legacy (take i (queue_of p s)) = [].
Proof.
  unfold first_entry. intros (Hi & _ & Hbefore)%list_find_Some. split; [done|].
  destruct (legacy (take i (queue_of p s))) as [|msg l] eqn:Hl; [done|]. exfalso.
  assert (msg ∈ legacy (take i (queue_of p s))) as Hm by (rewrite Hl; apply elem_of_cons; by left).
  apply list_elem_of_omap in Hm as (x & Hx & Hmsg). apply list_elem_of_lookup in Hx as (j & Hj).
  apply lookup_take_Some in Hj as (Hj & Hlt). apply (Hbefore j x Hj Hlt). by destruct x, k.
Qed.

(** Calls that hold nothing. *)
Definition idle_pc (pc : Pc) : Prop := held_pc pc = [] ∧ pending_pc pc = [] ∧ deed pc = None.

Ltac frame := csimpl; rewrite ?app_nil_r; autorewrite with occ; try lia; try done.

(** The moves of a protected turn, whatever the call goes on to do: it is taken
    from a queue, put back, taken from the staged ones, put back, or departs. *)
Lemma effect_take_turn t p i entry s pc pc' :
  named s → tasks s !! t = Some pc → v_queue p (view s) !! i = Some (MailboxEntry.Protected entry) →
  held_pc pc' ≡ₚ turn_id entry :: held_pc pc → pending_pc pc' = [] → deed pc' = deed pc → named_pc pc' →
  effect t s (set_task t pc' (remove_at p i s)).
Proof.
  intros (_ & _ & Hq) Ht Hi Hh Hp Hr Hn.
  destruct (set_queue_frame p (delete i (queue_of p s)) s) as (F1 & F2 & F3 & F4 & F5 & F6).
  unfold remove_at. eapply (effect_intro t s _ _ _ [] [turn_id entry] [] None []); [exact F1|exact Ht|..].
  - fold (remove_at p i s). rewrite view_remove_at. by apply m_take.
  - intros x. simpl. rewrite (occ_perm x _ _ Hh). unfold latched, departed. rewrite F2, F3, F4. frame.
  - rewrite Hh, F2. simpl. lia.
  - intros x. rewrite Hp. frame.
  - left. by split.
  - by left.
  - exact F6.
  - exact Hn.
  - exact Hr.
  - by intros [? ?].
  - by rewrite F2.
Qed.

Lemma effect_put_turn t p i entry s s1 pc pc' :
  named s → tasks s !! t = Some pc → quiet (insert_at p i (MailboxEntry.Protected entry) s) s1 →
  held_pc pc ≡ₚ turn_id entry :: held_pc pc' → pending_pc pc' = [] → deed pc' = deed pc → named_pc pc' →
  effect t s (set_task t pc' s1).
Proof.
  intros (_ & _ & Hq) Ht (Htasks & Hview & Hqr & Hdr & Hgone & Hdrawn & Hcap) Hh Hp Hr Hn.
  destruct (set_queue_frame p (take i (queue_of p s) ++ MailboxEntry.Protected entry :: drop i (queue_of p s)) s)
    as (F1 & F2 & F3 & F4 & F5 & F6).
  unfold insert_at in *. rewrite F1 in Htasks. rewrite F2 in Hqr. rewrite F3 in Hdr. rewrite F4 in Hgone.
  eapply (effect_intro t s _ _ _ [turn_id entry] [] [] None []); [exact Htasks|exact Ht|..].
  - rewrite Hview. fold (insert_at p i (MailboxEntry.Protected entry) s). rewrite view_insert_at. apply m_put.
  - intros x. simpl. rewrite (occ_perm x _ _ Hh). unfold latched, departed. rewrite Hqr, Hdr, Hgone. frame.
  - simpl. rewrite Hh, Hqr. simpl. lia.
  - intros x. rewrite Hp. frame.
  - left. split; [done|]. by rewrite Hdrawn.
  - by left.
  - by rewrite Hcap.
  - exact Hn.
  - exact Hr.
  - by intros [? ?].
  - by rewrite Hqr.
Qed.

Lemma guard_id_staged id entry : named_staged id entry → guard_id (Guard.Staged id entry) = id.
Proof. done. Qed.

Lemma effect_unstage t id old s pc pc' :
  named s → tasks s !! t = Some pc → staged s !! id = Some old →
  held_pc pc' ≡ₚ id :: held_pc pc → pending_pc pc' = [] → deed pc' = deed pc → named_pc pc' →
  effect t s (set_task t pc' (set_staged (delete id (staged s)) s)).
Proof.
  intros (_ & _ & Hq) Ht Hid Hh Hp Hr Hn.
  eapply (effect_intro t s _ _ _ [] [id] [] None []); [done|exact Ht|by eapply m_unstage|..]; try done.
  - intros x. simpl. rewrite (occ_perm x _ _ Hh). unfold latched, departed. frame.
  - rewrite Hh. simpl. lia.
  - intros x. rewrite Hp. frame.
  - by left.
  - by left.
Qed.

Lemma effect_restage t id entry s pc pc' :
  named s → tasks s !! t = Some pc → staged s !! id = None → named_staged id entry →
  held_pc pc ≡ₚ id :: held_pc pc' → pending_pc pc' = [] → deed pc' = deed pc → named_pc pc' →
  effect t s (set_task t pc' (set_staged (<[id := entry]> (staged s)) s)).
Proof.
  intros (_ & _ & Hq) Ht Hid Hname Hh Hp Hr Hn.
  eapply (effect_intro t s _ _ _ [id] [] [] None []); [done|exact Ht|by apply m_restage|..]; try done.
  - intros x. simpl. rewrite (occ_perm x _ _ Hh). unfold latched, departed. frame.
  - simpl. rewrite Hh. simpl. lia.
  - intros x. rewrite Hp. frame.
  - by left.
  - by left.
Qed.

Lemma effect_depart t x id s s1 pc pc' :
  named s → tasks s !! t = Some pc → quiet (log_gone x id s) s1 →
  held_pc pc ≡ₚ id :: held_pc pc' → pending_pc pc' = [] → deed pc' = deed pc → named_pc pc' →
  effect t s (set_task t pc' s1).
Proof.
  intros (_ & _ & Hq) Ht (Htasks & Hview & Hqr & Hdr & Hgone & Hdrawn & Hcap) Hh Hp Hr Hn. simpl in *.
  eapply (effect_intro t s _ _ _ [] [] [] None []); [exact Htasks|exact Ht|rewrite Hview; apply m_none|..]; try done.
  - intros y. simpl. rewrite (occ_perm y _ _ Hh). unfold latched, departed. rewrite Hqr, Hdr, Hgone. frame.
  - simpl. rewrite Hh, Hqr. simpl. lia.
  - intros y. rewrite Hp. frame.
  - left. by split.
  - by left.
  - by rewrite Hqr.
Qed.

Lemma effect_take t k recv p i e s pc :
  named s → tasks s !! t = Some pc → idle_pc pc → first_entry k p s = Some (i, e) → effect t s (take_entry t k recv p i e s).
Proof.
  intros Hs Ht (Hh & Hp & Hr) (Hi & Hl)%first_entry_spec. pose proof Hs as (_ & _ & Hq). rewrite queue_of_view in Hi, Hl.
  destruct (set_queue_frame p (delete i (queue_of p s)) s) as (F1 & F2 & F3 & F4 & F5 & F6).
  destruct e as [msg|entry]; unfold take_entry.
  - assert (∀ pc' s1, quiet (log_received t p msg (remove_at p i s)) s1 → held_pc pc' = [] → pending_pc pc' = [] →
      deed pc' = Some (Took msg) → named_pc pc' → effect t s (set_task t pc' s1)) as Hgo.
    { intros pc' s1 (Htasks & Hview & Hqr & Hdr & Hgone & Hdrawn & Hcap) Hheld Hpend Hret Hnamed.
      eapply (effect_intro t s s1 pc' _ [] [] [] (Some (Took msg)) []); [by rewrite Htasks|exact Ht|..].
      - rewrite Hview. change (view (log_received t p msg (remove_at p i s))) with (v_receive t p msg (view (remove_at p i s))).
        rewrite view_remove_at. by apply m_receive.
      - intros x. simpl. rewrite Hheld, Hh. unfold latched, departed. rewrite Hqr, Hdr, Hgone. simpl.
        unfold remove_at. by rewrite F2, F3, F4.
      - simpl. rewrite Hheld, Hh, Hqr. simpl. unfold remove_at. rewrite F2. lia.
      - intros x. simpl. rewrite Hpend, Hp. lia.
      - left. split; [done|]. rewrite Hdrawn. exact F5.
      - by left.
      - rewrite Hcap. exact F6.
      - exact Hnamed.
      - exact Hret.
      - by intros _.
      - rewrite Hqr. simpl. unfold remove_at. by rewrite F2. }
    destruct k; unfold leave; [|by apply Hgo]. destruct recv; by apply Hgo.
  - apply (effect_take_turn t p i entry s pc); try done; simpl; by rewrite ?Hh, ?Hr.
Qed.

Ltac quietly := eapply effect_quiet; [eassumption|eassumption|done|done|first [by left | by right]|done|done].

Lemma quiet_leave t recv f s : ∃ s1, leave t recv f s = set_task t (Fin f) s1 ∧ quiet s s1.
Proof. by destruct recv; eexists. Qed.

(** [complete_taken] of a protected entry: put back, handed over, discarded or
    latched. *)
Lemma effect_complete t recv p i entry a s :
  named s → tasks s !! t = Some (Completing recv p i (MailboxEntry.Protected entry)) →
  effect t s (complete_protected t recv p i entry a s).
Proof.
  intros Hs Ht. unfold complete_protected.
  assert (∀ e, effect t s (set_task t (PuttingBack recv p i entry e) s)) as Hback.
  { intros e. quietly. }
  destruct (turn_authority s); simpl; [|by apply Hback].
  destruct (prepare_visible_dequeue a); [|by apply Hback].
  destruct (record_dequeued a); [|by apply Hback].
  assert (∀ x f, deed (Fin f) = None → named_pc (Fin f) → effect t s (leave t recv f (log_gone x (turn_id entry) s))) as Hgone.
  { intros x f Hf Hnf. destruct (quiet_leave t recv f (log_gone x (turn_id entry) s)) as (s1 & -> & Hq). by eapply effect_depart. }
  destruct (complete_dequeue_handoff a) as [|e]; [by apply Hgone|]. destruct (abandon_dequeuing a entry); [by apply Hgone|].
  destruct (size_of (dequeue_recovery s) <? MAX_TURN_RECOVERY_LATCHES)%Z; [|by apply Hgone].
  destruct (quiet_leave t recv (GotError e) (set_dequeue (dequeue_recovery s ++ [entry]) s)) as (s1 & -> & Hq).
  destruct Hq as (Htasks & Hview & Hqr & Hdr & Hg & Hdrawn & Hcap). destruct Hs as (_ & _ & Hn). simpl in *.
  eapply (effect_intro t s _ _ _ [] [] [] None []); [exact Htasks|exact Ht|rewrite Hview; apply m_none|..]; try done.
  - intros y. unfold latched, departed. rewrite Hqr, Hdr, Hg, fmap_app. frame.
  - rewrite Hqr. frame.
  - left. by split.
  - by left.
  - by rewrite Hqr.
Qed.

Lemma effect_recv t pc a s s' :
  named s → tasks s !! t = Some pc → recv_step t pc a s = Some s' → effect t s s'.
Proof.
  intros Hs Ht. destruct pc; try done; simpl.
  - intros [= <-]. quietly.
  - intros [= <-]. destruct (frozen s); quietly.
  - destruct (first_entry k QueuePriority.High s) as [[i e]|] eqn:He; intros [= <-]; [by eapply effect_take|].
    quietly.
  - destruct (first_entry k QueuePriority.Normal s) as [[i e]|] eqn:He; intros [= <-]; [by eapply effect_take|].
    quietly.
  - destruct (ready t (notifier s)); [|done]. intros [= <-]. quietly.
  - intros [= <-]. destruct (frozen s); quietly.
  - destruct (if contended a then None else first_entry k QueuePriority.High s) as [[i e]|] eqn:He; intros [= <-].
    + destruct (contended a); [done|]. by eapply effect_take.
    + quietly.
  - destruct (if contended a then None else first_entry k QueuePriority.Normal s) as [[i e]|] eqn:He; intros [= <-].
    + destruct (contended a); [done|]. by eapply effect_take.
    + quietly.
  - destruct entry as [msg|entry]; intros [= <-].
    + destruct (quiet_leave t recv (Got msg) s) as (s1 & -> & Hq). quietly.
    + by apply effect_complete.
  - intros [= <-]. destruct (quiet_leave t recv (GotError e) (wake (insert_at p index (MailboxEntry.Protected entry) s))) as (s1 & -> & Hq).
    eapply effect_put_turn; [exact Hs|exact Ht|exact Hq|done..].
Qed.

(** ** Staging, publishing, removing *)

Lemma effect_never t s pc physical facts k r :
  named s → tasks s !! t = Some pc → idle_pc pc → effect t s (set_task t (never_done physical facts k r) s).
Proof.
  intros Hs Ht (Hh & Hp & Hr). destruct (never_done_parts physical facts k r) as (Ph & Pp & Pr & Pn).
  eapply effect_quiet; [exact Hs|exact Ht|done|by rewrite Ph|by left|by rewrite Pr|done].
Qed.

Lemma effect_prepare t pc a s s' :
  named s → tasks s !! t = Some pc → prepare_step t pc a s = Some s' → effect t s s'.
Proof.
  intros Hs Ht. destruct pc; try done; simpl.
  - destruct (reserve_queued a); intros [= <-]; quietly.
  - destruct (stage_reserved msg spec facts s) as [s1|e] eqn:Hst; intros [= <-]; [|quietly].
    unfold stage_reserved in Hst.
    apply bind_Ok in Hst as (u & _ & Hst). apply bind_Ok in Hst as (u' & _ & Hst). apply bind_Ok in Hst as (u'' & _ & Hst).
    apply bind_Ok in Hst as (v & Hroom & Hst). apply guard_err_Ok in Hroom. injection Hst as <-.
    destruct Hs as (_ & _ & Hq).
    eapply (effect_intro t s _ _ _ [] [] [MailboxEntryFacts.staged_entry_id facts] None []);
      [done|exact Ht|refine (m_admit t _ (view s) (StagedTurnEntry.mk msg facts None) _); lia|..]; try done.
    + intros x. simpl. autorewrite with occ. lia.
    + by left.
    + right. eexists. split; [done|]. simpl. by apply list_elem_of_singleton.
  - destruct (seal_staged_admission a) as [[c [r|e]]|e]; intros [= <-]; quietly.
  - destruct (attach_admission (MailboxEntryFacts.staged_entry_id facts) admission s) as [s1|e] eqn:Hat; intros [= <-]; [|quietly].
    unfold attach_admission in Hat. apply bind_Ok in Hat as (old & Hold & Hat). apply ok_or_Ok in Hold.
    apply bind_Ok in Hat as (u & _ & Hat). injection Hat as <-. destruct Hs as (_ & _ & Hq).
    eapply (effect_intro t s _ _ _ [] [] [] None []); [done|exact Ht|by eapply m_attach|..]; try done; by left.
  - destruct (confirm_mailbox_admission a); intros [= <-]; quietly.
  - destruct (staged s !! MailboxEntryFacts.staged_entry_id facts) as [old|] eqn:Hold; intros [= <-].
    + pose proof (map_Forall_lookup_1 _ _ _ _ (proj1 Hs) Hold) as Hname.
      eapply effect_unstage; [exact Hs|exact Ht|exact Hold| |done|done|done]. simpl. by rewrite guard_id_staged.
    + eapply effect_never; [exact Hs|exact Ht|done].
  - intros [= <-]. eapply effect_never; [exact Hs|exact Ht|done].
  - destruct (size_of (never_admitted_recovery s) <? MAX_TURN_RECOVERY_LATCHES)%Z; intros [= <-]; quietly.
  - destruct (publish_staged staged_entry_id barrier digest a s) as [s1|e] eqn:Hpub; intros [= <-]; [|quietly].
    unfold publish_staged in Hpub. apply bind_Ok in Hpub as (u & _ & Hpub). apply bind_Ok in Hpub as (old & Hold & Hpub).
    apply ok_or_Ok in Hold. apply bind_Ok in Hpub as (adm & _ & Hpub). apply bind_Ok in Hpub as (pub & _ & Hpub).
    injection Hpub as <-. destruct Hs as (Hs & _ & Hq). pose proof (map_Forall_lookup_1 _ _ _ _ Hs Hold) as Hname.
    set (entry := ProtectedTurnEntry.mk _ _ _ _ _ _).
    destruct (set_queue_frame (priority_of (StagedTurnEntry.message old)) (queue_of (priority_of (StagedTurnEntry.message old)) (set_staged (delete staged_entry_id (staged s)) s) ++ [MailboxEntry.Protected entry]) (set_staged (delete staged_entry_id (staged s)) s))
      as (F1 & F2 & F3 & F4 & F5 & F6).
    unfold push_back.
    eapply (effect_intro t s _ _ _ [] [] [] None []); [exact F1|exact Ht|..]; try done.
    + change (set_queue ?p _ ?s) with (push_back p (MailboxEntry.Protected entry) s). rewrite view_push_back.
      change (view (set_staged (delete staged_entry_id (staged s)) s)) with (v_set_staged (delete staged_entry_id (v_staged (view s))) (view s)).
      assert (staged_entry_id = turn_id entry) as -> by (symmetry; exact Hname).
      replace (v_queue _ (v_set_staged _ _)) with (v_queue (priority_of (StagedTurnEntry.message old)) (view s)) by (by destruct (priority_of _)).
      eapply m_publish. unfold turn_id. simpl. unfold named_staged in Hname. by rewrite Hname.
    + intros y. unfold latched, departed. rewrite F2, F3, F4. frame.
    + rewrite F2. frame.
    + left. by split.
    + by left.
    + by rewrite F2.
  - intros [= <-]. destruct (staged s !! staged_entry_id) as [old|] eqn:Hold; [|quietly].
    destruct Hs as (_ & _ & Hq).
    eapply (effect_intro t s _ _ _ [] [staged_entry_id] [] None []); [done|exact Ht|by eapply m_unstage|..]; try done.
    + intros y. unfold latched, departed. frame.
    + simpl. lia.
    + by left.
    + by left.
  - destruct todo as [|[[] facts] todo]; intros [= <-]; quietly.
Qed.

Lemma effect_guard t pc p i e j s s' :
  named s → tasks s !! t = Some pc → pending_pc pc = [] → deed pc = None → held_pc pc = held_job j → named_job j →
  queue_of p s !! i = Some e → guard_entry t p i e j s = Some s' → effect t s s'.
Proof.
  intros Hs Ht Hp Hr Hh Hj Hi. destruct e as [msg|entry]; [done|]. intros [= <-]. rewrite queue_of_view in Hi.
  eapply effect_take_turn; [exact Hs|exact Ht|exact Hi|simpl; by rewrite Hh|done|by rewrite Hr|by split].
Qed.

Lemma find_protected_spec from q i e : find_protected from q = Some (i, e) → q !! i = Some e.
Proof.
  unfold find_protected. intros ([j x] & (Hj & _)%list_find_Some & [= <- <-])%bind_Some. by rewrite <- lookup_drop.
Qed.

(** What a call holds is not staged. *)
Definition apart s : Prop := ∀ t id pc, tasks s !! t = Some pc → id ∈ held_pc pc → staged s !! id = None.

Lemma effect_restore t g next s :
  named s → apart s → tasks s !! t = Some (Restoring g next) → effect t s (restore_guard t g next s).
Proof.
  intros Hs Hap Ht. pose proof (map_Forall_lookup_1 _ _ _ _ (proj1 (proj2 Hs)) Ht) as (Hg & [Hp Hr]%after_guard_parts & Hn).
  destruct g as [id entry|p i entry]; simpl.
  - assert (staged s !! id = None) as Hid.
    { pose proof (Hap t (guard_id (Guard.Staged id entry)) _ Ht) as Hid. rewrite guard_id_staged in Hid by done.
      apply Hid. simpl. rewrite guard_id_staged by done. apply elem_of_cons. by left. }
    rewrite Hid. eapply effect_restage; [exact Hs|exact Ht|exact Hid|exact Hg| |done|done|exact Hn].
    simpl. by rewrite guard_id_staged.
  - eapply effect_put_turn; [exact Hs|exact Ht|done|done|done|done|exact Hn].
Qed.

Lemma effect_settled t g j r s :
  named s → tasks s !! t = Some (Settle g j) → effect t s (settled t g j r s).
Proof.
  intros Hs Ht. pose proof (map_Forall_lookup_1 _ _ _ _ (proj1 (proj2 Hs)) Ht) as [Hg Hj].
  assert (∀ next, held_pc next = held_job j → pending_pc next = [] → deed next = None → named_pc next →
    effect t s (set_task t next (log_gone Discarded (guard_id g) s))) as Hgone.
  { intros next Ph Pp Pr Pn. eapply effect_depart; [exact Hs|exact Ht|done|simpl; by rewrite Ph|exact Pp|exact Pr|exact Pn]. }
  assert (∀ next, held_pc next = held_job j → after_guard next → named_pc next → effect t s (set_task t (Restoring g next) s)) as Hback.
  { intros next Ph Pa Pn. eapply effect_quiet; [exact Hs|exact Ht|done|simpl; by rewrite Ph|by left|done|]. simpl. auto. }
  destruct j as [facts k| |[|todo still]], r as [u|code]; simpl.
  - destruct (never_done_parts true facts k (Ok ())) as (? & ? & ? & ?). by apply Hgone.
  - destruct (never_done_parts true facts k (Err (denied code))) as (? & ? & ? & ?). apply Hback; [done|apply never_done_after|done].
  - by apply Hgone.
  - by apply Hback.
  - by apply Hgone.
  - eapply effect_quiet; [exact Hs|exact Ht|done|done|by left|done|]. intros _. simpl. by repeat constructor.
  - apply Hgone; [done|done|done|exact Hj].
  - destruct Hs as (Hs1 & Hs2 & Hq). simpl in Hj. destruct Hj as [Ht1 Ht2].
    eapply (effect_intro t s _ _ _ [] [] [] None []); [done|exact Ht|apply m_none|..]; try done.
    + intros y. unfold latched, departed. simpl. rewrite record_ids_app. change (record_ids [Some g]) with [guard_id g]. frame.
    + simpl. rewrite record_ids_app, !length_app. simpl. lia.
    + by left.
    + by left.
    + split; [done|]. apply named_records_app. split; [done|]. by repeat constructor.
Qed.

Lemma recover_dequeue_frame a s :
  let s1 := recover_dequeue a s in
  tasks s1 = tasks s ∧ view s1 = view s ∧ queued_removal_recovery s1 = queued_removal_recovery s ∧ drawn s1 = drawn s
  ∧ capacity s1 = capacity s ∧ notifier s1 = notifier s ∧ frozen s1 = frozen s ∧ released s1 = released s
  ∧ ∀ x, occ x (turn_id <$> dequeue_recovery s1) + occ x (departed s1)
         = occ x (turn_id <$> dequeue_recovery s) + occ x (departed s).
Proof.
  assert (∀ l s0, let s1 := fold_left (abandon_latched a) l s0 in
    tasks s1 = tasks s0 ∧ view s1 = view s0 ∧ queued_removal_recovery s1 = queued_removal_recovery s0 ∧ drawn s1 = drawn s0
    ∧ capacity s1 = capacity s0 ∧ notifier s1 = notifier s0 ∧ frozen s1 = frozen s0 ∧ released s1 = released s0
    ∧ (∀ x, occ x (turn_id <$> dequeue_recovery s1) + occ x (departed s1)
            = occ x (turn_id <$> dequeue_recovery s0) + occ x (departed s0) + occ x (turn_id <$> l))) as Hfold.
  { induction l as [|entry l IH]; intros s0; simpl; [split_and!; try done; intros x; simpl; autorewrite with occ; lia|].
    destruct (IH (abandon_latched a s0 entry)) as (-> & -> & -> & -> & -> & -> & -> & -> & Hx).
    split_and!; [by unfold abandon_latched; case_match..|]. intros x. rewrite Hx. unfold abandon_latched, departed.
    fold (turn_id entry). destruct (abandon_dequeuing a entry); [frame|]. csimpl. rewrite fmap_app. frame. }
  destruct (Hfold (dequeue_recovery s) (set_dequeue [] s)) as (E1 & E2 & E3 & E4 & E5 & E6 & E7 & E8 & Hx).
  split_and!; try done. intros x. unfold recover_dequeue. rewrite Hx. unfold departed. csimpl. autorewrite with occ. lia.
Qed.

Lemma effect_dequeue_recovery t a s :
  named s → tasks s !! t = Some DequeueRecovery → effect t s (set_task t (Fin Finished) (recover_dequeue a s)).
Proof.
  intros (_ & _ & Hq) Ht. destruct (recover_dequeue_frame a s) as (E1 & E2 & E3 & E4 & E5 & _ & _ & _ & Hx).
  eapply (effect_intro t s _ _ _ [] [] [] None []); [exact E1|exact Ht|rewrite E2; apply m_none|..]; try done.
  - intros x. specialize (Hx x). unfold latched. rewrite E3. csimpl. autorewrite with occ in *. lia.
  - rewrite E3. simpl. lia.
  - left. by split.
  - by left.
  - by rewrite E3.
Qed.

Lemma effect_removal t pc a s s' :
  named s → apart s → tasks s !! t = Some pc → removal_step t pc a s = Some s' → effect t s s'.
Proof.
  intros Hs Hap Ht. pose proof (map_Forall_lookup_1 _ _ _ _ (proj1 (proj2 Hs)) Ht) as Hn. destruct pc; try done; simpl.
  - destruct (staged s !! staged_entry_id) as [old|] eqn:Hold; intros [= <-]; [|quietly].
    pose proof (map_Forall_lookup_1 _ _ _ _ (proj1 Hs) Hold) as Hname.
    eapply effect_unstage; [exact Hs|exact Ht|exact Hold| |done|done|done]. simpl. by rewrite guard_id_staged.
  - destruct (list_find _ (queue_of p s)) as [[i e]|] eqn:Hf.
    + apply list_find_Some in Hf as (Hi & _). by eapply effect_guard.
    + destruct p; intros [= <-]; quietly.
  - destruct (find_protected search_from (queue_of p s)) as [[i e]|] eqn:Hf.
    + apply find_protected_spec in Hf. by eapply effect_guard.
    + destruct p; intros [= <-]; [quietly|]. destruct (detach_missing_parts k (Ok tt)) as (Ph & Pp & Pr & Pn).
      eapply effect_quiet; [exact Hs|exact Ht|done|exact Ph|by left|exact Pr|exact Pn].
  - assert (∀ e, effect t s (set_task t (Restoring g (seal_failed g j e)) s)) as Hfail.
    { intros e. destruct (seal_failed_parts g j e) as (Ph & Pp & Pr & Pn).
      eapply effect_quiet; [exact Hs|exact Ht|done|simpl; by rewrite Ph|by left|done|]. intros [Hg Hj]. simpl. auto using seal_failed_after. }
    destruct (unfit g j) as [e|]; [intros [= <-]; apply Hfail|].
    destruct (seal_exact_removal a); intros [= <-]; [quietly|apply Hfail].
  - intros [= <-]. by apply effect_settled.
  - intros [= <-]. by apply effect_restore.
  - destruct (size_of (queued_removal_recovery s) <? MAX_TURN_RECOVERY_LATCHES)%Z; intros [= <-].
    + destruct Hs as (_ & _ & Hq).
      eapply (effect_intro t s _ _ _ [] [] [] None []); [done|exact Ht|apply m_none|..]; try done.
      * intros y. unfold latched, departed. csimpl. rewrite record_ids_app. frame.
      * csimpl. rewrite record_ids_app, length_app. lia.
      * by left.
      * by left.
      * by apply named_records_app.
    + destruct r as [g|]; [|quietly]. simpl in Hn. apply Forall_cons in Hn as [Hg _].
      eapply effect_quiet; [exact Hs|exact Ht|done|done|by left|done|done].
  - intros [= <-]. by apply effect_dequeue_recovery.
  - destruct todo as [|[g|] todo]; intros [= <-].
    + destruct Hs as (_ & _ & Hq). destruct Hn as [_ Hn].
      eapply (effect_intro t s _ _ _ [] [] [] None []); [done|exact Ht|apply m_none|..]; try done.
      * intros y. unfold latched, departed. csimpl. rewrite record_ids_app. frame.
      * csimpl. rewrite record_ids_app, length_app. lia.
      * by left.
      * by left.
      * by apply named_records_app.
    + destruct Hn as [[Hg Ht']%Forall_cons Hs']. quietly.
    + destruct Hn as [[_ Ht']%Forall_cons Hs']. quietly.
Qed.

Lemma effect_other t pc a s s' :
  named s → tasks s !! t = Some pc → other_step t pc a s = Some s' → effect t s s'.
Proof.
  intros Hs Ht. destruct pc; try done; simpl.
  - destruct (capacity s <=? occupancy s)%Z eqn:Hroom; intros [= <-]; [quietly|]. destruct Hs as (_ & _ & Hq).
    set (p := priority_of msg). destruct (set_queue_frame p (queue_of p s ++ [MailboxEntry.Legacy msg]) s) as (F1 & F2 & F3 & F4 & F5 & F6).
    unfold push_back. eapply (effect_intro t s _ _ _ [] [] [] (Some Acknowledged) []); [exact F1|exact Ht|..]; try done.
    + change (view (log_accepted t p msg (set_queue p (queue_of p s ++ [MailboxEntry.Legacy msg]) s)))
        with (v_accept t p msg (view (push_back p (MailboxEntry.Legacy msg) s))).
      rewrite view_push_back. apply m_accept. lia.
    + intros y. unfold latched, departed. simpl. rewrite F2, F3, F4. frame.
    + simpl. rewrite F2. lia.
    + left. by split.
    + by left.
    + simpl. by rewrite F2.
  - intros [= <-].
    quietly.
  - intros [= <-]. quietly.
  - intros [= <-]. quietly.
  - intros [= <-]. quietly.
Qed.

Lemma effect_step x s s' : named s → apart s → step x s = Some s' → ∃ t, effect t s s'.
Proof.
  intros Hs Hap. destruct x as [t c|t a]; simpl.
  - destruct (tasks s !! t) eqn:Ht; [done|]. intros [= <-]. exists t. by apply effect_begin.
  - intros (pc & Ht & Ha)%bind_Some. exists t.
    pose proof (effect_other t pc a s s' Hs Ht) as H1. pose proof (effect_recv t pc a s s' Hs Ht) as H2.
    pose proof (effect_prepare t pc a s s' Hs Ht) as H3. pose proof (effect_removal t pc a s s' Hs Hap Ht) as H4.
    destruct pc; simpl in Ha; solve [exact (H1 Ha) | exact (H2 Ha) | exact (H3 Ha) | exact (H4 Ha) | done].
Qed.

(** ** What moves keep *)

Lemma entry_ids_app l k : entry_ids (l ++ k) = entry_ids l ++ entry_ids k.
Proof. apply omap_app. Qed.

Definition v_inside (v : View) : list string := keys (v_staged v) ++ entry_ids (v_high v) ++ entry_ids (v_normal v).

Lemma occ_set_queue x p l v :
  occ x (v_inside (v_set p l v)) + occ x (entry_ids (v_queue p v)) = occ x (v_inside v) + occ x (entry_ids l).
Proof. destruct p; unfold v_inside; simpl; autorewrite with occ; lia. Qed.

Lemma occ_delete x (l : list MailboxEntry.t) i e : l !! i = Some e →
  occ x (entry_ids l) = occ x (entry_ids (delete i l)) + occ x (entry_ids [e]).
Proof.
  intros Hi. rewrite <- (take_drop_middle l i e Hi) at 1. rewrite delete_take_drop.
  change (e :: drop (S i) l) with ([e] ++ drop (S i) l). rewrite !entry_ids_app. autorewrite with occ. lia.
Qed.

Lemma legacy_delete (l : list MailboxEntry.t) i e : l !! i = Some e →
  legacy l = legacy (take i l) ++ legacy [e] ++ legacy (drop (S i) l) ∧ legacy (delete i l) = legacy (take i l) ++ legacy (drop (S i) l).
Proof.
  intros Hi. rewrite <- (take_drop_middle l i e Hi) at 1. rewrite delete_take_drop.
  change (e :: drop (S i) l) with ([e] ++ drop (S i) l). by rewrite !legacy_app.
Qed.

Lemma v_queue_staged p m v : v_queue p (v_set_staged m v) = v_queue p v.
Proof. by destruct p. Qed.

Section moves.
Context {t : nat} {room : Prop} {v v' : View} {inn out adm : list string} {got : option Deed}.
Context (Hm : move t room v v' inn out adm got).

(** An id that is admitted was not staged: no entry is overwritten. *)
Lemma move_inside :
  (∀ id, id ∈ adm → v_staged v !! id = None) →
  ∀ x, occ x (v_inside v') + occ x out = occ x (v_inside v) + occ x inn + occ x adm.
Proof.
  intros Hfresh x.
  destruct Hm as [|p msg _|p i msg Hi _|p i entry Hi|p i entry|entry _ id|id old entry Hold _|p old entry Hold|id old Hold|id entry Hid _];
    change (v_inside (v_accept ?t ?p ?m ?w)) with (v_inside w); change (v_inside (v_receive ?t ?p ?m ?w)) with (v_inside w).
  - frame.
  - pose proof (occ_set_queue x p (v_queue p v ++ [MailboxEntry.Legacy msg]) v) as Hq.
    rewrite entry_ids_app in Hq. change (entry_ids [MailboxEntry.Legacy msg]) with (@nil string) in Hq. autorewrite with occ in *. lia.
  - pose proof (occ_set_queue x p (delete i (v_queue p v)) v) as Hq. rewrite (occ_delete x _ _ _ Hi) in Hq.
    change (entry_ids [MailboxEntry.Legacy msg]) with (@nil string) in Hq. autorewrite with occ in *. lia.
  - pose proof (occ_set_queue x p (delete i (v_queue p v)) v) as Hq. rewrite (occ_delete x _ _ _ Hi) in Hq.
    change (entry_ids [MailboxEntry.Protected entry]) with [turn_id entry] in Hq. autorewrite with occ in *. lia.
  - pose proof (occ_set_queue x p (take i (v_queue p v) ++ MailboxEntry.Protected entry :: drop i (v_queue p v)) v) as Hq.
    pose proof (f_equal (λ l, occ x (entry_ids l)) (take_drop i (v_queue p v))) as Htd. simpl in Htd.
    rewrite entry_ids_app in Hq, Htd.
    change (entry_ids (MailboxEntry.Protected entry :: ?l)) with (turn_id entry :: entry_ids l) in Hq. autorewrite with occ in *. lia.
  - unfold v_inside. simpl. autorewrite with occ. rewrite keys_insert by (apply Hfresh, elem_of_cons; by left). lia.
  - unfold v_inside. simpl. autorewrite with occ. rewrite !occ_keys.
    destruct (decide (id = x)) as [<-|Hne]; [rewrite lookup_insert_eq, Hold|rewrite lookup_insert_ne by done; lia].
    by rewrite !decide_True by eauto.
  - pose proof (occ_set_queue x p (v_queue p v ++ [MailboxEntry.Protected entry]) (v_set_staged (delete (turn_id entry) (v_staged v)) v)) as Hq.
    rewrite v_queue_staged in Hq.
    rewrite entry_ids_app in Hq. change (entry_ids [MailboxEntry.Protected entry]) with [turn_id entry] in Hq.
    pose proof (keys_delete (v_staged v) (turn_id entry) old x Hold) as Hk.
    assert (occ x (v_inside (v_set_staged (delete (turn_id entry) (v_staged v)) v)) + (if decide (turn_id entry = x) then 1 else 0)
      = occ x (v_inside v)) by (unfold v_inside; simpl; autorewrite with occ; lia).
    autorewrite with occ in *. lia.
  - unfold v_inside. simpl. autorewrite with occ. pose proof (keys_delete (v_staged v) id old x Hold). lia.
  - unfold v_inside. simpl. autorewrite with occ. rewrite keys_insert by done. lia.
Qed.

Lemma move_admitted : v_admitted v' = adm ++ v_admitted v.
Proof. destruct Hm; try done; by destruct p. Qed.

Lemma move_named : map_Forall named_staged (v_staged v) → map_Forall named_staged (v_staged v').
Proof.
  intros Hn. assert (∀ p l w, v_staged (v_set p l w) = v_staged w) as Hset by (by intros []).
  destruct Hm as [|p msg _|p i msg Hi _|p i entry Hi|p i entry|entry _ id|id old entry Hold Hf|p old entry Hold|id old Hold|id entry Hid Hname];
    simpl; rewrite ?Hset; try done.
  - by apply map_Forall_insert_2.
  - apply map_Forall_insert_2; [|done]. unfold named_staged. rewrite Hf. exact (map_Forall_lookup_1 _ _ _ _ Hn Hold).
  - by apply map_Forall_delete.
  - by apply map_Forall_delete.
  - by apply map_Forall_insert_2.
Qed.

Lemma move_size : v_size v' + length out ≤ v_size v + length inn ∨ room ∧ v_size v' ≤ S (v_size v) ∧ inn = [] ∧ out = [].
Proof.
  assert (∀ p l w, v_size (v_set p l w) + length (v_queue p w) = v_size w + length l) as Hset.
  { intros [] l w; unfold v_size; simpl; lia. }
  destruct Hm as [|p msg Hr|p i msg Hi _|p i entry Hi|p i entry|entry Hr id|id old entry Hold Hf|p old entry Hold|id old Hold|id entry Hid Hname].
  - left. lia.
  - right. specialize (Hset p (v_queue p v ++ [MailboxEntry.Legacy msg]) v). rewrite length_app in Hset. simpl in Hset.
    split_and!; [done| |done|done]. change (v_size (v_accept ?t ?p ?m ?w)) with (v_size w). lia.
  - left. specialize (Hset p (delete i (v_queue p v)) v). rewrite length_delete in Hset by eauto.
    apply lookup_lt_Some in Hi. change (v_size (v_receive ?t ?p ?m ?w)) with (v_size w). simpl. lia.
  - left. specialize (Hset p (delete i (v_queue p v)) v). rewrite length_delete in Hset by eauto. apply lookup_lt_Some in Hi. simpl. lia.
  - left. specialize (Hset p (take i (v_queue p v) ++ MailboxEntry.Protected entry :: drop i (v_queue p v)) v).
    rewrite length_app in Hset. pose proof (f_equal length (take_drop i (v_queue p v))) as Htd. rewrite length_app in Htd.
    simpl in *. lia.
  - right. split_and!; [done| |done|done]. unfold v_size. simpl. rewrite map_size_insert. destruct (v_staged v !! id); simpl; lia.
  - left. unfold v_size. simpl. rewrite map_size_insert, Hold. simpl. lia.
  - left. specialize (Hset p (v_queue p v ++ [MailboxEntry.Protected entry]) (v_set_staged (delete (turn_id entry) (v_staged v)) v)).
    rewrite v_queue_staged in Hset. rewrite length_app in Hset. simpl in *.
    assert (v_size (v_set_staged (delete (turn_id entry) (v_staged v)) v) + 1 = v_size v); [|lia].
    unfold v_size. simpl. rewrite map_size_delete, Hold. simpl. pose proof (proj1 (map_size_ne_0_lookup (v_staged v))) as Hz.
    destruct (size (v_staged v)) eqn:Hsz; [|lia]. apply map_size_empty_inv in Hsz. rewrite Hsz in Hold. by rewrite lookup_empty in Hold.
  - left. unfold v_size. simpl. rewrite map_size_delete, Hold. simpl.
    destruct (size (v_staged v)) eqn:Hsz; [|lia]. apply map_size_empty_inv in Hsz. rewrite Hsz in Hold. by rewrite lookup_empty in Hold.
  - left. unfold v_size. simpl. rewrite map_size_insert, Hid. simpl. lia.
Qed.
End moves.
End facts.
