(* ===== verification/MailboxProps.v ===== *)
(** * What holds of a mailbox under any interleaving

    The invariant of [Mailbox], and the theorems on its messages, its turns and
    its capacity.  Each rests on [MailboxFacts.effect] alone. *)
From S2P Require Import Prelude RustStr AwaitData MailboxData Mailbox MailboxDemo MailboxFacts.
Open Scope string_scope.
Open Scope list_scope.
Open Scope nat_scope.

Section props.
Context `{Notify, EntryIds, !EntryIdsLaws}.
Implicit Types s : World.

(** ** The invariant *)

(** No id is in two places, and none is drawn twice. *)
Record Inv s : Prop := {
  inv_named : named s;
  inv_once x : occ x (inside s) + occ x (outside s) = occ x (admitted s);
  inv_fresh x : occ x (pending s) + occ x (admitted s) ≤ 1;
  inv_drawn x : x ∈ pending s ++ admitted s → ∃ n, n < drawn s ∧ x = entry_id n
}.

Lemma inv_apart s : Inv s → apart s.
Proof.
  intros Hs t id pc Ht Hid. assert (id ∈ held s) as Hh by (apply elem_gather; eauto).
  apply occ_elem in Hh. pose proof (inv_once s Hs id) as Ho. pose proof (inv_fresh s Hs id) as Hf.
  unfold inside, outside in Ho. autorewrite with occ in Ho. rewrite occ_keys in Ho.
  destruct (staged s !! id); [|done]. rewrite decide_True in Ho by eauto. lia.
Qed.

Lemma inv_effect t s s' : Inv s → effect t s s' → Inv s'.
Proof.
  intros Hs (inn & out & adm & got & new & Hm & Hocc & _ & Hpend & Hnew & Hadm & _ & (pc' & Htasks & Hnamed & _) & Hq).
  pose proof (move_admitted Hm) as Ha. simpl in Ha.
  assert (∀ id, id ∈ adm → staged s !! id = None ∧ occ id (admitted s) = 0 ∧ 1 ≤ occ id (pending s)) as Hfresh.
  { intros id Hid. destruct Hadm as [->|(id' & -> & Hp)]; [by apply not_elem_of_nil in Hid|].
    apply list_elem_of_singleton in Hid as ->. apply occ_elem in Hp. pose proof (inv_fresh s Hs id') as Hf.
    pose proof (inv_once s Hs id') as Ho. split_and!; [|lia|done].
    unfold inside in Ho. autorewrite with occ in Ho. rewrite occ_keys in Ho. destruct (staged s !! id'); [|done].
    rewrite decide_True in Ho by eauto. lia. }
  assert (∀ x, occ x adm ≤ occ x (pending s) ∧ (1 ≤ occ x adm → occ x (admitted s) = 0)) as Hadmx.
  { intros x. destruct Hadm as [->|(id' & -> & Hp)]; [simpl; rewrite occ_nil; split; lia|].
    rewrite occ_cons, occ_nil. destruct (Hfresh id') as (_ & Hz & Hge); [by apply list_elem_of_singleton|].
    case_decide; subst; split; lia. }
  assert (∀ x, 1 ≤ occ x new → occ x (pending s) = 0 ∧ occ x (admitted s) = 0) as Hnewx.
  { intros x Hx. destruct Hnew as [[-> _]|[-> _]]; [rewrite occ_nil in Hx; lia|].
    rewrite occ_cons, occ_nil in Hx. case_decide as He; [|lia]. subst x.
    assert (¬ entry_id (drawn s) ∈ pending s ++ admitted s) as Hn.
    { intros (n & Hlt & Hn)%(inv_drawn s Hs). pose proof (entry_id_inj _ _ Hn). lia. }
    rewrite occ_elem, occ_app in Hn. lia. }
  assert (∀ x, occ x new ≤ 1) as Hnew1.
  { intros x. destruct Hnew as [[-> _]|[-> _]]; rewrite ?occ_cons, occ_nil; [lia|]. case_decide; lia. }
  destruct (inv_named s Hs) as (N1 & N2 & N3). split.
  - split_and!; [exact (move_named Hm N1)| |exact Hq]. rewrite Htasks. by apply map_Forall_insert_2.
  - intros x. pose proof (move_inside Hm (λ id Hid, proj1 (Hfresh id Hid)) x) as Hi. specialize (Hocc x).
    pose proof (inv_once s Hs x) as Ho. rewrite Ha, occ_app.
    change (v_inside (view s')) with (inside s') in Hi. change (v_inside (view s)) with (inside s) in Hi. lia.
  - intros x. specialize (Hpend x). rewrite Ha, occ_app. pose proof (inv_fresh s Hs x). specialize (Hnewx x). specialize (Hnew1 x). lia.
  - intros x Hx. assert (drawn s ≤ drawn s') as Hle by (destruct Hnew as [[_ ->]|[_ ->]]; lia).
    apply occ_elem in Hx. rewrite occ_app, Ha, occ_app in Hx. specialize (Hpend x). specialize (Hadmx x).
    destruct (decide (1 ≤ occ x new)) as [Hn|Hn].
    + destruct Hnew as [[-> _]|[-> Hd]]; [rewrite occ_nil in Hn; lia|]. rewrite occ_cons, occ_nil in Hn.
      case_decide; [|lia]. subst x. exists (drawn s). split; [lia|done].
    + assert (x ∈ pending s ++ admitted s) as Hin by (apply occ_elem; rewrite occ_app; lia).
      destruct (inv_drawn s Hs x Hin) as (n & Hlt & ->). exists n. split; [lia|done].
Qed.

Lemma inv_start cap inc auth : Inv (mailbox_new cap inc auth).
Proof.
  split; try done.
  - split_and!; [by apply map_Forall_empty|by apply map_Forall_empty|by constructor].
  - intros x. simpl. rewrite occ_nil. change (pending (mailbox_new cap inc auth)) with (@nil string). rewrite occ_nil. lia.
  - intros x Hx. by apply not_elem_of_nil in Hx.
Qed.

Lemma inv_reachable P cap inc auth s : reachable P (mailbox_new cap inc auth) s → Inv s.
Proof.
  induction 1 as [|x s s' _ IH Hx _]; [apply inv_start|].
  destruct (effect_step x s s' (inv_named s IH) (inv_apart s IH) Hx) as (t & He). by eapply inv_effect.
Qed.

(** Rule induction over the effects of the steps. *)
Lemma mailbox_ind_effect P (Q : World → Prop) cap inc auth :
  Q (mailbox_new cap inc auth) →
  (∀ t s s', Inv s → P s → Q s → effect t s s' → Q s') →
  ∀ s, reachable P (mailbox_new cap inc auth) s → Q s.
Proof.
  intros Hstart Hstep s Hr. induction Hr as [|x s s' Hr IH Hx _]; [done|].
  pose proof (inv_reachable _ _ _ _ _ Hr) as Hs.
  destruct (effect_step x s s' (inv_named s Hs) (inv_apart s Hs) Hx) as (t & He).
  eapply Hstep; [exact Hs|exact (reachable_P _ _ _ Hr)|exact IH|exact He].
Qed.

(** ** Turns *)

(** Where the turns are: staged, in a queue, held by a call, latched, gone. *)
Definition places s : list string :=
  keys (staged s) ++ entry_ids (high_priority s) ++ entry_ids (queue s) ++ held s ++ latched s ++ departed s.

Lemma places_perm s : Inv s → places s ≡ₚ admitted s ∧ NoDup (admitted s).
Proof.
  intros Hs. split.
  - apply perm_occ. intros x. rewrite <- (inv_once s Hs x). unfold places, inside, outside. autorewrite with occ. lia.
  - apply nodup_occ. intros x. pose proof (inv_fresh s Hs x). lia.
Qed.

(** ** Messages *)

(** The messages of priority [p], in the order they were accepted or taken. *)
Definition on (p : QueuePriority.t) (l : list (nat * QueuePriority.t * Message.t)) : list Message.t :=
  omap (λ e, if decide (e.1.2 = p) then Some e.2 else None) l.

Definition did (d : Deed) (t : nat) s : Prop := tasks s !! t ≫= deed = Some d.

Definition v_fifo (v : View) : Prop := ∀ p, on p (v_accepted v) = on p (v_received v) ++ legacy (v_queue p v).

Lemma on_snoc p l t q msg : on p (l ++ [(t, q, msg)]) = on p l ++ (if decide (q = p) then [msg] else []).
Proof. unfold on. rewrite omap_app. simpl. by case_decide. Qed.

Lemma v_queue_set p q l v : v_queue q (v_set p l v) = if decide (p = q) then l else v_queue q v.
Proof. by destruct p, q. Qed.

Lemma v_logs_set p l v : v_accepted (v_set p l v) = v_accepted v ∧ v_received (v_set p l v) = v_received v.
Proof. by destruct p. Qed.

Lemma fifo_set p l v : v_fifo v → legacy l = legacy (v_queue p v) → v_fifo (v_set p l v).
Proof.
  intros Hv Hl q. destruct (v_logs_set p l v) as [-> ->]. rewrite v_queue_set, Hv. case_decide; [subst|done]. by rewrite Hl.
Qed.

Lemma move_fifo t room v v' inn out adm got : move t room v v' inn out adm got → v_fifo v → v_fifo v'.
Proof.
  intros Hm Hv. destruct Hm as [|p msg _|p i msg Hi Hl|p i entry Hi|p i entry|entry _ id|id old entry Hold Hf|p old entry Hold|id old Hold|id entry Hid Hname];
    try done.
  - intros q. change (v_queue q (v_accept t p msg ?w)) with (v_queue q w). rewrite v_queue_set.
    simpl. destruct (v_logs_set p (v_queue p v ++ [MailboxEntry.Legacy msg]) v) as [-> ->]. rewrite on_snoc, Hv.
    destruct (decide (p = q)) as [<-|]; [|by rewrite app_nil_r]. by rewrite legacy_app, app_assoc.
  - intros q. change (v_queue q (v_receive t p msg ?w)) with (v_queue q w). rewrite v_queue_set.
    simpl. destruct (v_logs_set p (delete i (v_queue p v)) v) as [-> ->]. rewrite on_snoc, Hv.
    destruct (decide (p = q)) as [<-|]; [|by rewrite app_nil_r].
    destruct (legacy_delete (v_queue p v) i _ Hi) as [-> ->]. rewrite Hl. simpl. by rewrite <- app_assoc.
  - apply fifo_set; [done|]. by destruct (legacy_delete (v_queue p v) i _ Hi) as [-> ->].
  - apply fifo_set; [done|]. rewrite legacy_app. change (legacy (MailboxEntry.Protected entry :: ?l)) with (legacy l).
    by rewrite <- legacy_app, take_drop.
  - apply fifo_set; [done|]. rewrite legacy_app, v_queue_staged. by rewrite app_nil_r.
Qed.

(** A log of deeds [d], kept by the steps that do one. *)
Definition logged (d : Message.t → Deed) (l : list (nat * QueuePriority.t * Message.t)) s : Prop :=
  NoDup l.*1.*1 ∧ (∀ t p msg, (t, p, msg) ∈ l → did (d msg) t s) ∧ (∀ t msg, did (d msg) t s → ∃ p msg', (t, p, msg') ∈ l ∧ d msg' = d msg).

Lemma move_logs t room v v' inn out adm got :
  move t room v v' inn out adm got →
  match got with
  | Some (Took msg) => v_accepted v' = v_accepted v ∧ ∃ p, v_received v' = v_received v ++ [(t, p, msg)]
  | Some Acknowledged => v_received v' = v_received v ∧ ∃ p msg, v_accepted v' = v_accepted v ++ [(t, p, msg)]
  | None => v_accepted v' = v_accepted v ∧ v_received v' = v_received v
  end.
Proof.
  intros []; try done; try (by destruct p); simpl.
  - split; [by destruct p|]. exists p, msg. by destruct p.
  - split; [by destruct p|]. exists p. by destruct p.
Qed.

(** One step of such a log: it grows by the call's deed, or not at all. *)
Lemma logged_step (d : Message.t → Deed) t s s' pc' got l l' :
  logged d l s → tasks s' = <[t := pc']> (tasks s) →
  deed pc' = (match got with Some x => Some x | None => tasks s !! t ≫= deed end) →
  (is_Some got → tasks s !! t ≫= deed = None) →
  (∃ p msg, got = Some (d msg) ∧ l' = l ++ [(t, p, msg)]) ∨ (l' = l ∧ ∀ msg, got ≠ Some (d msg)) →
  logged d l' s'.
Proof.
  intros (Hnd & Hin & Hby) Htasks Hdeed Hgot Hl.
  assert (∀ u x, did x u s' ↔ if decide (t = u) then deed pc' = Some x else did x u s) as Hdid.
  { intros u x. unfold did. rewrite Htasks. case_decide; [subst; by rewrite lookup_insert_eq|by rewrite lookup_insert_ne]. }
  destruct Hl as [(p & msg & -> & ->)|[-> Hno]].
  - specialize (Hgot (mk_is_Some _ _ eq_refl)).
    assert (∀ q m, (t, q, m) ∉ l) as Hnew by (intros q m Hm; apply Hin in Hm; unfold did in Hm; congruence).
    split_and!.
    + rewrite !fmap_app. simpl. apply NoDup_app. split_and!; [done| |apply NoDup_singleton].
      intros x Hx ->%list_elem_of_singleton. rewrite <- list_fmap_compose in Hx.
      apply list_elem_of_fmap in Hx as ([[u q] m] & Hu & Hx). simpl in Hu. subst u. by apply (Hnew q m).
    + intros u q m Hm. rewrite Hdid. apply elem_of_app in Hm as [Hm|Hm%list_elem_of_singleton].
      * case_decide; [subst u; by destruct (Hnew q m)|by eapply Hin].
      * injection Hm as -> -> ->. by rewrite decide_True by done.
    + intros u m. rewrite Hdid. case_decide as Hu; [subst u; rewrite Hdeed; intros [= Hd]|intros (q & m' & Hm & Hd)%Hby].
      * exists p, msg. split; [apply elem_of_app; right; by apply list_elem_of_singleton|done].
      * exists q, m'. split; [apply elem_of_app; by left|done].
  - split_and!; [done| |].
    + intros u q m Hm. rewrite Hdid. pose proof (Hin u q m Hm) as Hd. case_decide; [subst u|done].
      rewrite Hdeed. destruct got; [|exact Hd]. specialize (Hgot (mk_is_Some _ _ eq_refl)). unfold did in Hd. congruence.
    + intros u m. rewrite Hdid. case_decide; [subst u|apply Hby]. rewrite Hdeed. destruct got as [x|]; [|apply Hby].
      intros [= ->]. by destruct (Hno m).
Qed.

Definition logs s : Prop := logged (λ _, Acknowledged) (accepted s) s ∧ logged Took (received s) s.

Lemma logs_effect t s s' : logs s → effect t s s' → logs s'.
Proof.
  intros [Ha Hr] (inn & out & adm & got & new & Hm & _ & _ & _ & _ & _ & _ & (pc' & Htasks & _ & Hdeed & Hgot) & _).
  apply move_logs in Hm. simpl in Hm. split.
  - eapply logged_step; [exact Ha|exact Htasks|exact Hdeed|exact Hgot|]. destruct got as [[msg|]|].
    + right. destruct Hm as [Hm _]. split; [exact Hm|done].
    + left. destruct Hm as (_ & p & msg & Hm). by exists p, msg.
    + right. destruct Hm as [Hm _]. split; [exact Hm|done].
  - eapply logged_step; [exact Hr|exact Htasks|exact Hdeed|exact Hgot|]. destruct got as [[msg|]|].
    + left. destruct Hm as (_ & p & Hm). by exists p, msg.
    + right. destruct Hm as [Hm _]. split; [exact Hm|done].
    + right. destruct Hm as [_ Hm]. split; [exact Hm|done].
Qed.

(** ** Capacity *)

Lemma occupancy_view s : (occupancy s = Z.of_nat (v_size (view s)))%Z.
Proof. unfold occupancy, v_size, size_of. simpl. lia. Qed.

(** [occupancy] with the turns in flight. *)
Lemma load_effect t s s' : effect t s s' →
  (occupancy s' + Z.of_nat (in_flight s') ≤ Z.max (occupancy s + Z.of_nat (in_flight s)) (capacity s + Z.of_nat (in_flight s)))%Z
  ∧ capacity s' = capacity s.
Proof.
  intros (inn & out & adm & got & new & Hm & _ & Hfl & _ & _ & _ & Hcap & _). split; [|done].
  rewrite (occupancy_view s'). destruct (move_size Hm) as [Hsz|(Hroom & Hsz & -> & ->)].
  - rewrite (occupancy_view s). lia.
  - rewrite (occupancy_view s) in Hroom. simpl in Hfl. lia.
Qed.

(** ** The theorems *)

(** C10: messages are delivered once and in order.  Of each priority, the messages
    accepted so far are those received so far, in the same order, followed by
    those still queued; a delivery that was acknowledged is one that was
    accepted, once, and a receiver has one message, the one it took. *)
Theorem messages_once_in_order cap inc auth s :
  reachable (λ _, True) (mailbox_new cap inc auth) s →
  (∀ p, on p (accepted s) = on p (received s) ++ legacy (queue_of p s))
  ∧ NoDup (accepted s).*1.*1 ∧ NoDup (received s).*1.*1
  ∧ (∀ t, did Acknowledged t s ↔ ∃ p msg, (t, p, msg) ∈ accepted s)
  ∧ (∀ t msg, did (Took msg) t s ↔ ∃ p, (t, p, msg) ∈ received s).
Proof.
  intros Hr. assert (v_fifo (view s)) as Hf.
  { revert s Hr. apply mailbox_ind_effect; [by intros []|]. intros t s s' _ _ Hf (? & ? & ? & ? & ? & Hm & _). by eapply move_fifo. }
  assert (logs s) as [(Ha1 & Ha2 & Ha3) (Hr1 & Hr2 & Hr3)].
  { clear Hf. revert s Hr. apply mailbox_ind_effect.
    - split; (split_and!; [by apply NoDup_nil|intros ? ? ? Hin; by apply not_elem_of_nil in Hin|intros ? ? Hd; unfold did in Hd; simpl in Hd; by rewrite lookup_empty in Hd]).
    - intros t s s' _ _ Hl He. by eapply logs_effect. }
  split_and!; [|done|done| |].
  - intros p. rewrite queue_of_view. apply Hf.
  - intros t. split; [|by intros (p & msg & Hin); eapply (Ha2 t p msg)].
    intros Hd. destruct (Ha3 t (Message.mk "" MessageKind.User "" "" [] None 0 None) Hd) as (p & msg & Hin & _). eauto.
  - intros t msg. split; [|by intros (p & Hin); eapply Hr2].
    intros (p & m & Hin & [= ->])%Hr3. eauto.
Qed.

(** C9: a protected turn is never lost and never doubled: under any interleaving of
    producers, receivers, removals and recoveries, and whatever the turn
    authority answers, each turn that was staged is in exactly one place: staged,
    in a queue, held by one call, latched for recovery, or gone; and the
    assertion on restoring a staged entry never fails. *)
Theorem turns_in_one_place cap inc auth s :
  reachable (λ _, True) (mailbox_new cap inc auth) s →
  places s ≡ₚ admitted s ∧ NoDup (admitted s) ∧ ∀ t, tasks s !! t ≠ Some (Fin (Panicked RestoredOnce)).
Proof.
  intros Hs%inv_reachable. destruct (places_perm s Hs) as [Hp Hnd]. split_and!; [done|done|].
  intros t Ht. exact (map_Forall_lookup_1 _ _ _ _ (proj1 (proj2 (inv_named s Hs))) Ht).
Qed.

(** C13: a mailbox exceeds its capacity by no more than the turns that are out of it
    at once.  With none out it never exceeds it, whatever the interleaving. *)
Theorem occupancy_within_capacity k cap inc auth s :
  (0 ≤ cap)%Z → reachable (λ s, in_flight s ≤ k) (mailbox_new cap inc auth) s →
  (occupancy s + Z.of_nat (in_flight s) ≤ cap + Z.of_nat k)%Z.
Proof.
  intros Hcap Hr. assert (capacity s = cap ∧ (occupancy s + Z.of_nat (in_flight s) ≤ cap + Z.of_nat k)%Z) as [_ Hs]; [|exact Hs].
  revert s Hr. apply mailbox_ind_effect; [split; [done|]; change (0 + 0 ≤ cap + Z.of_nat k)%Z; lia|].
  intros t s s' _ Hk [Hc Hs] (Hle & Hc')%load_effect. simpl in Hk. split; [congruence|lia].
Qed.
End props.

(** ** Witnesses *)

Lemma messages_once_in_order_witness : ∃ s,
  run_schedule demo_received (demo_mailbox 2) = Some s
  ∧ received s = [(0, QueuePriority.High, demo_message "m2" MessageKind.User); (3, QueuePriority.Normal, demo_message "m1" MessageKind.Agent)]
  ∧ (∀ p, on p (accepted s) = on p (received s) ++ legacy (queue_of p s)).
Proof.
  assert (received <$> run_schedule demo_received (demo_mailbox 2) = Some
    [(0, QueuePriority.High, demo_message "m2" MessageKind.User); (3, QueuePriority.Normal, demo_message "m1" MessageKind.Agent)]) as Hrec
    by (vm_compute; reflexivity).
  destruct (run_schedule demo_received (demo_mailbox 2)) as [s|] eqn:Hrun; [|discriminate Hrec]. exists s.
  split; [reflexivity|]. split; [by injection Hrec|].
  apply (messages_once_in_order 2 "incarnation" true s). exact (mailbox_schedule_reachable _ _ _ _ (reach_start (λ _, True) _ I) Hrun).
Defined.

Lemma turns_in_one_place_witness : ∃ s,
  run_schedule demo_turn (demo_mailbox 1) = Some s ∧ held s = ["0"] ∧ places s ≡ₚ admitted s.
Proof.
  assert (held <$> run_schedule demo_turn (demo_mailbox 1) = Some ["0"]) as Hheld by (vm_compute; reflexivity).
  destruct (run_schedule demo_turn (demo_mailbox 1)) as [s|] eqn:Hrun; [|discriminate Hheld]. exists s.
  split; [reflexivity|]. split; [by injection Hheld|].
  apply (turns_in_one_place 1 "incarnation" true s). exact (mailbox_schedule_reachable _ _ _ _ (reach_start (λ _, True) _ I) Hrun).
Defined.

(** The bound is reached. *)
Lemma occupancy_within_capacity_witness : ∃ s,
  run_where (λ s, in_flight s <=? 1) demo_overfull (demo_mailbox 1) = Some s
  ∧ occupancy s = 2%Z ∧ (occupancy s + Z.of_nat (in_flight s) ≤ 1 + Z.of_nat 1)%Z.
Proof.
  assert (occupancy <$> run_where (λ s, in_flight s <=? 1) demo_overfull (demo_mailbox 1) = Some 2%Z) as Hocc by (vm_compute; reflexivity).
  destruct (run_where (λ s, in_flight s <=? 1) demo_overfull (demo_mailbox 1)) as [s|] eqn:Hrun; [|discriminate Hocc]. exists s.
  split; [reflexivity|]. split; [by injection Hocc|].
  apply (occupancy_within_capacity 1 1 "incarnation" true s); [lia|].
  refine (run_where_reachable (λ s, in_flight s ≤ 1) (λ s, in_flight s <=? 1) _ _ _ _ _ (reach_start _ _ _) Hrun).
  - intros s0. apply Nat.leb_le.
  - change (0 ≤ 1). lia.
Defined.
