(* ===== verification/MailboxLive.v ===== *)
(** * No message waits for a receiver that sleeps

    With one receiver per mailbox, as the code assumes, a parked receiver of a
    mailbox that is not frozen and holds something for it has been woken, or a
    call is about to wake it; run alone it then returns the first entry. *)
From S2P Require Import Prelude RustStr AwaitData MailboxData Mailbox MailboxDemo MailboxFacts MailboxProps.
Open Scope string_scope.
Open Scope list_scope.
Open Scope nat_scope.

(** In the middle of [recv] or [recv_turn], and with an enabled future. *)
Definition receiving (pc : Pc) : Prop :=
  match pc with
  | RecvEnable _ | RecvFrozen _ | RecvHigh _ | RecvNormal _ | RecvAwait _
  | Completing true _ _ _ | PuttingBack true _ _ _ _ => True
  | _ => False
  end.

Definition has_future (pc : Pc) : Prop := match pc with RecvEnable _ => False | _ => receiving pc end.

Definition notifying (pc : Pc) : Prop := match pc with Notifying _ => True | _ => False end.

Section live.
Context `{Notify, EntryIds} (live : notify → gset nat) `{!NotifyLaws live, !EntryIdsLaws}.
Implicit Types s : World.

(** ** The discipline *)

(** One receiver at a time. *)
Definition one_receiver s : Prop :=
  ∀ t u pc qc, tasks s !! t = Some pc → tasks s !! u = Some qc → receiving pc → receiving qc → t = u.

(** A batch is released after its entries are published. *)
Definition publish_first s : Prop :=
  ∀ t id barrier digest, tasks s !! t = Some (Publishing id barrier digest) → barrier ∉ released s.

Definition disciplined s : Prop := one_receiver s ∧ publish_first s.

(** ** Steps that bring nothing new *)

(** Whether a receiver of kind [k] may take [e]. *)
Definition takes (k : Reader) s (e : MailboxEntry.t) : Prop :=
  Is_true (match k with
           | LegacyReader => is_legacy e
           | TurnReader => is_dequeue_visible (λ b, bool_decide (b ∈ released s)) e
           end).

Definition available (k : Reader) (p : QueuePriority.t) s : Prop := ∃ e, e ∈ queue_of p s ∧ takes k s e.

Lemma first_entry_None k p s : first_entry k p s = None ↔ ¬ available k p s.
Proof.
  unfold first_entry, available. rewrite list_find_None, Forall_forall. split.
  - intros Ha (e & He & Ht). by apply (Ha e He).
  - intros Ha e He Ht. by apply Ha; exists e.
Qed.

Definition calm s s' : Prop :=
  notifier s' = notifier s ∧ (∀ k p, available k p s' → available k p s) ∧ (frozen s' = false → frozen s = false).

Lemma calm_refl s s' :
  notifier s' = notifier s → high_priority s' = high_priority s → queue s' = queue s → released s' = released s →
  frozen s' = frozen s → calm s s'.
Proof.
  intros Hn Hh Hq Hr Hf. split_and!; [done| |by rewrite Hf].
  intros k p (e & He & Ht). exists e. unfold takes in *. rewrite Hr in Ht. split; [|done]. destruct p; simpl in *; congruence.
Qed.

Lemma calm_remove p i s : calm s (remove_at p i s).
Proof.
  split_and!; [by destruct p| |by destruct p]. intros k q (e & He & Ht). exists e.
  unfold takes in *. split; [|by destruct p]. destruct (decide (p = q)) as [<-|Hne]; [|by destruct p, q].
  assert (queue_of p (remove_at p i s) = delete i (queue_of p s)) as Hd by (by destruct p). rewrite Hd in He.
  rewrite delete_take_drop in He. apply elem_of_app in He as [(j & Hj)%list_elem_of_lookup|(j & Hj)%list_elem_of_lookup].
  - apply lookup_take_Some in Hj as [Hj _]. by eapply list_elem_of_lookup_2.
  - rewrite lookup_drop in Hj. by eapply list_elem_of_lookup_2.
Qed.

(** A protected entry behind a barrier is not to be taken. *)
Lemma calm_publish p entry s :
  ProtectedTurnEntry.dispatch_barrier entry ∉ released s → calm s (push_back p (MailboxEntry.Protected entry) s).
Proof.
  intros Hb. split_and!; [by destruct p| |by destruct p]. intros k q (e & He & Ht). exists e.
  assert (released (push_back p (MailboxEntry.Protected entry) s) = released s) as Hr by (by destruct p).
  unfold takes in *. rewrite Hr in Ht. split; [|done]. destruct (decide (p = q)) as [<-|Hne]; [|by destruct p, q].
  assert (queue_of p (push_back p (MailboxEntry.Protected entry) s) = queue_of p s ++ [MailboxEntry.Protected entry]) as Hd by (by destruct p).
  rewrite Hd in He. apply elem_of_app in He as [He|He%list_elem_of_singleton]; [done|]. subst e. destruct k; simpl in Ht; [done|].
  by rewrite bool_decide_eq_false_2 in Ht.
Qed.

Lemma calm_trans s s1 s2 : calm s s1 → calm s1 s2 → calm s s2.
Proof. intros (N1 & A1 & F1) (N2 & A2 & F2). split_and!; [congruence|auto|auto]. Qed.

(** A step of a call that is not a receiver wakes, is about to wake, or brings
    nothing new. *)
Inductive outcome (pc pc' : Pc) s s' : Prop :=
| wakes : notifier s' = notify_one (notifier s) → outcome pc pc' s s'
| will_wake : notifier s' = notifier s → ¬ notifying pc → notifying pc' → outcome pc pc' s s'
| nothing_new : ¬ notifying pc → calm s s' → outcome pc pc' s s'.

Definition bystander t s s' : Prop :=
  ∃ pc', tasks s' = <[t := pc']> (tasks s) ∧ ¬ has_future pc' ∧ ∀ pc, tasks s !! t = Some pc → outcome pc pc' s s'.

Lemma bystander_calm t s s1 pc pc' :
  tasks s !! t = Some pc → ¬ notifying pc → tasks s1 = tasks s → calm s s1 → ¬ has_future pc' → bystander t s (set_task t pc' s1).
Proof.
  intros Ht Hn Htasks Hc Hf. exists pc'. simpl. rewrite Htasks. split_and!; [done|done|]. intros qc Hqc.
  apply nothing_new; [congruence|]. eapply calm_trans; [exact Hc|]. by apply calm_refl.
Qed.

Ltac calmly := eapply bystander_calm; [eassumption|by intros []|done|by apply calm_refl|by intros []].

Lemma bystander_prepare t pc a s s' :
  publish_first s → tasks s !! t = Some pc → prepare_step t pc a s = Some s' → bystander t s s'.
Proof.
  intros Hp Ht. destruct pc; try done; simpl.
  - destruct (reserve_queued a); intros [= <-]; calmly.
  - destruct (stage_reserved msg spec facts s) as [s1|e] eqn:Hst; intros [= <-]; [|calmly].
    unfold stage_reserved in Hst.
    apply bind_Ok in Hst as (u & _ & Hst). apply bind_Ok in Hst as (u' & _ & Hst). apply bind_Ok in Hst as (u'' & _ & Hst).
    apply bind_Ok in Hst as (v & _ & Hst). injection Hst as <-. calmly.
  - destruct (seal_staged_admission a) as [[c [r|e]]|e]; intros [= <-]; calmly.
  - destruct (attach_admission (MailboxEntryFacts.staged_entry_id facts) admission s) as [s1|e] eqn:Hat; intros [= <-]; [|calmly].
    unfold attach_admission in Hat. apply bind_Ok in Hat as (old & _ & Hat). apply bind_Ok in Hat as (u & _ & Hat). injection Hat as <-. calmly.
  - destruct (confirm_mailbox_admission a); intros [= <-]; calmly.
  - assert (∀ r, ¬ has_future (never_done true facts k r)) as Hd by (intros []; destruct k; by intros []).
    destruct (staged s !! MailboxEntryFacts.staged_entry_id facts); intros [= <-]; [calmly|].
    eapply bystander_calm; [exact Ht|by intros []|done|by apply calm_refl|apply Hd].
  - assert (∀ r, ¬ has_future (never_done false facts k r)) as Hd by (intros []; destruct k; by intros []).
    intros [= <-]. eapply bystander_calm; [exact Ht|by intros []|done|by apply calm_refl|apply Hd].
  - destruct (size_of (never_admitted_recovery s) <? MAX_TURN_RECOVERY_LATCHES)%Z; intros [= <-]; calmly.
  - destruct (publish_staged staged_entry_id barrier digest a s) as [s1|e] eqn:Hpub; intros [= <-]; [|calmly].
    unfold publish_staged in Hpub. apply bind_Ok in Hpub as (u & _ & Hpub). apply bind_Ok in Hpub as (old & _ & Hpub).
    apply bind_Ok in Hpub as (adm & _ & Hpub). apply bind_Ok in Hpub as (pub & _ & Hpub). injection Hpub as <-.
    eapply bystander_calm; [exact Ht|by intros []| | |by intros []]; [by destruct (priority_of _)|].
    eapply calm_trans; [|apply calm_publish; simpl; exact (Hp _ _ _ _ Ht)]. by apply calm_refl.
  - intros [= <-]. destruct (staged s !! staged_entry_id); calmly.
  - destruct todo as [|[[] facts] todo]; intros [= <-]; calmly.
Qed.

Lemma after_guard_future pc : after_guard pc → ¬ has_future pc.
Proof. destruct pc; try done; by intros _ []. Qed.

Lemma bystander_guard t pc p i e j s s' :
  tasks s !! t = Some pc → ¬ notifying pc → guard_entry t p i e j s = Some s' → bystander t s s'.
Proof.
  intros Ht Hn. destruct e as [msg|entry]; [done|]. intros [= <-].
  eapply bystander_calm; [exact Ht|exact Hn|by destruct p|apply calm_remove|by intros []].
Qed.

Lemma bystander_removal t pc a s s' :
  named s → tasks s !! t = Some pc → removal_step t pc a s = Some s' → bystander t s s'.
Proof.
  intros Hs Ht. destruct pc; try done; simpl.
  - destruct (staged s !! staged_entry_id); intros [= <-]; calmly.
  - destruct (list_find _ (queue_of p s)) as [[i e]|]; [eapply bystander_guard; [exact Ht|by intros []]|].
    destruct p; intros [= <-]; calmly.
  - destruct (find_protected search_from (queue_of p s)) as [[i e]|]; [eapply bystander_guard; [exact Ht|by intros []]|].
    destruct p; intros [= <-]; [calmly|].
    eapply bystander_calm; [exact Ht|by intros []|done|by apply calm_refl|by destruct k; intros []].
  - destruct (unfit g j); [intros [= <-]; calmly|]. destruct (seal_exact_removal a); intros [= <-]; calmly.
  - intros [= <-]. unfold settled. destruct j as [facts []| |[|todo still]], (settle_removal a); calmly.
  - intros [= <-]. destruct (map_Forall_lookup_1 _ _ _ _ (proj1 (proj2 Hs)) Ht) as (_ & Ha & _). apply after_guard_future in Ha.
    destruct g as [id entry|p i entry]; simpl.
    + destruct (staged s !! id); [calmly|]. eapply bystander_calm; [exact Ht|by intros []|done|by apply calm_refl|exact Ha].
    + eexists. split_and!; [by destruct p|exact Ha|]. intros pc0 _. apply wakes. by destruct p.
  - destruct (size_of (queued_removal_recovery s) <? MAX_TURN_RECOVERY_LATCHES)%Z; intros [= <-]; [calmly|]. destruct r; calmly.
  - intros [= <-]. destruct (recover_dequeue_frame a s) as (E1 & E2 & _ & _ & _ & E6 & E7 & E8 & _). injection E2 as _ Eh Eq _ _ _.
    eapply bystander_calm; [exact Ht|by intros []|exact E1|by apply calm_refl|by intros []].
  - destruct todo as [|[g|] todo]; intros [= <-]; calmly.
Qed.

Lemma leave_false t f s : leave t false f s = set_task t (Fin f) s.
Proof. done. Qed.

Lemma bystander_take t k p i e s pc :
  tasks s !! t = Some pc → ¬ notifying pc → bystander t s (take_entry t k false p i e s).
Proof.
  intros Ht Hn. unfold take_entry. destruct e as [msg|entry].
  - assert (∀ pc', ¬ has_future pc' → bystander t s (set_task t pc' (log_received t p msg (remove_at p i s)))) as Hgo.
    { intros pc' Hf. eapply bystander_calm; [exact Ht|exact Hn|by destruct p| |exact Hf].
      eapply calm_trans; [apply calm_remove|]. by apply calm_refl. }
    destruct k; rewrite ?leave_false; apply Hgo; by intros [].
  - eapply bystander_calm; [exact Ht|exact Hn|by destruct p|apply calm_remove|by intros []].
Qed.

Lemma bystander_recv t pc a s s' :
  ¬ receiving pc → tasks s !! t = Some pc → recv_step t pc a s = Some s' → bystander t s s'.
Proof.
  intros Hr Ht. destruct pc; try done; simpl in Hr; try (by destruct Hr); simpl.
  - intros [= <-]. destruct (frozen s); calmly.
  - destruct (if contended a then None else first_entry k QueuePriority.High s) as [[i e]|]; intros [= <-]; [|calmly].
    by eapply bystander_take; [exact Ht|intros []].
  - destruct (if contended a then None else first_entry k QueuePriority.Normal s) as [[i e]|]; intros [= <-]; [|calmly].
    by eapply bystander_take; [exact Ht|intros []].
  - destruct recv; [done|]. destruct entry as [msg|entry]; intros [= <-]; [calmly|].
    unfold complete_protected. repeat case_match; calmly.
  - destruct recv; [done|]. intros [= <-]. rewrite leave_false. eexists. split_and!; [by destruct p|by intros []|].
    intros pc0 _. apply wakes. by destruct p.
Qed.

Lemma bystander_other t pc a s s' :
  tasks s !! t = Some pc → other_step t pc a s = Some s' → bystander t s s'.
Proof.
  intros Ht. destruct pc; try done; simpl.
  - destruct (capacity s <=? occupancy s)%Z; intros [= <-]; [calmly|]. eexists. split_and!; [by destruct (priority_of msg)|by intros []|].
    intros pc Hpc. rewrite Ht in Hpc. injection Hpc as <-. apply will_wake; [by destruct (priority_of msg)|by intros []|done].
  - intros [= <-]. eexists. split_and!; [done|by intros []|]. intros pc _. by apply wakes.
  - intros [= <-]. eapply bystander_calm; [exact Ht|by intros []|done| |by intros []]. split_and!; [done| |done].
    intros k p (e & He & Htk). exists e. by destruct p.
  - intros [= <-]. eexists. split_and!; [done|by intros []|]. intros pc Hpc. rewrite Ht in Hpc. injection Hpc as <-.
    apply will_wake; [done|by intros []|done].
  - intros [= <-]. eexists. split_and!; [done|by intros []|]. intros pc Hpc. rewrite Ht in Hpc. injection Hpc as <-.
    apply will_wake; [done|by intros []|done].
Qed.

(** A call that begins has no future and brings nothing. *)
Lemma begin_calm t c s : ∃ pc', tasks (begin t c s) = <[t := pc']> (tasks s) ∧ ¬ has_future pc' ∧ calm s (begin t c s).
Proof.
  destruct c; simpl; repeat case_match; (eexists; split_and!; [reflexivity|by intros []|by apply calm_refl]).
Qed.

(** ** The invariant *)

Definition awake t s : Prop := ready t (notifier s) = true ∨ ∃ u pc, tasks s !! u = Some pc ∧ notifying pc.

(** A receiver that has looked and found nothing where there is something now. *)
Definition sleepy (pc : Pc) s : Prop :=
  match pc with
  | RecvNormal k => available k QueuePriority.High s
  | RecvAwait k => frozen s = false ∧ (available k QueuePriority.High s ∨ available k QueuePriority.Normal s)
  | _ => False
  end.

Record Awake s : Prop := {
  aw_live t : t ∈ live (notifier s) ↔ ∃ pc, tasks s !! t = Some pc ∧ has_future pc;
  aw_seen t pc : tasks s !! t = Some pc → sleepy pc s → awake t s
}.

Lemma has_future_receiving pc : has_future pc → receiving pc.
Proof. by destruct pc. Qed.

Lemma sleepy_future pc s : sleepy pc s → has_future pc.
Proof. by destruct pc. Qed.

(** The only receiver is the only future. *)
Lemma live_alone s t pc : one_receiver s → Awake s → tasks s !! t = Some pc → has_future pc → live (notifier s) = {[t]}.
Proof.
  intros Hone Haw Ht Hf. apply set_eq. intros u. rewrite (aw_live s Haw), elem_of_singleton. split.
  - intros (qc & Hu & Hq). symmetry. apply (Hone t u pc qc); auto using has_future_receiving.
  - intros ->. eauto.
Qed.

Lemma sleepy_calm pc s s' : calm s s' → sleepy pc s' → sleepy pc s.
Proof. intros (_ & Ha & Hf). destruct pc; try done; simpl; [apply Ha|]. intros [? [?|?]]; split; auto. Qed.

Lemma awake_bystander t s s' pc :
  one_receiver s → Awake s → tasks s !! t = Some pc → ¬ receiving pc → bystander t s s' → Awake s'.
Proof.
  intros Hone Haw Ht Hr (pc' & Htasks & Hf & Hout). specialize (Hout pc Ht).
  assert (∀ u qc, u ≠ t → tasks s' !! u = Some qc ↔ tasks s !! u = Some qc) as Hother.
  { intros u qc Hne. by rewrite Htasks, lookup_insert_ne. }
  assert (tasks s' !! t = Some pc') as Hself by (by rewrite Htasks, lookup_insert_eq).
  assert (live (notifier s') = live (notifier s)) as Hlive.
  { destruct Hout as [-> | -> _ _ | _ (-> & _)]; [apply live_notify_one|done|done]. }
  split.
  - intros u. rewrite Hlive, (aw_live s Haw). destruct (decide (u = t)) as [->|Hne].
    + split; intros (qc & Hq & Hfq); exfalso; [|apply Hf; congruence]. apply Hr, has_future_receiving. congruence.
    + setoid_rewrite Hother; done.
  - intros u qc Hu Hs. destruct (decide (u = t)) as [->|Hne]; [exfalso; apply Hf; apply (sleepy_future _ s'); congruence|].
    apply Hother in Hu; [|done]. destruct Hout as [Hw|Hn Hold Hnew|Hold Hcalm].
    + left. rewrite Hw. apply notify_one_ready. eapply live_alone; [done|done|exact Hu|by eapply sleepy_future].
    + right. eauto.
    + apply (sleepy_calm _ _ _ Hcalm) in Hs. destruct (aw_seen s Haw u qc Hu Hs) as [Hrdy|(v & vc & Hv & Hnv)].
      * left. destruct Hcalm as (-> & _). exact Hrdy.
      * right. exists v, vc. split; [|done]. apply Hother; [|done]. intros ->. apply Hold. congruence.
Qed.

(** The receiver's own steps. *)
Definition own t s s' : Prop :=
  ∃ pc', tasks s' = <[t := pc']> (tasks s)
    ∧ (∀ u, u ≠ t → u ∈ live (notifier s') ↔ u ∈ live (notifier s))
    ∧ (t ∈ live (notifier s') ↔ has_future pc')
    ∧ (sleepy pc' s' → awake t s').

Lemma awake_own t s s' pc :
  one_receiver s → Awake s → tasks s !! t = Some pc → receiving pc → own t s s' → Awake s'.
Proof.
  intros Hone Haw Ht Hr (pc' & Htasks & Hlive & Hself & Hseen). split.
  - intros u. destruct (decide (u = t)) as [->|Hne].
    + rewrite Hself, Htasks, lookup_insert_eq. split; [eauto|]. by intros (? & [= <-] & ?).
    + rewrite (Hlive u Hne), (aw_live s Haw), Htasks. by rewrite lookup_insert_ne.
  - intros u qc Hu Hs. rewrite Htasks in Hu. destruct (decide (u = t)) as [->|Hne].
    + rewrite lookup_insert_eq in Hu. injection Hu as <-. by apply Hseen.
    + rewrite lookup_insert_ne in Hu by done. exfalso. apply Hne.
      apply (Hone u t qc pc Hu Ht); [|done]. by eapply has_future_receiving, sleepy_future.
Qed.

(** It goes on with its future, or drops it. *)
Lemma own_keeps t s s1 pc' :
  tasks s1 = tasks s → notifier s1 = notifier s → t ∈ live (notifier s) → has_future pc' →
  (sleepy pc' (set_task t pc' s1) → awake t (set_task t pc' s1)) → own t s (set_task t pc' s1).
Proof. intros Ht Hn Hl Hf Hs. exists pc'. simpl. rewrite Ht, Hn. split_and!; [done|done|by split|done]. Qed.

Lemma own_drops t s s1 pc' n :
  tasks s1 = tasks s → live n = live (notifier s) → ¬ has_future pc' →
  own t s (set_task t pc' (set_notifier (drop_notified t n) s1)).
Proof.
  intros Ht Hn Hf. exists pc'. simpl. rewrite Ht. split_and!; [done| | |].
  - intros u Hne. rewrite live_drop, Hn. set_solver.
  - rewrite live_drop. split; [set_solver|done].
  - intros Hs. by apply sleepy_future in Hs.
Qed.

Lemma own_take t k p i e s : t ∈ live (notifier s) → own t s (take_entry t k true p i e s).
Proof.
  intros Hl. unfold take_entry, leave. destruct e as [msg|entry], k; simpl;
    first [apply own_keeps; by destruct p | apply own_drops; [by destruct p|by destruct p|by intros []]].
Qed.

Lemma own_recv t pc a s s' :
  Awake s → receiving pc → tasks s !! t = Some pc → recv_step t pc a s = Some s' → own t s s'.
Proof.
  intros Haw Hr Ht. assert (has_future pc → t ∈ live (notifier s)) as Hl by (intros Hf; apply (aw_live s Haw); eauto).
  destruct pc; try done; simpl in Hr, Hl; simpl.
  - intros [= <-]. exists (RecvFrozen k). simpl. split_and!; [done| | |done].
    + intros u Hne. rewrite live_enable. set_solver.
    + rewrite live_enable. set_solver.
  - intros [= <-]. destruct (frozen s) eqn:Hf; (apply own_keeps; [done|done|by apply Hl|done|]); simpl; [|done].
    rewrite Hf. by intros [? _].
  - destruct (first_entry k QueuePriority.High s) as [[i e]|] eqn:He; intros [= <-]; [by apply own_take, Hl|].
    apply own_keeps; [done|done|by apply Hl|done|]. intros Hs. by apply first_entry_None in He.
  - destruct (first_entry k QueuePriority.Normal s) as [[i e]|] eqn:He; intros [= <-]; [by apply own_take, Hl|].
    apply own_keeps; [done|done|by apply Hl|done|]. intros [_ [Hh|Hn]]; [|by apply first_entry_None in He].
    destruct (aw_seen s Haw t _ Ht Hh) as [Hrdy|(u & uc & Hu & Hn)]; [by left|]. right. exists u, uc. split; [|done]. simpl.
    rewrite lookup_insert_ne; [done|]. intros ->. rewrite Ht in Hu. by injection Hu as <-.
  - destruct (ready t (notifier s)); [|done]. intros [= <-]. by apply own_drops; [..|intros []].
  - destruct recv; [|done]. destruct entry as [msg|entry]; intros [= <-]; [by apply own_drops; [..|intros []]|].
    unfold complete_protected, leave. repeat case_match; first [apply own_keeps; by auto | by apply own_drops; [..|intros []]].
  - destruct recv; [|done]. intros [= <-]. unfold leave. apply own_drops; [by destruct p| |by intros []].
    rewrite <- (live_notify_one (notifier s)). by destruct p.
Qed.

Lemma awake_step x s s' : named s → disciplined s → Awake s → step x s = Some s' → Awake s'.
Proof.
  intros Hs [Hone Hpub] Haw. destruct x as [t c|t a]; simpl.
  - destruct (tasks s !! t) eqn:Ht; [done|]. intros [= <-]. destruct (begin_calm t c s) as (pc' & Htasks & Hf & Hcalm).
    pose proof Hcalm as (Hn & _). set (s' := begin t c s) in *. split.
    + intros u. rewrite Hn, (aw_live s Haw), Htasks. destruct (decide (u = t)) as [->|Hne].
      * rewrite lookup_insert_eq, Ht. by split; [intros (? & ? & _)|intros (? & [= <-] & ?)].
      * by rewrite lookup_insert_ne.
    + intros u qc Hu Hq. rewrite Htasks in Hu. destruct (decide (u = t)) as [->|Hne].
      * rewrite lookup_insert_eq in Hu. injection Hu as <-. by apply sleepy_future in Hq.
      * rewrite lookup_insert_ne in Hu by done. apply (sleepy_calm _ _ _ Hcalm) in Hq.
        destruct (aw_seen s Haw u qc Hu Hq) as [Hr|(v & vc & Hv & Hnv)]; [left; by rewrite Hn|].
        right. exists v, vc. split; [|done]. rewrite Htasks, lookup_insert_ne; [done|]. intros ->. congruence.
  - intros (pc & Ht & Ha)%bind_Some. unfold advance in Ha.
    assert (recv_step t pc a s = Some s' → Awake s') as Hrecv.
    { intros Hrs. assert (receiving pc ∨ ¬ receiving pc) as [Hr|Hr] by (destruct pc; simpl; try (by left); try (by right; intros []); destruct recv; auto).
      - eapply awake_own; [done|done|exact Ht|exact Hr|]. by eapply own_recv.
      - eapply awake_bystander; [done|done|exact Ht|exact Hr|]. by eapply bystander_recv. }
    assert (¬ receiving pc → bystander t s s' → Awake s') as Hby by (intros; by eapply awake_bystander).
    destruct pc; solve [by apply Hrecv | apply Hby; [by intros []|by eapply bystander_other] | apply Hby; [by intros []|by eapply bystander_prepare]
      | apply Hby; [by intros []|by eapply bystander_removal] | done].
Qed.

Lemma awake_reachable cap inc auth s : reachable disciplined (mailbox_new cap inc auth) s → Awake s.
Proof.
  induction 1 as [|x s s' Hr IH Hx _].
  - split.
    + intros t. simpl. rewrite live_new. split; [set_solver|]. intros (pc & Hpc & _). by rewrite lookup_empty in Hpc.
    + intros t pc Ht. simpl in Ht. by rewrite lookup_empty in Ht.
  - eapply awake_step; [exact (inv_named _ (inv_reachable _ _ _ _ _ Hr))|exact (reachable_P _ _ _ Hr)|exact IH|exact Hx].
Qed.

(** ** The theorem *)

(** What a receiver of kind [k] takes if it looks now: high priority first. *)
Definition next_entry (k : Reader) s : option (QueuePriority.t * nat * MailboxEntry.t) :=
  match first_entry k QueuePriority.High s with
  | Some (i, e) => Some (QueuePriority.High, i, e)
  | None => match first_entry k QueuePriority.Normal s with Some (i, e) => Some (QueuePriority.Normal, i, e) | None => None end
  end.

Lemma run_replicate n m x s s1 s2 :
  run_schedule (replicate n x) s = Some s1 → run_schedule (replicate m x) s1 = Some s2 → run_schedule (replicate (n + m) x) s = Some s2.
Proof.
  revert s. induction n as [|n IH]; intros s; cbn [replicate run_schedule Nat.add]; [by intros [= <-]|].
  intros (u & Hu & Hn)%bind_Some Hm. rewrite Hu. simpl. by apply IH.
Qed.

(** The receiver looks again: from [RecvAwait], woken, to the queue of [p]. *)
Lemma looks_again t k a s p i e :
  tasks s !! t = Some (RecvAwait k) → ready t (notifier s) = true → frozen s = false → next_entry k s = Some (p, i, e) →
  ∃ n s1, run_schedule (replicate n (Step t a)) s = Some (take_entry t k true p i e s1) ∧ queue_of p s1 = queue_of p s.
Proof.
  intros Ht Hr Hf Hn. set (s1 := set_notifier (drop_notified t (notifier s)) s).
  set (s2 := set_task t (RecvEnable k) s1).
  set (s3 := set_task t (RecvFrozen k) (set_notifier (enable t (notifier s2)) s2)). set (s4 := set_task t (RecvHigh k) s3).
  assert (run_schedule (replicate 3 (Step t a)) s = Some s4) as H3.
  { simpl. rewrite Ht. simpl. rewrite Hr. simpl. rewrite lookup_insert_eq. simpl. rewrite lookup_insert_eq. simpl. by rewrite Hf. }
  assert (tasks s4 !! t = Some (RecvHigh k)) as Ht4 by apply lookup_insert_eq.
  unfold next_entry in Hn. destruct (first_entry k QueuePriority.High s) as [[j x]|] eqn:Hh.
  - injection Hn as <- <- <-. exists 4, s4. split; [|done]. eapply (run_replicate 3 1); [exact H3|]. cbn [replicate run_schedule step].
    rewrite Ht4. simpl. change (first_entry k QueuePriority.High s4) with (first_entry k QueuePriority.High s). by rewrite Hh.
  - destruct (first_entry k QueuePriority.Normal s) as [[j x]|] eqn:Hq; [|done]. injection Hn as <- <- <-.
    set (s5 := set_task t (RecvNormal k) s4). exists 5, s5. split; [|done]. eapply (run_replicate 3 2); [exact H3|]. cbn [replicate run_schedule step].
    rewrite Ht4. simpl. change (first_entry k QueuePriority.High s4) with (first_entry k QueuePriority.High s). rewrite Hh. simpl.
    rewrite lookup_insert_eq. simpl. change (first_entry k QueuePriority.Normal _) with (first_entry k QueuePriority.Normal s). by rewrite Hq.
Qed.

(** C11: no wake-up is lost, for a mailbox used in the disciplined way: one
    receiver at a time, of either kind, and a batch published before it is
    released (two receivers of different kinds can leave one asleep on an entry
    it could take).  In any state that calls interleaved at any lock, flag or use
    of the notifier lead to under that discipline: if the receiver is parked, the mailbox is
    not frozen, no call is about to notify and there is an entry for the
    receiver, then the receiver, run on its own, takes the first such entry,
    of the high-priority queue if that has one, and returns its message (a
    protected turn's goes to its completion first). *)
Theorem parked_receiver_served cap inc auth s t k p i e a :
  reachable disciplined (mailbox_new cap inc auth) s →
  tasks s !! t = Some (RecvAwait k) → frozen s = false → (∀ u f, tasks s !! u ≠ Some (Notifying f)) →
  next_entry k s = Some (p, i, e) →
  ∃ n s', run_schedule (replicate n (Step t a)) s = Some s' ∧ queue_of p s' = delete i (queue_of p s)
    ∧ tasks s' !! t = Some (match e with
                            | MailboxEntry.Legacy msg => Fin (Got msg)
                            | MailboxEntry.Protected _ => Completing true p i e
                            end).
Proof.
  intros Hr Ht Hf Hno Hn.
  assert (ready t (notifier s) = true) as Hrdy.
  { destruct (aw_seen s (awake_reachable _ _ _ _ Hr) t (RecvAwait k) Ht) as [?|(u & uc & Hu & Hnot)]; [|done|].
    - split; [done|]. unfold next_entry in Hn.
      destruct (first_entry k QueuePriority.High s) as [[j x]|] eqn:Hh.
      + left. apply list_find_Some in Hh as (Hj & Hx & _). exists x. split; [by eapply list_elem_of_lookup_2|exact Hx].
      + right. destruct (first_entry k QueuePriority.Normal s) as [[j x]|] eqn:Hq; [|done].
        apply list_find_Some in Hq as (Hj & Hx & _). exists x. split; [by eapply list_elem_of_lookup_2|exact Hx].
    - destruct uc; try done. by destruct (Hno u f). }
  destruct (looks_again t k a s p i e Ht Hrdy Hf Hn) as (n & s1 & Hrun & Hq).
  assert (∀ f s0, queue_of p (leave t true f s0) = queue_of p s0) as Hleave by (by destruct p).
  assert (∀ s0 msg, queue_of p (log_received t p msg (remove_at p i s0)) = delete i (queue_of p s0)) as Hrem by (by destruct p).
  destruct e as [msg|entry]; [destruct k|].
  - exists n. eexists. split_and!; [exact Hrun| |apply lookup_insert_eq]. unfold take_entry. by rewrite Hleave, Hrem, Hq.
  - exists (n + 1). eexists. split_and!.
    + eapply run_replicate; [exact Hrun|]. simpl. rewrite lookup_insert_eq. simpl. reflexivity.
    + change (queue_of p (log_received t p msg (remove_at p i s1)) = delete i (queue_of p s)). by rewrite Hrem, Hq.
    + apply lookup_insert_eq.
  - exists n. eexists. split_and!; [exact Hrun| |apply lookup_insert_eq]. rewrite <- Hq. by destruct p.
Qed.
End live.

(** ** Witness *)

(** A test for [disciplined]: at most one receiver, nothing being published. *)
Definition receivers {n : Notify} (s : World) : list (nat * Pc) :=
  filter (λ x, Is_true (match x.2 with
                        | RecvEnable _ | RecvFrozen _ | RecvHigh _ | RecvNormal _ | RecvAwait _
                        | Completing true _ _ _ | PuttingBack true _ _ _ _ => true
                        | _ => false
                        end)) (map_to_list (tasks s)).

Definition publishing {n : Notify} (s : World) : list (nat * Pc) :=
  filter (λ x, Is_true (match x.2 with Publishing _ _ _ => true | _ => false end)) (map_to_list (tasks s)).

Lemma disciplined_test {n : Notify} (s : World) :
  (length (receivers s) <=? 1) && (length (publishing s) <=? 0) = true → disciplined s.
Proof.
  intros [Hr%Nat.leb_le Hp%Nat.leb_le]%andb_true_iff. split.
  - intros t u pc qc Ht Hu Hpc Hqc.
    assert (∀ x xc, tasks s !! x = Some xc → receiving xc → (x, xc) ∈ receivers s) as Hin.
    { intros x xc Hx Hxc. apply list_elem_of_filter. split; [|by apply elem_of_map_to_list].
      simpl. destruct xc; try done; by destruct recv. }
    pose proof (Hin t pc Ht Hpc) as H1. pose proof (Hin u qc Hu Hqc) as H2.
    destruct (receivers s) as [|x [|y l]]; [by apply not_elem_of_nil in H1| |simpl in Hr; lia].
    apply list_elem_of_singleton in H1, H2. congruence.
  - intros t id barrier digest Ht. exfalso.
    assert ((t, Publishing id barrier digest) ∈ publishing s) as Hin.
    { apply list_elem_of_filter. split; [done|]. by apply elem_of_map_to_list. }
    destruct (publishing s); [by apply not_elem_of_nil in Hin|simpl in Hp; lia].
Qed.

Lemma parked_receiver_served_witness : ∃ s n s',
  tasks s !! 0 = Some (RecvAwait LegacyReader) ∧ run_schedule (replicate n (Step 0 answers_ok)) s = Some s'
  ∧ tasks s' !! 0 = Some (Fin (Got (demo_message "m2" MessageKind.User))).
Proof.
  set (test := λ s : World, (length (receivers s) <=? 1) && (length (publishing s) <=? 0)).
  set (facts := λ s : World, (tasks s !! 0, frozen s, next_entry LegacyReader s,
    existsb (λ x, match x.2 with Notifying _ => true | _ => false end) (map_to_list (tasks s)))).
  assert (facts <$> run_where test demo_messages (demo_mailbox 2) = Some (Some (RecvAwait LegacyReader), false,
    Some (QueuePriority.High, 0, MailboxEntry.Legacy (demo_message "m2" MessageKind.User)), false)) as Hf by (vm_compute; reflexivity).
  destruct (run_where test demo_messages (demo_mailbox 2)) as [s|] eqn:Hrun; [|discriminate Hf]. exists s.
  injection Hf as Ht Hfr Hn Hno.
  destruct (parked_receiver_served live_model 2 "incarnation" true s 0 LegacyReader QueuePriority.High 0
    (MailboxEntry.Legacy (demo_message "m2" MessageKind.User)) answers_ok) as (n & s' & Hr & _ & Ht').
  - refine (run_where_reachable disciplined test _ _ disciplined_test _ _ (reach_start _ _ _) Hrun).
    apply disciplined_test. vm_compute. reflexivity.
  - exact Ht.
  - exact Hfr.
  - intros u f Hu. assert (existsb (λ x : nat * Pc, match x.2 with Notifying _ => true | _ => false end) (map_to_list (tasks s)) = true) as Ht1; [|congruence].
    apply existsb_exists. exists (u, Notifying f). split; [|done]. apply list_elem_of_In. by apply elem_of_map_to_list.
  - exact Hn.
  - exists n, s'. done.
Defined.
