(* ===== verification/MailboxGaps.v ===== *)
(** * What the mailbox does against its own documentation

    Two schedules of [Mailbox.v] evaluated: a turn put back above the capacity,
    and a message received from a frozen mailbox. *)
From S2P Require Import Prelude AgentTree AwaitData MailboxData Mailbox MailboxDemo.
Open Scope string_scope.
Open Scope list_scope.
Open Scope nat_scope.

(** [deliver] counts what is queued and staged, not the turn a receiver has out:
    that one is put back into a full mailbox. *)
Example turn_put_back_above_capacity :
  (λ s, (capacity s, depth false false s)) <$> run_schedule demo_overfull (demo_mailbox 1) = Some (1%Z, 2%Z).
Proof. vm_compute. reflexivity. Qed.

(** A receiver that has passed its look at the flag takes a message which was
    delivered after [freeze] returned. *)
Definition received_while_frozen : list act :=
  [Call 0 Recv] ++ steps 2 0
  ++ [Call 1 Freeze] ++ steps 1 1
  ++ [Call 2 (Deliver (demo_message "m1" MessageKind.Agent))] ++ steps 2 2
  ++ steps 2 0.

Example frozen_mailbox_hands_out :
  (λ s, (frozen s, tasks s !! 1, tasks s !! 0)) <$> run_schedule received_while_frozen (demo_mailbox 1)
  = Some (true, Some (Fin Finished), Some (Fin (Got (demo_message "m1" MessageKind.Agent)))).
Proof. vm_compute. reflexivity. Qed.
