(* ===== verification/Routing.v ===== *)
(** * Who may send to whom

    Models the routing of [crates/messaging/src]: the tree the dispatcher asks
    ([dynamic_routing.rs]), which answers ids of the form [agent:x] from a map
    written as agents are spawned and hands every other id to the agent tree;
    the check of a route ([hierarchy.rs]); and the bridge between the two forms
    of an id ([id_bridge.rs]). *)
From S2P Require Import Prelude RustStr GrantData AgentTree AwaitData.
Open Scope string_scope.
Open Scope list_scope.
Open Scope Z_scope.

(** ** The dual tree *)

Module DynamicRouting.
Record t (R : Type) := mk { bare : R; colon : gmap string (option string) }.
Arguments mk {R}. Arguments bare {R}. Arguments colon {R}.
End DynamicRouting.

Definition is_colon (key : string) : bool := starts_with "agent:" key.

(** The order in which the map is iterated. *)
Class ColonOrder := iter_colon : gmap string (option string) → list (string * option string).
Class ColonOrderLaws `{ColonOrder} : Prop := iter_colon_perm m : iter_colon m ≡ₚ map_to_list m.

Definition colon_order_model : ColonOrder := map_to_list.

Lemma colon_order_model_laws : @ColonOrderLaws colon_order_model.
Proof. intros m. reflexivity. Qed.

Section dynamic.
Context {R : Type}.

Definition routing_new (b : R) : DynamicRouting.t R := DynamicRouting.mk b ∅.

Definition seed_root (colon_root : string) (d : DynamicRouting.t R) : DynamicRouting.t R :=
  DynamicRouting.mk (DynamicRouting.bare d) (<[colon_root := None]> (DynamicRouting.colon d)).

Definition register_child (colon_child colon_parent : string) (d : DynamicRouting.t R) : bool * DynamicRouting.t R :=
  match DynamicRouting.colon d !! colon_child with
  | Some _ => (false, d)
  | None => (true, DynamicRouting.mk (DynamicRouting.bare d) (<[colon_child := Some colon_parent]> (DynamicRouting.colon d)))
  end.

Definition unregister_child (colon_child : string) (d : DynamicRouting.t R) : bool * DynamicRouting.t R :=
  match DynamicRouting.colon d !! colon_child with
  | Some (Some _) => (true, DynamicRouting.mk (DynamicRouting.bare d) (delete colon_child (DynamicRouting.colon d)))
  | _ => (false, d)
  end.

Definition colon_parent_of (m : gmap string (option string)) (agent_id : string) : option string := mjoin (m !! agent_id).

#[export] Instance dynamic_reader `{AgentTreeReader R, ColonOrder} : AgentTreeReader (DynamicRouting.t R) := {|
  reader_parent_of d a :=
    if is_colon a then colon_parent_of (DynamicRouting.colon d) a else reader_parent_of (DynamicRouting.bare d) a;
  reader_children_of d a :=
    if is_colon a
    then (filter (λ e, e.2 = Some a) (iter_colon (DynamicRouting.colon d))).*1
    else reader_children_of (DynamicRouting.bare d) a;
  reader_siblings_of d a :=
    if is_colon a
    then match colon_parent_of (DynamicRouting.colon d) a with
         | Some parent => (filter (λ e, e.1 ≠ a ∧ e.2 = Some parent) (iter_colon (DynamicRouting.colon d))).*1
         | None => []
         end
    else reader_siblings_of (DynamicRouting.bare d) a;
  reader_agent_exists d a :=
    if is_colon a then bool_decide (is_Some (DynamicRouting.colon d !! a)) else reader_agent_exists (DynamicRouting.bare d) a;
  reader_agent_kind d a :=
    if is_colon a
    then match DynamicRouting.colon d !! a with
         | Some None => Some AgentKind.Root
         | Some (Some _) => Some AgentKind.Child
         | None => None
         end
    else reader_agent_kind (DynamicRouting.bare d) a;
  reader_capabilities d a := if is_colon a then [] else reader_capabilities (DynamicRouting.bare d) a;
  (* the trait's own definitions *)
  reader_handle_of d a :=
    if (if is_colon a then bool_decide (is_Some (DynamicRouting.colon d !! a)) else reader_agent_exists (DynamicRouting.bare d) a)
    then Some a else None;
  reader_id_by_handle d h :=
    if (if is_colon h then bool_decide (is_Some (DynamicRouting.colon d !! h)) else reader_agent_exists (DynamicRouting.bare d) h)
    then Some h else None
|}.
End dynamic.

(** ** Routes *)

Definition validate_routing {R} `{AgentTreeReader R} (tree : R) (from to : string) : result MsgError.t unit :=
  _ ← guard_err (negb (is_safe_id from) || negb (is_safe_id to)) (MsgError.InvalidTarget "invalid_id");
  _ ← guard_err (String.eqb from to) (MsgError.InvalidTarget "self_send_forbidden");
  _ ← guard_err (negb (reader_agent_exists tree to)) (MsgError.InvalidTarget "unknown_target");
  if starts_with "user:" from then Ok tt
  else
    let from_parent := reader_parent_of tree from in
    let to_parent := reader_parent_of tree to in
    if bool_decide (from_parent = Some to) then Ok tt
    else if bool_decide (to_parent = Some from) then Ok tt
    else if bool_decide (is_Some from_parent ∧ from_parent = to_parent) then Ok tt
    else Err (MsgError.InvalidTarget "no_adjacency").

(** ** The bridge *)

Definition MAX_BARE_ID_LEN : Z := 64.

Definition is_valid_bare_tree_id (s : string) : bool :=
  negb (String.eqb s "") && (len s <=? MAX_BARE_ID_LEN)
  && all_bytes (λ b, is_ascii_alphanumeric b || one_of ["_"; "-"]%char b) s.

Module Class_.
Record t := mk { bare_tree_key : string; mailbox_key : string }.
End Class_.

Module AgentIdBridge.
Record t := mk {
  members : gmap string nat;
  classes : list Class_.t;
  registered : gmap string (string * string)
}.
End AgentIdBridge.

Definition bridge_empty : AgentIdBridge.t := AgentIdBridge.mk ∅ [] ∅.

Definition insert_class (mailbox_key bare_tree_key : string) (b : AgentIdBridge.t) : AgentIdBridge.t :=
  let members := AgentIdBridge.members b in
  if negb (is_safe_id mailbox_key) || negb (is_valid_bare_tree_id bare_tree_key) then b
  else if bool_decide (is_Some (members !! mailbox_key)) || bool_decide (is_Some (members !! bare_tree_key)) then b
  else
    let idx := length (AgentIdBridge.classes b) in
    let members := <[mailbox_key := idx]> members in
    let members := if String.eqb bare_tree_key mailbox_key then members else <[bare_tree_key := idx]> members in
    AgentIdBridge.mk members (AgentIdBridge.classes b ++ [Class_.mk bare_tree_key mailbox_key]) (AgentIdBridge.registered b).

Definition from_pairs (pairs : list (string * string)) : AgentIdBridge.t :=
  fold_left (λ b p, insert_class p.1 p.2 b) pairs bridge_empty.

(** [self.classes[idx]]: an index out of range panics. *)
Definition resolve (target : string) (b : AgentIdBridge.t) : option (string * string) :=
  idx ← AgentIdBridge.members b !! target;
  class ← AgentIdBridge.classes b !! idx;
  Some (Class_.bare_tree_key class, Class_.mailbox_key class).

Definition resolve_owned (target : string) (b : AgentIdBridge.t) : option (string * string) :=
  match AgentIdBridge.members b !! target with
  | Some _ => resolve target b
  | None => AgentIdBridge.registered b !! target
  end.

Definition bridge_is_empty (b : AgentIdBridge.t) : bool := bool_decide (AgentIdBridge.classes b = []).

(** A form one of the two names has already. *)
Definition claimed {A} (m : gmap string A) (mailbox_key bare_tree_key : string) : bool :=
  bool_decide (is_Some (m !! mailbox_key)) || bool_decide (is_Some (m !! bare_tree_key)).

Definition register (mailbox_key bare_tree_key : string) (b : AgentIdBridge.t) : bool * AgentIdBridge.t :=
  let reg := AgentIdBridge.registered b in
  if negb (is_safe_id mailbox_key) || negb (is_valid_bare_tree_id bare_tree_key) then (false, b)
  else if claimed (AgentIdBridge.members b) mailbox_key bare_tree_key then (false, b)
  else if claimed reg mailbox_key bare_tree_key then (false, b)
  else
    let pair := (bare_tree_key, mailbox_key) in
    let reg := <[mailbox_key := pair]> reg in
    let reg := if String.eqb bare_tree_key mailbox_key then reg else <[bare_tree_key := pair]> reg in
    (true, AgentIdBridge.mk (AgentIdBridge.members b) (AgentIdBridge.classes b) reg).

Definition unregister (mailbox_key bare_tree_key : string) (b : AgentIdBridge.t) : bool * AgentIdBridge.t :=
  if claimed (AgentIdBridge.members b) mailbox_key bare_tree_key then (false, b)
  else
    let reg := AgentIdBridge.registered b in
    let removed_colon := bool_decide (is_Some (reg !! mailbox_key)) in
    let reg := delete mailbox_key reg in
    let removed_bare := bool_decide (is_Some (reg !! bare_tree_key)) in
    (removed_colon || removed_bare,
     AgentIdBridge.mk (AgentIdBridge.members b) (AgentIdBridge.classes b) (delete bare_tree_key reg)).
