(* ===== verification/ChildRoutes.v ===== *)
(** * The loops of spawned agents and the mailboxes they serve

    Models the registration protocol of [PerChildLoopManager]
    ([crates/runtime-compose/src/perchild_daemon.rs]): a spawned agent's route and
    bridge pair are registered, its loop is started, and the loop takes them down
    when it returns.  Each access to a lock is a step, and any number of spawns,
    aborts and loops interleave.  A spawn is modelled from the point where its
    component has loaded; an abort up to the drain of the mailbox. *)
From S2P Require Import Prelude RustStr AgentTree AwaitData Routing.
Open Scope string_scope.
Open Scope list_scope.
Open Scope nat_scope.

Inductive Pc :=
(* on_child_spawned *)
| RegisterRoute (child_colon parent_colon child_bare : string)
| RegisterBridge (child_colon child_bare : string) (routed : bool)
| RollbackRoute (child_colon child_bare : string) (bridged : bool)
| RollbackBridge (child_colon child_bare : string)
| SpawnLoop (child_colon child_bare : string)
| Retain (child_colon : string)
(* abort_child *)
| AbortCheck (colon bare : string) | AbortLoop (colon bare : string)
| AbortRoute (colon bare : string) | AbortBridge (colon bare : string)
(* drain *)
| Drain_
(* shutdown *)
| TakeLoops | AbortEach (handles : list nat)
| Done.

(** A loop is named by the call that started it.  An abort lands at the next
    await point: a loop that is returning then still takes its route down. *)
Inductive Loop :=
| Serving (colon bare : string)
| Aborting (colon bare : string)
| CleanRoute (colon bare : string)
| CleanBridge (colon bare : string)
| Over.

(** With the keys [key_resolver] gives the ids when the call begins. *)
Inductive call :=
| OnChildSpawned (child_colon parent_colon child_bare : string)
| AbortChild (colon bare_id : string)
| Drain
| Shutdown.

Section manager.
Context {R : Type}.

Record Manager := mkManager {
  routing : DynamicRouting.t R;
  bridge : AgentIdBridge.t;
  retained : gmap string nat;          (* the field [loops] *)
  closed : bool;
  tasks : gmap nat Pc;
  loops : gmap nat Loop
}.

Definition set_routing x s := mkManager x (bridge s) (retained s) (closed s) (tasks s) (loops s).
Definition set_bridge x s := mkManager (routing s) x (retained s) (closed s) (tasks s) (loops s).
Definition set_retained x s := mkManager (routing s) (bridge s) x (closed s) (tasks s) (loops s).
Definition set_closed s := mkManager (routing s) (bridge s) (retained s) true (tasks s) (loops s).
Definition set_task t pc s := mkManager (routing s) (bridge s) (retained s) (closed s) (<[t := pc]> (tasks s)) (loops s).
Definition set_loop t l s := mkManager (routing s) (bridge s) (retained s) (closed s) (tasks s) (<[t := l]> (loops s)).

(** [wiring.rs]: the bridge has the root's pair, the tree the root's id. *)
Definition manager_new (b : R) (root_colon root_uid : string) : Manager :=
  mkManager (seed_root root_colon (routing_new b)) (from_pairs [(root_colon, root_uid)]) ∅ false ∅ ∅.

(** [JoinHandle::abort]. *)
Definition abort (l : Loop) : Loop := match l with Serving colon bare => Aborting colon bare | _ => l end.

Definition abort_loop (t : nat) (s : Manager) : Manager :=
  match loops s !! t with Some l => set_loop t (abort l) s | None => s end.

Definition call_step (t : nat) (pc : Pc) (s : Manager) : option Manager :=
  let go pc s := Some (set_task t pc s) in
  match pc with
  | RegisterRoute colon parent_colon bare =>
      let '(routed, d) := register_child colon parent_colon (routing s) in
      go (RegisterBridge colon bare routed) (set_routing d s)
  | RegisterBridge colon bare routed =>
      let '(bridged, b) := register colon bare (bridge s) in
      go (if routed && bridged then SpawnLoop colon bare
          else if routed then RollbackRoute colon bare bridged
          else if bridged then RollbackBridge colon bare
          else Done) (set_bridge b s)
  | RollbackRoute colon bare bridged =>
      go (if bridged then RollbackBridge colon bare else Done) (set_routing (unregister_child colon (routing s)).2 s)
  | RollbackBridge colon bare => go Done (set_bridge (unregister colon bare (bridge s)).2 s)
  | SpawnLoop colon bare => go (Retain colon) (set_loop t (Serving colon bare) s)
  | Retain colon =>
      if closed s then go Done (abort_loop t s) else go Done (set_retained (<[colon := t]> (retained s)) s)
  | AbortCheck colon bare =>
      match DynamicRouting.colon (routing s) !! colon with
      | Some None => go Done s                     (* the root's *)
      | _ => go (AbortLoop colon bare) s
      end
  | AbortLoop colon bare =>
      match retained s !! colon with
      | Some u => go (AbortRoute colon bare) (abort_loop u (set_retained (delete colon (retained s)) s))
      | None => go (AbortRoute colon bare) s
      end
  | AbortRoute colon bare => go (AbortBridge colon bare) (set_routing (unregister_child colon (routing s)).2 s)
  | AbortBridge colon bare => go Done (set_bridge (unregister colon bare (bridge s)).2 s)
  | Drain_ => go Done (set_retained ∅ (foldr abort_loop s (map_to_list (retained s)).*2))
  | TakeLoops => go (AbortEach (map_to_list (retained s)).*2) (set_retained ∅ s)
  | AbortEach handles => go Done (foldr abort_loop s handles)
  | Done => None
  end.

(** What a loop does: it is cancelled, or serves to its end and cleans up. *)
Definition loop_step (cancelled : bool) (t : nat) (l : Loop) (s : Manager) : option Manager :=
  match l, cancelled with
  | Aborting _ _, true => Some (set_loop t Over s)
  | (Serving colon bare | Aborting colon bare), false => Some (set_loop t (CleanRoute colon bare) s)
  | CleanRoute colon bare, false =>
      Some (set_loop t (CleanBridge colon bare) (set_routing (unregister_child colon (routing s)).2 s))
  | CleanBridge colon bare, false => Some (set_loop t Over (set_bridge (unregister colon bare (bridge s)).2 s))
  | _, _ => None
  end.

Definition begin (t : nat) (c : call) (s : Manager) : Manager :=
  match c with
  | OnChildSpawned child_colon parent_colon child_bare =>
      set_task t (if closed s then Done else RegisterRoute child_colon parent_colon child_bare) s
  | AbortChild colon bare_id => set_task t (AbortCheck colon bare_id) s
  | Drain => set_task t Drain_ s
  | Shutdown => set_task t TakeLoops (set_closed s)
  end.

Inductive act := Call (t : nat) (c : call) | Step (t : nat) | LoopStep (t : nat) (cancelled : bool).

Definition step (x : act) (s : Manager) : option Manager :=
  match x with
  | Call t c => match tasks s !! t with None => Some (begin t c s) | Some _ => None end
  | Step t => pc ← tasks s !! t; call_step t pc s
  | LoopStep t cancelled => l ← loops s !! t; loop_step cancelled t l s
  end.

(** The states schedules of acts in [ok] lead to. *)
Inductive reachable (ok : act → Prop) (s0 : Manager) : Manager → Prop :=
| reach_start : reachable ok s0 s0
| reach_step x s s' : reachable ok s0 s → ok x → step x s = Some s' → reachable ok s0 s'.

Fixpoint run_schedule (xs : list act) (s : Manager) : option Manager :=
  match xs with
  | [] => Some s
  | x :: xs => s' ← step x s; run_schedule xs s'
  end.

Lemma child_schedule_reachable ok s0 xs : Forall ok xs →
  ∀ s s', reachable ok s0 s → run_schedule xs s = Some s' → reachable ok s0 s'.
Proof.
  induction 1 as [|x xs Hx _ IH]; intros s s' Hs; simpl; [by intros [= <-]|].
  intros (s1 & Ha & Hrun)%bind_Some. eapply IH; [|exact Hrun]. by eapply reach_step.
Qed.
End manager.

(** ** Who holds what *)

(** The route a call or a loop has registered and has still to take down. *)
Definition pc_route (pc : Pc) : option string :=
  match pc with
  | RegisterBridge colon _ true | RollbackRoute colon _ _ | SpawnLoop colon _ => Some colon
  | _ => None
  end.

Definition loop_route (l : Loop) : option string :=
  match l with Serving colon _ | Aborting colon _ | CleanRoute colon _ => Some colon | _ => None end.

(** And the pair of the bridge. *)
Definition pc_pair (pc : Pc) : option (string * string) :=
  match pc with
  | RollbackRoute colon bare true | RollbackBridge colon bare | SpawnLoop colon bare => Some (colon, bare)
  | _ => None
  end.

Definition loop_pair (l : Loop) : option (string * string) :=
  match l with
  | Serving colon bare | Aborting colon bare | CleanRoute colon bare | CleanBridge colon bare => Some (colon, bare)
  | Over => None
  end.

Section facts.
Context {R : Type} {bare_reader : AgentTreeReader R} {order : ColonOrder}.
Implicit Types s : Manager (R := R).

Definition route_of s (t : nat) : option string :=
  match tasks s !! t ≫= pc_route with Some c => Some c | None => loops s !! t ≫= loop_route end.

Definition pair_of s (t : nat) : option (string * string) :=
  match tasks s !! t ≫= pc_pair with Some p => Some p | None => loops s !! t ≫= loop_pair end.

Definition forms (p : string * string) : list string := [p.1; p.2].

(** No abort of one child is under way. *)
Definition calm (pc : Pc) : Prop :=
  match pc with AbortCheck _ _ | AbortLoop _ _ | AbortRoute _ _ | AbortBridge _ _ => False | _ => True end.

(** No two hold the same route or the same form, what is held is registered, and
    a call that has started its loop holds nothing more. *)
Record Inv (root : string) s : Prop := {
  inv_root : DynamicRouting.colon (routing s) !! root = Some None;
  inv_route t c : route_of s t = Some c → ∃ p, DynamicRouting.colon (routing s) !! c = Some (Some p);
  inv_route_one t u c : route_of s t = Some c → route_of s u = Some c → t = u;
  inv_pair t p x : pair_of s t = Some p → x ∈ forms p →
    AgentIdBridge.registered (bridge s) !! x = Some (p.2, p.1) ∧ AgentIdBridge.members (bridge s) !! x = None;
  inv_safe t p : pair_of s t = Some p → is_safe_id p.1 = true;
  inv_pair_one t u p q x : pair_of s t = Some p → pair_of s u = Some q → x ∈ forms p → x ∈ forms q → t = u;
  inv_loop t l : loops s !! t = Some l → ∃ pc, tasks s !! t = Some pc ∧ (pc = Done ∨ ∃ c, pc = Retain c);
  inv_calm t pc : tasks s !! t = Some pc → calm pc
}.

(** What a step does to the routes and to the bridge, for holder [t]. *)
Inductive route_move (t : nat) s s' : Prop :=
| route_kept : routing s' = routing s → (∀ c, route_of s' t = Some c → route_of s t = Some c) → route_move t s s'
| route_taken c p : DynamicRouting.colon (routing s) !! c = None →
    DynamicRouting.colon (routing s') = <[c := Some p]> (DynamicRouting.colon (routing s)) →
    route_of s t = None → route_of s' t = Some c → route_move t s s'
| route_left c : route_of s t = Some c →
    DynamicRouting.colon (routing s') = delete c (DynamicRouting.colon (routing s)) → route_of s' t = None → route_move t s s'.

Inductive pair_move (t : nat) s s' : Prop :=
| pair_kept : bridge s' = bridge s → (∀ p, pair_of s' t = Some p → pair_of s t = Some p) → pair_move t s s'
| pair_taken p : is_safe_id p.1 = true → (∀ x, x ∈ forms p → AgentIdBridge.members (bridge s) !! x = None ∧ AgentIdBridge.registered (bridge s) !! x = None) →
    AgentIdBridge.members (bridge s') = AgentIdBridge.members (bridge s) →
    AgentIdBridge.registered (bridge s') = <[p.2 := (p.2, p.1)]> (<[p.1 := (p.2, p.1)]> (AgentIdBridge.registered (bridge s))) →
    pair_of s t = None → pair_of s' t = Some p → pair_move t s s'
| pair_left p : pair_of s t = Some p →
    AgentIdBridge.members (bridge s') = AgentIdBridge.members (bridge s) →
    AgentIdBridge.registered (bridge s') = delete p.2 (delete p.1 (AgentIdBridge.registered (bridge s))) →
    pair_of s' t = None → pair_move t s s'.

Lemma route_same t s s' : routing s' = routing s → route_of s' t = route_of s t → route_move t s s'.
Proof. intros Hr Ht. apply route_kept; [done|]. by rewrite Ht. Qed.

Lemma pair_same t s s' : bridge s' = bridge s → pair_of s' t = pair_of s t → pair_move t s s'.
Proof. intros Hr Ht. apply pair_kept; [done|]. by rewrite Ht. Qed.

Definition moves (t : nat) s s' : Prop :=
  route_move t s s' ∧ pair_move t s s' ∧ (∀ u, u ≠ t → route_of s' u = route_of s u ∧ pair_of s' u = pair_of s u)
  ∧ (∀ u l, loops s' !! u = Some l → ∃ pc, tasks s' !! u = Some pc ∧ (pc = Done ∨ ∃ c, pc = Retain c))
  ∧ (∀ u pc, tasks s' !! u = Some pc → calm pc).

Lemma inv_moves root t s s' : Inv root s → moves t s s' → Inv root s'.
Proof.
  intros Hs (Hr & Hp & Hother & Hloop & Hcalm).
  assert (∀ u c, route_of s' u = Some c → u ≠ t → route_of s u = Some c) as Hro by (intros u c Hu Hne; destruct (Hother u Hne); congruence).
  assert (∀ u p, pair_of s' u = Some p → u ≠ t → pair_of s u = Some p) as Hpo by (intros u p Hu Hne; destruct (Hother u Hne); congruence).
  split.
  - destruct Hr as [-> _|c p Hc -> _ _|c Hc -> _]; [apply (inv_root _ _ Hs)| |].
    + rewrite lookup_insert_ne; [apply (inv_root _ _ Hs)|]. intros ->. rewrite (inv_root _ _ Hs) in Hc. done.
    + rewrite lookup_delete_ne; [apply (inv_root _ _ Hs)|]. intros ->. destruct (inv_route _ _ Hs _ _ Hc) as (p & Hp').
      rewrite (inv_root _ _ Hs) in Hp'. done.
  - intros u c Hu. destruct Hr as [-> Ht|c' p Hc -> _ Ht|c' Hc -> Ht]; destruct (decide (u = t)) as [->|Hne].
    + apply Ht in Hu. by eapply inv_route.
    + eapply inv_route; [exact Hs|]. by apply Hro.
    + rewrite Ht in Hu. injection Hu as <-. exists p. apply lookup_insert_eq.
    + destruct (inv_route _ _ Hs _ _ (Hro _ _ Hu Hne)) as (q & Hq). exists q. rewrite lookup_insert_ne; [done|]. congruence.
    + congruence.
    + destruct (inv_route _ _ Hs _ _ (Hro _ _ Hu Hne)) as (q & Hq). exists q. rewrite lookup_delete_ne; [done|].
      intros ->. apply Hne. exact (inv_route_one _ _ Hs _ _ _ (Hro _ _ Hu Hne) Hc).
  - assert (∀ u c, route_of s' t = Some c → route_of s' u = Some c → u = t) as Ht.
    { intros u c Hc Hu. destruct (decide (u = t)) as [|Hne]; [done|]. pose proof (Hro _ _ Hu Hne) as Hu'.
      destruct Hr as [_ Ht|c' p Hc' _ _ Ht|c' _ _ Ht].
      - apply Ht in Hc. exact (inv_route_one _ _ Hs _ _ _ Hu' Hc).
      - rewrite Ht in Hc. injection Hc as ->. destruct (inv_route _ _ Hs _ _ Hu') as (q & Hq). congruence.
      - congruence. }
    intros u v c Hu Hv. destruct (decide (u = t)) as [->|Hut]; [symmetry; by eapply Ht|].
    destruct (decide (v = t)) as [->|Hvt]; [by eapply Ht|]. eapply inv_route_one; [exact Hs|apply Hro; done|by apply Hro].
  - intros u p x Hu Hx. destruct Hp as [-> Ht|q _ Hq Hm Hreg _ Ht|q Hq Hm Hreg Ht]; destruct (decide (u = t)) as [->|Hne].
    + apply Ht in Hu. by eapply inv_pair.
    + eapply inv_pair; [exact Hs| |exact Hx]. by apply Hpo.
    + rewrite Ht in Hu. injection Hu as <-. rewrite Hm, Hreg. split; [|by apply Hq].
      unfold forms in Hx. rewrite !elem_of_cons in Hx. destruct (decide (x = q.2)) as [->|Hne]; [apply lookup_insert_eq|].
      rewrite lookup_insert_ne by done. destruct Hx as [->|[->|Hx]]; [apply lookup_insert_eq|done|by apply not_elem_of_nil in Hx].
    + destruct (inv_pair _ _ Hs _ _ _ (Hpo _ _ Hu Hne) Hx) as [H1 H2]. rewrite Hm, Hreg. split; [|done].
      assert (∀ y, y ∈ forms q → y ≠ x) as Hd by (intros y Hy ->; destruct (Hq x Hy); congruence).
      rewrite !lookup_insert_ne; [done|..]; apply Hd; unfold forms; rewrite !elem_of_cons; auto.
    + congruence.
    + destruct (inv_pair _ _ Hs _ _ _ (Hpo _ _ Hu Hne) Hx) as [H1 H2]. rewrite Hm, Hreg. split; [|done].
      assert (∀ y, y ∈ forms q → y ≠ x) as Hd.
      { intros y Hy ->. apply Hne. exact (inv_pair_one _ _ Hs _ _ _ _ _ (Hpo _ _ Hu Hne) Hq Hx Hy). }
      rewrite !lookup_delete_ne; [done|..]; apply Hd; unfold forms; rewrite !elem_of_cons; auto.
  - intros u p Hu. destruct (decide (u = t)) as [->|Hne]; [|eapply inv_safe; [exact Hs|by apply Hpo]].
    destruct Hp as [_ Ht|q Hq _ _ _ _ Ht|q _ _ _ Ht]; [apply Ht in Hu; by eapply inv_safe|congruence..].
  - assert (∀ u p q x, pair_of s' t = Some p → pair_of s' u = Some q → x ∈ forms p → x ∈ forms q → u = t) as Ht.
    { intros u p q x Hc Hu Hx Hy. destruct (decide (u = t)) as [|Hne]; [done|]. pose proof (Hpo _ _ Hu Hne) as Hu'.
      destruct Hp as [_ Ht|p' _ Hp' _ _ _ Ht|p' _ _ _ Ht].
      - apply Ht in Hc. exact (inv_pair_one _ _ Hs _ _ _ _ _ Hu' Hc Hy Hx).
      - rewrite Ht in Hc. injection Hc as ->. destruct (inv_pair _ _ Hs _ _ _ Hu' Hy). destruct (Hp' x Hx). congruence.
      - congruence. }
    intros u v p q x Hu Hv Hx Hy. destruct (decide (u = t)) as [->|Hut]; [symmetry; by eapply (Ht v p q x)|].
    destruct (decide (v = t)) as [->|Hvt]; [by eapply (Ht u q p x)|].
    eapply inv_pair_one; [exact Hs|apply Hpo; done|by apply Hpo|exact Hx|exact Hy].
  - exact Hloop.
  - exact Hcalm.
Qed.

(** ** Every step is such a move *)

(** The call [t] goes on to [pc], holding [r] and [p]; its loop is not started. *)
Lemma moves_task root t pc s s1 :
  Inv root s → tasks s1 = tasks s → loops s1 = loops s → (loops s !! t = None ∨ (pc = Done ∨ ∃ c, pc = Retain c)) → calm pc →
  route_move t s (set_task t pc s1) → pair_move t s (set_task t pc s1) → moves t s (set_task t pc s1).
Proof.
  intros Hs Ht Hl Hpc Hcalm Hr Hp. split_and!; [done|done| | |].
  - intros u Hne. unfold route_of, pair_of. simpl. by rewrite lookup_insert_ne, Ht, Hl.
  - intros u l. simpl. rewrite Hl, Ht. intros Hu. destruct (decide (u = t)) as [->|Hne].
    + rewrite lookup_insert_eq. destruct Hpc as [Hn|Hpc]; [congruence|]. eauto.
    + rewrite lookup_insert_ne by done. by eapply inv_loop.
  - intros u qc. simpl. rewrite Ht. destruct (decide (u = t)) as [->|Hne].
    + rewrite lookup_insert_eq. by intros [= <-].
    + rewrite lookup_insert_ne by done. by eapply inv_calm.
Qed.

(** The loop [t] goes on to [l]. *)
Lemma moves_loop root t l0 l s s1 :
  Inv root s → loops s !! t = Some l0 → tasks s1 = tasks s → loops s1 = loops s →
  route_move t s (set_loop t l s1) → pair_move t s (set_loop t l s1) → moves t s (set_loop t l s1).
Proof.
  intros Hs Hl0 Ht Hl Hr Hp. split_and!; [done|done| | |].
  - intros u Hne. unfold route_of, pair_of. simpl. by rewrite lookup_insert_ne, Ht, Hl.
  - intros u x. simpl. rewrite Hl, Ht. destruct (decide (u = t)) as [->|Hne]; [intros _; by eapply inv_loop|].
    rewrite lookup_insert_ne by done. by eapply inv_loop.
  - simpl. rewrite Ht. by eapply inv_calm.
Qed.

Lemma route_of_task t pc s : route_of (set_task t pc s) t = match pc_route pc with Some c => Some c | None => loops s !! t ≫= loop_route end.
Proof. unfold route_of. simpl. by rewrite lookup_insert_eq. Qed.

Lemma pair_of_task t pc s : pair_of (set_task t pc s) t = match pc_pair pc with Some c => Some c | None => loops s !! t ≫= loop_pair end.
Proof. unfold pair_of. simpl. by rewrite lookup_insert_eq. Qed.

(** Before its loop is started, and from then on. *)
Lemma no_loop root t s : Inv root s → (∀ pc, tasks s !! t = Some pc → pc ≠ Done ∧ ∀ c, pc ≠ Retain c) → loops s !! t = None.
Proof.
  intros Hs Hpc. destruct (loops s !! t) as [l|] eqn:Hl; [|done]. destruct (inv_loop _ _ Hs t l Hl) as (pc & Ht & Hd).
  destruct (Hpc pc Ht) as [H1 H2]. destruct Hd as [->|[c ->]]; [done|by destruct (H2 c)].
Qed.

Lemma loop_holds root t l s : Inv root s → loops s !! t = Some l → route_of s t = loop_route l ∧ pair_of s t = loop_pair l.
Proof.
  intros Hs Hl. destruct (inv_loop _ _ Hs t l Hl) as (pc & Ht & Hd). unfold route_of, pair_of. rewrite Ht, Hl. simpl.
  by destruct Hd as [->|[c ->]].
Qed.

(** Aborting loops moves nothing. *)
Lemma abort_loop_same u s :
  tasks (abort_loop u s) = tasks s ∧ routing (abort_loop u s) = routing s ∧ bridge (abort_loop u s) = bridge s
  ∧ ∀ t, loops (abort_loop u s) !! t ≫= loop_route = loops s !! t ≫= loop_route
       ∧ loops (abort_loop u s) !! t ≫= loop_pair = loops s !! t ≫= loop_pair
       ∧ (is_Some (loops (abort_loop u s) !! t) → is_Some (loops s !! t)).
Proof.
  unfold abort_loop. destruct (loops s !! u) as [l|] eqn:Hl; [|done]. split_and!; [done..|]. intros t. simpl.
  destruct (decide (u = t)) as [<-|Hne]; [|by rewrite lookup_insert_ne]. rewrite lookup_insert_eq, Hl. by destruct l.
Qed.

Lemma abort_loops_same us s :
  let s1 := foldr abort_loop s us in
  tasks s1 = tasks s ∧ routing s1 = routing s ∧ bridge s1 = bridge s
  ∧ ∀ t, loops s1 !! t ≫= loop_route = loops s !! t ≫= loop_route ∧ loops s1 !! t ≫= loop_pair = loops s !! t ≫= loop_pair
       ∧ (is_Some (loops s1 !! t) → is_Some (loops s !! t)).
Proof.
  induction us as [|u us IH]; simpl; [done|]. destruct IH as (I1 & I2 & I3 & I4).
  destruct (abort_loop_same u (foldr abort_loop s us)) as (A1 & A2 & A3 & A4). rewrite A1, A2, A3. split_and!; [done..|].
  intros t. destruct (I4 t) as (J1 & J2 & J3), (A4 t) as (B1 & B2 & B3). split_and!; [congruence|congruence|auto].
Qed.

Lemma moves_abort root t us pc pc' s s1 :
  Inv root s → tasks s !! t = Some pc → pc_route pc = None → pc_pair pc = None →
  (loops s !! t = None ∨ pc' = Done) → pc_route pc' = None → pc_pair pc' = None → calm pc' →
  tasks s1 = tasks s → loops s1 = loops (foldr abort_loop s us) → routing s1 = routing s → bridge s1 = bridge s →
  moves t s (set_task t pc' s1).
Proof.
  intros Hs Ht Hr Hp Hd Hr' Hp' Hcalm Htasks Hloops Hrt Hbr. destruct (abort_loops_same us s) as (_ & _ & _ & Hsame).
  assert (∀ u, route_of (set_task t pc' s1) u = route_of s u ∧ pair_of (set_task t pc' s1) u = pair_of s u) as Hof.
  { intros u. destruct (Hsame u) as (J1 & J2 & _). unfold route_of, pair_of. simpl. rewrite Hloops, Htasks, J1, J2.
    destruct (decide (u = t)) as [->|Hne]; [|by rewrite lookup_insert_ne]. rewrite lookup_insert_eq, Ht. simpl. by rewrite Hr, Hp, Hr', Hp'. }
  split_and!.
  - apply route_same; [done|apply Hof].
  - apply pair_same; [done|apply Hof].
  - intros u _. apply Hof.
  - intros u l. simpl. rewrite Hloops, Htasks. intros Hu. destruct (Hsame u) as (_ & _ & His).
    destruct (His (mk_is_Some _ _ Hu)) as (l' & Hl'). destruct (decide (u = t)) as [->|Hne].
    + rewrite lookup_insert_eq. destruct Hd as [Hn|Hd]; [congruence|eauto].
    + rewrite lookup_insert_ne by done. by eapply inv_loop.
  - intros u qc. simpl. rewrite Htasks. destruct (decide (u = t)) as [->|Hne]; [rewrite lookup_insert_eq; by intros [= <-]|].
    rewrite lookup_insert_ne by done. by eapply inv_calm.
Qed.

Lemma claimed_false {A} (m : gmap string A) c b : claimed m c b = false ↔ m !! c = None ∧ m !! b = None.
Proof.
  unfold claimed. rewrite orb_false_iff, !bool_decide_eq_false. by rewrite <- !eq_None_not_Some.
Qed.

Lemma register_spec c b B :
  match register c b B with
  | (false, B') => B' = B
  | (true, B') =>
      is_safe_id c = true
      ∧ (∀ x, x ∈ forms (c, b) → AgentIdBridge.members B !! x = None ∧ AgentIdBridge.registered B !! x = None)
      ∧ AgentIdBridge.members B' = AgentIdBridge.members B
      ∧ AgentIdBridge.registered B' = <[b := (b, c)]> (<[c := (b, c)]> (AgentIdBridge.registered B))
  end.
Proof.
  unfold register. destruct (is_safe_id c) eqn:Hsafe; [|done]. destruct (is_valid_bare_tree_id b); [|done].
  destruct (claimed (AgentIdBridge.members B) c b) eqn:Hm; [done|]. destruct (claimed (AgentIdBridge.registered B) c b) eqn:Hr; [done|].
  apply claimed_false in Hm as [M1 M2], Hr as [R1 R2]. split_and!; [done| |done|].
  - intros x Hx. unfold forms in Hx. rewrite !elem_of_cons in Hx. by destruct Hx as [->|[->|Hx%not_elem_of_nil]].
  - simpl. destruct (String.eqb b c) eqn:He; [apply String.eqb_eq in He as ->|done]. by rewrite insert_insert_eq.
Qed.

Lemma unregister_spec c b B :
  AgentIdBridge.members B !! c = None → AgentIdBridge.members B !! b = None →
  let B' := (unregister c b B).2 in
  AgentIdBridge.members B' = AgentIdBridge.members B ∧ AgentIdBridge.registered B' = delete b (delete c (AgentIdBridge.registered B)).
Proof. intros Hc Hb. unfold unregister. by rewrite (proj2 (claimed_false _ c b) (conj Hc Hb)). Qed.

Lemma unregister_child_held (d : DynamicRouting.t R) c p :
  DynamicRouting.colon d !! c = Some (Some p) →
  DynamicRouting.colon (unregister_child c d).2 = delete c (DynamicRouting.colon d).
Proof. intros Hc. unfold unregister_child. by rewrite Hc. Qed.

(** The holder of a pair takes it down. *)
Lemma pair_left_intro root t p s s' :
  Inv root s → pair_of s t = Some p → bridge s' = (unregister p.1 p.2 (bridge s)).2 → pair_of s' t = None → pair_move t s s'.
Proof.
  intros Hs Hp Hb Hp'. destruct (unregister_spec p.1 p.2 (bridge s)) as [H1 H2].
  - apply (inv_pair _ _ Hs t p p.1 Hp). unfold forms. rewrite !elem_of_cons. auto.
  - apply (inv_pair _ _ Hs t p p.2 Hp). unfold forms. rewrite !elem_of_cons. auto.
  - eapply pair_left; [exact Hp|by rewrite Hb|by rewrite Hb|exact Hp'].
Qed.

(** The holder of a route takes it down. *)
Lemma route_left_intro root t c s s' :
  Inv root s → route_of s t = Some c → routing s' = (unregister_child c (routing s)).2 → route_of s' t = None → route_move t s s'.
Proof.
  intros Hs Hc Hr Hc'. destruct (inv_route _ _ Hs t c Hc) as (p & Hp).
  eapply route_left; [exact Hc| |exact Hc']. rewrite Hr. by eapply unregister_child_held.
Qed.

Lemma moves_call root t pc s s' : Inv root s → tasks s !! t = Some pc → call_step t pc s = Some s' → moves t s s'.
Proof.
  intros Hs Ht. pose proof (inv_calm _ _ Hs t pc Ht) as Hc.
  assert ((pc ≠ Done ∧ ∀ c, pc ≠ Retain c) → loops s !! t = None) as Hnl.
  { intros Hpc. apply (no_loop root); [done|]. intros qc Hq. by replace qc with pc by congruence. }
  assert (route_of s t = match pc_route pc with Some c => Some c | None => loops s !! t ≫= loop_route end) as Hro by (unfold route_of; by rewrite Ht).
  assert (pair_of s t = match pc_pair pc with Some c => Some c | None => loops s !! t ≫= loop_pair end) as Hpo by (unfold pair_of; by rewrite Ht).
  destruct pc; try done; simpl in Hro, Hpo; simpl.
  - assert (loops s !! t = None) as Hl by (by apply Hnl). rewrite Hl in *. simpl in *.
    unfold register_child. destruct (DynamicRouting.colon (routing s) !! child_colon) eqn:Hcol; intros [= <-].
    + eapply moves_task; [exact Hs|done|done|by left|done| |].
      * apply route_same; [done|]. rewrite route_of_task. simpl. by rewrite Hl.
      * apply pair_same; [done|]. rewrite pair_of_task. simpl. by rewrite Hl.
    + eapply moves_task; [exact Hs|done|done|by left|done| |].
      * eapply route_taken; [exact Hcol|done|done|]. by rewrite route_of_task.
      * apply pair_same; [done|]. rewrite pair_of_task. simpl. by rewrite Hl.
  - assert (loops s !! t = None) as Hl by (by apply Hnl). rewrite Hl in *. simpl in *.
    pose proof (register_spec child_colon child_bare (bridge s)) as Hreg.
    destruct (register child_colon child_bare (bridge s)) as [bridged B] eqn:Hb. intros [= <-].
    eapply moves_task; [exact Hs|done|done|by left|by destruct routed, bridged| |].
    + apply route_same; [done|]. rewrite route_of_task. simpl. rewrite Hl, Hro. by destruct routed, bridged.
    + destruct bridged.
      * destruct Hreg as (H0 & H1 & H2 & H3). eapply (pair_taken t s _ (child_colon, child_bare)); [exact H0|exact H1|exact H2|exact H3|done|].
        rewrite pair_of_task. by destruct routed.
      * apply pair_same; [exact Hreg|]. rewrite pair_of_task, Hpo. simpl. rewrite Hl. by destruct routed.
  - assert (loops s !! t = None) as Hl by (by apply Hnl). rewrite Hl in *. simpl in *. intros [= <-].
    eapply moves_task; [exact Hs|done|done|by left|by destruct bridged| |].
    + eapply route_left_intro; [exact Hs|exact Hro|done|]. rewrite route_of_task. simpl. rewrite Hl. by destruct bridged.
    + apply pair_same; [done|]. rewrite pair_of_task, Hpo. simpl. rewrite Hl. by destruct bridged.
  - assert (loops s !! t = None) as Hl by (by apply Hnl). rewrite Hl in *. simpl in *. intros [= <-].
    eapply moves_task; [exact Hs|done|done|by left|done| |].
    + apply route_same; [done|]. rewrite route_of_task. simpl. by rewrite Hl.
    + eapply (pair_left_intro root t (child_colon, child_bare)); [exact Hs|exact Hpo|done|]. rewrite pair_of_task. simpl. by rewrite Hl.
  - intros [= <-]. assert (route_of (set_task t (Retain child_colon) (set_loop t (Serving child_colon child_bare) s)) t = Some child_colon) as H1.
    { rewrite route_of_task. simpl. by rewrite lookup_insert_eq. }
    assert (pair_of (set_task t (Retain child_colon) (set_loop t (Serving child_colon child_bare) s)) t = Some (child_colon, child_bare)) as H2.
    { rewrite pair_of_task. simpl. by rewrite lookup_insert_eq. }
    split_and!.
    + apply route_same; [done|congruence].
    + apply pair_same; [done|congruence].
    + intros u Hne. unfold route_of, pair_of. simpl. by rewrite !lookup_insert_ne.
    + intros u l. simpl. destruct (decide (u = t)) as [->|Hne]; [rewrite !lookup_insert_eq; eauto|].
      rewrite !lookup_insert_ne by done. by eapply inv_loop.
    + intros u qc. simpl. destruct (decide (u = t)) as [->|Hne]; [rewrite lookup_insert_eq; by intros [= <-]|].
      rewrite lookup_insert_ne by done. by eapply inv_calm.
  - destruct (abort_loop_same t s) as (A1 & A2 & A3 & _).
    destruct (closed s); intros [= <-]; [eapply (moves_abort root t [t])|eapply (moves_abort root t [])]; eauto.
  - intros [= <-]. destruct (abort_loops_same (map_to_list (retained s)).*2 s) as (A1 & A2 & A3 & _).
    eapply (moves_abort root t (map_to_list (retained s)).*2); eauto.
  - intros [= <-]. eapply (moves_abort root t []); eauto.
  - intros [= <-]. destruct (abort_loops_same handles s) as (A1 & A2 & A3 & _). eapply (moves_abort root t handles); eauto.
Qed.

Lemma moves_loop_step root x t l s s' : Inv root s → loops s !! t = Some l → loop_step x t l s = Some s' → moves t s s'.
Proof.
  intros Hs Hl. destruct (loop_holds _ _ _ _ Hs Hl) as [Hro Hpo].
  assert (∀ l' s1, tasks s1 = tasks s → route_of (set_loop t l' s1) t = loop_route l' ∧ pair_of (set_loop t l' s1) t = loop_pair l') as Hof.
  { intros l' s1 Hts. destruct (inv_loop _ _ Hs t l Hl) as (pc & Ht & Hd). unfold route_of, pair_of. simpl.
    rewrite Hts, Ht, lookup_insert_eq. by destruct Hd as [->|[c ->]]. }
  destruct l, x; try done; simpl in Hro, Hpo; simpl; intros [= <-]; (eapply moves_loop; [exact Hs|exact Hl|done|done|..]).
  - apply route_same; [done|]. rewrite Hro. by apply Hof.
  - apply pair_same; [done|]. rewrite Hpo. by apply Hof.
  - apply route_kept; [done|]. by rewrite (proj1 (Hof Over s eq_refl)).
  - apply pair_kept; [done|]. by rewrite (proj2 (Hof Over s eq_refl)).
  - apply route_same; [done|]. rewrite Hro. by apply Hof.
  - apply pair_same; [done|]. rewrite Hpo. by apply Hof.
  - eapply route_left_intro; [exact Hs|exact Hro|done|]. by apply Hof.
  - apply pair_same; [done|]. rewrite Hpo. by apply Hof.
  - apply route_same; [done|]. rewrite Hro. by apply Hof.
  - eapply (pair_left_intro root t (colon, bare)); [exact Hs|exact Hpo|done|]. by apply Hof.
Qed.
(** No abort of one child is in the schedule: nothing calls it yet. *)
Definition quiet (x : act) : Prop := match x with Call _ (AbortChild _ _) => False | _ => True end.

Lemma inv_begin root t c s : Inv root s → quiet (Call t c) → tasks s !! t = None → Inv root (begin t c s).
Proof.
  intros Hs Hq Ht. assert (loops s !! t = None) as Hl by (apply (no_loop root); [done|by rewrite Ht]).
  assert (∃ pc s1, begin t c s = set_task t pc s1 ∧ tasks s1 = tasks s ∧ loops s1 = loops s ∧ routing s1 = routing s
    ∧ bridge s1 = bridge s ∧ pc_route pc = None ∧ pc_pair pc = None ∧ calm pc) as (pc & s1 & -> & H1 & H2 & H3 & H4 & H5 & H6 & H7).
  { destruct c; [|done|by exists Drain_, s|by exists TakeLoops, (set_closed s)].
    simpl. destruct (closed s); [by exists Done, s|by eexists _, s]. }
  apply (inv_moves root t s); [done|]. eapply moves_task; [exact Hs|done|done|by left|done| |].
  - apply route_same; [done|]. rewrite route_of_task, H5, H2, Hl. unfold route_of. by rewrite Ht, Hl.
  - apply pair_same; [done|]. rewrite pair_of_task, H6, H2, Hl. unfold pair_of. by rewrite Ht, Hl.
Qed.

Lemma inv_step root x s s' : Inv root s → quiet x → step x s = Some s' → Inv root s'.
Proof.
  intros Hs Hq Hx. destruct x as [t c|t|t cancelled]; simpl in Hx.
  - destruct (tasks s !! t) eqn:Ht; [done|]. injection Hx as <-. by apply inv_begin.
  - apply bind_Some in Hx as (pc & Ht & Hx). eapply inv_moves; [exact Hs|]. by eapply moves_call.
  - apply bind_Some in Hx as (l & Hl & Hx). eapply inv_moves; [exact Hs|]. by eapply moves_loop_step.
Qed.

Lemma inv_new b root uid : Inv root (manager_new b root uid).
Proof. split; try done. simpl. apply lookup_insert_eq. Qed.

Lemma inv_child_routes b root uid s : reachable quiet (manager_new b root uid) s → Inv root s.
Proof. induction 1 as [|x s s' _ IH Hx Hstep]; [apply inv_new|by eapply inv_step]. Qed.

(** The pair a loop serves until it returns. *)
Definition serves (l : Loop) (colon bare : string) : Prop := l = Serving colon bare ∨ l = Aborting colon bare.

(** What the guard against collisions is for. *)
Definition served_alone (root : string) s : Prop :=
  ∀ t l colon bare, loops s !! t = Some l → serves l colon bare →
    colon ≠ root
    ∧ (∃ parent, DynamicRouting.colon (routing s) !! colon = Some (Some parent)
        ∧ (is_colon colon = true → is_safe_id parent = true → parent ≠ colon → validate_routing (routing s) parent colon = Ok tt))
    ∧ (∀ x, x = colon ∨ x = bare → resolve_owned x (bridge s) = Some (bare, colon))
    ∧ (∀ u l' colon' bare', loops s !! u = Some l' → serves l' colon' bare' → colon' = colon ∨ bare' = bare → u = t).

Lemma serves_holds root t l s colon bare :
  Inv root s → loops s !! t = Some l → serves l colon bare → route_of s t = Some colon ∧ pair_of s t = Some (colon, bare).
Proof. intros Hs Hl Hv. destruct (loop_holds _ _ _ _ Hs Hl) as [-> ->]. by destruct Hv as [->| ->]. Qed.

Lemma parent_may_send (d : DynamicRouting.t R) parent colon :
  DynamicRouting.colon d !! colon = Some (Some parent) → is_colon colon = true →
  is_safe_id parent = true → is_safe_id colon = true → parent ≠ colon → validate_routing d parent colon = Ok tt.
Proof.
  intros Hc Hcolon Hp Hs Hne. unfold validate_routing. rewrite Hp, Hs. simpl.
  destruct (String.eqb_spec parent colon) as [|_]; [done|]. simpl. rewrite Hcolon, Hc. simpl.
  destruct (starts_with "user:" parent); [done|]. case_bool_decide; [done|]. unfold colon_parent_of. rewrite Hc. simpl.
  by rewrite bool_decide_true.
Qed.

(** C12: while the loop of a spawned agent can run, its mailbox is not the root's,
    its route is registered and lets its parent send to it, the bridge resolves both forms of its id to it, and
    no other loop serves the same mailbox or an agent of the same id, however
    spawns, loops and shutdowns interleave. *)
Theorem one_loop_per_mailbox b root uid s :
  reachable quiet (manager_new b root uid) s → served_alone root s.
Proof.
  intros Hs%inv_child_routes t l colon bare Hl Hv. destruct (serves_holds _ _ _ _ _ _ Hs Hl Hv) as [Hr Hp].
  destruct (inv_route _ _ Hs _ _ Hr) as (parent & Hpar). split_and!.
  - intros ->. rewrite (inv_root _ _ Hs) in Hpar. done.
  - exists parent. split; [done|]. intros Hcol Hsp Hne. eapply parent_may_send; try done. exact (inv_safe _ _ Hs _ _ Hp).
  - intros x Hx. destruct (inv_pair _ _ Hs _ _ x Hp) as [H1 H2].
    { unfold forms. rewrite !elem_of_cons. by destruct Hx as [->| ->]; auto. }
    unfold resolve_owned. by rewrite H2.
  - intros u l' colon' bare' Hl' Hv' Heq. destruct (serves_holds _ _ _ _ _ _ Hs Hl' Hv') as [Hr' Hp'].
    destruct Heq as [->| ->]; [by eapply (inv_route_one _ _ Hs)|].
    eapply (inv_pair_one _ _ Hs _ _ _ _ bare); [exact Hp'|exact Hp|unfold forms; rewrite !elem_of_cons; auto..].
Qed.
End facts.

(** ** Schedules *)

Definition demo_manager : Manager (R := AgentTreeInner.t) := manager_new tree_new "agent:root" "default".

Definition spawn_at (n t : nat) (colon bare : string) : list act :=
  Call t (OnChildSpawned colon "agent:root" bare) :: replicate n (Step t).

(** An agent is spawned; one takes the root's mailbox for its own, one
    the first one's id; the first is served again after it ends, and all is shut down. *)
Definition demo_spawns : list act :=
  spawn_at 4 0 "agent:a" "a" ++ spawn_at 2 1 "agent:root" "default" ++ spawn_at 3 2 "agent:c" "a"
  ++ replicate 3 (LoopStep 0 false) ++ spawn_at 3 3 "agent:a" "a" ++ spawn_at 4 4 "agent:b" "b"
  ++ Call 5 Shutdown :: replicate 2 (Step 5) ++ [Step 3].

Example demo_spawns_loops :
  (λ s, (loops s !! 0, loops s !! 1, loops s !! 3, loops s !! 4)) <$> run_schedule demo_spawns demo_manager
  = Some (Some Over, None, Some (Aborting "agent:a" "a"), Some (Aborting "agent:b" "b")).
Proof. vm_compute. reflexivity. Qed.

Lemma one_loop_per_mailbox_witness :
  ∃ s, run_schedule demo_spawns demo_manager = Some s ∧ served_alone (order := colon_order_model) "agent:root" s ∧ loops s !! 4 = Some (Aborting "agent:b" "b").
Proof.
  assert ((λ s, loops s !! 4) <$> run_schedule demo_spawns demo_manager = Some (Some (Aborting "agent:b" "b"))) as Hl
    by (vm_compute; reflexivity).
  destruct (run_schedule demo_spawns demo_manager) as [s|] eqn:Hrun; [|discriminate]. exists s. split; [reflexivity|].
  split; [|injection Hl; trivial]. apply (one_loop_per_mailbox tree_new "agent:root" "default").
  apply (child_schedule_reachable quiet demo_manager demo_spawns) with (s := demo_manager); [|apply reach_start|exact Hrun].
  repeat constructor.
Defined.

(** ** An abort and a loop that is returning

    A loop that returned has still to take its route down when its agent is
    aborted and spawned again: it then takes down the route of the new loop, and a
    further spawn is served beside that one. *)
Definition stale_cleanup : list act :=
  spawn_at 4 0 "agent:a" "a" ++ [LoopStep 0 false] ++ Call 1 (AbortChild "agent:a" "a") :: replicate 4 (Step 1)
  ++ spawn_at 4 2 "agent:a" "a" ++ replicate 2 (LoopStep 0 false) ++ spawn_at 4 3 "agent:a" "a".

Example stale_cleanup_two_loops :
  (λ s, (loops s !! 2, loops s !! 3)) <$> run_schedule stale_cleanup demo_manager
  = Some (Some (Serving "agent:a" "a"), Some (Serving "agent:a" "a")).
Proof. vm_compute. reflexivity. Qed.
